(* ===== verification/_CoqProject ===== *)
-Q . S2P
Prelude.v
GoText.v
RuneText.v
GoPath.v
Safetext.v
MeshTypes.v
GoJson.v
MeshStore.v
MeshFreshness.v
MeshFiles.v
MeshSync.v
MeshInventory.v
MeshBindings.v
MeshStoreFacts.v
MeshListFacts.v
MeshInventoryFacts.v
MeshInvariant.v
MeshSyncFacts.v
MeshWatch.v
HandoffManifest.v
HandoffRecord.v
HandoffStore.v
HandoffFacts.v
HandoffSteps.v
HandoffSystem.v
HandoffLiveness.v
HandoffWorld.v
HandoffWorldFacts.v
HandoffOutbox.v
HandoffOutboxFacts.v
Session.v
HandoffTarget.v
HandoffTargetFacts.v
HandoffTargetLaws.v
HandoffEndToEnd.v
HandoffLocks.v
PeerRegistry.v
PeerRpc.v
PeerRpcFacts.v
PeerEvents.v
PeerEventFacts.v
PeerLink.v
PeerLinkFacts.v
PeerPing.v
Screenstitch.v
StitchFacts.v
HookState.v
HookFacts.v
SessionView.v
GoalSummary.v
WorkFacts.v
Health.v
HealthFacts.v
Delivery.v
DeliveryFacts.v
MeshWire.v
MeshWireFacts.v
MeshPages.v
MeshPagesFacts.v
MeshPagesLive.v
MeshEndToEnd.v
MeshSubs.v
MeshWorkers.v
MeshReconcile.v
MeshSubsFacts.v
SessionEnv.v
Bolt.v
Inbox.v
Pulse.v
PulseSupervisor.v
SendInbox.v
SendFacts.v
MeshWitnesses.v
HandoffWitnesses.v
PeerWitnesses.v
WorkWitnesses.v
MeshPagesWitnesses.v
DaemonSessions.v
InboxWitnesses.v
