(* ===== verification/Prelude.v ===== *)
(** * arcmux: a verification development

    arcmux (src/) supervises agent sessions on a machine and connects machines
    into a mesh. This library models its core logic, written in Go under
    src/internal, and proves it. Definitions keep the names of the Go code; a
    method [T.m] that would clash is written [T_m].

    ** The program's parts and the files that model them

    - meshstate/ (types.go, store.go, session_inventory.go,
      artifact_inventory.go): the durable store of what other machines have
      announced. MeshTypes holds the records and validators, MeshStore the
      handlers' state (files, subscriptions, clock, pending write failures) and
      the access to files, MeshFreshness the freshness rules, MeshFiles the reads
      and listings, MeshSync the peer-level transitions, MeshInventory the
      snapshots and inventories, MeshBindings the surface bindings. A handler is a
      function in the monad [M] of this file: the state after an error is the
      state the error left, as in Go. Facts are in MeshStoreFacts,
      MeshListFacts (with the files an operation may touch), MeshInventoryFacts,
      MeshInvariant, MeshSyncFacts and MeshWatch.
    - safetext/credentials.go: Safetext, the credential patterns as a regular
      expression matcher, and the shapes of text they recognise.
    - handoff/ (manifest.go, record.go, store.go): HandoffManifest, HandoffRecord
      and HandoffStore, the two state machines of a handoff and their durable
      records; HandoffFacts to HandoffLiveness reason about every sequence of
      store operations.
    - HandoffWorld is what both daemons of a handoff share: store operations,
      calls to the other daemon, waits, and [others], the other users of the
      same store, who may act at every wait. HandoffWorldFacts has the Hoare
      rules of these programs and the classes the two sides instantiate.
    - daemon/handoff_outbox.go: HandoffOutbox, the source side that drives a
      record through prepare, launch, verify and retirement, calling a peer whose
      answers are arbitrary; HandoffOutboxFacts.
    - daemon/handoff_application.go: HandoffTarget, the target side (prepare,
      launch, status, verification, the resumption after a restart), over the
      session record of session/state.go (Session). HandoffTargetFacts and
      HandoffTargetLaws reason about it, HandoffEndToEnd about the two sides
      together, HandoffLocks about its two keyed mutexes.
    - mesh/registry.go and the credential check of mesh/mesh.go: PeerRegistry.
    - mesh/rpc.go: PeerRpc (requests and responses of one connection) and
      PeerEvents (the outgoing event queue and the local subscriptions);
      PeerRpcFacts, PeerEventFacts.
    - mesh/mesh.go and mesh/tunnel.go: PeerLink (current connections, published
      status, connect loop, heartbeat, retry timing, redaction) and PeerPing (the
      table of waiting pings); PeerLinkFacts.
    - screenstitch/ with daemon/recorder.go: Screenstitch (aligning successive
      captures of a terminal and recording the lines), StitchFacts.
    - hooks/sessionstate.go, history_binding.go: HookState, the document that the
      hooks of an agent keep about its session, its writers and reader; HookFacts.
    - sessionview/: SessionView, what may be shown of a session to other devices.
      daemon/goal_summarizer.go: GoalSummary, the line about its current work.
      WorkFacts follows such a line from its view back to a checked answer.
    - health/monitor.go: Health, the tick that decides whether a session works, is
      idle or stuck; HealthFacts has its abstract transitions.
    - delivery/ with the runtime of daemon/prompt_delivery.go: Delivery (the three
      judges and the loop that submits a prompt until it is taken), DeliveryFacts.
    - daemon/mesh_application.go: MeshWire, what crosses the mesh (messages, the
      cleaning of session views on their way out and in, topics, pages), and
      MeshPages, the cache behind the cursors and the reading of another
      machine's inventory into the mesh state store. MeshWireFacts, MeshPagesFacts,
      MeshPagesLive and MeshEndToEnd follow a session from one machine's catalog
      to a read at the other. MeshSubs has the subscriptions in both directions,
      the sending of events and gaps, and the synchronisation of a peer; MeshWorkers
      the synchronisation workers, one step per access to shared state; MeshReconcile
      the runtime and the goroutine that takes events, statuses and tickers; with
      MeshSubsFacts. GoPath and GoJson hold what these take from path/filepath,
      strconv, time and encoding/json.
    - manager/store/: Inbox (the transactions of the coordination store, over the
      buckets of Bolt, an interface of bbolt with an instance). manager/pulse/:
      Pulse (the loop that wakes the pane of a project), and
      daemon/pulse_supervisor.go: PulseSupervisor (one pulser per project).
      daemon/grpc_c1.go with the draining of inboxes in daemon/daemon.go:
      SendInbox, one step per access to what handlers share; SendFacts.
    - hooks/envfile.go and cmd/arcmux/hookenv.go with the launch commands of
      daemon/daemon.go: SessionEnv (the environment file of a session and what
      the shell of its pane makes of it).
    - daemon/daemon.go, events.go, exec_transport.go and the creation and closing of
      sessions in http.go: DaemonSessions, the table of sessions with its monitors,
      recorders and processes, the event bus, the inventory file, creating,
      prompting and ending, and the exec transport. Its runs are sequences of the
      stretches of handlers between two waits; the handlers that create and end
      sessions take as an argument what the others do at each of their waits.
    - The files ending in Witnesses apply the theorems to concrete runs, and hold
      the runs behind the findings.

    The parts meet as follows. The outbox keeps its records in the handoff store
    (HandoffOutbox runs HandoffStore's operations on its own state); the target
    keeps its records in a store of its own, and the two exchange the messages
    of HandoffWorld. The manifest
    and the store screen texts with Safetext. The RPC substrate takes principals
    from the registry. Events and pings are queues of the connections PeerLink
    activates; each is modelled with the part of [peerRuntime] it owns. The
    documents of HookState are read by the health monitor, the hooks judge, the
    summarizer and the views, over the session record of Session. RuneText holds
    the text functions of Go they share.

    ** How code is modelled

    Handlers run under the locks the code holds, so an operation is one step;
    where the code releases a lock in the middle (a connection's closing, the
    writer, pings, RPC handlers, creations) the pieces are separate steps that
    others may come between. The receivers of a Watch channel take no lock, so
    they may read between any two sends and while a full channel is drained.
    Goroutines are not modelled beyond that. A file is absent,
    irregular, or regular with permissions and the value it decodes to. JSON is
    represented by the value it stands for and, where a bound is checked, by its
    length, which GoJson computes where the code encodes; metadata kept raw has
    the length it arrived with and the one it has once a file is indented. The deferred Abort of an
    inventory that was not committed only drops the value in memory. Every write may fail, as the list of outcomes in the state decides.
    Time is nanoseconds; a clock is a function. Maps are [gmap]s; where Go ranges
    over a map the model either is independent of the order or takes it as an
    argument. A context is the number of polling ticks before its deadline; a
    polling loop has that many rounds and one more as fuel, which its
    termination lemma proves enough; when the ticker and the context are both
    ready, the context is taken. A resumption the code runs in the background
    is part of the operation that starts it. Counters that wrap ([uint64]) and
    durations ([int64]) are integers with their wrap-around written out. Recursion
    is structural or has fuel taken from the length of its input, which its
    lemmas prove enough. Texts are byte strings; where Go ranges over runes the
    string is decoded, invalid bytes to U+FFFD. What the Unicode tables say of
    runes beyond ASCII is an argument ([UnicodeTables]). A float64 is the rational
    it denotes and is only compared. A poll, a tick or a round of a loop takes
    what the terminal, the clock and the services answer as its input, so a run
    is a list of inputs; between the accesses of a tick other users of the
    session may act.

    ** What is proved

    Store: reachable stores hold only valid files and their listings agree with
    their reads, as long as metadata fits its bound when indented; a committed inventory is exactly what reads show, an interrupted
    one shows nothing fresh, cursors never go back, bindings and subscriptions
    keep their promises, no forbidden metadata is ever served. Handoff: records
    follow legal transitions only, revisions are compare-and-swap, every legal
    transition stays enabled, and the outbox makes each call only with the
    version and the state of the record that authorize it, also
    when others use the store meanwhile. The target starts nothing its source
    did not ask for, answers a verification from its durable proof only, what
    the source retires on was acknowledged at the target, and preparations that
    share a key exclude each other.
    Texts: a text is refused as credential material exactly when it holds one of
    nine shapes.
    Peers: the registry round-trips and authenticates one device per credential;
    a connection is default-deny and bounded, cancellation is final, event loss
    is announced at both ends, statuses follow the current connection, delays
    stay in their window, published errors carry no credential.
    Sessions: recording a scrolling screen of distinct lines loses and repeats
    nothing; what a hook
    document shows is a function of the events recorded; a summary is written
    only over the very document it was made from, and a current-work line shown
    to others was made by the summarizer, checked, and copies no long word; a
    tick of the monitor makes only transitions its evidence allows, and leaves a
    session as it is only when none is due; a delivery
    ends, submits a bounded number of times, is confirmed on evidence of its own
    rounds, and exports nothing of a private session.
    Between machines: what is kept of a session view of a peer is clean, bounded
    and below the home directory; an inventory read page by page is one the peer
    held, whatever others ask meanwhile, can always be read to its end, and is
    what a reader of the store then finds, in the encoding that was published.
    Events go only to peers that asked for them on the connection they have; a
    pass over the link statuses makes of each peer what its status says; edges
    that reach a synchronisation worker while it runs are not forgotten, and a
    worker that nothing reaches ends; a peer is not shown fresh between its two
    inventories.
    Messages: the inboxes are queues in order of receipt, a message answered as
    queued is never lost however handlers interleave, and undisturbed drains
    deliver in order; the pulser wakes its pane when more is queued or the review
    is due, and tries a refused wake again; every store the pulse supervisor opens
    is closed again, after its pulser has ended.
    Launching: what the shell of a pane evaluates exports variables of arcmux and
    runs nothing else, whatever is on the disk, and is what was stored for that
    very session of that profile.
    Daemon sessions: a restart that can read the inventory works from what was
    written of the sessions that had not ended, or from the inventory before when
    the write reported an error, and brings back those whose profile and pane are
    there; [Kill] gives a session up only after tmux has said that its pane is
    gone; a creation answers with the session of its owner and name it finds, or
    adds one with the identities of its daemon; subscribers of the bus read in
    order; no process is registered once the daemon is stopping.

    ** Not modelled

    The start-up and the reloading of the daemon, and the waits for terminals and
    processes. The publishing of instruction files and the HTTP handlers are
    outside, like process execution, terminals, sockets, gRPC, the inside of bbolt, git and the
    language-model calls: where a model needs their answer it is an argument. *)

(** This file holds the shared vocabulary: Go results and errors, a
    state-and-error monad in which side effects survive an error return (as
    they do in Go), loops over slices, machine integers, wall-clock values,
    sorting, channels, files, and the small Hoare logic in which the component
    files reason about handlers. *)

(** This file holds the shared vocabulary: Go results and errors, a
    state-and-error monad in which side effects survive an error return (as
    they do in Go), loops over slices, machine integers, wall-clock values,
    sorting, channels, files, and the small Hoare logic in which the component
    files reason about handlers. *)

From stdpp Require Import base gmap strings list fin_maps sorting.
From Stdlib Require Import ZArith Lia.

Declare Scope go_scope.
Delimit Scope go_scope with go.

Create HintDb go discriminated.

(** ** Results *)

(** A Go call that returns [(value, error)]. *)
Inductive result (E A : Type) : Type :=
| Ok (a : A)
| Err (e : E).
Arguments Ok {E A} a.
Arguments Err {E A} e.

#[global] Instance result_ret {E} : MRet (result E) := λ A a, Ok a.
#[global] Instance result_bind {E} : MBind (result E) := λ A B f r,
  match r with Ok a => f a | Err e => Err e end.
#[global] Instance result_fmap {E} : FMap (result E) := λ A B f r,
  match r with Ok a => Ok (f a) | Err e => Err e end.

#[global] Instance result_eq_dec {E A} `{EqDecision E, EqDecision A} :
  EqDecision (result E A).
Proof. solve_decision. Defined.

Definition got {E A} (r : result E A) (otherwise : A) : A :=
  match r with Ok a => a | Err _ => otherwise end.
Definition is_ok {E A} (r : result E A) : bool :=
  match r with Ok _ => true | Err _ => false end.

(** [if !cond { return err }] *)
Definition guard_err {E} (b : bool) (e : E) : result E unit :=
  if b then Ok tt else Err e.

Section Results.
Context {E A B : Type}.

Lemma result_bind_ok (r : result E A) (f : A → result E B) b :
  (r ≫= f) = Ok b ↔ ∃ a, r = Ok a ∧ f a = Ok b.
Proof.
  split; [|by intros (a & -> & ?)].
  destruct r as [a|e]; simpl; [by exists a|done].
Qed.

Lemma guard_err_ok (b : bool) (e : E) u : guard_err b e = Ok u ↔ b = true.
Proof. destruct b, u; simpl; naive_solver. Qed.
End Results.

(** A fold over a slice that returns at the first error. *)
Fixpoint all_ok {E A} (f : A → result E unit) (l : list A) : result E unit :=
  match l with
  | [] => Ok tt
  | x :: l' => f x ≫= λ _, all_ok f l'
  end.

Lemma all_ok_Forall {E A} (f : A → result E unit) l u :
  all_ok f l = Ok u ↔ Forall (λ x, f x = Ok tt) l.
Proof.
  destruct u. induction l as [|x l IH]; simpl; [split; constructor|].
  rewrite result_bind_ok, Forall_cons, <- IH. split.
  - intros ([] & ? & ?). done.
  - intros [-> ?]. by exists tt.
Qed.

(** Break every successful chain of result binds in the context. *)
Ltac inv_ok :=
  repeat match goal with
  | H : context [match ?r with Ok _ => _ | Err _ => _ end] |- _ =>
      first [ is_var r; destruct r | destruct r eqn:? ]; simplify_eq/=
  | H : guard_err _ _ = Ok _ |- _ => apply guard_err_ok in H
  | H : mbind _ _ = Ok _ |- _ => apply result_bind_ok in H as (? & ? & ?)
  | H : mret _ = Ok _ |- _ => unfold mret, result_ret in H
  | H : Err _ = Ok _ |- _ => discriminate H
  | H : Ok _ = Ok _ |- _ => injection H as H; subst
  | u : unit |- _ => destruct u
  end.

(** ** The handler monad *)

Definition M (S E A : Type) : Type := S → result E A * S.

Section HandlerMonad.
Context {S E : Type}.

#[global] Instance M_ret : MRet (M S E) := λ A a s, (Ok a, s).
#[global] Instance M_bind : MBind (M S E) := λ A B f m s,
  match m s with (Ok a, s') => f a s' | (Err e, s') => (Err e, s') end.

Definition throw {A} (e : E) : M S E A := λ s, (Err e, s).
Definition lift {A} (r : result E A) : M S E A := λ s, (r, s).
Definition gets {A} (f : S → A) : M S E A := λ s, (Ok (f s), s).
Definition modify (f : S → S) : M S E unit := λ s, (Ok tt, f s).
(** [v, err := m()], with the error inspected by the caller. *)
Definition try {A} (m : M S E A) : M S E (result E A) := λ s,
  let '(r, s') := m s in (Ok r, s').

(** [for _, x := range l { if err := f(x); err != nil { return err } }] *)
Fixpoint for_each {A} (f : A → M S E unit) (l : list A) : M S E unit :=
  match l with
  | [] => mret tt
  | x :: l' => f x ≫= λ _, for_each f l'
  end.

(** ** Hoare triples over handlers, one postcondition per outcome *)

Definition hoare {A} (P : S → Prop) (m : M S E A)
    (Q : A → S → Prop) (X : E → S → Prop) : Prop :=
  ∀ s, P s → match m s with (Ok a, s') => Q a s' | (Err e, s') => X e s' end.

Lemma hoare_conseq {A} (P P' : S → Prop) (m : M S E A) Q Q' X X' :
  hoare P' m Q' X' → (∀ s, P s → P' s) → (∀ a s, Q' a s → Q a s) →
  (∀ e s, X' e s → X e s) → hoare P m Q X.
Proof.
  intros Hm HP HQ HX s Hs. specialize (Hm s (HP _ Hs)).
  destruct (m s) as [[]]; auto.
Qed.

Lemma hoare_pre {A} (P P' : S → Prop) (m : M S E A) Q X :
  hoare P' m Q X → (∀ s, P s → P' s) → hoare P m Q X.
Proof. intros Hm HP. by eapply hoare_conseq. Qed.

Lemma hoare_ret {A} (a : A) Q X : hoare (Q a) (mret a) Q X.
Proof. by intros s. Qed.

Lemma hoare_throw {A} e (Q : A → S → Prop) X : hoare (X e) (throw e) Q X.
Proof. by intros s. Qed.

Lemma hoare_lift {A} (r : result E A) Q X :
  hoare (λ s, match r with Ok a => Q a s | Err e => X e s end) (lift r) Q X.
Proof. by intros s. Qed.

Lemma hoare_gets {A} (f : S → A) (Q : A → S → Prop) X :
  hoare (λ s, Q (f s) s) (gets f) Q X.
Proof. by intros s. Qed.

Lemma hoare_modify f (Q : unit → S → Prop) X :
  hoare (λ s, Q tt (f s)) (modify f) Q X.
Proof. by intros s. Qed.

Lemma hoare_bind {A B} P (m : M S E A) (f : A → M S E B) R Q X :
  hoare P m R X → (∀ a, hoare (R a) (f a) Q X) → hoare P (m ≫= f) Q X.
Proof.
  intros Hm Hf s Hs. specialize (Hm s Hs). unfold mbind, M_bind.
  destruct (m s) as [[a|e] s']; [by apply Hf|done].
Qed.

(** A check whose success the continuation may use. *)
Lemma hoare_lift_bind {A B} P (r : result E A) (f : A → M S E B) Q X :
  (∀ a, r = Ok a → hoare P (f a) Q X) → (∀ e s, r = Err e → P s → X e s) →
  hoare P (lift r ≫= f) Q X.
Proof.
  intros Hf He s Hs. unfold mbind, M_bind, lift. destruct r as [a|e]; [by apply Hf|by apply He].
Qed.

(** A step that keeps [P] and establishes a fact about its result. *)
Lemma hoare_keep_bind {A B} P (φ : A → Prop) (m : M S E A) (f : A → M S E B) Q X :
  hoare P m (λ a s, P s ∧ φ a) X → (∀ a, φ a → hoare P (f a) Q X) → hoare P (m ≫= f) Q X.
Proof.
  intros Hm Hf. eapply hoare_bind; [exact Hm|]. intros a s [Hs Ha]. by apply Hf.
Qed.

Lemma hoare_run {A} P (m : M S E A) Q X s :
  hoare P m Q X → P s → match m s with (Ok a, s') => Q a s' | (Err e, s') => X e s' end.
Proof. intros Hm. apply Hm. Qed.

Lemma hoare_try {A} P (m : M S E A) (Q : result E A → S → Prop) X :
  hoare P m (λ a, Q (Ok a)) (λ e, Q (Err e)) → hoare P (try m) Q X.
Proof.
  intros Hm s Hs. specialize (Hm s Hs). unfold try.
  by destruct (m s) as [[a|e] s'].
Qed.

(** The loop rule: an invariant over the processed prefix. *)
Lemma hoare_for_each {A} (f : A → M S E unit) (l : list A)
    (I : list A → S → Prop) X :
  (∀ pre x rest, l = pre ++ x :: rest →
     hoare (I pre) (f x) (λ _, I (pre ++ [x])) X) →
  hoare (I []) (for_each f l) (λ _, I l) X.
Proof.
  assert (∀ rest pre, l = pre ++ rest →
    (∀ pre x rest, l = pre ++ x :: rest →
       hoare (I pre) (f x) (λ _, I (pre ++ [x])) X) →
    hoare (I pre) (for_each f rest) (λ _, I l) X) as H.
  { induction rest as [|y rest IH]; intros pre Hl Hf; simpl.
    - rewrite app_nil_r in Hl. subst. by intros s.
    - eapply hoare_bind; [exact (Hf pre y rest Hl)|]. intros [].
      apply IH; [by rewrite <- app_assoc|done]. }
  intros Hf. by apply (H l []).
Qed.

(** ** State relations every step respects (frames and invariants) *)

Definition respects (R : relation S) {A} (m : M S E A) : Prop :=
  ∀ s, R s (m s).2.

Section Respects.
Context (R : relation S) `{!PreOrder R}.

Lemma respects_ret {A} (a : A) : respects R (mret a).
Proof. by intros s. Qed.
Lemma respects_throw {A} e : respects R (throw (A:=A) e).
Proof. by intros s. Qed.
Lemma respects_lift {A} (r : result E A) : respects R (lift r).
Proof. by intros s. Qed.
Lemma respects_gets {A} (f : S → A) : respects R (gets f).
Proof. by intros s. Qed.
Lemma respects_bind {A B} (m : M S E A) (f : A → M S E B) :
  respects R m → (∀ a, respects R (f a)) → respects R (m ≫= f).
Proof.
  intros Hm Hf s. specialize (Hm s). unfold mbind, M_bind.
  destruct (m s) as [[a|e] s'] eqn:Es; simpl in *; [|done].
  by transitivity s'; [|apply Hf].
Qed.
(** The continuation of a successful check may use what was checked. *)
Lemma respects_lift_bind {A B} (r : result E A) (f : A → M S E B) :
  (∀ a, r = Ok a → respects R (f a)) → respects R (lift r ≫= f).
Proof.
  intros Hf s. unfold mbind, M_bind, lift. destruct r as [a|e]; simpl; [by apply Hf|done].
Qed.
Lemma respects_try {A} (m : M S E A) : respects R m → respects R (try m).
Proof. intros Hm s. specialize (Hm s). unfold try. by destruct (m s). Qed.
Lemma respects_for_each {A} (f : A → M S E unit) l :
  (∀ x, x ∈ l → respects R (f x)) → respects R (for_each f l).
Proof.
  induction l as [|x l IH]; simpl; intros Hf; [apply respects_ret|].
  apply respects_bind; [apply Hf; left|]. intros _. apply IH.
  intros y Hy. apply Hf. by right.
Qed.
End Respects.

(** Running a bind: inversion on success. *)
Lemma bind_run_ok {A B} (m : M S E A) (f : A → M S E B) s b s' :
  (m ≫= f) s = (Ok b, s') ↔ ∃ a s1, m s = (Ok a, s1) ∧ f a s1 = (Ok b, s').
Proof.
  unfold mbind, M_bind. destruct (m s) as [[a|e] s1].
  - split; [by exists a, s1|]. by intros (? & ? & [= <- <-] & ?).
  - split; [done|]. by intros (? & ? & ? & ?).
Qed.

Lemma bind_run_err {A B} (m : M S E A) (f : A → M S E B) s e s' :
  (m ≫= f) s = (Err e, s') ↔
  m s = (Err e, s') ∨ ∃ a s1, m s = (Ok a, s1) ∧ f a s1 = (Err e, s').
Proof.
  unfold mbind, M_bind. destruct (m s) as [[a|e'] s1].
  - split; [by right; exists a, s1|].
    by intros [?|(? & ? & [= <- <-] & ?)].
  - split; [by left; congruence|].
    by intros [?|(? & ? & ? & ?)]; [congruence|].
Qed.
End HandlerMonad.

#[export] Hint Resolve respects_ret respects_throw respects_lift respects_gets
  respects_try : go.

(** Decompose a handler structurally and close the leaves with hints. *)
Ltac respects_step :=
  match goal with
  | |- respects _ (mbind _ _) => apply respects_bind; [typeclasses eauto| |intros ?]
  | |- respects _ (for_each _ _) => apply respects_for_each; [typeclasses eauto|intros ? ?]
  | |- respects _ (try _) => apply respects_try
  | |- respects _ (if ?b then _ else _) => destruct b
  | |- respects _ (match ?x with _ => _ end) => destruct x
  | |- respects _ _ => solve [eauto with go typeclass_instances]
  end.
Ltac respects := repeat respects_step.

(** Turn a successful run of a handler into equations on its steps. *)
Ltac inv_run :=
  repeat match goal with
  | H : mbind _ _ _ = (Ok _, _) |- _ => apply bind_run_ok in H as (? & ? & ? & ?)
  | H : lift _ _ = (_, _) |- _ => unfold lift in H; simplify_eq/=
  | H : gets _ _ = (_, _) |- _ => unfold gets in H; simplify_eq/=
  | H : modify _ _ = (_, _) |- _ => unfold modify in H; simplify_eq/=
  | H : mret _ _ = (_, _) |- _ => unfold mret, M_ret in H; simplify_eq/=
  | H : throw _ _ = (Ok _, _) |- _ => discriminate H
  end.

(** ** Machine integers *)

Definition u64_max : Z := 18446744073709551615.
(** [x + 1] on a [uint64]. *)
Definition u64_succ (x : Z) : Z := (x + 1) mod 18446744073709551616.
(** 64-bit signed arithmetic, as in [time.Duration] and [int]. *)
Definition s64 (x : Z) : Z := (x + 9223372036854775808) mod 18446744073709551616 - 9223372036854775808.
Definition u32_succ (x : Z) : Z := (x + 1) mod 4294967296.

Lemma u64_succ_small x : (0 ≤ x < u64_max)%Z → u64_succ x = (x + 1)%Z.
Proof. unfold u64_succ, u64_max. intros. apply Z.mod_small. lia. Qed.

Lemma s64_id x : (-9223372036854775808 ≤ x < 9223372036854775808)%Z → s64 x = x.
Proof. intros. unfold s64. rewrite Z.mod_small; lia. Qed.
Lemma u64_succ_range x : (0 ≤ u64_succ x ≤ u64_max)%Z.
Proof.
  unfold u64_succ, u64_max.
  pose proof (Z.mod_pos_bound (x + 1) 18446744073709551616). lia.
Qed.

(** ** Wall-clock values *)

(** A [time.Time]: nanoseconds since the zero instant of year 1, and whether
    its [Location] is UTC. The zero value of the Go type is [zero_time]. *)
Record Time := mkTime { t_ns : Z; t_utc : bool }.
#[global] Instance Time_eq_dec : EqDecision Time.
Proof. solve_decision. Defined.

Definition zero_time : Time := mkTime 0 true.
Definition IsZero (t : Time) : bool := Z.eqb (t_ns t) 0.
Definition UTC (t : Time) : Time := mkTime (t_ns t) true.
Definition After (t u : Time) : bool := Z.ltb (t_ns u) (t_ns t).
Definition Before (t u : Time) : bool := Z.ltb (t_ns t) (t_ns u).
Definition min_duration : Z := -9223372036854775808.
Definition max_duration : Z := 9223372036854775807.
(** [t.Sub(u)] saturates. *)
Definition time_sub (t u : Time) : Z := Z.max min_duration (Z.min max_duration (t_ns t - t_ns u)).

(** [time.Unix(1, 0).UTC()]: one second after 1970-01-01. *)
Definition unix_one : Time := mkTime 62135596801000000000 true.

Lemma IsZero_UTC t : IsZero (UTC t) = IsZero t.
Proof. done. Qed.

(** ** Sorting *)

(** [sort.Strings]: byte-wise lexicographic order. *)
Definition sort_strings (l : list string) : list string := merge_sort String.le l.

Lemma sort_strings_Permutation l : sort_strings l ≡ₚ l.
Proof. apply merge_sort_Permutation. Qed.
Lemma elem_of_sort_strings x l : x ∈ sort_strings l ↔ x ∈ l.
Proof. by rewrite sort_strings_Permutation. Qed.
Lemma sort_strings_Sorted l : Sorted String.le (sort_strings l).
Proof. apply Sorted_merge_sort. apply _. Qed.

(** [sort.Slice] by a string key. *)
Definition key_le {A} (key : A → string) (x y : A) : Prop :=
  String.le (key x) (key y).
#[global] Instance key_le_dec {A} (key : A → string) : RelDecision (key_le key).
Proof. intros x y. unfold key_le. apply _. Defined.
#[global] Instance key_le_total {A} (key : A → string) : Total (key_le key).
Proof. intros x y. apply (total String.le). Qed.
#[global] Instance key_le_trans {A} (key : A → string) : Transitive (key_le key).
Proof. intros x y z. unfold key_le. apply transitivity. Qed.

Definition sort_by_key {A} (key : A → string) (l : list A) : list A :=
  merge_sort (key_le key) l.
Lemma elem_of_sort_by_key {A} (key : A → string) x l :
  x ∈ sort_by_key key l ↔ x ∈ l.
Proof. unfold sort_by_key. by rewrite merge_sort_Permutation. Qed.

Lemma NoDup_fmap_inj_on {A B} (f : A → B) l x y :
  NoDup (f <$> l) → x ∈ l → y ∈ l → f x = f y → x = y.
Proof.
  induction l as [|z l IH]; simpl; [by intros _ ?%elem_of_nil|].
  intros [Hz Hnd]%NoDup_cons [->|Hx]%elem_of_cons [->|Hy]%elem_of_cons Heq; auto.
  - destruct Hz. rewrite Heq. by apply list_elem_of_fmap_2.
  - destruct Hz. rewrite <- Heq. by apply list_elem_of_fmap_2.
Qed.

(** ** Folding updates into a finite map *)

Section MapFold.
Context {K A : Type} `{Countable K} (key : A → K).

(** Writing each item of a list under its key, in list order. *)
Definition insert_all {B} (val : A → B) (l : list A) (m : gmap K B) : gmap K B :=
  fold_left (λ m x, <[key x := val x]> m) l m.

Lemma insert_all_app {B} (val : A → B) l1 l2 m :
  insert_all val (l1 ++ l2) m = insert_all val l2 (insert_all val l1 m).
Proof. unfold insert_all. by rewrite fold_left_app. Qed.

Lemma insert_all_ne {B} (val : A → B) l m k :
  (∀ x, x ∈ l → key x ≠ k) → insert_all val l m !! k = m !! k.
Proof.
  revert m. induction l as [|x l IH]; intros m Hk; [done|]. simpl.
  rewrite IH by (intros; apply Hk; by right).
  apply lookup_insert_ne, Hk. by left.
Qed.

Lemma insert_all_in {B} (val : A → B) l m x :
  NoDup (key <$> l) → x ∈ l → insert_all val l m !! key x = Some (val x).
Proof.
  revert m. induction l as [|y l IH]; intros m Hnd Hx; [by apply not_elem_of_nil in Hx|].
  simpl in *. apply NoDup_cons in Hnd as [Hy Hnd].
  apply elem_of_cons in Hx as [->|Hx]; [|by apply IH].
  rewrite insert_all_ne; [apply lookup_insert_eq|].
  intros z Hz Heq. apply Hy. rewrite <- Heq. by apply list_elem_of_fmap_2.
Qed.

(** Either untouched or equal to one of the written values. *)
Lemma insert_all_cases {B} (val : A → B) l m k :
  insert_all val l m !! k = m !! k ∨
  ∃ x, x ∈ l ∧ key x = k ∧ insert_all val l m !! k = Some (val x).
Proof.
  revert m. induction l as [|x l IH]; intros m; [by left|]. simpl.
  destruct (IH (<[key x := val x]> m)) as [Heq|(y & Hy & Hk & Heq)].
  - rewrite Heq. destruct (decide (key x = k)) as [<-|Hne].
    + right. exists x. rewrite lookup_insert_eq. repeat split. left.
    + left. by apply lookup_insert_ne.
  - right. exists y. repeat split; [by right|done..].
Qed.
End MapFold.

(** ** Buffered channels *)

(** A Go channel with a buffer, seen through non-blocking operations. *)
Record Chan (A : Type) := mkChan { ch_cap : nat; ch_buf : list A }.
Arguments mkChan {A} _ _.
Arguments ch_cap {A} _.
Arguments ch_buf {A} _.

(** [select { case ch <- x: default: }]: [None] is the default branch. *)
Definition try_send {A} (ch : Chan A) (x : A) : option (Chan A) :=
  if bool_decide (length (ch_buf ch) < ch_cap ch)
  then Some (mkChan (ch_cap ch) (ch_buf ch ++ [x])) else None.

(** [select { case x := <-ch: default: }] *)
Definition try_recv {A} (ch : Chan A) : option (A * Chan A) :=
  match ch_buf ch with
  | [] => None
  | x :: b => Some (x, mkChan (ch_cap ch) b)
  end.

(** Receive until empty. *)
Definition drain {A} (ch : Chan A) : Chan A := mkChan (ch_cap ch) [].

Section Channels.
Context {A : Type}.
Implicit Types (ch : Chan A) (x : A).

Lemma try_send_Some ch x ch' :
  try_send ch x = Some ch' ↔
  length (ch_buf ch) < ch_cap ch ∧ ch' = mkChan (ch_cap ch) (ch_buf ch ++ [x]).
Proof.
  unfold try_send. case_bool_decide.
  - split; [by intros [= <-]|by intros [_ ->]].
  - split; [done|by intros [? _]].
Qed.

Lemma try_send_None ch x :
  try_send ch x = None ↔ ch_cap ch ≤ length (ch_buf ch).
Proof.
  unfold try_send. case_bool_decide; split; intros; try done; lia.
Qed.

Lemma try_send_drained ch x :
  0 < ch_cap ch → try_send (drain ch) x = Some (mkChan (ch_cap ch) [x]).
Proof. intros. by apply try_send_Some. Qed.
End Channels.

(** ** Files *)

(** What [os.Lstat] and [os.ReadFile] find at a path: a regular file with its
    permission bits and decoded JSON ([None] when it does not decode), or
    something that is not a regular file. *)
Inductive File (A : Type) :=
| Regular (perm : Z) (content : option A)
| Irregular.
Arguments Regular {A} perm content.
Arguments Irregular {A}.
