(* ===== verification/GoText.v ===== *)
(** Go text primitives the arcmux validators are built on: UTF-8 decoding of
    byte strings into runes, the character classes and anchored patterns that
    the source writes as [regexp] values, and the [strings] helpers. A Go
    string is a byte string, so it is modelled by [string]; [runes] is what
    [for _, r := range s] and [[]rune(s)] see. *)

From S2P Require Import Prelude.
From stdpp Require Import base strings list.
From Stdlib Require Import ZArith Lia Ascii.

Open Scope Z_scope.

(** ** Bytes and runes *)

Definition byte_val (c : ascii) : Z := Z.of_N (N_of_ascii c).

Fixpoint str_bytes (s : string) : list Z :=
  match s with
  | EmptyString => []
  | String c s' => byte_val c :: str_bytes s'
  end.

(** [len(s)] *)
Definition str_len (s : string) : Z := Z.of_nat (String.length s).

Definition rune_error : Z := 65533.

Definition in_range (lo hi x : Z) : bool := (lo <=? x) && (x <=? hi).
Definition cont (x : Z) : bool := in_range 128 191 x.

(** The accepted range of the second byte, by leading byte ([utf8.first] /
    [utf8.acceptRanges]); [None] when the leading byte opens no sequence of
    three or four bytes. *)
Definition second_ok3 (b0 b1 : Z) : bool :=
  if b0 =? 224 then in_range 160 191 b1
  else if b0 =? 237 then in_range 128 159 b1
  else in_range 225 239 b0 && cont b1.
Definition second_ok4 (b0 b1 : Z) : bool :=
  if b0 =? 240 then in_range 144 191 b1
  else if b0 =? 244 then in_range 128 143 b1
  else in_range 241 243 b0 && cont b1.

(** [range] over a string: one [RuneError] per byte that starts no well-formed
    sequence. *)
Fixpoint decode_runes (l : list Z) : list Z :=
  match l with
  | [] => []
  | b0 :: l1 =>
      if b0 <? 128 then b0 :: decode_runes l1 else
      match l1 with
      | [] => [rune_error]
      | b1 :: l2 =>
          if in_range 194 223 b0 && cont b1
          then ((b0 - 192) * 64 + (b1 - 128)) :: decode_runes l2 else
          match l2 with
          | [] => rune_error :: decode_runes l1
          | b2 :: l3 =>
              if in_range 224 239 b0 && second_ok3 b0 b1 && cont b2
              then ((b0 - 224) * 4096 + (b1 - 128) * 64 + (b2 - 128)) :: decode_runes l3 else
              match l3 with
              | [] => rune_error :: decode_runes l1
              | b3 :: l4 =>
                  if in_range 240 244 b0 && second_ok4 b0 b1 && cont b2 && cont b3
                  then ((b0 - 240) * 262144 + (b1 - 128) * 4096 + (b2 - 128) * 64 + (b3 - 128))
                       :: decode_runes l4
                  else rune_error :: decode_runes l1
              end
          end
      end
  end.

Definition runes (s : string) : list Z := decode_runes (str_bytes s).
Definition rune_count (s : string) : Z := Z.of_nat (length (runes s)).

(** [unicode.IsControl] *)
Definition is_control (r : Z) : bool := (r <=? 31) && (0 <=? r) || in_range 127 159 r.
(** [unicode.IsSpace] *)
Definition is_space (r : Z) : bool :=
  in_range 9 13 r || (r =? 32) || (r =? 133) || (r =? 160) || (r =? 5760) ||
  in_range 8192 8202 r || (r =? 8232) || (r =? 8233) || (r =? 8239) ||
  (r =? 8287) || (r =? 12288).

(** [strings.TrimSpace(s) == ""] *)
Definition blank (s : string) : bool := forallb is_space (runes s).

(** ** ASCII classes and anchored patterns *)

Definition is_digit (c : ascii) : bool := in_range 48 57 (byte_val c).
Definition is_lower (c : ascii) : bool := in_range 97 122 (byte_val c).
Definition is_upper (c : ascii) : bool := in_range 65 90 (byte_val c).
Definition is_alnum (c : ascii) : bool := is_digit c || is_lower c || is_upper c.
Definition is_lc_alnum (c : ascii) : bool := is_digit c || is_lower c.
Definition is_lower_hex (c : ascii) : bool := is_digit c || in_range 97 102 (byte_val c).
Definition is_hex (c : ascii) : bool := is_lower_hex c || in_range 65 70 (byte_val c).
Definition char_is (d c : ascii) : bool := Ascii.eqb d c.
(** [[._-]] *)
Definition is_id_punct (c : ascii) : bool :=
  char_is "." c || char_is "_" c || char_is "-" c.

Fixpoint all_chars (p : ascii → bool) (s : string) : bool :=
  match s with
  | EmptyString => true
  | String c s' => p c && all_chars p s'
  end.

Definition len_between (lo hi : Z) (s : string) : bool := in_range lo hi (str_len s).

(** [^first rest{lo,hi}$] *)
Definition head_tail (first rest : ascii → bool) (lo hi : Z) (s : string) : bool :=
  match s with
  | EmptyString => false
  | String c s' => first c && all_chars rest s' && len_between lo hi s'
  end.

Fixpoint last_char (s : string) : option ascii :=
  match s with
  | EmptyString => None
  | String c EmptyString => Some c
  | String _ s' => last_char s'
  end.

(** [^[a-z0-9](?:[a-z0-9_-]{0,61}[a-z0-9])?$] *)
Definition slug_matches (s : string) : bool :=
  match s with
  | EmptyString => false
  | String c s' =>
      is_lc_alnum c &&
      match last_char s' with
      | None => true
      | Some z =>
          is_lc_alnum z && len_between 1 62 s' &&
          all_chars (λ d, is_lc_alnum d || char_is "_" d || char_is "-" d) s'
      end
  end.

(** ** [strings] helpers *)

Fixpoint has_prefix (p s : string) : bool :=
  match p, s with
  | EmptyString, _ => true
  | String a p', String b s' => Ascii.eqb a b && has_prefix p' s'
  | _, EmptyString => false
  end.

Fixpoint cut_prefix (p s : string) : option string :=
  match p, s with
  | EmptyString, _ => Some s
  | String a p', String b s' => if Ascii.eqb a b then cut_prefix p' s' else None
  | _, EmptyString => None
  end.

Fixpoint str_rev_app (s acc : string) : string :=
  match s with EmptyString => acc | String c s' => str_rev_app s' (String c acc) end.
Definition str_rev (s : string) : string := str_rev_app s "".
Definition has_suffix (p s : string) : bool := has_prefix (str_rev p) (str_rev s).

(** [strings.Contains] *)
Fixpoint contains (sub s : string) : bool :=
  has_prefix sub s ||
  match s with EmptyString => false | String _ s' => contains sub s' end.

(** [strings.ContainsAny] over ASCII cutsets *)
Definition contains_any (p : ascii → bool) (s : string) : bool :=
  negb (all_chars (λ c, negb (p c)) s).

(** [strings.Split(s, sep)] for a one-byte separator: never empty. *)
Fixpoint split_on (sep : ascii) (s : string) : list string :=
  match s with
  | EmptyString => [EmptyString]
  | String c s' =>
      if Ascii.eqb c sep then EmptyString :: split_on sep s' else
      match split_on sep s' with
      | [] => [String c EmptyString]
      | w :: ws => String c w :: ws
      end
  end.

(** [strings.ToLower], as far as comparisons with lower-case ASCII words see
    it: besides A-Z, the only runes whose lower case is ASCII are U+0130 and
    the Kelvin sign U+212A. Other runes have a non-ASCII lower case and are
    left alone. *)
Definition lower_rune (r : Z) : Z :=
  if in_range 65 90 r then r + 32
  else if r =? 304 then 105 else if r =? 8490 then 107 else r.
Definition lower_runes (s : string) : list Z := lower_rune <$> runes s.

Lemma all_chars_app p s1 s2 :
  all_chars p (s1 +:+ s2) = all_chars p s1 && all_chars p s2.
Proof.
  induction s1 as [|c s1 IH]; [done|].
  change (all_chars p (String c s1 +:+ s2)) with (p c && all_chars p (s1 +:+ s2)).
  rewrite IH. simpl. by rewrite andb_assoc.
Qed.

Lemma all_chars_impl (p q : ascii → bool) s :
  (∀ c, p c = true → q c = true) → all_chars p s = true → all_chars q s = true.
Proof.
  intros Hpq. induction s as [|c s IH]; simpl; [done|].
  intros [? ?]%andb_true_iff. rewrite andb_true_iff. auto.
Qed.

Lemma cut_prefix_spec p s r : cut_prefix p s = Some r → s = p +:+ r.
Proof.
  revert s. induction p as [|a p IH]; intros [|b s]; simpl.
  1,2: by intros [= <-].
  { done. }
  destruct (Ascii.eqb_spec a b) as [->|]; [|done]. by intros ->%IH.
Qed.

Lemma split_on_nonempty sep s : split_on sep s ≠ [].
Proof.
  destruct s as [|c s]; simpl; [done|]. destruct (Ascii.eqb c sep); [done|].
  by destruct (split_on sep s).
Qed.

(** A separator character splits a concatenation uniquely when the left parts
    do not contain it: composite keys joined with a separator are injective. *)
Lemma join_sep_inj (sep : ascii) a1 b1 a2 b2 :
  all_chars (λ c, negb (Ascii.eqb sep c)) a1 = true →
  all_chars (λ c, negb (Ascii.eqb sep c)) a2 = true →
  a1 +:+ String sep b1 = a2 +:+ String sep b2 → a1 = a2 ∧ b1 = b2.
Proof.
  revert a2. induction a1 as [|c a1 IH]; intros [|d a2]; simpl; intros H1 H2 Heq.
  - by injection Heq as ->.
  - injection Heq as <- _. by rewrite Ascii.eqb_refl in H2.
  - injection Heq as -> _. by rewrite Ascii.eqb_refl in H1.
  - injection Heq as -> Heq. apply andb_true_iff in H1 as [_ H1], H2 as [_ H2].
    destruct (IH a2 H1 H2 Heq) as [-> ->]. done.
Qed.
