(* ===== verification/RuneText.v ===== *)
(** Text as the runes Go sees in it: encoding runes back into bytes, and the
    [strings] functions on rune lists. The texts these functions are applied
    to come from JSON documents, requests and terminals and are valid UTF-8,
    where working on runes and on bytes agree. *)

From S2P Require Import Prelude GoText.
From stdpp Require Import base strings list.
From Stdlib Require Import ZArith Lia Ascii.

Open Scope Z_scope.

(** ** [string(runes)] *)

(** UTF-8; invalid runes are replaced. *)
Definition encode_rune (r : Z) : list Z :=
  let valid := in_range 0 55295 r || in_range 57344 1114111 r in
  let r := if valid then r else rune_error in
  if r <? 128 then [r]
  else if r <? 2048 then [192 + Z.shiftr r 6; 128 + Z.land r 63]
  else if r <? 65536 then [224 + Z.shiftr r 12; 128 + Z.land (Z.shiftr r 6) 63; 128 + Z.land r 63]
  else [240 + Z.shiftr r 18; 128 + Z.land (Z.shiftr r 12) 63; 128 + Z.land (Z.shiftr r 6) 63;
        128 + Z.land r 63].
Definition byte_ascii (b : Z) : ascii := ascii_of_N (Z.to_N b).
Definition bytes_string (l : list Z) : string := foldr (λ b s, String (byte_ascii b) s) "" l.
Definition runes_string (l : list Z) : string := bytes_string (l ≫= encode_rune).

(** ** The ends of a text *)

Fixpoint trim_left (p : Z → bool) (l : list Z) : list Z :=
  match l with [] => [] | c :: l' => if p c then trim_left p l' else l end.
Definition trim_right (p : Z → bool) (l : list Z) : list Z := rev (trim_left p (rev l)).
Definition TrimSpace (l : list Z) : list Z := trim_right is_space (trim_left is_space l).

(** ** Prefixes, searching, counting *)

Fixpoint runes_prefix (p s : list Z) : bool :=
  match p, s with
  | [], _ => true
  | x :: p', y :: s' => (x =? y) && runes_prefix p' s'
  | _, [] => false
  end.
Definition runes_suffix (p s : list Z) : bool := runes_prefix (rev p) (rev s).
Fixpoint runes_contain (sub s : list Z) : bool :=
  runes_prefix sub s || match s with [] => false | _ :: s' => runes_contain sub s' end.

(** [strings.Count] of a non-empty text: occurrences that do not overlap.
    [skip] runes belong to the occurrence found last. *)
Fixpoint count_from (sub : list Z) (skip : nat) (s : list Z) : nat :=
  match s with
  | [] => O
  | _ :: s' =>
      match skip with
      | S n => count_from sub n s'
      | O => if runes_prefix sub s then S (count_from sub (length sub - 1) s') else count_from sub O s'
      end
  end.
Definition runes_count (sub s : list Z) : nat := count_from sub 0 s.

(** ** Words *)

(** [strings.Fields]: [word] is the word being read, reversed. *)
Fixpoint fields_from (word : list Z) (s : list Z) : list (list Z) :=
  match s with
  | [] => match word with [] => [] | _ => [rev word] end
  | c :: s' =>
      if is_space c
      then match word with [] => fields_from [] s' | _ => rev word :: fields_from [] s' end
      else fields_from (c :: word) s'
  end.
Definition Fields (s : list Z) : list (list Z) := fields_from [] s.
(** [strings.Join(words, " ")] *)
Fixpoint join_words (words : list (list Z)) : list Z :=
  match words with
  | [] => []
  | [w] => w
  | w :: rest => w ++ 32 :: join_words rest
  end.
(** [strings.Join(strings.Fields(s), " ")] *)
Definition squeeze (s : list Z) : list Z := join_words (Fields s).

(** ** Letter case *)

(** The part of the Unicode tables beyond ASCII is an argument. *)
Class UnicodeTables := { lower_beyond : Z → Z }.
(** [strings.ToLower] *)
Definition ToLower `{UnicodeTables} (s : list Z) : list Z :=
  (λ r, if in_range 65 90 r then r + 32 else if r <? 128 then r else lower_beyond r) <$> s.

(** ** Facts: bytes below 128 *)

(** A byte below 128 is its own rune, and back. *)
Definition ascii_text (s : string) : Prop := Forall (λ b, 0 ≤ b < 128) (str_bytes s).

Lemma decode_runes_ascii l : Forall (λ b, 0 ≤ b < 128) l → decode_runes l = l.
Proof.
  induction 1 as [|b l Hb _ IH]; [done|]. simpl. rewrite (proj2 (Z.ltb_lt b 128)) by lia. by rewrite IH.
Qed.
Lemma runes_ascii s : ascii_text s → runes s = str_bytes s.
Proof. apply decode_runes_ascii. Qed.

Lemma encode_rune_ascii r : 0 ≤ r < 128 → encode_rune r = [r].
Proof.
  intros Hr. unfold encode_rune, in_range.
  rewrite (proj2 (Z.leb_le 0 r)), (proj2 (Z.leb_le r 55295)) by lia. simpl.
  by rewrite (proj2 (Z.ltb_lt r 128)) by lia.
Qed.

Lemma byte_ascii_val c : byte_ascii (byte_val c) = c.
Proof. unfold byte_ascii, byte_val. rewrite N2Z.id. apply ascii_N_embedding. Qed.

Lemma runes_string_cons r l : 0 ≤ r < 128 → runes_string (r :: l) = String (byte_ascii r) (runes_string l).
Proof. intros Hr. unfold runes_string. rewrite bind_cons, encode_rune_ascii by done. done. Qed.
Lemma runes_string_ascii s : ascii_text s → runes_string (str_bytes s) = s.
Proof.
  unfold ascii_text. induction s as [|c s IH]; [done|]. intros Hs. cbn [str_bytes] in Hs |- *.
  inversion Hs as [|b l Hb Hl]; subst. by rewrite runes_string_cons, byte_ascii_val, IH.
Qed.

Lemma str_bytes_app s t : str_bytes (s +:+ t) = str_bytes s ++ str_bytes t.
Proof. induction s as [|c s IH]; [done|]. simpl. by rewrite IH. Qed.
Lemma ascii_text_app s t : ascii_text (s +:+ t) ↔ ascii_text s ∧ ascii_text t.
Proof. unfold ascii_text. rewrite str_bytes_app. apply Forall_app. Qed.
Lemma str_bytes_length s : length (str_bytes s) = String.length s.
Proof. induction s as [|c s IH]; [done|]. simpl. by rewrite IH. Qed.

(** ** Facts: trimming *)

Lemma trim_left_length p l : (length (trim_left p l) ≤ length l)%nat.
Proof. induction l as [|c l IH]; simpl; [done|]. destruct (p c); simpl; lia. Qed.
Lemma trim_left_sub p q l : (∀ c, p c = true → q c = true) → trim_left q l = l → trim_left p l = l.
Proof.
  intros Hpq. destruct l as [|c l]; [done|]. simpl. destruct (q c) eqn:Hq.
  - intros Heq. exfalso. pose proof (trim_left_length q l) as Hlen. rewrite Heq in Hlen. simpl in Hlen. lia.
  - intros _. destruct (p c) eqn:Hp; [|done]. by rewrite (Hpq _ Hp) in Hq.
Qed.
Lemma trim_left_idemp p l : trim_left p (trim_left p l) = trim_left p l.
Proof. induction l as [|c l IH]; [done|]. simpl. destruct (p c) eqn:E; [done|]. simpl. by rewrite E. Qed.
Lemma trim_right_idemp p l : trim_right p (trim_right p l) = trim_right p l.
Proof. unfold trim_right. by rewrite rev_involutive, trim_left_idemp. Qed.
Lemma trim_right_sub p q l : (∀ c, p c = true → q c = true) → trim_right q l = l → trim_right p l = l.
Proof.
  unfold trim_right. intros Hpq Heq. rewrite (trim_left_sub p q (rev l) Hpq), rev_involutive; [done|].
  by rewrite <- (rev_involutive (trim_left q (rev l))), Heq.
Qed.

(** ** Facts: searching *)

Lemma runes_prefix_spec p s : runes_prefix p s = true ↔ ∃ rest, s = p ++ rest.
Proof.
  revert s. induction p as [|x p IH]; intros s; simpl; [split; [by exists s|done]|].
  destruct s as [|y s]; [split; [done|by intros [? ?]]|].
  rewrite andb_true_iff, Z.eqb_eq, IH. split.
  - intros [-> [rest ->]]. by exists rest.
  - intros [rest [= -> ->]]. split; [done|]. by exists rest.
Qed.
Lemma runes_contain_spec sub s : runes_contain sub s = true ↔ ∃ a b, s = a ++ sub ++ b.
Proof.
  induction s as [|c s IH]; cbn [runes_contain]; rewrite orb_true_iff, runes_prefix_spec.
  - split; [intros [[rest Hs]|?]; [by exists [], rest|done]|].
    intros (a & b & Hs). left. symmetry in Hs. apply app_eq_nil in Hs as [-> Hs]. by exists b.
  - rewrite IH. split.
    + intros [[rest ->]|(a & b & ->)]; [by exists [], rest|by exists (c :: a), b].
    + intros ([|x a] & b & Hs); [left; by exists b|right]. injection Hs as -> ->. by exists a, b.
Qed.

(** ** Facts: runes survive their encoding *)

Definition valid_rune (r : Z) : Prop := 0 ≤ r ≤ 55295 ∨ 57344 ≤ r ≤ 1114111.
Definition is_byte (b : Z) : Prop := 0 ≤ b < 256.

(** Linear arithmetic with quotients and remainders by constants. *)
Ltac dlia := Z.to_euclidean_division_equations; lia.

Lemma shift_parts r k : 0 ≤ r → 0 ≤ k → Z.shiftr r k = r / 2 ^ k.
Proof. intros. by apply Z.shiftr_div_pow2. Qed.
Lemma land_63 r : Z.land r 63 = r mod 64.
Proof. apply (Z.land_ones r 6). lia. Qed.

Lemma encode_rune_valid r : valid_rune r →
  encode_rune r =
    if r <? 128 then [r]
    else if r <? 2048 then [192 + r / 64; 128 + r mod 64]
    else if r <? 65536 then [224 + r / 4096; 128 + (r / 64) mod 64; 128 + r mod 64]
    else [240 + r / 262144; 128 + (r / 4096) mod 64; 128 + (r / 64) mod 64; 128 + r mod 64].
Proof.
  intros Hr. unfold encode_rune, in_range.
  replace ((0 <=? r) && (r <=? 55295) || (57344 <=? r) && (r <=? 1114111)) with true
    by (symmetry; destruct Hr; rewrite orb_true_iff, !andb_true_iff, !Z.leb_le; lia).
  rewrite !land_63, !shift_parts by (destruct Hr; lia). done.
Qed.

(** Well-formed sequences of two, three and four bytes. *)
Lemma in_range_true lo hi x : lo ≤ x ≤ hi → in_range lo hi x = true.
Proof. intros Hx. unfold in_range. by rewrite (proj2 (Z.leb_le lo x)), (proj2 (Z.leb_le x hi)) by lia. Qed.
Lemma in_range_above lo hi x : hi < x → in_range lo hi x = false.
Proof. intros Hx. unfold in_range. by rewrite (proj2 (Z.leb_gt x hi)), andb_false_r. Qed.
Lemma decode_2 b0 b1 l : 194 ≤ b0 ≤ 223 → cont b1 = true →
  decode_runes (b0 :: b1 :: l) = (b0 - 192) * 64 + (b1 - 128) :: decode_runes l.
Proof.
  intros H0 H1. cbn [decode_runes]. rewrite (proj2 (Z.ltb_ge b0 128)) by lia.
  by rewrite (in_range_true 194 223 b0), H1 by done.
Qed.
Lemma decode_3 b0 b1 b2 l : 224 ≤ b0 ≤ 239 → second_ok3 b0 b1 = true → cont b2 = true →
  decode_runes (b0 :: b1 :: b2 :: l) =
    (b0 - 224) * 4096 + (b1 - 128) * 64 + (b2 - 128) :: decode_runes l.
Proof.
  intros H0 H1 H2. cbn [decode_runes]. rewrite (proj2 (Z.ltb_ge b0 128)) by lia.
  rewrite (in_range_above 194 223 b0) by lia. by rewrite (in_range_true 224 239 b0), H1, H2 by done.
Qed.
Lemma decode_4 b0 b1 b2 b3 l : 240 ≤ b0 ≤ 244 → second_ok4 b0 b1 = true → cont b2 = true → cont b3 = true →
  decode_runes (b0 :: b1 :: b2 :: b3 :: l) =
    (b0 - 240) * 262144 + (b1 - 128) * 4096 + (b2 - 128) * 64 + (b3 - 128) :: decode_runes l.
Proof.
  intros H0 H1 H2 H3. cbn [decode_runes]. rewrite (proj2 (Z.ltb_ge b0 128)) by lia.
  rewrite (in_range_above 194 223 b0), (in_range_above 224 239 b0) by lia.
  by rewrite (in_range_true 240 244 b0), H1, H2, H3 by done.
Qed.
Lemma cont_low m : 0 ≤ m < 64 → cont (128 + m) = true.
Proof. intros. apply in_range_true. lia. Qed.
Lemma second_ok3_parts q m : 0 ≤ q ≤ 15 → 0 ≤ m < 64 → (q = 0 → 32 ≤ m) → (q = 13 → m < 32) →
  second_ok3 (224 + q) (128 + m) = true.
Proof.
  intros Hq Hm H0 H13. unfold second_ok3. destruct (Z.eqb_spec (224 + q) 224); [apply in_range_true; lia|].
  destruct (Z.eqb_spec (224 + q) 237); [apply in_range_true; lia|].
  by rewrite in_range_true, cont_low by lia.
Qed.
Lemma second_ok4_parts p q : 0 ≤ p ≤ 4 → 0 ≤ q < 64 → (p = 0 → 16 ≤ q) → (p = 4 → q < 16) →
  second_ok4 (240 + p) (128 + q) = true.
Proof.
  intros Hp Hq H0 H4. unfold second_ok4. destruct (Z.eqb_spec (240 + p) 240); [apply in_range_true; lia|].
  destruct (Z.eqb_spec (240 + p) 244); [apply in_range_true; lia|].
  by rewrite in_range_true, cont_low by lia.
Qed.

Lemma decode_encode r l : valid_rune r → decode_runes (encode_rune r ++ l) = r :: decode_runes l.
Proof.
  intros Hr. rewrite encode_rune_valid by done. assert (0 ≤ r ≤ 1114111) as Hr0 by (destruct Hr; lia).
  destruct (Z.ltb_spec r 128) as [H1|H1].
  { cbn [app decode_runes]. by rewrite (proj2 (Z.ltb_lt r 128)). }
  assert (0 ≤ r mod 64 < 64) as Hn by dlia. assert (0 ≤ (r / 64) mod 64 < 64) as Hm by dlia.
  assert (0 ≤ (r / 4096) mod 64 < 64) as Hq by dlia.
  destruct (Z.ltb_spec r 2048) as [H2|H2].
  { cbn [app]. rewrite decode_2; [f_equal; dlia|dlia|by apply cont_low]. }
  destruct (Z.ltb_spec r 65536) as [H3|H3]; cbn [app].
  - rewrite decode_3; [f_equal; dlia|dlia| |by apply cont_low].
    apply second_ok3_parts; [dlia|done|intros; dlia|]. intros. destruct Hr; dlia.
  - rewrite decode_4; [f_equal; dlia|dlia| |by apply cont_low|by apply cont_low].
    apply second_ok4_parts; [dlia|done|intros; dlia|intros; dlia].
Qed.

Lemma encode_rune_bytes r : valid_rune r → Forall is_byte (encode_rune r).
Proof.
  intros Hr. rewrite encode_rune_valid by done. assert (0 ≤ r ≤ 1114111) by (destruct Hr; lia).
  destruct (Z.ltb_spec r 128); [|destruct (Z.ltb_spec r 2048); [|destruct (Z.ltb_spec r 65536)]];
    repeat (apply Forall_cons; split); try apply Forall_nil_2; unfold is_byte; dlia.
Qed.

Lemma str_bytes_of_bytes l : Forall is_byte l → str_bytes (bytes_string l) = l.
Proof.
  induction 1 as [|b l Hb _ IH]; [done|]. cbn [bytes_string foldr str_bytes]. f_equal; [|exact IH].
  unfold is_byte in Hb. unfold byte_val, byte_ascii. rewrite N_ascii_embedding by lia. lia.
Qed.

(** A text made of valid runes is read back. *)
Lemma runes_of_string l : Forall valid_rune l → runes (runes_string l) = l.
Proof.
  intros Hl. unfold runes, runes_string. rewrite str_bytes_of_bytes.
  - induction Hl as [|r l Hr _ IH]; [done|]. by rewrite bind_cons, decode_encode, IH.
  - apply Forall_bind. eapply Forall_impl; [exact Hl|]. apply encode_rune_bytes.
Qed.
Lemma runes_string_inj l l' :
  Forall valid_rune l → Forall valid_rune l' → runes_string l = runes_string l' → l = l'.
Proof. intros Hl Hl' Heq. by rewrite <- (runes_of_string l), Heq, runes_of_string. Qed.

(** What Go reads from a string are valid runes. *)
Lemma decode_runes_valid l : Forall is_byte l → Forall valid_rune (decode_runes l).
Proof.
  assert (valid_rune rune_error) as Herr by (unfold valid_rune, rune_error; lia).
  induction l as [l IH] using (induction_ltof1 _ length). unfold ltof in IH. intros Hl.
  destruct l as [|b0 l1]; [constructor|]. apply Forall_cons in Hl as [H0 Hl1].
  assert (Forall valid_rune (decode_runes l1)) as IH1 by (apply IH; [simpl; lia|done]).
  cbn [decode_runes]. unfold is_byte in H0.
  destruct (Z.ltb_spec b0 128); [constructor; [unfold valid_rune; lia|done]|].
  destruct l1 as [|b1 l2]; [by repeat constructor|]. apply Forall_cons in Hl1 as [H1 Hl2].
  assert (Forall valid_rune (decode_runes l2)) as IH2 by (apply IH; [simpl; lia|done]).
  destruct (in_range 194 223 b0 && cont b1) eqn:E2.
  { apply andb_true_iff in E2 as [Ea Eb]. unfold cont, in_range in *.
    constructor; [unfold valid_rune; lia|done]. }
  destruct l2 as [|b2 l3]; [by constructor|]. apply Forall_cons in Hl2 as [H2 Hl3].
  assert (Forall valid_rune (decode_runes l3)) as IH3 by (apply IH; [simpl; lia|done]).
  destruct (in_range 224 239 b0 && second_ok3 b0 b1 && cont b2) eqn:E3.
  { constructor; [|done]. rewrite !andb_true_iff in E3. unfold second_ok3, cont, in_range, valid_rune in *.
    destruct (Z.eqb_spec b0 224); [lia|]. destruct (Z.eqb_spec b0 237); lia. }
  destruct l3 as [|b3 l4]; [by constructor|].
  destruct (in_range 240 244 b0 && second_ok4 b0 b1 && cont b2 && cont b3) eqn:E4; [|by constructor].
  apply Forall_cons in Hl3 as [H3 Hl4]. constructor; [|apply IH; [simpl; lia|done]].
  rewrite !andb_true_iff in E4. unfold second_ok4, cont, in_range, valid_rune in *.
  destruct (Z.eqb_spec b0 240); [lia|]. destruct (Z.eqb_spec b0 244); lia.
Qed.
Lemma byte_val_byte c : is_byte (byte_val c).
Proof. unfold is_byte, byte_val. pose proof (N_ascii_bounded c). lia. Qed.
Lemma runes_valid s : Forall valid_rune (runes s).
Proof.
  apply decode_runes_valid. induction s as [|c s IH]; constructor; [apply byte_val_byte|exact IH].
Qed.

(** ** Facts: words *)

Definition word (w : list Z) : Prop := w ≠ [] ∧ Forall (λ c, is_space c = false) w.

Lemma fields_from_spaces w l c : is_space c = true → fields_from w (l ++ [c]) = fields_from w l.
Proof.
  intros Hc. revert w. induction l as [|x l IH]; intros w; cbn [app fields_from].
  - rewrite Hc. by destruct w.
  - destruct (is_space x); [destruct w; [apply IH|f_equal; apply IH]|apply IH].
Qed.
Lemma Fields_trim_left l : Fields (trim_left is_space l) = Fields l.
Proof.
  induction l as [|c l IH]; [done|]. cbn [trim_left]. destruct (is_space c) eqn:Hc; [|done].
  rewrite IH. unfold Fields. cbn [fields_from]. by rewrite Hc.
Qed.
Lemma Fields_trim_right l : Fields (trim_right is_space l) = Fields l.
Proof.
  unfold trim_right. rewrite <- (rev_involutive l) at 2. generalize (rev l) as k. clear l.
  induction k as [|c k IH]; [done|]. cbn [trim_left]. destruct (is_space c) eqn:Hc; [|done].
  rewrite IH. cbn [rev]. unfold Fields. by rewrite fields_from_spaces.
Qed.
Lemma squeeze_TrimSpace l : squeeze (TrimSpace l) = squeeze l.
Proof. unfold squeeze, TrimSpace. by rewrite Fields_trim_right, Fields_trim_left. Qed.

Lemma fields_from_words w l :
  Forall (λ c, is_space c = false) w → Forall word (fields_from w l).
Proof.
  assert (∀ w, w ≠ [] → Forall (λ c, is_space c = false) w → word (rev w)) as Hrev.
  { intros v Hne Hv. split; [by intros Hr%(f_equal (@rev Z)); rewrite rev_involutive in Hr|].
    by apply Forall_rev. }
  revert w. induction l as [|c l IH]; intros w Hw; cbn [fields_from].
  - destruct w; [constructor|]. constructor; [by apply Hrev|constructor].
  - destruct (is_space c) eqn:Hc; [|apply IH; by constructor].
    destruct w; [by apply IH|]. constructor; [by apply Hrev|by apply IH].
Qed.
Lemma Fields_words l : Forall word (Fields l).
Proof. by apply fields_from_words. Qed.

(** Reading a word, up to a space or the end. *)
Lemma fields_from_word w v l :
  Forall (λ c, is_space c = false) v → fields_from w (v ++ l) = fields_from (rev v ++ w) l.
Proof.
  intros Hv. revert w. induction Hv as [|c v Hc _ IH]; intros w; [done|].
  cbn [app fields_from rev]. by rewrite Hc, IH, <- app_assoc.
Qed.
Lemma Fields_word w : word w → Fields w = [w].
Proof.
  intros [Hne Hw]. unfold Fields. rewrite <- (app_nil_r w) at 1. rewrite fields_from_word, app_nil_r by done.
  cbn [fields_from]. destruct (rev w) eqn:Hr.
  - apply (f_equal (@rev Z)) in Hr. by rewrite rev_involutive in Hr.
  - by rewrite <- Hr, rev_involutive.
Qed.
Lemma Fields_word_space w l : word w → Fields (w ++ 32 :: l) = w :: Fields l.
Proof.
  intros [Hne Hw]. unfold Fields. rewrite fields_from_word, app_nil_r by done. cbn [fields_from].
  change (is_space 32) with true. destruct (rev w) eqn:Hr.
  - apply (f_equal (@rev Z)) in Hr. by rewrite rev_involutive in Hr.
  - by rewrite <- Hr, rev_involutive.
Qed.

Lemma join_words_cons w ws : ws ≠ [] → join_words (w :: ws) = w ++ 32 :: join_words ws.
Proof. by destruct ws. Qed.
Lemma Fields_join ws : Forall word ws → Fields (join_words ws) = ws.
Proof.
  induction 1 as [|w ws Hw Hws IH]; [done|]. destruct ws as [|w' ws]; [by apply Fields_word|].
  by rewrite join_words_cons, Fields_word_space, IH.
Qed.

(** Squeezing what is cut off a squeezed text only drops what is behind. *)
Lemma squeeze_prefix ws p : Forall word ws → p `prefix_of` join_words ws → squeeze p `prefix_of` p.
Proof.
  intros Hws. revert p. induction Hws as [|w ws Hw Hws IH]; intros p Hp.
  { simpl in Hp. by apply prefix_nil_inv in Hp as ->. }
  assert (∀ v, v `prefix_of` w → squeeze v = v) as Hv.
  { intros v [k ->]. destruct Hw as [_ Hw]. apply Forall_app in Hw as [Hw _].
    destruct v as [|c v]; [done|]. unfold squeeze. by rewrite Fields_word. }
  destruct ws as [|w' ws]; [simpl in Hp; by rewrite Hv|]. rewrite join_words_cons in Hp by done.
  destruct Hp as [k Hk]. apply app_eq_inv in Hk as [(l & Hw' & Hk)|(l & -> & Hk)].
  { rewrite Hv; [done|by exists l]. }
  destruct l as [|c l]; [rewrite app_nil_r, Hv; done|]. injection Hk as <- Hk.
  unfold squeeze. rewrite Fields_word_space by done. specialize (IH l ltac:(by exists k)).
  destruct (Fields l) as [|w1 ws1] eqn:Hf.
  - by exists (32 :: l).
  - rewrite join_words_cons by done. rewrite <- Hf. apply prefix_app. by apply prefix_cons.
Qed.
Lemma squeeze_take n l : squeeze (take n (squeeze l)) `prefix_of` squeeze l.
Proof.
  transitivity (take n (squeeze l)); [|by exists (drop n (squeeze l)); rewrite take_drop].
  apply (squeeze_prefix (Fields l)); [apply Fields_words|].
  exists (drop n (squeeze l)). unfold squeeze. by rewrite take_drop.
Qed.

(** A squeezed text has no white space but single blanks. *)
Lemma squeeze_runes (P : Z → Prop) l : P 32 → Forall P l → Forall P (squeeze l).
Proof.
  intros H32 Hl. assert (∀ w, Forall P w → Forall (Forall P) (fields_from w l)) as Hf.
  { induction Hl as [|c l Hc _ IH]; intros w Hw; cbn [fields_from].
    - destruct w; [constructor|]. constructor; [by apply Forall_rev|constructor].
    - destruct (is_space c); [|apply IH; by constructor].
      destruct w; [by apply IH|]. constructor; [by apply Forall_rev|by apply IH]. }
  specialize (Hf [] (Forall_nil_2 _)). unfold squeeze, Fields. revert Hf. generalize (fields_from [] l) as ws.
  induction 1 as [|w ws Hw Hws IH]; [constructor|]. destruct ws as [|w' ws]; [done|].
  rewrite join_words_cons by done. apply Forall_app. split; [done|by constructor].
Qed.
Lemma squeeze_one_line l c : c ∈ squeeze l → c = 32 ∨ is_space c = false.
Proof.
  unfold squeeze. pose proof (Fields_words l) as Hw. revert Hw. generalize (Fields l) as ws.
  induction 1 as [|w ws [_ Hw] Hws IH]; [intros H; by apply not_elem_of_nil in H|].
  rewrite Forall_forall in Hw. destruct ws as [|w' ws]; [auto|]. rewrite join_words_cons by done.
  intros [Hc|[->|Hc]%elem_of_cons]%elem_of_app; auto.
Qed.

Lemma runes_contain_prefix sub p s : p `prefix_of` s → runes_contain sub p = true → runes_contain sub s = true.
Proof.
  intros [k ->]. rewrite !runes_contain_spec. intros (a & b & ->). exists a, (b ++ k).
  by rewrite <- !app_assoc.
Qed.

Lemma filter_Forall (P : Z → Prop) (p : Z → bool) l : Forall P l → Forall P (filter (λ r, p r = true) l).
Proof. rewrite !Forall_forall. intros Hl x [_ Hx]%list_elem_of_filter. auto. Qed.
Lemma TrimSpace_Forall (P : Z → Prop) l : Forall P l → Forall P (TrimSpace l).
Proof.
  assert (∀ l, Forall P l → Forall P (trim_left is_space l)) as Ht.
  { induction 1 as [|c k Hc Hk IH]; [constructor|]. cbn [trim_left]. destruct (is_space c); [done|by constructor]. }
  intros Hl. unfold TrimSpace, trim_right. by apply Forall_rev, Ht, Forall_rev, Ht.
Qed.
