(* ===== verification/GoPath.v ===== *)
(** What the code uses of path/filepath on Unix: lexical cleaning, joining and
    relative paths. *)

From S2P Require Import Prelude GoText RuneText.
From stdpp Require Import base strings list.
From Stdlib Require Import ZArith Lia Ascii.

Definition IsAbs (path : string) : bool := has_prefix "/" path.
Fixpoint join_slash (l : list string) : string :=
  match l with
  | [] => ""
  | [s] => s
  | s :: rest => s +:+ "/" +:+ join_slash rest
  end.

(** The elements of a cleaned path; [out] is reversed. *)
Fixpoint clean_elements (rooted : bool) (out : list string) (parts : list string) : list string :=
  match parts with
  | [] => rev out
  | p :: rest =>
      if String.eqb p "" || String.eqb p "." then clean_elements rooted out rest
      else if String.eqb p ".." then
        match out with
        | [] => clean_elements rooted (if rooted then [] else [p]) rest
        | q :: out' =>
            if String.eqb q ".." then clean_elements rooted (p :: out) rest
            else clean_elements rooted out' rest
        end
      else clean_elements rooted (p :: out) rest
  end.
Definition path_elements (path : string) : list string := clean_elements (IsAbs path) [] (split_on "/" path).
Definition filepath_Clean (path : string) : string :=
  let l := path_elements path in
  if IsAbs path then "/" +:+ join_slash l
  else match l with [] => "." | _ => join_slash l end.
(** [filepath.Join(a, b)] *)
Definition filepath_Join (a b : string) : string :=
  match List.filter (λ s, negb (String.eqb s "")) [a; b] with
  | [] => ""
  | l => filepath_Clean (join_slash l)
  end.

Fixpoint strip_common (base targ : list string) : list string * list string :=
  match base, targ with
  | b :: base', t :: targ' => if String.eqb b t then strip_common base' targ' else (base, targ)
  | _, _ => (base, targ)
  end.
(** [filepath.Rel(base, targ)] for an absolute [targ]; a relative [base] is an
    error. *)
Definition filepath_Rel_abs (base targ : string) : option string :=
  if negb (IsAbs base) then None else
  let '(b, t) := strip_common (path_elements base) (path_elements targ) in
  match (λ _, "..") <$> b with
  | [] => Some (match t with [] => "." | _ => join_slash t end)
  | ups => Some (join_slash (ups ++ t))
  end.

(** ** Facts *)

(** An element of a cleaned path that does not lead up. *)
Definition plain (p : string) : Prop := p ≠ "" ∧ p ≠ "." ∧ p ≠ ".." ∧ contains_any (char_is "/") p = false.

Lemma contains_any_cons p c s : contains_any p (String c s) = p c || contains_any p s.
Proof. unfold contains_any. simpl. by rewrite negb_andb, negb_involutive. Qed.
Lemma contains_any_app p a b : contains_any p (a +:+ b) = contains_any p a || contains_any p b.
Proof.
  induction a as [|c a IH]; [done|]. change (String c a +:+ b) with (String c (a +:+ b)).
  by rewrite !contains_any_cons, IH, orb_assoc.
Qed.

Lemma split_on_no_sep sep s : Forall (λ p, contains_any (char_is sep) p = false) (split_on sep s).
Proof.
  induction s as [|c s IH]; [by repeat constructor|]. cbn [split_on].
  destruct (Ascii.eqb c sep) eqn:Hc; [by constructor|].
  assert (char_is sep c = false) as Hc' by (unfold char_is; by rewrite Ascii.eqb_sym).
  destruct (split_on sep s) as [|q l].
  - repeat constructor. by rewrite contains_any_cons, Hc'.
  - inversion IH as [|? ? Hq Hl]. constructor; [by rewrite contains_any_cons, Hc'|done].
Qed.
Lemma split_on_single sep s : contains_any (char_is sep) s = false → split_on sep s = [s].
Proof.
  induction s as [|c s IH]; [done|]. rewrite contains_any_cons. intros [Hc Hs]%orb_false_iff.
  cbn [split_on]. unfold char_is in Hc. rewrite Ascii.eqb_sym, Hc, IH by done. done.
Qed.
Lemma split_on_app sep a b :
  contains_any (char_is sep) a = false → split_on sep (a +:+ String sep b) = a :: split_on sep b.
Proof.
  induction a as [|c a IH]; intros Ha.
  - simpl. by rewrite Ascii.eqb_refl.
  - rewrite contains_any_cons in Ha. apply orb_false_iff in Ha as [Hc Ha].
    change (String c a +:+ String sep b) with (String c (a +:+ String sep b)). cbn [split_on].
    unfold char_is in Hc. rewrite Ascii.eqb_sym, Hc, IH by done. done.
Qed.
Lemma split_join l :
  l ≠ [] → Forall (λ p, contains_any (char_is "/") p = false) l → split_on "/" (join_slash l) = l.
Proof.
  intros Hne Hl. induction Hl as [|p l Hp Hl IH]; [done|]. destruct l as [|q l]; [by apply split_on_single|].
  change (join_slash (p :: q :: l)) with (p +:+ String "/" (join_slash (q :: l))).
  rewrite split_on_app by done. by rewrite IH.
Qed.

Lemma clean_plain rooted out l : Forall plain l → clean_elements rooted out l = rev out ++ l.
Proof.
  intros Hl. revert out. induction Hl as [|p l (H1 & H2 & H3 & _) _ IH]; intros out; [by rewrite app_nil_r|].
  cbn [clean_elements]. rewrite !(proj2 (String.eqb_neq _ _)) by done. cbn [orb]. rewrite IH. simpl.
  by rewrite <- app_assoc.
Qed.
Lemma clean_skips_empty rooted out l : clean_elements rooted out ("" :: l) = clean_elements rooted out l.
Proof. done. Qed.

(** A cleaned path first leads up, only if it is relative, then down. *)
Lemma clean_shape rooted out parts :
  Forall (λ p, contains_any (char_is "/") p = false) parts →
  (∃ k l, out = rev l ++ repeat ".." k ∧ Forall plain l ∧ (rooted = true → k = 0)) →
  ∃ k l, clean_elements rooted out parts = repeat ".." k ++ l ∧ Forall plain l ∧ (rooted = true → k = 0).
Proof.
  intros Hparts. revert out. induction Hparts as [|p parts Hp _ IH]; intros out (k & l & -> & Hl & Hk).
  - exists k, l. split; [|done]. simpl. rewrite rev_app_distr, rev_involutive. f_equal.
    clear. induction k as [|k IH]; [done|]. simpl. rewrite IH. clear.
    induction k as [|k IH]; [done|]. simpl. by rewrite IH.
  - cbn [clean_elements]. destruct (String.eqb_spec p "") as [->|H1]; [apply IH; by exists k, l|].
    destruct (String.eqb_spec p ".") as [->|H2]; [apply IH; by exists k, l|]. cbn [orb].
    destruct (String.eqb_spec p "..") as [->|H3].
    + destruct (rev l) as [|q l'] eqn:Hrev.
      * apply (f_equal (@rev string)) in Hrev. rewrite rev_involutive in Hrev. subst l. simpl.
        destruct k as [|k]; simpl; [|apply IH; exists (S (S k)), []; split_and!; [done|done|intros ->; by specialize (Hk eq_refl)]].
        destruct rooted; apply IH; [by exists 0, []|by exists 1, []].
      * simpl. assert (l = rev l' ++ [q]) as -> by (rewrite <- (rev_involutive l), Hrev; done).
        apply Forall_app in Hl as [Hl [Hq _]%Forall_cons]. destruct Hq as (_ & _ & Hq & _).
        rewrite (proj2 (String.eqb_neq _ _) Hq). apply IH. exists k, (rev l'). by rewrite rev_involutive.
    + apply IH. exists k, (l ++ [p]). rewrite rev_app_distr. split_and!; [done| |done].
      apply Forall_app. split; [done|]. by repeat constructor.
Qed.
Lemma path_elements_shape path :
  ∃ k l, path_elements path = repeat ".." k ++ l ∧ Forall plain l ∧ (IsAbs path = true → k = 0).
Proof. apply clean_shape; [apply split_on_no_sep|by exists 0, []]. Qed.
Lemma path_elements_abs path : IsAbs path = true → Forall plain (path_elements path).
Proof. intros Ha. destruct (path_elements_shape path) as (k & l & -> & Hl & Hk). by rewrite (Hk Ha). Qed.
Lemma plain_no_slash l : Forall plain l → Forall (λ p, contains_any (char_is "/") p = false) l.
Proof. intros Hl. eapply Forall_impl; [exact Hl|]. by intros p (_ & _ & _ & ?). Qed.

(** The parts of a cleaned path are its elements, up to empty parts and dots. *)
Lemma clean_parts out path :
  Forall plain (path_elements path) →
  clean_elements false out (split_on "/" (filepath_Clean path)) = rev out ++ path_elements path.
Proof.
  intros Hl. assert (∀ out l, Forall plain l → clean_elements false out (split_on "/" (join_slash l)) = rev out ++ l) as H.
  { clear. intros out l Hl. destruct l as [|p l]; [simpl; by rewrite app_nil_r|].
    rewrite split_join by (done || by apply plain_no_slash). by apply clean_plain. }
  unfold filepath_Clean. destruct (IsAbs path).
  - change ("/" +:+ join_slash (path_elements path)) with ("" +:+ String "/" (join_slash (path_elements path))).
    rewrite split_on_app by done. rewrite clean_skips_empty. by apply H.
  - destruct (path_elements path) as [|p l] eqn:He; [simpl; by rewrite app_nil_r|]. rewrite <- He in *. by apply H.
Qed.

(** Joining a plain element with a cleaned path that does not lead up. *)
Definition below (root : string) (l : list string) : string := join_slash (root :: l).
Lemma Join_below root path :
  plain root → IsAbs root = false → Forall plain (path_elements path) →
  filepath_Join root (filepath_Clean path) = below root (path_elements path).
Proof.
  intros Hr Ha Hl. assert (filepath_Clean path ≠ "") as Hne.
  { unfold filepath_Clean. destruct (IsAbs path); [done|]. destruct (path_elements path) as [|p l]; [done|].
    inversion Hl as [|? ? (? & _) _]. destruct l; [done|]. by destruct p. }
  unfold filepath_Join. cbn [List.filter]. rewrite !(proj2 (String.eqb_neq _ _)) by (done || apply Hr).
  cbn [negb join_slash]. change (root +:+ "/" +:+ filepath_Clean path) with (root +:+ String "/" (filepath_Clean path)).
  assert (IsAbs (root +:+ String "/" (filepath_Clean path)) = false) as Ha'.
  { destruct root as [|c root]; [by destruct Hr|]. exact Ha. }
  assert (path_elements (root +:+ String "/" (filepath_Clean path)) = root :: path_elements path) as He.
  { unfold path_elements at 1. rewrite Ha', split_on_app by apply Hr. cbn [clean_elements].
    destruct Hr as (H1 & H2 & H3 & _). rewrite !(proj2 (String.eqb_neq _ _)) by done. cbn [orb].
    by rewrite clean_parts. }
  unfold filepath_Clean at 1. by rewrite Ha', He.
Qed.

(** An element list whose cleaned text is neither [".."] nor starts with
    ["../"] does not lead up. *)
Lemma clean_not_up path :
  filepath_Clean path ≠ ".." → has_prefix "../" (filepath_Clean path) = false → Forall plain (path_elements path).
Proof.
  intros H1 H2. destruct (path_elements_shape path) as (k & l & He & Hl & Hk). rewrite He. destruct k as [|k]; [done|].
  unfold filepath_Clean in H1, H2. rewrite He in H1, H2. destruct (IsAbs path); [by specialize (Hk eq_refl)|].
  cbn [repeat app] in H1, H2. by destruct (repeat ".." k ++ l) as [|q X].
Qed.

(** The text of a list of plain elements is a cleaned relative path. *)
Lemma join_plain p l :
  Forall plain (p :: l) → IsAbs (join_slash (p :: l)) = false ∧ path_elements (join_slash (p :: l)) = p :: l ∧
  filepath_Clean (join_slash (p :: l)) = join_slash (p :: l).
Proof.
  intros Hl. inversion Hl as [|? ? (Hne & _ & _ & Hns) _]; subst. assert (IsAbs (join_slash (p :: l)) = false) as Ha.
  { destruct p as [|c p]; [done|]. rewrite contains_any_cons in Hns. apply orb_false_iff in Hns as [Hc _].
    unfold IsAbs. assert (∃ x, join_slash (String c p :: l) = String c x) as [x ->] by (destruct l; by eexists).
    unfold char_is in Hc. cbn [has_prefix]. first [by rewrite Hc|by rewrite Ascii.eqb_sym, Hc]. }
  assert (path_elements (join_slash (p :: l)) = p :: l) as He.
  { unfold path_elements. rewrite split_join by (done || by apply plain_no_slash). by rewrite clean_plain. }
  split_and!; [done|done|]. unfold filepath_Clean. by rewrite Ha, He.
Qed.
Lemma cut_below l : cut_prefix "~/" (below "~" l) = match l with [] => None | _ => Some (join_slash l) end.
Proof. by destruct l. Qed.
Lemma strip_common_suffix b t : Forall plain t → Forall plain (strip_common b t).2.
Proof.
  revert b. induction t as [|x t IH]; intros [|y b] Ht; [done..|]. cbn [strip_common].
  destruct (String.eqb y x); [|done]. apply IH. by inversion Ht.
Qed.
(** Going from one absolute path to another goes up, or only down. *)
Lemma Rel_abs_shape base targ rel :
  IsAbs targ = true → filepath_Rel_abs base targ = Some rel → rel ≠ ".." → has_prefix "../" rel = false →
  rel = "." ∨ ∃ p l, rel = join_slash (p :: l) ∧ Forall plain (p :: l).
Proof.
  intros Ht. unfold filepath_Rel_abs. destruct (negb _); [done|].
  pose proof (strip_common_suffix (path_elements base) _ (path_elements_abs targ Ht)) as Hp.
  destruct (strip_common _ _) as [b t]. cbn [snd] in Hp. destruct b as [|x b]; cbn [fmap list_fmap].
  - intros [= <-] _ _. destruct t as [|p l]; [by left|right; by exists p, l].
  - intros [= <-] H1 H2. exfalso. cbn [app] in H1, H2. by destruct (((λ _, "..") <$> b) ++ t) as [|q X].
Qed.
