(* ===== verification/MeshTypes.v ===== *)
(** internal/meshstate/types.go: the durable records a device keeps about its
    mesh peers, with their validators. A validator returns the [error] of the
    Go method; [ErrInvalid] stands for the formatted errors, tagged by what
    they complain about. *)

From S2P Require Import Prelude GoText RuneText.
From stdpp Require Import base gmap strings list.
From Stdlib Require Import ZArith Lia Ascii.

Open Scope Z_scope.

Inductive MeshError :=
| ErrNotFound
| ErrConflict
| ErrStaleSnapshot
| ErrSnapshotClosed
| ErrInvalid (what : string)
| ErrIO (what : string).
#[export] Instance MeshError_eq_dec : EqDecision MeshError.
Proof. solve_decision. Defined.

Abbreviation check := (result MeshError unit).
Definition invalid (what : string) : check := Err (ErrInvalid what).
(** [if !ok { return fmt.Errorf(what) }] *)
Definition need (b : bool) (what : string) : check := guard_err b (ErrInvalid what).

Lemma need_ok b what u : need b what = Ok u ↔ b = true.
Proof. apply guard_err_ok. Qed.

Definition SchemaVersion : Z := 1.
Definition maxMetadataBytes : Z := 32768.
Definition maxTitleRunes : Z := 512.
Definition maxStateRunes : Z := 128.
Definition maxPathRunes : Z := 1024.
Definition maxDesiredTopics : nat := 16%nat.

(** ** Patterns *)

(** [safeID] *)
Definition safeID (s : string) : bool :=
  head_tail is_alnum (λ c, is_alnum c || is_id_punct c) 0 127 s.
(** [profileSlug] *)
Definition profileSlug (s : string) : bool := slug_matches s.
(** [uuidRE]: five hyphen-separated hexadecimal groups *)
Definition hex_group (n : Z) (s : string) : bool := len_between n n s && all_chars is_hex s.
Definition uuidRE (s : string) : bool :=
  match split_on "-" s with
  | [a; b; c; d; e] =>
      hex_group 8 a && hex_group 4 b && hex_group 4 c && hex_group 4 d && hex_group 12 e
  | _ => false
  end.
(** [repoSlugRE] *)
Definition repo_word (s : string) : bool :=
  head_tail (λ c, is_alnum c || is_id_punct c) (λ c, is_alnum c || is_id_punct c)
            0 (str_len s) s.
Definition repoSlugRE (s : string) : bool :=
  match split_on "/" s with
  | [a] => repo_word a
  | [a; b] => repo_word a && repo_word b
  | _ => false
  end.
(** [commitRE] *)
Definition commitRE (s : string) : bool := len_between 7 64 s && all_chars is_hex s.

(** ** Field validators *)

Definition validateID (field value : string) : check :=
  need (safeID value && negb (String.eqb value ".") && negb (String.eqb value "..")) field.

Definition validateNoControls (field value : string) : check :=
  need (forallb (λ r, negb (is_control r)) (runes value)) field.

Definition validateBounded (field value : string) (max : Z) (required : bool) : check :=
  _ ← need (negb (required && blank value)) field;
  _ ← need (rune_count value <=? max) field;
  validateNoControls field value.

(** ** Profile scopes and session locators *)

Definition RootProfileScope : string := "root".
Definition NamedProfileScope (slug : string) : string := "profile:" +:+ slug.

Definition ProfileScope_Validate (s : string) : check :=
  if String.eqb s RootProfileScope then Ok tt else
  need (match cut_prefix "profile:" s with
        | Some slug => profileSlug slug
        | None => false
        end) "invalid profile scope".

Record RemoteSessionLocator := mkLocator {
  loc_SchemaVersion : Z;
  loc_DeviceID : string;
  loc_ProfileScope : string;
  loc_SessionID : string;
  loc_TransportBindingID : string;
}.
#[export] Instance RemoteSessionLocator_eq_dec : EqDecision RemoteSessionLocator.
Proof. solve_decision. Defined.

Definition RemoteSessionLocator_Validate (l : RemoteSessionLocator) : check :=
  _ ← need (loc_SchemaVersion l =? SchemaVersion) "locator schema version";
  _ ← validateID "device_id" (loc_DeviceID l);
  _ ← ProfileScope_Validate (loc_ProfileScope l);
  _ ← validateID "session_id" (loc_SessionID l);
  if String.eqb (loc_TransportBindingID l) "" then Ok tt
  else validateID "transport_binding_id" (loc_TransportBindingID l).

(** [EqualIdentity] ignores the transport binding by design. *)
Definition EqualIdentity (l o : RemoteSessionLocator) : bool :=
  (loc_SchemaVersion l =? loc_SchemaVersion o) &&
  String.eqb (loc_DeviceID l) (loc_DeviceID o) &&
  String.eqb (loc_ProfileScope l) (loc_ProfileScope o) &&
  String.eqb (loc_SessionID l) (loc_SessionID o).

Definition identityKey (l : RemoteSessionLocator) : string :=
  loc_DeviceID l +:+ "/" +:+ loc_ProfileScope l +:+ "/" +:+ loc_SessionID l.

(** ** Freshness *)

(** The Go string type; [FreshnessOther] is any value outside the four
    constants and the empty string. *)
Inductive Freshness :=
| FreshnessUnset
| FreshnessSyncing
| FreshnessFresh
| FreshnessStale
| FreshnessGone
| FreshnessOther (raw : string).
#[export] Instance Freshness_eq_dec : EqDecision Freshness.
Proof. solve_decision. Defined.

Definition Freshness_eqb (f g : Freshness) : bool := bool_decide (f = g).

Definition Freshness_Validate (f : Freshness) : check :=
  match f with
  | FreshnessSyncing | FreshnessFresh | FreshnessStale | FreshnessGone => Ok tt
  | FreshnessUnset | FreshnessOther _ => invalid "freshness"
  end.

(** ** Metadata *)

(** A decoded JSON value ([any] after [json.Decoder.Decode]). *)
Inductive json :=
| JNull
| JBool (b : bool)
| JNumber (n : string)
| JString (s : string)
| JArray (items : list json)
| JObject (members : list (string * json)).

(** A [json.RawMessage]: its length in bytes, the value it decodes to
    ([None] when it is not one complete JSON value), and the length of the text
    [json.MarshalIndent] writes for it as a member of a record: other white
    space, and the characters <, >, & and the line separators escaped. *)
Record RawMessage := mkRaw { raw_len : Z; raw_value : option json; raw_indented : Z }.

(** The message as it is read back from a file: the same value in that text,
    which [json.MarshalIndent] writes again as it is. *)
Definition indented (raw : RawMessage) : RawMessage :=
  mkRaw (raw_indented raw) (raw_value raw) (raw_indented raw).

Definition forbidden_keys : list string :=
  ["authorization"; "api_key"; "token"; "secret"; "password"; "env";
   "environment"; "screen"; "screen_output"; "output"; "tool_output";
   "tmux_target"; "backend_session_id"; "pid"].

Definition forbidden (key : string) : bool :=
  bool_decide (lower_runes key ∈ runes <$> forbidden_keys).

Fixpoint rejectSensitiveMetadata (value : json) : check :=
  match value with
  | JObject members =>
      (fix walk (members : list (string * json)) : check :=
         match members with
         | [] => Ok tt
         | (key, child) :: rest =>
             _ ← need (negb (forbidden key)) "projection metadata field is not safe";
             _ ← rejectSensitiveMetadata child;
             walk rest
         end) members
  | JArray items =>
      (fix walk (items : list json) : check :=
         match items with
         | [] => Ok tt
         | child :: rest => _ ← rejectSensitiveMetadata child; walk rest
         end) items
  | _ => Ok tt
  end.

Definition validateMetadata (raw : RawMessage) : check :=
  _ ← need (negb (raw_len raw =? 0)) "projection metadata is required";
  _ ← need (raw_len raw <=? maxMetadataBytes) "projection metadata exceeds the limit";
  match raw_value raw with
  | None => invalid "projection metadata is not one complete JSON value"
  | Some (JObject members) => rejectSensitiveMetadata (JObject members)
  | Some _ => invalid "projection metadata must be a JSON object"
  end.

(** ** Session projections *)

Record RemoteSessionProjection := mkProjection {
  rs_SchemaVersion : Z;
  rs_Locator : RemoteSessionLocator;
  rs_Metadata : RawMessage;
  rs_ReceivedAt : Time;
  rs_FreshnessChangedAt : Time;
  rs_SourceEpoch : string;
  rs_SourceRevision : Z;
  rs_Freshness : Freshness;
}.

(** The projection read back from the text [json.MarshalIndent] makes of it. *)
Definition indented_projection (p : RemoteSessionProjection) : RemoteSessionProjection :=
  mkProjection (rs_SchemaVersion p) (rs_Locator p) (indented (rs_Metadata p)) (rs_ReceivedAt p)
    (rs_FreshnessChangedAt p) (rs_SourceEpoch p) (rs_SourceRevision p) (rs_Freshness p).

Definition RemoteSessionProjection_Validate (p : RemoteSessionProjection) : check :=
  _ ← need (rs_SchemaVersion p =? SchemaVersion) "projection schema version";
  _ ← RemoteSessionLocator_Validate (rs_Locator p);
  _ ← validateMetadata (rs_Metadata p);
  _ ← need (negb (IsZero (rs_ReceivedAt p) || IsZero (rs_FreshnessChangedAt p)))
           "projection local timestamps are required";
  _ ← validateID "source_epoch" (rs_SourceEpoch p);
  _ ← need (negb (rs_SourceRevision p =? 0)) "source_revision must be positive";
  Freshness_Validate (rs_Freshness p).

(** ** Surface bindings *)

Record SurfaceBinding := mkBinding {
  sb_SchemaVersion : Z;
  sb_BindingID : string;
  sb_LocalDeviceID : string;
  sb_Mux : string;
  sb_SurfaceID : string;
  sb_WorkspaceID : string;
  sb_Locator : RemoteSessionLocator;
  sb_Source : string;
  sb_CreatedAt : Time;
  sb_UpdatedAt : Time;
}.

Definition SurfaceBinding_Validate (b : SurfaceBinding) : check :=
  _ ← need (sb_SchemaVersion b =? SchemaVersion) "binding schema version";
  _ ← validateID "binding_id" (sb_BindingID b);
  _ ← validateID "local_device_id" (sb_LocalDeviceID b);
  _ ← need (String.eqb (sb_Mux b) "cmux") "binding mux";
  _ ← need (uuidRE (sb_SurfaceID b)) "surface_id";
  _ ← need (uuidRE (sb_WorkspaceID b)) "workspace_id";
  _ ← RemoteSessionLocator_Validate (sb_Locator b);
  _ ← validateBounded "source" (sb_Source b) maxStateRunes true;
  need (negb (IsZero (sb_CreatedAt b) || IsZero (sb_UpdatedAt b)))
       "binding timestamps are required".

Definition sameTarget (b o : SurfaceBinding) : bool :=
  String.eqb (sb_BindingID b) (sb_BindingID o) &&
  String.eqb (sb_LocalDeviceID b) (sb_LocalDeviceID o) &&
  String.eqb (sb_Mux b) (sb_Mux o) && String.eqb (sb_SurfaceID b) (sb_SurfaceID o) &&
  String.eqb (sb_WorkspaceID b) (sb_WorkspaceID o) &&
  EqualIdentity (sb_Locator b) (sb_Locator o).

(** ** Artifacts *)

Definition ArtifactGoal : string := "goal".
Definition ArtifactSessionHistory : string := "session_history".
Definition ArtifactDocument : string := "document".
Definition ArtifactBranch : string := "branch".
Definition ArtifactCommit : string := "commit".
Definition ArtifactPullRequest : string := "pull_request".

Definition artifact_kinds : list string :=
  [ArtifactGoal; ArtifactSessionHistory; ArtifactDocument; ArtifactBranch;
   ArtifactCommit; ArtifactPullRequest].
Definition ArtifactKind_Validate (k : string) : check :=
  need (bool_decide (k ∈ artifact_kinds)) "artifact kind".

Record RepoRef := mkRepoRef { repo_Repo : string; repo_Ref : string; repo_Commit : string }.

Definition RepoRef_Validate (r : RepoRef) : check :=
  _ ← need (repoSlugRE (repo_Repo r) && negb (contains ".." (repo_Repo r))) "repo locator";
  _ ← validateBounded "repo ref" (repo_Ref r) 512 false;
  _ ← need (negb (contains_any (λ c, (byte_val c =? 0) || (byte_val c =? 10) || (byte_val c =? 13))
                    (repo_Ref r))) "repo ref contains control characters";
  need (String.eqb (repo_Commit r) "" || commitRE (repo_Commit r)) "commit locator".

Record ArtifactEnvelope := mkArtifact {
  art_SchemaVersion : Z;
  art_ID : string;
  art_OriginDeviceID : string;
  art_SourceID : string;
  art_Kind : string;
  art_Title : string;
  art_State : string;
  art_URL : string;
  art_PathHint : string;
  art_Repo : option RepoRef;
  art_Session : option RemoteSessionLocator;
  art_Provenance : string;
  art_Revision : string;
  art_SourceEpoch : string;
  art_SourceRevision : Z;
  art_RemoteObservedAt : option Time;
  art_ReceivedAt : Time;
  art_FreshnessChangedAt : Time;
  art_Freshness : Freshness;
}.

(** What [net/url] reports about an artifact URL: [url.Parse] is library code,
    so the parser is an argument and its result the fields the check reads. *)
Record ParsedURL := mkURL {
  url_Scheme : string; url_Host : string; url_HasUser : bool; url_QueryKeys : list string;
}.
Class UrlLib := { url_Parse : string → option ParsedURL }.

Definition secret_words : list string :=
  ["token"; "secret"; "password"; "signature"; "credential"; "api_key"; "apikey";
   "auth"; "code"].

(** [strings.Contains] on lowered runes *)
Definition secret_query_key (key : string) : bool :=
  existsb (λ w, runes_contain (runes w) (lower_runes key)) secret_words.

Definition validateHTTPSURL `{UrlLib} (raw : string) : check :=
  if String.eqb raw "" then Ok tt else
  _ ← need (str_len raw <=? 2048) "artifact URL is too long";
  _ ← validateNoControls "artifact URL" raw;
  match url_Parse raw with
  | None => invalid "artifact URL must be absolute HTTPS"
  | Some u =>
      _ ← need (String.eqb (url_Scheme u) "https" && negb (String.eqb (url_Host u) ""))
               "artifact URL must be absolute HTTPS";
      _ ← need (negb (url_HasUser u)) "artifact URL must not contain userinfo";
      need (negb (existsb secret_query_key (url_QueryKeys u)))
           "artifact URL contains secret-bearing query key"
  end.

(** [path.Clean(rel) != rel] is subsumed by the per-part loop below it for a
    relative path: a relative path is clean exactly when it is non-empty and no
    part is empty, "." or "..". *)
Definition path_part_ok (part : string) : bool :=
  negb (String.eqb part "") && negb (String.eqb part ".") && negb (String.eqb part "..").

Definition validatePathHint (value : string) : check :=
  if String.eqb value "" then Ok tt else
  _ ← need (rune_count value <=? maxPathRunes) "artifact path_hint is too long";
  _ ← validateNoControls "artifact path_hint" value;
  match cut_prefix "~/" value with
  | None => invalid "path_hint must be home-relative"
  | Some rel =>
      _ ← need (negb (contains_any (λ c, byte_val c =? 92) value)) "path_hint must be home-relative";
      need (negb (String.eqb rel "") && forallb path_part_ok (split_on "/" rel)) "path_hint"
  end.

Definition ArtifactEnvelope_Validate `{UrlLib} (a : ArtifactEnvelope) : check :=
  _ ← need (art_SchemaVersion a =? SchemaVersion) "artifact schema version";
  _ ← validateID "artifact id" (art_ID a);
  _ ← (if String.eqb (art_OriginDeviceID a) "" then
         _ ← need (String.eqb (art_SourceID a) "" || String.eqb (art_SourceID a) (art_ID a))
                  "local artifact source_id must equal id";
         need (String.eqb (art_SourceEpoch a) "" && (art_SourceRevision a =? 0))
              "local artifact must not carry a remote source cursor"
       else
         _ ← validateID "artifact origin_device_id" (art_OriginDeviceID a);
         _ ← validateID "artifact source_id" (art_SourceID a);
         _ ← validateID "artifact source_epoch" (art_SourceEpoch a);
         need (negb (art_SourceRevision a =? 0))
              "remote artifact source_revision must be positive");
  _ ← ArtifactKind_Validate (art_Kind a);
  _ ← validateBounded "title" (art_Title a) maxTitleRunes false;
  _ ← validateBounded "state" (art_State a) maxStateRunes false;
  _ ← validateHTTPSURL (art_URL a);
  _ ← validatePathHint (art_PathHint a);
  _ ← (match art_Repo a with None => Ok tt | Some r => RepoRef_Validate r end);
  _ ← (match art_Session a with None => Ok tt | Some l => RemoteSessionLocator_Validate l end);
  _ ← validateBounded "provenance" (art_Provenance a) 512 true;
  _ ← validateBounded "revision" (art_Revision a) 512 false;
  _ ← need (negb (IsZero (art_ReceivedAt a) || IsZero (art_FreshnessChangedAt a)))
           "artifact local timestamps are required";
  _ ← need (match art_RemoteObservedAt a with Some t => negb (IsZero t) | None => true end)
           "artifact remote_observed_at must be non-zero when present";
  Freshness_Validate (art_Freshness a).

(** ** Peers *)

Record InventoryCursor := mkCursor {
  ic_SourceEpoch : string; ic_SourceRevision : Z; ic_CommittedAt : Time;
}.
#[export] Instance InventoryCursor_eq_dec : EqDecision InventoryCursor.
Proof. solve_decision. Defined.

Definition InventoryCursor_Validate (name : string) (c : InventoryCursor) : check :=
  _ ← validateID (name +:+ " source_epoch") (ic_SourceEpoch c);
  need (negb ((ic_SourceRevision c =? 0) || IsZero (ic_CommittedAt c))) name.

Record PeerState := mkPeer {
  ps_SchemaVersion : Z;
  ps_DeviceID : string;
  ps_Freshness : Freshness;
  ps_SourceEpoch : string;
  ps_UpdatedAt : Time;
  ps_SessionFreshness : Freshness;
  ps_SessionFreshnessChangedAt : Time;
  ps_ArtifactFreshness : Freshness;
  ps_ArtifactFreshnessChangedAt : Time;
  ps_DesiredTopics : list string;
  ps_Inventories : gmap string InventoryCursor;
  ps_SessionInventory : option InventoryCursor;
  ps_ArtifactInventory : option InventoryCursor;
}.

Definition validateInventoryFreshness (name : string) (f : Freshness) (changedAt : Time) : check :=
  match f with
  | FreshnessUnset => need (IsZero changedAt) name
  | FreshnessGone => invalid name
  | _ => _ ← Freshness_Validate f; need (negb (IsZero changedAt)) name
  end.

(** Every topic is an identifier, and each is greater than the one before it. *)
Fixpoint validateTopics (prev : option string) (topics : list string) : check :=
  match topics with
  | [] => Ok tt
  | topic :: rest =>
      _ ← validateID "desired topic" topic;
      _ ← need (match prev with None => true | Some p => negb (String.leb topic p) end)
               "desired topics must be sorted and unique";
      validateTopics (Some topic) rest
  end.

Definition PeerState_Validate (p : PeerState) : check :=
  _ ← need (ps_SchemaVersion p =? SchemaVersion) "peer schema version";
  _ ← validateID "device_id" (ps_DeviceID p);
  _ ← Freshness_Validate (ps_Freshness p);
  _ ← (if String.eqb (ps_SourceEpoch p) "" then Ok tt
       else validateID "source_epoch" (ps_SourceEpoch p));
  _ ← need (negb (IsZero (ps_UpdatedAt p))) "peer updated_at is required";
  _ ← validateInventoryFreshness "session" (ps_SessionFreshness p) (ps_SessionFreshnessChangedAt p);
  _ ← validateInventoryFreshness "artifact" (ps_ArtifactFreshness p) (ps_ArtifactFreshnessChangedAt p);
  _ ← need (bool_decide (length (ps_DesiredTopics p) ≤ maxDesiredTopics)%nat) "desired topics";
  _ ← validateTopics None (ps_DesiredTopics p);
  _ ← all_ok (λ '(scope, cursor),
         _ ← ProfileScope_Validate scope;
         InventoryCursor_Validate ("inventory " +:+ scope) cursor)
       (map_to_list (ps_Inventories p));
  _ ← (match ps_SessionInventory p with
       | None => Ok tt | Some c => InventoryCursor_Validate "session inventory" c end);
  (match ps_ArtifactInventory p with
   | None => Ok tt | Some c => InventoryCursor_Validate "artifact inventory" c end).

(** Validators are used through their results, not unfolded in passing. *)
#[global] Arguments validateID : simpl never.
#[global] Arguments validateBounded : simpl never.
#[global] Arguments ProfileScope_Validate : simpl never.
#[global] Arguments RemoteSessionLocator_Validate : simpl never.
#[global] Arguments RemoteSessionProjection_Validate : simpl never.
#[global] Arguments SurfaceBinding_Validate : simpl never.
#[global] Arguments ArtifactEnvelope_Validate {_} _ : simpl never.
#[global] Arguments PeerState_Validate : simpl never.
#[global] Arguments validateMetadata : simpl never.
