(* ===== verification/GoJson.v ===== *)
(** What the code uses of strconv, time and encoding/json: decimal numbers,
    times as RFC 3339 text, and the length of an encoded value, which the code
    bounds. Texts are valid UTF-8. *)

From S2P Require Import Prelude GoText RuneText MeshTypes.
From stdpp Require Import base gmap strings list.
From Stdlib Require Import ZArith Lia Ascii.

Open Scope Z_scope.

(** ** Numbers *)

Definition digit (n : Z) : ascii := byte_ascii (48 + n).
Fixpoint format_digits (fuel : nat) (n : Z) (acc : string) : string :=
  match fuel with
  | O => acc
  | S fuel =>
      let acc := String (digit (n mod 10)) acc in
      if n <? 10 then acc else format_digits fuel (n / 10) acc
  end.
(** [strconv.FormatUint(n, 10)] for a uint64, which has at most 20 digits. *)
Definition FormatUint (n : Z) : string := format_digits 20 n "".
Definition FormatInt (n : Z) : string :=
  if n <? 0 then String "-" (FormatUint (- n)) else FormatUint n.

Fixpoint parse_digits (acc : Z) (s : string) : option Z :=
  match s with
  | EmptyString => Some acc
  | String c s' => if is_digit c then parse_digits (acc * 10 + (byte_val c - 48)) s' else None
  end.
(** [strconv.ParseUint(s, 10, bits)] *)
Definition ParseUint (bits : Z) (s : string) : option Z :=
  if String.eqb s "" then None else
  match parse_digits 0 s with
  | Some n => if n <? 2 ^ bits then Some n else None
  | None => None
  end.

(** ** Times in UTC *)

Definition pad2 (n : Z) : string := String (digit (n / 10 mod 10)) (String (digit (n mod 10)) "").
Definition pad4 (n : Z) : string := pad2 (n / 100) +:+ pad2 (n mod 100).

(** Year, and day of the year from 0, of a day counted from 1 January of year 1. *)
Definition year_day (d : Z) : Z * Z :=
  let n400 := d / 146097 in let r := d mod 146097 in
  let n100 := Z.min 3 (r / 36524) in let r := r - n100 * 36524 in
  let n4 := r / 1461 in let r := r mod 1461 in
  let n1 := Z.min 3 (r / 365) in
  (1 + 400 * n400 + 100 * n100 + 4 * n4 + n1, r - n1 * 365).
Definition leap (y : Z) : bool := (y mod 4 =? 0) && (negb (y mod 100 =? 0) || (y mod 400 =? 0)).
Fixpoint month_day (month : Z) (lengths : list Z) (yday : Z) : Z * Z :=
  match lengths with
  | l :: rest => if yday <? l then (month, yday + 1) else month_day (month + 1) rest (yday - l)
  | [] => (12, 31)
  end.
Definition month_lengths (y : Z) : list Z :=
  [31; if leap y then 29 else 28; 31; 30; 31; 30; 31; 31; 30; 31; 30; 31].

(** The fraction without its trailing zeros. *)
Fixpoint fraction (places : nat) (n : Z) : string :=
  match places with
  | O => ""
  | S p => if n =? 0 then "" else
           String (digit (n / 10 ^ Z.of_nat p)) (fraction p (n mod 10 ^ Z.of_nat p))
  end.
(** [time.RFC3339Nano] for years of four digits, which is what encoding/json
    accepts. *)
Definition rfc3339 (t : Time) : string :=
  let s := t_ns t / 1000000000 in let ns := t_ns t mod 1000000000 in
  let '(y, yday) := year_day (s / 86400) in
  let '(m, day) := month_day 1 (month_lengths y) yday in
  let rest := s mod 86400 in
  pad4 y +:+ "-" +:+ pad2 m +:+ "-" +:+ pad2 day +:+ "T" +:+ pad2 (rest / 3600) +:+ ":" +:+
  pad2 (rest mod 3600 / 60) +:+ ":" +:+ pad2 (rest mod 60) +:+
  (if ns =? 0 then "" else String "." (fraction 9 ns)) +:+ "Z".

Example rfc3339_epoch : rfc3339 (mkTime 62135596800123400000 true) = "1970-01-01T00:00:00.1234Z".
Proof. vm_compute. reflexivity. Qed.
Example rfc3339_leap : rfc3339 (mkTime (62135596800000000000 + 1709251199000000000) true) = "2024-02-29T23:59:59Z".
Proof. vm_compute. reflexivity. Qed.

(** ** JSON *)

Definition utf8_len (r : Z) : Z := Z.of_nat (length (encode_rune r)).
(** The bytes of a rune in a JSON string: quotes, backslashes and the five
    short escapes take two, other control characters, <, >, & and the line
    separators six. *)
Definition json_rune_len (r : Z) : Z :=
  if bool_decide (r ∈ [34; 92; 8; 9; 10; 12; 13]) then 2
  else if (r <? 32) || bool_decide (r ∈ [60; 62; 38; 8232; 8233]) then 6
  else utf8_len r.
Definition sum_z (l : list Z) : Z := foldr Z.add 0 l.
Definition json_string_len (s : string) : Z := 2 + sum_z (json_rune_len <$> runes s).
(** What separators and brackets add to a list of [n] items. *)
Definition brackets_len (n : nat) : Z := 2 + Z.max 0 (Z.of_nat n - 1).
Fixpoint json_len (j : json) : Z :=
  match j with
  | JNull => 4
  | JBool b => if b then 4 else 5
  | JNumber n => str_len n
  | JString s => json_string_len s
  | JArray items => brackets_len (length items) + sum_z (json_len <$> items)
  | JObject members =>
      brackets_len (length members) +
      sum_z ((λ m, let '(k, v) := m in json_string_len k + 1 + json_len v) <$> members)
  end.
(** The bytes [json.MarshalIndent] with two spaces takes for a value [depth]
    levels deep: each item of a list that has any on a line of its own, the
    closing bracket too, and a space after each colon. *)
Definition line_len (depth : Z) : Z := 1 + 2 * depth.
Definition lines_len (n : nat) (depth : Z) : Z :=
  match n with O => 0 | S _ => Z.of_nat n * line_len (depth + 1) + line_len depth end.
Fixpoint json_indented_len (depth : Z) (j : json) : Z :=
  match j with
  | JArray items =>
      brackets_len (length items) + lines_len (length items) depth +
      sum_z (json_indented_len (depth + 1) <$> items)
  | JObject members =>
      brackets_len (length members) + lines_len (length members) depth +
      sum_z ((λ m, let '(k, v) := m in json_string_len k + 2 + json_indented_len (depth + 1) v) <$> members)
  | j => json_len j
  end.
Definition json_Marshal (j : json) : RawMessage := mkRaw (json_len j) (Some j) (json_indented_len 1 j).

(** {"a":1,"b":[{},2]}, and as a member of an indented record:
    {
        "a": 1,
        "b": [
          {},
          2
        ]
      } *)
Example indented_example :
  let j := JObject [("a", JNumber "1"); ("b", JArray [JObject []; JNumber "2"])] in
  json_Marshal j = mkRaw 18 (Some j) 52.
Proof. vm_compute. reflexivity. Qed.

(** Members of a struct: always there, or dropped when empty. *)
Definition member (k : string) (v : json) : list (string * json) := [(k, v)].
Definition omit_empty (k : string) (v : string) : list (string * json) :=
  if String.eqb v "" then [] else [(k, JString v)].
Definition omit_nil {A} (k : string) (f : A → json) (v : option A) : list (string * json) :=
  match v with Some a => [(k, f a)] | None => [] end.
Definition json_time (t : Time) : json := JString (rfc3339 t).
Definition json_uint (n : Z) : json := JNumber (FormatUint n).

(** ** Facts *)

Lemma byte_val_digit n : 0 ≤ n < 10 → byte_val (digit n) = 48 + n ∧ is_digit (digit n) = true.
Proof.
  intros Hn. assert (n ∈ [0; 1; 2; 3; 4; 5; 6; 7; 8; 9]) as H.
  { rewrite !elem_of_cons, elem_of_nil. lia. }
  repeat (apply elem_of_cons in H as [->|H]; [by vm_compute|]). by apply elem_of_nil in H.
Qed.

Lemma parse_format_digits fuel n acc :
  0 ≤ n < 10 ^ Z.of_nat fuel → parse_digits 0 (format_digits fuel n acc) = parse_digits n acc.
Proof.
  revert n acc. induction fuel as [|fuel IH]; intros n acc Hn.
  { replace n with 0 by (simpl in Hn; lia). done. }
  cbn [format_digits]. destruct (byte_val_digit (n mod 10)) as [Hv Hd]; [dlia|].
  destruct (Z.ltb_spec n 10) as [Hlt|Hge].
  - cbn [parse_digits]. rewrite Hd, Hv. f_equal. rewrite Z.mod_small; lia.
  - rewrite IH.
    + cbn [parse_digits]. rewrite Hd, Hv. f_equal. dlia.
    + rewrite Nat2Z.inj_succ, Z.pow_succ_r in Hn by lia. dlia.
Qed.
Lemma format_digits_length fuel n acc :
  (String.length (format_digits fuel n acc) <= fuel + String.length acc)%nat.
Proof.
  revert n acc. induction fuel as [|fuel IH]; intros n acc; [simpl; lia|]. cbn [format_digits].
  destruct (n <? 10); [simpl; lia|]. specialize (IH (n / 10) (String (digit (n mod 10)) acc)). simpl in *. lia.
Qed.
Lemma format_digits_nonempty fuel n acc : format_digits (S fuel) n acc ≠ "".
Proof.
  cbn [format_digits]. destruct (n <? 10); [done|]. revert n acc.
  induction fuel as [|fuel IH]; intros n acc; [done|]. cbn [format_digits]. destruct (_ <? 10); [done|]. apply IH.
Qed.
Lemma parse_uint_format fuel bits n :
  0 ≤ n < 10 ^ Z.of_nat (S fuel) → n < 2 ^ bits → ParseUint bits (format_digits (S fuel) n "") = Some n.
Proof.
  intros Hn Hb. unfold ParseUint. rewrite (proj2 (String.eqb_neq _ _) (format_digits_nonempty fuel n "")).
  rewrite (parse_format_digits (S fuel) n "" Hn). cbn [parse_digits]. by rewrite (proj2 (Z.ltb_lt n (2 ^ bits)) Hb).
Qed.
Lemma ParseUint_FormatUint bits n : 0 ≤ n < 2 ^ bits → n ≤ u64_max → ParseUint bits (FormatUint n) = Some n.
Proof.
  intros Hn Hmax. apply (parse_uint_format 19); [|lia]. unfold u64_max in Hmax.
  change (10 ^ Z.of_nat 20) with 100000000000000000000. lia.
Qed.
Lemma all_digits_format fuel n acc :
  0 ≤ n → all_chars is_digit acc = true → all_chars is_digit (format_digits fuel n acc) = true.
Proof.
  revert n acc. induction fuel as [|fuel IH]; intros n acc Hn Ha; [done|]. cbn [format_digits].
  assert (all_chars is_digit (String (digit (n mod 10)) acc) = true) as H.
  { cbn [all_chars]. rewrite (proj2 (byte_val_digit (n mod 10) ltac:(dlia))). exact Ha. }
  destruct (n <? 10); [done|]. apply IH; [dlia|done].
Qed.
