(* ===== verification/MeshStore.v ===== *)
(** internal/meshstate/store.go, the substrate of every operation: the typed
    files under the store root, atomic writes with an outcome per write, reads
    that refuse irregular or over-exposed files, deterministic listings, and
    the in-process change watchers. *)

From S2P Require Import Prelude GoText MeshTypes.
From stdpp Require Import base gmap strings list fin_maps sorting.
From Stdlib Require Import ZArith Lia Ascii.

Open Scope Z_scope.

(** ** Files *)

Abbreviation SessionKey := (string * string * string)%type.
Abbreviation ArtifactKey := (string * string)%type.

(** The directories below the store root, each a map from the variable path
    segments to the file there. *)
Record Disk := mkDisk {
  d_sessions : gmap SessionKey (File RemoteSessionProjection);
  d_bindings : gmap string (File SurfaceBinding);
  d_artifacts : gmap ArtifactKey (File ArtifactEnvelope);
  d_remote_artifacts : gmap SessionKey (File ArtifactEnvelope);
  d_peers : gmap string (File PeerState);
}.

(** ** Change notifications *)

Inductive ChangeType :=
| ChangeUpsert | ChangeDelete | ChangeFreshness | ChangeSnapshot | ChangeGap.
#[export] Instance ChangeType_eq_dec : EqDecision ChangeType.
Proof. solve_decision. Defined.

Inductive EntityType :=
| EntityNone | EntityRemoteSession | EntitySurfaceBinding | EntityArtifact
| EntityPeer | EntityInventory.

Record Change := mkChange {
  chg_Sequence : Z;
  chg_Type : ChangeType;
  chg_Entity : EntityType;
  chg_Key : string;
  chg_At : Time;
}.

(** A subscription. The subscriber reads its channel without the store's lock:
    [wa_race] is how many changes it takes just before each of the next
    operations of the store on the channel (none once the list is used up).
    [wa_sent] and [wa_got] are the history: what was published to the
    subscription and what its subscriber has received. *)
Record Watcher := mkWatcher {
  wa_ch : Chan Change;
  wa_race : list nat;
  wa_sent : list Change;
  wa_got : list Change;
}.

(** ** The store *)

(** [st_clock]/[st_ticks] are the successive readings of [s.now]; [st_io] is
    the outcome of the next file replacements, [true] for one that the
    operating system fails, and success once the list is used up. *)
Record Store := mkStore {
  st_disk : Disk;
  st_watchers : gmap Z Watcher;
  st_nextWatcherID : Z;
  st_changeSeq : Z;
  st_clock : nat → Time;
  st_ticks : nat;
  st_io : list bool;
}.

Abbreviation H := (M Store MeshError).

Definition set_disk (d : Disk) (s : Store) : Store :=
  mkStore d (st_watchers s) (st_nextWatcherID s) (st_changeSeq s) (st_clock s)
          (st_ticks s) (st_io s).
Definition set_watchers (w : gmap Z Watcher) (s : Store) : Store :=
  mkStore (st_disk s) w (st_nextWatcherID s) (st_changeSeq s) (st_clock s)
          (st_ticks s) (st_io s).

(** [s.now()] *)
Definition now : H Time := λ s,
  (Ok (st_clock s (st_ticks s)),
   mkStore (st_disk s) (st_watchers s) (st_nextWatcherID s) (st_changeSeq s)
           (st_clock s) (S (st_ticks s)) (st_io s)).

(** Whether the next file replacement reaches its [os.Rename]. *)
Definition io_outcome : H bool := λ s,
  match st_io s with
  | [] => (Ok true, s)
  | failed :: rest =>
      (Ok (negb failed),
       mkStore (st_disk s) (st_watchers s) (st_nextWatcherID s) (st_changeSeq s)
               (st_clock s) (st_ticks s) rest)
  end.

(** ** Collections *)

(** A directory of same-typed files: the interface the generic reads, writes
    and listings are written against. [written a] is what is read back from the
    text [json.MarshalIndent] makes of [a]; it makes the same text of that. *)
Class Collection (K A : Type) `{Countable K} := {
  coll : Disk → gmap K (File A);
  set_coll : gmap K (File A) → Disk → Disk;
  written : A → A;
  coll_set m d : coll (set_coll m d) = m;
  written_idem a : written (written a) = written a;
}.
#[global] Hint Mode Collection ! ! - - : typeclass_instances.

#[export] Program Instance sessions_coll : Collection SessionKey RemoteSessionProjection := {|
  coll := d_sessions;
  set_coll m d := mkDisk m (d_bindings d) (d_artifacts d) (d_remote_artifacts d) (d_peers d);
  written := indented_projection;
|}.
Solve All Obligations with done.
#[export] Program Instance bindings_coll : Collection string SurfaceBinding := {|
  coll := d_bindings;
  set_coll m d := mkDisk (d_sessions d) m (d_artifacts d) (d_remote_artifacts d) (d_peers d);
  written a := a;
|}.
Solve All Obligations with done.
#[export] Program Instance peers_coll : Collection string PeerState := {|
  coll := d_peers;
  set_coll m d := mkDisk (d_sessions d) (d_bindings d) (d_artifacts d) (d_remote_artifacts d) m;
  written a := a;
|}.
Solve All Obligations with done.
(** Two directories hold artifacts, told apart by their key type. *)
#[export] Program Instance artifacts_coll : Collection ArtifactKey ArtifactEnvelope := {|
  coll := d_artifacts;
  set_coll m d := mkDisk (d_sessions d) (d_bindings d) m (d_remote_artifacts d) (d_peers d);
  written a := a;
|}.
Solve All Obligations with done.
#[export] Program Instance remote_artifacts_coll : Collection SessionKey ArtifactEnvelope := {|
  coll := d_remote_artifacts;
  set_coll m d := mkDisk (d_sessions d) (d_bindings d) (d_artifacts d) m (d_peers d);
  written a := a;
|}.
Solve All Obligations with done.

Section Files.
Context {K A : Type} `{Collection K A}.

(** [os.Lstat] refusals and [json.Unmarshal] of [readJSONFile]. *)
Definition decode_file (f : option (File A)) : result MeshError A :=
  match f with
  | None => Err ErrNotFound
  | Some Irregular => Err (ErrIO "mesh state file is not a regular file")
  | Some (Regular perm content) =>
      if negb (Z.land perm 63 =? 0)
      then Err (ErrIO "mesh state file permissions are too open")
      else match content with
           | None => Err (ErrIO "decode")
           | Some a => Ok a
           end
  end.

Definition readJSONFile (k : K) : H A :=
  d ← gets st_disk;
  lift (decode_file (coll (A:=A) d !! k)).

(** Write the indented text to a temporary file and rename it over the target:
    the file is replaced as a whole, with mode 0600, or not at all. *)
Definition writeJSONLocked (k : K) (value : A) : H unit :=
  d ← gets st_disk;
  match coll (A:=A) d !! k with
  | Some Irregular => throw (ErrIO "refuse to replace non-regular mesh state file")
  | _ =>
      ok ← io_outcome;
      if (ok : bool)
      then modify (λ s, set_disk (set_coll (<[k := Regular 384 (Some (written (K:=K) value))]>
                                              (coll (A:=A) (st_disk s))) (st_disk s)) s)
      else throw (ErrIO "write")
  end.

Definition removeRegularFile (k : K) : H unit :=
  d ← gets st_disk;
  match coll (A:=A) d !! k with
  | None => throw ErrNotFound
  | Some Irregular => throw (ErrIO "mesh state file is not a regular file")
  | Some (Regular _ _) =>
      ok ← io_outcome;
      if (ok : bool)
      then modify (λ s, set_disk (set_coll (delete k (coll (A:=A) (st_disk s))) (st_disk s)) s)
      else throw (ErrIO "remove")
  end.

(** [collectJSONFiles] and the loop that reads what it found: every file must
    be readable and pass [accept k] (its validator and the path check), and
    those that satisfy [keep] are returned in map order. *)
Fixpoint read_all (accept : K → A → check) (keep : A → bool)
    (files : list (K * File A)) : result MeshError (list A) :=
  match files with
  | [] => Ok []
  | (k, f) :: rest =>
      a ← decode_file (Some f);
      _ ← accept k a;
      out ← read_all accept keep rest;
      mret (if keep a then a :: out else out)
  end.

Definition list_files (accept : K → A → check) (keep : A → bool) : H (list A) :=
  d ← gets st_disk;
  lift (read_all accept keep (map_to_list (coll (A:=A) d))).
End Files.

#[global] Arguments decode_file {A} f : simpl never.

(** ** Watchers *)

(** [Watch]: the fresh subscription's identifier and its channel. *)
Definition Watch (buffer : Z) (race : list nat) (s : Store) : Z * Store :=
  let cap := if buffer <? 1 then 1%nat else Z.to_nat buffer in
  let id := u64_succ (st_nextWatcherID s) in
  (id, mkStore (st_disk s) (<[id := mkWatcher (mkChan cap []) race [] []]> (st_watchers s)) id
               (st_changeSeq s) (st_clock s) (st_ticks s) (st_io s)).

(** The subscription's cancel function. *)
Definition CancelWatch (id : Z) (s : Store) : Store :=
  set_watchers (delete id (st_watchers s)) s.

Definition set_ch (ch : Chan Change) (w : Watcher) : Watcher :=
  mkWatcher ch (wa_race w) (wa_sent w) (wa_got w).

(** The subscriber takes up to [n] changes. *)
Definition receives (n : nat) (w : Watcher) : Watcher :=
  let ch := wa_ch w in
  mkWatcher (mkChan (ch_cap ch) (drop n (ch_buf ch))) (wa_race w) (wa_sent w)
            (wa_got w ++ take n (ch_buf ch)).

(** The subscriber's receive. *)
Definition RecvWatch (id : Z) (s : Store) : option (Change * Store) :=
  w ← st_watchers s !! id;
  '(c, _) ← try_recv (wa_ch w);
  Some (c, set_watchers (<[id := receives 1 w]> (st_watchers s)) s).

(** What the subscriber does before the store's next operation on its channel. *)
Definition raced (w : Watcher) : Watcher :=
  match wa_race w with
  | [] => w
  | n :: rest => receives n (mkWatcher (wa_ch w) rest (wa_sent w) (wa_got w))
  end.

(** [select { case ch <- x: default: }], and whether the send was chosen. *)
Definition select_send (x : Change) (w : Watcher) : Watcher * bool :=
  let w := raced w in
  match try_send (wa_ch w) x with
  | Some ch => (set_ch ch w, true)
  | None => (w, false)
  end.

(** The loop of [drainChannel], one receive at a time. Only the store sends, so
    the changes in the channel bound the number of rounds. *)
Fixpoint drain_rounds (fuel : nat) (w : Watcher) : Watcher :=
  let w := raced w in
  match try_recv (wa_ch w), fuel with
  | None, _ | _, O => w
  | Some (_, ch), S fuel => drain_rounds fuel (set_ch ch w)
  end.
Definition drainChannel (w : Watcher) : Watcher := drain_rounds (length (ch_buf (wa_ch w))) w.

(** The body of the loop of [publishLocked] over [s.watchers]. *)
Definition deliver (event : Change) (entry : Z * Watcher) : H unit :=
  let '(id, w) := entry in
  let put w := modify (λ s, set_watchers (<[id := w]> (st_watchers s)) s) in
  let '(w, sent) := select_send event (mkWatcher (wa_ch w) (wa_race w) (wa_sent w ++ [event]) (wa_got w)) in
  if sent : bool then put w else
  let w := drainChannel w in
  at_ ← now;
  let gap := mkChange (chg_Sequence event) ChangeGap EntityNone "" (UTC at_) in
  put (select_send gap w).1.

Definition publishLocked (kind : ChangeType) (entity : EntityType) (key : string) : H unit :=
  _ ← modify (λ s, mkStore (st_disk s) (st_watchers s) (st_nextWatcherID s)
                           (u64_succ (st_changeSeq s)) (st_clock s) (st_ticks s) (st_io s));
  seq ← gets st_changeSeq;
  at_ ← now;
  ws ← gets (λ s, map_to_list (st_watchers s));
  for_each (deliver (mkChange seq kind entity key (UTC at_))) ws.

(** ** Paths *)

(** The guard of [path]: a segment that names exactly one directory entry. *)
Definition safe_segment (s : string) : bool :=
  negb (String.eqb s "") && negb (String.eqb s ".") && negb (String.eqb s "..") &&
  all_chars (λ c, negb (Ascii.eqb "/" c) && negb (byte_val c =? 92) && negb (byte_val c =? 0)) s.
Definition path (segments : list string) : check :=
  need (forallb safe_segment segments) "unsafe mesh state path segment".

Definition remoteSessionPath (l : RemoteSessionLocator) : result MeshError SessionKey :=
  _ ← path ["remote-sessions"; loc_DeviceID l; loc_ProfileScope l; loc_SessionID l +:+ ".json"];
  mret (loc_DeviceID l, loc_ProfileScope l, loc_SessionID l).
Definition surfaceBindingPath (surfaceID : string) : result MeshError string :=
  _ ← path ["surface-bindings"; "cmux"; surfaceID +:+ ".json"];
  mret surfaceID.
Definition artifactPath (kind id : string) : result MeshError ArtifactKey :=
  _ ← path ["artifacts"; kind; id +:+ ".json"];
  mret (kind, id).
Definition remoteArtifactPath (origin kind sourceID : string) : result MeshError SessionKey :=
  _ ← path ["remote-artifacts"; origin; kind; sourceID +:+ ".json"];
  mret (origin, kind, sourceID).
Definition peerPath (deviceID : string) : result MeshError string :=
  _ ← path ["peers"; deviceID +:+ ".json"];
  mret deviceID.

(** [filepath.Clean(expected) != filepath.Clean(file)] *)
Definition path_is {K} `{EqDecision K} (expected : result MeshError K) (k : K) : check :=
  match expected with
  | Ok k' => need (bool_decide (k' = k)) "path mismatch"
  | Err _ => invalid "path mismatch"
  end.

(** ** Peers *)

Definition getPeerLocked (deviceID : string) : H PeerState :=
  file ← lift (peerPath deviceID);
  peer ← readJSONFile (A:=PeerState) file;
  _ ← lift (PeerState_Validate peer);
  _ ← lift (need (String.eqb (ps_DeviceID peer) deviceID) "stored peer does not match path");
  mret peer.

Definition writePeerLocked (peer : PeerState) : H unit :=
  _ ← lift (PeerState_Validate peer);
  file ← lift (peerPath (ps_DeviceID peer));
  writeJSONLocked file peer.

(** [getPeerLocked] with [ErrNotFound] turned into an absent peer. *)
Definition getPeerOpt (deviceID : string) : H (option PeerState) :=
  r ← try (getPeerLocked deviceID);
  match r with
  | Ok peer => mret (Some peer)
  | Err ErrNotFound => mret None
  | Err e => throw e
  end.

Definition GetPeer (deviceID : string) : H PeerState :=
  _ ← lift (validateID "device_id" deviceID);
  getPeerLocked deviceID.

Definition ListPeers : H (list PeerState) :=
  out ← list_files (A:=PeerState)
    (λ k p, _ ← PeerState_Validate p; path_is (peerPath (ps_DeviceID p)) k) (λ _, true);
  mret (sort_by_key ps_DeviceID out).

Definition ps_with_topics (p : PeerState) (topics : list string) : PeerState :=
  mkPeer (ps_SchemaVersion p) (ps_DeviceID p) (ps_Freshness p) (ps_SourceEpoch p)
         (ps_UpdatedAt p) (ps_SessionFreshness p) (ps_SessionFreshnessChangedAt p)
         (ps_ArtifactFreshness p) (ps_ArtifactFreshnessChangedAt p) topics
         (ps_Inventories p) (ps_SessionInventory p) (ps_ArtifactInventory p).

(** The deduplicating, sorting loop of [SetDesiredTopics]. *)
Definition canonical_topics (topics : list string) : list string :=
  sort_strings (remove_dups topics).

Definition SetDesiredTopics (deviceID : string) (topics : list string) : H unit :=
  _ ← lift (validateID "device_id" deviceID);
  _ ← lift (need (bool_decide (length topics ≤ maxDesiredTopics)%nat) "desired topics");
  _ ← lift (all_ok (validateID "desired topic") topics);
  let canonical := canonical_topics topics in
  found ← getPeerOpt deviceID;
  let update peer :=
    if bool_decide (ps_DesiredTopics peer = canonical) then mret tt else
    _ ← writePeerLocked (ps_with_topics peer canonical);
    publishLocked ChangeUpsert EntityPeer deviceID in
  match found with
  | Some peer => update peer
  | None =>
      match canonical with
      | [] => mret tt
      | _ =>
          at_ ← now;
          update (mkPeer SchemaVersion deviceID FreshnessStale "" (UTC at_)
                         FreshnessUnset zero_time FreshnessUnset zero_time [] ∅ None None)
      end
  end.

Definition DesiredTopics (deviceID : string) : H (list string) :=
  _ ← lift (validateID "device_id" deviceID);
  peer ← getPeerLocked deviceID;
  mret (ps_DesiredTopics peer).
