(* ===== verification/MeshFreshness.v ===== *)
(** Freshness as consumers see it: how the stored freshness of a session or an
    artifact is combined with the peer's inventory cursors and connection
    state (internal/meshstate/session_inventory.go and artifact_inventory.go,
    the pure parts), and how a peer's overall freshness is recomputed. *)

From S2P Require Import Prelude GoText MeshTypes.
From stdpp Require Import base gmap strings list fin_maps.
From Stdlib Require Import ZArith Lia.

Open Scope Z_scope.

(** ** Field updates *)

Definition rs_set (f : Freshness) (changed received : Time) (epoch : string) (rev : Z)
    (p : RemoteSessionProjection) : RemoteSessionProjection :=
  mkProjection (rs_SchemaVersion p) (rs_Locator p) (rs_Metadata p) received changed epoch rev f.
Definition rs_set_freshness (f : Freshness) (changed : Time) (p : RemoteSessionProjection) :=
  rs_set f changed (rs_ReceivedAt p) (rs_SourceEpoch p) (rs_SourceRevision p) p.

Definition art_set (origin source epoch : string) (rev : Z) (received changed : Time)
    (f : Freshness) (a : ArtifactEnvelope) : ArtifactEnvelope :=
  mkArtifact (art_SchemaVersion a) (art_ID a) origin source (art_Kind a) (art_Title a)
    (art_State a) (art_URL a) (art_PathHint a) (art_Repo a) (art_Session a)
    (art_Provenance a) (art_Revision a) epoch rev (art_RemoteObservedAt a) received changed f.
Definition art_set_freshness (f : Freshness) (changed : Time) (a : ArtifactEnvelope) :=
  art_set (art_OriginDeviceID a) (art_SourceID a) (art_SourceEpoch a) (art_SourceRevision a)
          (art_ReceivedAt a) changed f a.

Definition ps_set_session (f : Freshness) (at_ : Time) (p : PeerState) : PeerState :=
  mkPeer (ps_SchemaVersion p) (ps_DeviceID p) (ps_Freshness p) (ps_SourceEpoch p)
    (ps_UpdatedAt p) f at_ (ps_ArtifactFreshness p) (ps_ArtifactFreshnessChangedAt p)
    (ps_DesiredTopics p) (ps_Inventories p) (ps_SessionInventory p) (ps_ArtifactInventory p).
Definition ps_set_artifact (f : Freshness) (at_ : Time) (p : PeerState) : PeerState :=
  mkPeer (ps_SchemaVersion p) (ps_DeviceID p) (ps_Freshness p) (ps_SourceEpoch p)
    (ps_UpdatedAt p) (ps_SessionFreshness p) (ps_SessionFreshnessChangedAt p) f at_
    (ps_DesiredTopics p) (ps_Inventories p) (ps_SessionInventory p) (ps_ArtifactInventory p).
Definition ps_set_freshness (f : Freshness) (p : PeerState) : PeerState :=
  mkPeer (ps_SchemaVersion p) (ps_DeviceID p) f (ps_SourceEpoch p)
    (ps_UpdatedAt p) (ps_SessionFreshness p) (ps_SessionFreshnessChangedAt p)
    (ps_ArtifactFreshness p) (ps_ArtifactFreshnessChangedAt p)
    (ps_DesiredTopics p) (ps_Inventories p) (ps_SessionInventory p) (ps_ArtifactInventory p).
Definition ps_set_header (device : string) (p : PeerState) : PeerState :=
  mkPeer SchemaVersion device (ps_Freshness p) (ps_SourceEpoch p)
    (ps_UpdatedAt p) (ps_SessionFreshness p) (ps_SessionFreshnessChangedAt p)
    (ps_ArtifactFreshness p) (ps_ArtifactFreshnessChangedAt p)
    (ps_DesiredTopics p) (ps_Inventories p) (ps_SessionInventory p) (ps_ArtifactInventory p).
Definition ps_set_source (epoch : string) (p : PeerState) : PeerState :=
  mkPeer (ps_SchemaVersion p) (ps_DeviceID p) (ps_Freshness p) epoch
    (ps_UpdatedAt p) (ps_SessionFreshness p) (ps_SessionFreshnessChangedAt p)
    (ps_ArtifactFreshness p) (ps_ArtifactFreshnessChangedAt p)
    (ps_DesiredTopics p) (ps_Inventories p) (ps_SessionInventory p) (ps_ArtifactInventory p).
Definition ps_set_updated (at_ : Time) (p : PeerState) : PeerState :=
  mkPeer (ps_SchemaVersion p) (ps_DeviceID p) (ps_Freshness p) (ps_SourceEpoch p)
    at_ (ps_SessionFreshness p) (ps_SessionFreshnessChangedAt p)
    (ps_ArtifactFreshness p) (ps_ArtifactFreshnessChangedAt p)
    (ps_DesiredTopics p) (ps_Inventories p) (ps_SessionInventory p) (ps_ArtifactInventory p).
Definition ps_set_cursors (inv : gmap string InventoryCursor)
    (sess art : option InventoryCursor) (p : PeerState) : PeerState :=
  mkPeer (ps_SchemaVersion p) (ps_DeviceID p) (ps_Freshness p) (ps_SourceEpoch p)
    (ps_UpdatedAt p) (ps_SessionFreshness p) (ps_SessionFreshnessChangedAt p)
    (ps_ArtifactFreshness p) (ps_ArtifactFreshnessChangedAt p)
    (ps_DesiredTopics p) inv sess art.

(** [PeerState{SchemaVersion: SchemaVersion, DeviceID: deviceID, Inventories: {}}] *)
Definition new_peer (deviceID : string) : PeerState :=
  mkPeer SchemaVersion deviceID FreshnessUnset "" zero_time FreshnessUnset zero_time
         FreshnessUnset zero_time [] ∅ None None.

(** ** Peer freshness *)

(** The loop of [recomputePeerFreshness] over its two inventory states. *)
Fixpoint recompute_loop (states : list Freshness) (hasFresh hasStale : bool)
    (old : Freshness) : Freshness :=
  match states with
  | [] => if hasStale then FreshnessStale else if hasFresh then FreshnessFresh else old
  | FreshnessSyncing :: _ => FreshnessSyncing
  | FreshnessStale :: rest => recompute_loop rest hasFresh true old
  | FreshnessFresh :: rest => recompute_loop rest true hasStale old
  | _ :: rest => recompute_loop rest hasFresh hasStale old
  end.

Definition recomputePeerFreshness (p : PeerState) : PeerState :=
  ps_set_freshness
    (recompute_loop [ps_SessionFreshness p; ps_ArtifactFreshness p] false false (ps_Freshness p)) p.

Definition initializeLegacyTopicFreshness (p : PeerState) : PeerState :=
  let legacy := match ps_Freshness p with
                | FreshnessUnset | FreshnessGone => FreshnessStale
                | f => f
                end in
  let changedAt := if IsZero (ps_UpdatedAt p) then unix_one else ps_UpdatedAt p in
  let p1 := if Freshness_eqb (ps_SessionFreshness p) FreshnessUnset &&
               (bool_decide (is_Some (ps_SessionInventory p)) ||
                negb (bool_decide (ps_Inventories p = ∅)))
            then ps_set_session legacy changedAt p else p in
  if Freshness_eqb (ps_ArtifactFreshness p1) FreshnessUnset &&
     bool_decide (is_Some (ps_ArtifactInventory p1))
  then ps_set_artifact legacy changedAt p1 else p1.

Definition sessionInventoryFreshness (p : PeerState) : Freshness * Time :=
  if negb (Freshness_eqb (ps_SessionFreshness p) FreshnessUnset)
  then (ps_SessionFreshness p, ps_SessionFreshnessChangedAt p)
  else if bool_decide (is_Some (ps_SessionInventory p)) ||
          negb (bool_decide (ps_Inventories p = ∅))
  then (ps_Freshness p, ps_UpdatedAt p)
  else (FreshnessStale, ps_UpdatedAt p).

Definition artifactInventoryFreshness (p : PeerState) : Freshness * Time :=
  if negb (Freshness_eqb (ps_ArtifactFreshness p) FreshnessUnset)
  then (ps_ArtifactFreshness p, ps_ArtifactFreshnessChangedAt p)
  else if bool_decide (is_Some (ps_ArtifactInventory p))
  then (ps_Freshness p, ps_UpdatedAt p)
  else (FreshnessStale, ps_UpdatedAt p).

(** ** Effective freshness *)

Definition sameCursor (cursor : option InventoryCursor) (epoch : string) (revision : Z) : bool :=
  match cursor with
  | None => false
  | Some c => String.eqb (ic_SourceEpoch c) epoch && (ic_SourceRevision c =? revision)
  end.

Definition setEffectiveSessionFreshness (p : RemoteSessionProjection) (f : Freshness)
    (changedAt : Time) : RemoteSessionProjection :=
  if negb (Freshness_eqb (rs_Freshness p) f) then rs_set_freshness f changedAt p else p.

Definition session_committed (p : RemoteSessionProjection) (peer : PeerState) : bool :=
  match ps_SessionInventory peer with
  | Some _ => sameCursor (ps_SessionInventory peer) (rs_SourceEpoch p) (rs_SourceRevision p)
  | None => sameCursor (ps_Inventories peer !! loc_ProfileScope (rs_Locator p))
                       (rs_SourceEpoch p) (rs_SourceRevision p)
  end.

Definition effectiveSessionProjection (p : RemoteSessionProjection) (peer : option PeerState)
    : RemoteSessionProjection :=
  match peer with
  | None => rs_set_freshness FreshnessStale (rs_FreshnessChangedAt p) p
  | Some peer =>
      let committed := session_committed p peer in
      let '(inventory, changedAt) := sessionInventoryFreshness peer in
      if negb committed then
        if Freshness_eqb inventory FreshnessStale
        then setEffectiveSessionFreshness p FreshnessStale changedAt
        else setEffectiveSessionFreshness p FreshnessSyncing changedAt
      else if Freshness_eqb (rs_Freshness p) FreshnessGone then p
      else match inventory with
           | FreshnessStale => setEffectiveSessionFreshness p FreshnessStale changedAt
           | FreshnessSyncing => setEffectiveSessionFreshness p FreshnessSyncing changedAt
           | _ => p
           end
  end.

Definition setEffectiveArtifactFreshness (a : ArtifactEnvelope) (f : Freshness)
    (changedAt : Time) : ArtifactEnvelope :=
  if negb (Freshness_eqb (art_Freshness a) f) then art_set_freshness f changedAt a else a.

Definition effectiveArtifact (a : ArtifactEnvelope) (peer : option PeerState) : ArtifactEnvelope :=
  if String.eqb (art_OriginDeviceID a) "" then a else
  match peer with
  | None => art_set_freshness FreshnessStale (art_FreshnessChangedAt a) a
  | Some peer =>
      let committed := sameCursor (ps_ArtifactInventory peer) (art_SourceEpoch a)
                                  (art_SourceRevision a) in
      let '(inventory, changedAt) := artifactInventoryFreshness peer in
      if negb committed then
        if Freshness_eqb inventory FreshnessStale
        then setEffectiveArtifactFreshness a FreshnessStale changedAt
        else setEffectiveArtifactFreshness a FreshnessSyncing changedAt
      else if Freshness_eqb (art_Freshness a) FreshnessGone then a
      else match inventory with
           | FreshnessStale => setEffectiveArtifactFreshness a FreshnessStale changedAt
           | FreshnessSyncing => setEffectiveArtifactFreshness a FreshnessSyncing changedAt
           | _ => a
           end
  end.

(** ** Facts *)

Lemma Freshness_eqb_true f g : Freshness_eqb f g = true ↔ f = g.
Proof. apply bool_decide_eq_true. Qed.
Lemma Freshness_eqb_refl f : Freshness_eqb f f = true.
Proof. by apply Freshness_eqb_true. Qed.

Lemma initializeLegacy_device p : ps_DeviceID (initializeLegacyTopicFreshness p) = ps_DeviceID p.
Proof.
  unfold initializeLegacyTopicFreshness.
  destruct (Freshness_eqb (ps_SessionFreshness p) FreshnessUnset && _);
    by match goal with |- context [if ?b then _ else _] => destruct b end.
Qed.

(** The lattice reading of [recomputePeerFreshness]: syncing dominates stale,
    stale dominates fresh, and an unknown inventory does not contribute. *)
Definition freshness_join (f g : Freshness) : Freshness :=
  match f, g with
  | FreshnessSyncing, _ | _, FreshnessSyncing => FreshnessSyncing
  | FreshnessStale, _ | _, FreshnessStale => FreshnessStale
  | FreshnessFresh, _ | _, FreshnessFresh => FreshnessFresh
  | _, _ => FreshnessUnset
  end.

Lemma recompute_join p :
  ps_Freshness (recomputePeerFreshness p) =
  match freshness_join (ps_SessionFreshness p) (ps_ArtifactFreshness p) with
  | FreshnessUnset => ps_Freshness p
  | f => f
  end.
Proof.
  unfold recomputePeerFreshness. simpl.
  by destruct (ps_SessionFreshness p), (ps_ArtifactFreshness p).
Qed.

Lemma effective_session_freshness p peer :
  rs_Freshness (effectiveSessionProjection p (Some peer)) =
  let inventory := (sessionInventoryFreshness peer).1 in
  if session_committed p peer then
    if Freshness_eqb (rs_Freshness p) FreshnessGone then FreshnessGone else
    match inventory with
    | FreshnessStale => FreshnessStale
    | FreshnessSyncing => FreshnessSyncing
    | _ => rs_Freshness p
    end
  else if Freshness_eqb inventory FreshnessStale then FreshnessStale else FreshnessSyncing.
Proof.
  unfold effectiveSessionProjection, setEffectiveSessionFreshness, Freshness_eqb.
  destruct (sessionInventoryFreshness peer) as [inv at_]; simpl.
  destruct (session_committed p peer), inv; simpl; repeat case_bool_decide; simpl; congruence.
Qed.

Lemma effective_artifact_freshness a peer :
  art_OriginDeviceID a ≠ "" →
  art_Freshness (effectiveArtifact a (Some peer)) =
  let inventory := (artifactInventoryFreshness peer).1 in
  if sameCursor (ps_ArtifactInventory peer) (art_SourceEpoch a) (art_SourceRevision a) then
    if Freshness_eqb (art_Freshness a) FreshnessGone then FreshnessGone else
    match inventory with
    | FreshnessStale => FreshnessStale
    | FreshnessSyncing => FreshnessSyncing
    | _ => art_Freshness a
    end
  else if Freshness_eqb inventory FreshnessStale then FreshnessStale else FreshnessSyncing.
Proof.
  intros Ho. unfold effectiveArtifact, setEffectiveArtifactFreshness, Freshness_eqb.
  destruct (String.eqb_spec (art_OriginDeviceID a) ""); [done|].
  destruct (artifactInventoryFreshness peer) as [inv at_]; simpl.
  destruct (sameCursor _ _ _), inv; simpl; repeat case_bool_decide; simpl; congruence.
Qed.

(** A session is never shown fresh unless a committed inventory says so. *)
Lemma effective_session_fresh_inv p peer :
  rs_Freshness (effectiveSessionProjection p peer) = FreshnessFresh →
  ∃ ps, peer = Some ps ∧ session_committed p ps = true ∧ rs_Freshness p = FreshnessFresh ∧
        (sessionInventoryFreshness ps).1 ≠ FreshnessSyncing ∧
        (sessionInventoryFreshness ps).1 ≠ FreshnessStale.
Proof.
  destruct peer as [ps|]; [|done]. rewrite effective_session_freshness. cbv zeta.
  intros Hf. exists ps. split; [done|].
  destruct (session_committed p ps); [|by destruct (Freshness_eqb _ _)].
  destruct (Freshness_eqb (rs_Freshness p) FreshnessGone); [done|].
  by destruct (sessionInventoryFreshness ps).1.
Qed.

Lemma effective_artifact_fresh_inv a peer :
  art_OriginDeviceID a ≠ "" →
  art_Freshness (effectiveArtifact a peer) = FreshnessFresh →
  ∃ ps, peer = Some ps ∧ art_Freshness a = FreshnessFresh ∧
        sameCursor (ps_ArtifactInventory ps) (art_SourceEpoch a) (art_SourceRevision a) = true ∧
        (artifactInventoryFreshness ps).1 ≠ FreshnessSyncing ∧
        (artifactInventoryFreshness ps).1 ≠ FreshnessStale.
Proof.
  intros Ho. destruct peer as [ps|].
  - rewrite effective_artifact_freshness by done. cbv zeta. intros Hf. exists ps.
    split; [done|]. destruct (sameCursor _ _ _); [|by destruct (Freshness_eqb _ _)].
    destruct (Freshness_eqb (art_Freshness a) FreshnessGone); [done|].
    by destruct (artifactInventoryFreshness ps).1.
  - unfold effectiveArtifact. by destruct (String.eqb_spec (art_OriginDeviceID a) "").
Qed.

(** Effective freshness never rewrites identity, metadata or provenance. *)
Lemma effective_session_identity p peer :
  rs_Locator (effectiveSessionProjection p peer) = rs_Locator p ∧
  rs_Metadata (effectiveSessionProjection p peer) = rs_Metadata p ∧
  rs_SourceEpoch (effectiveSessionProjection p peer) = rs_SourceEpoch p ∧
  rs_SourceRevision (effectiveSessionProjection p peer) = rs_SourceRevision p.
Proof.
  unfold effectiveSessionProjection, setEffectiveSessionFreshness.
  destruct peer as [ps|]; [|done].
  destruct (sessionInventoryFreshness ps) as [inv at_].
  repeat case_match; done.
Qed.

#[global] Arguments effectiveSessionProjection : simpl never.
#[global] Arguments effectiveArtifact : simpl never.
