(* ===== verification/MeshFiles.v ===== *)
(** Session and artifact files: the locked reads, writes and listings that
    every mesh-state operation is composed of (internal/meshstate/store.go and
    artifact_inventory.go), and what each does to the disk. *)

From S2P Require Import Prelude GoText MeshTypes MeshStore MeshFreshness.
From stdpp Require Import base gmap strings list fin_maps sorting.
From Stdlib Require Import ZArith Lia.

Open Scope Z_scope.

Section Operations.
Context `{UrlLib}.

(** ** Sessions *)

Definition accept_session (k : SessionKey) (p : RemoteSessionProjection) : check :=
  _ ← RemoteSessionProjection_Validate p;
  path_is (remoteSessionPath (rs_Locator p)) k.

Definition session_filter (deviceID scope : string) (p : RemoteSessionProjection) : bool :=
  (String.eqb deviceID "" || String.eqb (loc_DeviceID (rs_Locator p)) deviceID) &&
  (String.eqb scope "" || String.eqb (loc_ProfileScope (rs_Locator p)) scope).

Definition listRemoteSessionsLocked (deviceID scope : string) : H (list RemoteSessionProjection) :=
  out ← list_files accept_session (session_filter deviceID scope);
  mret (sort_by_key (λ p, identityKey (rs_Locator p)) out).

Definition writeRemoteSessionLocked (p : RemoteSessionProjection) : H unit :=
  _ ← lift (RemoteSessionProjection_Validate p);
  file ← lift (remoteSessionPath (rs_Locator p));
  writeJSONLocked file p.

Definition getRemoteSessionLocked (l : RemoteSessionLocator) : H RemoteSessionProjection :=
  file ← lift (remoteSessionPath l);
  p ← readJSONFile (A:=RemoteSessionProjection) file;
  _ ← lift (RemoteSessionProjection_Validate p);
  _ ← lift (need (EqualIdentity (rs_Locator p) l) "stored projection locator does not match path");
  peer ← getPeerOpt (loc_DeviceID l);
  mret (effectiveSessionProjection p peer).

Definition GetRemoteSession (l : RemoteSessionLocator) : H RemoteSessionProjection :=
  _ ← lift (RemoteSessionLocator_Validate l);
  getRemoteSessionLocked l.

(** The per-device peer cache of the public listings. *)
Fixpoint with_peers {A} (device : A → string) (eff : A → option PeerState → A)
    (cache : gmap string (option PeerState)) (l : list A) : H (list A) :=
  match l with
  | [] => mret []
  | x :: rest =>
      peer ← match cache !! device x with
             | Some peer => mret peer
             | None => getPeerOpt (device x)
             end;
      out ← with_peers device eff (<[device x := peer]> cache) rest;
      mret (eff x peer :: out)
  end.

Definition ListRemoteSessions (deviceID scope : string) : H (list RemoteSessionProjection) :=
  _ ← lift (if String.eqb deviceID "" then Ok tt else validateID "device_id" deviceID);
  _ ← lift (if String.eqb scope "" then Ok tt else ProfileScope_Validate scope);
  l ← listRemoteSessionsLocked deviceID scope;
  with_peers (λ p, loc_DeviceID (rs_Locator p)) effectiveSessionProjection ∅ l.

(** ** Artifacts *)

(** [readArtifactFile]: schema-v1 local artifacts are normalised in memory. *)
Definition normalize_legacy (a : ArtifactEnvelope) : ArtifactEnvelope :=
  if negb (String.eqb (art_OriginDeviceID a) "") then a else
  art_set "" (if String.eqb (art_SourceID a) "" then art_ID a else art_SourceID a)
    (art_SourceEpoch a) (art_SourceRevision a) (art_ReceivedAt a)
    (if IsZero (art_FreshnessChangedAt a) then art_ReceivedAt a else art_FreshnessChangedAt a)
    (if Freshness_eqb (art_Freshness a) FreshnessUnset then FreshnessFresh else art_Freshness a) a.

Definition artifactRemoteIdentity (a : ArtifactEnvelope) : string :=
  art_OriginDeviceID a +:+ "/" +:+ art_Kind a +:+ "/" +:+ art_SourceID a.

(** [sortArtifacts]: origin, then kind, then source id (or id). *)
Definition artifact_le (a b : ArtifactEnvelope) : Prop :=
  let src x := if String.eqb (art_SourceID x) "" then art_ID x else art_SourceID x in
  if String.eqb (art_OriginDeviceID a) (art_OriginDeviceID b) then
    if String.eqb (art_Kind a) (art_Kind b) then String.le (src a) (src b)
    else String.le (art_Kind a) (art_Kind b)
  else String.le (art_OriginDeviceID a) (art_OriginDeviceID b).
#[export] Instance artifact_le_dec : RelDecision artifact_le.
Proof.
  intros a b. unfold artifact_le.
  destruct (String.eqb _ _); [destruct (String.eqb _ _)|]; apply _.
Defined.
Definition sortArtifacts (l : list ArtifactEnvelope) : list ArtifactEnvelope :=
  merge_sort artifact_le l.

Definition writeRemoteArtifactLocked (a : ArtifactEnvelope) : H unit :=
  _ ← lift (need (negb (String.eqb (art_OriginDeviceID a) ""))
                 "remote artifact origin_device_id is required");
  _ ← lift (ArtifactEnvelope_Validate a);
  file ← lift (remoteArtifactPath (art_OriginDeviceID a) (art_Kind a) (art_SourceID a));
  writeJSONLocked file a.

Definition readArtifactFile {K} `{Collection K ArtifactEnvelope} (k : K) : H ArtifactEnvelope :=
  a ← readJSONFile (A:=ArtifactEnvelope) k;
  let a' := normalize_legacy a in
  _ ← lift (ArtifactEnvelope_Validate a');
  mret a'.

(** The listing loop over [readArtifactFile], then the path check. *)
Definition list_artifact_files {K} `{Collection K ArtifactEnvelope}
    (accept : K → ArtifactEnvelope → check) (keep : ArtifactEnvelope → bool)
    : H (list ArtifactEnvelope) :=
  out ← list_files (A:=ArtifactEnvelope)
    (λ k a, _ ← ArtifactEnvelope_Validate (normalize_legacy a); accept k (normalize_legacy a))
    (λ a, keep (normalize_legacy a));
  mret (sortArtifacts (normalize_legacy <$> out)).

Definition accept_remote_artifact (k : SessionKey) (a : ArtifactEnvelope) : check :=
  path_is (remoteArtifactPath (art_OriginDeviceID a) (art_Kind a) (art_SourceID a)) k.

Definition remote_artifact_filter (origin kind : string) (a : ArtifactEnvelope) : bool :=
  (String.eqb origin "" || String.eqb (art_OriginDeviceID a) origin) &&
  (String.eqb kind "" || String.eqb (art_Kind a) kind).

Definition listRemoteArtifactsRawLocked (origin kind : string) : H (list ArtifactEnvelope) :=
  list_artifact_files accept_remote_artifact (remote_artifact_filter origin kind).

Definition listRemoteArtifactsLocked (origin kind : string) : H (list ArtifactEnvelope) :=
  out ← listRemoteArtifactsRawLocked origin kind;
  with_peers art_OriginDeviceID effectiveArtifact ∅ out.

Definition listLocalArtifactsLocked (kind : string) : H (list ArtifactEnvelope) :=
  list_artifact_files
    (λ k a, _ ← need (String.eqb (art_OriginDeviceID a) "") "local artifact has remote origin";
            path_is (artifactPath (art_Kind a) (art_ID a)) k)
    (λ a, String.eqb kind "" || String.eqb (art_Kind a) kind).

Definition kind_filter_ok (kind : string) : check :=
  if String.eqb kind "" then Ok tt else ArtifactKind_Validate kind.

Definition ListArtifacts (kind : string) : H (list ArtifactEnvelope) :=
  _ ← lift (kind_filter_ok kind);
  listLocalArtifactsLocked kind.

Definition ListArtifactsForOrigin (origin kind : string) : H (list ArtifactEnvelope) :=
  if String.eqb origin "" then ListArtifacts kind else
  _ ← lift (validateID "origin_device_id" origin);
  _ ← lift (kind_filter_ok kind);
  listRemoteArtifactsLocked origin kind.

Definition ListAllArtifacts (kind : string) : H (list ArtifactEnvelope) :=
  _ ← lift (kind_filter_ok kind);
  local ← listLocalArtifactsLocked kind;
  remote ← listRemoteArtifactsLocked "" kind;
  mret (sortArtifacts (local ++ remote)).

Definition PutArtifact (a : ArtifactEnvelope) : H unit :=
  _ ← lift (need (String.eqb (art_OriginDeviceID a) "") "PutArtifact only accepts locally-authored artifacts");
  _ ← lift (need (String.eqb (art_SourceEpoch a) "" && (art_SourceRevision a =? 0))
                 "local artifact must not carry a remote source cursor");
  _ ← lift (need (String.eqb (art_SourceID a) "" || String.eqb (art_SourceID a) (art_ID a))
                 "local artifact source_id must equal id");
  at_ ← now;
  let a' := mkArtifact
    (if art_SchemaVersion a =? 0 then SchemaVersion else art_SchemaVersion a)
    (art_ID a) (art_OriginDeviceID a) (art_ID a) (art_Kind a) (art_Title a) (art_State a)
    (art_URL a) (art_PathHint a) (art_Repo a) (art_Session a) (art_Provenance a)
    (art_Revision a) (art_SourceEpoch a) (art_SourceRevision a) (art_RemoteObservedAt a)
    (UTC at_) (UTC at_) FreshnessFresh in
  _ ← lift (ArtifactEnvelope_Validate a');
  file ← lift (artifactPath (art_Kind a') (art_ID a'));
  _ ← writeJSONLocked file a';
  publishLocked ChangeUpsert EntityArtifact (art_Kind a' +:+ "/" +:+ art_ID a').

Definition GetArtifact (kind id : string) : H ArtifactEnvelope :=
  _ ← lift (ArtifactKind_Validate kind);
  _ ← lift (validateID "artifact id" id);
  file ← lift (artifactPath kind id);
  a ← readArtifactFile file;
  _ ← lift (need (String.eqb (art_OriginDeviceID a) "" && String.eqb (art_Kind a) kind &&
                  String.eqb (art_ID a) id) "stored artifact does not match path");
  mret a.

Definition GetRemoteArtifact (origin kind sourceID : string) : H ArtifactEnvelope :=
  _ ← lift (validateID "origin_device_id" origin);
  _ ← lift (ArtifactKind_Validate kind);
  _ ← lift (validateID "source_id" sourceID);
  file ← lift (remoteArtifactPath origin kind sourceID);
  a ← readArtifactFile file;
  _ ← lift (need (String.eqb (art_OriginDeviceID a) origin && String.eqb (art_Kind a) kind &&
                  String.eqb (art_SourceID a) sourceID) "stored remote artifact does not match path");
  peer ← getPeerOpt origin;
  mret (effectiveArtifact a peer).
End Operations.
