(* ===== verification/MeshSync.v ===== *)
(** Connection-driven freshness changes: marking a peer's inventories syncing
    when a session or artifact exchange starts, and stale when the peer
    disconnects (internal/meshstate/store.go). *)

From S2P Require Import Prelude GoText MeshTypes MeshStore MeshFreshness MeshFiles.
From stdpp Require Import base gmap strings list fin_maps sorting.
From Stdlib Require Import ZArith Lia.

Open Scope Z_scope.

Section Operations.
Context `{UrlLib}.

Definition validateSyncingPeer (deviceID sourceEpoch : string) : check :=
  _ ← validateID "device_id" deviceID;
  validateID "source_epoch" sourceEpoch.

(** One write-and-notify step of a freshness loop. *)
Definition write_session_as (change : ChangeType) (p : RemoteSessionProjection) : H unit :=
  _ ← writeRemoteSessionLocked p;
  publishLocked change EntityRemoteSession (identityKey (rs_Locator p)).
Definition write_artifact_as (change : ChangeType) (a : ArtifactEnvelope) : H unit :=
  _ ← writeRemoteArtifactLocked a;
  publishLocked change EntityArtifact (artifactRemoteIdentity a).

(** The loops of [markPeerInventoriesSyncingLocked] and [MarkPeerDisconnected]:
    records already gone or already in the target state are skipped. *)
Definition demotes (f : Freshness) (cur : Freshness) : bool :=
  negb (Freshness_eqb cur FreshnessGone || Freshness_eqb cur f).

Definition demote_sessions (f : Freshness) (at_ : Time) (inScope : RemoteSessionProjection → bool)
    (l : list RemoteSessionProjection) : H unit :=
  for_each (λ p,
    if inScope p && demotes f (rs_Freshness p)
    then write_session_as ChangeFreshness (rs_set_freshness f at_ p)
    else mret tt) l.

Definition demote_artifacts (f : Freshness) (at_ : Time) (l : list ArtifactEnvelope) : H unit :=
  for_each (λ a,
    if demotes f (art_Freshness a)
    then write_artifact_as ChangeFreshness (art_set_freshness f at_ a)
    else mret tt) l.

Definition getPeerOrNew (deviceID : string) : H PeerState :=
  found ← getPeerOpt deviceID;
  mret (match found with Some peer => peer | None => new_peer deviceID end).

Definition in_only_scope (onlyScope : option string) (p : RemoteSessionProjection) : bool :=
  match onlyScope with
  | None => true
  | Some scope => String.eqb (loc_ProfileScope (rs_Locator p)) scope
  end.

(** The peer record written by [markPeerInventoriesSyncingLocked]. *)
Definition syncing_peer (sourceEpoch : string) (at_ : Time)
    (includeSessions includeArtifacts : bool) (peer : PeerState) : PeerState :=
  let p := ps_set_updated at_ (ps_set_source sourceEpoch (initializeLegacyTopicFreshness peer)) in
  let p := if includeSessions then ps_set_session FreshnessSyncing at_ p else p in
  let p := if includeArtifacts then ps_set_artifact FreshnessSyncing at_ p else p in
  recomputePeerFreshness p.

Definition markPeerInventoriesSyncingLocked (deviceID sourceEpoch : string)
    (onlyScope : option string) (includeSessions includeArtifacts : bool) : H unit :=
  t ← now;
  let at_ := UTC t in
  _ ← (if includeSessions : bool then
         l ← listRemoteSessionsLocked deviceID "";
         demote_sessions FreshnessSyncing at_ (in_only_scope onlyScope) l
       else mret tt);
  _ ← (if includeArtifacts : bool then
         l ← listRemoteArtifactsRawLocked deviceID "";
         demote_artifacts FreshnessSyncing at_ l
       else mret tt);
  peer ← getPeerOrNew deviceID;
  _ ← writePeerLocked (syncing_peer sourceEpoch at_ includeSessions includeArtifacts peer);
  publishLocked ChangeFreshness EntityPeer deviceID.

Definition markPeerSyncingLocked (deviceID sourceEpoch : string) (onlyScope : option string) : H unit :=
  markPeerInventoriesSyncingLocked deviceID sourceEpoch onlyScope true
    (match onlyScope with None => true | Some _ => false end).
Definition markSessionInventorySyncingLocked (deviceID sourceEpoch : string) : H unit :=
  markPeerInventoriesSyncingLocked deviceID sourceEpoch None true false.
Definition markArtifactInventorySyncingLocked (deviceID sourceEpoch : string) : H unit :=
  markPeerInventoriesSyncingLocked deviceID sourceEpoch None false true.

Definition MarkPeerSyncing (deviceID sourceEpoch : string) : H unit :=
  _ ← lift (validateSyncingPeer deviceID sourceEpoch);
  markPeerSyncingLocked deviceID sourceEpoch None.
Definition MarkSessionSyncing (deviceID sourceEpoch : string) : H unit :=
  _ ← lift (validateSyncingPeer deviceID sourceEpoch);
  markSessionInventorySyncingLocked deviceID sourceEpoch.
Definition MarkArtifactSyncing (deviceID sourceEpoch : string) : H unit :=
  _ ← lift (validateSyncingPeer deviceID sourceEpoch);
  markArtifactInventorySyncingLocked deviceID sourceEpoch.

Definition disconnected_peer (at_ : Time) (peer : PeerState) : PeerState :=
  recomputePeerFreshness
    (ps_set_artifact FreshnessStale at_ (ps_set_session FreshnessStale at_ (ps_set_updated at_ peer))).

Definition MarkPeerDisconnected (deviceID : string) : H unit :=
  _ ← lift (validateID "device_id" deviceID);
  l ← listRemoteSessionsLocked deviceID "";
  t ← now;
  let at_ := UTC t in
  _ ← demote_sessions FreshnessStale at_ (λ _, true) l;
  al ← listRemoteArtifactsRawLocked deviceID "";
  _ ← demote_artifacts FreshnessStale at_ al;
  peer ← getPeerOrNew deviceID;
  _ ← writePeerLocked (disconnected_peer at_ peer);
  publishLocked ChangeFreshness EntityPeer deviceID.
End Operations.
