(* ===== verification/MeshInventory.v ===== *)
(** Complete-inventory transactions: the per-scope session snapshot
    (internal/meshstate/store.go), the device-wide session inventory
    (session_inventory.go) and the artifact inventory (artifact_inventory.go).
    Each accumulates records in memory and commits them in one locked pass
    whose last write, the peer record, is the visibility marker. *)

From S2P Require Import Prelude GoText MeshTypes MeshStore MeshFreshness MeshFiles MeshSync.
From stdpp Require Import base gmap strings list fin_maps sorting.
From Stdlib Require Import ZArith Lia Ascii.

Open Scope Z_scope.

Record pendingProjection := mkPending {
  pp_locator : RemoteSessionLocator;
  pp_metadata : RawMessage;
}.

(** [Snapshot]: one peer and profile scope. *)
Record Snapshot := mkSnapshot {
  sn_deviceID : string;
  sn_scope : string;
  sn_epoch : string;
  sn_revision : Z;
  sn_closed : bool;
  sn_pending : gmap string pendingProjection;
}.

(** [SessionInventorySnapshot]: one peer, all its scopes. *)
Record SessionInventorySnapshot := mkSessionInventory {
  si_deviceID : string;
  si_epoch : string;
  si_revision : Z;
  si_scopes : gset string;
  si_closed : bool;
  si_pending : gmap string pendingProjection;
}.

Record ArtifactInventorySnapshot := mkArtifactInventory {
  ai_deviceID : string;
  ai_epoch : string;
  ai_revision : Z;
  ai_closed : bool;
  ai_pending : gmap string ArtifactEnvelope;
}.

(** [key1 + "\x00" + key2] *)
Definition nul_key (a b : string) : string := a +:+ String "000"%char b.

(** The values of a pending map in sorted key order. *)
Definition sorted_values {A} (m : gmap string A) : list A :=
  omap (λ k, m !! k) (sort_strings (map_to_list m).*1).

Definition sn_close (x : Snapshot) (pending : gmap string pendingProjection) : Snapshot :=
  mkSnapshot (sn_deviceID x) (sn_scope x) (sn_epoch x) (sn_revision x) true pending.
Definition si_close (x : SessionInventorySnapshot) (pending : gmap string pendingProjection) :=
  mkSessionInventory (si_deviceID x) (si_epoch x) (si_revision x) (si_scopes x) true pending.
Definition ai_close (x : ArtifactInventorySnapshot) (pending : gmap string ArtifactEnvelope) :=
  mkArtifactInventory (ai_deviceID x) (ai_epoch x) (ai_revision x) true pending.

(** [cursor.SourceEpoch == epoch && revision <= cursor.SourceRevision] *)
Definition stale_against (epoch : string) (revision : Z) (c : InventoryCursor) : bool :=
  String.eqb (ic_SourceEpoch c) epoch && (revision <=? ic_SourceRevision c).

(** The records a commit writes. *)
Definition fresh_projection (epoch : string) (revision : Z) (at_ : Time) (item : pendingProjection)
    : RemoteSessionProjection :=
  mkProjection SchemaVersion (pp_locator item) (pp_metadata item) at_ at_ epoch revision FreshnessFresh.
Definition gone_projection (epoch : string) (revision : Z) (at_ : Time) (p : RemoteSessionProjection) :=
  rs_set FreshnessGone at_ at_ epoch revision p.

Section Operations.
Context `{UrlLib}.

(** ** Per-scope snapshots *)

Definition validateSnapshotCursorLocked (deviceID scope epoch : string) (revision : Z) : H unit :=
  found ← getPeerOpt deviceID;
  match found with
  | None => mret tt
  | Some peer =>
      match ps_Inventories peer !! scope with
      | Some cursor => lift (guard_err (negb (stale_against epoch revision cursor)) ErrStaleSnapshot)
      | None => mret tt
      end
  end.

Definition BeginSnapshot (deviceID scope epoch : string) (revision : Z) : H Snapshot :=
  _ ← lift (validateID "device_id" deviceID);
  _ ← lift (ProfileScope_Validate scope);
  _ ← lift (validateID "source_epoch" epoch);
  _ ← lift (need (negb (revision =? 0)) "source_revision must be positive");
  _ ← validateSnapshotCursorLocked deviceID scope epoch revision;
  _ ← markPeerSyncingLocked deviceID epoch (Some scope);
  mret (mkSnapshot deviceID scope epoch revision false ∅).

Definition Snapshot_Upsert (x : Snapshot) (l : RemoteSessionLocator) (metadata : RawMessage)
    : result MeshError Snapshot :=
  _ ← guard_err (negb (sn_closed x)) ErrSnapshotClosed;
  _ ← RemoteSessionLocator_Validate l;
  _ ← need (String.eqb (loc_DeviceID l) (sn_deviceID x) &&
            String.eqb (loc_ProfileScope l) (sn_scope x)) "locator is outside snapshot";
  _ ← validateMetadata metadata;
  mret (mkSnapshot (sn_deviceID x) (sn_scope x) (sn_epoch x) (sn_revision x) (sn_closed x)
                   (<[loc_SessionID l := mkPending l metadata]> (sn_pending x))).

Definition Snapshot_Abort (x : Snapshot) : Snapshot := sn_close x ∅.

(** The two loops shared by the session commits: durable presents first, then
    every previously listed record that is not [present] becomes gone. *)
Definition write_present (epoch : string) (revision : Z) (at_ : Time)
    (items : list pendingProjection) : H unit :=
  for_each (λ item, write_session_as ChangeUpsert (fresh_projection epoch revision at_ item)) items.
Definition write_gone (epoch : string) (revision : Z) (at_ : Time)
    (present : RemoteSessionProjection → bool) (existing : list RemoteSessionProjection) : H unit :=
  for_each (λ p, if present p then mret tt
                 else write_session_as ChangeFreshness (gone_projection epoch revision at_ p)) existing.

Definition commit_scope_peer (x : Snapshot) (at_ : Time) (peer : PeerState) : PeerState :=
  let p := recomputePeerFreshness (ps_set_session FreshnessFresh at_
             (ps_set_updated at_ (ps_set_source (sn_epoch x) (ps_set_header (sn_deviceID x) peer)))) in
  ps_set_cursors (<[sn_scope x := mkCursor (sn_epoch x) (sn_revision x) at_]> (ps_Inventories p))
                 None (ps_ArtifactInventory p) p.

Definition commitSnapshot (x : Snapshot) : H unit :=
  peer ← getPeerOrNew (sn_deviceID x);
  _ ← lift (guard_err
        (match ps_Inventories peer !! sn_scope x with
         | Some cursor => negb (stale_against (sn_epoch x) (sn_revision x) cursor)
         | None => true
         end) ErrStaleSnapshot);
  existing ← listRemoteSessionsLocked (sn_deviceID x) (sn_scope x);
  t ← now;
  let at_ := UTC t in
  let items := sorted_values (sn_pending x) in
  _ ← write_present (sn_epoch x) (sn_revision x) at_ items;
  _ ← write_gone (sn_epoch x) (sn_revision x) at_
        (λ p, bool_decide (is_Some (sn_pending x !! loc_SessionID (rs_Locator p)))) existing;
  _ ← writePeerLocked (commit_scope_peer x at_ peer);
  _ ← publishLocked ChangeSnapshot EntityInventory (sn_deviceID x +:+ "/" +:+ sn_scope x);
  publishLocked ChangeFreshness EntityPeer (sn_deviceID x).

Definition Snapshot_Commit (x : Snapshot) : H Snapshot :=
  _ ← lift (guard_err (negb (sn_closed x)) ErrSnapshotClosed);
  _ ← commitSnapshot x;
  mret (sn_close x (sn_pending x)).

(** ** Device-wide session inventories *)

Definition validateSessionInventoryCursorLocked (deviceID epoch : string) (revision : Z) : H unit :=
  found ← getPeerOpt deviceID;
  match found with
  | None => mret tt
  | Some peer =>
      lift (guard_err
        (match ps_SessionInventory peer with
         | Some cursor => negb (stale_against epoch revision cursor)
         | None => forallb (λ '(_, cursor), negb (stale_against epoch revision cursor))
                           (map_to_list (ps_Inventories peer))
         end) ErrStaleSnapshot)
  end.

(** The scope loop of [BeginSessionInventory]. *)
Fixpoint collect_scopes (scopes : list string) (seen : gset string)
    : result MeshError (gset string) :=
  match scopes with
  | [] => mret seen
  | scope :: rest =>
      _ ← ProfileScope_Validate scope;
      _ ← need (negb (bool_decide (scope ∈ seen))) "profile scope is duplicated";
      collect_scopes rest ({[scope]} ∪ seen)
  end.

Definition BeginSessionInventory (deviceID : string) (scopes : list string) (epoch : string)
    (revision : Z) : H SessionInventorySnapshot :=
  _ ← lift (validateID "device_id" deviceID);
  _ ← lift (validateID "source_epoch" epoch);
  _ ← lift (need (negb (revision =? 0)) "source_revision must be positive");
  _ ← lift (need (negb (bool_decide (scopes = []))) "session inventory must declare a scope");
  scopeSet ← lift (collect_scopes scopes ∅);
  _ ← validateSessionInventoryCursorLocked deviceID epoch revision;
  _ ← markSessionInventorySyncingLocked deviceID epoch;
  mret (mkSessionInventory deviceID epoch revision scopeSet false ∅).

Definition SessionInventory_Upsert (x : SessionInventorySnapshot) (l : RemoteSessionLocator)
    (metadata : RawMessage) : result MeshError SessionInventorySnapshot :=
  _ ← guard_err (negb (si_closed x)) ErrSnapshotClosed;
  _ ← RemoteSessionLocator_Validate l;
  _ ← need (String.eqb (loc_DeviceID l) (si_deviceID x) &&
            bool_decide (loc_ProfileScope l ∈ si_scopes x)) "locator is outside device inventory";
  _ ← validateMetadata metadata;
  mret (mkSessionInventory (si_deviceID x) (si_epoch x) (si_revision x) (si_scopes x) (si_closed x)
          (<[nul_key (loc_ProfileScope l) (loc_SessionID l) := mkPending l metadata]> (si_pending x))).

Definition SessionInventory_Abort (x : SessionInventorySnapshot) := si_close x ∅.

Definition valid_scope (scope : string) : bool := is_ok (ProfileScope_Validate scope).

(** [allScopes]: declared scopes, valid scopes with a cursor, and scopes of
    existing sessions all receive the new cursor. *)
Definition all_scopes (x : SessionInventorySnapshot) (peer : PeerState)
    (existing : list RemoteSessionProjection) : gset string :=
  si_scopes x ∪ filter (λ scope, valid_scope scope = true) (dom (ps_Inventories peer)) ∪
  list_to_set ((λ p, loc_ProfileScope (rs_Locator p)) <$> existing).

Definition commit_group_peer (x : SessionInventorySnapshot) (at_ : Time)
    (existing : list RemoteSessionProjection) (peer : PeerState) : PeerState :=
  let cursor := mkCursor (si_epoch x) (si_revision x) at_ in
  let inv := gset_to_gmap cursor (all_scopes x peer existing) ∪ ps_Inventories peer in
  let p := recomputePeerFreshness (ps_set_session FreshnessFresh at_
             (ps_set_updated at_ (ps_set_source (si_epoch x) (ps_set_header (si_deviceID x) peer)))) in
  ps_set_cursors inv (Some cursor) (ps_ArtifactInventory p) p.

Definition pending_keys (items : list pendingProjection) : list string :=
  (λ i, identityKey (pp_locator i)) <$> items.

Definition commitSessionInventory (x : SessionInventorySnapshot) : H unit :=
  _ ← validateSessionInventoryCursorLocked (si_deviceID x) (si_epoch x) (si_revision x);
  peer ← getPeerOrNew (si_deviceID x);
  existing ← listRemoteSessionsLocked (si_deviceID x) "";
  t ← now;
  let at_ := UTC t in
  let items := sorted_values (si_pending x) in
  _ ← write_present (si_epoch x) (si_revision x) at_ items;
  _ ← write_gone (si_epoch x) (si_revision x) at_
        (λ p, bool_decide (identityKey (rs_Locator p) ∈ pending_keys items)) existing;
  _ ← writePeerLocked (commit_group_peer x at_ existing peer);
  _ ← publishLocked ChangeSnapshot EntityInventory (si_deviceID x +:+ "/sessions");
  publishLocked ChangeFreshness EntityPeer (si_deviceID x).

Definition SessionInventory_Commit (x : SessionInventorySnapshot) : H SessionInventorySnapshot :=
  _ ← lift (guard_err (negb (si_closed x)) ErrSnapshotClosed);
  _ ← commitSessionInventory x;
  mret (si_close x (si_pending x)).

(** ** Artifact inventories *)

Definition validateArtifactInventoryCursorLocked (deviceID epoch : string) (revision : Z) : H unit :=
  found ← getPeerOpt deviceID;
  match found with
  | None => mret tt
  | Some peer =>
      lift (guard_err
        (match ps_ArtifactInventory peer with
         | Some cursor => negb (stale_against epoch revision cursor)
         | None => true
         end) ErrStaleSnapshot)
  end.

Definition BeginArtifactInventory (deviceID epoch : string) (revision : Z)
    : H ArtifactInventorySnapshot :=
  _ ← lift (validateID "device_id" deviceID);
  _ ← lift (validateID "source_epoch" epoch);
  _ ← lift (need (negb (revision =? 0)) "source_revision must be positive");
  _ ← validateArtifactInventoryCursorLocked deviceID epoch revision;
  _ ← markArtifactInventorySyncingLocked deviceID epoch;
  mret (mkArtifactInventory deviceID epoch revision false ∅).

Definition ArtifactInventory_Upsert (x : ArtifactInventorySnapshot) (a : ArtifactEnvelope)
    : result MeshError ArtifactInventorySnapshot :=
  _ ← guard_err (negb (ai_closed x)) ErrSnapshotClosed;
  _ ← need (String.eqb (art_OriginDeviceID a) "") "artifact origin_device_id is store-owned";
  _ ← need (String.eqb (art_SourceEpoch a) "" && (art_SourceRevision a =? 0))
           "artifact source cursor is store-owned";
  let schema := if art_SchemaVersion a =? 0 then SchemaVersion else art_SchemaVersion a in
  let sourceID := if String.eqb (art_SourceID a) "" then art_ID a else art_SourceID a in
  _ ← validateID "artifact source_id" sourceID;
  _ ← need (String.eqb (art_ID a) sourceID) "incoming artifact source_id must equal id";
  let local := mkArtifact schema (art_ID a) (art_OriginDeviceID a) (art_ID a) (art_Kind a)
    (art_Title a) (art_State a) (art_URL a) (art_PathHint a) (art_Repo a) (art_Session a)
    (art_Provenance a) (art_Revision a) (art_SourceEpoch a) (art_SourceRevision a)
    (art_RemoteObservedAt a) unix_one unix_one FreshnessFresh in
  _ ← ArtifactEnvelope_Validate local;
  let remote := art_set (ai_deviceID x) sourceID (ai_epoch x) (ai_revision x)
                        unix_one unix_one FreshnessFresh local in
  mret (mkArtifactInventory (ai_deviceID x) (ai_epoch x) (ai_revision x) (ai_closed x)
          (<[nul_key (art_Kind a) sourceID := remote]> (ai_pending x))).

Definition ArtifactInventory_Abort (x : ArtifactInventorySnapshot) := ai_close x ∅.

Definition received_artifact (at_ : Time) (a : ArtifactEnvelope) : ArtifactEnvelope :=
  art_set (art_OriginDeviceID a) (art_SourceID a) (art_SourceEpoch a) (art_SourceRevision a)
          at_ at_ FreshnessFresh a.
Definition gone_artifact (epoch : string) (revision : Z) (at_ : Time) (a : ArtifactEnvelope) :=
  art_set (art_OriginDeviceID a) (art_SourceID a) epoch revision at_ at_ FreshnessGone a.

Definition commit_artifact_peer (x : ArtifactInventorySnapshot) (at_ : Time) (peer : PeerState)
    : PeerState :=
  let p := recomputePeerFreshness (ps_set_artifact FreshnessFresh at_
             (ps_set_updated at_ (ps_set_source (ai_epoch x) (ps_set_header (ai_deviceID x) peer)))) in
  ps_set_cursors (ps_Inventories p) (ps_SessionInventory p)
                 (Some (mkCursor (ai_epoch x) (ai_revision x) at_)) p.

Definition commitArtifactInventory (x : ArtifactInventorySnapshot) : H unit :=
  _ ← validateArtifactInventoryCursorLocked (ai_deviceID x) (ai_epoch x) (ai_revision x);
  peer ← getPeerOrNew (ai_deviceID x);
  existing ← listRemoteArtifactsRawLocked (ai_deviceID x) "";
  t ← now;
  let at_ := UTC t in
  let items := sorted_values (ai_pending x) in
  _ ← for_each (λ a, write_artifact_as ChangeUpsert (received_artifact at_ a)) items;
  _ ← for_each (λ a,
        if bool_decide (artifactRemoteIdentity a ∈ artifactRemoteIdentity <$> items) then mret tt
        else write_artifact_as ChangeFreshness
               (gone_artifact (ai_epoch x) (ai_revision x) at_ a)) existing;
  _ ← writePeerLocked (commit_artifact_peer x at_ peer);
  _ ← publishLocked ChangeSnapshot EntityInventory (ai_deviceID x +:+ "/artifacts");
  publishLocked ChangeFreshness EntityPeer (ai_deviceID x).

Definition ArtifactInventory_Commit (x : ArtifactInventorySnapshot) : H ArtifactInventorySnapshot :=
  _ ← lift (guard_err (negb (ai_closed x)) ErrSnapshotClosed);
  _ ← commitArtifactInventory x;
  mret (ai_close x (ai_pending x)).
End Operations.
