(* ===== verification/MeshBindings.v ===== *)
(** Surface bindings: which remote session a local cmux surface shows
    (internal/meshstate/store.go). *)

From S2P Require Import Prelude GoText MeshTypes MeshStore MeshFreshness MeshFiles.
From stdpp Require Import base gmap strings list fin_maps sorting.
From Stdlib Require Import ZArith Lia.

Open Scope Z_scope.

(** [ResolvedSurfaceBinding] *)
Record ResolvedSurfaceBinding := mkResolved {
  rb_Binding : SurfaceBinding;
  rb_Projection : option RemoteSessionProjection;
  rb_Peer : option PeerState;
  rb_PeerFreshness : Freshness;
  rb_EffectiveFreshness : Freshness;
}.

(** The defaulting preamble of the two writers. *)
Definition stamp_binding (at_ : Time) (b : SurfaceBinding) : SurfaceBinding :=
  mkBinding (if sb_SchemaVersion b =? 0 then SchemaVersion else sb_SchemaVersion b)
    (sb_BindingID b) (sb_LocalDeviceID b) (sb_Mux b) (sb_SurfaceID b) (sb_WorkspaceID b)
    (sb_Locator b) (sb_Source b)
    (if IsZero (sb_CreatedAt b) then at_ else sb_CreatedAt b) at_.

(** A same-target rewrite keeps creation time and provenance, and keeps the
    transport observation unless a new one is given. *)
Definition inherit_binding (existing b : SurfaceBinding) : SurfaceBinding :=
  let l := sb_Locator b in
  let transport := if String.eqb (loc_TransportBindingID l) ""
                   then loc_TransportBindingID (sb_Locator existing)
                   else loc_TransportBindingID l in
  mkBinding (sb_SchemaVersion b) (sb_BindingID b) (sb_LocalDeviceID b) (sb_Mux b)
    (sb_SurfaceID b) (sb_WorkspaceID b)
    (mkLocator (loc_SchemaVersion l) (loc_DeviceID l) (loc_ProfileScope l) (loc_SessionID l) transport)
    (sb_Source existing) (sb_CreatedAt existing) (sb_UpdatedAt b).

Definition putSurfaceBindingLocked (b : SurfaceBinding) (replace : bool) : H unit :=
  file ← lift (surfaceBindingPath (sb_SurfaceID b));
  r ← try (readJSONFile (A:=SurfaceBinding) file);
  b' ← match r with
       | Ok existing =>
           if negb (sameTarget existing b) && negb replace then throw ErrConflict
           else mret (if sameTarget existing b then inherit_binding existing b else b)
       | Err ErrNotFound => mret b
       | Err e => throw e
       end;
  _ ← writeJSONLocked file b';
  publishLocked ChangeUpsert EntitySurfaceBinding (sb_SurfaceID b).

Definition PutSurfaceBinding (b : SurfaceBinding) (replace : bool) : H unit :=
  t ← now;
  let b' := stamp_binding (UTC t) b in
  _ ← lift (SurfaceBinding_Validate b');
  putSurfaceBindingLocked b' replace.

Definition getSurfaceBindingLocked (surfaceID : string) : H SurfaceBinding :=
  file ← lift (surfaceBindingPath surfaceID);
  b ← readJSONFile (A:=SurfaceBinding) file;
  _ ← lift (SurfaceBinding_Validate b);
  _ ← lift (need (String.eqb (sb_SurfaceID b) surfaceID) "stored surface binding does not match path");
  mret b.

Definition GetSurfaceBinding (surfaceID : string) : H SurfaceBinding :=
  _ ← lift (need (uuidRE surfaceID) "surface_id is not a UUID");
  getSurfaceBindingLocked surfaceID.

Definition ValidateAndPutSurfaceBinding (b : SurfaceBinding) (replace : bool)
    : H ResolvedSurfaceBinding :=
  t ← now;
  let b' := stamp_binding (UTC t) b in
  _ ← lift (SurfaceBinding_Validate b');
  p ← getRemoteSessionLocked (sb_Locator b');
  _ ← lift (need (EqualIdentity (rs_Locator p) (sb_Locator b'))
                 "cached remote session locator does not match binding target");
  _ ← lift (need (negb (Freshness_eqb (rs_Freshness p) FreshnessGone)) "cached remote session is gone");
  _ ← putSurfaceBindingLocked b' replace;
  stored ← getSurfaceBindingLocked (sb_SurfaceID b');
  peer ← getPeerOpt (loc_DeviceID (sb_Locator b'));
  mret (mkResolved stored (Some p) peer
          (match peer with Some ps => ps_Freshness ps | None => FreshnessStale end)
          (rs_Freshness p)).

Definition ResolveSurfaceBinding (surfaceID : string) : H ResolvedSurfaceBinding :=
  _ ← lift (need (uuidRE surfaceID) "surface_id is not a UUID");
  b ← getSurfaceBindingLocked surfaceID;
  peer ← getPeerOpt (loc_DeviceID (sb_Locator b));
  let peerFreshness := match peer with Some ps => ps_Freshness ps | None => FreshnessStale end in
  let effective := match peer with Some ps => (sessionInventoryFreshness ps).1 | None => FreshnessStale end in
  file ← lift (remoteSessionPath (sb_Locator b));
  r ← try (readJSONFile (A:=RemoteSessionProjection) file);
  match r with
  | Err ErrNotFound =>
      mret (mkResolved b None peer peerFreshness
              (if bool_decide (is_Some peer) && Freshness_eqb effective FreshnessFresh
               then FreshnessGone else effective))
  | Err e => throw e
  | Ok p =>
      _ ← lift (RemoteSessionProjection_Validate p);
      _ ← lift (need (EqualIdentity (rs_Locator p) (sb_Locator b))
                     "stored projection locator does not match binding target");
      let p' := effectiveSessionProjection p peer in
      mret (mkResolved b (Some p') peer peerFreshness (rs_Freshness p'))
  end.

Definition ListSurfaceBindings : H (list SurfaceBinding) :=
  out ← list_files (A:=SurfaceBinding)
    (λ k b, _ ← SurfaceBinding_Validate b; path_is (surfaceBindingPath (sb_SurfaceID b)) k)
    (λ _, true);
  mret (sort_by_key sb_SurfaceID out).

Definition DeleteSurfaceBinding (surfaceID : string) : H unit :=
  _ ← lift (need (uuidRE surfaceID) "surface_id is not a UUID");
  file ← lift (surfaceBindingPath surfaceID);
  _ ← removeRegularFile (A:=SurfaceBinding) file;
  publishLocked ChangeDelete EntitySurfaceBinding surfaceID.
