(* ===== verification/MeshStoreFacts.v ===== *)
(** What the store primitives do to the disk: writes replace one file or
    nothing, reads are functions of the disk, notifications never fail and
    never touch a file, and a loop of writes that stops early has applied
    exactly a prefix of them. *)

From S2P Require Import Prelude GoText MeshTypes MeshStore MeshFreshness MeshFiles MeshSync.
From stdpp Require Import base gmap strings list fin_maps sorting.
From Stdlib Require Import ZArith Lia.

Open Scope Z_scope.

(** ** Notifications *)

(** Steps that leave files, pending write outcomes and the clock alone. *)
Definition quiet (s s' : Store) : Prop :=
  st_disk s' = st_disk s ∧ st_io s' = st_io s ∧ st_clock s' = st_clock s.
#[export] Instance quiet_preorder : PreOrder quiet.
Proof.
  split; [done|]. intros s1 s2 s3 (? & ? & ?) (? & ? & ?).
  repeat split; congruence.
Qed.

(** A handler that always succeeds, quietly. *)
Definition silent (m : H unit) : Prop := ∀ s, ∃ s', m s = (Ok tt, s') ∧ quiet s s'.

Lemma silent_bind {A} (m : H A) (f : A → H unit) :
  (∀ s, ∃ a s', m s = (Ok a, s') ∧ quiet s s') → (∀ a, silent (f a)) → silent (m ≫= f).
Proof.
  intros Hm Hf s. destruct (Hm s) as (a & s1 & Es & Hq).
  destruct (Hf a s1) as (s2 & Es2 & Hq2). exists s2.
  split; [unfold mbind, M_bind; by rewrite Es|by transitivity s1].
Qed.

Lemma silent_for_each {A} (f : A → H unit) l : (∀ x, silent (f x)) → silent (for_each f l).
Proof.
  intros Hf. induction l as [|x l IH]; [by intros s; exists s|].
  simpl. apply silent_bind; [|done]. intros s. destruct (Hf x s) as (s' & ? & ?). by exists tt, s'.
Qed.

Lemma deliver_silent event w : silent (deliver event w).
Proof.
  destruct w as [id w]. unfold deliver. destruct (select_send event _) as [w' []].
  - intros s. by eexists.
  - apply silent_bind; [intros s; by do 2 eexists|]. intros at_ s. by eexists.
Qed.

Lemma publish_silent kind entity key : silent (publishLocked kind entity key).
Proof.
  unfold publishLocked.
  repeat (apply silent_bind; [intros s; by do 2 eexists|intros ?]).
  apply silent_for_each. intros. apply deliver_silent.
Qed.

Lemma silent_run m s r s' : silent m → m s = (r, s') → r = Ok tt ∧ st_disk s' = st_disk s.
Proof.
  intros Hm Es. destruct (Hm s) as (s1 & Es1 & Hq & _). rewrite Es in Es1.
  by injection Es1 as -> ->.
Qed.

(** ** Writes *)

Definition skey (l : RemoteSessionLocator) : SessionKey :=
  (loc_DeviceID l, loc_ProfileScope l, loc_SessionID l).
Definition akey (a : ArtifactEnvelope) : SessionKey :=
  (art_OriginDeviceID a, art_Kind a, art_SourceID a).

Definition put_file {K A} `{Collection K A} (k : K) (v : A) (d : Disk) : Disk :=
  set_coll (<[k := Regular 384 (Some (written (K:=K) v))]> (coll d)) d.
Definition put_session (p : RemoteSessionProjection) : Disk → Disk :=
  put_file (skey (rs_Locator p)) p.
Definition put_remote_artifact (a : ArtifactEnvelope) : Disk → Disk :=
  put_file (akey a) a.
Definition put_peer (p : PeerState) : Disk → Disk := put_file (ps_DeviceID p) p.

(** Every session file holds the text the store writes for its value. *)
Definition canonical (d : Disk) : Prop :=
  map_Forall (λ _ f, ∀ p, decode_file (Some f) = Ok p → indented_projection p = p) (d_sessions d).
(** Every session file passes the check a reader makes. *)
Definition sessions_valid (d : Disk) : Prop :=
  map_Forall (λ _ f, ∀ p, decode_file (Some f) = Ok p → RemoteSessionProjection_Validate p = Ok tt)
    (d_sessions d).

(** Every run either applies [upd] to the disk and succeeds having checked
    [ok], or fails and leaves the disk alone. *)
Definition writes_as (upd : Disk → Disk) (ok : Prop) (m : H unit) : Prop :=
  ∀ s, match m s with
       | (Ok _, s') => ok ∧ st_disk s' = upd (st_disk s)
       | (Err _, s') => st_disk s' = st_disk s
       end.

Section Writes.
Context {K A : Type} `{Collection K A}.

Lemma writeJSON_writes (k : K) (v : A) :
  writes_as (put_file k v) True (writeJSONLocked k v).
Proof.
  intros s. unfold writeJSONLocked, mbind, M_bind, gets. simpl.
  assert (writes_as (put_file k v) True
    (ok ← io_outcome;
     if (ok : bool)
     then modify (λ s, set_disk (set_coll (<[k := Regular 384 (Some (written (K:=K) v))]>
                                 (coll (A:=A) (st_disk s))) (st_disk s)) s)
     else throw (ErrIO "write"))) as Hw.
  { intros s'. unfold mbind, M_bind, io_outcome.
    by destruct (st_io s') as [|[] rest]. }
  destruct (coll (st_disk s) !! k) as [[]|]; [apply Hw|done|apply Hw].
Qed.
End Writes.

Lemma writes_as_lift {A} (r : result MeshError A) upd ok (f : A → H unit) :
  (∀ a, r = Ok a → writes_as upd (ok a) (f a)) →
  writes_as upd (∃ a, r = Ok a ∧ ok a) (lift r ≫= f).
Proof.
  intros Hf s. unfold mbind, M_bind, lift. destruct r as [a|e]; [|done].
  specialize (Hf a eq_refl s). destruct (f a s) as [[]]; [|done].
  destruct Hf as [Ho Hd]. split; [by exists a|done].
Qed.

Lemma writes_as_then_silent upd ok (m m' : H unit) :
  writes_as upd ok m → silent m' → writes_as upd ok (m ≫= λ _, m').
Proof.
  intros Hm Hs s. specialize (Hm s). unfold mbind, M_bind.
  destruct (m s) as [[[]|e] s1]; [|done].
  destruct (Hs s1) as (s2 & -> & Hq & _). destruct Hm as [? <-]. done.
Qed.

Lemma writes_as_weaken upd ok ok' (m : H unit) :
  (ok → ok') → writes_as upd ok m → writes_as upd ok' m.
Proof.
  intros Hok Hm s. specialize (Hm s). destruct (m s) as [[]]; [|done]. destruct Hm. auto.
Qed.

Lemma writes_as_skip : writes_as id True (mret tt).
Proof. by intros s. Qed.

Lemma writes_as_if (b : bool) upd ok (m : H unit) :
  writes_as upd ok m →
  writes_as (if b then upd else id) (b = true → ok) (if b then m else mret tt).
Proof.
  intros Hm. destruct b.
  - by eapply writes_as_weaken; [|done].
  - by eapply writes_as_weaken; [|apply writes_as_skip].
Qed.

(** A loop of writes: all of them, or a strict prefix. *)
Lemma for_each_writes {A} (f : A → H unit) (upd : A → Disk → Disk) (ok : A → Prop) l s :
  (∀ x, writes_as (upd x) (ok x) (f x)) →
  match for_each f l s with
  | (Ok _, s') => Forall ok l ∧ st_disk s' = foldl (λ d x, upd x d) (st_disk s) l
  | (Err _, s') => ∃ l1 l2, l = l1 ++ l2 ∧ st_disk s' = foldl (λ d x, upd x d) (st_disk s) l1
  end.
Proof.
  intros Hf. revert s. induction l as [|x l IH]; intros s; simpl; [done|].
  pose proof (Hf x s) as Hx. unfold mbind, M_bind.
  destruct (f x s) as [[[]|e] s1].
  - destruct Hx as [Hok Hd]. specialize (IH s1). rewrite Hd in IH.
    destruct (for_each f l s1) as [[]].
    + destruct IH. split; [by constructor|done].
    + destruct IH as (l1 & l2 & -> & ?). by exists (x :: l1), l2.
  - by exists [], (x :: l).
Qed.

Lemma for_each_writes_ok {A} (f : A → H unit) l s u s' (upd : A → Disk → Disk) (ok : A → Prop) :
  for_each f l s = (Ok u, s') → (∀ x, writes_as (upd x) (ok x) (f x)) →
  Forall ok l ∧ st_disk s' = foldl (λ d x, upd x d) (st_disk s) l.
Proof. intros Hr Hf. pose proof (for_each_writes f upd ok l s Hf) as Hw. by rewrite Hr in Hw. Qed.

Section Sessions.
Context `{UrlLib}.

Lemma remoteSessionPath_ok l k : remoteSessionPath l = Ok k → k = skey l.
Proof. unfold remoteSessionPath. intros. by inv_ok. Qed.
Lemma remoteArtifactPath_ok o k i key : remoteArtifactPath o k i = Ok key → key = (o, k, i).
Proof. unfold remoteArtifactPath. intros. by inv_ok. Qed.
Lemma peerPath_ok d k : peerPath d = Ok k → k = d.
Proof. unfold peerPath. intros. by inv_ok. Qed.
Lemma surfaceBindingPath_ok d k : surfaceBindingPath d = Ok k → k = d.
Proof. unfold surfaceBindingPath. intros. by inv_ok. Qed.
Lemma artifactPath_ok kd i k : artifactPath kd i = Ok k → k = (kd, i).
Proof. unfold artifactPath. intros. by inv_ok. Qed.

Definition session_writable (p : RemoteSessionProjection) : Prop :=
  RemoteSessionProjection_Validate p = Ok tt ∧
  remoteSessionPath (rs_Locator p) = Ok (skey (rs_Locator p)).
Definition artifact_writable (a : ArtifactEnvelope) : Prop :=
  art_OriginDeviceID a ≠ "" ∧ ArtifactEnvelope_Validate a = Ok tt ∧
  remoteArtifactPath (art_OriginDeviceID a) (art_Kind a) (art_SourceID a) = Ok (akey a).
Definition peer_writable (p : PeerState) : Prop :=
  PeerState_Validate p = Ok tt ∧ peerPath (ps_DeviceID p) = Ok (ps_DeviceID p).

Lemma writeRemoteSession_writes p :
  writes_as (put_session p) (session_writable p) (writeRemoteSessionLocked p).
Proof.
  eapply writes_as_weaken; [|apply (writes_as_lift _ _ (λ _,
    remoteSessionPath (rs_Locator p) = Ok (skey (rs_Locator p))))].
  - by intros ([] & ? & ?).
  - intros [] _. eapply writes_as_weaken; [|apply (writes_as_lift _ _ (λ k, k = skey (rs_Locator p)))].
    + by intros (k & ? & ->).
    + intros k ->%remoteSessionPath_ok.
      eapply writes_as_weaken; [|apply writeJSON_writes]. done.
Qed.

Lemma writeRemoteArtifact_writes a :
  writes_as (put_remote_artifact a) (artifact_writable a) (writeRemoteArtifactLocked a).
Proof.
  eapply writes_as_weaken; [|apply (writes_as_lift _ _ (λ _, ArtifactEnvelope_Validate a = Ok tt ∧
     remoteArtifactPath (art_OriginDeviceID a) (art_Kind a) (art_SourceID a) = Ok (akey a)))].
  - intros ([] & Ho%need_ok & ?). split; [|done]. by destruct (String.eqb_spec (art_OriginDeviceID a) "").
  - intros [] _. eapply writes_as_weaken; [|apply (writes_as_lift _ _ (λ _,
     remoteArtifactPath (art_OriginDeviceID a) (art_Kind a) (art_SourceID a) = Ok (akey a)))].
    + by intros ([] & ? & ?).
    + intros [] _. eapply writes_as_weaken; [|apply (writes_as_lift _ _ (λ k, k = akey a))].
      * by intros (k & ? & ->).
      * intros k ->%remoteArtifactPath_ok.
        eapply writes_as_weaken; [|apply writeJSON_writes]. done.
Qed.

Lemma writePeer_writes p : writes_as (put_peer p) (peer_writable p) (writePeerLocked p).
Proof.
  eapply writes_as_weaken; [|apply (writes_as_lift _ _ (λ _, peerPath (ps_DeviceID p) = Ok (ps_DeviceID p)))].
  - by intros ([] & ? & ?).
  - intros [] _. eapply writes_as_weaken; [|apply (writes_as_lift _ _ (λ k, k = ps_DeviceID p))].
    + by intros (k & ? & ->).
    + intros k ->%peerPath_ok. eapply writes_as_weaken; [|apply writeJSON_writes]. done.
Qed.

Lemma write_session_as_writes change p :
  writes_as (put_session p) (session_writable p) (write_session_as change p).
Proof. apply writes_as_then_silent; [apply writeRemoteSession_writes|apply publish_silent]. Qed.
Lemma write_artifact_as_writes change a :
  writes_as (put_remote_artifact a) (artifact_writable a) (write_artifact_as change a).
Proof. apply writes_as_then_silent; [apply writeRemoteArtifact_writes|apply publish_silent]. Qed.

(** ** Reads as functions of the disk *)

Definition read_peer (d : Disk) (deviceID : string) : result MeshError PeerState :=
  file ← peerPath deviceID;
  peer ← decode_file (d_peers d !! file);
  _ ← PeerState_Validate peer;
  _ ← need (String.eqb (ps_DeviceID peer) deviceID) "stored peer does not match path";
  mret peer.

Definition optional {A} (r : result MeshError A) : result MeshError (option A) :=
  match r with
  | Ok a => Ok (Some a)
  | Err ErrNotFound => Ok None
  | Err e => Err e
  end.

Lemma getPeerLocked_run dev s : getPeerLocked dev s = (read_peer (st_disk s) dev, s).
Proof.
  unfold getPeerLocked, read_peer, readJSONFile, mbind, M_bind, result_bind, lift, gets, mret, M_ret.
  destruct (peerPath dev) as [k|]; [|done]. simpl.
  destruct (decode_file _) as [p|]; [|done].
  destruct (PeerState_Validate p) as [[]|]; [|done].
  by destruct (need _ _) as [[]|].
Qed.

Lemma getPeerOpt_run dev s : getPeerOpt dev s = (optional (read_peer (st_disk s) dev), s).
Proof.
  unfold getPeerOpt, try, mbind, M_bind. rewrite getPeerLocked_run.
  by destruct (read_peer (st_disk s) dev) as [p|[]].
Qed.

Definition peer_or_new (dev : string) (found : option PeerState) : PeerState :=
  match found with Some peer => peer | None => new_peer dev end.

Lemma getPeerOrNew_run dev s :
  getPeerOrNew dev s = (peer_or_new dev <$> optional (read_peer (st_disk s) dev), s).
Proof.
  unfold getPeerOrNew, mbind, M_bind. rewrite getPeerOpt_run.
  by destruct (optional _).
Qed.

Definition read_session (d : Disk) (l : RemoteSessionLocator) : result MeshError RemoteSessionProjection :=
  file ← remoteSessionPath l;
  p ← decode_file (d_sessions d !! file);
  _ ← RemoteSessionProjection_Validate p;
  _ ← need (EqualIdentity (rs_Locator p) l) "stored projection locator does not match path";
  mret p.

(** The consumer's view of one session. *)
Definition view_session (d : Disk) (l : RemoteSessionLocator) : result MeshError RemoteSessionProjection :=
  p ← read_session d l;
  peer ← optional (read_peer d (loc_DeviceID l));
  mret (effectiveSessionProjection p peer).

Lemma getRemoteSessionLocked_run l s :
  getRemoteSessionLocked l s = (view_session (st_disk s) l, s).
Proof.
  unfold getRemoteSessionLocked, view_session, read_session, readJSONFile,
    mbind, M_bind, result_bind, lift, gets, mret, M_ret, result_ret.
  destruct (remoteSessionPath l) as [k|]; [|done]. simpl.
  destruct (decode_file _) as [p|]; [|done].
  destruct (RemoteSessionProjection_Validate p) as [[]|]; [|done].
  destruct (need _ _) as [[]|]; [|done].
  rewrite getPeerOpt_run. by destruct (optional _).
Qed.

Lemma GetRemoteSession_run l s :
  RemoteSessionLocator_Validate l = Ok tt →
  GetRemoteSession l s = (view_session (st_disk s) l, s).
Proof.
  intros Hl. unfold GetRemoteSession. rewrite Hl.
  unfold mbind, M_bind, lift. apply getRemoteSessionLocked_run.
Qed.

(** What a read sees after the writes of this file. *)
Lemma decode_written {A} (v : A) : decode_file (Some (Regular 384 (Some v))) = Ok v.
Proof. done. Qed.

Lemma read_peer_put p d :
  peer_writable p → read_peer (put_peer p d) (ps_DeviceID p) = Ok p.
Proof.
  intros [Hv Hp]. unfold read_peer. rewrite Hp. cbn.
  rewrite lookup_insert_eq. unfold decode_file. simpl. rewrite Hv. simpl. by rewrite String.eqb_refl.
Qed.

Lemma read_peer_ne d d' dev : d_peers d' !! dev = d_peers d !! dev → read_peer d' dev = read_peer d dev.
Proof.
  intros Hd. unfold read_peer. destruct (peerPath dev) as [k|] eqn:Hk; [|done].
  apply peerPath_ok in Hk as ->. simpl. by rewrite Hd.
Qed.

Lemma read_session_ne d d' l :
  d_sessions d' !! skey l = d_sessions d !! skey l → read_session d' l = read_session d l.
Proof.
  intros Hd. unfold read_session. destruct (remoteSessionPath l) as [k|] eqn:Hk; [|done].
  apply remoteSessionPath_ok in Hk as ->. simpl. by rewrite Hd.
Qed.

Lemma read_peer_Ok d dev p : read_peer d dev = Ok p → ps_DeviceID p = dev ∧ PeerState_Validate p = Ok tt.
Proof.
  unfold read_peer. intros Hr. inv_ok.
  match goal with E : need _ _ = Ok _ |- _ => apply need_ok, String.eqb_eq in E end. done.
Qed.
End Sessions.

Lemma silent_ok m s r s' : silent m → m s = (r, s') → st_disk s' = st_disk s.
Proof. intros Hm Hr. by apply (silent_run _ _ _ _ Hm) in Hr as [_ ?]. Qed.

Lemma writePeer_ok p s s' u :
  writePeerLocked p s = (Ok u, s') → peer_writable p ∧ st_disk s' = put_peer p (st_disk s).
Proof. intros Hr. pose proof (writePeer_writes p s) as Hw. by rewrite Hr in Hw. Qed.

Lemma peer_or_new_device d dev found :
  optional (read_peer d dev) = Ok found → ps_DeviceID (peer_or_new dev found) = dev.
Proof.
  unfold optional. destruct found as [ps|]; [|done]. intros Hf.
  destruct (read_peer _ _) as [ps'|[]] eqn:Hrd; try done. injection Hf as ->.
  by apply read_peer_Ok in Hrd as [? _].
Qed.
