(* ===== verification/MeshListFacts.v ===== *)
(** Listings and keys: what a successful listing says about the directory it
    read, and why validated identifiers are safe, unambiguous path segments; and that no listing hands
    out forbidden metadata. *)

From S2P Require Import Prelude GoText MeshTypes MeshStore MeshFreshness MeshFiles MeshSync MeshInventory.
From S2P Require Import MeshBindings MeshStoreFacts.
From stdpp Require Import base fin_maps gmap strings list sorting.
From Stdlib Require Import ZArith Lia Ascii.

Open Scope Z_scope.

(** ** Characters *)

Ltac ascii_cases := intros [[] [] [] [] [] [] [] []]; vm_compute; congruence.

Definition path_char (c : ascii) : bool :=
  negb (Ascii.eqb "/" c) && negb (byte_val c =? 92) && negb (byte_val c =? 0).

Lemma id_char_path c : is_alnum c || is_id_punct c = true → path_char c = true.
Proof. revert c. ascii_cases. Qed.
Lemma alnum_path c : is_alnum c = true → path_char c = true.
Proof. revert c. ascii_cases. Qed.
Lemma alnum_not_dot c : is_alnum c = true → Ascii.eqb c "." = false.
Proof. revert c. ascii_cases. Qed.
Lemma slug_char_path c : is_lc_alnum c || char_is "_" c || char_is "-" c = true → path_char c = true.
Proof. revert c. ascii_cases. Qed.
Lemma lc_alnum_path c : is_lc_alnum c = true → path_char c = true.
Proof. revert c. ascii_cases. Qed.
Lemma path_char_sep c : path_char c = true → negb (Ascii.eqb "/" c) = true.
Proof. unfold path_char. by intros [[? _]%andb_true_iff _]%andb_true_iff. Qed.

(** ** Identifiers are path segments *)

(** The field name only labels the error. *)
Lemma validateID_field f g s : validateID f s = Ok tt → validateID g s = Ok tt.
Proof. unfold validateID. rewrite !need_ok. done. Qed.

Lemma validateID_chars f s :
  validateID f s = Ok tt →
  ∃ c s', s = String c s' ∧ is_alnum c = true ∧ all_chars path_char s = true.
Proof.
  intros Hv%need_ok. apply andb_true_iff in Hv as [Hv _]. apply andb_true_iff in Hv as [Hv _].
  destruct s as [|c s']; [done|]. unfold safeID, head_tail in Hv.
  apply andb_true_iff in Hv as [Hv _]. apply andb_true_iff in Hv as [Hc Hs].
  exists c, s'. repeat split; [done|]. simpl. rewrite (alnum_path _ Hc).
  by apply (all_chars_impl _ _ _ id_char_path).
Qed.

Lemma scope_chars s :
  ProfileScope_Validate s = Ok tt →
  ∃ c s', s = String c s' ∧ Ascii.eqb c "." = false ∧ all_chars path_char s = true.
Proof.
  unfold ProfileScope_Validate. destruct (String.eqb_spec s RootProfileScope) as [->|_].
  { intros _. by do 2 eexists. }
  intros Hv%need_ok. destruct (cut_prefix "profile:" s) as [slug|] eqn:Hc; [|done].
  apply cut_prefix_spec in Hc as ->. do 2 eexists. split; [done|]. split; [done|].
  rewrite all_chars_app. apply andb_true_iff. split; [done|].
  unfold profileSlug, slug_matches in Hv. destruct slug as [|c slug]; [done|].
  apply andb_true_iff in Hv as [Hc Hv]. simpl. rewrite (lc_alnum_path _ Hc). simpl.
  destruct slug as [|d slug]; [done|].
  destruct (last_char (String d slug)) as [z|] eqn:Hl.
  - apply andb_true_iff in Hv as [_ Hv]. by apply (all_chars_impl _ _ _ slug_char_path).
  - exfalso. clear -Hl. revert d Hl. induction slug as [|e slug IH]; intros d Hl; [done|].
    by apply (IH e).
Qed.

Lemma safe_segment_intro c s :
  Ascii.eqb c "." = false → all_chars path_char (String c s) = true → safe_segment (String c s) = true.
Proof.
  intros Hd Hs. unfold safe_segment. rewrite !andb_true_iff. repeat split; [..|exact Hs].
  all: simpl; by rewrite Hd.
Qed.

Lemma id_segments f s :
  validateID f s = Ok tt → safe_segment s = true ∧ safe_segment (s +:+ ".json") = true.
Proof.
  intros (c & s' & -> & Hc & Hs)%validateID_chars. split.
  - by apply safe_segment_intro; [apply alnum_not_dot|].
  - change (String c s' +:+ ".json") with (String c (s' +:+ ".json")).
    apply safe_segment_intro; [by apply alnum_not_dot|].
    change (String c (s' +:+ ".json")) with (String c s' +:+ ".json").
    by rewrite all_chars_app, Hs.
Qed.

Lemma id_no_sep f s : validateID f s = Ok tt → all_chars (λ c, negb (Ascii.eqb "/" c)) s = true.
Proof.
  intros (c & s' & -> & _ & Hs)%validateID_chars. by apply (all_chars_impl _ _ _ path_char_sep).
Qed.
Lemma scope_no_sep s : ProfileScope_Validate s = Ok tt → all_chars (λ c, negb (Ascii.eqb "/" c)) s = true.
Proof.
  intros (c & s' & -> & _ & Hs)%scope_chars. by apply (all_chars_impl _ _ _ path_char_sep).
Qed.
Lemma scope_segment s : ProfileScope_Validate s = Ok tt → safe_segment s = true.
Proof. intros (c & s' & -> & Hd & Hs)%scope_chars. by apply safe_segment_intro. Qed.

Record locator_ok (l : RemoteSessionLocator) : Prop := {
  lok_schema : loc_SchemaVersion l = 1;
  lok_device : validateID "device_id" (loc_DeviceID l) = Ok tt;
  lok_scope : ProfileScope_Validate (loc_ProfileScope l) = Ok tt;
  lok_session : validateID "session_id" (loc_SessionID l) = Ok tt;
}.

Lemma locator_Validate_ok l : RemoteSessionLocator_Validate l = Ok tt → locator_ok l.
Proof.
  unfold RemoteSessionLocator_Validate. intros Hv. inv_ok.
  all: repeat match goal with u : unit |- _ => destruct u end.
  all: match goal with E : need _ _ = Ok _ |- _ => apply need_ok, Z.eqb_eq in E end.
  all: by split.
Qed.

Lemma remoteSessionPath_valid l : locator_ok l → remoteSessionPath l = Ok (skey l).
Proof.
  intros [_ Hd Hs Hi]. unfold remoteSessionPath, path.
  apply id_segments in Hd as [Hd _], Hi as [_ Hi]. apply scope_segment in Hs.
  cbn [forallb]. rewrite Hd, Hs, Hi. done.
Qed.

Lemma peerPath_valid f d : validateID f d = Ok tt → peerPath d = Ok d.
Proof.
  intros [_ Hd]%id_segments. unfold peerPath, path. cbn [forallb]. by rewrite Hd.
Qed.

Lemma identityKey_inj l l' :
  locator_ok l → locator_ok l' → identityKey l = identityKey l' ↔ skey l = skey l'.
Proof.
  intros [_ Hd Hs _] [_ Hd' Hs' _]. unfold skey. split.
  - unfold identityKey. simpl. intros [E1 E2]%join_sep_inj; [|by eapply id_no_sep..].
    apply join_sep_inj in E2 as [E2 E3]; [|by apply scope_no_sep..]. congruence.
  - unfold identityKey. congruence.
Qed.

Lemma EqualIdentity_skey l l' :
  locator_ok l → locator_ok l' → EqualIdentity l l' = true ↔ skey l = skey l'.
Proof.
  intros [Hv _ _ _] [Hv' _ _ _]. unfold EqualIdentity, skey. rewrite Hv, Hv'.
  rewrite !andb_true_iff, !String.eqb_eq. simpl.
  split; [by intros [[[_ ->] ->] ->]|by intros [= -> -> ->]].
Qed.

(** ** Listings *)

Section Listing.
Context {K A : Type} `{Collection K A} (accept : K → A → check) (keep : A → bool).

Lemma read_all_ok files l :
  read_all accept keep files = Ok l →
  (∀ k f, (k, f) ∈ files → ∃ a, decode_file (Some f) = Ok a ∧ accept k a = Ok tt) ∧
  (∀ a, a ∈ l ↔ ∃ k f, (k, f) ∈ files ∧ decode_file (Some f) = Ok a ∧ keep a = true).
Proof.
  revert l. induction files as [|[k f] files IH]; intros l Hr; simpl in Hr.
  { unfold mret, result_ret in Hr. simplify_eq. split; [by intros ?? ?%elem_of_nil|].
    intros a. split; [by intros ?%elem_of_nil|by intros (? & ? & ?%elem_of_nil & _)]. }
  apply result_bind_ok in Hr as (a & Ha & Hr).
  apply result_bind_ok in Hr as ([] & Hacc & Hr).
  apply result_bind_ok in Hr as (out & Hout & Hr).
  destruct (IH out Hout) as [IH1 IH2]. unfold mret, result_ret in Hr. split.
  - intros k' f' [[= -> ->]|Hin]%elem_of_cons; [by exists a|by apply IH1].
  - intros b. trans (b ∈ out ∨ b = a ∧ keep a = true).
    { destruct (keep a) eqn:Hk; simplify_eq; [rewrite elem_of_cons|].
      - split; [intros [->|?]; [by right|by left]|intros [?|[-> _]]; [by right|by left]].
      - split; [by left|by intros [?|[_ ?]]]. }
    rewrite IH2. split.
    + intros [(k' & f' & Hin & ? & ?)|[-> ?]].
      * exists k', f'. split; [by right|done].
      * exists k, f. split; [left|done].
    + intros (k' & f' & [[= -> ->]|Hin]%elem_of_cons & Hd & Hk).
      * right. assert (a = b) as -> by congruence. done.
      * left. by exists k', f'.
Qed.

(** Each file contributes its record, so distinct keys give distinct records. *)
Lemma read_all_NoDup {B} (key : A → B) (toB : K → B) files l :
  Inj (=) (=) toB → NoDup files.*1 →
  (∀ k a, accept k a = Ok tt → key a = toB k) →
  read_all accept keep files = Ok l → NoDup (key <$> l).
Proof.
  intros Hinj Hnd Hkey. revert l. induction files as [|[k f] files IH]; intros l Hr; simpl in *.
  { unfold mret, result_ret in Hr. simplify_eq. apply NoDup_nil_2. }
  apply NoDup_cons in Hnd as [Hk Hnd].
  apply result_bind_ok in Hr as (a & Ha & Hr).
  apply result_bind_ok in Hr as ([] & Hacc & Hr).
  apply result_bind_ok in Hr as (out & Hout & Hr).
  specialize (IH Hnd out Hout). unfold mret, result_ret in Hr.
  destruct (keep a); simplify_eq; [|done]. simpl. apply NoDup_cons. split; [|done].
  intros (b & Hb & Hin)%list_elem_of_fmap.
  apply (read_all_ok files out Hout) in Hin as (k' & f' & Hin & Hd & _).
  destruct (proj1 (read_all_ok files out Hout) k' f' Hin) as (b' & Hb' & Hacc').
  assert (b' = b) as -> by congruence. apply Hk.
  rewrite (Hkey _ _ Hacc), (Hkey _ _ Hacc') in Hb. apply Hinj in Hb as ->.
  apply list_elem_of_fmap. by exists (k', f').
Qed.

Lemma list_files_run s :
  list_files accept keep s = (read_all accept keep (map_to_list (coll (st_disk s))), s).
Proof. done. Qed.
End Listing.

Section Sessions.
Context `{UrlLib}.

Definition list_sessions (d : Disk) (dev scope : string) : result MeshError (list RemoteSessionProjection) :=
  sort_by_key (λ p, identityKey (rs_Locator p)) <$>
    read_all accept_session (session_filter dev scope) (map_to_list (d_sessions d)).

Lemma listRemoteSessionsLocked_run dev scope s :
  listRemoteSessionsLocked dev scope s = (list_sessions (st_disk s) dev scope, s).
Proof.
  unfold listRemoteSessionsLocked, list_sessions, mbind, M_bind. rewrite list_files_run. simpl.
  by destruct (read_all _ _ _).
Qed.

Lemma accept_session_ok k p :
  accept_session k p = Ok tt → RemoteSessionProjection_Validate p = Ok tt ∧ skey (rs_Locator p) = k.
Proof.
  unfold accept_session, path_is. intros Hr. inv_ok; [|done].
  match goal with E : remoteSessionPath _ = Ok _ |- _ => apply remoteSessionPath_ok in E as -> end.
  match goal with E : need _ _ = Ok _ |- _ => apply need_ok, bool_decide_eq_true in E end. done.
Qed.

Lemma projection_locator_ok p : RemoteSessionProjection_Validate p = Ok tt → locator_ok (rs_Locator p).
Proof.
  unfold RemoteSessionProjection_Validate. intros Hv. inv_ok.
  by apply locator_Validate_ok.
Qed.

(** A successful listing of one device: exactly its stored projections, each
    valid and filed under its own key. *)
Lemma list_sessions_ok d dev l :
  dev ≠ "" → list_sessions d dev "" = Ok l →
  NoDup ((λ p, skey (rs_Locator p)) <$> l) ∧
  (∀ p, p ∈ l → RemoteSessionProjection_Validate p = Ok tt ∧ loc_DeviceID (rs_Locator p) = dev) ∧
  (∀ k f, d_sessions d !! k = Some f →
     ∃ p, decode_file (Some f) = Ok p ∧ skey (rs_Locator p) = k ∧
          RemoteSessionProjection_Validate p = Ok tt ∧ (k.1.1 = dev → p ∈ l)) ∧
  (∀ p, p ∈ l → is_Some (d_sessions d !! skey (rs_Locator p))).
Proof.
  unfold list_sessions. intros Hdev Hl.
  destruct (read_all _ _ _) as [out|] eqn:Hr; simplify_eq/=.
  destruct (read_all_ok _ _ _ _ Hr) as [Hall Hin].
  assert (∀ p, p ∈ out → ∃ k f, d_sessions d !! k = Some f ∧ decode_file (Some f) = Ok p ∧
    RemoteSessionProjection_Validate p = Ok tt ∧ skey (rs_Locator p) = k ∧
    session_filter dev "" p = true) as Hout.
  { intros p (k & f & Hk & Hd & Hkeep)%Hin. destruct (Hall k f Hk) as (p' & Hd' & Hacc).
    assert (p' = p) as -> by congruence. apply accept_session_ok in Hacc as [? ?].
    exists k, f. apply elem_of_map_to_list in Hk. done. }
  split; [|split; [|split]].
  - assert (Permutation ((λ p, skey (rs_Locator p)) <$> sort_by_key (λ p, identityKey (rs_Locator p)) out)
                        ((λ p, skey (rs_Locator p)) <$> out)) as ->.
    { apply fmap_Permutation, merge_sort_Permutation. }
    eapply (read_all_NoDup accept_session _ _ id); [apply _|apply NoDup_fst_map_to_list| |exact Hr].
    by intros k a [_ ?]%accept_session_ok.
  - intros p Hp%elem_of_sort_by_key. destruct (Hout p Hp) as (? & ? & ? & ? & ? & ? & Hf).
    split; [done|]. unfold session_filter in Hf. apply andb_true_iff in Hf as [Hf _].
    destruct (String.eqb_spec dev ""); [done|]. by apply String.eqb_eq in Hf.
  - intros k f Hk. destruct (Hall k f) as (p & Hd & [Hv Hs]%accept_session_ok).
    { by apply elem_of_map_to_list. }
    exists p. repeat split; [done..|]. intros Hdk. apply elem_of_sort_by_key, Hin.
    exists k, f. repeat split; [by apply elem_of_map_to_list|done|].
    unfold session_filter. simpl. rewrite <- Hs in Hdk. simpl in Hdk. rewrite Hdk, String.eqb_refl.
    by rewrite orb_true_r.
  - intros p Hp%elem_of_sort_by_key. destruct (Hout p Hp) as (k & f & Hk & _ & _ & -> & _). eauto.
Qed.
End Sessions.

(** ** Pending maps in commit order *)

Lemma sorted_values_elem {A} (m : gmap string A) x :
  x ∈ omap (λ k, m !! k) (sort_strings (map_to_list m).*1) ↔ ∃ k, m !! k = Some x.
Proof.
  rewrite list_elem_of_omap. split.
  - intros (k & _ & ?). by exists k.
  - intros (k & Hk). exists k. split; [|done]. apply elem_of_sort_strings, list_elem_of_fmap.
    exists (k, x). split; [done|by apply elem_of_map_to_list].
Qed.

(** When each value determines its key, committing visits each value once. *)
Lemma sorted_values_keys {A} (m : gmap string A) (g : A → string) :
  (∀ k v, m !! k = Some v → g v = k) →
  g <$> omap (λ k, m !! k) (sort_strings (map_to_list m).*1) = sort_strings (map_to_list m).*1.
Proof.
  intros Hg. assert (∀ k, k ∈ sort_strings (map_to_list m).*1 → ∃ v, m !! k = Some v) as Hk.
  { intros k ([k' v] & -> & Hin%elem_of_map_to_list)%elem_of_sort_strings%list_elem_of_fmap. eauto. }
  revert Hk. generalize (sort_strings (map_to_list m).*1) as ks.
  induction ks as [|k ks IH]; intros Hk; [done|]. simpl.
  destruct (Hk k) as [v Hv]; [left|]. rewrite Hv. simpl. f_equal; [by apply Hg|].
  apply IH. intros k' ?. apply Hk. by right.
Qed.

Lemma sorted_values_NoDup {A B} (m : gmap string A) (key : A → B) (h : B → string) :
  (∀ k v, m !! k = Some v → h (key v) = k) →
  NoDup (key <$> omap (λ k, m !! k) (sort_strings (map_to_list m).*1)).
Proof.
  intros Hk. apply (NoDup_fmap_1 h). rewrite <- list_fmap_compose.
  change (h ∘ key) with (λ v, h (key v)).
  rewrite sorted_values_keys by done. rewrite sort_strings_Permutation.
  apply NoDup_fst_map_to_list.
Qed.

(** * Forbidden metadata

    The metadata policy: the recursive check on projection metadata is
    exactly "no forbidden key at any depth", and nothing the store hands out
    violates it. *)

(** [occurs k v]: some object inside [v], at any depth, has the key [k]. *)
Inductive occurs (k : string) : json → Prop :=
| occurs_key members v : (k, v) ∈ members → occurs k (JObject members)
| occurs_member members k' v : (k', v) ∈ members → occurs k v → occurs k (JObject members)
| occurs_item items v : v ∈ items → occurs k v → occurs k (JArray items).

(** Induction on JSON values through their lists of children. *)
Section JsonInd.
Context (P : json → Prop)
  (H_null : P JNull) (H_bool : ∀ b, P (JBool b)) (H_num : ∀ n, P (JNumber n))
  (H_str : ∀ s, P (JString s))
  (H_arr : ∀ items, Forall P items → P (JArray items))
  (H_obj : ∀ members, Forall (λ kv, P kv.2) members → P (JObject members)).

Fixpoint json_children_ind (v : json) : P v :=
  match v with
  | JNull => H_null
  | JBool b => H_bool b
  | JNumber n => H_num n
  | JString s => H_str s
  | JArray items => H_arr items
      ((fix go (l : list json) : Forall P l :=
          match l with
          | [] => Forall_nil_2 _
          | x :: l' => Forall_cons_2 _ _ _ (json_children_ind x) (go l')
          end) items)
  | JObject members => H_obj members
      ((fix go (l : list (string * json)) : Forall (λ kv, P kv.2) l :=
          match l with
          | [] => Forall_nil_2 _
          | kv :: l' => Forall_cons_2 _ _ _
              (match kv as kv' return P kv'.2 with (k, x) => json_children_ind x end) (go l')
          end) members)
  end.
End JsonInd.

Lemma rejectSensitive_array items :
  rejectSensitiveMetadata (JArray items) = all_ok rejectSensitiveMetadata items.
Proof. induction items as [|v items IH]; [done|]. simpl in *. by rewrite IH. Qed.

Lemma rejectSensitive_object members :
  rejectSensitiveMetadata (JObject members) =
  all_ok (λ kv, _ ← need (negb (forbidden kv.1)) "projection metadata field is not safe";
                rejectSensitiveMetadata kv.2) members.
Proof.
  induction members as [|[k v] members IH]; [done|]. simpl in *. rewrite IH.
  destruct (need _ _); [|done]. simpl. done.
Qed.

Lemma rejectSensitive_spec v :
  rejectSensitiveMetadata v = Ok tt ↔ ∀ k, occurs k v → forbidden k = false.
Proof.
  induction v as [|b|n|s|items IH|members IH] using json_children_ind;
    try (split; [intros _ k Hk; by inversion Hk|done]).
  - rewrite rejectSensitive_array, all_ok_Forall. rewrite Forall_forall in *. split.
    + intros Hall k Hk. inversion Hk as [| |? v Hv Ho]; subst. by apply (IH v Hv); [apply Hall|].
    + intros Hk v Hv. apply IH; [done|]. intros k Ho. apply Hk. by econstructor.
  - rewrite rejectSensitive_object, all_ok_Forall. rewrite Forall_forall in *. split.
    + intros Hall k Hk. inversion Hk as [? v Hv|? k' v Hv Ho|]; subst.
      * apply Hall, result_bind_ok in Hv as ([] & Hn%need_ok & _). by apply negb_true_iff in Hn.
      * pose proof (Hall _ Hv) as Hr. apply result_bind_ok in Hr as ([] & _ & Hr). by apply (IH _ Hv).
    + intros Hk [k v] Hv. apply result_bind_ok. exists tt. split.
      * apply need_ok, negb_true_iff, Hk. by econstructor.
      * apply (IH _ Hv). intros k' Ho. apply Hk. by eapply occurs_member.
Qed.

(** The policy on one projection. *)
Definition metadata_safe (raw : RawMessage) : Prop :=
  0 < raw_len raw ≤ maxMetadataBytes ∧
  ∃ members, raw_value raw = Some (JObject members) ∧
    ∀ k, occurs k (JObject members) → forbidden k = false.

Lemma validateMetadata_ok raw : 0 ≤ raw_len raw →
  validateMetadata raw = Ok tt ↔ metadata_safe raw.
Proof.
  intros Hlen. unfold validateMetadata, metadata_safe. split.
  - intros Hv. apply result_bind_ok in Hv as ([] & Hn%need_ok & Hv).
    apply result_bind_ok in Hv as ([] & Hm%need_ok & Hv).
    apply negb_true_iff, Z.eqb_neq in Hn. apply Z.leb_le in Hm. split; [lia|].
    destruct (raw_value raw) as [[]|]; try done. eexists. split; [done|]. by apply rejectSensitive_spec.
  - intros ([Hp Hm] & members & Hval & Hk). rewrite Hval.
    rewrite (proj2 (Z.eqb_neq _ 0)), (proj2 (Z.leb_le _ _) Hm) by lia.
    by apply (rejectSensitive_spec (JObject members)).
Qed.

Section Policy.
Context `{UrlLib}.

Lemma projection_metadata p :
  RemoteSessionProjection_Validate p = Ok tt → validateMetadata (rs_Metadata p) = Ok tt.
Proof. unfold RemoteSessionProjection_Validate. intros Hv. by inv_ok. Qed.

Lemma view_session_metadata d l p : view_session d l = Ok p → validateMetadata (rs_Metadata p) = Ok tt.
Proof.
  unfold view_session, read_session. intros Hv. inv_ok.
  all: match goal with |- context [effectiveSessionProjection ?q ?o] =>
    destruct (effective_session_identity q o) as (_ & -> & _) end; by apply projection_metadata.
Qed.

Lemma with_peers_elem {A} (device : A → string) eff cache l s out s' y :
  with_peers device eff cache l s = (Ok out, s') → y ∈ out →
  ∃ x peer, x ∈ l ∧ y = eff x peer.
Proof.
  revert cache s out s'. induction l as [|x l IH]; intros cache s out s' Hr Hy; simpl in Hr.
  { injection Hr as <- <-. by apply elem_of_nil in Hy. }
  apply bind_run_ok in Hr as (peer & s1 & _ & Hr).
  apply bind_run_ok in Hr as (rest & s2 & Hrest & [= <- <-]).
  apply elem_of_cons in Hy as [->|Hy]; [exists x, peer; split; [left|done]|].
  destruct (IH _ _ _ _ Hrest Hy) as (x' & p' & ? & ?). exists x', p'. split; [by right|done].
Qed.

(** Whatever is on disk, a session handed out by the single read or by the
    listing carries metadata that is one JSON object within the size limit
    and in which no key, at any depth and in any letter case, is one of the
    forbidden (secret-bearing or terminal-content) names. *)
Theorem no_forbidden_metadata s p :
  0 ≤ raw_len (rs_Metadata p) →
  (∃ l s', GetRemoteSession l s = (Ok p, s')) ∨
  (∃ device scope out s', ListRemoteSessions device scope s = (Ok out, s') ∧ p ∈ out) →
  metadata_safe (rs_Metadata p).
Proof.
  intros Hlen Hp. apply validateMetadata_ok; [done|].
  destruct Hp as [(l & s' & Hg)|(dev & scope & out & s' & Hl & Hin)].
  - unfold GetRemoteSession in Hg. apply bind_run_ok in Hg as ([] & ? & [= _ <-] & Hg).
    rewrite getRemoteSessionLocked_run in Hg. injection Hg as Hg _. by eapply view_session_metadata.
  - unfold ListRemoteSessions in Hl. do 2 apply bind_run_ok in Hl as ([] & ? & [= _ <-] & Hl).
    apply bind_run_ok in Hl as (ls & s2 & Hls & Hl).
    destruct (with_peers_elem _ _ _ _ _ _ _ _ Hl Hin) as (q & peer & Hq & ->).
    destruct (effective_session_identity q peer) as (_ & -> & _).
    rewrite listRemoteSessionsLocked_run in Hls. injection Hls as Hls _.
    unfold list_sessions in Hls. apply result_bind_ok in Hls as (l0 & Hr & [= <-]).
    apply elem_of_sort_by_key in Hq. apply read_all_ok in Hr as [Hacc Hin0].
    apply Hin0 in Hq as (k & f & Hf & Hdec & _).
    destruct (Hacc k f Hf) as (q' & Hdec' & Ha). rewrite Hdec in Hdec'. injection Hdec' as <-.
    apply projection_metadata. by apply accept_session_ok in Ha as [? _].
Qed.
End Policy.

(** * Frames

    Frame reasoning for mesh-state handlers: which directories an operation
    can change. [keeps proj] holds of a handler that leaves [proj] of the
    disk as it was, whether it succeeds or fails. *)

Definition same {T} (proj : Disk → T) (s s' : Store) : Prop :=
  proj (st_disk s') = proj (st_disk s).
#[export] Instance same_preorder {T} (proj : Disk → T) : PreOrder (same proj).
Proof. split; [done|]. intros ??? Ha Hb. unfold same in *. congruence. Qed.

Abbreviation keeps proj m := (respects (same proj) m).

Section Keeps.
Context {T : Type} (proj : Disk → T).

Lemma keeps_silent m : silent m → keeps proj m.
Proof. intros Hm s. destruct (Hm s) as (s' & -> & Hd & _). unfold same. simpl. by rewrite Hd. Qed.

Lemma keeps_writes upd ok m : (∀ d, proj (upd d) = proj d) → writes_as upd ok m → keeps proj m.
Proof.
  intros Hp Hw s. specialize (Hw s). unfold same. destruct (m s) as [[]]; simpl.
  - destruct Hw as [_ ->]. apply Hp.
  - by rewrite Hw.
Qed.

Lemma keeps_pure {A} (r : Store → result MeshError A) m : (∀ s, m s = (r s, s)) → keeps proj m.
Proof. intros Hm s. by rewrite Hm. Qed.

Lemma keeps_now : keeps proj now.
Proof. by intros s. Qed.
Lemma keeps_publish kind entity key : keeps proj (publishLocked kind entity key).
Proof. apply keeps_silent, publish_silent. Qed.
Lemma keeps_getPeerOpt dev : keeps proj (getPeerOpt dev).
Proof. eapply keeps_pure. intros. apply getPeerOpt_run. Qed.
Lemma keeps_getPeerOrNew dev : keeps proj (getPeerOrNew dev).
Proof. eapply keeps_pure. intros. apply getPeerOrNew_run. Qed.
Lemma keeps_readJSONFile {K A} `{Collection K A} (k : K) : keeps proj (readJSONFile (A:=A) k).
Proof. by intros s. Qed.
Lemma keeps_list_files {K A} `{Collection K A} (accept : K → A → check) keep :
  keeps proj (list_files (A:=A) accept keep).
Proof. by intros s. Qed.
Lemma keeps_listRemoteSessions dev scope : keeps proj (listRemoteSessionsLocked dev scope).
Proof. eapply keeps_pure. intros. apply listRemoteSessionsLocked_run. Qed.
Lemma keeps_list_artifacts `{UrlLib} {K} `{Collection K ArtifactEnvelope} (accept : K → ArtifactEnvelope → check) keep :
  keeps proj (list_artifact_files accept keep).
Proof.
  unfold list_artifact_files. apply respects_bind; [apply _|apply keeps_list_files|].
  intros. apply respects_ret. apply _.
Qed.
End Keeps.

#[export] Hint Resolve keeps_now keeps_publish keeps_getPeerOpt keeps_getPeerOrNew
  keeps_readJSONFile keeps_list_files keeps_listRemoteSessions keeps_list_artifacts : go.

(** An invariant carried through the steps before the last one. *)
Lemma hoare_keeps_bind {T A B} (proj : Disk → T) v (m : H A) (f : A → H B) Q :
  keeps proj m →
  (∀ a, hoare (λ s, proj (st_disk s) = v) (f a) Q (λ _ s, proj (st_disk s) = v)) →
  hoare (λ s, proj (st_disk s) = v) (m ≫= f) Q (λ _ s, proj (st_disk s) = v).
Proof.
  intros Hm Hf. apply hoare_bind with (λ _ s, proj (st_disk s) = v); [|done].
  intros s Hs. specialize (Hm s). unfold same in Hm. rewrite Hs in Hm. by destruct (m s) as [[]].
Qed.

Section Frames.
Context `{UrlLib}.

Lemma keeps_session_write {T} (proj : Disk → T) change p :
  (∀ q d, proj (put_session q d) = proj d) → keeps proj (write_session_as change p).
Proof. intros Hp. eapply keeps_writes; [apply Hp|apply write_session_as_writes]. Qed.
Lemma keeps_artifact_write {T} (proj : Disk → T) change a :
  (∀ q d, proj (put_remote_artifact q d) = proj d) → keeps proj (write_artifact_as change a).
Proof. intros Hp. eapply keeps_writes; [apply Hp|apply write_artifact_as_writes]. Qed.
Lemma keeps_peer_write {T} (proj : Disk → T) p :
  (∀ q d, proj (put_peer q d) = proj d) → keeps proj (writePeerLocked p).
Proof. intros Hp. eapply keeps_writes; [apply Hp|apply writePeer_writes]. Qed.

Lemma keeps_write_present {T} (proj : Disk → T) ep rev at_ items :
  (∀ q d, proj (put_session q d) = proj d) → keeps proj (write_present ep rev at_ items).
Proof.
  intros Hp. apply respects_for_each; [apply _|]. intros. by apply keeps_session_write.
Qed.
Lemma keeps_write_gone {T} (proj : Disk → T) ep rev at_ present l :
  (∀ q d, proj (put_session q d) = proj d) → keeps proj (write_gone ep rev at_ present l).
Proof.
  intros Hp. apply respects_for_each; [apply _|]. intros.
  destruct (present _); [apply respects_ret, _|by apply keeps_session_write].
Qed.
Lemma keeps_demote_sessions {T} (proj : Disk → T) f at_ inScope l :
  (∀ q d, proj (put_session q d) = proj d) → keeps proj (demote_sessions f at_ inScope l).
Proof.
  intros Hp. apply respects_for_each; [apply _|]. intros.
  destruct (_ && _); [by apply keeps_session_write|apply respects_ret, _].
Qed.
Lemma keeps_demote_artifacts {T} (proj : Disk → T) f at_ l :
  (∀ q d, proj (put_remote_artifact q d) = proj d) → keeps proj (demote_artifacts f at_ l).
Proof.
  intros Hp. apply respects_for_each; [apply _|]. intros.
  destruct (demotes _ _); [by apply keeps_artifact_write|apply respects_ret, _].
Qed.
End Frames.

#[export] Hint Resolve keeps_session_write keeps_artifact_write keeps_peer_write
  keeps_write_present keeps_write_gone keeps_demote_sessions keeps_demote_artifacts : go.
