(* ===== verification/MeshInventoryFacts.v ===== *)
(** The session inventory as a transaction: what a committed inventory makes
    visible, that an interrupted one makes nothing visible, and that an old
    cursor cannot replace a newer one. *)

From S2P Require Import Prelude GoText MeshTypes MeshStore MeshFreshness MeshFiles MeshSync.
From S2P Require Import MeshInventory MeshBindings MeshStoreFacts MeshListFacts.
From stdpp Require Import base gmap strings list fin_maps sorting.
From Stdlib Require Import ZArith Lia Ascii.

Open Scope Z_scope.

Lemma nul_key_inj a b a' b' :
  ProfileScope_Validate a = Ok tt → ProfileScope_Validate a' = Ok tt →
  nul_key a b = nul_key a' b' → a = a' ∧ b = b'.
Proof.
  intros (? & ? & -> & _ & Ha)%scope_chars (? & ? & -> & _ & Ha')%scope_chars.
  apply join_sep_inj; (eapply all_chars_impl; [|eassumption]); ascii_cases.
Qed.

(** ** Pending inventories *)

(** What [Upsert] guarantees about the pending map. *)
Definition pending_wf (x : SessionInventorySnapshot) : Prop :=
  ∀ k item, si_pending x !! k = Some item →
    k = nul_key (loc_ProfileScope (pp_locator item)) (loc_SessionID (pp_locator item)) ∧
    locator_ok (pp_locator item) ∧ loc_DeviceID (pp_locator item) = si_deviceID x.

Definition upserts : relation SessionInventorySnapshot :=
  rtc (λ x y, ∃ l m, SessionInventory_Upsert x l m = Ok y).

Lemma Upsert_header x l m y :
  SessionInventory_Upsert x l m = Ok y →
  si_deviceID y = si_deviceID x ∧ si_epoch y = si_epoch x ∧ si_revision y = si_revision x ∧
  si_scopes y = si_scopes x ∧ si_closed y = si_closed x.
Proof. unfold SessionInventory_Upsert. intros Hu. by inv_ok. Qed.

Lemma Upsert_wf x l m y : pending_wf x → SessionInventory_Upsert x l m = Ok y → pending_wf y.
Proof.
  unfold SessionInventory_Upsert. intros Hwf Hu. inv_ok.
  match goal with E : need (_ && _) _ = Ok _ |- _ =>
    apply need_ok, andb_true_iff in E as [Edev%String.eqb_eq _] end.
  match goal with E : RemoteSessionLocator_Validate _ = Ok _ |- _ => apply locator_Validate_ok in E end.
  intros k item. simpl. rewrite lookup_insert. case_decide as Hk; [|by apply Hwf].
  intros [= <-]. by subst.
Qed.

Lemma upserts_wf x y : pending_wf x → upserts x y → pending_wf y ∧ si_deviceID y = si_deviceID x.
Proof.
  intros Hwf Hr. induction Hr as [|x y z (l & m & Hu) _ IH]; [done|].
  destruct (IH (Upsert_wf _ _ _ _ Hwf Hu)) as [? ->].
  by apply Upsert_header in Hu as (-> & _).
Qed.

(** ** The effect of a commit on the disk *)

Section Effect.
Context (ep : string) (rev : Z) (at_ : Time).

Definition put_fresh (items : list pendingProjection) (d : Disk) : Disk :=
  foldl (λ d i, put_session (fresh_projection ep rev at_ i) d) d items.
Definition put_gone (present : RemoteSessionProjection → bool)
    (l : list RemoteSessionProjection) (d : Disk) : Disk :=
  foldl (λ d p, (if present p then id else put_session (gone_projection ep rev at_ p)) d) d l.

Lemma put_fresh_sessions items d :
  d_sessions (put_fresh items d) =
  insert_all (λ i, skey (pp_locator i))
    (λ i, Regular 384 (Some (indented_projection (fresh_projection ep rev at_ i)))) items (d_sessions d).
Proof. unfold put_fresh. revert d. induction items as [|i items IH]; intros d; [done|]. apply IH. Qed.

Lemma put_gone_sessions present l d :
  d_sessions (put_gone present l d) =
  insert_all (λ p, skey (rs_Locator p))
    (λ p, Regular 384 (Some (indented_projection (gone_projection ep rev at_ p))))
    (filter (λ p, present p = false) l) (d_sessions d).
Proof.
  unfold put_gone. revert d. induction l as [|p l IH]; intros d; [done|]. simpl. rewrite IH.
  destruct (present p) eqn:Hp.
  - rewrite filter_cons_False by congruence. done.
  - rewrite filter_cons_True by done. done.
Qed.

Lemma put_fresh_keeps {T} (proj : Disk → T) items d :
  (∀ q d, proj (put_session q d) = proj d) → proj (put_fresh items d) = proj d.
Proof.
  intros Hp. unfold put_fresh. revert d. induction items as [|i items IH]; intros d; [done|].
  simpl. by rewrite IH, Hp.
Qed.
Lemma put_gone_keeps {T} (proj : Disk → T) present l d :
  (∀ q d, proj (put_session q d) = proj d) → proj (put_gone present l d) = proj d.
Proof.
  intros Hp. unfold put_gone. revert d. induction l as [|p l IH]; intros d; [done|].
  simpl. rewrite IH. destruct (present p); [done|apply Hp].
Qed.

Lemma write_present_ok items s s' :
  write_present ep rev at_ items s = (Ok tt, s') →
  Forall (λ i, session_writable (fresh_projection ep rev at_ i)) items ∧
  st_disk s' = put_fresh items (st_disk s).
Proof.
  intros Hr. apply (for_each_writes_ok _ _ _ _ _
    (λ i, put_session (fresh_projection ep rev at_ i))
    (λ i, session_writable (fresh_projection ep rev at_ i)) Hr).
  intros i. apply write_session_as_writes.
Qed.

Lemma write_gone_ok present l s s' :
  write_gone ep rev at_ present l s = (Ok tt, s') →
  Forall (λ p, present p = false → session_writable (gone_projection ep rev at_ p)) l ∧
  st_disk s' = put_gone present l (st_disk s).
Proof.
  intros Hr. apply (for_each_writes_ok _ _ _ _ _
    (λ p, if present p then id else put_session (gone_projection ep rev at_ p))
    (λ p, present p = false → session_writable (gone_projection ep rev at_ p)) Hr).
  intros p.
  destruct (present p).
  - by eapply writes_as_weaken; [|apply writes_as_skip].
  - by eapply writes_as_weaken; [|apply write_session_as_writes].
Qed.
End Effect.

Definition commit_present (items : list pendingProjection) (p : RemoteSessionProjection) : bool :=
  bool_decide (identityKey (rs_Locator p) ∈ pending_keys items).

Lemma commitSessionInventory_inv x s s' u :
  commitSessionInventory x s = (Ok u, s') →
  ∃ found existing at_,
    let items := sorted_values (si_pending x) in
    let peer' := commit_group_peer x at_ existing (peer_or_new (si_deviceID x) found) in
    optional (read_peer (st_disk s) (si_deviceID x)) = Ok found ∧
    list_sessions (st_disk s) (si_deviceID x) "" = Ok existing ∧
    Forall (λ i, session_writable (fresh_projection (si_epoch x) (si_revision x) at_ i)) items ∧
    Forall (λ p, commit_present items p = false →
                 session_writable (gone_projection (si_epoch x) (si_revision x) at_ p)) existing ∧
    peer_writable peer' ∧
    st_disk s' = put_peer peer'
      (put_gone (si_epoch x) (si_revision x) at_ (commit_present items) existing
        (put_fresh (si_epoch x) (si_revision x) at_ items (st_disk s))).
Proof.
  unfold commitSessionInventory. intros Hr.
  apply bind_run_ok in Hr as ([] & s1 & H1 & Hr).
  assert (st_disk s1 = st_disk s) as Hd1.
  { unfold validateSessionInventoryCursorLocked, mbind, M_bind in H1. rewrite getPeerOpt_run in H1.
    destruct (optional _) as [[p|]|]; unfold lift, mret, M_ret in H1; by simplify_eq. }
  apply bind_run_ok in Hr as (peer & s2 & H2 & Hr). rewrite getPeerOrNew_run, Hd1 in H2.
  destruct (optional _) as [found|] eqn:Hf; [|done].
  injection H2 as <- <-.
  apply bind_run_ok in Hr as (existing & s3 & H3 & Hr). rewrite listRemoteSessionsLocked_run in H3.
  injection H3 as H3 <-.
  apply bind_run_ok in Hr as (t & s4 & H4 & Hr). injection H4 as <- <-. simpl in Hr.
  apply bind_run_ok in Hr as ([] & s5 & [Hfr Hd5]%write_present_ok & Hr).
  apply bind_run_ok in Hr as ([] & s6 & [Hgo Hd6]%write_gone_ok & Hr).
  apply bind_run_ok in Hr as ([] & s7 & [Hpw Hd7]%writePeer_ok & Hr).
  apply bind_run_ok in Hr as ([] & s8 & Hd8%silent_ok & Hr); [|apply publish_silent].
  apply silent_ok in Hr; [|apply publish_silent].
  do 3 eexists. cbv zeta. split; [done|].
  rewrite Hd1 in H3. split; [exact H3|]. split; [exact Hfr|]. split; [exact Hgo|].
  split; [exact Hpw|]. rewrite Hr, Hd8, Hd7, Hd6, Hd5. simpl. by rewrite Hd1.
Qed.

(** ** What a reader sees after a commit *)

Section CommitView.
Context (x : SessionInventorySnapshot) (d : Disk) (existing : list RemoteSessionProjection)
  (at_ : Time).
Context (Hwf : pending_wf x) (Hdev : si_deviceID x ≠ "")
  (Hlist : list_sessions d (si_deviceID x) "" = Ok existing).

Let items := sorted_values (si_pending x).
Let d' := put_gone (si_epoch x) (si_revision x) at_ (commit_present items) existing
            (put_fresh (si_epoch x) (si_revision x) at_ items d).

Lemma items_NoDup : NoDup ((λ i, skey (pp_locator i)) <$> items).
Proof using Hwf.
  apply (sorted_values_NoDup _ _ (λ k : SessionKey, nul_key k.1.2 k.2)).
  intros k item Hk. by destruct (Hwf k item Hk) as [-> _].
Qed.

Lemma items_elem i : i ∈ items ↔
  si_pending x !! nul_key (loc_ProfileScope (pp_locator i)) (loc_SessionID (pp_locator i)) = Some i.
Proof using Hwf.
  unfold items, sorted_values. rewrite sorted_values_elem. split; [|by eexists].
  intros (k & Hk). by destruct (Hwf k i Hk) as [<- _].
Qed.

Lemma item_ok i : i ∈ items → locator_ok (pp_locator i) ∧ loc_DeviceID (pp_locator i) = si_deviceID x.
Proof using Hwf. rewrite items_elem. intros Hi. by destruct (Hwf _ _ Hi) as (_ & ? & ?). Qed.

Lemma present_skey p : locator_ok (rs_Locator p) →
  commit_present items p = true ↔ ∃ i, i ∈ items ∧ skey (pp_locator i) = skey (rs_Locator p).
Proof using Hwf.
  intros Hp. unfold commit_present, pending_keys.
  rewrite bool_decide_eq_true, list_elem_of_fmap. split.
  - intros (i & Heq & Hi). exists i. split; [done|]. symmetry.
    by apply identityKey_inj; [|apply item_ok|].
  - intros (i & Hi & Heq). exists i. split; [|done].
    apply identityKey_inj; [done|by apply item_ok|done].
Qed.

(** The session file of a pending record is the fresh record. *)
Lemma committed_file_fresh i : i ∈ items →
  d_sessions d' !! skey (pp_locator i) =
    Some (Regular 384 (Some (indented_projection (fresh_projection (si_epoch x) (si_revision x) at_ i)))).
Proof using Hwf Hlist Hdev.
  intros Hi. unfold d'. rewrite put_gone_sessions, insert_all_ne.
  - rewrite put_fresh_sessions.
    by rewrite (insert_all_in (λ i, skey (pp_locator i))) by (done || apply items_NoDup).
  - intros p [Hnp Hp]%list_elem_of_filter Heq.
    destruct (list_sessions_ok _ _ _ Hdev Hlist) as (_ & Hval & _).
    destruct (Hval p Hp) as [Hv _].
    assert (commit_present items p = true); [|congruence].
    apply present_skey; [by apply projection_locator_ok|]. by exists i.
Qed.

(** A previously stored session that is not pending becomes a tombstone. *)
Lemma committed_file_gone l f :
  locator_ok l → loc_DeviceID l = si_deviceID x →
  si_pending x !! nul_key (loc_ProfileScope l) (loc_SessionID l) = None →
  d_sessions d !! skey l = Some f →
  ∃ p, p ∈ existing ∧ commit_present items p = false ∧ skey (rs_Locator p) = skey l ∧
    locator_ok (rs_Locator p) ∧
    d_sessions d' !! skey l =
      Some (Regular 384 (Some (indented_projection (gone_projection (si_epoch x) (si_revision x) at_ p)))).
Proof using Hwf Hlist Hdev.
  intros Hl Hld Hnone Hf.
  destruct (list_sessions_ok _ _ _ Hdev Hlist) as (Hnd & Hval & Hfile & _).
  destruct (Hfile _ _ Hf) as (p & _ & Hsk & Hv & Hin). specialize (Hin Hld).
  assert (locator_ok (rs_Locator p)) as Hpl by by apply projection_locator_ok.
  assert (commit_present items p = false) as Hnp.
  { apply not_true_iff_false. rewrite present_skey by done. intros (i & Hi & Heq).
    apply items_elem in Hi. rewrite Hsk in Heq. unfold skey in Heq.
    injection Heq as _ E1 E2. by rewrite E1, E2, Hnone in Hi. }
  exists p. split_and!; [done..|]. unfold d'. rewrite put_gone_sessions, <- Hsk.
  rewrite (insert_all_in (λ p, skey (rs_Locator p))); [done| |].
  - eapply sublist_NoDup; [exact Hnd|]. apply fmap_sublist, sublist_filter.
  - by apply list_elem_of_filter.
Qed.

(** A session never stored nor pending stays absent. *)
Lemma committed_file_none l :
  locator_ok l →
  si_pending x !! nul_key (loc_ProfileScope l) (loc_SessionID l) = None →
  d_sessions d !! skey l = None → d_sessions d' !! skey l = None.
Proof using Hwf Hlist Hdev.
  intros Hl Hnone Hf. unfold d'. rewrite put_gone_sessions, insert_all_ne.
  - rewrite put_fresh_sessions, insert_all_ne; [done|].
    intros i Hi%items_elem Heq. injection Heq as _ E1 E2. by rewrite E1, E2, Hnone in Hi.
  - intros p [_ Hp]%list_elem_of_filter Heq.
    destruct (list_sessions_ok _ _ _ Hdev Hlist) as (_ & _ & _ & Hex).
    destruct (Hex p Hp) as [g Hg]. rewrite Heq in Hg. congruence.
Qed.
End CommitView.

(** The new peer record makes exactly this inventory's cursor current. *)
Lemma commit_group_peer_view x at_ existing peer :
  let peer' := commit_group_peer x at_ existing peer in
  ps_DeviceID peer' = si_deviceID x ∧
  ps_SessionInventory peer' = Some (mkCursor (si_epoch x) (si_revision x) at_) ∧
  sessionInventoryFreshness peer' = (FreshnessFresh, at_).
Proof. done. Qed.

Lemma committed_now x at_ existing peer p :
  rs_SourceEpoch p = si_epoch x → rs_SourceRevision p = si_revision x →
  session_committed p (commit_group_peer x at_ existing peer) = true.
Proof.
  intros He Hr. unfold session_committed. simpl. rewrite He, Hr, String.eqb_refl, Z.eqb_refl. done.
Qed.

(** The specification of a committed session inventory: for every session of
    the device, the pending record fresh, an omitted known record gone, and
    nothing else. *)
Definition inventory_spec (x : SessionInventorySnapshot) (d : Disk) (l : RemoteSessionLocator)
    (r : result MeshError RemoteSessionProjection) : Prop :=
  match si_pending x !! nul_key (loc_ProfileScope l) (loc_SessionID l) with
  | Some item => ∃ p, r = Ok p ∧ rs_Freshness p = FreshnessFresh ∧
      rs_Metadata p = indented (pp_metadata item) ∧
      rs_SourceEpoch p = si_epoch x ∧ rs_SourceRevision p = si_revision x
  | None =>
      match d_sessions d !! skey l with
      | Some _ => ∃ p, r = Ok p ∧ rs_Freshness p = FreshnessGone
      | None => r = Err ErrNotFound
      end
  end.

(** Reading a session file that was written under the locator's key. *)
Lemma view_written d l p dev_peer :
  locator_ok l → locator_ok (rs_Locator p) → skey (rs_Locator p) = skey l →
  RemoteSessionProjection_Validate p = Ok tt →
  d_sessions d !! skey l = Some (Regular 384 (Some p)) →
  read_peer d (loc_DeviceID l) = Ok dev_peer →
  view_session d l = Ok (effectiveSessionProjection p (Some dev_peer)).
Proof.
  intros Hl Hpl Hsk Hv Hf Hpeer. unfold view_session, read_session.
  rewrite remoteSessionPath_valid by done. simpl. rewrite Hf, decode_written. simpl. rewrite Hv. simpl.
  rewrite (proj2 (EqualIdentity_skey _ _ Hpl Hl) Hsk). simpl. by rewrite Hpeer.
Qed.

Lemma commit_device_nonempty x : validateID "device_id" (si_deviceID x) = Ok tt → si_deviceID x ≠ "".
Proof. intros (c & s' & -> & _)%validateID_chars. done. Qed.

Lemma committed_inventory_view x s y s' l :
  pending_wf x → SessionInventory_Commit x s = (Ok y, s') → sessions_valid (st_disk s') →
  locator_ok l → loc_DeviceID l = si_deviceID x →
  inventory_spec x (st_disk s) l (view_session (st_disk s') l).
Proof.
  intros Hwf Hc Hvalid Hl Hld.
  assert (si_deviceID x ≠ "") as Hdev.
  { apply commit_device_nonempty. rewrite <- Hld. apply lok_device, Hl. }
  unfold SessionInventory_Commit in Hc. apply bind_run_ok in Hc as ([] & s1 & Hcl & Hc).
  unfold lift in Hcl. injection Hcl as _ <-. apply bind_run_ok in Hc as ([] & s2 & Hc & [= _ <-]).
  apply commitSessionInventory_inv in Hc as (found & existing & at_ & Hf & Hex & Hfr & Hgo & Hpw & Hd).
  set (peer := commit_group_peer _ _ _ _) in *.
  set (d' := put_gone _ _ _ _ _ _) in *.
  assert (read_peer (st_disk s2) (loc_DeviceID l) = Ok peer) as Hpeer.
  { rewrite Hd, Hld. by apply read_peer_put. }
  assert (d_sessions (st_disk s2) = d_sessions d') as Hds by by rewrite Hd.
  unfold inventory_spec.
  destruct (si_pending x !! _) as [item|] eqn:Hpend.
  - destruct (Hwf _ _ Hpend) as (Hk & Hil & Hid).
    apply nul_key_inj in Hk as [Hks Hki]; [|by apply lok_scope..].
    assert (skey (pp_locator item) = skey l) as Hsk by (unfold skey; congruence).
    assert (item ∈ sorted_values (si_pending x)) as Hin.
    { apply items_elem; [done|]. by rewrite <- Hks, <- Hki. }
    assert (d_sessions (st_disk s2) !! skey l = Some (Regular 384
      (Some (indented_projection (fresh_projection (si_epoch x) (si_revision x) at_ item))))) as Hf'.
    { rewrite Hds, <- Hsk. by apply committed_file_fresh. }
    rewrite (view_written _ _ (indented_projection (fresh_projection (si_epoch x) (si_revision x) at_ item)) peer);
      try done; [|by apply (Hvalid _ _ Hf')].
    eexists. split; [done|]. rewrite effective_session_freshness. cbv zeta.
    unfold peer. rewrite committed_now by done.
    by destruct (effective_session_identity
      (indented_projection (fresh_projection (si_epoch x) (si_revision x) at_ item))
      (Some (commit_group_peer x at_ existing (peer_or_new (si_deviceID x) found)))) as (_ & -> & -> & ->).
  - destruct (d_sessions (st_disk s) !! skey l) as [f|] eqn:Hfile.
    + destruct (committed_file_gone x _ _ at_ Hwf Hdev Hex l f) as (p & Hpe & Hnp & Hsk & Hpl & Hp'); try done.
      assert (d_sessions (st_disk s2) !! skey l = Some (Regular 384
        (Some (indented_projection (gone_projection (si_epoch x) (si_revision x) at_ p))))) as Hf'
        by (rewrite Hds; exact Hp').
      rewrite (view_written _ _ (indented_projection (gone_projection (si_epoch x) (si_revision x) at_ p)) peer);
        try done; [|by apply (Hvalid _ _ Hf')].
      eexists. split; [done|]. rewrite effective_session_freshness. cbv zeta.
      unfold peer. by rewrite committed_now by done.
    + assert (d_sessions d' !! skey l = None) as Hnone by by apply (committed_file_none x).
      unfold view_session, read_session. rewrite remoteSessionPath_valid by done. simpl.
      by rewrite Hds, Hnone.
Qed.

(** A committed device-wide session inventory is exactly what consumers
    read: every declared session of the device is returned fresh with the
    metadata (the same value, in the store's indented text) and cursor of this
    inventory, every previously stored session that was omitted is returned
    gone, and any other locator is not found; provided the indented metadata is
    still within its limit, so that the files can be read. *)
Theorem SessionInventory_Commit_spec x s y s' l :
  pending_wf x → SessionInventory_Commit x s = (Ok y, s') → sessions_valid (st_disk s') →
  RemoteSessionLocator_Validate l = Ok tt → loc_DeviceID l = si_deviceID x →
  inventory_spec x (st_disk s) l (GetRemoteSession l s').1.
Proof.
  intros Hwf Hc Hvalid Hlv Hld. rewrite GetRemoteSession_run by done. cbn [fst].
  by apply (committed_inventory_view x s y); [..|apply locator_Validate_ok|].
Qed.

(** ** Interrupted commits *)

(** A peer whose session inventory is syncing hides every session. *)
Lemma syncing_hides d dev peer l p :
  read_peer d dev = Ok peer → ps_SessionFreshness peer = FreshnessSyncing →
  loc_DeviceID l = dev → view_session d l = Ok p → rs_Freshness p ≠ FreshnessFresh.
Proof.
  intros Hpeer Hsync Hl Hv Hf. unfold view_session in Hv. rewrite Hl, Hpeer in Hv. simpl in Hv.
  apply result_bind_ok in Hv as (q & _ & [= <-]).
  apply effective_session_fresh_inv in Hf as (ps & [= <-] & _ & _ & Hns & _).
  unfold sessionInventoryFreshness in Hns. by rewrite Hsync in Hns.
Qed.

(** The first write of a handler tail whose remaining steps are silent. *)
Lemma hoare_write_peer_last v p m :
  silent m →
  hoare (λ s, d_peers (st_disk s) = v) (writePeerLocked p ≫= λ _, m) (λ _ _, True)
        (λ _ s, d_peers (st_disk s) = v).
Proof.
  intros Hm s Hs. pose proof (writePeer_writes p s) as Hw. unfold mbind, M_bind.
  destruct (writePeerLocked p s) as [[[]|e] s1]; [|by rewrite Hw].
  destruct (Hm s1) as (s2 & -> & _). done.
Qed.

Lemma markPeerInventoriesSyncing_peer `{UrlLib} dev ep only sess art s s' u :
  markPeerInventoriesSyncingLocked dev ep only sess art s = (Ok u, s') →
  validateID "device_id" dev = Ok tt →
  ∃ at_ found, let peer := syncing_peer ep at_ sess art (peer_or_new dev found) in
    read_peer (st_disk s') dev = Ok peer.
Proof.
  intros Hr Hdev. unfold markPeerInventoriesSyncingLocked in Hr.
  apply bind_run_ok in Hr as (t & s1 & _ & Hr).
  apply bind_run_ok in Hr as ([] & s2 & _ & Hr).
  apply bind_run_ok in Hr as ([] & s3 & _ & Hr).
  apply bind_run_ok in Hr as (peer & s4 & Hp & Hr). rewrite getPeerOrNew_run in Hp.
  apply bind_run_ok in Hr as ([] & s5 & [Hw Hd]%writePeer_ok & Hr).
  apply silent_ok in Hr; [|apply publish_silent].
  destruct (optional _) as [found|] eqn:Hf; [|done]. injection Hp as <- <-.
  exists (UTC t), found. cbv zeta. rewrite Hr, Hd.
  assert (ps_DeviceID (syncing_peer ep (UTC t) sess art (peer_or_new dev found)) =
          ps_DeviceID (peer_or_new dev found)) as Hid.
  { unfold syncing_peer. rewrite <- (initializeLegacy_device (peer_or_new dev found)).
    by destruct sess, art. }
  pose proof (read_peer_put _ (st_disk s3) Hw) as Hread. rewrite Hid in Hread.
  by rewrite (peer_or_new_device _ _ _ Hf) in Hread.
Qed.

Lemma BeginSessionInventory_ok `{UrlLib} dev scopes ep rev s x s' :
  BeginSessionInventory dev scopes ep rev s = (Ok x, s') →
  (∃ peer, read_peer (st_disk s') dev = Ok peer ∧ ps_SessionFreshness peer = FreshnessSyncing) ∧
  si_deviceID x = dev ∧ si_epoch x = ep ∧ si_revision x = rev ∧ si_pending x = ∅ ∧ pending_wf x.
Proof.
  unfold BeginSessionInventory. intros Hr.
  apply bind_run_ok in Hr as ([] & s1 & [= Hdev <-] & Hr).
  do 3 apply bind_run_ok in Hr as ([] & ? & [= _ <-] & Hr).
  apply bind_run_ok in Hr as (scopeSet & ? & [= _ <-] & Hr).
  apply bind_run_ok in Hr as ([] & s2 & _ & Hr).
  apply bind_run_ok in Hr as ([] & s3 & Hm & Hr). injection Hr as <- <-.
  split; [|by split_and!].
  unfold markSessionInventorySyncingLocked in Hm.
  destruct (markPeerInventoriesSyncing_peer _ _ _ _ _ _ _ _ Hm Hdev) as (at_ & found & Hp).
  eexists. split; [exact Hp|]. done.
Qed.

Lemma commitSessionInventory_err x v :
  hoare (λ s, d_peers (st_disk s) = v) (commitSessionInventory x) (λ _ _, True)
        (λ _ s, d_peers (st_disk s) = v).
Proof.
  unfold commitSessionInventory, validateSessionInventoryCursorLocked.
  apply hoare_keeps_bind; [respects|intros _].
  do 2 (apply hoare_keeps_bind; [respects|intros ?]).
  apply hoare_keeps_bind; [respects|intros t].
  do 2 (apply hoare_keeps_bind; [by eauto with go|intros _]).
  apply hoare_write_peer_last.
  apply silent_bind; [|intros; apply publish_silent].
  intros s. destruct (publish_silent ChangeSnapshot EntityInventory (si_deviceID x +:+ "/sessions") s)
    as (s' & ? & ?). by exists tt, s'.
Qed.

(** C5: An inventory exchange that was begun and whose commit fails at any write
    (or never gets to commit) is fail-closed: until some later exchange commits,
    no session of that device is shown fresh, whatever prefix of the commit's
    files reached the disk. *)
Theorem SessionInventory_interrupted_fails_closed `{UrlLib} dev scopes ep rev s x0 s1 x s2 e s3 l p :
  BeginSessionInventory dev scopes ep rev s = (Ok x0, s1) →
  upserts x0 x → d_peers (st_disk s2) = d_peers (st_disk s1) →
  SessionInventory_Commit x s2 = (Err e, s3) →
  loc_DeviceID l = dev → (GetRemoteSession l s3).1 = Ok p →
  rs_Freshness p ≠ FreshnessFresh.
Proof.
  intros Hb Hu Hpeers Hc Hl Hg.
  apply BeginSessionInventory_ok in Hb as ((peer & Hpeer & Hsync) & Hd & _).
  assert (d_peers (st_disk s3) = d_peers (st_disk s1)) as Hp3.
  { rewrite <- Hpeers. unfold SessionInventory_Commit in Hc.
    apply bind_run_err in Hc as [[= _ <-]|([] & ? & [= _ <-] & Hc)]; [done|].
    apply bind_run_err in Hc as [Hc|([] & ? & _ & [=])].
    pose proof (commitSessionInventory_err x _ s2 eq_refl) as He. by rewrite Hc in He. }
  destruct (RemoteSessionLocator_Validate l) as [[]|e'] eqn:Hlv.
  - rewrite GetRemoteSession_run in Hg by done.
    apply (syncing_hides (st_disk s3) dev peer l p); [|done..].
    by rewrite (read_peer_ne (st_disk s1)) by by rewrite Hp3.
  - unfold GetRemoteSession in Hg. by rewrite Hlv in Hg.
Qed.

(** ** Stale cursors *)

Lemma SessionInventory_Commit_peer x s y s' :
  SessionInventory_Commit x s = (Ok y, s') →
  si_closed y = true ∧ validateID "device_id" (si_deviceID x) = Ok tt ∧
  validateID "source_epoch" (si_epoch x) = Ok tt ∧
  ∃ peer at_, read_peer (st_disk s') (si_deviceID x) = Ok peer ∧
    ps_SessionInventory peer = Some (mkCursor (si_epoch x) (si_revision x) at_).
Proof.
  unfold SessionInventory_Commit. intros Hc.
  apply bind_run_ok in Hc as ([] & s1 & [= _ <-] & Hc).
  apply bind_run_ok in Hc as ([] & s2 & Hc & [= <- <-]).
  apply commitSessionInventory_inv in Hc as (found & existing & at_ & Hf & Hex & Hfr & Hgo & Hpw & Hd).
  split; [done|]. cbv zeta in *.
  assert (read_peer (st_disk s2) (si_deviceID x) =
    Ok (commit_group_peer x at_ existing (peer_or_new (si_deviceID x) found))) as Hrd.
  { rewrite Hd. apply (read_peer_put (commit_group_peer x at_ existing _)), Hpw. }
  destruct Hpw as [Hv _].
  assert (validateID "device_id" (si_deviceID x) = Ok tt ∧
    InventoryCursor_Validate "session inventory" (mkCursor (si_epoch x) (si_revision x) at_) = Ok tt)
    as [Hdev Hcur].
  { unfold PeerState_Validate in Hv. simpl in Hv. by inv_ok. }
  split_and!; [done| |by do 2 eexists].
  unfold InventoryCursor_Validate in Hcur. inv_ok. by eapply validateID_field.
Qed.

(** The cursor check as a function of the stored peer. *)
Lemma validateSessionInventoryCursor_stale dev ep rev s peer cursor :
  read_peer (st_disk s) dev = Ok peer → ps_SessionInventory peer = Some cursor →
  stale_against ep rev cursor = true →
  validateSessionInventoryCursorLocked dev ep rev s = (Err ErrStaleSnapshot, s).
Proof.
  intros Hr Hc Hst. unfold validateSessionInventoryCursorLocked, mbind, M_bind.
  rewrite getPeerOpt_run, Hr. simpl. by rewrite Hc, Hst.
Qed.

(** A committed session inventory fixes a floor: while it is the device's
    latest, an inventory of the same source epoch that is not newer can neither
    be begun nor committed (the committed handle itself included); each attempt
    is refused with the stale-snapshot error, or the closed error for the spent
    handle, and the store is exactly as before. *)
Theorem SessionInventory_cursor_monotone `{UrlLib} x s y s1 s2 :
  SessionInventory_Commit x s = (Ok y, s1) →
  d_peers (st_disk s2) !! si_deviceID x = d_peers (st_disk s1) !! si_deviceID x →
  SessionInventory_Commit y s2 = (Err ErrSnapshotClosed, s2) ∧
  (∀ x', si_deviceID x' = si_deviceID x → si_epoch x' = si_epoch x →
     si_revision x' ≤ si_revision x → si_closed x' = false →
     SessionInventory_Commit x' s2 = (Err ErrStaleSnapshot, s2)) ∧
  (∀ scopes scopeSet rev, scopes ≠ [] → collect_scopes scopes ∅ = Ok scopeSet →
     rev ≠ 0 → rev ≤ si_revision x →
     BeginSessionInventory (si_deviceID x) scopes (si_epoch x) rev s2 = (Err ErrStaleSnapshot, s2)).
Proof.
  intros Hc Hp. apply SessionInventory_Commit_peer in Hc as (Hcl & Hdev & Hep & peer & at_ & Hrd & Hcur).
  rewrite <- (read_peer_ne _ _ _ Hp) in Hrd.
  assert (∀ rev, rev ≤ si_revision x →
    validateSessionInventoryCursorLocked (si_deviceID x) (si_epoch x) rev s2 = (Err ErrStaleSnapshot, s2)) as Hst.
  { intros rev Hle. eapply validateSessionInventoryCursor_stale; [done..|].
    unfold stale_against. simpl. rewrite String.eqb_refl. by apply Z.leb_le. }
  split_and!.
  - unfold SessionInventory_Commit, mbind, M_bind, lift. by rewrite Hcl.
  - intros x' Hd He Hr Ho. unfold SessionInventory_Commit, commitSessionInventory, mbind, M_bind, lift.
    rewrite Ho, Hd, He. simpl. by rewrite Hst.
  - intros scopes scopeSet rev Hne Hcs Hr0 Hr.
    unfold BeginSessionInventory, mbind, M_bind, lift. rewrite Hdev, Hep.
    rewrite (proj2 (Z.eqb_neq _ _) Hr0). simpl. rewrite bool_decide_false by done. simpl.
    rewrite Hcs, Hst by done. done.
Qed.
