(* ===== verification/MeshInvariant.v ===== *)
(** The store as a transition system: every public operation is a step, with
    arbitrary write failures, and every file any history leaves behind is a
    valid, owner-only regular file stored under the name its contents dictate,
    provided that session metadata stays within its limit when it is indented
    (metadata is measured as it arrives, and read back as it was written). The
    listings, which refuse the whole directory over one bad file, therefore
    never fail on such a store. *)

From S2P Require Import Prelude GoText MeshTypes MeshStore MeshFreshness MeshFiles MeshSync.
From S2P Require Import MeshInventory MeshBindings MeshStoreFacts MeshListFacts.
From stdpp Require Import base gmap strings list fin_maps sorting relations.
From Stdlib Require Import ZArith Lia.

Open Scope Z_scope.

Section Invariant.
Context `{UrlLib}.

(** ** Operations and steps *)

(** The operations of [Store] and of its snapshot handles that can write. *)
Inductive mesh_op :=
| OpSetDesiredTopics (device : string) (topics : list string)
| OpMarkPeerSyncing (device epoch : string)
| OpMarkSessionSyncing (device epoch : string)
| OpMarkArtifactSyncing (device epoch : string)
| OpMarkPeerDisconnected (device : string)
| OpBeginSnapshot (device scope epoch : string) (revision : Z)
| OpCommitSnapshot (x : Snapshot)
| OpBeginSessionInventory (device : string) (scopes : list string) (epoch : string) (revision : Z)
| OpCommitSessionInventory (x : SessionInventorySnapshot)
| OpBeginArtifactInventory (device epoch : string) (revision : Z)
| OpCommitArtifactInventory (x : ArtifactInventorySnapshot)
| OpPutArtifact (a : ArtifactEnvelope)
| OpPutSurfaceBinding (b : SurfaceBinding) (replace : bool)
| OpValidateAndPutSurfaceBinding (b : SurfaceBinding) (replace : bool)
| OpDeleteSurfaceBinding (surface : string).

Definition run_op (o : mesh_op) : H unit :=
  match o with
  | OpSetDesiredTopics d topics => SetDesiredTopics d topics
  | OpMarkPeerSyncing d ep => MarkPeerSyncing d ep
  | OpMarkSessionSyncing d ep => MarkSessionSyncing d ep
  | OpMarkArtifactSyncing d ep => MarkArtifactSyncing d ep
  | OpMarkPeerDisconnected d => MarkPeerDisconnected d
  | OpBeginSnapshot d sc ep rev => _ ← BeginSnapshot d sc ep rev; mret tt
  | OpCommitSnapshot x => _ ← Snapshot_Commit x; mret tt
  | OpBeginSessionInventory d scs ep rev => _ ← BeginSessionInventory d scs ep rev; mret tt
  | OpCommitSessionInventory x => _ ← SessionInventory_Commit x; mret tt
  | OpBeginArtifactInventory d ep rev => _ ← BeginArtifactInventory d ep rev; mret tt
  | OpCommitArtifactInventory x => _ ← ArtifactInventory_Commit x; mret tt
  | OpPutArtifact a => PutArtifact a
  | OpPutSurfaceBinding b r => PutSurfaceBinding b r
  | OpValidateAndPutSurfaceBinding b r => _ ← ValidateAndPutSurfaceBinding b r; mret tt
  | OpDeleteSurfaceBinding id => DeleteSurfaceBinding id
  end.

(** The metadata an operation may write still passes its check when it is read
    back. *)
Definition metadata_fits (raw : RawMessage) : Prop := validateMetadata (indented raw) = Ok tt.
Definition pending_fit (m : gmap string pendingProjection) : Prop :=
  map_Forall (λ _ item, metadata_fits (pp_metadata item)) m.
Definition op_fits (o : mesh_op) : Prop :=
  match o with
  | OpCommitSnapshot x => pending_fit (sn_pending x)
  | OpCommitSessionInventory x => pending_fit (si_pending x)
  | _ => True
  end.

(** One step: an operation to its end (successful or not), or a change to the
    subscriptions. *)
Inductive mesh_step : relation Store :=
| step_op o s r s' : op_fits o → run_op o s = (r, s') → mesh_step s s'
| step_watch buffer race s id s' : Watch buffer race s = (id, s') → mesh_step s s'
| step_cancel id s : mesh_step s (CancelWatch id s)
| step_recv id s c s' : RecvWatch id s = Some (c, s') → mesh_step s s'.

(** A new store: no files, no watchers, any clock, any future write failures. *)
Definition empty_disk : Disk := mkDisk ∅ ∅ ∅ ∅ ∅.
Definition new_store (clock : nat → Time) (io : list bool) : Store :=
  mkStore empty_disk ∅ 0 0 clock 0 io.

(** ** The invariant *)

Definition accept_binding (k : string) (b : SurfaceBinding) : check :=
  _ ← SurfaceBinding_Validate b; path_is (surfaceBindingPath (sb_SurfaceID b)) k.
Definition accept_peer (k : string) (p : PeerState) : check :=
  _ ← PeerState_Validate p; path_is (peerPath (ps_DeviceID p)) k.
Definition accept_local (k : ArtifactKey) (a : ArtifactEnvelope) : check :=
  _ ← ArtifactEnvelope_Validate (normalize_legacy a);
  _ ← need (String.eqb (art_OriginDeviceID (normalize_legacy a)) "") "local artifact has remote origin";
  path_is (artifactPath (art_Kind (normalize_legacy a)) (art_ID (normalize_legacy a))) k.
Definition accept_remote (k : SessionKey) (a : ArtifactEnvelope) : check :=
  _ ← ArtifactEnvelope_Validate (normalize_legacy a); accept_remote_artifact k (normalize_legacy a).

(** Each file is private, decodes, is accepted under its name, and holds the
    text the store writes for its value. *)
Definition files_ok {K A} `{Collection K A} (accept : K → A → check) (m : gmap K (File A)) : Prop :=
  map_Forall (λ k f, ∃ a, f = Regular 384 (Some a) ∧ accept k a = Ok tt ∧ written (K:=K) a = a) m.

Record disk_ok (d : Disk) : Prop := {
  ok_sessions : files_ok accept_session (d_sessions d);
  ok_bindings : files_ok accept_binding (d_bindings d);
  ok_artifacts : files_ok accept_local (d_artifacts d);
  ok_remote : files_ok accept_remote (d_remote_artifacts d);
  ok_peers : files_ok accept_peer (d_peers d);
}.

Definition preserves_ok (s s' : Store) : Prop := disk_ok (st_disk s) → disk_ok (st_disk s').
#[export] Instance preserves_ok_preorder : PreOrder preserves_ok.
Proof. unfold preserves_ok. split; [by intros s ?|]. intros x y z Hxy Hyz Hx. auto. Qed.

Lemma files_ok_insert {K A} `{Collection K A} (accept : K → A → check) m k a :
  files_ok accept m → accept k (written (K:=K) a) = Ok tt →
  files_ok accept (<[k := Regular 384 (Some (written (K:=K) a))]> m).
Proof.
  intros Hm Ha. apply map_Forall_insert_2; [|done]. exists (written (K:=K) a).
  split_and!; [done..|apply written_idem].
Qed.

Lemma indented_valid p :
  RemoteSessionProjection_Validate p = Ok tt → metadata_fits (rs_Metadata p) →
  RemoteSessionProjection_Validate (indented_projection p) = Ok tt.
Proof.
  unfold RemoteSessionProjection_Validate, metadata_fits. intros Hv Hf.
  repeat (apply result_bind_ok in Hv as ([] & ?E & Hv)). simpl. by rewrite E, E0, Hf, E2, E3, E4.
Qed.

Lemma accept_session_writable p :
  session_writable p → metadata_fits (rs_Metadata p) →
  accept_session (skey (rs_Locator p)) (indented_projection p) = Ok tt.
Proof.
  intros [Hv Hp] Hf. unfold accept_session. rewrite indented_valid by done. simpl. rewrite Hp. simpl.
  by rewrite bool_decide_true.
Qed.
Lemma accept_peer_writable p : peer_writable p → accept_peer (ps_DeviceID p) p = Ok tt.
Proof.
  intros [Hv Hp]. unfold accept_peer. rewrite Hv. simpl. rewrite Hp. simpl.
  by rewrite bool_decide_true.
Qed.
Lemma accept_remote_writable a : artifact_writable a → accept_remote (akey a) a = Ok tt.
Proof.
  intros (Ho & Hv & Hp). unfold accept_remote, accept_remote_artifact, normalize_legacy.
  destruct (String.eqb_spec (art_OriginDeviceID a) ""); [done|]. simpl. rewrite Hv. simpl. rewrite Hp. simpl.
  by rewrite bool_decide_true.
Qed.

Lemma put_session_ok p d :
  session_writable p → metadata_fits (rs_Metadata p) → disk_ok d → disk_ok (put_session p d).
Proof.
  intros Hp Hf [?????]. split; try done. by apply (files_ok_insert (K:=SessionKey)); [|apply accept_session_writable].
Qed.
Lemma put_peer_ok p d : peer_writable p → disk_ok d → disk_ok (put_peer p d).
Proof.
  intros Hp [?????]. split; try done. by apply (files_ok_insert (K:=string)); [|apply accept_peer_writable].
Qed.
Lemma put_remote_ok a d : artifact_writable a → disk_ok d → disk_ok (put_remote_artifact a d).
Proof.
  intros Hp [?????]. split; try done. by apply (files_ok_insert (K:=SessionKey)); [|apply accept_remote_writable].
Qed.

Lemma preserves_writes upd ok m :
  (ok → ∀ d, disk_ok d → disk_ok (upd d)) → writes_as upd ok m → respects preserves_ok m.
Proof.
  intros Hu Hw s Hs. specialize (Hw s). destruct (m s) as [[]]; simpl.
  - destruct Hw as [? ->]. auto.
  - by rewrite Hw.
Qed.
Lemma preserves_frame {A} (m : H A) : keeps id m → respects preserves_ok m.
Proof. intros Hm s Hs. specialize (Hm s). unfold same, id in Hm. by rewrite Hm. Qed.

Lemma preserves_session change p :
  metadata_fits (rs_Metadata p) → respects preserves_ok (write_session_as change p).
Proof. intros Hf. eapply preserves_writes; [|apply write_session_as_writes]. intros. by apply put_session_ok. Qed.
Lemma preserves_artifact change a : respects preserves_ok (write_artifact_as change a).
Proof. eapply preserves_writes; [|apply write_artifact_as_writes]. intros. by apply put_remote_ok. Qed.
Lemma preserves_peer p : respects preserves_ok (writePeerLocked p).
Proof. eapply preserves_writes; [|apply writePeer_writes]. intros. by apply put_peer_ok. Qed.
Lemma preserves_publish k e key : respects preserves_ok (publishLocked k e key).
Proof. apply preserves_frame. eauto with go. Qed.
Lemma preserves_now : respects preserves_ok now.
Proof. apply preserves_frame. eauto with go. Qed.
Lemma preserves_getPeerOpt dev : respects preserves_ok (getPeerOpt dev).
Proof. apply preserves_frame. eauto with go. Qed.
Lemma preserves_getPeerOrNew dev : respects preserves_ok (getPeerOrNew dev).
Proof. apply preserves_frame. eauto with go. Qed.

(** What is read from the store has been written by it, so it can be written
    again with its metadata. *)
Definition read_fits (l : list RemoteSessionProjection) : Prop :=
  Forall (λ p, metadata_fits (rs_Metadata p)) l.
Lemma list_sessions_fit d dev scope l : disk_ok d → list_sessions d dev scope = Ok l → read_fits l.
Proof.
  intros Hd Hl. unfold list_sessions in Hl. apply result_bind_ok in Hl as (out & Hr & [= <-]).
  apply Forall_forall. intros p Hp%elem_of_sort_by_key. apply read_all_ok in Hr as [_ Hin].
  apply Hin in Hp as (k & f & Hf%elem_of_map_to_list & Hdec & _).
  destruct (ok_sessions _ Hd _ _ Hf) as (q & -> & [Hv _]%accept_session_ok & Hw). injection Hdec as <-.
  apply projection_metadata in Hv. unfold metadata_fits. by rewrite <- Hw in Hv.
Qed.
Lemma preserves_list_then {B} dev scope (f : list RemoteSessionProjection → H B) :
  (∀ l, read_fits l → respects preserves_ok (f l)) →
  respects preserves_ok (listRemoteSessionsLocked dev scope ≫= f).
Proof.
  intros Hf s Hs. unfold mbind, M_bind. rewrite listRemoteSessionsLocked_run.
  destruct (list_sessions (st_disk s) dev scope) as [l|] eqn:Hl; [|done].
  apply Hf; [|done]. by eapply list_sessions_fit.
Qed.
Lemma preserves_artifacts_list dev kind : respects preserves_ok (listRemoteArtifactsRawLocked dev kind).
Proof. apply preserves_frame. unfold listRemoteArtifactsRawLocked. eauto with go. Qed.
End Invariant.

#[export] Hint Resolve preserves_session preserves_artifact preserves_peer preserves_publish
  preserves_now preserves_getPeerOpt preserves_getPeerOrNew
  preserves_artifacts_list : go.

(** ** Bindings and local artifacts *)

Lemma locator_transport l :
  RemoteSessionLocator_Validate l = Ok tt →
  (loc_TransportBindingID l = "" ∨ validateID "transport_binding_id" (loc_TransportBindingID l) = Ok tt) ∧
  ∀ t, t = "" ∨ validateID "transport_binding_id" t = Ok tt →
    RemoteSessionLocator_Validate
      (mkLocator (loc_SchemaVersion l) (loc_DeviceID l) (loc_ProfileScope l) (loc_SessionID l) t) = Ok tt.
Proof.
  unfold RemoteSessionLocator_Validate. intros Hl.
  repeat (apply result_bind_ok in Hl as ([] & ?E & Hl)). simpl. rewrite E, E0, E1, E2. simpl. split.
  - destruct (String.eqb_spec (loc_TransportBindingID l) ""); auto.
  - intros t [->|Ht]; [done|]. by destruct (t =? "")%string.
Qed.

(** Inheriting from a valid binding of the same target keeps a binding valid. *)
Lemma inherit_binding_valid existing b :
  SurfaceBinding_Validate existing = Ok tt → SurfaceBinding_Validate b = Ok tt →
  SurfaceBinding_Validate (inherit_binding existing b) = Ok tt.
Proof.
  unfold SurfaceBinding_Validate. intros He Hb.
  repeat (apply result_bind_ok in He as ([] & ?E & He)).
  repeat (apply result_bind_ok in Hb as ([] & ?B & Hb)).
  apply need_ok, negb_true_iff, orb_false_iff in He as [He1 He2], Hb as [Hb1 Hb2].
  simpl. rewrite B, B0, B1, B2, B3, B4. simpl. rewrite E6, He1, Hb2. simpl.
  apply locator_transport in B5 as [Ht B5]. rewrite B5; [done|].
  destruct (String.eqb_spec (loc_TransportBindingID (sb_Locator b)) ""); [|by destruct Ht; auto].
  by apply locator_transport in E5 as [Hte _].
Qed.

Section Steps.
Context `{UrlLib}.

Lemma accept_binding_ok k b : accept_binding k b = Ok tt →
  SurfaceBinding_Validate b = Ok tt ∧ surfaceBindingPath (sb_SurfaceID b) = Ok k.
Proof.
  unfold accept_binding, path_is. intros Ha. inv_ok; [|done].
  match goal with E : need _ _ = Ok _ |- _ => apply need_ok, bool_decide_eq_true in E as -> end. done.
Qed.

Lemma write_binding_ok k b :
  SurfaceBinding_Validate b = Ok tt → surfaceBindingPath (sb_SurfaceID b) = Ok k →
  respects preserves_ok (writeJSONLocked (A:=SurfaceBinding) k b).
Proof.
  intros Hv Hp. eapply preserves_writes; [|apply writeJSON_writes].
  intros _ d [?????]. split; try done. apply (files_ok_insert (K:=string)); [done|].
  unfold accept_binding. simpl. rewrite Hv, Hp. simpl. by rewrite bool_decide_true.
Qed.

(** The record [putSurfaceBindingLocked] writes, as a function of the file it
    finds. *)
Definition merged_binding (b : SurfaceBinding) (replace : bool)
    (found : result MeshError SurfaceBinding) : result MeshError SurfaceBinding :=
  match found with
  | Ok existing =>
      if negb (sameTarget existing b) && negb replace then Err ErrConflict
      else Ok (if sameTarget existing b then inherit_binding existing b else b)
  | Err ErrNotFound => Ok b
  | Err e => Err e
  end.

Lemma putSurfaceBinding_run b replace s k :
  surfaceBindingPath (sb_SurfaceID b) = Ok k →
  putSurfaceBindingLocked b replace s =
  match merged_binding b replace (decode_file (d_bindings (st_disk s) !! k)) with
  | Ok b' => (writeJSONLocked (A:=SurfaceBinding) k b' ≫= λ _,
              publishLocked ChangeUpsert EntitySurfaceBinding (sb_SurfaceID b)) s
  | Err e => (Err e, s)
  end.
Proof.
  intros Hk. unfold putSurfaceBindingLocked. rewrite Hk.
  unfold readJSONFile, try, mbind, M_bind, lift, gets, throw, mret, M_ret. simpl.
  destruct (decode_file _) as [existing|[]]; simpl; try done.
  by destruct (negb (sameTarget existing b) && negb replace).
Qed.

Lemma merged_binding_ok b b' replace m k :
  files_ok accept_binding m → SurfaceBinding_Validate b = Ok tt →
  merged_binding b replace (decode_file (m !! k)) = Ok b' →
  SurfaceBinding_Validate b' = Ok tt ∧ sb_SurfaceID b' = sb_SurfaceID b.
Proof.
  intros Hm Hb Hmg. unfold merged_binding in Hmg.
  destruct (decode_file (m !! k)) as [existing|[]] eqn:Hd; try done; [|by simplify_eq].
  destruct (negb _ && negb _); [done|]. injection Hmg as <-.
  destruct (sameTarget existing b); [|done]. split; [|done].
  apply inherit_binding_valid; [|done].
  destruct (m !! k) as [f|] eqn:Hf; [|done]. destruct (Hm k f Hf) as (a & -> & Ha & _).
  injection Hd as ->. by apply accept_binding_ok in Ha as [? _].
Qed.

Lemma preserves_putSurfaceBinding b replace :
  SurfaceBinding_Validate b = Ok tt → respects preserves_ok (putSurfaceBindingLocked b replace).
Proof.
  intros Hb s Hs. destruct (surfaceBindingPath (sb_SurfaceID b)) as [k|e] eqn:Hk.
  - rewrite (putSurfaceBinding_run _ _ _ k Hk).
    destruct (merged_binding _ _ _) as [b'|] eqn:Hm; [|done].
    apply merged_binding_ok in Hm as [Hv Hid]; [|apply ok_bindings, Hs|done].
    revert Hs. change (preserves_ok s ((writeJSONLocked (A:=SurfaceBinding) k b' ≫= λ _,
      publishLocked ChangeUpsert EntitySurfaceBinding (sb_SurfaceID b)) s).2).
    apply respects_bind; [apply _| |intros; apply preserves_publish].
    apply write_binding_ok; [done|]. by rewrite Hid.
  - unfold putSurfaceBindingLocked, mbind, M_bind, lift. by rewrite Hk.
Qed.

Lemma preserves_demote_sessions f at_ inScope l :
  read_fits l → respects preserves_ok (demote_sessions f at_ inScope l).
Proof.
  intros Hl. unfold demote_sessions. apply respects_for_each; [apply _|]. intros p Hp.
  destruct (_ && _); [|apply respects_ret, _]. apply preserves_session.
  exact (proj1 (Forall_forall _ l) Hl p Hp).
Qed.
Lemma preserves_write_present ep rev at_ m :
  pending_fit m → respects preserves_ok (write_present ep rev at_ (sorted_values m)).
Proof.
  intros Hm. unfold write_present. apply respects_for_each; [apply _|].
  intros i (k & Hi)%sorted_values_elem. apply preserves_session. exact (Hm k i Hi).
Qed.
Lemma preserves_write_gone ep rev at_ present l :
  read_fits l → respects preserves_ok (write_gone ep rev at_ present l).
Proof.
  intros Hl. unfold write_gone. apply respects_for_each; [apply _|]. intros p Hp.
  destruct (present p); [apply respects_ret, _|]. apply preserves_session.
  exact (proj1 (Forall_forall _ l) Hl p Hp).
Qed.
Lemma preserves_demote_artifacts f at_ l : respects preserves_ok (demote_artifacts f at_ l).
Proof. unfold demote_artifacts. respects. Qed.
#[local] Hint Resolve preserves_demote_sessions preserves_demote_artifacts preserves_write_present
  preserves_write_gone : go.

(** [respects], with what is known of a listing in the rest of the handler. *)
Ltac preserves := repeat (first [apply preserves_list_then; intros ? ?|respects_step]).

Lemma preserves_markSyncing d ep only sess art :
  respects preserves_ok (markPeerInventoriesSyncingLocked d ep only sess art).
Proof.
  unfold markPeerInventoriesSyncingLocked. preserves.
Qed.
#[local] Hint Resolve preserves_markSyncing : go.

Lemma preserves_commitSnapshot x : pending_fit (sn_pending x) → respects preserves_ok (commitSnapshot x).
Proof.
  intros Hx. unfold commitSnapshot. cbv zeta. preserves.
Qed.
Lemma preserves_commitSessionInventory x :
  pending_fit (si_pending x) → respects preserves_ok (commitSessionInventory x).
Proof.
  intros Hx. unfold commitSessionInventory, validateSessionInventoryCursorLocked. cbv zeta. preserves.
Qed.
Lemma preserves_commitArtifactInventory x : respects preserves_ok (commitArtifactInventory x).
Proof. unfold commitArtifactInventory, validateArtifactInventoryCursorLocked. respects. Qed.
#[local] Hint Resolve preserves_commitSnapshot preserves_commitSessionInventory
  preserves_commitArtifactInventory : go.

Lemma write_local_ok k a :
  ArtifactEnvelope_Validate a = Ok tt → art_OriginDeviceID a = "" → art_SourceID a = art_ID a →
  art_Freshness a = FreshnessFresh → artifactPath (art_Kind a) (art_ID a) = Ok k →
  respects preserves_ok (writeJSONLocked (A:=ArtifactEnvelope) k a).
Proof.
  intros Hv Ho Hsrc Hf Hp. eapply preserves_writes; [|apply writeJSON_writes].
  intros _ d [?????]. split; try done. apply (files_ok_insert (K:=ArtifactKey)); [done|].
  assert (normalize_legacy a = a) as Hn.
  { unfold normalize_legacy, art_set. rewrite Ho, Hsrc, Hf.
    unfold ArtifactEnvelope_Validate in Hv.
    repeat (apply result_bind_ok in Hv as ([] & ?E & Hv)).
    repeat match goal with E : need (negb (IsZero _ || IsZero _)) _ = Ok _ |- _ =>
      apply need_ok, negb_true_iff, orb_false_iff in E as [_ E]; rewrite E end.
    assert ((if (art_ID a =? "")%string then art_ID a else art_ID a) = art_ID a) as ->
      by (by destruct (String.eqb (art_ID a) "")).
    clear -Ho Hsrc Hf. by destruct a; simpl in *; subst. }
  unfold accept_local. simpl. rewrite Hn, Hv, Ho, Hp. simpl. by rewrite bool_decide_true.
Qed.

Lemma preserves_PutArtifact a : respects preserves_ok (PutArtifact a).
Proof.
  unfold PutArtifact. apply respects_lift_bind; [apply _|intros _ Ho%need_ok%String.eqb_eq].
  do 2 (apply respects_lift_bind; [apply _|intros _ _]).
  apply respects_bind; [apply _|eauto with go|intros at_].
  apply respects_lift_bind; [apply _|intros [] Hv].
  apply respects_lift_bind; [apply _|intros k Hk].
  apply respects_bind; [apply _|by apply write_local_ok|intros; apply preserves_publish].
Qed.

Lemma preserves_PutSurfaceBinding b replace : respects preserves_ok (PutSurfaceBinding b replace).
Proof.
  unfold PutSurfaceBinding. apply respects_bind; [apply _|eauto with go|intros t].
  apply respects_lift_bind; [apply _|intros [] Hv]. by apply preserves_putSurfaceBinding.
Qed.

Lemma preserves_ValidateAndPut b replace : respects preserves_ok (ValidateAndPutSurfaceBinding b replace).
Proof.
  unfold ValidateAndPutSurfaceBinding. apply respects_bind; [apply _|eauto with go|intros t].
  apply respects_lift_bind; [apply _|intros [] Hv].
  apply respects_bind; [apply _| |intros p].
  { intros s. by rewrite getRemoteSessionLocked_run. }
  do 2 (apply respects_lift_bind; [apply _|intros [] _]).
  apply respects_bind; [apply _|by apply preserves_putSurfaceBinding|intros []].
  apply respects_bind; [apply _| |intros stored; respects].
  unfold getSurfaceBindingLocked. respects.
Qed.

Lemma preserves_DeleteSurfaceBinding id : respects preserves_ok (DeleteSurfaceBinding id).
Proof.
  unfold DeleteSurfaceBinding. do 2 (apply respects_lift_bind; [apply _|intros ? _]).
  apply respects_bind; [apply _| |intros; apply preserves_publish].
  intros s [????]. unfold removeRegularFile, io_outcome, mbind, M_bind, gets, modify, throw. simpl.
  destruct (d_bindings (st_disk s) !! _) as [[]|]; simpl; try done.
  destruct (st_io s) as [|[] rest]; simpl; try done; split; try done; by apply map_Forall_delete.
Qed.

Lemma run_op_preserves o : op_fits o → respects preserves_ok (run_op o).
Proof.
  intros Ho. destruct o; simpl in *; eauto using preserves_PutArtifact, preserves_PutSurfaceBinding,
    preserves_DeleteSurfaceBinding.
  1: unfold SetDesiredTopics; cbv zeta; respects.
  all: unfold MarkPeerSyncing, MarkSessionSyncing, MarkArtifactSyncing, MarkPeerDisconnected,
    BeginSnapshot, Snapshot_Commit, BeginSessionInventory, SessionInventory_Commit,
    BeginArtifactInventory, ArtifactInventory_Commit, validateSnapshotCursorLocked,
    validateSessionInventoryCursorLocked, validateArtifactInventoryCursorLocked,
    markPeerSyncingLocked, markSessionInventorySyncingLocked, markArtifactInventorySyncingLocked.
  all: preserves. apply preserves_ValidateAndPut.
Qed.

Lemma mesh_step_preserves s s' : mesh_step s s' → preserves_ok s s'.
Proof.
  intros [o s0 r s1 Ho Hr|? ? s0 ? ? Hw|id s0|id s0 c s1 Hr].
  - pose proof (run_op_preserves o Ho s0) as Hp. by rewrite Hr in Hp.
  - unfold Watch in Hw. simplify_eq. by intros ?.
  - by intros ?.
  - unfold RecvWatch in Hr.
    destruct (st_watchers s0 !! id) as [ch|]; [|done]. simpl in Hr.
    destruct (try_recv (wa_ch ch)) as [[]|]; simpl in Hr; simplify_eq. by intros ?.
Qed.
End Steps.

(** ** What the invariant buys readers *)

Section Readers.
Context `{UrlLib}.

Lemma read_all_total {K A} `{Collection K A} (accept : K → A → check) keep m :
  files_ok accept m → ∃ l, read_all accept keep (map_to_list m) = Ok l.
Proof.
  intros Hm. assert (∀ files, (∀ kf, kf ∈ files → m !! kf.1 = Some kf.2) →
    ∃ l, read_all accept keep files = Ok l) as Hall.
  { induction files as [|[k f] files IH]; intros Hf; [by eexists|].
    destruct IH as [l Hl]; [intros; apply Hf; by right|].
    destruct (Hm k f (Hf (k, f) ltac:(left))) as (a & -> & Ha & _).
    simpl. rewrite Ha. simpl. rewrite Hl. by eexists. }
  apply Hall. intros [k f] Hin. by apply elem_of_map_to_list.
Qed.

Lemma read_peer_total d dev :
  disk_ok d → validateID "device_id" dev = Ok tt → ∃ o, optional (read_peer d dev) = Ok o.
Proof.
  intros Hd Hdev. unfold read_peer. erewrite peerPath_valid by done. simpl.
  destruct (d_peers d !! dev) as [f|] eqn:Hf; [|by eexists].
  destruct (ok_peers _ Hd _ _ Hf) as (p & -> & Ha & _). rewrite decode_written. simpl.
  unfold accept_peer, path_is in Ha. apply result_bind_ok in Ha as ([] & Hv & Ha). rewrite Hv. simpl.
  destruct (peerPath (ps_DeviceID p)) as [k|] eqn:Hk; [|done].
  apply peerPath_ok in Hk as ->. apply need_ok, bool_decide_eq_true in Ha.
  rewrite Ha, String.eqb_refl. by eexists.
Qed.

Definition peer_view (d : Disk) (dev : string) : option PeerState :=
  match optional (read_peer d dev) with Ok o => o | Err _ => None end.

(** The per-device cache of the listings is invisible. *)
Lemma with_peers_run {A} (device : A → string) eff l cache s :
  (∀ x, x ∈ l → ∃ o, optional (read_peer (st_disk s) (device x)) = Ok o) →
  (∀ k o, cache !! k = Some o → optional (read_peer (st_disk s) k) = Ok o) →
  with_peers device eff cache l s =
  (Ok ((λ x, eff x (peer_view (st_disk s) (device x))) <$> l), s).
Proof.
  revert cache. induction l as [|x l IH]; intros cache Hl Hc; [done|].
  destruct (Hl x ltac:(left)) as [o Ho]. simpl. unfold peer_view at 1. rewrite Ho.
  assert (∀ k o', <[device x:=o]> cache !! k = Some o' → optional (read_peer (st_disk s) k) = Ok o') as Hc'.
  { intros k o'. rewrite lookup_insert. case_decide; [intros [= <-]; by subst|by apply Hc]. }
  specialize (IH _ (λ y Hy, Hl y (list_elem_of_further _ _ _ Hy)) Hc').
  destruct (cache !! device x) as [o'|] eqn:Hx.
  - apply Hc in Hx as E. rewrite Ho in E. injection E as <-.
    unfold mbind, M_bind, mret, M_ret. unfold mret, M_ret in IH. by rewrite IH.
  - unfold mbind, M_bind. rewrite getPeerOpt_run, Ho. unfold mret, M_ret. by rewrite IH.
Qed.

Lemma view_session_total d l :
  disk_ok d → RemoteSessionLocator_Validate l = Ok tt →
  view_session d l =
  match d_sessions d !! skey l with
  | Some (Regular _ (Some p)) => Ok (effectiveSessionProjection p (peer_view d (loc_DeviceID l)))
  | _ => Err ErrNotFound
  end.
Proof.
  intros Hd Hl%locator_Validate_ok. unfold view_session, read_session.
  rewrite remoteSessionPath_valid by done. simpl.
  destruct (d_sessions d !! skey l) as [f|] eqn:Hf; [|done].
  destruct (ok_sessions _ Hd _ _ Hf) as (p & -> & Ha & _). rewrite decode_written. simpl.
  apply accept_session_ok in Ha as [Hv Hk]. rewrite Hv. simpl.
  rewrite (proj2 (EqualIdentity_skey _ _ (projection_locator_ok _ Hv) Hl) Hk). simpl.
  destruct (read_peer_total d (loc_DeviceID l) Hd) as [o Ho]; [by apply lok_device|].
  unfold peer_view. by rewrite Ho.
Qed.

Lemma list_sessions_elem d l p :
  disk_ok d → list_sessions d "" "" = Ok l →
  p ∈ l ↔ ∃ k, d_sessions d !! k = Some (Regular 384 (Some p)).
Proof.
  intros Hd Hl. unfold list_sessions in Hl.
  apply result_bind_ok in Hl as (out & Hr & [= <-]). rewrite elem_of_sort_by_key.
  apply read_all_ok in Hr as [_ ->]. split.
  - intros (k & f & Hin%elem_of_map_to_list & Hdec & _). exists k.
    destruct (ok_sessions _ Hd _ _ Hin) as (q & -> & _). by injection Hdec as ->.
  - intros (k & Hk). exists k, (Regular 384 (Some p)). by rewrite elem_of_map_to_list.
Qed.

Lemma reachable_disk_ok clock io s : rtc mesh_step (new_store clock io) s → disk_ok (st_disk s).
Proof.
  intros Hr. assert (disk_ok (st_disk (new_store clock io))) as Hempty by (split; apply map_Forall_empty).
  induction Hr as [|s1 s2 s3 Hs _ IH]; [done|]. by apply IH, (mesh_step_preserves s1).
Qed.

Lemma session_listing_agrees s : disk_ok (st_disk s) →
  ∃ out, ListRemoteSessions "" "" s = (Ok out, s) ∧
    ∀ p, p ∈ out ↔ ∃ l, RemoteSessionLocator_Validate l = Ok tt ∧ GetRemoteSession l s = (Ok p, s).
Proof.
  intros Hd.
  destruct (read_all_total accept_session (session_filter "" "") (d_sessions (st_disk s)))
    as [l0 Hl0]; [by apply ok_sessions|].
  assert (list_sessions (st_disk s) "" "" = Ok (sort_by_key (λ p, identityKey (rs_Locator p)) l0)) as Hl.
  { unfold list_sessions. simpl. by rewrite Hl0. }
  set (l := sort_by_key _ l0) in *.
  assert (∀ p, p ∈ l → ∃ k, d_sessions (st_disk s) !! k = Some (Regular 384 (Some p)) ∧
    RemoteSessionProjection_Validate p = Ok tt ∧ skey (rs_Locator p) = k) as Hel.
  { intros p (k & Hk)%(list_sessions_elem _ _ _ Hd Hl). exists k. split; [done|].
    destruct (ok_sessions _ Hd _ _ Hk) as (q & [= <-] & Ha & _). by apply accept_session_ok. }
  eexists. split.
  + unfold ListRemoteSessions, mbind, M_bind, lift. simpl.
    rewrite listRemoteSessionsLocked_run, Hl. apply with_peers_run; [|done].
    intros p (k & _ & Hv & _)%Hel. apply read_peer_total; [done|].
    by apply lok_device, projection_locator_ok.
  + intros p. rewrite list_elem_of_fmap. split.
    * intros (q & -> & Hq). destruct (Hel q Hq) as (k & Hk & Hv & Hs).
      exists (rs_Locator q). assert (RemoteSessionLocator_Validate (rs_Locator q) = Ok tt) as Hlv.
      { unfold RemoteSessionProjection_Validate in Hv. by inv_ok. }
      split; [done|]. rewrite GetRemoteSession_run, view_session_total, Hs, Hk by done. done.
    * intros (loc & Hlv & Hg). rewrite GetRemoteSession_run, view_session_total in Hg by done.
      destruct (d_sessions (st_disk s) !! skey loc) as [[perm [q|]|]|] eqn:Hk; try done.
      injection Hg as <-. destruct (ok_sessions _ Hd _ _ Hk) as (q' & [= -> <-] & [_ Hsk]%accept_session_ok & _).
      exists q. split; [|apply (list_sessions_elem _ _ _ Hd Hl); by eexists].
      unfold skey in Hsk. by injection Hsk as -> _ _.
Qed.

Lemma record_listings_total s : disk_ok (st_disk s) →
  (∃ peers, ListPeers s = (Ok peers, s)) ∧
  (∃ bindings, ListSurfaceBindings s = (Ok bindings, s)) ∧
  (∃ local, ListArtifacts "" s = (Ok local, s)).
Proof.
  intros Hd. split_and!.
  + destruct (read_all_total accept_peer (λ _, true) (d_peers (st_disk s))) as [l Hl]; [by apply ok_peers|].
    eexists. unfold ListPeers, mbind, M_bind. rewrite list_files_run.
    change (read_all _ _ _) with (read_all accept_peer (λ _, true) (map_to_list (d_peers (st_disk s)))).
    by rewrite Hl.
  + destruct (read_all_total accept_binding (λ _, true) (d_bindings (st_disk s))) as [l Hl]; [by apply ok_bindings|].
    eexists. unfold ListSurfaceBindings, mbind, M_bind. rewrite list_files_run.
    change (read_all _ _ _) with (read_all accept_binding (λ _, true) (map_to_list (d_bindings (st_disk s)))).
    by rewrite Hl.
  + destruct (read_all_total accept_local (λ a, true) (d_artifacts (st_disk s))) as [l Hl]; [by apply ok_artifacts|].
    eexists. unfold ListArtifacts, listLocalArtifactsLocked, list_artifact_files, mbind, M_bind, lift.
    simpl. match goal with |- context [read_all ?a ?k ?m] =>
      change (read_all a k m) with (read_all accept_local (λ _, true) m) end.
    by rewrite Hl.
Qed.

(** C6: From an empty store, after any sequence of public operations with any
    write failures in between, in which no session's metadata exceeds its limit
    of 32 KiB once it is indented for its file, every stored file is valid,
    private and named by its own identity; the unfiltered listing of sessions then succeeds and
    returns exactly the projections the single-session read returns, and the
    peer, binding and artifact listings succeed too. *)
Theorem mesh_reachable_listings clock io s :
  rtc mesh_step (new_store clock io) s →
  disk_ok (st_disk s) ∧
  (∃ out, ListRemoteSessions "" "" s = (Ok out, s) ∧
     ∀ p, p ∈ out ↔ ∃ l, RemoteSessionLocator_Validate l = Ok tt ∧ GetRemoteSession l s = (Ok p, s)) ∧
  (∃ peers, ListPeers s = (Ok peers, s)) ∧
  (∃ bindings, ListSurfaceBindings s = (Ok bindings, s)) ∧
  (∃ local, ListArtifacts "" s = (Ok local, s)).
Proof.
  intros Hr%reachable_disk_ok. split; [done|]. split; [by apply session_listing_agrees|by apply record_listings_total].
Qed.
End Readers.
