(* ===== verification/MeshSyncFacts.v ===== *)
(** Disconnection: what [MarkPeerDisconnected] makes of a device's sessions and
    artifacts, and that it reaches no other device; and the rules of surface bindings. *)

From S2P Require Import Prelude GoText MeshTypes MeshStore MeshFreshness MeshFiles MeshSync MeshInventory.
From S2P Require Import MeshBindings MeshStoreFacts MeshListFacts MeshInvariant.
From stdpp Require Import base fin_maps gmap strings list sorting.
From Stdlib Require Import ZArith Lia.

Open Scope Z_scope.

(** ** The demotion loop *)

Definition demoted (f : Freshness) (inScope : RemoteSessionProjection → bool)
    (p : RemoteSessionProjection) : bool := inScope p && demotes f (rs_Freshness p).

Lemma demote_sessions_ok f at_ inScope l s s' :
  demote_sessions f at_ inScope l s = (Ok tt, s') →
  Forall (λ p, demoted f inScope p = true → session_writable (rs_set_freshness f at_ p)) l ∧
  d_peers (st_disk s') = d_peers (st_disk s) ∧
  d_sessions (st_disk s') =
    insert_all (λ p, skey (rs_Locator p)) (λ p, Regular 384 (Some (indented_projection (rs_set_freshness f at_ p))))
      (filter (λ p, demoted f inScope p = true) l) (d_sessions (st_disk s)).
Proof.
  intros Hr. apply (for_each_writes_ok _ _ _ _ _
    (λ p, if demoted f inScope p then put_session (rs_set_freshness f at_ p) else id)
    (λ p, demoted f inScope p = true → session_writable (rs_set_freshness f at_ p))) in Hr as [Hok Hd].
  - split; [done|]. rewrite Hd. clear. generalize (st_disk s) as d.
    induction l as [|p l IH]; intros d; [done|]. simpl.
    destruct (IH ((if demoted f inScope p then put_session (rs_set_freshness f at_ p) else id) d)) as [-> ->].
    destruct (demoted f inScope p) eqn:Hp.
    + by rewrite filter_cons_True.
    + by rewrite filter_cons_False by congruence.
  - intros p. apply (writes_as_if (demoted f inScope p)), write_session_as_writes.
Qed.

(** After the loop each file of the device holds the record it held before, at
    most with another freshness. *)
Lemma demoted_file dev f at_ inScope l d m k file :
  dev ≠ "" → list_sessions d dev "" = Ok l →
  canonical d →
  m = insert_all (λ p, skey (rs_Locator p)) (λ p, Regular 384 (Some (indented_projection (rs_set_freshness f at_ p))))
      (filter (λ p, demoted f inScope p = true) l) (d_sessions d) →
  d_sessions d !! k = Some file → k.1.1 = dev →
  ∃ p file', decode_file (Some file) = Ok p ∧ p ∈ l ∧ skey (rs_Locator p) = k ∧
    RemoteSessionProjection_Validate p = Ok tt ∧ m !! k = Some file' ∧
    decode_file (Some file') = Ok (if demoted f inScope p then rs_set_freshness f at_ p else p).
Proof.
  intros Hdev Hl Hcan -> Hf Hk. destruct (list_sessions_ok _ _ _ Hdev Hl) as (Hnd & _ & Hfile & _).
  destruct (Hfile _ _ Hf) as (p & Hdec & Hsk & Hv & Hin). specialize (Hin Hk).
  destruct (demoted f inScope p) eqn:Hp.
  - pose proof (Hcan _ _ Hf p Hdec) as Hp0.
    exists p, (Regular 384 (Some (indented_projection (rs_set_freshness f at_ p)))).
    split_and!; [done..| |].
    2: { rewrite Hp. unfold decode_file. simpl. by rewrite <- Hp0. }
    rewrite <- Hsk.
    rewrite (insert_all_in (λ p, skey (rs_Locator p))
      (λ p, Regular 384 (Some (indented_projection (rs_set_freshness f at_ p))))); [done| |].
    + eapply sublist_NoDup; [exact Hnd|]. apply fmap_sublist, sublist_filter.
    + by apply list_elem_of_filter.
  - exists p, file. rewrite Hp. split_and!; try done. rewrite insert_all_ne; [done|].
    intros q [Hq Hql]%list_elem_of_filter Heq. rewrite <- Hsk in Heq.
    assert (q = p) as ->; [|congruence].
    by apply (NoDup_fmap_inj_on _ _ _ _ Hnd).
Qed.

Section Disconnect.
Context `{UrlLib}.

Lemma view_device_ok d l dev ls :
  dev ≠ "" → list_sessions d dev "" = Ok ls → loc_DeviceID l = dev → locator_ok l →
  read_session d l =
  match d_sessions d !! skey l with
  | Some f => decode_file (Some f)
  | None => Err ErrNotFound
  end.
Proof.
  intros Hdev Hl Hld Hlok. unfold read_session. rewrite remoteSessionPath_valid by done. simpl.
  destruct (d_sessions d !! skey l) as [f|] eqn:Hf; [|done].
  destruct (list_sessions_ok _ _ _ Hdev Hl) as (_ & _ & Hfile & _).
  destruct (Hfile _ _ Hf) as (p & Hdec & Hsk & Hv & _). rewrite Hdec. simpl. rewrite Hv. simpl.
  by rewrite (proj2 (EqualIdentity_skey _ _ (projection_locator_ok _ Hv) Hlok) Hsk).
Qed.

Lemma read_session_stored d l f p :
  locator_ok l → d_sessions d !! skey l = Some f → decode_file (Some f) = Ok p →
  RemoteSessionProjection_Validate p = Ok tt → skey (rs_Locator p) = skey l →
  read_session d l = Ok p.
Proof.
  intros Hl Hf Hdec Hv Hsk. unfold read_session. rewrite remoteSessionPath_valid by done. simpl.
  rewrite Hf, Hdec. simpl. rewrite Hv. simpl.
  by rewrite (proj2 (EqualIdentity_skey _ _ (projection_locator_ok _ Hv) Hl) Hsk).
Qed.

Lemma keeps_MarkDisconnected_tail {T} (proj : Disk → T) at_ dev :
  (∀ q d, proj (put_remote_artifact q d) = proj d) →
  keeps proj (al ← listRemoteArtifactsRawLocked dev ""; demote_artifacts FreshnessStale at_ al).
Proof.
  intros Hp. apply respects_bind; [apply _| |intros; by eauto with go].
  unfold listRemoteArtifactsRawLocked. eauto with go.
Qed.

(** The files a successful disconnect leaves. *)
Lemma MarkPeerDisconnected_inv dev s s' :
  MarkPeerDisconnected dev s = (Ok tt, s') →
  ∃ ls at_ peer0 peer,
    dev ≠ "" ∧ list_sessions (st_disk s) dev "" = Ok ls ∧
    optional (read_peer (st_disk s) dev) = Ok peer0 ∧
    read_peer (st_disk s') dev = Ok peer ∧
    peer = disconnected_peer at_ (peer_or_new dev peer0) ∧
    d_sessions (st_disk s') =
      insert_all (λ p, skey (rs_Locator p))
        (λ p, Regular 384 (Some (indented_projection (rs_set_freshness FreshnessStale at_ p))))
        (filter (λ p, demoted FreshnessStale (λ _, true) p = true) ls) (d_sessions (st_disk s)) ∧
    Forall (λ p, demoted FreshnessStale (λ _, true) p = true →
      session_writable (rs_set_freshness FreshnessStale at_ p)) ls.
Proof.
  unfold MarkPeerDisconnected. intros Hr.
  apply bind_run_ok in Hr as ([] & ? & [= Hdev <-] & Hr).
  apply bind_run_ok in Hr as (ls & s1 & H1 & Hr). rewrite listRemoteSessionsLocked_run in H1.
  injection H1 as Hls <-.
  apply bind_run_ok in Hr as (t & s2 & [= <- <-] & Hr). simpl in Hr.
  apply bind_run_ok in Hr as ([] & s3 & (Hw3 & Hp3 & Hs3)%demote_sessions_ok & Hr). simpl in Hp3, Hs3.
  apply bind_run_ok in Hr as (al & s4 & H4 & Hr).
  apply bind_run_ok in Hr as ([] & s5 & H5 & Hr).
  assert (d_peers (st_disk s5) = d_peers (st_disk s3) ∧ d_sessions (st_disk s5) = d_sessions (st_disk s3))
    as [Hp5 Hs5].
  { assert (∀ T (proj : Disk → T), (∀ q d, proj (put_remote_artifact q d) = proj d) →
      proj (st_disk s5) = proj (st_disk s3)) as Hk; [|by split; apply Hk].
    intros T proj Hproj. pose proof (keeps_MarkDisconnected_tail proj (UTC (st_clock s (st_ticks s))) dev Hproj s3) as Hk.
    unfold same, mbind, M_bind in Hk. by rewrite H4, H5 in Hk. }
  apply bind_run_ok in Hr as (peer & s6 & H6 & Hr). rewrite getPeerOrNew_run in H6.
  rewrite (read_peer_ne (st_disk s) (st_disk s5)) in H6 by by rewrite Hp5, Hp3.
  destruct (optional _) as [peer0|] eqn:Ho; [|done]. injection H6 as <- <-.
  apply bind_run_ok in Hr as ([] & s7 & [Hw Hd]%writePeer_ok & Hr).
  apply silent_ok in Hr; [|apply publish_silent].
  exists ls, (UTC (st_clock s (st_ticks s))), peer0, (disconnected_peer (UTC (st_clock s (st_ticks s))) (peer_or_new dev peer0)).
  split_and!; [|done..| |done| |done].
  - by apply validateID_chars in Hdev as (? & ? & -> & _).
  - rewrite Hr, Hd.
    pose proof (read_peer_put _ (st_disk s5) Hw) as Hrp.
    simpl in Hrp. by rewrite (peer_or_new_device _ _ _ Ho) in Hrp.
  - rewrite Hr, Hd. simpl. by rewrite Hs5, Hs3.
Qed.

Lemma GetRemoteArtifact_inv origin kind id s a s' :
  GetRemoteArtifact origin kind id s = (Ok a, s') →
  ∃ a0 peer, a = effectiveArtifact a0 peer ∧ art_OriginDeviceID a0 = origin ∧ origin ≠ "" ∧
    optional (read_peer (st_disk s) origin) = Ok peer.
Proof.
  unfold GetRemoteArtifact. intros Hr.
  apply bind_run_ok in Hr as ([] & ? & [= Ho <-] & Hr).
  do 2 apply bind_run_ok in Hr as ([] & ? & [= _ <-] & Hr).
  apply bind_run_ok in Hr as (file & ? & [= _ <-] & Hr).
  apply bind_run_ok in Hr as (a0 & s1 & Ha & Hr).
  assert (s1 = s) as ->.
  { unfold readArtifactFile, readJSONFile, mbind, M_bind, gets, lift, mret, M_ret in Ha. simpl in Ha.
    destruct (decode_file _); [|done]. by destruct (ArtifactEnvelope_Validate _); simplify_eq. }
  apply bind_run_ok in Hr as ([] & ? & [= Hn <-] & Hr).
  apply bind_run_ok in Hr as (peer & s2 & Hp & [= <- _]).
  rewrite getPeerOpt_run in Hp. injection Hp as Hp _.
  apply need_ok, andb_true_iff in Hn as [[Hn _]%andb_true_iff _]. apply String.eqb_eq in Hn.
  exists a0, peer. split_and!; try done. by apply validateID_chars in Ho as (? & ? & -> & _).
Qed.

Definition stale_or_gone (f : Freshness) : Prop := f = FreshnessStale ∨ f = FreshnessGone.

Lemma stale_peer_session p peer :
  ps_SessionFreshness peer = FreshnessStale →
  stale_or_gone (rs_Freshness (effectiveSessionProjection p (Some peer))).
Proof.
  intros Hp. rewrite effective_session_freshness. unfold sessionInventoryFreshness. rewrite Hp. simpl.
  unfold stale_or_gone. destruct (session_committed p peer); [|auto].
  destruct (Freshness_eqb _ _); auto.
Qed.
Lemma stale_peer_artifact a peer :
  art_OriginDeviceID a ≠ "" → ps_ArtifactFreshness peer = FreshnessStale →
  stale_or_gone (art_Freshness (effectiveArtifact a (Some peer))).
Proof.
  intros Ho Hp. rewrite effective_artifact_freshness by done.
  unfold artifactInventoryFreshness. rewrite Hp. simpl.
  unfold stale_or_gone. destruct (sameCursor _ _ _); [|auto]. destruct (Freshness_eqb _ _); auto.
Qed.

(** Once [MarkPeerDisconnected] succeeds, nothing of that device is shown
    live: every session that could be read before is still there with its
    metadata and source cursor but reads stale (or stays gone), a session that
    could not be found still cannot, and every remote artifact of the device
    that can be read is stale or gone. *)
Theorem MarkPeerDisconnected_spec dev s s' :
  canonical (st_disk s) → MarkPeerDisconnected dev s = (Ok tt, s') →
  (∀ l, RemoteSessionLocator_Validate l = Ok tt → loc_DeviceID l = dev →
     match (GetRemoteSession l s).1 with
     | Ok p => ∃ p', (GetRemoteSession l s').1 = Ok p' ∧ stale_or_gone (rs_Freshness p') ∧
         rs_Metadata p' = rs_Metadata p ∧ rs_SourceEpoch p' = rs_SourceEpoch p ∧
         rs_SourceRevision p' = rs_SourceRevision p
     | Err e => e = ErrNotFound ∧ (GetRemoteSession l s').1 = Err ErrNotFound
     end) ∧
  (∀ kind id a, (GetRemoteArtifact dev kind id s').1 = Ok a → stale_or_gone (art_Freshness a)).
Proof.
  intros Hcan Hr. apply MarkPeerDisconnected_inv in Hr
    as (ls & at_ & peer0 & peer & Hdev & Hls & Hp0 & Hp & -> & Hs & Hw).
  split.
  - intros l Hlv Hld. rewrite !GetRemoteSession_run by done. simpl.
    apply locator_Validate_ok in Hlv as Hlok. unfold view_session.
    rewrite (view_device_ok _ _ _ _ Hdev Hls Hld Hlok), Hld, Hp, Hp0.
    destruct (d_sessions (st_disk s) !! skey l) as [f|] eqn:Hf.
    + destruct (demoted_file _ _ _ _ _ _ _ _ _ Hdev Hls Hcan Hs Hf) as
        (p & f' & Hdec & Hin & Hsk & Hv & Hf' & Hdec'); [done|]. rewrite Hdec. simpl.
      rewrite (read_session_stored _ _ _ (if demoted FreshnessStale (λ _, true) p
                then rs_set_freshness FreshnessStale at_ p else p) Hlok Hf' Hdec').
      * simpl. eexists. split; [done|].
        destruct (effective_session_identity (if demoted FreshnessStale (λ _, true) p
          then rs_set_freshness FreshnessStale at_ p else p)
          (Some (disconnected_peer at_ (peer_or_new dev peer0)))) as (_ & -> & -> & ->).
        destruct (effective_session_identity p peer0) as (_ & -> & -> & ->).
        split; [by apply stale_peer_session|]. by destruct (demoted _ _ p).
      * destruct (demoted FreshnessStale (λ _, true) p) eqn:Hdm; [|done].
        by destruct (proj1 (Forall_forall _ _) Hw p Hin Hdm).
      * rewrite <- Hsk. by destruct (demoted _ _ p).
    + assert (d_sessions (st_disk s') !! skey l = None) as Hnone.
      { rewrite Hs, insert_all_ne; [done|]. intros p [_ Hp']%list_elem_of_filter Heq.
        destruct (list_sessions_ok _ _ _ Hdev Hls) as (_ & _ & _ & Hex).
        destruct (Hex p Hp') as [g Hg]. rewrite Heq in Hg. congruence. }
      split; [done|]. unfold read_session. rewrite remoteSessionPath_valid by done. simpl.
      by rewrite Hnone.
  - intros kind id a Ha. destruct (GetRemoteArtifact dev kind id s') as [r s''] eqn:Hg.
    simpl in Ha. subst r. apply GetRemoteArtifact_inv in Hg as (a0 & pr & -> & Ho & _ & Hpr).
    rewrite Hp in Hpr. injection Hpr as <-. apply stale_peer_artifact; [by rewrite Ho|done].
Qed.
End Disconnect.

(** * Surface bindings

    Surface bindings: writes are read back, a conflicting write without
    permission changes nothing, a same-target rewrite keeps the original
    provenance, and a validated write agrees with the later resolution. *)

(** Case analysis on the outcome of the run a goal matches on. *)
Ltac case_run :=
  match goal with
  | |- context [match ?r with pair _ _ => _ end] => destruct r as [[[]|e] s']
  end.

Definition read_binding (d : Disk) (id : string) : result MeshError SurfaceBinding :=
  file ← surfaceBindingPath id;
  b ← decode_file (d_bindings d !! file);
  _ ← SurfaceBinding_Validate b;
  _ ← need (String.eqb (sb_SurfaceID b) id) "stored surface binding does not match path";
  mret b.

Lemma getSurfaceBindingLocked_run id s :
  getSurfaceBindingLocked id s = (read_binding (st_disk s) id, s).
Proof.
  unfold getSurfaceBindingLocked, read_binding, readJSONFile, mbind, M_bind, result_bind, lift, gets,
    mret, M_ret. simpl.
  destruct (surfaceBindingPath id) as [k|]; [|done]. simpl.
  destruct (decode_file _) as [b|]; [|done].
  destruct (SurfaceBinding_Validate b) as [[]|]; [|done].
  by destruct (need _ _) as [[]|].
Qed.

Lemma binding_uuid b : SurfaceBinding_Validate b = Ok tt → uuidRE (sb_SurfaceID b) = true.
Proof.
  unfold SurfaceBinding_Validate. intros Hv.
  repeat (apply result_bind_ok in Hv as ([] & ?E & Hv)).
  repeat match goal with E : need (uuidRE _) _ = _ |- _ => apply need_ok in E end. done.
Qed.

(** The outcomes of [putSurfaceBindingLocked]: the merged record is stored, or
    the disk is as before. *)
Lemma putSurfaceBinding_outcome b replace s :
  match putSurfaceBindingLocked b replace s with
  | (Ok _, s') => ∃ b', surfaceBindingPath (sb_SurfaceID b) = Ok (sb_SurfaceID b) ∧
      merged_binding b replace (decode_file (d_bindings (st_disk s) !! sb_SurfaceID b)) = Ok b' ∧
      st_disk s' = put_file (sb_SurfaceID b) b' (st_disk s)
  | (Err _, s') => st_disk s' = st_disk s
  end.
Proof.
  destruct (surfaceBindingPath (sb_SurfaceID b)) as [k|e] eqn:Hk.
  - rewrite (putSurfaceBinding_run _ _ _ k Hk). apply surfaceBindingPath_ok in Hk as ->.
    destruct (merged_binding _ _ _) as [b'|] eqn:Hm; [|done].
    pose proof (writes_as_then_silent _ _ _ _ (writeJSON_writes (sb_SurfaceID b) b')
      (publish_silent ChangeUpsert EntitySurfaceBinding (sb_SurfaceID b)) s) as Hw.
    case_run; [|done]. destruct Hw as [_ Hw]. by exists b'.
  - unfold putSurfaceBindingLocked, mbind, M_bind, lift. by rewrite Hk.
Qed.

(** Under the store invariant the stored record can be read back. *)
Lemma putSurfaceBinding_cases `{UrlLib} b replace s :
  disk_ok (st_disk s) → SurfaceBinding_Validate b = Ok tt →
  match putSurfaceBindingLocked b replace s with
  | (Ok _, s') => ∃ b', merged_binding b replace (decode_file (d_bindings (st_disk s) !! sb_SurfaceID b)) = Ok b' ∧
      read_binding (st_disk s') (sb_SurfaceID b) = Ok b'
  | (Err _, s') => st_disk s' = st_disk s
  end.
Proof.
  intros Hd Hv. pose proof (putSurfaceBinding_outcome b replace s) as Hc.
  destruct (putSurfaceBindingLocked _ _ _) as [[[]|e] s']; [|done].
  destruct Hc as (b' & Hk & Hm & Hw). exists b'. split; [done|].
  apply merged_binding_ok in Hm as [Hv' Hid]; [|apply ok_bindings, Hd|done].
  unfold read_binding. rewrite Hk. simpl. rewrite Hw. simpl. rewrite lookup_insert_eq, decode_written.
  simpl. rewrite Hv'. simpl. by rewrite Hid, String.eqb_refl.
Qed.

Lemma merged_binding_locator b b' replace found :
  merged_binding b replace found = Ok b' → skey (sb_Locator b') = skey (sb_Locator b).
Proof.
  unfold merged_binding. destruct found as [ex|[]]; intros Hm; try done; [|by simplify_eq].
  destruct (negb _ && negb _); [done|]. injection Hm as <-. by destruct (sameTarget ex b).
Qed.

Lemma PutSurfaceBinding_run b replace s :
  PutSurfaceBinding b replace s =
  let b0 := stamp_binding (UTC (st_clock s (st_ticks s))) b in
  let s0 := (now s).2 in
  match SurfaceBinding_Validate b0 with
  | Ok _ => putSurfaceBindingLocked b0 replace s0
  | Err e => (Err e, s0)
  end.
Proof. unfold PutSurfaceBinding, mbind, M_bind, lift. simpl. by destruct (SurfaceBinding_Validate _). Qed.

Lemma sameTarget_inherit existing b :
  sameTarget (inherit_binding existing b) b = true.
Proof.
  unfold sameTarget, EqualIdentity. simpl. by rewrite !String.eqb_refl, Z.eqb_refl.
Qed.
Lemma sameTarget_refl b : sameTarget b b = true.
Proof. unfold sameTarget, EqualIdentity. by rewrite !String.eqb_refl, Z.eqb_refl. Qed.

(** Writing a surface binding over a stored one. A failed write, whatever
    the reason, leaves every file as it was. Over a binding of another target
    without [replace] it fails with the conflict error. A successful write
    reads back as a binding of the requested target; over a binding of the
    same target it keeps the original creation time and source, and keeps the
    transport binding unless the request names one. *)
Theorem PutSurfaceBinding_spec `{UrlLib} b replace s existing :
  disk_ok (st_disk s) → GetSurfaceBinding (sb_SurfaceID b) s = (Ok existing, s) →
  match PutSurfaceBinding b replace s with
  | (Err _, s') => st_disk s' = st_disk s
  | (Ok _, s') => (replace = true ∨ sameTarget existing b = true) ∧
      ∃ b', GetSurfaceBinding (sb_SurfaceID b) s' = (Ok b', s') ∧ sameTarget b' b = true ∧
        (sameTarget existing b = true →
           sb_CreatedAt b' = sb_CreatedAt existing ∧ sb_Source b' = sb_Source existing ∧
           loc_TransportBindingID (sb_Locator b') =
             if String.eqb (loc_TransportBindingID (sb_Locator b)) ""
             then loc_TransportBindingID (sb_Locator existing)
             else loc_TransportBindingID (sb_Locator b))
  end ∧
  (sameTarget existing b = false → replace = false →
   SurfaceBinding_Validate (stamp_binding (UTC (st_clock s (st_ticks s))) b) = Ok tt →
   (PutSurfaceBinding b replace s).1 = Err ErrConflict).
Proof.
  intros Hd Hg. rewrite PutSurfaceBinding_run. cbv zeta.
  set (b0 := stamp_binding _ b). set (s0 := (now s).2).
  assert (sameTarget existing b0 = sameTarget existing b) as Hst by done.
  unfold GetSurfaceBinding, mbind, M_bind, lift in *. simpl in Hg.
  destruct (need _ _) as [[]|] eqn:Huuid; [|done]. rewrite getSurfaceBindingLocked_run in Hg.
  injection Hg as Hg. unfold read_binding in Hg.
  destruct (surfaceBindingPath (sb_SurfaceID b)) as [k|] eqn:Hk; [|done].
  apply surfaceBindingPath_ok in Hk as Hkid. simpl in Hg. rewrite Hkid in Hg, Hk. clear k Hkid.
  apply result_bind_ok in Hg as (ex & Hex & Hg).
  assert (ex = existing) as -> by by inv_ok. clear Hg.
  destruct (SurfaceBinding_Validate b0) as [[]|e] eqn:Hv; [|done].
  assert (decode_file (d_bindings (st_disk s0) !! sb_SurfaceID b0) = Ok existing) as Hex0 by done.
  pose proof (putSurfaceBinding_cases b0 replace s0 Hd Hv) as Hc.
  rewrite Hex0 in Hc. unfold merged_binding in Hc. rewrite Hst in Hc. split.
  - destruct (putSurfaceBindingLocked b0 replace s0) as [[[]|e] s']; [|done].
    destruct Hc as (b' & Hm & Hread). change (sb_SurfaceID b0) with (sb_SurfaceID b) in Hread.
    rewrite getSurfaceBindingLocked_run, Hread.
    destruct (sameTarget existing b); simpl in Hm.
    + injection Hm as <-. split; [by right|]. eexists. split; [done|].
      split; [apply (sameTarget_inherit existing b0)|done].
    + destruct replace; [|done]. injection Hm as <-. split; [by left|]. eexists. split; [done|].
      split; [apply (sameTarget_refl b)|done].
  - intros Hdiff -> _. rewrite (putSurfaceBinding_run b0 false s0 _ Hk).
    change (d_bindings (st_disk s0) !! sb_SurfaceID b) with (d_bindings (st_disk s0) !! sb_SurfaceID b0).
    rewrite Hex0. simpl. by rewrite Hst, Hdiff.
Qed.

(** ** Validated writes *)

Lemma view_session_identity d l l' p :
  locator_ok l → locator_ok l' → skey l = skey l' →
  view_session d l = Ok p → view_session d l' = Ok p.
Proof.
  intros Hl Hl' Hk Hv. unfold view_session, read_session in *.
  rewrite remoteSessionPath_valid in * by done. simpl in *. rewrite <- Hk.
  replace (loc_DeviceID l') with (loc_DeviceID l) by (by injection Hk).
  destruct (decode_file _) as [q|]; [|done]. simpl in *.
  destruct (RemoteSessionProjection_Validate q) as [[]|] eqn:Hq; [|done]. simpl in *.
  destruct (EqualIdentity (rs_Locator q) l) eqn:He; [|done]. simpl in Hv.
  assert (EqualIdentity (rs_Locator q) l' = true) as ->; [|done].
  apply projection_locator_ok in Hq. apply EqualIdentity_skey; [done..|]. rewrite <- Hk.
  by apply EqualIdentity_skey.
Qed.

Lemma ResolveSurfaceBinding_run id s b q peer :
  uuidRE id = true → read_binding (st_disk s) id = Ok b →
  locator_ok (sb_Locator b) → read_session (st_disk s) (sb_Locator b) = Ok q →
  optional (read_peer (st_disk s) (loc_DeviceID (sb_Locator b))) = Ok peer →
  ResolveSurfaceBinding id s =
  (Ok (mkResolved b (Some (effectiveSessionProjection q peer)) peer
        (match peer with Some ps => ps_Freshness ps | None => FreshnessStale end)
        (rs_Freshness (effectiveSessionProjection q peer))), s).
Proof.
  intros Hid Hb Hl Hq Hp. unfold ResolveSurfaceBinding, mbind, M_bind, lift. rewrite Hid. simpl.
  rewrite getSurfaceBindingLocked_run, Hb, getPeerOpt_run, Hp, remoteSessionPath_valid by done.
  unfold read_session in Hq. rewrite remoteSessionPath_valid in Hq by done. simpl in Hq.
  unfold try, readJSONFile, mbind, M_bind, gets, lift. simpl.
  destruct (decode_file _) as [p|]; [|done]. simpl in Hq.
  destruct (RemoteSessionProjection_Validate p) as [[]|]; [|done]. simpl in Hq.
  destruct (EqualIdentity _ _); [|done]. by injection Hq as ->.
Qed.

Lemma binding_locator_ok b : SurfaceBinding_Validate b = Ok tt → locator_ok (sb_Locator b).
Proof.
  unfold SurfaceBinding_Validate. intros Hv.
  repeat (apply result_bind_ok in Hv as ([] & ?E & Hv)). by apply locator_Validate_ok.
Qed.

(** A validated binding write and the later resolution agree: when
    [ValidateAndPutSurfaceBinding] succeeds, resolving the surface in the state
    it leaves returns the very same answer (stored binding, session projection,
    peer record, peer freshness and effective freshness), and the session it
    names was known and not gone. *)
Theorem ValidateAndPut_agrees_with_Resolve b replace s r s' :
  ValidateAndPutSurfaceBinding b replace s = (Ok r, s') →
  ResolveSurfaceBinding (sb_SurfaceID b) s' = (Ok r, s') ∧ rb_EffectiveFreshness r ≠ FreshnessGone.
Proof.
  unfold ValidateAndPutSurfaceBinding. intros Hr.
  apply bind_run_ok in Hr as (t & s1 & [= <- <-] & Hr). simpl in Hr.
  set (b0 := stamp_binding _ b) in *. set (s1 := mkStore _ _ _ _ _ _ _) in Hr.
  apply bind_run_ok in Hr as ([] & s2 & [= Hv <-] & Hr).
  apply bind_run_ok in Hr as (p & s2 & Hp & Hr). rewrite getRemoteSessionLocked_run in Hp.
  injection Hp as Hp <-.
  apply bind_run_ok in Hr as ([] & s2 & [= Hid <-] & Hr).
  apply bind_run_ok in Hr as ([] & s2 & [= Hng <-] & Hr).
  apply bind_run_ok in Hr as ([] & s2 & Hput & Hr).
  pose proof (putSurfaceBinding_outcome b0 replace s1) as Hw. rewrite Hput in Hw.
  destruct Hw as (b' & Hk & Hm & Hd).
  apply bind_run_ok in Hr as (stored & s3 & Hst & Hr). rewrite getSurfaceBindingLocked_run in Hst.
  injection Hst as Hst <-.
  apply bind_run_ok in Hr as (peer & s3 & Hpeer & Hr). rewrite getPeerOpt_run in Hpeer.
  injection Hpeer as Hpeer <-. injection Hr as <- <-.
  apply binding_locator_ok in Hv as Hl0. change (sb_SurfaceID b0) with (sb_SurfaceID b) in *.
  assert (stored = b' ∧ SurfaceBinding_Validate b' = Ok tt) as [-> Hv'].
  { unfold read_binding in Hst. rewrite Hk in Hst. simpl in Hst. rewrite Hd in Hst. simpl in Hst.
    rewrite lookup_insert_eq, decode_written in Hst. by inv_ok. }
  apply merged_binding_locator in Hm. apply binding_locator_ok in Hv' as Hl'.
  assert (loc_DeviceID (sb_Locator b') = loc_DeviceID (sb_Locator b0)) as Hdev by by injection Hm.
  assert (read_session (st_disk s2) (sb_Locator b') = read_session (st_disk s1) (sb_Locator b')) as Hrs
    by (apply read_session_ne; by rewrite Hd).
  assert (view_session (st_disk s1) (sb_Locator b') = Ok p) as Hp'.
  { by apply (view_session_identity _ (sb_Locator b0)). }
  unfold view_session in Hp'. rewrite <- Hrs in Hp'. apply result_bind_ok in Hp' as (q & Hq & Hp').
  assert (optional (read_peer (st_disk s1) (loc_DeviceID (sb_Locator b'))) = Ok peer) as Hpr.
  { rewrite Hdev, <- Hpeer. f_equal. symmetry. apply read_peer_ne. by rewrite Hd. }
  rewrite Hpr in Hp'.
  simpl in Hp'. injection Hp' as Hp'.
  rewrite (ResolveSurfaceBinding_run _ _ b' q peer), Hp'; try done.
  - split; [done|]. simpl. apply need_ok, negb_true_iff in Hng. intros Hg. rewrite Hg in Hng. done.
  - apply (binding_uuid b0 Hv).
  - by rewrite Hdev.
Qed.
