(* ===== verification/MeshWatch.v ===== *)
(** Change subscriptions: no notification is lost silently. A subscriber gets
    the published changes in order; what it misses comes before a gap
    notification, also when it reads while the store drains its channel. *)

From S2P Require Import Prelude GoText MeshTypes MeshStore MeshFreshness MeshFiles MeshSync.
From S2P Require Import MeshInventory MeshBindings MeshStoreFacts MeshListFacts.
From S2P Require Import MeshInvariant.
From stdpp Require Import base gmap strings list fin_maps sorting.
From Stdlib Require Import ZArith Lia.

Open Scope Z_scope.

(** ** Any relation the substrate respects, every operation respects *)

Section Substrate.
Context `{UrlLib} (R : relation Store) `{!PreOrder R}.
Context (R_now : respects R now)
  (R_publish : ∀ k e key, respects R (publishLocked k e key))
  (R_write : ∀ (K A : Type) (EK : EqDecision K) (CK : Countable K) (C : Collection K A) (k : K) (v : A),
     respects R (writeJSONLocked k v))
  (R_remove : ∀ k, respects R (removeRegularFile (A:=SurfaceBinding) (k : string))).

Lemma R_pure {A} (r : Store → result MeshError A) m : (∀ s, m s = (r s, s)) → respects R m.
Proof using All. intros Hm s. by rewrite Hm. Qed.
Lemma R_read {K A} `{Collection K A} (k : K) : respects R (readJSONFile (A:=A) k).
Proof using All. by intros s. Qed.
Lemma R_list {K A} `{Collection K A} (accept : K → A → check) keep : respects R (list_files (A:=A) accept keep).
Proof using All. by intros s. Qed.
#[local] Hint Resolve R_now R_publish R_write R_remove R_read R_list : go.

Lemma R_getPeerOpt dev : respects R (getPeerOpt dev).
Proof using All. eapply R_pure. intros. apply getPeerOpt_run. Qed.
Lemma R_getPeerOrNew dev : respects R (getPeerOrNew dev).
Proof using All. eapply R_pure. intros. apply getPeerOrNew_run. Qed.
Lemma R_listSessions dev scope : respects R (listRemoteSessionsLocked dev scope).
Proof using All. eapply R_pure. intros. apply listRemoteSessionsLocked_run. Qed.
Lemma R_getRemoteSession l : respects R (getRemoteSessionLocked l).
Proof using All. eapply R_pure. intros. apply getRemoteSessionLocked_run. Qed.
#[local] Hint Resolve R_getPeerOpt R_getPeerOrNew R_listSessions R_getRemoteSession : go.

Lemma R_writePeer p : respects R (writePeerLocked p).
Proof using All. unfold writePeerLocked. respects. Qed.
Lemma R_write_session c p : respects R (write_session_as c p).
Proof using All. unfold write_session_as, writeRemoteSessionLocked. respects. Qed.
Lemma R_write_artifact c a : respects R (write_artifact_as c a).
Proof using All. unfold write_artifact_as, writeRemoteArtifactLocked. respects. Qed.
Lemma R_listArtifacts dev kind : respects R (listRemoteArtifactsRawLocked dev kind).
Proof using All. unfold listRemoteArtifactsRawLocked, list_artifact_files. respects. Qed.
#[local] Hint Resolve R_writePeer R_write_session R_write_artifact R_listArtifacts : go.

Lemma R_markSyncing d ep only sess art : respects R (markPeerInventoriesSyncingLocked d ep only sess art).
Proof using All.
  unfold markPeerInventoriesSyncingLocked, demote_sessions, demote_artifacts. respects.
Qed.
Lemma R_putBinding b r : respects R (putSurfaceBindingLocked b r).
Proof using All. unfold putSurfaceBindingLocked. respects. Qed.
Lemma R_getBinding id : respects R (getSurfaceBindingLocked id).
Proof using All. unfold getSurfaceBindingLocked. respects. Qed.
#[local] Hint Resolve R_markSyncing R_putBinding R_getBinding : go.

Ltac commit_respects :=
  unfold commitSnapshot, commitSessionInventory, commitArtifactInventory,
    validateSnapshotCursorLocked, validateSessionInventoryCursorLocked,
    validateArtifactInventoryCursorLocked, write_present, write_gone; respects.
Lemma R_commitSnapshot x : respects R (commitSnapshot x).
Proof using All. commit_respects. Qed.
Lemma R_commitSession x : respects R (commitSessionInventory x).
Proof using All. commit_respects. Qed.
Lemma R_commitArtifact x : respects R (commitArtifactInventory x).
Proof using All. commit_respects. Qed.
#[local] Hint Resolve R_commitSnapshot R_commitSession R_commitArtifact : go.

Lemma run_op_respects o : respects R (run_op o).
Proof using All.
  destruct o; simpl; unfold SetDesiredTopics, MarkPeerSyncing, MarkSessionSyncing, MarkArtifactSyncing,
    MarkPeerDisconnected, BeginSnapshot, Snapshot_Commit, BeginSessionInventory,
    SessionInventory_Commit, BeginArtifactInventory, ArtifactInventory_Commit,
    validateSnapshotCursorLocked, validateSessionInventoryCursorLocked,
    validateArtifactInventoryCursorLocked, markPeerSyncingLocked, markSessionInventorySyncingLocked,
    markArtifactInventorySyncingLocked, PutArtifact, PutSurfaceBinding, ValidateAndPutSurfaceBinding,
    DeleteSurfaceBinding, demote_sessions, demote_artifacts; cbv zeta; respects.
Qed.
End Substrate.

(** ** One subscription *)

(** What the subscriber has received, then what waits for it. *)
Definition received_or_queued (w : Watcher) : list Change := wa_got w ++ ch_buf (wa_ch w).

Definition no_gap (c : Change) : bool := negb (bool_decide (chg_Type c = ChangeGap)).

(** Whatever of the published changes the subscriber has not got and will not
    get comes before a gap it got or will get: after that gap (or from the
    start, when nothing is missing) nothing is left out. *)
Definition accounted (sent told : list Change) : Prop :=
  ∃ lost kept, sent = lost ++ kept ∧
    (lost = [] ∧ told = kept ∨
     ∃ before g e, told = before ++ g :: kept ∧ chg_Type g = ChangeGap ∧
       last lost = Some e ∧ chg_Sequence g = chg_Sequence e).

(** The changes of [l] are numbered one after the other from [last] to [seq]. *)
Fixpoint numbered (last : Z) (l : list Change) (seq : Z) : Prop :=
  match l with
  | [] => last = seq
  | c :: l' => chg_Sequence c = u64_succ last ∧ numbered (chg_Sequence c) l' seq
  end.

Lemma numbered_snoc last l seq c :
  numbered last l seq → chg_Sequence c = u64_succ seq → numbered last (l ++ [c]) (chg_Sequence c).
Proof.
  revert last. induction l as [|x l IH]; simpl; intros last.
  - by intros ->.
  - intros [Hx Hl] Hc. auto.
Qed.

(** What the store's operations on a channel leave alone. *)
Record moves_on (w w' : Watcher) : Prop := {
  mo_cap : ch_cap (wa_ch w') = ch_cap (wa_ch w);
  mo_sent : wa_sent w' = wa_sent w;
  mo_less : received_or_queued w' `sublist_of` received_or_queued w;
}.
#[local] Instance moves_on_preorder : PreOrder moves_on.
Proof. split; [by intros w|]. intros x y z [] []. split; [congruence..|by etrans]. Qed.

Lemma receives_told n w : received_or_queued (receives n w) = received_or_queued w.
Proof. unfold received_or_queued. simpl. by rewrite <- app_assoc, take_drop. Qed.

Lemma raced_told w :
  received_or_queued (raced w) = received_or_queued w ∧ ch_cap (wa_ch (raced w)) = ch_cap (wa_ch w) ∧
  wa_sent (raced w) = wa_sent w ∧ (length (ch_buf (wa_ch (raced w))) ≤ length (ch_buf (wa_ch w)))%nat.
Proof.
  unfold raced. destruct (wa_race w) as [|n rest]; [done|]. rewrite receives_told.
  split_and!; [done..|]. simpl. rewrite length_drop. lia.
Qed.

Lemma raced_moves w : moves_on w (raced w).
Proof. destruct (raced_told w) as (Hb & Hc & Hs & _). split; [done..|by rewrite Hb]. Qed.

Lemma dropped_moves w x b :
  ch_buf (wa_ch w) = x :: b → moves_on w (set_ch (mkChan (ch_cap (wa_ch w)) b) w).
Proof.
  intros Hb. split; [done..|]. unfold received_or_queued. rewrite Hb. simpl.
  apply sublist_app; [done|]. by apply sublist_cons.
Qed.

Lemma drain_rounds_moves fuel w :
  moves_on w (drain_rounds fuel w) ∧
  ((length (ch_buf (wa_ch w)) ≤ fuel)%nat → ch_buf (wa_ch (drain_rounds fuel w)) = []).
Proof.
  revert w. induction fuel as [|fuel IH]; intros w; simpl;
    pose proof (raced_moves w) as Hm; destruct (raced_told w) as (_ & _ & _ & Hl);
    unfold try_recv; destruct (ch_buf (wa_ch (raced w))) as [|x b] eqn:Hb; simpl in Hl; try by split.
  - split; [done|lia].
  - pose proof (dropped_moves _ _ _ Hb) as Hd.
    destruct (IH (set_ch (mkChan (ch_cap (wa_ch (raced w))) b) (raced w))) as [Hi He].
    split; [by do 2 (etrans; [eassumption|])|]. intros Hf. apply He. simpl. lia.
Qed.

Lemma drainChannel_empties w : moves_on w (drainChannel w) ∧ ch_buf (wa_ch (drainChannel w)) = [].
Proof. destruct (drain_rounds_moves (length (ch_buf (wa_ch w))) w) as [? He]. split; [done|by apply He]. Qed.

Lemma select_send_told x w :
  let '(w', sent) := select_send x w in
  ch_cap (wa_ch w') = ch_cap (wa_ch w) ∧ wa_sent w' = wa_sent w ∧
  received_or_queued w' = received_or_queued w ++ (if sent then [x] else []) ∧
  ((length (ch_buf (wa_ch w)) < ch_cap (wa_ch w))%nat → sent = true).
Proof.
  unfold select_send. destruct (raced_told w) as (Hb & Hc & Hs & Hl).
  destruct (try_send (wa_ch (raced w)) x) as [ch|] eqn:Ht.
  - apply try_send_Some in Ht as [_ ->]. simpl. split_and!; [done..| |done].
    rewrite <- Hb. unfold received_or_queued. simpl. by rewrite app_assoc.
  - apply try_send_None in Ht. rewrite app_nil_r. split_and!; [done..|lia].
Qed.

(** The subscription [w] has been sent everything published between the change
    numbers [start] and [seq], and all of it is accounted for. *)
Definition subscribed (start seq : Z) (w : Watcher) : Prop :=
  (0 < ch_cap (wa_ch w))%nat ∧ numbered start (wa_sent w) seq ∧
  accounted (wa_sent w) (received_or_queued w) ∧
  List.filter no_gap (received_or_queued w) `sublist_of` wa_sent w.

Lemma accounted_snoc sent told e : accounted sent told → accounted (sent ++ [e]) (told ++ [e]).
Proof.
  intros (lost & kept & -> & Hk). exists lost, (kept ++ [e]). split; [by rewrite app_assoc|].
  destruct Hk as [[-> ->]|(before & g & l & -> & ?)]; [by left|]. right. exists before, g, l.
  split; [by rewrite <- app_assoc|done].
Qed.

Lemma accounted_gap sent told e g :
  chg_Type g = ChangeGap → chg_Sequence g = chg_Sequence e → accounted (sent ++ [e]) (told ++ [g]).
Proof.
  intros Hg Hs. exists (sent ++ [e]), []. rewrite app_nil_r. split; [done|]. right.
  exists told, g, e. by rewrite last_snoc.
Qed.

Lemma filter_sublist {A} (p : A → bool) l l' : l `sublist_of` l' → List.filter p l `sublist_of` List.filter p l'.
Proof.
  induction 1 as [|x l l' _ IH|x l l' _ IH]; simpl; [done|..]; destruct (p x); auto using sublist_skip, sublist_cons.
Qed.
Lemma filter_snoc (l : list Change) c :
  List.filter no_gap (l ++ [c]) = List.filter no_gap l ++ (if no_gap c then [c] else []).
Proof. rewrite List.filter_app. simpl. by destruct (no_gap c). Qed.

(** One delivery keeps a subscription accounted for, and touches no other. *)
Lemma deliver_subscribed event id w s r s' :
  deliver event (id, w) s = (r, s') →
  st_changeSeq s' = st_changeSeq s ∧
  ∃ w', st_watchers s' = <[id := w']> (st_watchers s) ∧
    ∀ start seq, subscribed start seq w → chg_Sequence event = u64_succ seq →
      subscribed start (chg_Sequence event) w'.
Proof.
  unfold deliver. set (w0 := mkWatcher _ _ _ _). pose proof (select_send_told event w0) as H0.
  destruct (select_send event w0) as [w1 [] ].
  - intros [= <- <-]. split; [done|]. exists w1. split; [done|].
    intros start seq (Hcap & Hn & Ha & Hf) He. destruct H0 as (Hc & Hs & Ht & _).
    change (received_or_queued w0) with (received_or_queued w) in Ht. unfold subscribed. rewrite Hc, Hs, Ht.
    split_and!; [done|by apply (numbered_snoc _ _ seq)|by apply accounted_snoc|].
    rewrite filter_snoc. apply sublist_app; [done|]. destruct (no_gap event); [done|apply sublist_nil_l].
  - unfold mbind, M_bind, now. simpl. set (gap := mkChange _ _ _ _ _).
    destruct (drainChannel_empties w1) as [[Hdc Hds Hdl] Hde].
    pose proof (select_send_told gap (drainChannel w1)) as H1.
    destruct (select_send gap (drainChannel w1)) as [w2 sent2]. intros [= <- <-].
    split; [done|]. exists w2. split; [done|]. intros start seq (Hcap & Hn & Ha & Hf) He.
    destruct H0 as (Hc & Hs & Ht & _), H1 as (Hc1 & Hs1 & Ht1 & Hfree). rewrite app_nil_r in Ht.
    change (received_or_queued w0) with (received_or_queued w) in Ht.
    rewrite Hfree in Ht1 by (rewrite Hde, Hdc, Hc; done).
    unfold subscribed. rewrite Hc1, Hdc, Hc, Hs1, Hds, Hs, Ht1.
    split_and!; [done|by apply (numbered_snoc _ _ seq)|by apply accounted_gap|].
    rewrite filter_snoc, app_nil_r. apply sublist_inserts_r. etrans; [|exact Hf].
    apply filter_sublist. by rewrite <- Ht.
Qed.

#[local] Arguments deliver : simpl never.

Lemma deliveries_subscribed event ws s r s' :
  for_each (deliver event) ws s = (r, s') → NoDup ws.*1 →
  st_changeSeq s' = st_changeSeq s ∧
  (∀ id, id ∉ ws.*1 → st_watchers s' !! id = st_watchers s !! id) ∧
  ∀ id w, (id, w) ∈ ws → ∃ w', st_watchers s' !! id = Some w' ∧
    ∀ start seq, subscribed start seq w → chg_Sequence event = u64_succ seq →
      subscribed start (chg_Sequence event) w'.
Proof.
  revert s. induction ws as [|[id0 w0] ws IH]; intros s; simpl.
  - intros [= <- <-] _. split_and!; try done. by intros ?? ?%elem_of_nil.
  - intros Hr [Hn Hnd]%NoDup_cons. unfold mbind, M_bind in Hr.
    destruct (deliver_silent event (id0, w0) s) as (s1 & H1 & _). rewrite H1 in Hr.
    apply deliver_subscribed in H1 as (Hq1 & w' & Hw1 & Hw').
    destruct (IH s1 Hr Hnd) as (Hq & Hother & Hin). split; [congruence|]. split.
    + intros id [Hne Hni]%not_elem_of_cons. rewrite Hother, Hw1 by done.
      by apply lookup_insert_ne.
    + intros id w [[= -> ->]|Hi]%elem_of_cons; [|by apply Hin].
      exists w'. split; [|done]. rewrite Hother, Hw1 by done. apply lookup_insert_eq.
Qed.

(** The store's subscription [id]. *)
Definition subscription (id start : Z) (s : Store) : Prop :=
  ∃ w, st_watchers s !! id = Some w ∧ subscribed start (st_changeSeq s) w.

Lemma publish_subscribed k e key id start s :
  subscription id start s → subscription id start (publishLocked k e key s).2.
Proof.
  intros (w & Hw & Hs). unfold publishLocked, mbind, M_bind, modify, gets, now. simpl.
  set (event := mkChange _ _ _ _ _). set (s1 := mkStore _ _ _ _ _ _ _).
  destruct (for_each _ _ s1) as [r s2] eqn:Hr.
  apply deliveries_subscribed in Hr as (Hq & _ & Hin); [|apply NoDup_fst_map_to_list].
  destruct (Hin id w) as (w' & Hw' & Hk); [by apply elem_of_map_to_list|].
  exists w'. simpl. rewrite Hq. split; [done|]. by apply (Hk start (st_changeSeq s)).
Qed.

Section Subscriptions.
Context `{UrlLib} (id : Z).

Definition keeps_subscribed (s s' : Store) : Prop :=
  ∀ start, subscription id start s → subscription id start s'.
#[export] Instance keeps_subscribed_preorder : PreOrder keeps_subscribed.
Proof. unfold keeps_subscribed. split; [by intros s|]. intros x y z ?? start ?. auto. Qed.

(** A step that leaves watchers and the change counter alone. *)
Lemma keeps_subscribed_same s s' :
  st_watchers s' = st_watchers s → st_changeSeq s' = st_changeSeq s → keeps_subscribed s s'.
Proof. intros Hw Hq start (w & ?). exists w. by rewrite Hw, Hq. Qed.

Lemma run_op_subscribed o : respects keeps_subscribed (run_op o).
Proof.
  apply run_op_respects; [apply _|..].
  - intros s. by apply keeps_subscribed_same.
  - intros k e key s start. apply publish_subscribed.
  - intros K A EK CK C k v s. unfold writeJSONLocked, io_outcome, mbind, M_bind, gets, modify. simpl.
    apply keeps_subscribed_same; destruct (coll (st_disk s) !! k) as [[]|]; try done;
      by destruct (st_io s) as [|[] ?].
  - intros k s. unfold removeRegularFile, io_outcome, mbind, M_bind, gets, modify. simpl.
    apply keeps_subscribed_same; destruct (d_bindings (st_disk s) !! k) as [[]|]; try done;
      by destruct (st_io s) as [|[] ?].
Qed.

(** The life of the subscription: operations of the store, other
    subscriptions, and receives. *)
Inductive watch_step : relation Store :=
| wstep_op s o r s' : run_op o s = (r, s') → watch_step s s'
| wstep_watch s buffer race id' s' : Watch buffer race s = (id', s') → id' ≠ id → watch_step s s'
| wstep_cancel s id' : id' ≠ id → watch_step s (CancelWatch id' s)
| wstep_recv s id' c s' : RecvWatch id' s = Some (c, s') → watch_step s s'.

Lemma receives_subscribed n start seq w : subscribed start seq w → subscribed start seq (receives n w).
Proof. unfold subscribed. by rewrite receives_told. Qed.

Lemma RecvWatch_run id' s c s' :
  RecvWatch id' s = Some (c, s') →
  ∃ w, st_watchers s !! id' = Some w ∧ head (ch_buf (wa_ch w)) = Some c ∧
       s' = set_watchers (<[id' := receives 1 w]> (st_watchers s)) s.
Proof.
  unfold RecvWatch. destruct (st_watchers s !! id') as [w|]; [|done]. simpl. unfold try_recv.
  destruct (ch_buf (wa_ch w)) as [|x b] eqn:Hb; [done|]. intros [= <- <-]. exists w. by rewrite Hb.
Qed.

Lemma watch_step_subscribed s s' : watch_step s s' → keeps_subscribed s s'.
Proof.
  intros [s0 o r s1 Ho|s0 buffer race id' s1 Hw Hne|s0 id' Hne|s0 id' c s1 Hr] start Hs.
  - pose proof (run_op_subscribed o s0 start Hs) as Hp. by rewrite Ho in Hp.
  - destruct Hs as (w & Hl & ?). unfold Watch in Hw. injection Hw as <- <-.
    exists w. simpl. by rewrite lookup_insert_ne.
  - destruct Hs as (w & Hl & ?). exists w. simpl. by rewrite lookup_delete_ne.
  - destruct Hs as (w & Hl & Hs). apply RecvWatch_run in Hr as (w0 & Hw0 & _ & ->).
    destruct (decide (id' = id)) as [->|Hne].
    + exists (receives 1 w). simpl. rewrite lookup_insert_eq. split; [congruence|].
      by apply receives_subscribed.
    + exists w. simpl. by rewrite lookup_insert_ne.
Qed.

Lemma watch_steps_subscribed s s' : rtc watch_step s s' → keeps_subscribed s s'.
Proof. induction 1 as [|x y z Hxy _ IH]; [done|]. etrans; [by apply watch_step_subscribed|done]. Qed.
End Subscriptions.

(** C7: A subscription loses nothing silently, in any interleaving of store
    operations, other subscriptions and this subscriber's receives, which may
    also fall between the single channel operations of a publication (also in
    the middle of the draining of a full channel). The published changes are
    numbered one after the other from the subscription point to the store's
    counter. Of these the subscriber gets, without repetition and in order,
    all, except that changes are left out before a gap notification: after the
    last gap, numbered as the last change it stands for, received or waiting in
    the channel, or from the start when there is none, nothing is left out. So
    a subscriber that has emptied its channel and got no gap has got
    everything. *)
Theorem Watch_no_silent_loss `{UrlLib} buffer race s id s0 s1 :
  Watch buffer race s = (id, s0) → rtc (watch_step id) s0 s1 →
  ∃ w, st_watchers s1 !! id = Some w ∧
    numbered (st_changeSeq s0) (wa_sent w) (st_changeSeq s1) ∧
    List.filter no_gap (received_or_queued w) `sublist_of` wa_sent w ∧
    accounted (wa_sent w) (received_or_queued w) ∧
    (ch_buf (wa_ch w) = [] → Forall no_gap (wa_got w) → wa_got w = wa_sent w).
Proof.
  intros Hw Hr. assert (subscription id (st_changeSeq s0) s0) as Hs.
  { unfold Watch in Hw. injection Hw as <- <-. eexists. simpl. rewrite lookup_insert_eq.
    split; [done|]. split_and!; [|done|by exists [], []; auto|done].
    simpl. destruct (buffer <? 1) eqn:Hb; [lia|]. apply Z.ltb_ge in Hb. lia. }
  apply (watch_steps_subscribed id _ _ Hr) in Hs as (w & Hl & _ & Hn & Ha & Hf).
  exists w. split_and!; [done..|]. intros He Hg. unfold received_or_queued in Ha. rewrite He, app_nil_r in Ha.
  destruct Ha as (lost & kept & -> & [[-> ->]|(before & g & e & Hgot & Htype & _)]); [done|].
  rewrite Hgot, Forall_app, Forall_cons in Hg. destruct Hg as (_ & Hg & _).
  unfold no_gap in Hg. by rewrite Htype in Hg.
Qed.
