(* ===== verification/HandoffManifest.v ===== *)
(** internal/handoff/manifest.go: the immutable handoff manifest, its
    validators and its digest. *)

From S2P Require Import Prelude GoText Safetext.
From stdpp Require Import base strings list.
From Stdlib Require Import ZArith Lia Ascii.

Open Scope Z_scope.

(** The sentinel errors of internal/handoff; [HErrInvalid] is any formatted
    error, tagged by what it complains about. *)
Inductive HandoffError :=
| HErrNotFound
| HErrManifestConflict
| HErrCASConflict
| HErrIllegalTransition
| HErrAcknowledgementUnavailable
| HErrTargetNotAccepted
| HErrContextNotLoaded
| HErrInvalid (what : string)
| HErrIO (what : string).
#[export] Instance HandoffError_eq_dec : EqDecision HandoffError.
Proof. solve_decision. Defined.

Abbreviation check := (result HandoffError unit).
Definition invalid (what : string) : check := Err (HErrInvalid what).
Definition need (b : bool) (what : string) : check := guard_err b (HErrInvalid what).

Lemma handoff_need_ok b what u : need b what = Ok u ↔ b = true.
Proof. apply guard_err_ok. Qed.

Definition ManifestVersion : Z := 1.
Definition maxArtifacts : nat := 64%nat.
Definition maxGoalRunes : Z := 2048.
Definition maxHistoryBytes : Z := 67108864.
Definition maxPatchBytes : Z := 268435456.
Definition maxRefRunes : Z := 256.

(** ** Patterns *)

Definition safeID (s : string) : bool :=
  head_tail is_alnum (λ c, is_alnum c || is_id_punct c) 0 127 s.
Definition profileScope (s : string) : bool :=
  String.eqb s "root" ||
  match cut_prefix "profile:" s with Some slug => slug_matches slug | None => false end.
Definition slug_word (s : string) : bool :=
  negb (String.eqb s "") && all_chars (λ c, is_alnum c || is_id_punct c) s.
Definition repoSlug (s : string) : bool :=
  match split_on "/" s with [a; b] => slug_word a && slug_word b | _ => false end.
Definition objectID (s : string) : bool := len_between 40 64 s && all_chars is_lower_hex s.
Definition sha256Hex (s : string) : bool := len_between 64 64 s && all_chars is_lower_hex s.

(** ** Data *)

Record SourceSession := mkSourceSession {
  ss_DeviceID : string; ss_ProfileScope : string; ss_SessionID : string }.
Record TargetAgent := mkTargetAgent { ta_DeviceID : string; ta_Profile : string }.
Record GoalSummary := mkGoal { goal_Text : string; goal_Provenance : string; goal_UpdatedAt : Time }.
Record HistoryRef := mkHistory {
  hist_ArtifactID : string; hist_Basename : string; hist_SHA256 : string;
  hist_SizeBytes : Z; hist_ConversationID : string }.

Inductive TransferMode := TransferRemoteBranch | TransferStoredPatch | TransferOther (raw : string).
Inductive RepositoryCleanliness := RepositoryClean | RepositoryDirty | CleanlinessOther (raw : string).

Record StoredPatchRef := mkPatch {
  patch_ArtifactID : string; patch_SHA256 : string; patch_SizeBytes : Z; patch_ResultTree : string }.
Record RepositorySnapshot := mkRepository {
  repo_ProjectSlug : string; repo_RepoSlug : string; repo_Branch : string;
  repo_SourceHead : string; repo_BaseCommit : string; repo_TreeDigest : string;
  repo_Cleanliness : RepositoryCleanliness; repo_Transfer : TransferMode;
  repo_Patch : option StoredPatchRef }.

Record ArtifactRepoRef := mkArtifactRepo { ar_Repo : string; ar_Commit : string }.
Record ArtifactSessionRef := mkArtifactSession { as_ProfileScope : string; as_SessionID : string }.
Record ArtifactRef := mkArtifactRef {
  aref_Kind : string; aref_ID : string;
  aref_Repo : option ArtifactRepoRef; aref_Session : option ArtifactSessionRef }.

Inductive ValidationState := ValidationNotRun | ValidationPassed | ValidationFailed
| ValidationOther (raw : string).
Record ValidationEvidence := mkEvidence {
  val_State : ValidationState; val_RepositoryRevision : string; val_CompletedAt : option Time }.

Record Manifest := mkManifest {
  m_SchemaVersion : Z;
  m_HandoffID : string;
  m_TraceID : string;
  m_ParentHandoffID : string;
  m_Source : SourceSession;
  m_SourceAgent : string;
  m_Target : TargetAgent;
  m_Goal : GoalSummary;
  m_History : HistoryRef;
  m_Repository : RepositorySnapshot;
  (** [None] is a nil slice *)
  m_Artifacts : option (list ArtifactRef);
  m_Validation : ValidationEvidence;
  m_CreatedAt : Time;
}.

#[export] Instance TransferMode_eq_dec : EqDecision TransferMode.
Proof. solve_decision. Defined.
#[export] Instance Cleanliness_eq_dec : EqDecision RepositoryCleanliness.
Proof. solve_decision. Defined.

(** ** Validators *)

Definition validateID (name value : string) : check := need (safeID value) name.

Definition validateUTCTime (name : string) (t : Time) : check :=
  need (negb (IsZero t) && t_utc t) name.

Fixpoint drop_spaces (l : list Z) : list Z :=
  match l with r :: l' => if is_space r then drop_spaces l' else l | [] => [] end.
(** The runes of [strings.TrimSpace(value)] *)
Definition trim_runes (value : string) : list Z :=
  reverse (drop_spaces (reverse (drop_spaces (runes value)))).

Definition validateOperatorText (name value : string) (maxRunes : Z) (required : bool) : check :=
  let trimmed := trim_runes value in
  _ ← need (negb (required && bool_decide (trimmed = []))) name;
  _ ← need (Z.of_nat (length trimmed) <=? maxRunes) name;
  _ ← need (forallb (λ r, negb (is_control r)) trimmed) name;
  need (negb (ContainsCredentialLike trimmed)) name.

Definition rune_in (s : string) (r : Z) : bool := existsb (Z.eqb r) (runes s).

Definition validateOpaqueRevision (value : string) : check :=
  _ ← need (negb (String.eqb value "") && (rune_count value <=? 128)) "validation revision";
  need (forallb (λ r, negb (is_control r || is_space r || rune_in "/\:=" r)) (runes value))
       "validation revision contains unsafe characters".

Definition validateGitRef (value : string) : check :=
  _ ← need (negb (String.eqb value "" || (maxRefRunes <? rune_count value) ||
        has_prefix "-" value || has_prefix "/" value || has_suffix "/" value ||
        has_prefix "." value || has_suffix "." value || contains ".." value ||
        contains "//" value || contains "@{" value || contains "\" value ||
        has_suffix ".lock" value)) "branch";
  _ ← need (forallb (λ component, negb (String.eqb component "" || has_prefix "." component ||
                       has_suffix ".lock" component)) (split_on "/" value)) "branch";
  need (forallb (λ r, negb ((r <=? 32) || (r =? 127) || rune_in "~^:?*[" r)) (runes value)) "branch".

Definition SourceSession_validate (s : SourceSession) : check :=
  _ ← validateID "device_id" (ss_DeviceID s);
  _ ← need (profileScope (ss_ProfileScope s)) "profile_scope";
  validateID "session_id" (ss_SessionID s).

Definition TargetAgent_validate (t : TargetAgent) : check :=
  _ ← validateID "device_id" (ta_DeviceID t);
  validateID "profile" (ta_Profile t).

Definition GoalSummary_validate (g : GoalSummary) : check :=
  _ ← validateOperatorText "text" (goal_Text g) maxGoalRunes true;
  _ ← need (String.eqb (goal_Provenance g) "explicit_operator") "provenance";
  validateUTCTime "updated_at" (goal_UpdatedAt g).

(** [filepath.Base(h) != h] is implied by the separator check for a non-empty
    name: a name without "/" is its own base. *)
Definition HistoryRef_Validate (h : HistoryRef) : check :=
  let unsafe c := char_is "/" c || (byte_val c =? 92) || (byte_val c =? 0) ||
                  (byte_val c =? 13) || (byte_val c =? 10) in
  _ ← validateID "artifact_id" (hist_ArtifactID h);
  _ ← need (negb (String.eqb (hist_Basename h) "" || (255 <? rune_count (hist_Basename h)) ||
                  String.eqb (hist_Basename h) "." || String.eqb (hist_Basename h) ".." ||
                  contains_any unsafe (hist_Basename h))) "history basename";
  _ ← need (sha256Hex (hist_SHA256 h)) "history sha256";
  _ ← need ((0 <? hist_SizeBytes h) && (hist_SizeBytes h <=? maxHistoryBytes)) "history size_bytes";
  if String.eqb (hist_ConversationID h) "" then Ok tt
  else validateID "conversation_id" (hist_ConversationID h).

Definition StoredPatchRef_validate (p : StoredPatchRef) : check :=
  _ ← validateID "patch artifact_id" (patch_ArtifactID p);
  _ ← need (sha256Hex (patch_SHA256 p)) "patch sha256";
  _ ← need ((0 <? patch_SizeBytes p) && (patch_SizeBytes p <=? maxPatchBytes)) "patch size_bytes";
  need (objectID (patch_ResultTree p)) "patch result_tree".

Definition RepositorySnapshot_validate (r : RepositorySnapshot) : check :=
  _ ← validateID "project_slug" (repo_ProjectSlug r);
  _ ← need (repoSlug (repo_RepoSlug r) && negb (contains ".." (repo_RepoSlug r))) "repo_slug";
  _ ← validateGitRef (repo_Branch r);
  _ ← need (objectID (repo_SourceHead r)) "source_head";
  _ ← need (objectID (repo_BaseCommit r)) "base_commit";
  _ ← need (objectID (repo_TreeDigest r)) "tree_digest";
  _ ← (match repo_Cleanliness r with CleanlinessOther _ => invalid "cleanliness" | _ => Ok tt end);
  match repo_Transfer r with
  | TransferRemoteBranch =>
      _ ← need (match repo_Patch r with None => true | Some _ => false end)
           "remote_branch transfer must not contain a patch";
      need (bool_decide (repo_Cleanliness r = RepositoryClean))
           "remote_branch transfer requires a clean repository"
  | TransferStoredPatch =>
      match repo_Patch r with
      | None => invalid "stored_patch transfer requires a patch"
      | Some p =>
          _ ← StoredPatchRef_validate p;
          need (String.eqb (patch_ResultTree p) (repo_TreeDigest r))
               "stored patch result_tree must equal repository tree_digest"
      end
  | TransferOther _ => invalid "transfer"
  end.

Definition artifact_kinds : list string :=
  ["goal"; "session_history"; "document"; "branch"; "commit"; "pull_request"].

Definition ArtifactRef_validate (a : ArtifactRef) : check :=
  _ ← need (bool_decide (aref_Kind a ∈ artifact_kinds)) "kind";
  _ ← validateID "id" (aref_ID a);
  _ ← (match aref_Repo a with
       | None => Ok tt
       | Some r =>
           _ ← need (repoSlug (ar_Repo r) && negb (contains ".." (ar_Repo r))) "artifact repo";
           need (String.eqb (ar_Commit r) "" || objectID (ar_Commit r)) "artifact repo commit"
       end);
  match aref_Session a with
  | None => Ok tt
  | Some s =>
      _ ← need (profileScope (as_ProfileScope s)) "artifact profile_scope";
      validateID "artifact session_id" (as_SessionID s)
  end.

(** The loop over the artifacts: each is valid and repeats no earlier one. *)
Fixpoint validateArtifacts (earlier l : list ArtifactRef) : check :=
  match l with
  | [] => Ok tt
  | a :: rest =>
      _ ← ArtifactRef_validate a;
      _ ← need (negb (existsb (λ e, String.eqb (aref_Kind e) (aref_Kind a) &&
                                    String.eqb (aref_ID e) (aref_ID a)) earlier)) "duplicate artifact";
      validateArtifacts (earlier ++ [a]) rest
  end.

Definition ValidationEvidence_validate (v : ValidationEvidence) (repository : RepositorySnapshot) : check :=
  match val_State v with
  | ValidationNotRun =>
      need (String.eqb (val_RepositoryRevision v) "" &&
            bool_decide (val_CompletedAt v = None)) "not_run validation"
  | ValidationPassed | ValidationFailed =>
      _ ← validateOpaqueRevision (val_RepositoryRevision v);
      expected ← (match repo_Transfer repository with
                  | TransferStoredPatch =>
                      match repo_Patch repository with
                      | None => Err (HErrInvalid "stored_patch validation requires repository patch")
                      | Some p =>
                          _ ← need (String.eqb (patch_ResultTree p) (repo_TreeDigest repository))
                                   "stored_patch validation revision";
                          mret (patch_ResultTree p)
                      end
                  | _ => Ok (repo_SourceHead repository)
                  end);
      _ ← need (String.eqb (val_RepositoryRevision v) expected) "validation repository_revision";
      match val_CompletedAt v with
      | None => invalid "completed validation requires completed_at"
      | Some t => validateUTCTime "completed_at" t
      end
  | ValidationOther _ => invalid "validation state"
  end.

Definition Manifest_Validate (m : Manifest) : check :=
  _ ← need (m_SchemaVersion m =? ManifestVersion) "manifest schema version";
  _ ← validateID "handoff_id" (m_HandoffID m);
  _ ← validateID "trace_id" (m_TraceID m);
  _ ← (if String.eqb (m_ParentHandoffID m) "" then Ok tt else
         _ ← validateID "parent_handoff_id" (m_ParentHandoffID m);
         need (negb (String.eqb (m_ParentHandoffID m) (m_HandoffID m)))
              "parent_handoff_id must differ from handoff_id");
  _ ← SourceSession_validate (m_Source m);
  _ ← validateID "source_agent" (m_SourceAgent m);
  _ ← TargetAgent_validate (m_Target m);
  _ ← need (negb (String.eqb (ss_DeviceID (m_Source m)) (ta_DeviceID (m_Target m))))
           "source and target devices must differ";
  _ ← GoalSummary_validate (m_Goal m);
  _ ← HistoryRef_Validate (m_History m);
  _ ← RepositorySnapshot_validate (m_Repository m);
  _ ← (match m_Artifacts m with
       | None => invalid "artifacts must be present"
       | Some l =>
           _ ← need (bool_decide (length l ≤ maxArtifacts)%nat) "artifacts";
           validateArtifacts [] l
       end);
  _ ← ValidationEvidence_validate (m_Validation m) (m_Repository m);
  validateUTCTime "created_at" (m_CreatedAt m).

(** [hex(sha256(json.Marshal(m)))]: the encoding and the hash are library code
    the source uses only through their determinism, so the composition is an
    argument of the model; every theorem holds for any such function. *)
Class DigestLib := { marshal_sha256 : Manifest → string; text_sha256 : string → string }.

Definition Manifest_Digest `{DigestLib} (m : Manifest) : result HandoffError string :=
  _ ← Manifest_Validate m;
  mret (marshal_sha256 m).

#[global] Arguments Manifest_Validate : simpl never.
#[global] Arguments validateID : simpl never.
