(* ===== verification/HandoffRecord.v ===== *)
(** internal/handoff/record.go: the source and target state machines, their
    durable records and what makes a record valid. *)

From S2P Require Import Prelude GoText HandoffManifest.
From stdpp Require Import base strings list.
From Stdlib Require Import ZArith Lia Ascii.

Open Scope Z_scope.

Definition RecordVersion : Z := 1.

(** ** States *)

Inductive SourceState :=
| SourceQueued | SourcePreparingRemote | SourceRemotePrepared | SourceLaunchingRemote
| SourceAccepted | SourceRetryWait | SourceLaunchRetryWait | SourceFailed
| SourceOther (raw : string).
Inductive TargetState :=
| TargetReceived | TargetValidating | TargetPrepared | TargetWaitingAssets
| TargetLaunching | TargetLaunchWaitingAssets | TargetAccepted | TargetRejected
| TargetOther (raw : string).
Inductive FailureCode :=
| FailureUnavailable | FailureUnauthorized | FailureInvalidManifest | FailureConflict
| FailureMissingAsset | FailureVerification | FailureLaunch | FailureInternal
| FailureOther (raw : string).

#[export] Instance SourceState_eq_dec : EqDecision SourceState.
Proof. solve_decision. Defined.
#[export] Instance TargetState_eq_dec : EqDecision TargetState.
Proof. solve_decision. Defined.
#[export] Instance FailureCode_eq_dec : EqDecision FailureCode.
Proof. solve_decision. Defined.

Definition validSourceState (s : SourceState) : bool :=
  match s with SourceOther _ => false | _ => true end.
Definition validTargetState (s : TargetState) : bool :=
  match s with TargetOther _ => false | _ => true end.

Definition legalSourceTransition (from to : SourceState) : bool :=
  match from, to with
  | SourceQueued, (SourcePreparingRemote | SourceFailed)
  | SourcePreparingRemote, (SourceRemotePrepared | SourceRetryWait | SourceFailed)
  | SourceRemotePrepared, (SourceLaunchingRemote | SourceRetryWait | SourceFailed)
  | SourceLaunchingRemote, (SourceAccepted | SourceLaunchRetryWait | SourceFailed)
  | SourceRetryWait, (SourcePreparingRemote | SourceFailed)
  | SourceLaunchRetryWait, (SourceLaunchingRemote | SourceFailed) => true
  | _, _ => false
  end.

Definition legalTargetTransition (from to : TargetState) : bool :=
  match from, to with
  | TargetReceived, (TargetValidating | TargetRejected)
  | TargetValidating, (TargetPrepared | TargetWaitingAssets | TargetRejected)
  | TargetWaitingAssets, (TargetValidating | TargetRejected)
  | TargetPrepared, (TargetLaunching | TargetRejected)
  | TargetLaunching, (TargetAccepted | TargetLaunchWaitingAssets | TargetRejected)
  | TargetLaunchWaitingAssets, (TargetLaunching | TargetRejected) => true
  | _, _ => false
  end.

(** ** Records *)

Record Failure := mkFailure {
  fail_Code : FailureCode; fail_Message : string; fail_Retryable : bool; fail_At : Time }.
Record TargetLocator := mkTargetLocator {
  tl_DeviceID : string; tl_ProfileScope : string; tl_SessionID : string }.
#[export] Instance TargetLocator_eq_dec : EqDecision TargetLocator.
Proof. solve_decision. Defined.

Definition ContextLoadedPhase : string := "context_loaded".
Record ContextAcknowledgement := mkAck {
  ack_Phase : string; ack_ManifestDigest : string; ack_TargetLocator : TargetLocator;
  ack_AcknowledgedAt : Time }.
#[export] Instance ContextAcknowledgement_eq_dec : EqDecision ContextAcknowledgement.
Proof. solve_decision. Defined.

Inductive RetirementMode := RetirementImmediate | RetirementAfterTurnEnd | ModeOther (raw : string).
Inductive RetirementState := RetirementPending | RetirementRetired | RetirementOther (raw : string).
#[export] Instance RetirementMode_eq_dec : EqDecision RetirementMode.
Proof. solve_decision. Defined.
#[export] Instance RetirementState_eq_dec : EqDecision RetirementState.
Proof. solve_decision. Defined.

Record TurnObservation := mkTurn { turn_Count : Z; turn_LastEndAt : option Time }.

Record SourceRetirement := mkRetirement {
  ret_Mode : RetirementMode;
  ret_State : RetirementState;
  ret_RequestedAt : Time;
  ret_TimeoutSeconds : Z;
  ret_BaselineTurnCount : Z;
  ret_BaselineLastTurnEndAt : option Time;
  ret_RetiredAt : option Time }.

(** The fields [SourceRecord] and [TargetRecord] have in common. *)
Record RecordBody := mkBody {
  rb_Version : Z;
  rb_Manifest : Manifest;
  rb_Digest : string;
  rb_Attempts : Z;
  rb_NextRetry : option Time;
  rb_Failure : option Failure;
  rb_TargetLocator : option TargetLocator;
  rb_ContextLoaded : option ContextAcknowledgement;
  rb_Revision : Z;
  rb_Updated : Time }.

Record SourceRecord := mkSource {
  src_State : SourceState; src_Body : RecordBody; src_Retirement : option SourceRetirement }.
Record TargetRecord := mkTarget { tgt_State : TargetState; tgt_Body : RecordBody }.

Record Transition := mkTransition {
  tr_At : Time; tr_NextRetry : option Time; tr_Failure : option Failure;
  tr_TargetLocator : option TargetLocator }.

(** ** Validators *)

Definition TargetLocator_validate (l : TargetLocator) : check :=
  _ ← validateID "target locator device_id" (tl_DeviceID l);
  _ ← need (profileScope (tl_ProfileScope l)) "target locator profile_scope";
  validateID "target locator session_id" (tl_SessionID l).

Definition ContextAcknowledgement_validate (a : ContextAcknowledgement) (digest : string)
    (locator : TargetLocator) : check :=
  _ ← need (String.eqb (ack_Phase a) ContextLoadedPhase) "acknowledgement phase";
  _ ← need (String.eqb (ack_ManifestDigest a) digest && bool_decide (ack_TargetLocator a = locator))
           "acknowledgement identity does not match accepted handoff";
  _ ← need (negb (IsZero (ack_AcknowledgedAt a)) && t_utc (ack_AcknowledgedAt a))
           "acknowledgement timestamp must be non-zero UTC";
  TargetLocator_validate (ack_TargetLocator a).

Definition utc_nonzero (t : Time) : bool := negb (IsZero t) && t_utc t.

Definition SourceRetirement_validate (r : SourceRetirement) : check :=
  _ ← need (match ret_Mode r with ModeOther _ => false | _ => true end) "retirement mode";
  _ ← need (match ret_State r with RetirementOther _ => false | _ => true end) "retirement state";
  _ ← need (utc_nonzero (ret_RequestedAt r)) "retirement requested_at";
  _ ← need ((1 <=? ret_TimeoutSeconds r) && (ret_TimeoutSeconds r <=? 300)) "retirement timeout_seconds";
  _ ← need (0 <=? ret_BaselineTurnCount r) "retirement baseline turn count";
  _ ← need (match ret_BaselineLastTurnEndAt r with Some t => utc_nonzero t | None => true end)
           "retirement baseline turn end";
  match ret_State r, ret_RetiredAt r with
  | RetirementPending, Some _ => invalid "pending retirement must not have retired_at"
  | RetirementRetired, None => invalid "retired retirement requires a valid retired_at"
  | RetirementRetired, Some t =>
      need (utc_nonzero t && negb (Before t (ret_RequestedAt r)))
           "retired retirement requires a valid retired_at"
  | _, _ => Ok tt
  end.

Definition failure_detail_char (c : ascii) : bool :=
  negb ((byte_val c =? 13) || (byte_val c =? 10) || (byte_val c =? 0)).

Definition Failure_validate (f : Failure) : check :=
  _ ← need (match fail_Code f with FailureOther _ => false | _ => true end) "failure code";
  _ ← need ((rune_count (fail_Message f) <=? 256) && all_chars failure_detail_char (fail_Message f))
           "failure detail";
  need (utc_nonzero (fail_At f)) "failure timestamp".

(** [validateRecordFields]; the last five arguments say what the state allows. *)
Definition validateRecordFields (target : TargetAgent) (nextRetry : option Time)
    (failure : option Failure) (locator : option TargetLocator) (revision : Z) (updated : Time)
    (retry terminalFailure locatorAllowed locatorRequired : bool) : check :=
  _ ← need (negb (revision =? 0)) "record revision must be positive";
  _ ← need (utc_nonzero updated) "record updated must be a non-zero UTC timestamp";
  _ ← (if retry then
         _ ← need (match nextRetry with Some t => After t updated && t_utc t | None => false end)
                  "retry state requires a later UTC next_retry";
         need (match failure with Some f => fail_Retryable f | None => false end)
              "retry state requires a retryable failure"
       else need (match nextRetry with None => true | Some _ => false end)
                 "state must not have next_retry");
  _ ← need (negb (terminalFailure && match failure with None => true | Some _ => false end))
           "state requires a failure";
  _ ← need (negb (negb retry && negb terminalFailure &&
                  match failure with Some _ => true | None => false end))
           "state must not have a failure";
  _ ← (match failure with
       | None => Ok tt
       | Some f =>
           _ ← Failure_validate f;
           need (negb (After (fail_At f) updated)) "failure timestamp is after record update"
       end);
  match locator with
  | None => need (negb locatorRequired) "state requires a target locator"
  | Some l =>
      _ ← need locatorAllowed "state must not have a target locator";
      _ ← TargetLocator_validate l;
      need (String.eqb (tl_DeviceID l) (ta_DeviceID target))
           "target locator device does not match manifest target"
  end.

Definition source_retry (s : SourceState) : bool :=
  match s with SourceRetryWait | SourceLaunchRetryWait => true | _ => false end.
Definition source_failed (s : SourceState) : bool :=
  match s with SourceFailed => true | _ => false end.
Definition source_accepted (s : SourceState) : bool :=
  match s with SourceAccepted => true | _ => false end.
Definition target_retry (s : TargetState) : bool :=
  match s with TargetWaitingAssets | TargetLaunchWaitingAssets => true | _ => false end.
Definition target_rejected (s : TargetState) : bool :=
  match s with TargetRejected => true | _ => false end.
Definition target_accepted (s : TargetState) : bool :=
  match s with TargetAccepted => true | _ => false end.
Definition target_located (s : TargetState) : bool :=
  match s with TargetLaunching | TargetLaunchWaitingAssets | TargetAccepted => true | _ => false end.

Section Records.
Context `{DigestLib}.

Definition validateStoredManifest (m : Manifest) (digest : string) : check :=
  got ← Manifest_Digest m;
  need (String.eqb digest got) "stored manifest digest mismatch".

(** The context proof of an accepted record. *)
Definition validateContextLoaded (accepted : bool) (b : RecordBody) : check :=
  match rb_ContextLoaded b with
  | None => Ok tt
  | Some ack =>
      match accepted, rb_TargetLocator b with
      | true, Some locator => ContextAcknowledgement_validate ack (rb_Digest b) locator
      | _, _ => invalid "context-loaded proof requires accepted state"
      end
  end.

Definition SourceRecord_validate (r : SourceRecord) : check :=
  let b := src_Body r in
  _ ← need (rb_Version b =? RecordVersion) "source record version";
  _ ← validateStoredManifest (rb_Manifest b) (rb_Digest b);
  _ ← need (validSourceState (src_State r)) "source state";
  _ ← validateRecordFields (m_Target (rb_Manifest b)) (rb_NextRetry b) (rb_Failure b)
        (rb_TargetLocator b) (rb_Revision b) (rb_Updated b)
        (source_retry (src_State r)) (source_failed (src_State r))
        (source_accepted (src_State r)) (source_accepted (src_State r));
  _ ← validateContextLoaded (source_accepted (src_State r)) b;
  match src_Retirement r with
  | None => Ok tt
  | Some ret =>
      _ ← need (source_accepted (src_State r) && bool_decide (is_Some (rb_ContextLoaded b)))
               "source retirement requires verified accepted state";
      SourceRetirement_validate ret
  end.

Definition TargetRecord_validate (r : TargetRecord) : check :=
  let b := tgt_Body r in
  _ ← need (rb_Version b =? RecordVersion) "target record version";
  _ ← validateStoredManifest (rb_Manifest b) (rb_Digest b);
  _ ← need (validTargetState (tgt_State r)) "target state";
  _ ← validateRecordFields (m_Target (rb_Manifest b)) (rb_NextRetry b) (rb_Failure b)
        (rb_TargetLocator b) (rb_Revision b) (rb_Updated b)
        (target_retry (tgt_State r)) (target_rejected (tgt_State r))
        (target_located (tgt_State r)) (target_accepted (tgt_State r));
  validateContextLoaded (target_accepted (tgt_State r)) b.
End Records.

#[global] Arguments SourceRecord_validate {_} _ : simpl never.
#[global] Arguments TargetRecord_validate {_} _ : simpl never.
