(* ===== verification/HandoffStore.v ===== *)
(** internal/handoff/store.go: the durable source and target records, one file
    per handoff, and every operation that creates or advances them. *)

From S2P Require Import Prelude GoText HandoffManifest HandoffRecord.
From stdpp Require Import base gmap strings list fin_maps sorting.
From Stdlib Require Import ZArith Lia Ascii.

Open Scope Z_scope.

(** ** The store *)

(** The outcome of one file replacement: done; failed before the rename, so
    the old file stands; or failed after it (mode or directory sync), so the
    new file stands and an error is returned. *)
Inductive Io := IoOk | IoFailed | IoReplacedWithError.

(** The directory chain under the root: private; too open, which reads refuse
    and writes repair; or not a real directory. *)
Inductive DirState := DirPrivate | DirOpen | DirUnreal.

Record HStore := mkHStore {
  hs_source : gmap string (File SourceRecord);
  hs_target : gmap string (File TargetRecord);
  hs_dirs : DirState;
  (** an unexpected entry in the directory of the side *)
  hs_junk_source : bool;
  hs_junk_target : bool;
  hs_clock : nat → Time;
  hs_ticks : nat;
  hs_io : list Io;
}.

Abbreviation HM := (M HStore HandoffError).

Definition hnow : HM Time := λ s,
  (Ok (hs_clock s (hs_ticks s)),
   mkHStore (hs_source s) (hs_target s) (hs_dirs s) (hs_junk_source s) (hs_junk_target s)
            (hs_clock s) (S (hs_ticks s)) (hs_io s)).

(** ** The two sides *)

(** What the store's shared helpers need of a record type. *)
Class Side (A : Type) := {
  side_files : HStore → gmap string (File A);
  set_side_files : gmap string (File A) → HStore → HStore;
  side_junk : HStore → bool;
  side_validate : A → check;
  side_body : A → RecordBody;
}.

Section Sides.
Context `{DigestLib}.

#[export] Instance source_side : Side SourceRecord := {|
  side_files := hs_source;
  set_side_files m s := mkHStore m (hs_target s) (hs_dirs s) (hs_junk_source s)
                          (hs_junk_target s) (hs_clock s) (hs_ticks s) (hs_io s);
  side_junk := hs_junk_source;
  side_validate := SourceRecord_validate;
  side_body := src_Body;
|}.
#[export] Instance target_side : Side TargetRecord := {|
  side_files := hs_target;
  set_side_files m s := mkHStore (hs_source s) m (hs_dirs s) (hs_junk_source s)
                          (hs_junk_target s) (hs_clock s) (hs_ticks s) (hs_io s);
  side_junk := hs_junk_target;
  side_validate := TargetRecord_validate;
  side_body := tgt_Body;
|}.
End Sides.

Section Files.
Context {A : Type} `{Side A}.

Definition rec_id (r : A) : string := m_HandoffID (rb_Manifest (side_body r)).

(** [readJSONFile] *)
Definition decode_record (f : option (File A)) : result HandoffError A :=
  match f with
  | None => Err HErrNotFound
  | Some Irregular => Err (HErrIO "handoff state file is not regular")
  | Some (Regular perm content) =>
      if negb (Z.land perm 63 =? 0) then Err (HErrIO "handoff state file permissions are too open")
      else match content with None => Err (HErrIO "decode") | Some r => Ok r end
  end.

(** [recordPath]: the only segment that varies is a validated identifier. *)
Definition recordPath (id : string) : result HandoffError string :=
  _ ← validateID "handoff id" id;
  mret id.

(** [validatePath] *)
Definition validatePath (r : A) (id : string) : check :=
  _ ← side_validate r;
  need (String.eqb (rec_id r) id) "record/path mismatch".

Definition verifyPrivateDir : HM unit :=
  d ← gets hs_dirs;
  match d with DirPrivate => mret tt | _ => throw (HErrIO "handoff state directory") end.

Definition getLocked (id : string) : HM A :=
  file ← lift (recordPath id);
  _ ← verifyPrivateDir;
  m ← gets side_files;
  r ← lift (decode_record (m !! file));
  _ ← lift (validatePath r file);
  mret r.

(** [writeJSONFile]: repairs the directory modes, then replaces the file. *)
Definition writeJSONFile (id : string) (r : A) : HM unit :=
  d ← gets hs_dirs;
  match d with
  | DirUnreal => throw (HErrIO "handoff state directory is not real")
  | _ =>
      _ ← modify (λ s, mkHStore (hs_source s) (hs_target s) DirPrivate (hs_junk_source s)
                         (hs_junk_target s) (hs_clock s) (hs_ticks s) (hs_io s));
      m ← gets side_files;
      match m !! id with
      | Some Irregular => throw (HErrIO "refuse to replace non-regular handoff state file")
      | _ =>
          io ← gets (λ s, head (hs_io s));
          _ ← modify (λ s, mkHStore (hs_source s) (hs_target s) (hs_dirs s) (hs_junk_source s)
                             (hs_junk_target s) (hs_clock s) (hs_ticks s) (tail (hs_io s)));
          let put := modify (λ s, set_side_files (<[id := Regular 384 (Some r)]> (side_files s)) s) in
          match io with
          | Some IoFailed => throw (HErrIO "write")
          | Some IoReplacedWithError => _ ← put; throw (HErrIO "sync")
          | _ => put
          end
      end
  end.

(** [recordFiles]: the record files in path order; anything unexpected in
    the directory is refused. *)
Definition recordFiles : HM (list (string * File A)) :=
  _ ← verifyPrivateDir;
  junk ← gets side_junk;
  _ ← lift (need (negb junk) "unexpected handoff state entry");
  m ← gets side_files;
  mret (sort_by_key (λ '(id, _), id +:+ ".json") (map_to_list m)).

Fixpoint read_records (files : list (string * File A)) : result HandoffError (list A) :=
  match files with
  | [] => Ok []
  | (id, f) :: rest =>
      r ← decode_record (Some f);
      _ ← validatePath r id;
      out ← read_records rest;
      mret (r :: out)
  end.

(** [ListSource] and [ListTarget] *)
Definition listRecords : HM (list A) :=
  files ← recordFiles;
  lift (read_records files).
End Files.

#[global] Arguments decode_record {A} f : simpl never.

(** [at := t; if at.IsZero() { at = s.now().UTC() }; if at.Location() != UTC ||
    at.Before(updated) { error }] *)
Definition stepTime (t updated : Time) : HM Time :=
  at_ ← (if IsZero t then (n ← hnow; mret (UTC n)) else mret t);
  _ ← lift (need (t_utc at_ && negb (Before at_ updated))
                 "time must be UTC and not precede the record");
  mret at_.

(** [applyTransition] on a record's fields, with the new state's permissions. *)
Definition applyTransition (b : RecordBody) (t : Transition) (retry terminalFailure locatorAllowed : bool)
    : result HandoffError RecordBody :=
  _ ← need (negb (match tr_TargetLocator t with Some _ => negb locatorAllowed | None => false end))
           "target locator is not allowed in the next state";
  mret (mkBody (rb_Version b) (rb_Manifest b) (rb_Digest b) (rb_Attempts b)
    (if retry then tr_NextRetry t else None)
    (if retry || terminalFailure then tr_Failure t else None)
    (if locatorAllowed
     then match tr_TargetLocator t with Some l => Some l | None => rb_TargetLocator b end
     else None)
    (rb_ContextLoaded b) (rb_Revision b) (rb_Updated b)).

(** [record.Revision++; record.Updated = at] *)
Definition bump (at_ : Time) (b : RecordBody) : RecordBody :=
  mkBody (rb_Version b) (rb_Manifest b) (rb_Digest b) (rb_Attempts b) (rb_NextRetry b) (rb_Failure b)
         (rb_TargetLocator b) (rb_ContextLoaded b) (u64_succ (rb_Revision b)) at_.
Definition count_attempt (b : RecordBody) : RecordBody :=
  mkBody (rb_Version b) (rb_Manifest b) (rb_Digest b) (u32_succ (rb_Attempts b)) (rb_NextRetry b)
         (rb_Failure b) (rb_TargetLocator b) (rb_ContextLoaded b) (rb_Revision b) (rb_Updated b).
Definition set_locator (l : TargetLocator) (b : RecordBody) : RecordBody :=
  mkBody (rb_Version b) (rb_Manifest b) (rb_Digest b) (rb_Attempts b) (rb_NextRetry b) (rb_Failure b)
         (Some l) (rb_ContextLoaded b) (rb_Revision b) (rb_Updated b).
Definition set_context (a : ContextAcknowledgement) (b : RecordBody) : RecordBody :=
  mkBody (rb_Version b) (rb_Manifest b) (rb_Digest b) (rb_Attempts b) (rb_NextRetry b) (rb_Failure b)
         (rb_TargetLocator b) (Some a) (rb_Revision b) (rb_Updated b).

Definition new_body (m : Manifest) (digest : string) (at_ : Time) : RecordBody :=
  mkBody RecordVersion m digest 0 None None None None 1 at_.

Section Operations.
Context `{DigestLib}.

(** ** Creation *)

(** [QueueSource] and [ReceiveTarget]: the record and whether it is a replay. *)
Definition createRecord {A} `{Side A} (fresh : RecordBody → A) (m : Manifest) : HM (A * bool) :=
  digest ← lift (Manifest_Digest m);
  file ← lift (recordPath (m_HandoffID m));
  files ← gets side_files;
  match decode_record (files !! file) with
  | Ok existing =>
      _ ← lift (side_validate existing);
      if negb (String.eqb (rec_id existing) (m_HandoffID m)) ||
         negb (String.eqb (rb_Digest (side_body existing)) digest)
      then throw HErrManifestConflict else mret (existing, true)
  | Err HErrNotFound =>
      at_ ← hnow;
      let r := fresh (new_body m digest (UTC at_)) in
      _ ← lift (side_validate r);
      _ ← writeJSONFile file r;
      mret (r, false)
  | Err e => throw e
  end.

Definition QueueSource : Manifest → HM (SourceRecord * bool) :=
  createRecord (λ b, mkSource SourceQueued b None).
Definition ReceiveTarget : Manifest → HM (TargetRecord * bool) :=
  createRecord (mkTarget TargetReceived).

(** ** Reads *)

Definition GetSource (id : string) : HM SourceRecord :=
  _ ← lift (validateID "handoff id" id); getLocked id.
Definition GetTarget (id : string) : HM TargetRecord :=
  _ ← lift (validateID "handoff id" id); getLocked id.
Definition ListSource : HM (list SourceRecord) := listRecords.
Definition ListTarget : HM (list TargetRecord) := listRecords.

Definition due (at_ : Time) (b : RecordBody) : bool :=
  match rb_NextRetry b with Some t => negb (After t at_) | None => false end.

Definition due_source (at_ : Time) (r : SourceRecord) : bool :=
  source_retry (src_State r) && due at_ (src_Body r).
Definition due_target (at_ : Time) (r : TargetRecord) : bool :=
  target_retry (tgt_State r) && due at_ (tgt_Body r).

Definition runnable_source (at_ : Time) (r : SourceRecord) : bool :=
  match src_State r with
  | SourceQueued | SourcePreparingRemote | SourceLaunchingRemote => true
  | SourceRetryWait | SourceLaunchRetryWait => due at_ (src_Body r)
  | SourceAccepted =>
      match src_Retirement r with
      | Some ret => bool_decide (ret_State ret = RetirementPending)
      | None => false
      end
  | _ => false
  end.
Definition recoverable_target (at_ : Time) (r : TargetRecord) : bool :=
  match tgt_State r with
  | TargetReceived | TargetValidating | TargetLaunching => true
  | TargetWaitingAssets | TargetLaunchWaitingAssets => due at_ (tgt_Body r)
  | _ => false
  end.

Definition select_records {A} `{Side A} (p : A → bool) (at_ : Time) : HM (list A) :=
  _ ← lift (need (negb (IsZero at_)) "time is required");
  records ← listRecords;
  mret (filter (λ r, p r = true) records).

Definition DueSource (at_ : Time) : HM (list SourceRecord) := select_records (due_source at_) at_.
Definition DueTarget (at_ : Time) : HM (list TargetRecord) := select_records (due_target at_) at_.
Definition RunnableSource (at_ : Time) : HM (list SourceRecord) :=
  select_records (runnable_source at_) at_.
Definition RecoverableTarget (at_ : Time) : HM (list TargetRecord) :=
  select_records (recoverable_target at_) at_.

(** ** Transitions *)

Definition TransitionSource (id : string) (expectedRevision : Z) (next : SourceState) (t : Transition)
    : HM SourceRecord :=
  _ ← lift (need (validSourceState next) "source state");
  record ← getLocked (A:=SourceRecord) id;
  _ ← lift (guard_err (rb_Revision (src_Body record) =? expectedRevision) HErrCASConflict);
  _ ← lift (guard_err (legalSourceTransition (src_State record) next) HErrIllegalTransition);
  at_ ← stepTime (tr_At t) (rb_Updated (src_Body record));
  body ← lift (applyTransition (bump at_ (src_Body record)) t (source_retry next)
                 (source_failed next) (source_accepted next));
  let body := match next with SourcePreparingRemote => count_attempt body | _ => body end in
  let r := mkSource next body (src_Retirement record) in
  _ ← lift (SourceRecord_validate r);
  _ ← writeJSONFile id r;
  mret r.

Definition TransitionTarget (id : string) (expectedRevision : Z) (next : TargetState) (t : Transition)
    : HM TargetRecord :=
  _ ← lift (need (validTargetState next) "target state");
  record ← getLocked (A:=TargetRecord) id;
  _ ← lift (guard_err (rb_Revision (tgt_Body record) =? expectedRevision) HErrCASConflict);
  _ ← lift (guard_err (legalTargetTransition (tgt_State record) next) HErrIllegalTransition);
  at_ ← stepTime (tr_At t) (rb_Updated (tgt_Body record));
  body ← lift (applyTransition (bump at_ (tgt_Body record)) t (target_retry next)
                 (target_rejected next) (target_located next));
  let body := match next with TargetValidating => count_attempt body | _ => body end in
  let r := mkTarget next body in
  _ ← lift (TargetRecord_validate r);
  _ ← writeJSONFile id r;
  mret r.

Definition RecordTargetLaunchLocator (id : string) (expectedRevision : Z) (locator : TargetLocator)
    (t : Time) : HM TargetRecord :=
  _ ← lift (TargetLocator_validate locator);
  record ← getLocked (A:=TargetRecord) id;
  let b := tgt_Body record in
  _ ← lift (guard_err (rb_Revision b =? expectedRevision) HErrCASConflict);
  _ ← lift (guard_err (bool_decide (tgt_State record = TargetLaunching)) HErrIllegalTransition);
  _ ← lift (need (String.eqb (tl_DeviceID locator) (ta_DeviceID (m_Target (rb_Manifest b))))
                 "target locator device does not match manifest target");
  match rb_TargetLocator b with
  | Some l => if bool_decide (l = locator) then mret record else throw HErrManifestConflict
  | None =>
      at_ ← stepTime t (rb_Updated b);
      let r := mkTarget (tgt_State record) (bump at_ (set_locator locator b)) in
      _ ← lift (TargetRecord_validate r);
      _ ← writeJSONFile id r;
      mret r
  end.

(** ** Acknowledgement *)

Definition launchMarkerPrefix : string := "arcmux-handoff-v1:".
Definition nul : string := String "000"%char "".
Definition LaunchMarker (handoffID manifestDigest : string) : string :=
  launchMarkerPrefix +:+
  text_sha256 ("arcmux-handoff-prompt-v1" +:+ nul +:+ handoffID +:+ nul +:+ manifestDigest).
Definition validLaunchMarker (marker : string) : bool :=
  match cut_prefix launchMarkerPrefix marker with
  | Some encoded => sha256Hex encoded
  | None => false
  end.

(** The body of the loop of [AcknowledgeTarget] on the matching record. *)
Definition acknowledge_record (id : string) (record : TargetRecord) (phase scope session : string)
    (t : Time) : HM (TargetRecord * bool) :=
  let b := tgt_Body record in
  match tgt_State record, rb_TargetLocator b with
  | TargetAccepted, Some locator =>
      _ ← lift (guard_err (String.eqb (tl_ProfileScope locator) scope &&
                           String.eqb (tl_SessionID locator) session)
                          HErrAcknowledgementUnavailable);
      match rb_ContextLoaded b with
      | Some _ => mret (record, true)
      | None =>
          at_ ← stepTime t (rb_Updated b);
          let ack := mkAck phase (rb_Digest b) locator at_ in
          let r := mkTarget (tgt_State record) (bump at_ (set_context ack b)) in
          _ ← lift (TargetRecord_validate r);
          _ ← writeJSONFile id r;
          mret (r, false)
      end
  | _, _ => throw HErrTargetNotAccepted
  end.

Fixpoint acknowledge_files (marker phase scope session : string) (t : Time)
    (files : list (string * File TargetRecord)) : HM (TargetRecord * bool) :=
  match files with
  | [] => throw HErrAcknowledgementUnavailable
  | (id, f) :: rest =>
      match decode_record (Some f) with
      | Err _ => throw HErrAcknowledgementUnavailable
      | Ok record =>
          if negb (is_ok (validatePath record id)) then throw HErrAcknowledgementUnavailable
          else if negb (String.eqb (LaunchMarker (rec_id record) (rb_Digest (tgt_Body record))) marker)
          then acknowledge_files marker phase scope session t rest
          else acknowledge_record id record phase scope session t
      end
  end.

Definition AcknowledgeTarget (marker phase scope session : string) (t : Time)
    : HM (TargetRecord * bool) :=
  _ ← lift (guard_err (validLaunchMarker marker && String.eqb phase ContextLoadedPhase &&
                       negb (String.eqb scope "") && negb (String.eqb session ""))
                      HErrAcknowledgementUnavailable);
  files ← try (recordFiles (A:=TargetRecord));
  match files with
  | Err _ => throw HErrAcknowledgementUnavailable
  | Ok files => acknowledge_files marker phase scope session t files
  end.

Definition RecordSourceContextLoaded (id : string) (expectedRevision : Z)
    (ack : ContextAcknowledgement) (t : Time) : HM (SourceRecord * bool) :=
  record ← getLocked (A:=SourceRecord) id;
  let b := src_Body record in
  match src_State record, rb_TargetLocator b with
  | SourceAccepted, Some locator =>
      _ ← lift (guard_err (is_ok (ContextAcknowledgement_validate ack (rb_Digest b) locator))
                          HErrManifestConflict);
      match rb_ContextLoaded b with
      | Some known =>
          if bool_decide (known = ack) then mret (record, true) else throw HErrManifestConflict
      | None =>
          _ ← lift (guard_err (rb_Revision b =? expectedRevision) HErrCASConflict);
          at_ ← stepTime t (rb_Updated b);
          let r := mkSource (src_State record) (bump at_ (set_context ack b)) (src_Retirement record) in
          _ ← lift (SourceRecord_validate r);
          _ ← writeJSONFile id r;
          mret (r, false)
      end
  | _, _ => throw HErrTargetNotAccepted
  end.

(** ** Retirement *)

(** A [time.Duration] in nanoseconds. *)
Definition second : Z := 1000000000.

Definition RequestSourceRetirement (id : string) (expectedRevision : Z) (mode : RetirementMode)
    (timeout : Z) (baseline : TurnObservation) (t : Time) : HM (SourceRecord * bool) :=
  _ ← lift (need (match mode with ModeOther _ => false | _ => true end) "retirement mode");
  _ ← lift (need ((second <=? timeout) && (timeout <=? 300 * second) && (Z.rem timeout second =? 0))
                 "retirement timeout");
  _ ← lift (need ((0 <=? turn_Count baseline) &&
                  match turn_LastEndAt baseline with Some e => utc_nonzero e | None => true end)
                 "source turn observation");
  record ← getLocked (A:=SourceRecord) id;
  let b := src_Body record in
  _ ← lift (guard_err (source_accepted (src_State record) && bool_decide (is_Some (rb_ContextLoaded b)))
                      HErrContextNotLoaded);
  match src_Retirement record with
  | Some ret =>
      if bool_decide (ret_Mode ret = mode) && (ret_TimeoutSeconds ret =? Z.quot timeout second)
      then mret (record, true) else throw HErrManifestConflict
  | None =>
      _ ← lift (guard_err (rb_Revision b =? expectedRevision) HErrCASConflict);
      at_ ← stepTime t (rb_Updated b);
      let ret := mkRetirement mode RetirementPending at_ (Z.quot timeout second)
                   (turn_Count baseline) (turn_LastEndAt baseline) None in
      let r := mkSource (src_State record) (bump at_ b) (Some ret) in
      _ ← lift (SourceRecord_validate r);
      _ ← writeJSONFile id r;
      mret (r, false)
  end.

Definition CompleteSourceRetirement (id : string) (expectedRevision : Z) (t : Time)
    : HM (SourceRecord * bool) :=
  record ← getLocked (A:=SourceRecord) id;
  let b := src_Body record in
  match src_Retirement record with
  | None => throw HErrContextNotLoaded
  | Some ret =>
      match ret_State ret with
      | RetirementRetired => mret (record, true)
      | _ =>
          _ ← lift (guard_err (rb_Revision b =? expectedRevision) HErrCASConflict);
          at_ ← stepTime t (rb_Updated b);
          _ ← lift (need (negb (Before at_ (ret_RequestedAt ret))) "retired time");
          let ret' := mkRetirement (ret_Mode ret) RetirementRetired (ret_RequestedAt ret)
                        (ret_TimeoutSeconds ret) (ret_BaselineTurnCount ret)
                        (ret_BaselineLastTurnEndAt ret) (Some at_) in
          let r := mkSource (src_State record) (bump at_ b) (Some ret') in
          _ ← lift (SourceRecord_validate r);
          _ ← writeJSONFile id r;
          mret (r, false)
      end
  end.
End Operations.

#[global] Arguments LaunchMarker {_} _ _ : simpl never.
#[global] Arguments validLaunchMarker : simpl never.
