(* ===== verification/HandoffFacts.v ===== *)
(** What the handoff operations do to the stored records: each changes at most
    one record, by one legal step, and leaves a valid record behind, whatever
    outcome the file system gives it. *)

From S2P Require Import Prelude GoText HandoffManifest HandoffRecord HandoffStore.
From stdpp Require Import base gmap strings list fin_maps sorting relations.
From Stdlib Require Import ZArith Lia Ascii.

Open Scope Z_scope.

Lemma handoffID_field f g s u : validateID f s = Ok u → validateID g s = Ok tt.
Proof. unfold validateID. rewrite !handoff_need_ok. done. Qed.

Section Facts.
Context `{DigestLib}.

(** ** Steps of a record *)

(** The immutable part, the revision and the time order of every rewrite. *)
Definition body_step (b b' : RecordBody) : Prop :=
  rb_Manifest b' = rb_Manifest b ∧ rb_Digest b' = rb_Digest b ∧
  rb_Revision b' = u64_succ (rb_Revision b) ∧ Before (rb_Updated b') (rb_Updated b) = false.

(** What may change besides: a legal transition keeps the proofs already
    recorded, and an accepted record gains its context proof once, then a
    retirement request once, then its completion. *)
Inductive source_step (r r' : SourceRecord) : Prop :=
| ss_transition :
    legalSourceTransition (src_State r) (src_State r') = true →
    rb_ContextLoaded (src_Body r') = rb_ContextLoaded (src_Body r) →
    src_Retirement r' = src_Retirement r → source_step r r'
| ss_context ack :
    src_State r = SourceAccepted → src_State r' = SourceAccepted →
    rb_ContextLoaded (src_Body r) = None → rb_ContextLoaded (src_Body r') = Some ack →
    src_Retirement r' = src_Retirement r → source_step r r'
| ss_request ret :
    src_State r = SourceAccepted → src_State r' = SourceAccepted →
    rb_ContextLoaded (src_Body r') = rb_ContextLoaded (src_Body r) →
    src_Retirement r = None → src_Retirement r' = Some ret → ret_State ret = RetirementPending →
    source_step r r'
| ss_complete ret ret' :
    src_State r' = src_State r →
    rb_ContextLoaded (src_Body r') = rb_ContextLoaded (src_Body r) →
    src_Retirement r = Some ret → src_Retirement r' = Some ret' →
    ret_State ret ≠ RetirementRetired → ret_State ret' = RetirementRetired →
    ret_Mode ret' = ret_Mode ret → ret_RequestedAt ret' = ret_RequestedAt ret → source_step r r'.

Inductive target_step (r r' : TargetRecord) : Prop :=
| ts_transition :
    legalTargetTransition (tgt_State r) (tgt_State r') = true →
    rb_ContextLoaded (tgt_Body r') = rb_ContextLoaded (tgt_Body r) → target_step r r'
| ts_locator l :
    tgt_State r = TargetLaunching → tgt_State r' = TargetLaunching →
    rb_TargetLocator (tgt_Body r) = None → rb_TargetLocator (tgt_Body r') = Some l →
    rb_ContextLoaded (tgt_Body r') = rb_ContextLoaded (tgt_Body r) → target_step r r'
| ts_context ack :
    tgt_State r = TargetAccepted → tgt_State r' = TargetAccepted →
    rb_ContextLoaded (tgt_Body r) = None → rb_ContextLoaded (tgt_Body r') = Some ack →
    target_step r r'.

(** Interface of the two sides for the shared proofs. *)
Class SideSteps (A : Type) `{Side A} := {
  side_step : A → A → Prop;
  side_fresh : A → Prop;
}.
#[export] Instance source_steps : SideSteps SourceRecord := {|
  side_step := source_step;
  side_fresh r := src_State r = SourceQueued ∧ src_Retirement r = None;
|}.
#[export] Instance target_steps : SideSteps TargetRecord := {|
  side_step := target_step;
  side_fresh r := tgt_State r = TargetReceived;
|}.

(** The change of one file: none, a creation, or one step of its record. *)
Inductive file_step {A} `{SideSteps A} (id : string) : option (File A) → option (File A) → Prop :=
| fs_same f : file_step id f f
| fs_create r :
    side_validate r = Ok tt → rec_id r = id → side_fresh r →
    rb_Revision (side_body r) = 1 → rb_ContextLoaded (side_body r) = None →
    file_step id None (Some (Regular 384 (Some r)))
| fs_advance f r r' :
    decode_record (Some f) = Ok r → side_validate r = Ok tt → rec_id r = id →
    side_validate r' = Ok tt → rec_id r' = id →
    body_step (side_body r) (side_body r') → side_step r r' →
    file_step id (Some f) (Some (Regular 384 (Some r'))).

Definition store_step (s s' : HStore) : Prop :=
  (∀ id, file_step id (hs_source s !! id) (hs_source s' !! id)) ∧
  (∀ id, file_step id (hs_target s !! id) (hs_target s' !! id)).

(** ** Hoare vocabulary: the files at entry *)

Definition files_are (FS : gmap string (File SourceRecord)) (FT : gmap string (File TargetRecord))
    (s : HStore) : Prop := hs_source s = FS ∧ hs_target s = FT.

Definition stepped (FS : gmap string (File SourceRecord)) (FT : gmap string (File TargetRecord))
    (s : HStore) : Prop :=
  (∀ id, file_step id (FS !! id) (hs_source s !! id)) ∧
  (∀ id, file_step id (FT !! id) (hs_target s !! id)).

Lemma files_are_stepped FS FT s : files_are FS FT s → stepped FS FT s.
Proof. intros [Hs Ht]. unfold stepped. rewrite Hs, Ht. split; constructor. Qed.

Lemma insert_stepped_source FS FT s id r :
  hs_source s = <[id := Regular 384 (Some r)]> FS → hs_target s = FT →
  file_step id (FS !! id) (Some (Regular 384 (Some r))) → stepped FS FT s.
Proof.
  intros Hi Ho Hs. unfold stepped. rewrite Hi, Ho. split; [|constructor]. intros id'. rewrite lookup_insert.
  case_decide; [by subst|constructor].
Qed.
Lemma insert_stepped_target FS FT s id r :
  hs_target s = <[id := Regular 384 (Some r)]> FT → hs_source s = FS →
  file_step id (FT !! id) (Some (Regular 384 (Some r))) → stepped FS FT s.
Proof.
  intros Hi Ho Hs. unfold stepped. rewrite Hi, Ho. split; [constructor|]. intros id'. rewrite lookup_insert.
  case_decide; [by subst|constructor].
Qed.

(** ** The shared helpers *)

Lemma hoare_hnow FS FT (X : HandoffError → HStore → Prop) :
  hoare (files_are FS FT) hnow (λ _ s, files_are FS FT s ∧ True) X.
Proof. intros s Hs. simpl. done. Qed.

Lemma hoare_stepTime FS FT t updated :
  hoare (files_are FS FT) (stepTime t updated)
    (λ at_ s, files_are FS FT s ∧ t_utc at_ = true ∧ Before at_ updated = false)
    (λ _, files_are FS FT).
Proof.
  intros s Hs. unfold stepTime, mbind, M_bind, hnow, lift, mret, M_ret.
  destruct (IsZero t); simpl.
  - destruct (Before _ _) eqn:Hb; simpl; [done|]. done.
  - destruct (t_utc t) eqn:Hu, (Before t updated) eqn:Hb; simpl; done.
Qed.

Lemma hoare_getLocked {A} `{Side A} FS FT id F :
  (∀ s, files_are FS FT s → side_files s = F) →
  hoare (files_are FS FT) (getLocked id)
    (λ r s, files_are FS FT s ∧ validateID "handoff id" id = Ok tt ∧
      ∃ f, F !! id = Some f ∧ decode_record (Some f) = Ok r ∧ side_validate r = Ok tt ∧ rec_id r = id)
    (λ _, files_are FS FT).
Proof.
  intros HF s Hs. unfold getLocked, recordPath, verifyPrivateDir, mbind, M_bind, lift, gets, mret, M_ret.
  destruct (validateID "handoff id" id) as [[]|] eqn:Hid; [|done]. simpl.
  destruct (hs_dirs s); try done. rewrite (HF s Hs).
  destruct (F !! id) as [f|]; [|done].
  destruct (decode_record (Some f)) as [r|] eqn:Hd; [|done].
  destruct (validatePath r id) as [[]|] eqn:Hv; [|done].
  unfold validatePath in Hv. apply result_bind_ok in Hv as ([] & ? & Hn%handoff_need_ok%String.eqb_eq).
  split; [done|]. split; [done|]. by exists f.
Qed.

(** The outcomes of a file replacement. *)
Lemma write_source_cases id (r : SourceRecord) s :
  let '(res, s') := writeJSONFile id r s in
  hs_target s' = hs_target s ∧
  (hs_source s' = <[id := Regular 384 (Some r)]> (hs_source s) ∨
   (hs_source s' = hs_source s ∧ ∃ e, res = Err e)).
Proof.
  unfold writeJSONFile, mbind, M_bind, gets, modify, throw. simpl.
  destruct (hs_dirs s); simpl; try (split; [done|]; right; split; [done|by eexists]).
  all: destruct (hs_source s !! id) as [[? ?|]|]; simpl;
    try (split; [done|]; right; split; [done|by eexists]).
  all: destruct (hs_io s) as [|[] ?]; simpl; split; try done;
    try (by left); right; split; [done|by eexists].
Qed.
Lemma write_target_cases id (r : TargetRecord) s :
  let '(res, s') := writeJSONFile id r s in
  hs_source s' = hs_source s ∧
  (hs_target s' = <[id := Regular 384 (Some r)]> (hs_target s) ∨
   (hs_target s' = hs_target s ∧ ∃ e, res = Err e)).
Proof.
  unfold writeJSONFile, mbind, M_bind, gets, modify, throw. simpl.
  destruct (hs_dirs s); simpl; try (split; [done|]; right; split; [done|by eexists]).
  all: destruct (hs_target s !! id) as [[? ?|]|]; simpl;
    try (split; [done|]; right; split; [done|by eexists]).
  all: destruct (hs_io s) as [|[] ?]; simpl; split; try done;
    try (by left); right; split; [done|by eexists].
Qed.

(** A handler ends by writing [r] and returning [v]. *)
Lemma hoare_write_source {B} FS FT id r (v : B) :
  file_step id (FS !! id) (Some (Regular 384 (Some r))) →
  hoare (files_are FS FT) (writeJSONFile id r ≫= λ _, mret v)
    (λ b s, b = v ∧ hs_source s !! id = Some (Regular 384 (Some r)) ∧ stepped FS FT s)
    (λ _, stepped FS FT).
Proof.
  intros Hstep s [Hs Ht]. pose proof (write_source_cases id r s) as Hw. unfold mbind, M_bind.
  destruct (writeJSONFile id r s) as [[u|e] s'].
  - destruct Hw as [Ht' [Hs'|[_ [e [=]]]]]. simpl. split; [done|].
    rewrite Hs', Hs. split; [apply lookup_insert_eq|].
    eapply insert_stepped_source; [by rewrite Hs', Hs|congruence|done].
  - destruct Hw as [Ht' [Hs'|[Hs' _]]].
    + eapply insert_stepped_source; [by rewrite Hs', Hs|congruence|done].
    + apply files_are_stepped. split; congruence.
Qed.
Lemma hoare_write_target {B} FS FT id r (v : B) :
  file_step id (FT !! id) (Some (Regular 384 (Some r))) →
  hoare (files_are FS FT) (writeJSONFile id r ≫= λ _, mret v)
    (λ b s, b = v ∧ hs_target s !! id = Some (Regular 384 (Some r)) ∧ stepped FS FT s)
    (λ _, stepped FS FT).
Proof.
  intros Hstep s [Hs Ht]. pose proof (write_target_cases id r s) as Hw. unfold mbind, M_bind.
  destruct (writeJSONFile id r s) as [[u|e] s'].
  - destruct Hw as [Ht' [Hs'|[_ [e [=]]]]]. simpl. split; [done|].
    rewrite Hs', Ht. split; [apply lookup_insert_eq|].
    eapply insert_stepped_target; [by rewrite Hs', Ht|congruence|done].
  - destruct Hw as [Ht' [Hs'|[Hs' _]]].
    + eapply insert_stepped_target; [by rewrite Hs', Ht|congruence|done].
    + apply files_are_stepped. split; congruence.
Qed.

Lemma applyTransition_ok b t retry term loc b' :
  applyTransition b t retry term loc = Ok b' →
  rb_Manifest b' = rb_Manifest b ∧ rb_Digest b' = rb_Digest b ∧ rb_Revision b' = rb_Revision b ∧
  rb_Updated b' = rb_Updated b ∧ rb_ContextLoaded b' = rb_ContextLoaded b.
Proof. unfold applyTransition. intros Ha. by inv_ok. Qed.

(** ** The operations *)

Lemma hoare_check_bind {A B} FS FT (r : result HandoffError A) (f : A → HM B) Q :
  (∀ a, r = Ok a → hoare (files_are FS FT) (f a) Q (λ _, stepped FS FT)) →
  hoare (files_are FS FT) (lift r ≫= f) Q (λ _, stepped FS FT).
Proof. intros Hf. apply hoare_lift_bind; [done|]. intros e s _. apply files_are_stepped. Qed.

Lemma hoare_get_bind {A B} `{Side A} FS FT F id (f : A → HM B) Q :
  (∀ s, files_are FS FT s → side_files s = F) →
  (∀ r file, validateID "handoff id" id = Ok tt → F !! id = Some file →
     decode_record (Some file) = Ok r → side_validate r = Ok tt → rec_id r = id →
     hoare (files_are FS FT) (f r) Q (λ _, stepped FS FT)) →
  hoare (files_are FS FT) (getLocked id ≫= f) Q (λ _, stepped FS FT).
Proof.
  intros HF Hf. eapply hoare_keep_bind.
  - eapply hoare_conseq; [apply (hoare_getLocked FS FT id F HF)|done|exact (λ _ _ Hq, Hq)|].
    intros ? s. apply files_are_stepped.
  - intros r (Hid & file & ? & ? & ? & ?). by eapply Hf.
Qed.

Lemma hoare_time_bind {B} FS FT t updated (f : Time → HM B) Q :
  (∀ at_, t_utc at_ = true → Before at_ updated = false →
     hoare (files_are FS FT) (f at_) Q (λ _, stepped FS FT)) →
  hoare (files_are FS FT) (stepTime t updated ≫= f) Q (λ _, stepped FS FT).
Proof.
  intros Hf. eapply hoare_keep_bind.
  - eapply hoare_conseq; [apply (hoare_stepTime FS FT t updated)|done|exact (λ _ _ Hq, Hq)|].
    intros ? s. apply files_are_stepped.
  - intros at_ [? ?]. by apply Hf.
Qed.

Lemma hoare_unchanged {A} FS FT (a : A) (Q : A → HStore → Prop) (X : HandoffError → HStore → Prop) :
  (∀ s, files_are FS FT s → Q a s) → hoare (files_are FS FT) (mret a) Q X.
Proof. intros HQ s Hs. by apply HQ. Qed.
Lemma hoare_refuse {A} FS FT (e : HandoffError) (Q : A → HStore → Prop) :
  hoare (files_are FS FT) (throw e) Q (λ _, stepped FS FT).
Proof. intros s Hs. by apply files_are_stepped. Qed.

(** The stored record an operation answers with. *)
Definition answers_source (FS : gmap string (File SourceRecord)) (FT : gmap string (File TargetRecord))
    (id : string) (r : SourceRecord) (s : HStore) : Prop :=
  (∃ f, hs_source s !! id = Some f ∧ decode_record (Some f) = Ok r) ∧ stepped FS FT s.
Definition answers_target (FS : gmap string (File SourceRecord)) (FT : gmap string (File TargetRecord))
    (id : string) (r : TargetRecord) (s : HStore) : Prop :=
  (∃ f, hs_target s !! id = Some f ∧ decode_record (Some f) = Ok r) ∧ stepped FS FT s.

Lemma hoare_finish_source {B} FS FT id f (r r' : SourceRecord) (v : B) (Q : B → HStore → Prop) :
  FS !! id = Some f → decode_record (Some f) = Ok r → SourceRecord_validate r = Ok tt → rec_id r = id →
  SourceRecord_validate r' = Ok tt → body_step (src_Body r) (src_Body r') → source_step r r' →
  (∀ s, hs_source s !! id = Some (Regular 384 (Some r')) → stepped FS FT s → Q v s) →
  hoare (files_are FS FT) (writeJSONFile id r' ≫= λ _, mret v) Q (λ _, stepped FS FT).
Proof.
  intros Hf Hd Hv Hid Hv' Hb Hs HQ. eapply hoare_conseq; [apply hoare_write_source|done| |done].
  - rewrite Hf. eapply fs_advance; try done. unfold rec_id in *. simpl in *.
    destruct Hb as (-> & _). done.
  - intros b s (-> & Hl & Hst). by apply HQ.
Qed.
Lemma hoare_finish_target {B} FS FT id f (r r' : TargetRecord) (v : B) (Q : B → HStore → Prop) :
  FT !! id = Some f → decode_record (Some f) = Ok r → TargetRecord_validate r = Ok tt → rec_id r = id →
  TargetRecord_validate r' = Ok tt → body_step (tgt_Body r) (tgt_Body r') → target_step r r' →
  (∀ s, hs_target s !! id = Some (Regular 384 (Some r')) → stepped FS FT s → Q v s) →
  hoare (files_are FS FT) (writeJSONFile id r' ≫= λ _, mret v) Q (λ _, stepped FS FT).
Proof.
  intros Hf Hd Hv Hid Hv' Hb Hs HQ. eapply hoare_conseq; [apply hoare_write_target|done| |done].
  - rewrite Hf. eapply fs_advance; try done. unfold rec_id in *. simpl in *.
    destruct Hb as (-> & _). done.
  - intros b s (-> & Hl & Hst). by apply HQ.
Qed.

Lemma answers_written_source FS FT id r s :
  hs_source s !! id = Some (Regular 384 (Some r)) → stepped FS FT s → answers_source FS FT id r s.
Proof. intros Hl Hs. split; [|done]. by eexists. Qed.
Lemma answers_written_target FS FT id r s :
  hs_target s !! id = Some (Regular 384 (Some r)) → stepped FS FT s → answers_target FS FT id r s.
Proof. intros Hl Hs. split; [|done]. by eexists. Qed.
Lemma answers_replay_source FS FT id f r s :
  FS !! id = Some f → decode_record (Some f) = Ok r → files_are FS FT s → answers_source FS FT id r s.
Proof. intros Hl Hd Hs. split; [|by apply files_are_stepped]. destruct Hs as [-> _]. by exists f. Qed.
Lemma answers_replay_target FS FT id f r s :
  FT !! id = Some f → decode_record (Some f) = Ok r → files_are FS FT s → answers_target FS FT id r s.
Proof. intros Hl Hd Hs. split; [|by apply files_are_stepped]. destruct Hs as [_ ->]. by exists f. Qed.

Ltac source_file := match goal with |- ∀ s, files_are _ _ s → _ = _ => intros ? [? ?]; eassumption end.

Lemma TransitionSource_steps FS FT id rev next t :
  hoare (files_are FS FT) (TransitionSource id rev next t)
    (λ r s, answers_source FS FT id r s ∧ src_State r = next ∧ rb_Revision (src_Body r) = u64_succ rev)
    (λ _, stepped FS FT).
Proof.
  unfold TransitionSource. apply hoare_check_bind. intros [] _.
  eapply hoare_get_bind; [source_file|]. intros r f Hidv Hf Hd Hv Hid.
  apply hoare_check_bind. intros [] Hrev%guard_err_ok%Z.eqb_eq.
  apply hoare_check_bind. intros [] Hlegal%guard_err_ok.
  apply hoare_time_bind. intros at_ Hutc Hord.
  apply hoare_check_bind. intros body Hbody.
  apply applyTransition_ok in Hbody as (Hm & Hdg & Hr & Hu & Hc).
  cbv zeta. set (b' := match next with SourcePreparingRemote => count_attempt body | _ => body end).
  assert (body_step (src_Body r) b' ∧ rb_ContextLoaded b' = rb_ContextLoaded (src_Body r)) as [Hb' Hc'].
  { assert (body_step (src_Body r) body) as Hbs.
    { split_and!; [done|done|done|]. by rewrite Hu. }
    unfold b'. split; destruct next; done. }
  apply hoare_check_bind. intros [] Hv'.
  eapply hoare_finish_source; try done; [by apply ss_transition|].
  intros s Hl Hs. split; [by apply answers_written_source|]. split; [done|].
  destruct Hb' as (_ & _ & Hr' & _). simpl. by rewrite Hr', Hrev.
Qed.

Lemma TransitionTarget_steps FS FT id rev next t :
  hoare (files_are FS FT) (TransitionTarget id rev next t)
    (λ r s, answers_target FS FT id r s ∧ tgt_State r = next ∧ rb_Revision (tgt_Body r) = u64_succ rev)
    (λ _, stepped FS FT).
Proof.
  unfold TransitionTarget. apply hoare_check_bind. intros [] _.
  eapply hoare_get_bind; [source_file|]. intros r f Hidv Hf Hd Hv Hid.
  apply hoare_check_bind. intros [] Hrev%guard_err_ok%Z.eqb_eq.
  apply hoare_check_bind. intros [] Hlegal%guard_err_ok.
  apply hoare_time_bind. intros at_ Hutc Hord.
  apply hoare_check_bind. intros body Hbody.
  apply applyTransition_ok in Hbody as (Hm & Hdg & Hr & Hu & Hc).
  cbv zeta. set (b' := match next with TargetValidating => count_attempt body | _ => body end).
  assert (body_step (tgt_Body r) b' ∧ rb_ContextLoaded b' = rb_ContextLoaded (tgt_Body r)) as [Hb' Hc'].
  { assert (body_step (tgt_Body r) body) as Hbs.
    { split_and!; [done|done|done|]. by rewrite Hu. }
    unfold b'. split; destruct next; done. }
  apply hoare_check_bind. intros [] Hv'.
  eapply hoare_finish_target; try done; [by apply ts_transition|].
  intros s Hl Hs. split; [by apply answers_written_target|]. split; [done|].
  destruct Hb' as (_ & _ & Hr' & _). simpl. by rewrite Hr', Hrev.
Qed.
End Facts.
