(* ===== verification/HandoffSteps.v ===== *)
(** The handoff store as a transition system: every public operation makes one
    step of at most one record, reachable stores hold only valid records, and
    what that means for compare-and-set, idempotence and retirement. *)

From S2P Require Import Prelude GoText HandoffManifest HandoffRecord HandoffStore HandoffFacts.
From stdpp Require Import base gmap strings list fin_maps sorting relations.
From Stdlib Require Import ZArith Lia Ascii.

Open Scope Z_scope.

(** The entry files, seen through either side. *)
Ltac entry_file := match goal with |- ∀ s, files_are _ _ s → _ = _ => intros ? [? ?]; eassumption end.

Section Operations.
Context `{DigestLib}.

Lemma fresh_source_step FS FT m digest at_ id :
  FS !! id = None ∨ decode_record (FS !! id) = Err HErrNotFound →
  id = m_HandoffID m →
  SourceRecord_validate (mkSource SourceQueued (new_body m digest at_) None) = Ok tt →
  hoare (files_are FS FT)
    (writeJSONFile id (mkSource SourceQueued (new_body m digest at_) None) ≫=
     λ _, mret (mkSource SourceQueued (new_body m digest at_) None, false))
    (λ rb s, rb = (mkSource SourceQueued (new_body m digest at_) None, false) ∧
             answers_source FS FT id rb.1 s) (λ _, stepped FS FT).
Proof.
  intros Hnone Hid Hv.
  assert (FS !! id = None) as Hn.
  { destruct Hnone as [?|Hn]; [done|]. destruct (FS !! id) as [[? []|]|]; [..|done]; try done.
    all: unfold decode_record in Hn; by destruct (negb _). }
  eapply hoare_conseq; [apply hoare_write_source|done| |done].
  - rewrite Hn. by apply fs_create.
  - intros b s (-> & Hl & Hs). split; [done|]. by apply answers_written_source.
Qed.

Lemma QueueSource_steps FS FT m :
  hoare (files_are FS FT) (QueueSource m)
    (λ rb s, answers_source FS FT (m_HandoffID m) rb.1 s ∧
             Manifest_Digest m = Ok (rb_Digest (src_Body rb.1)))
    (λ _, stepped FS FT).
Proof.
  unfold QueueSource, createRecord. apply hoare_check_bind. intros digest Hdg.
  apply hoare_check_bind. intros file Hfile. unfold recordPath in Hfile.
  apply result_bind_ok in Hfile as ([] & Hid & [= <-]).
  eapply hoare_keep_bind with (φ := λ files, files = FS).
  { intros s [Hs Ht]. simpl. by rewrite Hs. }
  intros files ->. destruct (decode_record (FS !! m_HandoffID m)) as [r|e] eqn:Hdec.
  - apply hoare_check_bind. intros [] Hv. destruct (_ || _) eqn:Hc; [apply hoare_refuse|].
    apply hoare_unchanged. intros s Hs. apply orb_false_iff in Hc as [_ Hc].
    apply negb_false_iff, String.eqb_eq in Hc. simpl in *. split; [|by rewrite Hc].
    destruct (FS !! m_HandoffID m) as [f|] eqn:Hf; [|done]. by eapply answers_replay_source.
  - destruct e; try apply hoare_refuse.
    eapply hoare_keep_bind with (φ := λ _, True).
    { intros s Hs. simpl. done. }
    intros at_ _. apply hoare_check_bind. intros [] Hv.
    eapply hoare_conseq; [apply (fresh_source_step FS FT m digest (UTC at_)); auto|done| |done].
    intros rb s [-> Ha]. done.
Qed.

Lemma fresh_target_step FS FT m digest at_ id :
  FT !! id = None ∨ decode_record (FT !! id) = Err HErrNotFound →
  id = m_HandoffID m →
  TargetRecord_validate (mkTarget TargetReceived (new_body m digest at_)) = Ok tt →
  hoare (files_are FS FT)
    (writeJSONFile id (mkTarget TargetReceived (new_body m digest at_)) ≫=
     λ _, mret (mkTarget TargetReceived (new_body m digest at_), false))
    (λ rb, answers_target FS FT id rb.1) (λ _, stepped FS FT).
Proof.
  intros Hnone Hid Hv.
  assert (FT !! id = None) as Hn.
  { destruct Hnone as [?|Hn]; [done|]. destruct (FT !! id) as [[? []|]|]; [..|done]; try done.
    all: unfold decode_record in Hn; by destruct (negb _). }
  eapply hoare_conseq; [apply hoare_write_target|done| |done].
  - rewrite Hn. by apply fs_create.
  - intros b s (-> & Hl & Hs). by apply answers_written_target.
Qed.

Lemma ReceiveTarget_steps FS FT m :
  hoare (files_are FS FT) (ReceiveTarget m)
    (λ rb, answers_target FS FT (m_HandoffID m) rb.1) (λ _, stepped FS FT).
Proof.
  unfold ReceiveTarget, createRecord. apply hoare_check_bind. intros digest Hdg.
  apply hoare_check_bind. intros file Hfile. unfold recordPath in Hfile.
  apply result_bind_ok in Hfile as ([] & Hid & [= <-]).
  eapply hoare_keep_bind with (φ := λ files, files = FT).
  { intros s [Hs Ht]. simpl. by rewrite Ht. }
  intros files ->. destruct (decode_record (FT !! m_HandoffID m)) as [r|e] eqn:Hdec.
  - apply hoare_check_bind. intros [] Hv. destruct (_ || _); [apply hoare_refuse|].
    apply hoare_unchanged. intros s Hs. simpl.
    destruct (FT !! m_HandoffID m) as [f|] eqn:Hf; [|done]. by eapply answers_replay_target.
  - destruct e; try apply hoare_refuse.
    eapply hoare_keep_bind with (φ := λ _, True).
    { intros s Hs. simpl. done. }
    intros at_ _. apply hoare_check_bind. intros [] Hv.
    apply fresh_target_step; auto.
Qed.

Lemma RecordTargetLaunchLocator_steps FS FT id rev l t :
  hoare (files_are FS FT) (RecordTargetLaunchLocator id rev l t)
    (λ r s, answers_target FS FT id r s ∧ tgt_State r = TargetLaunching) (λ _, stepped FS FT).
Proof.
  unfold RecordTargetLaunchLocator. apply hoare_check_bind. intros [] _.
  eapply hoare_get_bind; [entry_file|]. intros r f Hidv Hf Hd Hv Hid. cbv zeta.
  apply hoare_check_bind. intros [] _.
  apply hoare_check_bind. intros [] Hst%guard_err_ok%bool_decide_eq_true.
  apply hoare_check_bind. intros [] _.
  destruct (rb_TargetLocator (tgt_Body r)) as [l0|] eqn:Hl.
  - destruct (bool_decide _); [|apply hoare_refuse].
    apply hoare_unchanged. intros s Hs. split; [by eapply answers_replay_target|done].
  - apply hoare_time_bind. intros at_ Hutc Hord.
    apply hoare_check_bind. intros [] Hv'.
    eapply hoare_finish_target; try done.
    + by eapply ts_locator.
    + intros s Hl0 Hs. split; [by apply answers_written_target|done].
Qed.

Lemma acknowledge_record_steps FS FT id f r phase scope session t :
  FT !! id = Some f → decode_record (Some f) = Ok r → validatePath r id = Ok tt →
  hoare (files_are FS FT) (acknowledge_record id r phase scope session t)
    (λ rb, answers_target FS FT id rb.1) (λ _, stepped FS FT).
Proof.
  intros Hf Hd Hvp. unfold validatePath in Hvp.
  apply result_bind_ok in Hvp as ([] & Hv & Hid%handoff_need_ok%String.eqb_eq).
  unfold acknowledge_record. destruct (tgt_State r) eqn:Hst; try apply hoare_refuse.
  destruct (rb_TargetLocator (tgt_Body r)) as [l|]; [|apply hoare_refuse].
  apply hoare_check_bind. intros [] _.
  destruct (rb_ContextLoaded (tgt_Body r)) as [a|] eqn:Hc.
  - apply hoare_unchanged. intros s. by eapply answers_replay_target.
  - apply hoare_time_bind. intros at_ Hutc Hord. cbv zeta.
    apply hoare_check_bind. intros [] Hv'.
    eapply hoare_finish_target; try done.
    + by eapply ts_context.
    + intros s. apply answers_written_target.
Qed.

(** What an acknowledgement answers with: a record of some handoff. *)
Definition answers_some_target (FS : gmap string (File SourceRecord)) (FT : gmap string (File TargetRecord))
    (r : TargetRecord) (s : HStore) : Prop := ∃ id, answers_target FS FT id r s.

Lemma acknowledge_files_steps FS FT marker phase scope session t files :
  (∀ id f, (id, f) ∈ files → FT !! id = Some f) →
  hoare (files_are FS FT) (acknowledge_files marker phase scope session t files)
    (λ rb, answers_some_target FS FT rb.1) (λ _, stepped FS FT).
Proof.
  induction files as [|[id f] files IH]; intros Hfiles; simpl; [apply hoare_refuse|].
  destruct (decode_record (Some f)) as [r|] eqn:Hd; [|apply hoare_refuse].
  destruct (validatePath r id) as [[]|] eqn:Hv; simpl; [|apply hoare_refuse].
  destruct (negb _).
  - apply IH. intros id' f' Hin. apply Hfiles. by right.
  - eapply hoare_conseq; [eapply acknowledge_record_steps| | |]; try done.
    + apply Hfiles. by left.
    + intros [r' b] s Ha. by exists id.
Qed.

Lemma AcknowledgeTarget_steps FS FT marker phase scope session t :
  hoare (files_are FS FT) (AcknowledgeTarget marker phase scope session t)
    (λ rb, answers_some_target FS FT rb.1) (λ _, stepped FS FT).
Proof.
  unfold AcknowledgeTarget. apply hoare_check_bind. intros [] _.
  eapply hoare_keep_bind with (φ := λ r, match r with Ok files =>
    ∀ id f, (id, f) ∈ files → FT !! id = Some f | Err _ => True end).
  - intros s [Hs Ht]. unfold recordFiles, verifyPrivateDir, try, mbind, M_bind, gets, lift, mret, M_ret. simpl.
    destruct (hs_dirs s); simpl; try done. destruct (need _ _); simpl; [|done].
    split; [done|]. intros id f. rewrite elem_of_sort_by_key, elem_of_map_to_list. by rewrite Ht.
  - intros [files|e] Hfiles; [|apply hoare_refuse]. by apply acknowledge_files_steps.
Qed.

Lemma RecordSourceContextLoaded_steps FS FT id rev ack t :
  hoare (files_are FS FT) (RecordSourceContextLoaded id rev ack t)
    (λ rb, answers_source FS FT id rb.1) (λ _, stepped FS FT).
Proof.
  unfold RecordSourceContextLoaded.
  eapply hoare_get_bind; [entry_file|]. intros r f Hidv Hf Hd Hv Hid. cbv zeta.
  destruct (src_State r) eqn:Hst; try apply hoare_refuse.
  destruct (rb_TargetLocator (src_Body r)) as [l|]; [|apply hoare_refuse].
  apply hoare_check_bind. intros [] _.
  destruct (rb_ContextLoaded (src_Body r)) as [a|] eqn:Hc.
  - destruct (bool_decide _); [|apply hoare_refuse].
    apply hoare_unchanged. intros s. by eapply answers_replay_source.
  - apply hoare_check_bind. intros [] _. apply hoare_time_bind. intros at_ Hutc Hord.
    apply hoare_check_bind. intros [] Hv'.
    eapply hoare_finish_source; try done.
    + by eapply ss_context.
    + intros s. apply answers_written_source.
Qed.

Lemma RequestSourceRetirement_steps FS FT id rev mode timeout baseline t :
  hoare (files_are FS FT) (RequestSourceRetirement id rev mode timeout baseline t)
    (λ rb, answers_source FS FT id rb.1) (λ _, stepped FS FT).
Proof.
  unfold RequestSourceRetirement. do 3 (apply hoare_check_bind; intros [] _).
  eapply hoare_get_bind; [entry_file|]. intros r f Hidv Hf Hd Hv Hid. cbv zeta.
  apply hoare_check_bind. intros [] [Hacc _]%guard_err_ok%andb_true_iff.
  assert (src_State r = SourceAccepted) as Hst by by destruct (src_State r).
  destruct (src_Retirement r) as [ret|] eqn:Hret.
  - destruct (_ && _); [|apply hoare_refuse].
    apply hoare_unchanged. intros s. by eapply answers_replay_source.
  - apply hoare_check_bind. intros [] _. apply hoare_time_bind. intros at_ Hutc Hord.
    apply hoare_check_bind. intros [] Hv'.
    eapply hoare_finish_source; try done.
    + by eapply ss_request.
    + intros s. apply answers_written_source.
Qed.

Lemma CompleteSourceRetirement_steps FS FT id rev t :
  hoare (files_are FS FT) (CompleteSourceRetirement id rev t)
    (λ rb, answers_source FS FT id rb.1) (λ _, stepped FS FT).
Proof.
  unfold CompleteSourceRetirement.
  eapply hoare_get_bind; [entry_file|]. intros r f Hidv Hf Hd Hv Hid. cbv zeta.
  destruct (src_Retirement r) as [ret|] eqn:Hret; [|apply hoare_refuse].
  assert (ret_State ret ≠ RetirementRetired → hoare (files_are FS FT)
    (_ ← lift (guard_err (rb_Revision (src_Body r) =? rev) HErrCASConflict);
     at_ ← stepTime t (rb_Updated (src_Body r));
     _ ← lift (need (negb (Before at_ (ret_RequestedAt ret))) "retired time");
     let ret' := mkRetirement (ret_Mode ret) RetirementRetired (ret_RequestedAt ret)
                   (ret_TimeoutSeconds ret) (ret_BaselineTurnCount ret)
                   (ret_BaselineLastTurnEndAt ret) (Some at_) in
     let r' := mkSource (src_State r) (bump at_ (src_Body r)) (Some ret') in
     _ ← lift (SourceRecord_validate r');
     _ ← writeJSONFile id r';
     mret (r', false))
    (λ rb, answers_source FS FT id rb.1) (λ _, stepped FS FT)) as Hgo.
  { intros Hns. apply hoare_check_bind. intros [] _. apply hoare_time_bind. intros at_ Hutc Hord.
    do 2 (apply hoare_check_bind; intros [] ?).
    eapply hoare_finish_source; try done.
    - by eapply ss_complete.
    - intros s. apply answers_written_source. }
  destruct (ret_State ret) eqn:Hrs; [by apply Hgo| |by apply Hgo].
  apply hoare_unchanged. intros s. by eapply answers_replay_source.
Qed.
End Operations.
