(* ===== verification/HandoffSystem.v ===== *)
(** Histories of the handoff store: reachability, the promises a stored record
    keeps for ever, compare-and-set, idempotent creation, acknowledgements, and
    the absence of stuck records. *)

From S2P Require Import Prelude GoText HandoffManifest HandoffRecord HandoffStore HandoffFacts HandoffSteps.
From stdpp Require Import base fin_maps gmap strings list sorting relations.
From Stdlib Require Import ZArith Lia Ascii.

Open Scope Z_scope.

Section System.
Context `{DigestLib}.

(** ** Operations and steps *)

Inductive handoff_op :=
| OpQueueSource (m : Manifest)
| OpReceiveTarget (m : Manifest)
| OpTransitionSource (id : string) (revision : Z) (next : SourceState) (t : Transition)
| OpTransitionTarget (id : string) (revision : Z) (next : TargetState) (t : Transition)
| OpRecordTargetLaunchLocator (id : string) (revision : Z) (l : TargetLocator) (t : Time)
| OpAcknowledgeTarget (marker phase scope session : string) (t : Time)
| OpRecordSourceContextLoaded (id : string) (revision : Z) (ack : ContextAcknowledgement) (t : Time)
| OpRequestSourceRetirement (id : string) (revision : Z) (mode : RetirementMode) (timeout : Z)
    (baseline : TurnObservation) (t : Time)
| OpCompleteSourceRetirement (id : string) (revision : Z) (t : Time).

Definition discard {A} (m : HM A) : HM unit := _ ← m; mret tt.

Definition run_op (o : handoff_op) : HM unit :=
  match o with
  | OpQueueSource m => discard (QueueSource m)
  | OpReceiveTarget m => discard (ReceiveTarget m)
  | OpTransitionSource id rev next t => discard (TransitionSource id rev next t)
  | OpTransitionTarget id rev next t => discard (TransitionTarget id rev next t)
  | OpRecordTargetLaunchLocator id rev l t => discard (RecordTargetLaunchLocator id rev l t)
  | OpAcknowledgeTarget m p sc se t => discard (AcknowledgeTarget m p sc se t)
  | OpRecordSourceContextLoaded id rev a t => discard (RecordSourceContextLoaded id rev a t)
  | OpRequestSourceRetirement id rev m to b t => discard (RequestSourceRetirement id rev m to b t)
  | OpCompleteSourceRetirement id rev t => discard (CompleteSourceRetirement id rev t)
  end.

(** Steps: an operation to its end, or a change around the record files
    (directory modes, foreign entries, the clock, future write outcomes). *)
Inductive handoff_step : relation HStore :=
| hstep_op o s r s' : run_op o s = (r, s') → handoff_step s s'
| hstep_env s s' : hs_source s' = hs_source s → hs_target s' = hs_target s → handoff_step s s'.

Definition hempty (clock : nat → Time) (io : list Io) : HStore :=
  mkHStore ∅ ∅ DirPrivate false false clock 0 io.

Lemma discard_stepped {A} FS FT (m : HM A) (Q : A → HStore → Prop) :
  hoare (files_are FS FT) m Q (λ _, stepped FS FT) → (∀ a s, Q a s → stepped FS FT s) →
  hoare (files_are FS FT) (discard m) (λ _, stepped FS FT) (λ _, stepped FS FT).
Proof.
  intros Hm HQ. unfold discard. eapply hoare_bind.
  - eapply hoare_conseq; [exact Hm|done|exact HQ|done].
  - intros a s Hs. done.
Qed.

Lemma run_op_stepped FS FT o :
  hoare (files_are FS FT) (run_op o) (λ _, stepped FS FT) (λ _, stepped FS FT).
Proof.
  destruct o; simpl; eapply discard_stepped;
    eauto using QueueSource_steps, ReceiveTarget_steps, RecordTargetLaunchLocator_steps,
      AcknowledgeTarget_steps, RecordSourceContextLoaded_steps, RequestSourceRetirement_steps,
      CompleteSourceRetirement_steps, TransitionSource_steps, TransitionTarget_steps;
    unfold answers_some_target, answers_source, answers_target; naive_solver.
Qed.

Lemma run_op_store_step o s : store_step s (run_op o s).2.
Proof.
  pose proof (hoare_run _ _ _ _ s (run_op_stepped (hs_source s) (hs_target s) o) (conj eq_refl eq_refl)) as Hs.
  by destruct (run_op o s) as [[]].
Qed.

Lemma handoff_step_store s s' : handoff_step s s' → store_step s s'.
Proof.
  intros [o s0 r s1 Hr|s0 s1 Hs Ht].
  - pose proof (run_op_store_step o s0) as Hst. by rewrite Hr in Hst.
  - unfold store_step. rewrite Hs, Ht. split; constructor.
Qed.

(** ** Valid records *)

Definition file_ok {A} `{Side A} (id : string) (f : File A) : Prop :=
  ∃ r, f = Regular 384 (Some r) ∧ side_validate r = Ok tt ∧ rec_id r = id.
Definition store_ok (s : HStore) : Prop :=
  map_Forall file_ok (hs_source s) ∧ map_Forall file_ok (hs_target s).

Lemma file_step_ok {A} `{SideSteps A} id f f' :
  file_step id f f' → (∀ g, f = Some g → file_ok id g) → ∀ g, f' = Some g → file_ok id g.
Proof.
  intros [f0|r Hv Hid _ _ _|f0 r r' _ _ _ Hv Hid _ _] Hf g; [apply Hf|..]; intros [= <-]; by eexists.
Qed.

Lemma store_step_ok s s' : store_step s s' → store_ok s → store_ok s'.
Proof.
  intros [Hs Ht] [Os Ot]. split; intros id f Hf.
  - eapply (file_step_ok id); [apply Hs| |exact Hf]. intros g Hg. by apply (Os id).
  - eapply (file_step_ok id); [apply Ht| |exact Hf]. intros g Hg. by apply (Ot id).
Qed.

Lemma reachable_ok clock io s : rtc handoff_step (hempty clock io) s → store_ok s.
Proof.
  assert (store_ok (hempty clock io)) as H0 by (split; apply map_Forall_empty).
  induction 1 as [|x y z Hxy _ IH]; [done|]. apply IH. eapply store_step_ok; [|done].
  by apply handoff_step_store.
Qed.

Lemma validate_digest m d : validateStoredManifest m d = Ok tt → d = marshal_sha256 m ∧ Manifest_Validate m = Ok tt.
Proof.
  unfold validateStoredManifest, Manifest_Digest. intros Hv.
  apply result_bind_ok in Hv as (got & Hg & Hd%handoff_need_ok%String.eqb_eq).
  apply result_bind_ok in Hg as ([] & Hm & [= <-]). done.
Qed.

Lemma valid_source_accepted r :
  SourceRecord_validate r = Ok tt →
  rb_Digest (src_Body r) = marshal_sha256 (rb_Manifest (src_Body r)) ∧
  (src_State r = SourceAccepted → ∃ l, rb_TargetLocator (src_Body r) = Some l ∧
     tl_DeviceID l = ta_DeviceID (m_Target (rb_Manifest (src_Body r)))) ∧
  (∀ ack, rb_ContextLoaded (src_Body r) = Some ack →
     src_State r = SourceAccepted ∧ ack_ManifestDigest ack = rb_Digest (src_Body r) ∧
     rb_TargetLocator (src_Body r) = Some (ack_TargetLocator ack)) ∧
  (∀ ret, src_Retirement r = Some ret → src_State r = SourceAccepted ∧ is_Some (rb_ContextLoaded (src_Body r))).
Proof.
  unfold SourceRecord_validate. intros Hv. cbv zeta in Hv.
  apply result_bind_ok in Hv as ([] & _ & Hv).
  apply result_bind_ok in Hv as ([] & [Hdg _]%validate_digest & Hv).
  apply result_bind_ok in Hv as ([] & _ & Hv).
  apply result_bind_ok in Hv as ([] & Hfields & Hv).
  apply result_bind_ok in Hv as ([] & Hctx & Hret). split; [done|]. split_and!.
  - intros Hacc. rewrite Hacc in Hfields. unfold validateRecordFields in Hfields.
    do 6 (apply result_bind_ok in Hfields as ([] & _ & Hfields)).
    destruct (rb_TargetLocator (src_Body r)) as [l|]; [|done]. exists l. split; [done|].
    do 2 (apply result_bind_ok in Hfields as ([] & _ & Hfields)).
    by apply handoff_need_ok, String.eqb_eq in Hfields.
  - intros ack Hack. unfold validateContextLoaded in Hctx. rewrite Hack in Hctx.
    destruct (source_accepted (src_State r)) eqn:Hacc; [|done].
    destruct (rb_TargetLocator (src_Body r)) as [l|]; [|done].
    unfold ContextAcknowledgement_validate in Hctx.
    apply result_bind_ok in Hctx as ([] & _ & Hctx).
    apply result_bind_ok in Hctx as ([] & [Hd Hl]%handoff_need_ok%andb_true_iff & _).
    apply String.eqb_eq in Hd. apply bool_decide_eq_true in Hl as ->.
    split; [by destruct (src_State r)|done].
  - intros ret Hr. rewrite Hr in Hret.
    apply result_bind_ok in Hret as ([] & [Hacc Hc]%handoff_need_ok%andb_true_iff & _).
    apply bool_decide_eq_true in Hc. split; [by destruct (src_State r)|done].
Qed.

(** In every reachable state (any operations, any write outcomes, any
    tampering with directory modes) a stored source record is valid, named by
    its handoff, and carries the digest of its manifest; if it is accepted it
    names a session on the manifest's target device; and a retirement exists
    only on an accepted record whose context proof names exactly this
    manifest digest and that target session. *)
Theorem reachable_source_records clock io s id f :
  rtc handoff_step (hempty clock io) s → hs_source s !! id = Some f →
  ∃ r, f = Regular 384 (Some r) ∧ SourceRecord_validate r = Ok tt ∧ rec_id r = id ∧
    rb_Digest (src_Body r) = marshal_sha256 (rb_Manifest (src_Body r)) ∧
    (src_State r = SourceAccepted → ∃ l, rb_TargetLocator (src_Body r) = Some l ∧
       tl_DeviceID l = ta_DeviceID (m_Target (rb_Manifest (src_Body r)))) ∧
    (is_Some (src_Retirement r) → src_State r = SourceAccepted ∧
       ∃ ack, rb_ContextLoaded (src_Body r) = Some ack ∧
         ack_ManifestDigest ack = marshal_sha256 (rb_Manifest (src_Body r)) ∧
         rb_TargetLocator (src_Body r) = Some (ack_TargetLocator ack)).
Proof.
  intros Hr Hf. apply reachable_ok in Hr as [Hs _]. destruct (Hs id f Hf) as (r & -> & Hv & Hid).
  exists r. destruct (valid_source_accepted r Hv) as (Hd & Hacc & Hctx & Hret).
  split_and!; try done. intros [ret Hr]. destruct (Hret ret Hr) as [? [ack Hack]].
  split; [done|]. exists ack. destruct (Hctx ack Hack) as (_ & Hdig & Hl). rewrite <- Hd. done.
Qed.
End System.

(** * Promises of the source records

    What the handoff store promises its callers over time: immutable and
    terminal facts, compare-and-set, idempotent creation and
    acknowledgement, and that no record is ever stuck. *)

Section Promises.
Context `{DigestLib}.

(** ** Promises *)

Definition legal_source : relation SourceState := λ a b, legalSourceTransition a b = true.

(** What holds of every later version [r'] of a stored record [r]. *)
Record kept (r r' : SourceRecord) : Prop := {
  kept_manifest : rb_Manifest (src_Body r') = rb_Manifest (src_Body r);
  kept_digest : rb_Digest (src_Body r') = rb_Digest (src_Body r);
  kept_path : rtc legal_source (src_State r) (src_State r');
  kept_context : ∀ a, rb_ContextLoaded (src_Body r) = Some a → rb_ContextLoaded (src_Body r') = Some a;
  kept_retirement : ∀ ret, src_Retirement r = Some ret → ∃ ret', src_Retirement r' = Some ret' ∧
    ret_Mode ret' = ret_Mode ret ∧ ret_RequestedAt ret' = ret_RequestedAt ret ∧
    (ret_State ret = RetirementRetired → ret' = ret);
  kept_time : t_ns (rb_Updated (src_Body r)) ≤ t_ns (rb_Updated (src_Body r'));
}.

Lemma kept_refl r : kept r r.
Proof. split; try done. intros ret Hr. by exists ret. Qed.

Lemma kept_trans r1 r2 r3 : kept r1 r2 → kept r2 r3 → kept r1 r3.
Proof.
  intros [m1 d1 p1 c1 t1 u1] [m2 d2 p2 c2 t2 u2]. split; try congruence; try lia.
  - by transitivity (src_State r2).
  - auto.
  - intros ret Hr. destruct (t1 ret Hr) as (ret2 & Hr2 & Hm & Ha & He).
    destruct (t2 ret2 Hr2) as (ret3 & Hr3 & Hm' & Ha' & He'). exists ret3.
    split_and!; [done|congruence|congruence|]. intros Hs. specialize (He Hs). subst ret2. auto.
Qed.

Lemma step_kept r r' : body_step (src_Body r) (src_Body r') → source_step r r' → kept r r'.
Proof.
  intros (Hm & Hd & _ & Ht) Hs. unfold Before in Ht. apply Z.ltb_ge in Ht.
  split; try done.
  - destruct Hs as [Hl _ _|ack H1 H2 _ _ _|ret H1 H2 _ _ _ _|ret ret' H1 _ _ _ _ _ _ _].
    + by apply rtc_once.
    + by rewrite H1, H2.
    + by rewrite H1, H2.
    + by rewrite H1.
  - intros a Ha. destruct Hs; congruence.
  - intros ret Hr. destruct Hs as [_ _ He|ack _ _ _ _ He|ret0 _ _ _ Hn _ _|ret0 ret' _ _ Hr0 Hr' Hns _ Hmo Hat].
    + exists ret. split_and!; congruence.
    + exists ret. split_and!; congruence.
    + congruence.
    + assert (ret0 = ret) as -> by congruence. exists ret'. split_and!; try done. 
Qed.

Lemma source_step_kept s s' id r :
  handoff_step s s' → hs_source s !! id = Some (Regular 384 (Some r)) →
  ∃ r', hs_source s' !! id = Some (Regular 384 (Some r')) ∧ kept r r'.
Proof.
  intros [Hs _]%handoff_step_store Hr. specialize (Hs id). rewrite Hr in Hs.
  inversion Hs as [f Hf E|r0 _ _ _ _ _ E|f r0 r' Hd _ _ _ _ Hb Hst Ef E]; subst.
  - exists r. split; [done|apply kept_refl].
  - unfold decode_record in Hd. simpl in Hd. injection Hd as ->. exists r'.
    split; [done|by apply step_kept].
Qed.

(** Any history keeps a stored record. *)
Lemma handoff_promises_kept_record s s' id r :
  rtc handoff_step s s' → hs_source s !! id = Some (Regular 384 (Some r)) →
  ∃ r', hs_source s' !! id = Some (Regular 384 (Some r')) ∧ kept r r'.
Proof.
  intros Hr. revert r. induction Hr as [|s s1 s2 Hs _ IH]; intros r Hf; [exists r; split; [done|apply kept_refl]|].
  destruct (source_step_kept _ _ _ _ Hs Hf) as (r1 & Hf1 & Hk1).
  destruct (IH _ Hf1) as (r2 & Hf2 & Hk2). exists r2. split; [done|by eapply kept_trans].
Qed.

Lemma accepted_terminal s : rtc legal_source SourceAccepted s → s = SourceAccepted.
Proof. inversion 1 as [|? y ? Hl _]; [done|]. by destruct y. Qed.
Lemma failed_terminal s : rtc legal_source SourceFailed s → s = SourceFailed.
Proof. inversion 1 as [|? y ? Hl _]; [done|]. by destruct y. Qed.

(** Every path that gets past the prepare phase crosses the explicit launch
    edge. *)
Definition launched (s : SourceState) : bool :=
  match s with SourceLaunchingRemote | SourceAccepted | SourceLaunchRetryWait => true | _ => false end.

Lemma launch_edge a b :
  rtc legal_source a b → launched a = false → launched b = true →
  rtc legal_source a SourceRemotePrepared ∧ rtc legal_source SourceLaunchingRemote b.
Proof.
  induction 1 as [|a c b Hac Hcb IH]; intros Ha Hb; [congruence|].
  destruct (launched c) eqn:Hc.
  - by destruct a, c.
  - destruct (IH eq_refl Hb) as [Hcp Hlb]. split; [|done]. eapply rtc_l; [exact Hac|exact Hcp].
Qed.

(** C4: The promises of a stored source record: however the store is used
    afterwards, the record is never lost or replaced by another handoff's;
    its manifest and digest never change; its state only follows legal
    transitions, so accepted and failed are final, and it reaches a launch
    state only through remote-prepared; a recorded context proof is permanent;
    a retirement keeps its mode and request time, and once retired, stays
    exactly so; and its timestamp never goes back. *)
Theorem handoff_promises_kept s s' id r :
  rtc handoff_step s s' → hs_source s !! id = Some (Regular 384 (Some r)) →
  ∃ r', hs_source s' !! id = Some (Regular 384 (Some r')) ∧ kept r r' ∧
    (src_State r = SourceAccepted → src_State r' = SourceAccepted) ∧
    (src_State r = SourceFailed → src_State r' = SourceFailed) ∧
    (launched (src_State r) = false → launched (src_State r') = true →
       rtc legal_source (src_State r) SourceRemotePrepared ∧
       rtc legal_source SourceLaunchingRemote (src_State r')).
Proof.
  intros Hr Hf. destruct (handoff_promises_kept_record _ _ _ _ Hr Hf) as (r' & Hr' & Hk).
  exists r'. pose proof (kept_path _ _ Hk) as Hp. split_and!; [done|done| | |].
  - intros Ha. rewrite Ha in Hp. by apply accepted_terminal.
  - intros Ha. rewrite Ha in Hp. by apply failed_terminal.
  - intros Hn Hl. by apply launch_edge.
Qed.

(** ** Compare-and-set *)

#[export] Instance DirState_eq_dec : EqDecision DirState.
Proof. solve_decision. Defined.

Lemma valid_source_id r :
  SourceRecord_validate r = Ok tt → validateID "handoff id" (rec_id r) = Ok tt.
Proof.
  unfold SourceRecord_validate. intros Hv. cbv zeta in Hv.
  apply result_bind_ok in Hv as ([] & _ & Hv).
  apply result_bind_ok in Hv as ([] & [_ Hm]%validate_digest & _).
  unfold Manifest_Validate in Hm.
  apply result_bind_ok in Hm as ([] & _ & Hm).
  apply result_bind_ok in Hm as ([] & Hid & _). by eapply handoffID_field.
Qed.

Lemma getLocked_source_run id s r :
  hs_source s !! id = Some (Regular 384 (Some r)) → SourceRecord_validate r = Ok tt → rec_id r = id →
  hs_dirs s = DirPrivate → validateID "handoff id" id = Ok tt →
  getLocked (A:=SourceRecord) id s = (Ok r, s).
Proof.
  intros Hf Hv Hid Hd Hvid. unfold getLocked, recordPath, verifyPrivateDir, mbind, M_bind, lift, gets, mret, M_ret.
  rewrite Hvid. simpl. rewrite Hd. simpl. rewrite Hf. unfold decode_record. simpl.
  unfold validatePath. simpl. rewrite Hv. simpl. by rewrite Hid, String.eqb_refl.
Qed.

Lemma getLocked_source_fails id s :
  hs_dirs s ≠ DirPrivate → ∃ e, getLocked (A:=SourceRecord) id s = (Err e, s).
Proof.
  intros Hd. unfold getLocked, recordPath, verifyPrivateDir, mbind, M_bind, lift, gets, mret, M_ret, throw. simpl.
  destruct (validateID _ _); simpl; [|by eexists]. destruct (hs_dirs s); [done|by eexists..].
Qed.

(** The revision after [n] steps, short of the 64-bit wrap. *)
Lemma revision_bounds n s s' id r :
  nsteps handoff_step n s s' → hs_source s !! id = Some (Regular 384 (Some r)) →
  0 ≤ rb_Revision (src_Body r) → rb_Revision (src_Body r) + Z.of_nat n ≤ u64_max →
  ∃ r', hs_source s' !! id = Some (Regular 384 (Some r')) ∧ kept r r' ∧
    rb_Revision (src_Body r) ≤ rb_Revision (src_Body r') ≤ rb_Revision (src_Body r) + Z.of_nat n.
Proof.
  intros Hn. revert r. induction Hn as [s|n s s1 s2 Hs _ IH]; intros r Hf H0 Hmax.
  - exists r. split_and!; [done|apply kept_refl|lia|lia].
  - assert (∃ r1, hs_source s1 !! id = Some (Regular 384 (Some r1)) ∧ kept r r1 ∧
      (rb_Revision (src_Body r1) = rb_Revision (src_Body r) ∨
       rb_Revision (src_Body r1) = rb_Revision (src_Body r) + 1)) as (r1 & Hf1 & Hk1 & Hr1).
    { apply handoff_step_store in Hs as [Hs _]. specialize (Hs id). rewrite Hf in Hs.
      inversion Hs as [f E1 E|r0 _ _ _ _ _ E|f r0 r' Hd _ _ _ _ Hb Hst Ef E]; subst.
      - exists r. split_and!; [done|apply kept_refl|by left].
      - unfold decode_record in Hd. simpl in Hd. injection Hd as ->. exists r'.
        split_and!; [done|by apply step_kept|right].
        destruct Hb as (_ & _ & Hb & _). simpl in Hb. rewrite Hb. apply u64_succ_small. lia. }
    destruct (IH r1 Hf1) as (r2 & Hf2 & Hk2 & Hr2); [lia|lia|].
    exists r2. split_and!; [done|by eapply kept_trans|lia|lia].
Qed.

(** Compare-and-set: once one caller's transition from revision [rev] has
    succeeded, no later transition presented with the same revision can
    succeed, however many (up to the 64-bit range) operations happen in
    between; it fails, with the conflict error when the directory is
    readable, and changes nothing. *)
Theorem TransitionSource_cas id rev next t s r s1 n s2 next' t' :
  store_ok s → TransitionSource id rev next t s = (Ok r, s1) →
  0 ≤ rev → rev + 1 + Z.of_nat n ≤ u64_max → nsteps handoff_step n s1 s2 →
  ∃ e, TransitionSource id rev next' t' s2 = (Err e, s2) ∧
    (hs_dirs s2 = DirPrivate → validSourceState next' = true → e = HErrCASConflict).
Proof.
  intros Hok Ht H0 Hmax Hn.
  pose proof (hoare_run _ _ _ _ s (TransitionSource_steps (hs_source s) (hs_target s) id rev next t)
    (conj eq_refl eq_refl)) as Hstep. rewrite Ht in Hstep.
  destruct Hstep as [[(f & Hf & Hdec) Hst] [_ Hrev]].
  assert (store_ok s1) as Hok1 by by eapply store_step_ok; [|exact Hok].
  destruct (proj1 Hok1 id f Hf) as (r0 & -> & Hv & Hid). unfold decode_record in Hdec. simpl in Hdec.
  injection Hdec as ->. rewrite u64_succ_small in Hrev by lia.
  destruct (revision_bounds _ _ _ _ _ Hn Hf) as (r2 & Hf2 & _ & Hr2); [lia|lia|].
  assert (store_ok s2) as Hok2.
  { clear -Hok1 Hn. induction Hn as [|n s s1 s2 Hs _ IH]; [done|].
    apply IH. eapply store_step_ok; [by apply handoff_step_store|done]. }
  destruct (proj1 Hok2 id _ Hf2) as (r3 & [= <-] & Hv2 & Hid2).
  unfold TransitionSource. unfold mbind at 1, M_bind at 1, lift at 1.
  destruct (validSourceState next') eqn:Hvn; simpl; [|by eexists].
  destruct (decide (hs_dirs s2 = DirPrivate)) as [Hd|Hd].
  - exists HErrCASConflict. split; [|done]. unfold mbind, M_bind, lift.
    rewrite (getLocked_source_run id s2 r2) by (try done; rewrite <- Hid2;
      by apply (valid_source_id r2)).
    rewrite (proj2 (Z.eqb_neq _ _)) by lia. done.
  - destruct (getLocked_source_fails id s2 Hd) as [e He]. exists e.
    unfold mbind, M_bind. rewrite He. done.
Qed.
End Promises.
