(* ===== verification/HandoffLiveness.v ===== *)
(** Handoff operations answer as intended: creation is idempotent per
    manifest, an acknowledgement is accepted only from the exact continuation
    session, and every legal edge of the source state machine can be taken. *)

From S2P Require Import Prelude GoText HandoffManifest HandoffRecord HandoffStore HandoffFacts.
From S2P Require Import HandoffSteps HandoffSystem.
From stdpp Require Import base gmap strings list fin_maps sorting relations.
From Stdlib Require Import ZArith Lia Ascii.

Open Scope Z_scope.

Section Liveness.
Context `{DigestLib}.

Lemma store_ok_steps s s' : rtc handoff_step s s' → store_ok s → store_ok s'.
Proof.
  induction 1 as [|x y z Hxy _ IH]; [done|]. intros Hx. apply IH.
  eapply store_step_ok; [by apply handoff_step_store|done].
Qed.

(** ** Idempotent creation *)

Lemma QueueSource_existing m s r :
  hs_source s !! m_HandoffID m = Some (Regular 384 (Some r)) →
  SourceRecord_validate r = Ok tt → rec_id r = m_HandoffID m → Manifest_Validate m = Ok tt →
  QueueSource m s =
  (if String.eqb (rb_Digest (src_Body r)) (marshal_sha256 m) then (Ok (r, true), s)
   else (Err HErrManifestConflict, s)).
Proof.
  intros Hf Hv Hid Hm. unfold QueueSource, createRecord, Manifest_Digest, recordPath, mbind, M_bind,
    lift, gets, mret, M_ret, throw. rewrite Hm. simpl.
  rewrite <- Hid. rewrite (valid_source_id r Hv). simpl. rewrite Hid, Hf. unfold decode_record. simpl.
  rewrite Hv. rewrite Hid, String.eqb_refl. simpl. by destruct (String.eqb _ _).
Qed.

(** Queueing a handoff is idempotent and immutable: after it succeeds, in
    any later state the same manifest is answered with the stored record
    (the same handoff, advanced only by legal steps) as a replay that writes
    nothing, and a different manifest under the same handoff identity is
    refused as a conflict and changes nothing. *)
Theorem QueueSource_idempotent m s r b s1 s2 :
  store_ok s → QueueSource m s = (Ok (r, b), s1) → rtc handoff_step s1 s2 →
  (∃ r', QueueSource m s2 = (Ok (r', true), s2) ∧ kept r r') ∧
  (∀ m', m_HandoffID m' = m_HandoffID m → Manifest_Validate m' = Ok tt →
     marshal_sha256 m' ≠ marshal_sha256 m → QueueSource m' s2 = (Err HErrManifestConflict, s2)).
Proof.
  intros Hok Hq Hr.
  pose proof (hoare_run _ _ _ _ s (QueueSource_steps (hs_source s) (hs_target s) m)
    (conj eq_refl eq_refl)) as Hst. rewrite Hq in Hst.
  destruct Hst as [[(f & Hf & Hdec) Hst] Hmd]. simpl in Hdec, Hmd.
  assert (store_ok s1) as Hok1 by by eapply store_step_ok; [|exact Hok].
  destruct (proj1 Hok1 _ f Hf) as (r0 & -> & Hv & Hid). unfold decode_record in Hdec. simpl in Hdec.
  injection Hdec as ->.
  unfold Manifest_Digest in Hmd. apply result_bind_ok in Hmd as ([] & Hm & [= Hdg]). symmetry in Hdg.
  destruct (handoff_promises_kept_record _ _ _ _ Hr Hf) as (r' & Hf' & Hk).
  pose proof (store_ok_steps _ _ Hr Hok1) as Hok2.
  destruct (proj1 Hok2 _ _ Hf') as (r1 & [= <-] & Hv' & Hid').
  split.
  - exists r'. split; [|done]. rewrite (QueueSource_existing m s2 r') by done.
    by rewrite (kept_digest _ _ Hk), Hdg, String.eqb_refl.
  - intros m' Hmid Hm' Hne. rewrite (QueueSource_existing m' s2 r') by (done || by rewrite Hmid).
    rewrite (kept_digest _ _ Hk), Hdg. by destruct (String.eqb_spec (marshal_sha256 m) (marshal_sha256 m')).
Qed.

(** ** Acknowledgement *)

Lemma validateContext_target r ack :
  TargetRecord_validate r = Ok tt → rb_ContextLoaded (tgt_Body r) = Some ack →
  ack_ManifestDigest ack = rb_Digest (tgt_Body r) ∧
  rb_TargetLocator (tgt_Body r) = Some (ack_TargetLocator ack).
Proof.
  unfold TargetRecord_validate. intros Hv Hack. cbv zeta in Hv.
  do 4 apply result_bind_ok in Hv as ([] & _ & Hv).
  unfold validateContextLoaded in Hv. rewrite Hack in Hv.
  destruct (target_accepted _); [|done]. destruct (rb_TargetLocator _) as [l|]; [|done].
  unfold ContextAcknowledgement_validate in Hv.
  apply result_bind_ok in Hv as ([] & _ & Hv).
  apply result_bind_ok in Hv as ([] & [Hd%String.eqb_eq Hl%bool_decide_eq_true]%handoff_need_ok%andb_true_iff & _).
  by subst.
Qed.

(** What a successful acknowledgement says of its answer. *)
Definition acknowledged (marker scope session : string) (s : HStore) (r : TargetRecord) (replay : bool)
    (s1 : HStore) : Prop :=
  tgt_State r = TargetAccepted ∧ LaunchMarker (rec_id r) (rb_Digest (tgt_Body r)) = marker ∧
  ∃ l ack, rb_TargetLocator (tgt_Body r) = Some l ∧ tl_ProfileScope l = scope ∧ tl_SessionID l = session ∧
    rb_ContextLoaded (tgt_Body r) = Some ack ∧ ack_TargetLocator ack = l ∧
    ack_ManifestDigest ack = rb_Digest (tgt_Body r) ∧ (replay = true → s1 = s).

Lemma stepTime_run t u s r s' : stepTime t u s = (r, s') →
  hs_source s' = hs_source s ∧ hs_target s' = hs_target s.
Proof.
  unfold stepTime, hnow, mbind, M_bind, lift, mret, M_ret. intros Hr.
  destruct (IsZero t); simpl in Hr; destruct (need _ _); by simplify_eq.
Qed.

Lemma acknowledge_record_authentic id f marker phase scope session t s r replay s1 :
  LaunchMarker (rec_id f) (rb_Digest (tgt_Body f)) = marker → TargetRecord_validate f = Ok tt →
  acknowledge_record id f phase scope session t s = (Ok (r, replay), s1) →
  acknowledged marker scope session s r replay s1.
Proof.
  intros Hmk Hvf Hr. unfold acknowledge_record in Hr.
  destruct (tgt_State f) eqn:Hst; try done.
  destruct (rb_TargetLocator (tgt_Body f)) as [l|] eqn:Hl; [|done].
  apply bind_run_ok in Hr as ([] & ? & Hg & Hr). unfold lift in Hg. injection Hg as Hg <-.
  apply guard_err_ok, andb_true_iff in Hg as [Hsc%String.eqb_eq Hse%String.eqb_eq].
  destruct (rb_ContextLoaded (tgt_Body f)) as [ack|] eqn:Hc.
  - injection Hr as <- <- <-. destruct (validateContext_target f ack Hvf Hc) as [Hd Hla].
    split; [done|]. split; [done|]. exists l, ack. split_and!; try done. congruence.
  - apply bind_run_ok in Hr as (at_ & s2 & _ & Hr). cbv zeta in Hr.
    apply bind_run_ok in Hr as ([] & ? & [= Hv <-] & Hr).
    apply bind_run_ok in Hr as ([] & s3 & _ & Hr). injection Hr as <- <- <-.
    split; [done|]. split; [done|]. by exists l, (mkAck phase (rb_Digest (tgt_Body f)) l at_).
Qed.

Lemma acknowledge_files_authentic marker phase scope session t files s r replay s1 :
  acknowledge_files marker phase scope session t files s = (Ok (r, replay), s1) →
  acknowledged marker scope session s r replay s1.
Proof.
  induction files as [|[id f] files IH]; intros Hr; [done|]. cbn [acknowledge_files] in Hr.
  destruct (decode_record (Some f)) as [rec|] eqn:Hd; [|done].
  destruct (validatePath rec id) as [[]|] eqn:Hv; cbn [is_ok negb] in Hr; [|done].
  destruct (String.eqb_spec (LaunchMarker (rec_id rec) (rb_Digest (tgt_Body rec))) marker) as [Hm|];
    cbn [negb] in Hr; [|by apply IH].
  eapply acknowledge_record_authentic; [exact Hm| |exact Hr]. unfold validatePath in Hv.
  by apply result_bind_ok in Hv as ([] & ? & _).
Qed.

(** A target acknowledgement is authentic: it succeeds only with the
    context-loaded phase and a marker derived from the identity and manifest
    digest of an accepted record, from the very session recorded as that
    handoff's continuation; the proof it records names that digest and that
    session; and a replay changes nothing. *)
Theorem AcknowledgeTarget_authentic marker phase scope session t s r replay s1 :
  AcknowledgeTarget marker phase scope session t s = (Ok (r, replay), s1) →
  phase = ContextLoadedPhase ∧ validLaunchMarker marker = true ∧
  acknowledged marker scope session s r replay s1.
Proof.
  unfold AcknowledgeTarget. intros Hr.
  apply bind_run_ok in Hr as ([] & ? & [= Hg <-] & Hr). apply guard_err_ok in Hg.
  rewrite !andb_true_iff in Hg. destruct Hg as [[[Hm Hp%String.eqb_eq] _] _].
  split; [done|]. split; [done|].
  apply bind_run_ok in Hr as (files & s2 & Hf & Hr).
  assert (s2 = s) as ->.
  { unfold try, recordFiles, verifyPrivateDir, mbind, M_bind, gets, lift, mret, M_ret, throw in Hf. simpl in Hf.
    destruct (hs_dirs s); simpl in Hf; try by simplify_eq. destruct (need _ _); by simplify_eq. }
  destruct files as [files|]; [|done]. by eapply acknowledge_files_authentic.
Qed.

(** ** No legal edge is dead *)

(** A payload for each kind of next state. *)
Definition payload (b : RecordBody) (next : SourceState) : Transition :=
  let u := rb_Updated b in
  mkTransition u
    (if source_retry next then Some (mkTime (t_ns u + 1) true) else None)
    (if source_retry next || source_failed next
     then Some (mkFailure FailureInternal "" (source_retry next) u) else None)
    (if source_accepted next
     then Some (mkTargetLocator (ta_DeviceID (m_Target (rb_Manifest b))) "root" "session") else None).

(** The record that payload produces. *)
Definition advanced (r : SourceRecord) (next : SourceState) : SourceRecord :=
  let b := bump (rb_Updated (src_Body r)) (src_Body r) in
  let t := payload (src_Body r) next in
  let b' := mkBody (rb_Version b) (rb_Manifest b) (rb_Digest b) (rb_Attempts b) (tr_NextRetry t)
    (tr_Failure t) (tr_TargetLocator t) (rb_ContextLoaded b) (rb_Revision b) (rb_Updated b) in
  mkSource next (match next with SourcePreparingRemote => count_attempt b' | _ => b' end)
    (src_Retirement r).

Lemma valid_source_fields r :
  SourceRecord_validate r = Ok tt →
  rb_Version (src_Body r) = RecordVersion ∧
  validateStoredManifest (rb_Manifest (src_Body r)) (rb_Digest (src_Body r)) = Ok tt ∧
  utc_nonzero (rb_Updated (src_Body r)) = true ∧
  validateID "target locator device_id" (ta_DeviceID (m_Target (rb_Manifest (src_Body r)))) = Ok tt.
Proof.
  unfold SourceRecord_validate. intros Hv. cbv zeta in Hv.
  apply result_bind_ok in Hv as ([] & Hver%handoff_need_ok%Z.eqb_eq & Hv).
  apply result_bind_ok in Hv as ([] & Hm & Hv).
  apply result_bind_ok in Hv as ([] & _ & Hv).
  apply result_bind_ok in Hv as ([] & Hf & _). unfold validateRecordFields in Hf.
  apply result_bind_ok in Hf as ([] & _ & Hf).
  apply result_bind_ok in Hf as ([] & Hu%handoff_need_ok & _). split_and!; try done.
  apply validate_digest in Hm as [_ Hm]. unfold Manifest_Validate in Hm.
  do 6 apply result_bind_ok in Hm as ([] & _ & Hm).
  apply result_bind_ok in Hm as ([] & Ht & _). unfold TargetAgent_validate in Ht.
  apply result_bind_ok in Ht as ([] & Ht & _). by eapply handoffID_field.
Qed.

Lemma advanced_valid r next :
  SourceRecord_validate r = Ok tt → legalSourceTransition (src_State r) next = true →
  0 ≤ rb_Revision (src_Body r) < u64_max → SourceRecord_validate (advanced r next) = Ok tt.
Proof.
  intros Hv Hl Hrev. destruct (valid_source_fields r Hv) as (Hver & Hm & Hu & Hdev).
  destruct (valid_source_accepted r Hv) as (_ & _ & Hctx & Hret).
  assert (src_State r ≠ SourceAccepted) as Hna by (intros E; rewrite E in Hl; done).
  assert (rb_ContextLoaded (src_Body r) = None) as Hc.
  { destruct (rb_ContextLoaded (src_Body r)) as [a|]; [|done]. by destruct (Hctx a eq_refl). }
  assert (src_Retirement r = None) as Hr.
  { destruct (src_Retirement r) as [ret|]; [|done]. by destruct (Hret ret eq_refl). }
  pose proof (u64_succ_small _ Hrev) as Hs.
  assert ((u64_succ (rb_Revision (src_Body r)) =? 0) = false) as Hs0 by (apply Z.eqb_neq; lia).
  assert (After (rb_Updated (src_Body r)) (rb_Updated (src_Body r)) = false) as Ha by apply Z.ltb_irrefl.
  assert (After (mkTime (t_ns (rb_Updated (src_Body r)) + 1) true) (rb_Updated (src_Body r)) = true) as Hb
    by (apply Z.ltb_lt; simpl; lia).
  unfold SourceRecord_validate, advanced, validateContextLoaded.
  destruct next; [..|by destruct (src_State r)];
    simpl; rewrite ?Hver, ?Hm, ?Hr, ?Hc; simpl; rewrite ?Hs0, ?Hu; simpl;
    unfold validateRecordFields, Failure_validate, TargetLocator_validate; simpl;
    rewrite ?Hs0, ?Hu, ?Ha, ?Hb; simpl; rewrite ?Hu, ?Ha; simpl; try done.
  rewrite Hdev. simpl. by rewrite String.eqb_refl.
Qed.

(** No legal edge of the source state machine is dead: in every reachable
    state, if a stored record may legally move to [next], then a caller that
    presents its current revision with a suitable payload gets that
    transition, on a healthy file system and short of the revision limit. In
    particular a record is stuck only when accepted or failed. *)
Theorem legal_transition_enabled clock io s id r next :
  rtc handoff_step (hempty clock io) s → hs_source s !! id = Some (Regular 384 (Some r)) →
  legalSourceTransition (src_State r) next = true →
  0 ≤ rb_Revision (src_Body r) < u64_max → hs_dirs s = DirPrivate → hs_io s = [] →
  ∃ t r' s', TransitionSource id (rb_Revision (src_Body r)) next t s = (Ok r', s') ∧
    hs_source s' !! id = Some (Regular 384 (Some r')) ∧ src_State r' = next.
Proof.
  intros Hr Hf Hl Hrev Hd Hio. apply reachable_ok in Hr as [Hs _].
  destruct (Hs id _ Hf) as (r0 & [= <-] & Hv & Hid).
  pose proof (advanced_valid r next Hv Hl Hrev) as Hv'.
  destruct (valid_source_fields r Hv) as (_ & _ & Hu & _).
  unfold utc_nonzero in Hu. apply andb_true_iff in Hu as [Hnz%negb_true_iff Hutc].
  exists (payload (src_Body r) next), (advanced r next).
  assert (validSourceState next = true) as Hvn by by destruct (src_State r), next.
  unfold TransitionSource, stepTime, mbind, M_bind, lift. rewrite Hvn. simpl.
  rewrite (getLocked_source_run id s r) by (try done; rewrite <- Hid; by apply valid_source_id).
  rewrite Z.eqb_refl. simpl. rewrite Hl. simpl. rewrite Hnz. unfold mret, M_ret.
  assert (Before (rb_Updated (src_Body r)) (rb_Updated (src_Body r)) = false) as Hb by apply Z.ltb_irrefl.
  rewrite Hb, Hutc. simpl.
  assert (applyTransition (bump (rb_Updated (src_Body r)) (src_Body r)) (payload (src_Body r) next)
    (source_retry next) (source_failed next) (source_accepted next) =
    Ok (let b := bump (rb_Updated (src_Body r)) (src_Body r) in
        let t := payload (src_Body r) next in
        mkBody (rb_Version b) (rb_Manifest b) (rb_Digest b) (rb_Attempts b) (tr_NextRetry t)
          (tr_Failure t) (tr_TargetLocator t) (rb_ContextLoaded b) (rb_Revision b) (rb_Updated b))) as ->
    by by destruct next.
  fold (advanced r next). unfold advanced in Hv' |- *. cbv zeta in Hv' |- *. rewrite Hv'.
  unfold writeJSONFile, mbind, M_bind, gets, modify. simpl. rewrite Hd. simpl. rewrite Hf. simpl.
  rewrite Hio. simpl. eexists. split; [done|]. simpl. split; [apply lookup_insert_eq|done].
Qed.
End Liveness.
