(* ===== verification/HandoffWorld.v ===== *)
(** What the two applications of a handoff (the source's outbox and the
    target's) have in common: a state made of the shared store and a log of the
    calls that leave the application, answers from outside, and the messages
    the two exchange. The store is shared with other goroutines and other
    processes: they may use it whenever the application waits for an answer. *)

From S2P Require Import Prelude GoText HandoffManifest HandoffRecord HandoffStore HandoffSystem.
From stdpp Require Import base gmap strings list relations.
From Stdlib Require Import ZArith Lia Ascii.

Open Scope Z_scope.

(** ** Messages *)

Record FailureDTO := mkFailureDTO { fd_Code : FailureCode; fd_Message : string; fd_Retryable : bool }.

(** [meshHandoffStatus] *)
Record RemoteStatus := mkRemote {
  st_HandoffID : string; st_ManifestDigest : string; st_State : TargetState; st_Attempts : Z;
  st_Failure : option FailureDTO; st_TargetLocator : option TargetLocator }.

(** [meshHandoffVerification] *)
Record RemoteVerification := mkVerification {
  vf_HandoffID : string; vf_ManifestDigest : string; vf_TargetLocator : TargetLocator;
  vf_VerificationState : string; vf_ContextLoaded : bool;
  vf_Acknowledgement : option ContextAcknowledgement }.

(** The error codes of a mesh call, as far as handoffs tell them apart. *)
Inductive RPCCode :=
| ErrorUnsupportedMethod | ErrorPermissionDenied | ErrorCapabilityRequired | ErrorInvalidRequest
| ErrorBackpressure | ErrorPayloadTooLarge | ErrorInternal | ErrorOther (raw : string).

(** An external failure and whether it is classified as retryable. *)
Record External := mkExternal { ext_Retryable : bool }.

(** ** The world *)

(** [others k] is what everybody else did to the store by tick [k]: any
    operations of the store, and any changes around its files. *)
Class Others `{DigestLib} := {
  others : nat → HStore → HStore;
  others_steps : ∀ k s, rtc handoff_step s (others k s);
}.

(** The store, the number of answers so far, and the calls made. *)
Record World (C : Type) := mkWorld { w_store : HStore; w_tick : nat; w_calls : list C }.
#[global] Arguments mkWorld {C} _ _ _.
#[global] Arguments w_store {C} _.
#[global] Arguments w_tick {C} _.
#[global] Arguments w_calls {C} _.

Section World.
Context `{Others} {C E : Type}.

(** A store operation, its error inspected by the caller. *)
Definition store_op {A} (m : HM A) : M (World C) E (result HandoffError A) := λ w,
  let '(r, s) := m (w_store w) in (Ok r, mkWorld s (w_tick w) (w_calls w)).

(** Time passes until the next answer. *)
Definition wait (w : World C) : World C :=
  mkWorld (others (w_tick w) (w_store w)) (S (w_tick w)) (w_calls w).
Definition log (c : C) (w : World C) : World C := mkWorld (w_store w) (w_tick w) (w_calls w ++ [c]).

(** An answer from outside, at the current tick. *)
Definition ask {A} (f : nat → A) : M (World C) E A := λ w, (Ok (f (w_tick w)), wait w).
(** A call that leaves the application, and its answer. *)
Definition call {A} (c : C) (f : nat → A) : M (World C) E A := λ w, (Ok (f (w_tick w)), wait (log c w)).

(** [at := now().UTC(); if at.Before(notBefore) { at = notBefore }] *)
Definition transitionTime (now : nat → Time) (notBefore : Time) : M (World C) E Time :=
  t ← ask now;
  let at_ := UTC t in
  mret (if Before at_ notBefore then notBefore else at_).
End World.
