(* ===== verification/HandoffWorldFacts.v ===== *)
(** Reasoning about the two handoff applications: what is known of a stored
    record while other goroutines go on using the store, and the rules for
    store operations, answers and logged calls. Each application states what
    its calls need as an instance of [Contract]. *)

From S2P Require Import Prelude GoText HandoffManifest HandoffRecord HandoffStore HandoffFacts.
From S2P Require Import HandoffSteps HandoffSystem HandoffWorld.
From stdpp Require Import base gmap strings list relations.
From Stdlib Require Import ZArith Lia Ascii.

Open Scope Z_scope.

(** ** Later versions of a record *)

(** What a side promises of the later versions of its records. *)
Class Tracked (A : Type) `{DigestLib} `{SideSteps A} := {
  later : relation A;
  later_preorder :: PreOrder later;
  later_step : ∀ r r', body_step (side_body r) (side_body r') → side_step r r' → later r r';
  later_manifest : ∀ r r', later r r' → rb_Manifest (side_body r') = rb_Manifest (side_body r);
  side_moves : ∀ s s', store_step s s' → ∀ id, file_step id (side_files s !! id) (side_files s' !! id);
  side_sound : ∀ s, store_ok s → map_Forall file_ok (side_files s);
}.

Section TargetPromises.
Context `{DigestLib}.

Definition legal_target : relation TargetState := λ a b, legalTargetTransition a b = true.

(** What holds of every later version [r'] of a stored target record [r]. *)
Record tkept (r r' : TargetRecord) : Prop := {
  tkept_manifest : rb_Manifest (tgt_Body r') = rb_Manifest (tgt_Body r);
  tkept_digest : rb_Digest (tgt_Body r') = rb_Digest (tgt_Body r);
  tkept_path : rtc legal_target (tgt_State r) (tgt_State r');
  tkept_context : ∀ a, rb_ContextLoaded (tgt_Body r) = Some a → rb_ContextLoaded (tgt_Body r') = Some a;
  tkept_time : t_ns (rb_Updated (tgt_Body r)) ≤ t_ns (rb_Updated (tgt_Body r'));
}.

Lemma tkept_refl r : tkept r r.
Proof. by split. Qed.
Lemma tkept_trans r1 r2 r3 : tkept r1 r2 → tkept r2 r3 → tkept r1 r3.
Proof.
  intros [m1 d1 p1 c1 t1] [m2 d2 p2 c2 t2]. split; try congruence; try lia; [by etrans|auto].
Qed.
Lemma step_tkept r r' : body_step (tgt_Body r) (tgt_Body r') → target_step r r' → tkept r r'.
Proof.
  intros (Hm & Hd & _ & Ht) Hs. unfold Before in Ht. apply Z.ltb_ge in Ht.
  split; [done|done| |..|done].
  - destruct Hs as [Hl _|l H1 H2 _ _ _|ack H1 H2 _ _]; [by apply rtc_once|by rewrite H1, H2..].
  - intros a Ha. destruct Hs; congruence.
Qed.
End TargetPromises.

#[export] Instance source_tracked `{DigestLib} : Tracked SourceRecord.
Proof.
  refine {| later := kept; later_step := step_kept; later_manifest := kept_manifest |}.
  - split; [exact kept_refl|exact kept_trans].
  - intros s s' [Hs _]. exact Hs.
  - intros s [Hs _]. exact Hs.
Defined.
#[export] Instance target_tracked `{DigestLib} : Tracked TargetRecord.
Proof.
  refine {| later := tkept; later_step := step_tkept; later_manifest := tkept_manifest |}.
  - split; [exact tkept_refl|exact tkept_trans].
  - intros s s' [_ Ht]. exact Ht.
  - intros s [_ Ht]. exact Ht.
Defined.

Section Stored.
Context `{DigestLib} {A : Type} `{SideSteps A} `{!Tracked A}.

Definition stored (s : HStore) (r : A) : Prop :=
  side_files s !! rec_id r = Some (Regular 384 (Some r)).

Lemma later_id r r' : later r r' → rec_id r' = rec_id r.
Proof. intros Hk. unfold rec_id. by rewrite (later_manifest _ _ Hk). Qed.

Lemma stored_valid s r : store_ok s → stored s r → side_validate r = Ok tt.
Proof. intros Hs Hr. by destruct (side_sound _ Hs _ _ Hr) as (r0 & [= <-] & Hv & _). Qed.

Lemma stored_step s s' r : handoff_step s s' → stored s r → ∃ r', stored s' r' ∧ later r r'.
Proof.
  intros Hs%handoff_step_store Hr. pose proof (side_moves _ _ Hs (rec_id r)) as Hf. rewrite Hr in Hf.
  inversion Hf as [f Hf0 E|r0 _ _ _ _ _ E|f r0 r' Hd _ _ _ Hid Hb Hst Ef E]; subst.
  - by exists r.
  - unfold decode_record in Hd. simpl in Hd. injection Hd as ->. exists r'.
    split; [unfold stored; by rewrite Hid|by apply later_step].
Qed.

(** Any history keeps a stored record. *)
Lemma stored_steps s s' r : rtc handoff_step s s' → stored s r → ∃ r', stored s' r' ∧ later r r'.
Proof.
  intros Hr. revert r. induction Hr as [|s s1 s2 Hs _ IH]; intros r Hf; [by exists r|].
  destruct (stored_step _ _ _ Hs Hf) as (r1 & Hf1 & Hk1).
  destruct (IH _ Hf1) as (r2 & Hf2 & Hk2). exists r2. split; [done|by etrans].
Qed.
End Stored.

(** A store that started empty. *)
Definition reachable `{DigestLib} (s : HStore) : Prop :=
  ∃ clock io, rtc handoff_step (hempty clock io) s.

Lemma reachable_steps `{DigestLib} s s' : rtc handoff_step s s' → reachable s → reachable s'.
Proof. intros Hs (clock & io & Hr). exists clock, io. by etrans. Qed.

(** The store has held exactly the version [r]. *)
Definition held `{DigestLib} {A} `{SideSteps A} `{!Tracked A} (s : HStore) (r : A) : Prop :=
  ∃ s0, reachable s0 ∧ stored s0 r ∧ rtc handoff_step s0 s.

Section Held.
Context `{DigestLib} {A : Type} `{SideSteps A} `{!Tracked A}.

Lemma stored_held s (r : A) : reachable s → stored s r → held s r.
Proof. intros Hs Hr. by exists s. Qed.
Lemma held_steps s s' (r : A) : rtc handoff_step s s' → held s r → held s' r.
Proof. intros Hs (s0 & Hr0 & Hr & Hs0). exists s0. split_and!; [done..|by etrans]. Qed.
Lemma held_later s (r : A) : held s r → ∃ r', stored s r' ∧ later r r'.
Proof. intros (s0 & _ & Hr & Hs). by eapply stored_steps. Qed.
End Held.

Lemma store_ok_rtc `{DigestLib} s s' : rtc handoff_step s s' → store_ok s → store_ok s'.
Proof.
  induction 1 as [|x y z Hxy _ IH]; [done|]. intros Hx. apply IH.
  eapply store_step_ok; [by apply handoff_step_store|done].
Qed.

Lemma discard_run {A} (m : HM A) s : (discard m s).2 = (m s).2.
Proof. unfold discard, mbind, M_bind. by destruct (m s) as [[]]. Qed.

Lemma op_step `{DigestLib} {A} (m : HM A) o s : run_op o = discard m → handoff_step s (m s).2.
Proof.
  intros Ho. rewrite <- discard_run, <- Ho. destruct (run_op o s) as [r s'] eqn:E. by eapply hstep_op.
Qed.

(** ** The contract of an application *)

(** [inv] holds of the store at all times; [justified] is what has to hold
    when a call is made, and keeps holding. *)
Class Contract `{Others} (C : Type) := {
  inv : HStore → Prop;
  justified : HStore → C → Prop;
  inv_others : ∀ k s, store_ok s → inv s → inv (others k s);
  justified_steps : ∀ s s' c, rtc handoff_step s s' → justified s c → justified s' c;
}.

Section Rules.
Context `{Others} {C E : Type} `{!Contract C}.

Record world_ok (w : World C) : Prop := {
  wok_store : store_ok (w_store w);
  wok_reachable : reachable (w_store w);
  wok_inv : inv (w_store w);
  wok_calls : Forall (justified (w_store w)) (w_calls w);
}.

Lemma calls_steps s s' l : rtc handoff_step s s' → Forall (justified s) l → Forall (justified s') l.
Proof. intros Hs Hl. eapply Forall_impl; [exact Hl|]. intros c. by apply justified_steps. Qed.

Lemma world_step w s k :
  rtc handoff_step (w_store w) s → inv s → world_ok w → world_ok (mkWorld s k (w_calls w)).
Proof.
  intros Hs Hi [Ho Hr _ Hc]. split; simpl;
    [by eapply store_ok_rtc|by eapply reachable_steps|done|by eapply calls_steps].
Qed.
Lemma world_wait w : world_ok w → world_ok (wait w).
Proof.
  intros Hw. apply world_step; [apply others_steps|apply inv_others; apply Hw|done].
Qed.

(** The world is sound and has held the valid record [r]. *)
Definition has {A} `{SideSteps A} `{!Tracked A} (r : A) (w : World C) : Prop :=
  world_ok w ∧ side_validate r = Ok tt ∧ held (w_store w) r.

Section Has.
Context {A : Type} `{SideSteps A} `{!Tracked A}.

Lemma has_world (r : A) w : has r w → world_ok w.
Proof. by intros [? _]. Qed.
Lemma has_step (r : A) w w' :
  rtc handoff_step (w_store w) (w_store w') → world_ok w' → has r w → has r w'.
Proof.
  intros Hs Hw (_ & Hv & Hr). split; [done|]. split; [done|]. by eapply held_steps.
Qed.
Lemma has_wait (r : A) w : has r w → has r (wait w).
Proof.
  intros Hr. eapply has_step; [apply others_steps|apply world_wait; by eapply has_world|done].
Qed.
Lemma stored_has (r : A) w : world_ok w → stored (w_store w) r → has r w.
Proof. intros Hw Hr. split; [done|]. split; [by eapply stored_valid; [apply Hw|]|].
  apply stored_held; [apply Hw|done].
Qed.

Lemma hoare_ask_has {B} (f : nat → B) (r : A) :
  hoare (has r) (ask f : M (World C) E B) (λ _, has r) (λ _, world_ok).
Proof. intros w Hw. by apply has_wait. Qed.

Lemma hoare_call {B} c (f : nat → B) (r : A) :
  (∀ s, store_ok s → inv s → side_validate r = Ok tt → held s r → justified s c) →
  hoare (has r) (call c f : M (World C) E B) (λ _, has r) (λ _, world_ok).
Proof.
  intros Hc w Hw. apply has_wait. destruct Hw as ([Hs Hre Hi Hcs] & Hv & Hr).
  split; [|done]. split; simpl; [done..|].
  apply Forall_app. split; [done|]. apply Forall_singleton. by eapply Hc.
Qed.
Lemma hoare_transitionTime now t (r : A) :
  hoare (has r) (transitionTime now t : M (World C) E Time) (λ _, has r) (λ _, world_ok).
Proof. unfold transitionTime. eapply hoare_bind; [apply hoare_ask_has|]. by intros a w Hw. Qed.

(** An operation that answers with a stored record; [F] is what the steps of
    the store keep. *)
Lemma hoare_answering_frame {B} (m : HM B) o (rec : B → A) (φ : B → Prop) (F : HStore → Prop) id P :
  run_op o = discard m → (∀ w, P w → world_ok w) → (∀ w, P w → inv (m (w_store w)).2) →
  (∀ w, P w → F (w_store w)) → (∀ s s', rtc handoff_step s s' → F s → F s') →
  (∀ FS FT, hoare (files_are FS FT) m
     (λ b s, (∃ f, side_files s !! id = Some f ∧ decode_record (Some f) = Ok (rec b)) ∧ φ b)
     (λ _ _, True)) →
  hoare P (store_op m : M (World C) E _)
    (λ res w, world_ok w ∧ F (w_store w) ∧ match res with
              | Ok b => has (rec b) w ∧ rec_id (rec b) = id ∧ stored (w_store w) (rec b) ∧ φ b
              | Err _ => True end) (λ _, world_ok).
Proof.
  intros Ho HP Hinv HF Hkeep Hm w Hw. unfold store_op.
  pose proof (op_step m o (w_store w) Ho) as Hst. specialize (Hinv w Hw).
  pose proof (Hkeep _ _ (rtc_once _ _ Hst) (HF w Hw)) as HF'.
  pose proof (hoare_run _ _ _ _ (w_store w) (Hm (hs_source (w_store w)) (hs_target (w_store w)))
    (conj eq_refl eq_refl)) as Hq.
  pose proof (world_step w (m (w_store w)).2 (w_tick w) (rtc_once _ _ Hst) Hinv (HP w Hw)) as Hok.
  destruct (m (w_store w)) as [[b|e] s]; simpl in *; [|done]. split; [done|]. split; [done|].
  destruct Hq as [(f & Hf & Hd) Hφ].
  destruct (side_sound _ (wok_store _ Hok) id f Hf) as (r0 & -> & _ & Hid).
  unfold decode_record in Hd. simpl in Hd. injection Hd as ->.
  assert (stored s (rec b)) as Hst2 by (unfold stored; rewrite Hid; exact Hf).
  split; [by apply stored_has|done].
Qed.

Lemma hoare_answering {B} (m : HM B) o (rec : B → A) (φ : B → Prop) id P :
  run_op o = discard m → (∀ w, P w → world_ok w) → (∀ w, P w → inv (m (w_store w)).2) →
  (∀ FS FT, hoare (files_are FS FT) m
     (λ b s, (∃ f, side_files s !! id = Some f ∧ decode_record (Some f) = Ok (rec b)) ∧ φ b)
     (λ _ _, True)) →
  hoare P (store_op m : M (World C) E _)
    (λ res w, world_ok w ∧ match res with
              | Ok b => has (rec b) w ∧ rec_id (rec b) = id ∧ stored (w_store w) (rec b) ∧ φ b
              | Err _ => True end) (λ _, world_ok).
Proof.
  intros Ho HP Hinv Hm. eapply hoare_conseq;
    [by apply (hoare_answering_frame m o rec φ (λ _, True) id P)|done| |done].
  by intros [b|e] w (? & _ & ?).
Qed.

(** A stored record with the identity of a held one is a later version of it. *)
Lemma held_same s (r r' : A) : held s r → stored s r' → rec_id r' = rec_id r → later r r'.
Proof.
  intros Hr Hr' Hid. destruct (held_later _ _ Hr) as (r1 & Hr1 & Hk).
  unfold stored in Hr', Hr1. rewrite (later_id _ _ Hk), <- Hid, Hr' in Hr1. by injection Hr1 as <-.
Qed.

Lemma getLocked_run id s :
  (getLocked (A:=A) id s).2 = s ∧
  (∀ r, (getLocked (A:=A) id s).1 = Ok r → store_ok s → stored s r ∧ rec_id r = id).
Proof.
  unfold getLocked, recordPath, verifyPrivateDir, mbind, M_bind, lift, gets, mret, M_ret, throw.
  destruct (validateID "handoff id" id) as [[]|]; [|done]. simpl.
  destruct (hs_dirs s); try done. simpl.
  destruct (side_files s !! id) as [f|] eqn:Hf; [|done].
  destruct (decode_record (Some f)) as [r|] eqn:Hd; [|done].
  destruct (validatePath r id) as [[]|]; [|done]. simpl. split; [done|].
  intros r' [= <-] Hs. destruct (side_sound _ Hs id f Hf) as (r0 & -> & _ & Hid).
  unfold decode_record in Hd. simpl in Hd. injection Hd as <-. unfold stored. by rewrite Hid.
Qed.

Lemma hoare_get id :
  hoare world_ok (store_op (_ ← lift (validateID "handoff id" id); getLocked (A:=A) id) : M (World C) E _)
    (λ res w, match res with Ok r => has r w ∧ stored (w_store w) r ∧ rec_id r = id
              | Err _ => world_ok w end) (λ _, world_ok).
Proof.
  intros [s k c] Hw. unfold store_op, lift, mbind, M_bind. simpl.
  destruct (validateID _ _) as [[]|]; [|done].
  pose proof (getLocked_run id s) as [Hs Hr]. destruct (getLocked id s) as [[r|e] s']; simpl in *; subst s'.
  - destruct (Hr r eq_refl) as [? ?]; [apply Hw|]. split; [by apply stored_has|done].
  - done.
Qed.

Lemma select_run (p : A → bool) at_ s : (select_records p at_ s).2 = s.
Proof.
  unfold select_records, listRecords, recordFiles, verifyPrivateDir, mbind, M_bind, lift, gets, mret, M_ret, throw.
  destruct (need _ _); [|done]. simpl. destruct (hs_dirs s); try done. simpl.
  destruct (need _ _); [|done]. simpl. by destruct (read_records _).
Qed.
Lemma hoare_select (p : A → bool) at_ :
  hoare world_ok (store_op (select_records p at_) : M (World C) E _) (λ _, world_ok) (λ _, world_ok).
Proof.
  intros w Hw. unfold store_op. pose proof (select_run p at_ (w_store w)) as Hs.
  destruct (select_records _ _ _) as [r s]. simpl in *. subst s. by destruct w.
Qed.
End Has.

Abbreviation ends_ok P m := (hoare P m (λ _, world_ok) (λ _, world_ok)).

Lemma hoare_ask_ok {B} (f : nat → B) : ends_ok world_ok (ask f : M (World C) E B).
Proof. intros w Hw. by apply world_wait. Qed.
Lemma ok_mret {B} (a : B) P : (∀ w, P w → world_ok w) → ends_ok P (mret a : M (World C) E B).
Proof. intros HP w Hw. simpl. by apply HP. Qed.
Lemma ok_throw {B} (e : E) P Q :
  (∀ w, P w → world_ok w) → hoare P (throw (A:=B) e) Q (λ _, world_ok).
Proof. intros HP w Hw. simpl. by apply HP. Qed.
Lemma ok_try {B} (m : M (World C) E B) : ends_ok world_ok m → ends_ok world_ok (try m).
Proof. intros Hm w Hw. specialize (Hm w Hw). unfold try. by destruct (m w) as [[]]. Qed.
Lemma ok_lift {B} (r : result E B) P : (∀ w, P w → world_ok w) → ends_ok P (lift r : M (World C) E B).
Proof. intros HP w Hw. unfold lift. destruct r; by apply HP. Qed.
End Rules.
