(* ===== verification/HandoffOutbox.v ===== *)
(** internal/daemon/handoff_outbox.go: the source side of a handoff. The outbox
    drives stored records through the remote prepare, launch and verify calls
    and closes the source session at the end. Remote peers, the session
    catalog and the project registry answer through oracles indexed by a tick;
    every call that leaves the daemon is logged. *)

From S2P Require Import Prelude GoText HandoffManifest HandoffRecord HandoffStore HandoffSystem.
From S2P Require Import HandoffWorld.
From stdpp Require Import base gmap strings list fin_maps sorting.
From Stdlib Require Import ZArith Lia Ascii.

Open Scope Z_scope.

(** ** What the outbox talks to *)

(** The error of a mesh call. *)
Inductive CallError := RPCError (code : RPCCode) | ErrMethodNotRegistered | TransportError.

(** The fields of [sessionview.Detail] the outbox reads. *)
Record TurnActivity := mkTurnActivity { ta_TurnCount : Z; ta_LastTurnEndAt : option Time }.
Record Detail := mkDetail {
  dt_ProfileScope : string; dt_SessionID : string; dt_Agent : string; dt_LaunchCWD : string;
  dt_State : string; dt_HistoryBasename : option string; dt_Turn : option TurnActivity }.

Class OutboxEnv := {
  oe_deviceID : string;
  oe_now : nat → Time;
  oe_lookupSession : nat → string → string → option Detail;
  oe_resolveProject : nat → string → option bool;
    (** [None]: registry unavailable; [Some registered] *)
  oe_inspectRepository : nat → string → string → result External RepositorySnapshot;
  oe_publishHistory : nat → string → string → result External HistoryRef;
  oe_newID : nat → string → option string;
  oe_callPrepare : nat → string → Manifest → result CallError RemoteStatus;
  oe_callLaunch : nat → string → string → string → result CallError RemoteStatus;
  oe_callVerify : nat → string → string → string → TargetLocator → result CallError RemoteVerification;
  oe_closeSource : nat → SourceSession → Z → bool;
}.

(** ** The outbox monad *)

(** Calls that leave the daemon. *)
Inductive Call :=
| CallPrepare (device : string) (m : Manifest)
| CallLaunch (device handoffID digest : string)
| CallVerify (device handoffID digest : string) (l : TargetLocator)
| CallClose (source : SourceSession) (timeout : Z).

Inductive OutboxKind := KindInvalid | KindNotFound | KindConflict | KindUnavailable.
Record OutboxError := mkOutboxError { oerr_Kind : OutboxKind; oerr_Message : string }.
Definition sourceOutboxInvalid := mkOutboxError KindInvalid.
Definition sourceOutboxNotFound := mkOutboxError KindNotFound.
Definition sourceOutboxConflict := mkOutboxError KindConflict.
Definition sourceOutboxUnavailable := mkOutboxError KindUnavailable.

Abbreviation OM := (M (World Call) OutboxError).

(** ** The operator's view *)

Record SourceDTO := mkDTO {
  dto_HandoffID : string; dto_ManifestDigest : string; dto_State : SourceState; dto_Attempts : Z;
  dto_TargetDevice : string; dto_TargetProfile : string; dto_Project : string;
  dto_SourceLocator : SourceSession; dto_Failure : option FailureDTO;
  dto_TargetLocator : option TargetLocator; dto_VerificationState : string;
  dto_ContextLoaded : bool; dto_RetirementState : string }.

Definition retirement_name (s : RetirementState) : string :=
  match s with RetirementPending => "pending" | RetirementRetired => "retired" | RetirementOther r => r end.

Definition sourceHandoffRecordDTO (r : SourceRecord) : SourceDTO :=
  let b := src_Body r in
  let m := rb_Manifest b in
  mkDTO (m_HandoffID m) (rb_Digest b) (src_State r) (rb_Attempts b)
    (ta_DeviceID (m_Target m)) (ta_Profile (m_Target m)) (repo_ProjectSlug (m_Repository m))
    (m_Source m)
    ((λ f, mkFailureDTO (fail_Code f) (fail_Message f) (fail_Retryable f)) <$> rb_Failure b)
    (rb_TargetLocator b)
    (match rb_ContextLoaded b with
     | Some _ => "context_loaded"
     | None => if source_accepted (src_State r) then "pending" else "not_ready"
     end)
    (bool_decide (is_Some (rb_ContextLoaded b)))
    (match src_Retirement r with Some ret => retirement_name (ret_State ret) | None => "not_requested" end).

(** [dto] with another verification verdict *)
Definition dto_verdict (verdict : string) (d : SourceDTO) : SourceDTO :=
  mkDTO (dto_HandoffID d) (dto_ManifestDigest d) (dto_State d) (dto_Attempts d) (dto_TargetDevice d)
    (dto_TargetProfile d) (dto_Project d) (dto_SourceLocator d) (dto_Failure d) (dto_TargetLocator d)
    verdict false (dto_RetirementState d).

(** ** Classifying failures *)

Definition sourceHandoffRetryDelay : Z := 15 * second.

(** The failure and whether to retry. *)
Definition sourceCallFailure (e : CallError) (at_ : Time) : Failure * bool :=
  let retry := (mkFailure FailureUnavailable "target peer is temporarily unavailable" true at_, true) in
  match e with
  | RPCError ErrorPermissionDenied =>
      (mkFailure FailureUnauthorized "target denied handoff preparation" false at_, false)
  | RPCError (ErrorInvalidRequest | ErrorPayloadTooLarge | ErrorUnsupportedMethod) =>
      (mkFailure FailureInvalidManifest "target rejected the handoff request" false at_, false)
  | ErrMethodNotRegistered =>
      (mkFailure FailureInternal "local handoff protocol is unavailable" false at_, false)
  | _ => retry
  end.

Definition sourceLaunchCallFailure (e : CallError) (at_ : Time) : Failure * bool :=
  let retry := (mkFailure FailureUnavailable "target peer is temporarily unavailable" true at_, true) in
  match e with
  | RPCError ErrorPermissionDenied =>
      (mkFailure FailureUnauthorized "target launch permission is not granted" true at_, true)
  | RPCError (ErrorInvalidRequest | ErrorPayloadTooLarge | ErrorUnsupportedMethod) =>
      (mkFailure FailureInvalidManifest "target rejected the launch request" false at_, false)
  | ErrMethodNotRegistered =>
      (mkFailure FailureInternal "local handoff launch protocol is unavailable" false at_, false)
  | _ => retry
  end.

Definition validSourceFailureCode (c : FailureCode) : bool :=
  match c with FailureOther _ => false | _ => true end.
(** The remote failure's code when it is a known one. *)
Definition remote_code (default : FailureCode) (f : option FailureDTO) : FailureCode :=
  match f with
  | Some d => if validSourceFailureCode (fd_Code d) then fd_Code d else default
  | None => default
  end.

(** [sessionview.NewLocator] for the root scope accepts the session id. *)
Definition sessionIDPattern (s : string) : bool :=
  head_tail is_alnum (λ c, is_alnum c || is_id_punct c || char_is ":" c) 0 255 s.

Section Outbox.
Context `{Others} `{OutboxEnv}.

Definition sourceTransitionTime : Time → OM Time := transitionTime oe_now.

(** [store.TransitionSource] with every error reported as a concurrent change. *)
Definition transition_or_conflict (r : SourceRecord) (next : SourceState) (t : Transition) : OM SourceDTO :=
  res ← store_op (TransitionSource (rec_id r) (rb_Revision (src_Body r)) next t);
  match res with
  | Ok updated => mret (sourceHandoffRecordDTO updated)
  | Err _ => throw (sourceOutboxConflict "handoff state changed concurrently")
  end.

Definition fail_with (f : Failure) (retryable : bool) (at_ : Time) : Failure :=
  mkFailure (fail_Code f) (fail_Message f) retryable at_.
Definition after_delay (at_ : Time) : Time := mkTime (t_ns at_ + sourceHandoffRetryDelay) (t_utc at_).

Definition transitionRetry (r : SourceRecord) (f : Failure) : OM SourceDTO :=
  at_ ← sourceTransitionTime (rb_Updated (src_Body r));
  transition_or_conflict r SourceRetryWait
    (mkTransition at_ (Some (after_delay at_)) (Some (fail_with f (fail_Retryable f) at_)) None).
Definition transitionLaunchRetry (r : SourceRecord) (f : Failure) : OM SourceDTO :=
  at_ ← sourceTransitionTime (rb_Updated (src_Body r));
  transition_or_conflict r SourceLaunchRetryWait
    (mkTransition at_ (Some (after_delay at_)) (Some (fail_with f true at_)) None).
Definition transitionFailed (r : SourceRecord) (f : Failure) : OM SourceDTO :=
  at_ ← sourceTransitionTime (rb_Updated (src_Body r));
  transition_or_conflict r SourceFailed
    (mkTransition at_ None (Some (fail_with f false at_)) None).

(** The retry-wait guard: [!force && NextRetry != nil && NextRetry.After(now)]. *)
Definition not_due (r : SourceRecord) (force : bool) : OM bool :=
  match force, rb_NextRetry (src_Body r) with
  | false, Some next => t ← ask oe_now; mret (After next (UTC t))
  | _, _ => mret false
  end.

(** A failure observed now, and what to do with it. *)
Definition conclude (r : SourceRecord) (code : FailureCode) (message : string) (retryable : bool)
    (finish : SourceRecord → Failure → OM SourceDTO) : OM SourceDTO :=
  at_ ← sourceTransitionTime (rb_Updated (src_Body r));
  finish r (mkFailure code message retryable at_).

(** The move into the phase, skipped when the record is already there. *)
Definition enter_phase (r : SourceRecord) (phase : SourceState) : OM SourceRecord :=
  if bool_decide (src_State r = phase) then mret r else
  at_ ← sourceTransitionTime (rb_Updated (src_Body r));
  res ← store_op (TransitionSource (rec_id r) (rb_Revision (src_Body r)) phase
                   (mkTransition at_ None None None));
  match res with
  | Ok r' => mret r'
  | Err _ => throw (sourceOutboxConflict "handoff state changed concurrently")
  end.

(** ** Preparation *)

Definition prepare_call (r : SourceRecord) : OM SourceDTO :=
  let m := rb_Manifest (src_Body r) in
  let dev := ta_DeviceID (m_Target m) in
  answer ← call (CallPrepare dev m) (λ k, oe_callPrepare k dev m);
  match answer with
  | Err e =>
      at_ ← sourceTransitionTime (rb_Updated (src_Body r));
      let '(failure, retryable) := sourceCallFailure e at_ in
      if retryable : bool then transitionRetry r failure else transitionFailed r failure
  | Ok remote =>
      if negb (String.eqb (st_HandoffID remote) (m_HandoffID m)) ||
         negb (String.eqb (st_ManifestDigest remote) (rb_Digest (src_Body r)))
      then conclude r FailureConflict "target returned conflicting handoff identity" false transitionFailed
      else match st_State remote with
      | TargetPrepared =>
          at_ ← sourceTransitionTime (rb_Updated (src_Body r));
          transition_or_conflict r SourceRemotePrepared (mkTransition at_ None None None)
      | TargetReceived | TargetValidating =>
          conclude r FailureUnavailable "target handoff preparation is still in progress" true transitionRetry
      | TargetWaitingAssets =>
          conclude r FailureMissingAsset "target is waiting for synchronized handoff assets" true transitionRetry
      | TargetRejected =>
          conclude r (remote_code FailureVerification (st_Failure remote))
            "target rejected handoff preparation" false transitionFailed
      | _ =>
          conclude r FailureConflict "target returned a state outside handoff preparation" false transitionFailed
      end
  end.

Definition attempt (id : string) (force : bool) : OM SourceDTO :=
  got ← store_op (GetSource id);
  match got with
  | Err _ => throw (sourceOutboxNotFound "handoff not found")
  | Ok r =>
      let go := (r' ← enter_phase r SourcePreparingRemote; prepare_call r') in
      match src_State r with
      | SourceQueued | SourcePreparingRemote => go
      | SourceRetryWait =>
          skip ← not_due r force;
          if (skip : bool) then mret (sourceHandoffRecordDTO r) else go
      | SourceRemotePrepared | SourceFailed => mret (sourceHandoffRecordDTO r)
      | _ => throw (sourceOutboxConflict "handoff is outside the prepare phase")
      end
  end.

(** ** Launch *)

(** The locator an accepted answer must carry. *)
Definition valid_launch_locator (r : SourceRecord) (l : option TargetLocator) : bool :=
  match l with
  | None => false
  | Some l => String.eqb (tl_DeviceID l) (ta_DeviceID (m_Target (rb_Manifest (src_Body r)))) &&
              String.eqb (tl_ProfileScope l) "root" && sessionIDPattern (tl_SessionID l)
  end.

Definition launch_call (r : SourceRecord) : OM SourceDTO :=
  let m := rb_Manifest (src_Body r) in
  let dev := ta_DeviceID (m_Target m) in
  let digest := rb_Digest (src_Body r) in
  answer ← call (CallLaunch dev (m_HandoffID m) digest) (λ k, oe_callLaunch k dev (m_HandoffID m) digest);
  match answer with
  | Err e =>
      at_ ← sourceTransitionTime (rb_Updated (src_Body r));
      let '(failure, retryable) := sourceLaunchCallFailure e at_ in
      if retryable : bool then transitionLaunchRetry r failure else transitionFailed r failure
  | Ok remote =>
      if negb (String.eqb (st_HandoffID remote) (m_HandoffID m)) ||
         negb (String.eqb (st_ManifestDigest remote) digest)
      then conclude r FailureConflict "target returned conflicting handoff identity" false transitionFailed
      else match st_State remote with
      | TargetAccepted =>
          if negb (valid_launch_locator r (st_TargetLocator remote))
          then conclude r FailureConflict
                 "target accepted launch without the prepared continuation locator" false transitionFailed
          else
            at_ ← sourceTransitionTime (rb_Updated (src_Body r));
            transition_or_conflict r SourceAccepted (mkTransition at_ None None (st_TargetLocator remote))
      | TargetLaunching =>
          conclude r FailureUnavailable "target launch is still in progress" true transitionLaunchRetry
      | TargetLaunchWaitingAssets =>
          conclude r (remote_code FailureLaunch (st_Failure remote))
            "target launch is waiting for local readiness" true transitionLaunchRetry
      | TargetRejected =>
          conclude r (remote_code FailureLaunch (st_Failure remote))
            "target rejected handoff launch" false transitionFailed
      | _ =>
          conclude r FailureConflict "target returned a state outside handoff launch" false transitionFailed
      end
  end.

Definition attemptLaunch (id : string) (force : bool) : OM SourceDTO :=
  got ← store_op (GetSource id);
  match got with
  | Err _ => throw (sourceOutboxNotFound "handoff not found")
  | Ok r =>
      let go := (r' ← enter_phase r SourceLaunchingRemote; launch_call r') in
      match src_State r with
      | SourceRemotePrepared | SourceLaunchingRemote => go
      | SourceLaunchRetryWait =>
          skip ← not_due r force;
          if (skip : bool) then mret (sourceHandoffRecordDTO r) else go
      | SourceAccepted | SourceFailed => mret (sourceHandoffRecordDTO r)
      | _ => throw (sourceOutboxConflict "handoff is outside the launch phase")
      end
  end.

(** [GetSource] with the errors of the operator calls. *)
Definition get_or_fail (id : string) : OM SourceRecord :=
  got ← store_op (GetSource id);
  match got with
  | Ok r => mret r
  | Err HErrNotFound => throw (sourceOutboxNotFound "handoff not found")
  | Err _ => throw (sourceOutboxInvalid "invalid handoff id")
  end.

Definition outbox_get (id : string) : OM SourceDTO :=
  r ← get_or_fail id; mret (sourceHandoffRecordDTO r).
Definition outbox_list : OM (list SourceDTO) :=
  got ← store_op ListSource;
  match got with
  | Ok l => mret (sourceHandoffRecordDTO <$> l)
  | Err _ => throw (sourceOutboxUnavailable "unable to read handoff outbox")
  end.

Definition outbox_retry (id : string) : OM SourceDTO :=
  r ← get_or_fail id;
  match src_State r with
  | SourceRetryWait => attempt id true
  | SourceLaunchRetryWait => attemptLaunch id true
  | _ => throw (sourceOutboxConflict "only a retry_wait handoff can be retried")
  end.

Definition outbox_launch (id : string) : OM SourceDTO :=
  r ← get_or_fail id;
  match src_State r with
  | SourceRemotePrepared | SourceLaunchingRemote | SourceLaunchRetryWait | SourceAccepted =>
      attemptLaunch id true
  | _ => throw (sourceOutboxConflict "handoff must be remotely prepared before launch")
  end.

(** ** Verification *)

Definition outbox_verify (id : string) : OM SourceDTO :=
  r ← get_or_fail id;
  let b := src_Body r in
  let m := rb_Manifest b in
  let verdict v := mret (dto_verdict v (sourceHandoffRecordDTO r)) in
  match src_State r, rb_TargetLocator b with
  | SourceAccepted, Some l =>
      let dev := ta_DeviceID (m_Target m) in
      answer ← call (CallVerify dev (m_HandoffID m) (rb_Digest b) l)
                    (λ k, oe_callVerify k dev (m_HandoffID m) (rb_Digest b) l);
      match answer with
      | Err (RPCError (ErrorInvalidRequest | ErrorPermissionDenied)) => verdict "mismatch"
      | Err _ => verdict "unavailable"
      | Ok remote =>
          if negb (String.eqb (vf_HandoffID remote) (m_HandoffID m)) ||
             negb (String.eqb (vf_ManifestDigest remote) (rb_Digest b)) ||
             negb (bool_decide (vf_TargetLocator remote = l))
          then verdict "mismatch"
          else if negb (vf_ContextLoaded remote) ||
                  negb (String.eqb (vf_VerificationState remote) "context_loaded")
          then verdict "pending"
          else match vf_Acknowledgement remote with
          | None => verdict "mismatch"
          | Some ack =>
              at_ ← sourceTransitionTime (rb_Updated b);
              res ← store_op (RecordSourceContextLoaded id (rb_Revision b) ack at_);
              match res with
              | Ok (verified, _) => mret (sourceHandoffRecordDTO verified)
              | Err _ => verdict "mismatch"
              end
          end
      end
  | _, _ => throw (sourceOutboxConflict "handoff must be accepted before verification")
  end.

(** ** Retirement *)

Definition lookupExactSource (r : SourceRecord) : OM (option Detail) :=
  let src := m_Source (rb_Manifest (src_Body r)) in
  found ← ask (λ k, oe_lookupSession k (ss_ProfileScope src) (ss_SessionID src));
  mret (match found with
        | Some d => if String.eqb (dt_ProfileScope d) (ss_ProfileScope src) &&
                       String.eqb (dt_SessionID d) (ss_SessionID src)
                    then Some d else None
        | None => None
        end).

Definition turnObservation (d : Detail) : TurnObservation :=
  match dt_Turn d with
  | Some t => mkTurn (ta_TurnCount t) (UTC <$> ta_LastTurnEndAt t)
  | None => mkTurn 0 None
  end.

Definition sourceAfterTurnRetirementReady (ret : SourceRetirement) (d : Detail) : bool :=
  bool_decide (ret_Mode ret = RetirementAfterTurnEnd) &&
  match dt_Turn d with
  | Some t => match ta_LastTurnEndAt t with
              | Some e => (ta_TurnCount t =? ret_BaselineTurnCount ret) && After e (ret_RequestedAt ret)
              | None => false
              end
  | None => false
  end.

(** [CompleteSourceRetirement], any failure leaving the request pending. *)
Definition complete_or_pending (r : SourceRecord) : OM SourceDTO :=
  at_ ← sourceTransitionTime (rb_Updated (src_Body r));
  res ← store_op (CompleteSourceRetirement (rec_id r) (rb_Revision (src_Body r)) at_);
  match res with
  | Ok (completed, _) => mret (sourceHandoffRecordDTO completed)
  | Err _ => mret (sourceHandoffRecordDTO r)
  end.

Definition retirePending (r : SourceRecord) : OM SourceDTO :=
  let pending := mret (sourceHandoffRecordDTO r) in
  match src_Retirement r with
  | Some ret =>
      if negb (bool_decide (ret_State ret = RetirementPending)) then pending else
      found ← lookupExactSource r;
      match found with
      | None => pending
      | Some d =>
          if String.eqb (dt_State d) "exited" then complete_or_pending r
          else if bool_decide (ret_Mode ret = RetirementAfterTurnEnd) &&
                  negb (sourceAfterTurnRetirementReady ret d) then pending
          else
            let timeout := ret_TimeoutSeconds ret * second in
            let src := m_Source (rb_Manifest (src_Body r)) in
            ok ← call (CallClose src timeout) (λ k, oe_closeSource k src timeout);
            if negb ok then pending else
            closed ← lookupExactSource r;
            match closed with
            | Some d' => if String.eqb (dt_State d') "exited" then complete_or_pending r else pending
            | None => pending
            end
      end
  | None => pending
  end.

Definition outbox_retire (id : string) (mode : RetirementMode) (timeout : Z) : OM SourceDTO :=
  r ← get_or_fail id;
  let b := src_Body r in
  if negb (source_accepted (src_State r) && bool_decide (is_Some (rb_ContextLoaded b)))
  then throw (sourceOutboxConflict "source retirement requires verified context-loaded acknowledgement")
  else if negb (String.eqb (ss_DeviceID (m_Source (rb_Manifest b))) oe_deviceID)
  then throw (sourceOutboxConflict "source identity does not match this device")
  else
    r' ← (match src_Retirement r with
          | None =>
              found ← lookupExactSource r;
              match found with
              | None => throw (sourceOutboxConflict "exact source session is unavailable")
              | Some d =>
                  at_ ← sourceTransitionTime (rb_Updated b);
                  res ← store_op (RequestSourceRetirement id (rb_Revision b) mode timeout
                                   (turnObservation d) at_);
                  match res with
                  | Ok (r', _) => mret r'
                  | Err _ => throw (sourceOutboxConflict "source retirement state changed concurrently")
                  end
              end
          | Some ret =>
              if bool_decide (ret_Mode ret = mode) && (ret_TimeoutSeconds ret =? Z.quot timeout second)
              then mret r
              else throw (sourceOutboxConflict
                            "source retirement was already requested with different options")
          end);
    match src_Retirement r' with
    | Some ret =>
        if bool_decide (ret_State ret = RetirementRetired) || bool_decide (mode = RetirementAfterTurnEnd)
        then mret (sourceHandoffRecordDTO r') else retirePending r'
    | None => mret (sourceHandoffRecordDTO r')
    end.

(** ** Recovery *)

(** The pass over one runnable record; its error is only reported. *)
Definition reconcile_one (at_ : Time) (r : SourceRecord) : OM (result OutboxError unit) :=
  let id := rec_id r in
  let quiet (m : OM SourceDTO) : OM (result OutboxError unit) :=
    res ← try m; mret (match res with Ok _ => Ok tt | Err e => Err e end) in
  match src_State r with
  | SourceQueued | SourcePreparingRemote => quiet (attempt id false)
  | SourceRetryWait => if due at_ (src_Body r) then quiet (attempt id false) else mret (Ok tt)
  | SourceLaunchingRemote => quiet (attemptLaunch id false)
  | SourceLaunchRetryWait => if due at_ (src_Body r) then quiet (attemptLaunch id false) else mret (Ok tt)
  | SourceAccepted =>
      if match src_Retirement r with
         | Some ret => bool_decide (ret_State ret = RetirementPending)
         | None => false
         end
      then quiet (current ← get_or_fail id; retirePending current)
      else mret (Ok tt)
  | _ => mret (Ok tt)
  end.

(** The loop, keeping the first error. *)
Fixpoint reconcile_all (at_ : Time) (firstErr : option OutboxError) (l : list SourceRecord)
    : OM (option OutboxError) :=
  match l with
  | [] => mret firstErr
  | r :: rest =>
      res ← reconcile_one at_ r;
      reconcile_all at_ (match firstErr, res with None, Err e => Some e | _, _ => firstErr end) rest
  end.

Definition reconcile (at_ : Time) : OM unit :=
  got ← store_op (RunnableSource at_);
  match got with
  | Err _ => throw (sourceOutboxUnavailable "runnable scan")
  | Ok l =>
      first ← reconcile_all at_ None l;
      match first with Some e => throw e | None => mret tt end
  end.

(** ** New handoffs *)

Record PrepareRequest := mkRequest {
  rq_ProfileScope : string; rq_SessionID : string; rq_TargetPeer : string; rq_TargetAgent : string;
  rq_Project : string; rq_Goal : string; rq_History : string; rq_ConversationID : string;
  rq_ParentHandoffID : string; rq_Validation : option ValidationState }.

Definition need_input (b : bool) (message : string) : OM unit :=
  lift (guard_err b (sourceOutboxInvalid message)).

(** An external step that fails as unavailable when retryable, else invalid. *)
Definition external {A} (f : nat → result External A) : OM A :=
  res ← ask f;
  match res with
  | Ok a => mret a
  | Err e => throw (if ext_Retryable e then sourceOutboxUnavailable "external" else sourceOutboxInvalid "external")
  end.

Definition fresh_id (prefix : string) : OM string :=
  res ← ask (λ k, oe_newID k prefix);
  match res with
  | Some id => mret id
  | None => throw (sourceOutboxUnavailable "unable to allocate handoff identity")
  end.

Definition request_manifest (rq : PrepareRequest) (handoffID traceID agent : string) (at_ : Time)
    (history : HistoryRef) (repository : RepositorySnapshot) : Manifest :=
  let state := default ValidationNotRun (rq_Validation rq) in
  let evidence := match state with
                  | ValidationPassed | ValidationFailed =>
                      mkEvidence state (repo_SourceHead repository) (Some at_)
                  | _ => mkEvidence state "" None
                  end in
  mkManifest ManifestVersion handoffID traceID (rq_ParentHandoffID rq)
    (mkSourceSession oe_deviceID (rq_ProfileScope rq) (rq_SessionID rq)) agent
    (mkTargetAgent (rq_TargetPeer rq) (rq_TargetAgent rq))
    (mkGoal (rq_Goal rq) "explicit_operator" at_) history repository (Some []) evidence at_.

Definition outbox_prepare (rq : PrepareRequest) : OM SourceDTO :=
  _ ← need_input (negb (String.eqb (rq_TargetPeer rq) "" || String.eqb (rq_TargetAgent rq) "" ||
         String.eqb (rq_Project rq) "" || String.eqb (rq_SessionID rq) "" ||
         String.eqb (rq_ProfileScope rq) "")) "required fields";
  _ ← need_input (negb (String.eqb (rq_TargetPeer rq) oe_deviceID))
         "target peer must differ from the local device";
  found ← ask (λ k, oe_lookupSession k (rq_ProfileScope rq) (rq_SessionID rq));
  match found with
  | None => throw (sourceOutboxInvalid "source session is not a supervised local session")
  | Some d =>
      _ ← need_input (String.eqb (dt_ProfileScope d) (rq_ProfileScope rq) &&
                      String.eqb (dt_SessionID d) (rq_SessionID rq))
             "source session is not a supervised local session";
      _ ← need_input (negb (String.eqb (dt_Agent d) "" || String.eqb (dt_LaunchCWD d) ""))
             "source session is missing its agent or launch directory";
      project ← ask (λ k, oe_resolveProject k (rq_Project rq));
      match project with
      | None => throw (sourceOutboxUnavailable "project registry is unavailable")
      | Some registered =>
          _ ← need_input registered "project is not registered locally";
          repository ← external (λ k, oe_inspectRepository k (dt_LaunchCWD d) (rq_Project rq));
          let historyName := if String.eqb (rq_History rq) ""
                             then default "" (dt_HistoryBasename d) else rq_History rq in
          _ ← need_input (negb (String.eqb historyName "")) "source session has no synced history";
          history ← external (λ k, oe_publishHistory k historyName (rq_ConversationID rq));
          handoffID ← fresh_id "handoff-";
          traceID ← fresh_id "trace-";
          t ← ask oe_now;
          let m := request_manifest rq handoffID traceID (dt_Agent d) (UTC t) history repository in
          _ ← need_input (is_ok (Manifest_Validate m)) "invalid or unsafe operator input";
          queued ← store_op (QueueSource m);
          match queued with
          | Err HErrManifestConflict =>
              throw (sourceOutboxConflict "handoff identity conflicts with existing state")
          | Err _ => throw (sourceOutboxUnavailable "unable to queue handoff")
          | Ok (_, true) =>
              throw (sourceOutboxConflict "generated handoff identity already exists; retry preparation")
          | Ok (r, false) => attempt (rec_id r) false
          end
      end
  end.
End Outbox.
