(* ===== verification/HandoffOutboxFacts.v ===== *)
(** Authorization of everything the outbox does outside the daemon: each call
    in its log is backed by a stored record in the right state, a launch only
    follows the operator's explicit step, and a source session is closed only
    after the continuation has proved that it loaded the context. *)

From S2P Require Import Prelude GoText HandoffManifest HandoffRecord HandoffStore HandoffFacts.
From S2P Require Import HandoffSteps HandoffSystem HandoffWorld HandoffWorldFacts.
From S2P Require Import HandoffOutbox.
From stdpp Require Import base gmap strings list fin_maps sorting relations.
From Stdlib Require Import ZArith Lia Ascii.

Open Scope Z_scope.

Section OutboxFacts.
Context `{Others} `{OutboxEnv}.

(** ** What backs a call *)

(** The record a call is for: the exact version, state included, that the store
    held when the outbox decided on the call. *)
Definition call_of (r : SourceRecord) (c : Call) : Prop :=
  let m := rb_Manifest (src_Body r) in
  match c with
  | CallPrepare dev m' =>
      src_State r = SourcePreparingRemote ∧ m' = m ∧ dev = ta_DeviceID (m_Target m)
  | CallLaunch dev id digest =>
      src_State r = SourceLaunchingRemote ∧ id = m_HandoffID m ∧ dev = ta_DeviceID (m_Target m) ∧
      digest = marshal_sha256 m
  | CallVerify dev id digest l =>
      src_State r = SourceAccepted ∧ id = m_HandoffID m ∧ dev = ta_DeviceID (m_Target m) ∧
      digest = marshal_sha256 m ∧ rb_TargetLocator (src_Body r) = Some l ∧ tl_DeviceID l = dev
  | CallClose src timeout =>
      src_State r = SourceAccepted ∧ src = m_Source m ∧
      (∃ ret, src_Retirement r = Some ret ∧ ret_State ret = RetirementPending ∧
              timeout = ret_TimeoutSeconds ret * second) ∧
      (∃ ack, rb_ContextLoaded (src_Body r) = Some ack ∧ ack_ManifestDigest ack = marshal_sha256 m)
  end.

Definition authorized (s : HStore) (c : Call) : Prop := ∃ r, held s r ∧ call_of r c.

Lemma authorized_steps s s' c : rtc handoff_step s s' → authorized s c → authorized s' c.
Proof. intros Hs (r & Hr & Hc). exists r. split; [by eapply held_steps|done]. Qed.

#[local] Instance outbox_contract : Contract Call.
Proof.
  refine {| inv := λ _, True; justified := authorized; justified_steps := authorized_steps |}. done.
Defined.

Abbreviation ends_ok P m := (hoare P m (λ _, world_ok) (λ _, world_ok)).

Lemma hoare_GetSource id :
  hoare world_ok (store_op (GetSource id) : OM _)
    (λ res w, match res with Ok r => has r w ∧ rec_id r = id | Err _ => world_ok w end) (λ _, world_ok).
Proof.
  eapply hoare_conseq; [apply (hoare_get (A:=SourceRecord))|done| |done].
  intros [r|e] w Hw; [|done]. by destruct Hw as (? & _ & ?).
Qed.

(** The source-side operations. *)
Lemma hoare_answering_source {A} (m : HM A) o (rec : A → SourceRecord) (φ : A → Prop) id P :
  run_op o = discard m → (∀ w, P w → world_ok w) →
  (∀ FS FT, hoare (files_are FS FT) m
     (λ a s, answers_source FS FT id (rec a) s ∧ φ a) (λ _, stepped FS FT)) →
  hoare P (store_op m : OM _)
    (λ res w, world_ok w ∧ match res with Ok a => has (rec a) w ∧ rec_id (rec a) = id ∧ φ a
                           | Err _ => True end) (λ _, world_ok).
Proof.
  intros Ho HP Hm. eapply hoare_conseq; [eapply (hoare_answering m o rec φ id P); try done|done| |done].
  - intros FS FT. eapply hoare_conseq; [apply Hm|done| |done]. by intros a s [[Ha _] Hφ].
  - intros [a|e] w [Hw Ha]; [|done]. by destruct Ha as (? & ? & _ & ?).
Qed.

Lemma hoare_Transition id rev next t P :
  (∀ w, P w → world_ok w) →
  hoare P (store_op (TransitionSource id rev next t) : OM _)
    (λ res w, world_ok w ∧ match res with Ok r => has r w ∧ rec_id r = id ∧ src_State r = next
                           | Err _ => True end) (λ _, world_ok).
Proof.
  intros HP. eapply (hoare_answering_source _ (OpTransitionSource id rev next t) (λ r, r) (λ r, src_State r = next));
    [done|done|]. intros FS FT. eapply hoare_conseq; [apply TransitionSource_steps|done| |done].
  by intros r s (? & ? & _).
Qed.

Lemma hoare_sourceTransitionTime (r : SourceRecord) t :
  hoare (has r) (sourceTransitionTime t) (λ _, has r) (λ _, world_ok).
Proof. apply hoare_transitionTime. Qed.

Lemma ok_transition_or_conflict r next t :
  ends_ok (has r) (transition_or_conflict r next t).
Proof.
  unfold transition_or_conflict. eapply hoare_bind; [apply hoare_Transition, has_world|].
  intros [r'|e] w [Hw _]; done.
Qed.

Lemma ok_finish r : (∀ f, ends_ok (has r) (transitionRetry r f)) ∧
  (∀ f, ends_ok (has r) (transitionLaunchRetry r f)) ∧ (∀ f, ends_ok (has r) (transitionFailed r f)).
Proof.
  unfold transitionRetry, transitionLaunchRetry, transitionFailed.
  split_and!; intros f; (eapply hoare_bind; [apply hoare_sourceTransitionTime|]);
    intros at_; apply ok_transition_or_conflict.
Qed.

Lemma ok_conclude r code msg retry finish :
  (∀ f, ends_ok (has r) (finish r f)) → ends_ok (has r) (conclude r code msg retry finish).
Proof.
  intros Hf. unfold conclude. eapply hoare_bind; [apply hoare_sourceTransitionTime|]. intros at_. apply Hf.
Qed.

Lemma ok_prepare_call r : src_State r = SourcePreparingRemote → ends_ok (has r) (prepare_call r).
Proof.
  intros Hp. destruct (ok_finish r) as (Hretry & _ & Hfail). unfold prepare_call. cbv zeta.
  eapply hoare_bind; [apply hoare_call; intros s _ _ _ Hr; by exists r|].
  intros [remote|e].
  - destruct (_ || _); [by apply ok_conclude|].
    destruct (st_State remote); try (by apply ok_conclude).
    eapply hoare_bind; [apply hoare_sourceTransitionTime|]. intros at_. apply ok_transition_or_conflict.
  - eapply hoare_bind; [apply hoare_sourceTransitionTime|]. intros at_.
    destruct (sourceCallFailure e at_) as [f []]; auto.
Qed.

Lemma ok_launch_call r : src_State r = SourceLaunchingRemote → ends_ok (has r) (launch_call r).
Proof.
  intros Hp. destruct (ok_finish r) as (_ & Hretry & Hfail). unfold launch_call. cbv zeta.
  eapply hoare_bind.
  { apply hoare_call. intros s _ _ Hv Hr. exists r.
    destruct (valid_source_accepted r Hv) as (Hd & _). by split. }
  intros [remote|e].
  - destruct (_ || _); [by apply ok_conclude|].
    destruct (st_State remote); try (by apply ok_conclude).
    destruct (negb _); [by apply ok_conclude|].
    eapply hoare_bind; [apply hoare_sourceTransitionTime|]. intros at_. apply ok_transition_or_conflict.
  - eapply hoare_bind; [apply hoare_sourceTransitionTime|]. intros at_.
    destruct (sourceLaunchCallFailure e at_) as [f []]; auto.
Qed.

(** Entering a phase answers with a stored record in that phase. *)
Lemma hoare_enter_phase r phase :
  hoare (has r) (enter_phase r phase)
    (λ r' w, has r' w ∧ src_State r' = phase) (λ _, world_ok).
Proof.
  unfold enter_phase. destruct (bool_decide (src_State r = phase)) eqn:Hb.
  - apply bool_decide_eq_true in Hb. intros w Hw. done.
  - eapply hoare_bind; [apply hoare_sourceTransitionTime|]. intros at_.
    eapply hoare_bind; [apply hoare_Transition, has_world|].
    intros [r'|e] w [Hw Hr]; [|done]. simpl. by destruct Hr as (? & _ & ?).
Qed.

Lemma hoare_not_due r force : hoare (has r) (not_due r force) (λ _, has r) (λ _, world_ok).
Proof.
  unfold not_due. destruct force, (rb_NextRetry (src_Body r)); try (by intros w Hw).
  eapply hoare_bind; [apply hoare_ask_has|]. by intros a w Hw.
Qed.

Lemma ok_attempt id force : ends_ok world_ok (attempt id force).
Proof.
  unfold attempt. eapply hoare_bind; [apply hoare_GetSource|]. intros [r|e]; [|by apply ok_throw].
  assert (ends_ok (has r) (r' ← enter_phase r SourcePreparingRemote; prepare_call r')) as Hgo.
  { eapply hoare_bind; [apply hoare_enter_phase|]. intros r' w [Hw Hp].
    by apply (ok_prepare_call r'). }
  apply (hoare_pre _ (has r)); [|by intros w [? _]]. cbv zeta.
  destruct (src_State r); try (by apply ok_mret, has_world); try (by apply ok_throw, has_world); try done.
  eapply hoare_bind; [apply hoare_not_due|]. intros []; [by apply ok_mret, has_world|done].
Qed.

Lemma ok_attemptLaunch id force : ends_ok world_ok (attemptLaunch id force).
Proof.
  unfold attemptLaunch. eapply hoare_bind; [apply hoare_GetSource|]. intros [r|e]; [|by apply ok_throw].
  assert (ends_ok (has r) (r' ← enter_phase r SourceLaunchingRemote; launch_call r')) as Hgo.
  { eapply hoare_bind; [apply hoare_enter_phase|]. intros r' w [Hw Hp].
    by apply (ok_launch_call r'). }
  apply (hoare_pre _ (has r)); [|by intros w [? _]]. cbv zeta.
  destruct (src_State r); try (by apply ok_mret, has_world); try (by apply ok_throw, has_world); try done.
  eapply hoare_bind; [apply hoare_not_due|]. intros []; [by apply ok_mret, has_world|done].
Qed.

Lemma hoare_get_or_fail id :
  hoare world_ok (get_or_fail id) (λ r w, has r w ∧ rec_id r = id) (λ _, world_ok).
Proof.
  unfold get_or_fail. eapply hoare_bind; [apply hoare_GetSource|].
  intros [r|e] w Hw; [done|]. destruct e; done.
Qed.

Lemma hoare_get_then {B} id (f : SourceRecord → OM B) :
  (∀ r, rec_id r = id → ends_ok (has r) (f r)) → ends_ok world_ok (r ← get_or_fail id; f r).
Proof.
  intros Hf. eapply hoare_bind; [apply hoare_get_or_fail|]. intros r w [Hw Hid]. by apply (Hf r).
Qed.

Lemma ok_retry id : ends_ok world_ok (outbox_retry id).
Proof.
  apply hoare_get_then. intros r _.
  destruct (src_State r); try (by apply ok_throw, has_world);
    (eapply hoare_pre; [|apply has_world]); [apply ok_attempt|apply ok_attemptLaunch].
Qed.

Lemma ok_launch id : ends_ok world_ok (outbox_launch id).
Proof.
  apply hoare_get_then. intros r _.
  destruct (src_State r); try (by apply ok_throw, has_world);
    (eapply hoare_pre; [apply ok_attemptLaunch|apply has_world]).
Qed.

Lemma ok_verify id : ends_ok world_ok (outbox_verify id).
Proof.
  apply hoare_get_then. intros r Hid. cbv zeta.
  destruct (src_State r) eqn:Hst; try (by apply ok_throw, has_world).
  destruct (rb_TargetLocator (src_Body r)) as [l|] eqn:Hl; [|by apply ok_throw, has_world].
  eapply hoare_bind.
  { apply hoare_call. intros s _ _ Hv Hr. exists r.
    destruct (valid_source_accepted r Hv) as (Hd & Hacc & _).
    destruct (Hacc Hst) as (l' & Hl' & Hdev). simpl. split_and!; try done. congruence. }
  assert (∀ v, ends_ok (has r) (mret (dto_verdict v (sourceHandoffRecordDTO r)) : OM _)) as Hv
    by (intros v; apply ok_mret, has_world).
  intros [remote|e].
  - destruct (_ || _ || _); [apply Hv|]. destruct (_ || _); [apply Hv|].
    destruct (vf_Acknowledgement remote) as [ack|]; [|apply Hv].
    eapply hoare_bind; [apply hoare_sourceTransitionTime|]. intros at_.
    eapply hoare_bind.
    + eapply (hoare_answering_source _ (OpRecordSourceContextLoaded id (rb_Revision (src_Body r)) ack at_)
        fst (λ _, True) id); [done|apply has_world|].
      intros FS FT. eapply hoare_conseq; [apply RecordSourceContextLoaded_steps|done|done|done].
    + intros [[r' b]|e] w [Hw _]; done.
  - destruct e as [[]| |]; apply Hv.
Qed.

(** ** Retirement *)

Lemma hoare_lookup r : hoare (has r) (lookupExactSource r) (λ _, has r) (λ _, world_ok).
Proof. unfold lookupExactSource. eapply hoare_bind; [apply hoare_ask_has|]. by intros a w Hw. Qed.

Lemma ok_complete_or_pending r : ends_ok (has r) (complete_or_pending r).
Proof.
  unfold complete_or_pending. eapply hoare_bind; [apply hoare_sourceTransitionTime|]. intros at_.
  eapply hoare_bind.
  - eapply (hoare_answering_source _ (OpCompleteSourceRetirement (rec_id r) (rb_Revision (src_Body r)) at_)
      fst (λ _, True) (rec_id r)); [done|apply has_world|].
    intros FS FT. eapply hoare_conseq; [apply CompleteSourceRetirement_steps|done|done|done].
  - intros [[r' b]|e] w [Hw _]; done.
Qed.

Lemma ok_retirePending r : ends_ok (has r) (retirePending r).
Proof.
  unfold retirePending. cbv zeta.
  assert (ends_ok (has r) (mret (sourceHandoffRecordDTO r) : OM _)) as Hpend by apply ok_mret, has_world.
  destruct (src_Retirement r) as [ret|] eqn:Hret; [|exact Hpend].
  destruct (bool_decide (ret_State ret = _)) eqn:Hp; [apply bool_decide_eq_true in Hp; simpl|exact Hpend].
  eapply hoare_bind; [apply hoare_lookup|].
  intros [d|]; [|exact Hpend]. destruct (String.eqb (dt_State d) "exited"); [apply ok_complete_or_pending|].
  destruct (_ && _); [exact Hpend|]. eapply hoare_bind.
  { apply hoare_call. intros s _ _ Hv Hr. exists r. split; [done|].
    destruct (valid_source_accepted r Hv) as (Hd & _ & Hctx & Hr').
    destruct (Hr' ret Hret) as [Hst [ack Hack]]. destruct (Hctx ack Hack) as (_ & Hdg & _).
    simpl. split_and!; [done..|by exists ret|exists ack; by rewrite Hdg, Hd]. }
  intros ok. destruct (negb ok); [exact Hpend|]. eapply hoare_bind; [apply hoare_lookup|].
  intros [d'|]; [|exact Hpend]. destruct (String.eqb (dt_State d') "exited"); [apply ok_complete_or_pending|exact Hpend].
Qed.

Lemma ok_retire id mode timeout : ends_ok world_ok (outbox_retire id mode timeout).
Proof.
  apply hoare_get_then. intros r Hid. cbv zeta.
  destruct (negb (_ && _)); [by apply ok_throw, has_world|].
  destruct (negb _); [by apply ok_throw, has_world|].
  apply hoare_bind with (λ r', has r').
  - destruct (src_Retirement r) as [ret|].
    + destruct (_ && _); [by intros w Hw|by apply ok_throw, has_world].
    + eapply hoare_bind; [apply hoare_lookup|]. intros [d|]; [|by apply ok_throw, has_world].
      eapply hoare_bind; [apply hoare_sourceTransitionTime|]. intros at_.
      eapply hoare_bind.
      * eapply (hoare_answering_source _ (OpRequestSourceRetirement id (rb_Revision (src_Body r)) mode timeout
          (turnObservation d) at_) fst (λ _, True) id); [done|apply has_world|].
        intros FS FT. eapply hoare_conseq; [apply RequestSourceRetirement_steps|done|done|done].
      * intros [[r' b]|e] w [Hw Hr]; [|done]. by destruct Hr.
  - intros r'. destruct (src_Retirement r') as [ret|]; [|by apply ok_mret, has_world].
    destruct (_ || _); [by apply ok_mret, has_world|apply ok_retirePending].
Qed.

(** ** Recovery and new handoffs *)

Lemma ok_quiet (m : OM SourceDTO) :
  ends_ok world_ok m →
  ends_ok world_ok (res ← try m; mret (match res with Ok _ => Ok tt | Err e => Err e end)).
Proof.
  intros Hm. eapply hoare_bind; [by apply ok_try|]. intros a. by apply ok_mret.
Qed.

Lemma ok_reconcile_one at_ r : ends_ok world_ok (reconcile_one at_ r).
Proof.
  unfold reconcile_one. cbv zeta.
  destruct (src_State r); try (by apply ok_mret); try (apply ok_quiet, ok_attempt);
    try (apply ok_quiet, ok_attemptLaunch).
  - destruct (match src_Retirement r with Some _ => _ | None => _ end); [|by apply ok_mret].
    apply ok_quiet, hoare_get_then. intros cur _. apply ok_retirePending.
  - destruct (due at_ (src_Body r)); [apply ok_quiet, ok_attempt|by apply ok_mret].
  - destruct (due at_ (src_Body r)); [apply ok_quiet, ok_attemptLaunch|by apply ok_mret].
Qed.

Lemma ok_reconcile_all at_ first l : ends_ok world_ok (reconcile_all at_ first l).
Proof.
  revert first. induction l as [|r l IH]; intros first; simpl; [by apply ok_mret|].
  eapply hoare_bind; [apply ok_reconcile_one|]. intros res. apply IH.
Qed.

Lemma ok_reconcile at_ : ends_ok world_ok (reconcile at_).
Proof.
  unfold reconcile. apply hoare_bind with (λ _, world_ok).
  - exact (hoare_select (A:=SourceRecord) (runnable_source at_) at_).
  - intros [l|e]; [|by apply ok_throw].
    eapply hoare_bind; [apply ok_reconcile_all|]. intros [e|]; [by apply ok_throw|by apply ok_mret].
Qed.

Lemma ok_external {A} (f : nat → result External A) : ends_ok world_ok (external f).
Proof.
  unfold external. eapply hoare_bind; [apply hoare_ask_ok|]. intros [a|e]; [by apply ok_mret|by apply ok_throw].
Qed.
Lemma ok_fresh_id p : ends_ok world_ok (fresh_id p).
Proof.
  unfold fresh_id. eapply hoare_bind; [apply hoare_ask_ok|]. intros [a|]; [by apply ok_mret|by apply ok_throw].
Qed.
Lemma ok_need_input b msg : ends_ok world_ok (need_input b msg).
Proof. intros w Hw. unfold need_input, lift. by destruct (guard_err _ _). Qed.

Lemma ok_prepare rq : ends_ok world_ok (outbox_prepare rq).
Proof.
  unfold outbox_prepare.
  do 2 (eapply hoare_bind; [apply ok_need_input|intros []]).
  eapply hoare_bind; [apply hoare_ask_ok|]. intros [d|]; [|by apply ok_throw].
  do 2 (eapply hoare_bind; [apply ok_need_input|intros []]).
  eapply hoare_bind; [apply hoare_ask_ok|]. intros [reg|]; [|by apply ok_throw].
  eapply hoare_bind; [apply ok_need_input|intros []].
  eapply hoare_bind; [apply ok_external|intros repo]. cbv zeta.
  eapply hoare_bind; [apply ok_need_input|intros []].
  eapply hoare_bind; [apply ok_external|intros hist].
  do 2 (eapply hoare_bind; [apply ok_fresh_id|intros ?]).
  eapply hoare_bind; [apply hoare_ask_ok|intros t].
  eapply hoare_bind; [apply ok_need_input|intros []].
  set (m := request_manifest _ _ _ _ _ _ _).
  eapply hoare_bind.
  - eapply (hoare_answering_source (QueueSource m) (OpQueueSource m) fst (λ _, True) (m_HandoffID m)); [done|done|].
    intros FS FT. eapply hoare_conseq; [apply QueueSource_steps|done| |done].
    by intros b s [? _].
  - intros [[r []]|e].
    + eapply hoare_pre; [by apply ok_throw|]. by intros w [? _].
    + eapply hoare_pre; [apply ok_attempt|]. by intros w [? _].
    + eapply (hoare_pre _ world_ok); [|by intros w [? _]]. destruct e; by apply ok_throw.
Qed.

(** ** The authorization theorem *)

Inductive outbox_op :=
| OutPrepare (rq : PrepareRequest) | OutRetry (id : string) | OutLaunch (id : string)
| OutVerify (id : string) | OutRetire (id : string) (mode : RetirementMode) (timeout : Z)
| OutReconcile (at_ : Time) | OutGet (id : string) | OutList.

Definition run_outbox (o : outbox_op) : OM unit :=
  match o with
  | OutPrepare rq => _ ← outbox_prepare rq; mret tt
  | OutRetry id => _ ← outbox_retry id; mret tt
  | OutLaunch id => _ ← outbox_launch id; mret tt
  | OutVerify id => _ ← outbox_verify id; mret tt
  | OutRetire id mode timeout => _ ← outbox_retire id mode timeout; mret tt
  | OutReconcile at_ => reconcile at_
  | OutGet id => _ ← outbox_get id; mret tt
  | OutList => _ ← outbox_list; mret tt
  end.

(** Outbox steps, and changes of the store between them. (The store also
    changes while an operation waits for an answer, as [others] says.) *)
Inductive outbox_step : relation (World Call) :=
| ostep_op o w r w' : run_outbox o w = (r, w') → outbox_step w w'
| ostep_store w s : handoff_step (w_store w) s → outbox_step w (mkWorld s (w_tick w) (w_calls w)).

Lemma run_outbox_ok o : ends_ok world_ok (run_outbox o).
Proof.
  destruct o; simpl; try apply ok_reconcile;
    (apply hoare_bind with (λ _, world_ok); [|intros ?; by apply ok_mret]).
  - apply ok_prepare.
  - apply ok_retry.
  - apply ok_launch.
  - apply ok_verify.
  - apply ok_retire.
  - apply hoare_get_then. intros r _. apply ok_mret, has_world.
  - unfold outbox_list. apply hoare_bind with (λ _, world_ok).
    + intros w Hw. unfold store_op, ListSource, listRecords, recordFiles, verifyPrivateDir, mbind, M_bind,
        lift, gets, mret, M_ret, throw. destruct w as [s k c]. simpl.
      destruct (hs_dirs s); simpl; try done. by destruct (need _ _).
    + intros [l|e]; [by apply ok_mret|by apply ok_throw].
Qed.

Lemma outbox_step_ok w w' : outbox_step w w' → world_ok w → world_ok w'.
Proof.
  intros [o w0 r w1 Hr|w0 s Hs] Hw.
  - pose proof (run_outbox_ok o w0 Hw) as Hok. rewrite Hr in Hok. by destruct r.
  - apply world_step; [by apply rtc_once|done|done].
Qed.

(** C1: Everything the outbox ever does outside the daemon is authorized by
    what is durably recorded, in any interleaving of operator requests,
    recovery passes and other use of the store (which may happen during every
    wait for an answer), and whatever the peers answer. For each call the store
    has held, in the history that led to its present contents, the very version
    of a record the call is for: a prepare call carries its manifest to its
    target device and that version was preparing_remote; a launch call names the
    handoff, its digest and its target, and that version was launching_remote;
    a verify call goes to the device that accepted, with the locator it
    accepted; and a source session is closed, with the recorded timeout, only
    for an accepted handoff whose retirement is pending and whose continuation
    proved, against this manifest, that it loaded the context. *)
Theorem outbox_calls_authorized clock io tick w :
  rtc outbox_step (mkWorld (hempty clock io) tick []) w →
  ∀ c, c ∈ w_calls w → authorized (w_store w) c.
Proof.
  intros Hr. assert (world_ok w) as [_ _ _ Hc]; [|by apply Forall_forall].
  assert (world_ok (mkWorld (hempty clock io) tick [])) as Hinit.
  { split; [split; apply map_Forall_empty|by exists clock, io|done|constructor]. }
  induction Hr as [|x y z Hxy _ IH]; [done|]. by apply IH, (outbox_step_ok x).
Qed.
End OutboxFacts.
