(* ===== verification/Session.v ===== *)
(** internal/session/state.go: the runtime state of a managed agent session and
    its setters, and the preview of a prompt the daemon keeps in it
    (daemon.go, [truncatePreview]). Each setter holds the session's lock, so it
    is one function; the clock is read inside and is an argument here. *)

From S2P Require Import Prelude GoText RuneText.
From stdpp Require Import base gmap strings list.
From Stdlib Require Import ZArith Lia Ascii.

Open Scope Z_scope.

(** ** Data *)

Inductive State :=
| StateStarting | StateHandshaking | StateIdle | StateWorking | StateStuck | StateEscalated
| StateExited | StateFailed | StateOther (raw : string).
#[export] Instance State_eq_dec : EqDecision State.
Proof. solve_decision. Defined.

Record Session := mkSession {
  ses_ID : string; ses_Name : string; ses_Agent : string; ses_CWD : string; ses_Transport : string;
  ses_TmuxSessionName : string; ses_TmuxTarget : string; ses_CurrentCommand : string;
  ses_BackendSessionID : string; ses_PID : Z; ses_State : State; ses_Health : string;
  ses_StartedAt : Time; ses_LastActivityAt : Time;
  ses_IdleSince : option Time; ses_WorkingSince : option Time;
  ses_NudgeCount : Z; ses_Env : gmap string string; ses_AutoClose : bool; ses_OwnerID : string;
  ses_private : bool }.

(** ** Operations *)

Definition NewSession (id name agent cwd : string) (now : Time) : Session :=
  mkSession id name agent cwd "" "" "" "" "" 0 StateStarting "healthy" now now None None 0 ∅ false "" false.

Definition SetState (state : State) (now : Time) (s : Session) : Session :=
  mkSession (ses_ID s) (ses_Name s) (ses_Agent s) (ses_CWD s) (ses_Transport s) (ses_TmuxSessionName s)
    (ses_TmuxTarget s) (ses_CurrentCommand s) (ses_BackendSessionID s) (ses_PID s) state (ses_Health s)
    (ses_StartedAt s) now
    (if bool_decide (state = StateIdle) then Some now else None)
    (if bool_decide (state = StateWorking) then Some now else None)
    (ses_NudgeCount s) (ses_Env s) (ses_AutoClose s) (ses_OwnerID s) (ses_private s).

Definition RecordActivity (now : Time) (s : Session) : Session :=
  mkSession (ses_ID s) (ses_Name s) (ses_Agent s) (ses_CWD s) (ses_Transport s) (ses_TmuxSessionName s)
    (ses_TmuxTarget s) (ses_CurrentCommand s) (ses_BackendSessionID s) (ses_PID s) (ses_State s) (ses_Health s)
    (ses_StartedAt s) now (ses_IdleSince s) (ses_WorkingSince s)
    (ses_NudgeCount s) (ses_Env s) (ses_AutoClose s) (ses_OwnerID s) (ses_private s).

Definition set_nudges (n : Z) (s : Session) : Session :=
  mkSession (ses_ID s) (ses_Name s) (ses_Agent s) (ses_CWD s) (ses_Transport s) (ses_TmuxSessionName s)
    (ses_TmuxTarget s) (ses_CurrentCommand s) (ses_BackendSessionID s) (ses_PID s) (ses_State s) (ses_Health s)
    (ses_StartedAt s) (ses_LastActivityAt s) (ses_IdleSince s) (ses_WorkingSince s)
    n (ses_Env s) (ses_AutoClose s) (ses_OwnerID s) (ses_private s).
(** The new count is the field of the result. *)
Definition IncrementNudge (s : Session) : Session := set_nudges (s64 (ses_NudgeCount s + 1)) s.
Definition ResetNudge (s : Session) : Session := set_nudges 0 s.

Definition SetTransport (transport : string) (s : Session) : Session :=
  mkSession (ses_ID s) (ses_Name s) (ses_Agent s) (ses_CWD s) transport (ses_TmuxSessionName s)
    (ses_TmuxTarget s) (ses_CurrentCommand s) (ses_BackendSessionID s) (ses_PID s) (ses_State s) (ses_Health s)
    (ses_StartedAt s) (ses_LastActivityAt s) (ses_IdleSince s) (ses_WorkingSince s)
    (ses_NudgeCount s) (ses_Env s) (ses_AutoClose s) (ses_OwnerID s) (ses_private s).
Definition SetPID (pid : Z) (s : Session) : Session :=
  mkSession (ses_ID s) (ses_Name s) (ses_Agent s) (ses_CWD s) (ses_Transport s) (ses_TmuxSessionName s)
    (ses_TmuxTarget s) (ses_CurrentCommand s) (ses_BackendSessionID s) pid (ses_State s) (ses_Health s)
    (ses_StartedAt s) (ses_LastActivityAt s) (ses_IdleSince s) (ses_WorkingSince s)
    (ses_NudgeCount s) (ses_Env s) (ses_AutoClose s) (ses_OwnerID s) (ses_private s).
Definition SetCurrentCommand (command : string) (s : Session) : Session :=
  mkSession (ses_ID s) (ses_Name s) (ses_Agent s) (ses_CWD s) (ses_Transport s) (ses_TmuxSessionName s)
    (ses_TmuxTarget s) command (ses_BackendSessionID s) (ses_PID s) (ses_State s) (ses_Health s)
    (ses_StartedAt s) (ses_LastActivityAt s) (ses_IdleSince s) (ses_WorkingSince s)
    (ses_NudgeCount s) (ses_Env s) (ses_AutoClose s) (ses_OwnerID s) (ses_private s).
Definition SetBackendSessionID (id : string) (s : Session) : Session :=
  mkSession (ses_ID s) (ses_Name s) (ses_Agent s) (ses_CWD s) (ses_Transport s) (ses_TmuxSessionName s)
    (ses_TmuxTarget s) (ses_CurrentCommand s) id (ses_PID s) (ses_State s) (ses_Health s)
    (ses_StartedAt s) (ses_LastActivityAt s) (ses_IdleSince s) (ses_WorkingSince s)
    (ses_NudgeCount s) (ses_Env s) (ses_AutoClose s) (ses_OwnerID s) (ses_private s).
Definition SetHealth (health : string) (s : Session) : Session :=
  mkSession (ses_ID s) (ses_Name s) (ses_Agent s) (ses_CWD s) (ses_Transport s) (ses_TmuxSessionName s)
    (ses_TmuxTarget s) (ses_CurrentCommand s) (ses_BackendSessionID s) (ses_PID s) (ses_State s) health
    (ses_StartedAt s) (ses_LastActivityAt s) (ses_IdleSince s) (ses_WorkingSince s)
    (ses_NudgeCount s) (ses_Env s) (ses_AutoClose s) (ses_OwnerID s) (ses_private s).
Definition SetAutoClose (v : bool) (s : Session) : Session :=
  mkSession (ses_ID s) (ses_Name s) (ses_Agent s) (ses_CWD s) (ses_Transport s) (ses_TmuxSessionName s)
    (ses_TmuxTarget s) (ses_CurrentCommand s) (ses_BackendSessionID s) (ses_PID s) (ses_State s) (ses_Health s)
    (ses_StartedAt s) (ses_LastActivityAt s) (ses_IdleSince s) (ses_WorkingSince s)
    (ses_NudgeCount s) (ses_Env s) v (ses_OwnerID s) (ses_private s).
Definition SetOwnerID (id : string) (s : Session) : Session :=
  mkSession (ses_ID s) (ses_Name s) (ses_Agent s) (ses_CWD s) (ses_Transport s) (ses_TmuxSessionName s)
    (ses_TmuxTarget s) (ses_CurrentCommand s) (ses_BackendSessionID s) (ses_PID s) (ses_State s) (ses_Health s)
    (ses_StartedAt s) (ses_LastActivityAt s) (ses_IdleSince s) (ses_WorkingSince s)
    (ses_NudgeCount s) (ses_Env s) (ses_AutoClose s) id (ses_private s).
Definition MarkPrivate (s : Session) : Session :=
  mkSession (ses_ID s) (ses_Name s) (ses_Agent s) (ses_CWD s) (ses_Transport s) (ses_TmuxSessionName s)
    (ses_TmuxTarget s) (ses_CurrentCommand s) (ses_BackendSessionID s) (ses_PID s) (ses_State s) (ses_Health s)
    (ses_StartedAt s) (ses_LastActivityAt s) (ses_IdleSince s) (ses_WorkingSince s)
    (ses_NudgeCount s) (ses_Env s) (ses_AutoClose s) (ses_OwnerID s) true.
(** The copy of an empty map is nil, which reads as empty. *)
Definition SetEnv (env : gmap string string) (s : Session) : Session :=
  mkSession (ses_ID s) (ses_Name s) (ses_Agent s) (ses_CWD s) (ses_Transport s) (ses_TmuxSessionName s)
    (ses_TmuxTarget s) (ses_CurrentCommand s) (ses_BackendSessionID s) (ses_PID s) (ses_State s) (ses_Health s)
    (ses_StartedAt s) (ses_LastActivityAt s) (ses_IdleSince s) (ses_WorkingSince s)
    (ses_NudgeCount s) env (ses_AutoClose s) (ses_OwnerID s) (ses_private s).

(** [Snapshot] copies every field. *)
Definition Snapshot : Type := Session.
(** [snap.Env[key]] *)
Definition env_lookup (key : string) (s : Snapshot) : string := default "" (ses_Env s !! key).

(** ** The preview of a prompt *)

(** Line breaks and tabs become spaces, runs of spaces one space. *)
Fixpoint flatten_spaces (prevSpace : bool) (l : list Z) : list Z :=
  match l with
  | [] => []
  | r :: l' =>
      let r := if (r =? 10) || (r =? 13) || (r =? 9) then 32 else r in
      if r =? 32 then
        if prevSpace then flatten_spaces true l' else r :: flatten_spaces true l'
      else r :: flatten_spaces false l'
  end.

Definition ellipsis : string := "…".
Definition truncatePreview (s : string) (n : nat) : string :=
  let flat := flatten_spaces false (runes s) in
  if (length flat <=? n)%nat then runes_string flat
  else runes_string (take n flat) +:+ ellipsis.

(** ** Facts *)

(** What every setter keeps: a session that is idle knows since when, one
    that works knows since when, and no other state carries either mark. *)
Definition session_ok (s : Session) : Prop :=
  (is_Some (ses_IdleSince s) ↔ ses_State s = StateIdle) ∧
  (is_Some (ses_WorkingSince s) ↔ ses_State s = StateWorking).

Lemma NewSession_ok id name agent cwd now : session_ok (NewSession id name agent cwd now).
Proof. split; simpl; rewrite is_Some_alt; done. Qed.
Lemma SetState_ok state now s : session_ok (SetState state now s).
Proof. split; simpl; case_bool_decide; rewrite is_Some_alt; naive_solver. Qed.

(** Text without white space passes unchanged. *)
Definition plain_rune (r : Z) : bool := negb ((r =? 10) || (r =? 13) || (r =? 9) || (r =? 32)).
Lemma flatten_plain b l rest :
  forallb plain_rune l = true → l ≠ [] →
  flatten_spaces b (l ++ rest) = l ++ flatten_spaces false rest.
Proof.
  revert b. induction l as [|r l IH]; intros b Hl Hne; [done|]. simpl in Hl |- *.
  apply andb_true_iff in Hl as [Hr Hl]. unfold plain_rune in Hr.
  apply negb_true_iff in Hr. rewrite !orb_false_iff in Hr. destruct Hr as [[[-> ->] ->] Hr]. simpl. rewrite Hr.
  destruct l as [|r' l]; [done|]. f_equal. by apply IH.
Qed.
