(* ===== verification/HandoffTarget.v ===== *)
(** internal/daemon/handoff_application.go: the target side of a handoff. It
    prepares a received handoff, launches its supervised continuation once the
    source's separate launch request has been recorded, resumes both after a
    restart, and answers status and verification requests. What the daemon
    injects into the application (profiles, projects, history, repository,
    sessions, prompts, persistence) answers through functions of a tick. A
    context is the tick from which it is done. The caller holds the handoff's
    own lock; the other users of the store are [others]. *)

From S2P Require Import Prelude GoText RuneText HandoffManifest HandoffRecord HandoffStore HandoffSystem.
From S2P Require Import HandoffWorld Session.
From stdpp Require Import base gmap strings list.
From Stdlib Require Import ZArith Lia Ascii.

Open Scope Z_scope.

(** ** What the application talks to *)

Record RepositoryPreparation := mkPreparation {
  prep_WorktreePath : string; prep_Head : string; prep_LocalBranch : string; prep_SourceBranch : string }.

(** The fields of [CreateSessionRequest] a launch sets. *)
Record CreateSessionRequest := mkCreate {
  cs_Agent : string; cs_CWD : string; cs_Prompt : string; cs_Name : string; cs_OwnerID : string;
  cs_Env : gmap string string; cs_private : bool }.

(** Calls that leave the application. *)
Inductive Action :=
| PublishInstructions (handoffID historyPath : string)
| PublishRendezvous (marker : string)
| CreateSession (request : CreateSessionRequest)
| SendPrompt (session prompt : string)
| PersistSessions.

Class TargetEnv := {
  te_now : nat → Time;
  (** the wait for the handoff's lock ends with the lock, not with the context *)
  te_lock : nat → bool;
  te_resumeDeadline : nat → nat;
  te_validateProfile : nat → string → bool;
  te_Project : Type;
  te_loadProjects : nat → option (string → option te_Project);
  te_snapshotHistory : nat → string → HistoryRef → result External string;
  te_prepareRepository : nat → Manifest → te_Project → result External unit;
  te_runtime : bool;  (** the launch functions are configured *)
  te_prepareLaunchRepo : nat → Manifest → te_Project → result External RepositoryPreparation;
  te_publisher : bool;
  te_publishLaunchFile : nat → string → string → Manifest → RepositoryPreparation → option string;
  te_publishRendezvous : nat → string → bool;
  (** sessions are pointers; [te_snapshot] reads one *)
  te_createSession : nat → CreateSessionRequest → option string;
  te_lookupSession : nat → string → option string;
  te_snapshot : nat → string → Snapshot;
  te_sendPrompt : nat → string → string → bool;
  te_persistSessions : nat → bool;
  (** no setter of a session changes its identity *)
  te_snapshot_ID : ∀ j k sess, ses_ID (te_snapshot j sess) = ses_ID (te_snapshot k sess);
}.

Inductive TargetError := TErrRPC (code : RPCCode) (message : string) | TErrContext.
Definition meshInvalidRequest (message : string) : TargetError := TErrRPC ErrorInvalidRequest message.
Definition internalError (message : string) : TargetError := TErrRPC ErrorInternal message.
Definition permissionDenied (message : string) : TargetError := TErrRPC ErrorPermissionDenied message.

Abbreviation TM := (M (World Action) TargetError).

Definition refuse_unless (b : bool) (e : TargetError) : TM unit := lift (guard_err b e).

(** ** Answers *)

Definition handoffStatusDTO (r : TargetRecord) : RemoteStatus :=
  let b := tgt_Body r in
  mkRemote (m_HandoffID (rb_Manifest b)) (rb_Digest b) (tgt_State r) (rb_Attempts b)
    ((λ f, mkFailureDTO (fail_Code f) (fail_Message f) (fail_Retryable f)) <$> rb_Failure b)
    (if bool_decide (tgt_State r = TargetAccepted) then rb_TargetLocator b else None).

Definition handoffAssetRetryDelay : Z := 15 * second.
Definition RootProfileScope : string := "root".

Section Target.
Context `{Others} `{TargetEnv}.

Definition targetTransitionTime : Time → TM Time := transitionTime te_now.

(** [if err := ctx.Err(); err != nil { return err }] *)
Definition ctx_done (ctx : nat) : TM bool := ask (λ k, Nat.leb ctx k).
Definition ctx_check (ctx : nat) : TM unit :=
  expired ← ctx_done ctx;
  if (expired : bool) then throw TErrContext else mret tt.

(** [store.TransitionTarget] at the record's transition time. *)
Definition transition_target (r : TargetRecord) (next : TargetState) (payload : Time → Transition)
    (message : string) : TM TargetRecord :=
  at_ ← targetTransitionTime (rb_Updated (tgt_Body r));
  res ← store_op (TransitionTarget (rec_id r) (rb_Revision (tgt_Body r)) next (payload at_));
  match res with
  | Ok r' => mret r'
  | Err _ => throw (internalError message)
  end.

Definition plain_transition (at_ : Time) : Transition := mkTransition at_ None None None.
Definition retry_at (at_ : Time) : Time := mkTime (t_ns at_ + handoffAssetRetryDelay) (t_utc at_).

Definition waitForAssets (r : TargetRecord) (message : string) : TM RemoteStatus :=
  waiting ← transition_target r TargetWaitingAssets
    (λ now, mkTransition now (Some (retry_at now)) (Some (mkFailure FailureMissingAsset message true now)) None)
    "unable to record waiting handoff";
  mret (handoffStatusDTO waiting).

Definition waitForLaunch (r : TargetRecord) (code : FailureCode) (message : string) : TM RemoteStatus :=
  waiting ← transition_target r TargetLaunchWaitingAssets
    (λ now, mkTransition now (Some (retry_at now)) (Some (mkFailure code message true now)) None)
    "unable to record waiting target launch";
  mret (handoffStatusDTO waiting).

Definition reject (r : TargetRecord) (code : FailureCode) (message : string) : TM RemoteStatus :=
  rejected ← transition_target r TargetRejected
    (λ now, mkTransition now None (Some (mkFailure code message false now)) None)
    "unable to reject handoff";
  mret (handoffStatusDTO rejected).

Definition classifyRepositoryFailure (r : TargetRecord) (e : External) : TM RemoteStatus :=
  if ext_Retryable e then waitForAssets r "repository snapshot is not available"
  else reject r FailureVerification "repository snapshot did not match the target project".

(** The artifacts of a manifest: [len(manifest.Artifacts) != 0]. *)
Definition has_artifacts (m : Manifest) : bool :=
  match m_Artifacts m with Some (_ :: _) => true | _ => false end.

Definition device_bound (localDeviceID : string) (r : TargetRecord) : bool :=
  negb (String.eqb localDeviceID "") &&
  String.eqb (ta_DeviceID (m_Target (rb_Manifest (tgt_Body r)))) localDeviceID.

(** ** Preparation *)

(** [resumeTarget] from the project registry on. *)
Definition prepare_assets (ctx : nat) (r : TargetRecord) : TM RemoteStatus :=
  let m := rb_Manifest (tgt_Body r) in
  registry ← ask te_loadProjects;
  _ ← ctx_check ctx;
  match registry with
  | None => reject r FailureVerification "target project registry is invalid"
  | Some resolve =>
  match resolve (repo_ProjectSlug (m_Repository m)) with
  | None => reject r FailureVerification "target project is not registered"
  | Some project =>
      history ← ask (λ k, te_snapshotHistory k (m_HandoffID m) (m_History m));
      _ ← ctx_check ctx;
      match history with
      | Err e =>
          if ext_Retryable e then waitForAssets r "synced session history is not available"
          else reject r FailureInvalidManifest "session history reference is invalid"
      | Ok _ =>
          prepared ← ask (λ k, te_prepareRepository k m project);
          _ ← ctx_check ctx;
          match prepared with
          | Err e => classifyRepositoryFailure r e
          | Ok _ =>
              r' ← transition_target r TargetPrepared plain_transition "unable to prepare handoff";
              mret (handoffStatusDTO r')
          end
      end
  end end.

(** [resumeTarget] once the record is being validated. *)
Definition validate_target (ctx : nat) (localDeviceID : string) (r : TargetRecord) : TM RemoteStatus :=
  if negb (device_bound localDeviceID r)
  then reject r FailureVerification "target device binding no longer matches this runtime"
  else
    known ← ask (λ k, te_validateProfile k (ta_Profile (m_Target (rb_Manifest (tgt_Body r)))));
    if negb known
    then reject r FailureVerification "target agent profile is not available for supervised launch"
    else _ ← ctx_check ctx; prepare_assets ctx r.

Definition resumeTarget (ctx : nat) (localDeviceID : string) (r : TargetRecord) : TM RemoteStatus :=
  _ ← ctx_check ctx;
  let artifacts := has_artifacts (rb_Manifest (tgt_Body r)) in
  let unsupported := reject r FailureInvalidManifest "handoff artifacts are not supported" in
  match tgt_State r with
  | TargetReceived | TargetWaitingAssets =>
      if artifacts then unsupported else
      r' ← transition_target r TargetValidating plain_transition "unable to validate handoff";
      validate_target ctx localDeviceID r'
  | TargetValidating => if artifacts then unsupported else validate_target ctx localDeviceID r
  | TargetPrepared | TargetRejected | TargetLaunching | TargetLaunchWaitingAssets | TargetAccepted =>
      mret (handoffStatusDTO r)
  | TargetOther _ => throw (internalError "handoff has an unsupported state")
  end.

Definition lockPrepareContext : TM unit :=
  granted ← ask te_lock;
  if (granted : bool) then mret tt else throw TErrContext.

Definition prepare (ctx : nat) (principal localDeviceID : string) (m : Manifest) : TM RemoteStatus :=
  _ ← refuse_unless (is_ok (Manifest_Validate m)) (meshInvalidRequest "invalid handoff manifest");
  _ ← refuse_unless (negb (String.eqb principal "") && String.eqb principal (ss_DeviceID (m_Source m)))
        (permissionDenied "handoff source does not match authenticated peer");
  _ ← refuse_unless (negb (String.eqb localDeviceID "") && String.eqb (ta_DeviceID (m_Target m)) localDeviceID)
        (meshInvalidRequest "handoff target does not match this device");
  _ ← refuse_unless (negb (has_artifacts m)) (meshInvalidRequest "handoff artifacts are not supported");
  _ ← lockPrepareContext;
  _ ← ctx_check ctx;
  received ← store_op (ReceiveTarget m);
  match received with
  | Err HErrManifestConflict => throw (meshInvalidRequest "handoff id conflicts with an existing manifest")
  | Err _ => throw (internalError "unable to persist handoff")
  | Ok (r, _) => resumeTarget ctx localDeviceID r
  end.

(** ** The identity and the prompt of a continuation *)

(** The digest's first twelve bytes are 24 hexadecimal digits. *)
Definition handoffLaunchSessionIdentity (r : TargetRecord) : string * string :=
  let b := tgt_Body r in
  let digest := text_sha256 ("arcmux-handoff-session-v1" +:+ (nul +:+ (rec_id r +:+ (nul +:+ rb_Digest b)))) in
  ("handoff-" +:+ String.substring 0 24 digest, "arcmux-handoff:" +:+ rec_id r).

Definition handoffLaunchMarker (r : TargetRecord) : string := LaunchMarker (rec_id r) (rb_Digest (tgt_Body r)).
Definition handoffSafePreambleRunes : nat := 200.
Fixpoint dashes (n : nat) : string := match n with O => "" | S n' => String "-" (dashes n') end.
Definition handoffLaunchSafePreamble (r : TargetRecord) : string :=
  let marker := handoffLaunchMarker r in
  marker +:+ dashes (handoffSafePreambleRunes - String.length marker).
Definition handoffLaunchCurrentCommand (r : TargetRecord) : string :=
  handoffLaunchSafePreamble r +:+ ellipsis.
Definition newline : string := String "010"%char "".
Definition handoffLaunchPrompt (r : TargetRecord) : string :=
  let marker := handoffLaunchMarker r in
  handoffLaunchSafePreamble r +:+ (newline +:+ (newline +:+
  ("Resume this explicitly authorized handoff in order: (1) run `arcmux handoff receive " +:+ (marker +:+
  ("`; (2) validate the exact checkout revision and load the pinned history named by those owner-local instructions; " +:+
  ("(3) only after the context is loaded, run `arcmux handoff acknowledge " +:+ (marker +:+
  (" --phase context-loaded`. " +:+
  "If acknowledgement reports that acceptance is not ready, retry that same command; never infer or substitute another session.")))))))).

Definition instructionsKey : string := "ARCMUX_HANDOFF_INSTRUCTIONS".

(** The session is the private continuation this launch asked for. *)
Definition is_continuation (r : TargetRecord) (p : RepositoryPreparation) (instructions : string)
    (snap : Snapshot) : bool :=
  let '(name, owner) := handoffLaunchSessionIdentity r in
  ses_private snap && String.eqb (ses_Name snap) name && String.eqb (ses_OwnerID snap) owner &&
  String.eqb (ses_Agent snap) (ta_Profile (m_Target (rb_Manifest (tgt_Body r)))) &&
  String.eqb (ses_CWD snap) (prep_WorktreePath p) &&
  String.eqb (env_lookup instructionsKey snap) instructions.

Definition names_session (r : TargetRecord) (snap : Snapshot) : bool :=
  match rb_TargetLocator (tgt_Body r) with
  | Some l => String.eqb (ses_ID snap) (tl_SessionID l)
  | None => false
  end.

(** ** Selecting or creating the continuation *)

(** The four results of [targetLaunchSession]: its record is the current one. *)
Inductive LaunchOutcome :=
| LaunchConflict (current : TargetRecord)
| LaunchError (current : TargetRecord)
| LaunchReady (sess : string) (current : TargetRecord) (alreadyDelivered : bool).

(** [TargetRecord{}], what the store returns with an error *)
Definition zero_manifest : Manifest :=
  mkManifest 0 "" "" "" (mkSourceSession "" "" "") "" (mkTargetAgent "" "") (mkGoal "" "" zero_time)
    (mkHistory "" "" "" 0 "")
    (mkRepository "" "" "" "" "" "" (CleanlinessOther "") (TransferOther "") None) None
    (mkEvidence (ValidationOther "") "" None) zero_time.
Definition zero_target : TargetRecord :=
  mkTarget (TargetOther "") (mkBody 0 zero_manifest "" 0 None None None None 0 zero_time).

(** The polling loop, until the context is done. *)
Fixpoint await_continuation (fuel ctx : nat) (sess : string) (r : TargetRecord) (p : RepositoryPreparation)
    (instructions : string) : TM LaunchOutcome :=
  match fuel with
  | O => mret (LaunchError r)
  | S fuel' =>
      snap ← ask (λ k, te_snapshot k sess);
      if negb (is_continuation r p instructions snap && names_session r snap) then mret (LaunchConflict r)
      else if String.eqb (ses_CurrentCommand snap) (handoffLaunchCurrentCommand r)
      then mret (LaunchReady sess r true)
      else if negb (String.eqb (ses_CurrentCommand snap) "") then mret (LaunchConflict r)
      else match ses_State snap with
      | StateIdle => mret (LaunchReady sess r false)
      | StateExited | StateFailed | StateWorking => mret (LaunchConflict r)
      | _ =>
          expired ← ctx_done ctx;
          if (expired : bool) then mret (LaunchError r)
          else await_continuation fuel' ctx sess r p instructions
      end
  end.

(** [recordLocator] of the new session, after it is durably in the inventory;
    with an error the record at hand becomes the zero record. *)
Definition record_continuation (r : TargetRecord) (sess : string) (snap : Snapshot)
    (continue : TargetRecord → TM LaunchOutcome) : TM LaunchOutcome :=
  persisted ← call PersistSessions te_persistSessions;
  if negb persisted then mret (LaunchError r) else
  let locator := mkTargetLocator (ta_DeviceID (m_Target (rb_Manifest (tgt_Body r)))) RootProfileScope
                   (ses_ID snap) in
  at_ ← targetTransitionTime (rb_Updated (tgt_Body r));
  res ← store_op (RecordTargetLaunchLocator (rec_id r) (rb_Revision (tgt_Body r)) locator at_);
  match res with
  | Err (HErrCASConflict | HErrManifestConflict | HErrIllegalTransition) => mret (LaunchConflict zero_target)
  | Err _ => mret (LaunchError zero_target)
  | Ok r' => continue r'
  end.

Definition targetLaunchSession (ctx : nat) (r : TargetRecord) (p : RepositoryPreparation)
    (instructions : string) : TM LaunchOutcome :=
  let '(name, owner) := handoffLaunchSessionIdentity r in
  let poll sess r := await_continuation (S ctx) ctx sess r p instructions in
  match rb_TargetLocator (tgt_Body r) with
  | Some l =>
      if negb (String.eqb (tl_DeviceID l) (ta_DeviceID (m_Target (rb_Manifest (tgt_Body r)))) &&
               String.eqb (tl_ProfileScope l) RootProfileScope)
      then mret (LaunchConflict r) else
      found ← ask (λ k, te_lookupSession k (tl_SessionID l));
      match found with
      | None => mret (LaunchConflict r)
      | Some sess => poll sess r
      end
  | None =>
      let request := mkCreate (ta_Profile (m_Target (rb_Manifest (tgt_Body r)))) (prep_WorktreePath p) ""
                       name owner {[ instructionsKey := instructions ]} true in
      created ← call (CreateSession request) (λ k, te_createSession k request);
      match created with
      | None => mret (LaunchError r)
      | Some sess =>
          snap ← ask (λ k, te_snapshot k sess);
          if negb (is_continuation r p instructions snap) then mret (LaunchConflict r)
          else record_continuation r sess snap (poll sess)
      end
  end.

(** ** Launch *)

(** [resumeLaunch] once the prompt is known to be delivered. *)
Definition accept_launch (sess : string) (current : TargetRecord) : TM RemoteStatus :=
  snap ← ask (λ k, te_snapshot k sess);
  if negb (String.eqb (ses_CurrentCommand snap) (handoffLaunchCurrentCommand current))
  then reject current FailureLaunch "target continuation did not persist launch delivery evidence" else
  persisted ← call PersistSessions te_persistSessions;
  if negb persisted then waitForLaunch current FailureInternal "target session persistence is not ready" else
  match rb_TargetLocator (tgt_Body current) with
  | None => reject current FailureInternal "target continuation locator is unavailable"
  | Some l =>
      accepted ← transition_target current TargetAccepted (λ at_, mkTransition at_ None None (Some l))
        "unable to accept target launch";
      mret (handoffStatusDTO accepted)
  end.

(** [resumeLaunch] from the selection of the session on. *)
Definition deliver_launch (ctx : nat) (r : TargetRecord) (p : RepositoryPreparation) (instructions : string)
    : TM RemoteStatus :=
  outcome ← targetLaunchSession ctx r p instructions;
  match outcome with
  | LaunchConflict current =>
      reject current FailureLaunch "target continuation conflicts with durable launch state"
  | LaunchError current =>
      _ ← ctx_check ctx;
      waitForLaunch current FailureLaunch "target continuation is not ready"
  | LaunchReady sess current true => accept_launch sess current
  | LaunchReady sess current false =>
      snap ← ask (λ k, te_snapshot k sess);
      sent ← call (SendPrompt (ses_ID snap) (handoffLaunchPrompt current))
                  (λ k, te_sendPrompt k (ses_ID snap) (handoffLaunchPrompt current));
      if negb sent then
        _ ← ctx_check ctx;
        waitForLaunch current FailureLaunch "confirmed target prompt delivery is not ready"
      else accept_launch sess current
  end.

(** [resumeLaunch] once the repository is ready: the private instructions. *)
Definition publish_launch (ctx : nat) (r : TargetRecord) (historyPath : string) (p : RepositoryPreparation)
    : TM RemoteStatus :=
  let m := rb_Manifest (tgt_Body r) in
  if negb te_publisher then reject r FailureInternal "target launch runtime is unavailable" else
  published ← call (PublishInstructions (m_HandoffID m) historyPath)
                   (λ k, te_publishLaunchFile k (m_HandoffID m) historyPath m p);
  match published with
  | None => waitForLaunch r FailureInternal "private target instructions are not ready"
  | Some instructions =>
      bound ← call (PublishRendezvous (handoffLaunchMarker r)) (λ k, te_publishRendezvous k (handoffLaunchMarker r));
      if negb bound then waitForLaunch r FailureInternal "private target instructions are not ready"
      else deliver_launch ctx r p instructions
  end.

(** [resumeLaunch] from the project registry on. *)
Definition launch_assets (ctx : nat) (r : TargetRecord) : TM RemoteStatus :=
  let m := rb_Manifest (tgt_Body r) in
  registry ← ask te_loadProjects;
  match registry with
  | None => reject r FailureVerification "target project registry is invalid"
  | Some resolve =>
  match resolve (repo_ProjectSlug (m_Repository m)) with
  | None => reject r FailureVerification "target project is not registered"
  | Some project =>
      history ← ask (λ k, te_snapshotHistory k (m_HandoffID m) (m_History m));
      _ ← ctx_check ctx;
      match history with
      | Err e =>
          if ext_Retryable e then waitForLaunch r FailureMissingAsset "launch is waiting for synchronized history"
          else reject r FailureVerification "launch history did not match prepared state"
      | Ok historyPath =>
          prepared ← ask (λ k, te_prepareLaunchRepo k m project);
          _ ← ctx_check ctx;
          match prepared with
          | Err e =>
              if ext_Retryable e
              then waitForLaunch r FailureMissingAsset "launch is waiting for the prepared repository"
              else reject r FailureVerification "launch repository did not match prepared state"
          | Ok p => publish_launch ctx r historyPath p
          end
      end
  end end.

(** [resumeLaunch] once the record is launching. *)
Definition launch_target (ctx : nat) (localDeviceID : string) (r : TargetRecord) : TM RemoteStatus :=
  let m := rb_Manifest (tgt_Body r) in
  _ ← ctx_check ctx;
  if negb (device_bound localDeviceID r)
  then reject r FailureVerification "target device binding no longer matches this runtime"
  else if has_artifacts m then reject r FailureInvalidManifest "handoff artifacts are not supported"
  else
    known ← ask (λ k, te_validateProfile k (ta_Profile (m_Target m)));
    if negb known
    then reject r FailureVerification "target agent profile is not available for supervised launch"
    else if negb te_runtime then reject r FailureInternal "target launch runtime is unavailable"
    else launch_assets ctx r.

Definition resumeLaunch (ctx : nat) (localDeviceID : string) (r : TargetRecord) : TM RemoteStatus :=
  r' ← (if bool_decide (tgt_State r = TargetLaunchWaitingAssets)
        then transition_target r TargetLaunching plain_transition "unable to resume target launch"
        else mret r);
  if negb (bool_decide (tgt_State r' = TargetLaunching)) then mret (handoffStatusDTO r')
  else launch_target ctx localDeviceID r'.

Definition launch (ctx : nat) (principal localDeviceID handoffID digest : string) : TM RemoteStatus :=
  _ ← refuse_unless (negb (String.eqb handoffID "") && negb (String.eqb digest ""))
        (meshInvalidRequest "handoff_id and manifest_digest are required");
  _ ← lockPrepareContext;
  _ ← ctx_check ctx;
  got ← store_op (GetTarget handoffID);
  match got with
  | Err _ => throw (meshInvalidRequest "handoff not found")
  | Ok r =>
      _ ← refuse_unless (negb (String.eqb principal "") &&
                         String.eqb (ss_DeviceID (m_Source (rb_Manifest (tgt_Body r)))) principal)
            (permissionDenied "handoff belongs to a different authenticated peer");
      _ ← refuse_unless (device_bound localDeviceID r)
            (meshInvalidRequest "handoff target does not match this device");
      _ ← refuse_unless (String.eqb digest (rb_Digest (tgt_Body r)))
            (meshInvalidRequest "handoff manifest digest does not match prepared state");
      match tgt_State r with
      | TargetPrepared | TargetLaunchWaitingAssets =>
          r' ← transition_target r TargetLaunching plain_transition "unable to authorize target launch";
          resumeLaunch ctx localDeviceID r'
      | TargetLaunching => resumeLaunch ctx localDeviceID r
      | TargetAccepted | TargetRejected => mret (handoffStatusDTO r)
      | _ => throw (meshInvalidRequest "handoff is not prepared for launch")
      end
  end.

(** ** Questions of the source *)

Definition status (principal handoffID : string) : TM RemoteStatus :=
  _ ← refuse_unless (negb (String.eqb handoffID "")) (meshInvalidRequest "handoff_id is required");
  got ← store_op (GetTarget handoffID);
  match got with
  | Err HErrNotFound => throw (meshInvalidRequest "handoff not found")
  | Err _ => throw (meshInvalidRequest "invalid handoff_id")
  | Ok r =>
      _ ← refuse_unless (negb (String.eqb principal "") &&
                         String.eqb (ss_DeviceID (m_Source (rb_Manifest (tgt_Body r)))) principal)
            (permissionDenied "handoff belongs to a different authenticated peer");
      mret (handoffStatusDTO r)
  end.

Definition verify (principal localDeviceID handoffID digest : string) (locator : TargetLocator)
    : TM RemoteVerification :=
  _ ← refuse_unless (negb (String.eqb handoffID "") && negb (String.eqb digest ""))
        (meshInvalidRequest "handoff_id and manifest_digest are required");
  got ← store_op (GetTarget handoffID);
  match got with
  | Err _ => throw (meshInvalidRequest "handoff not found")
  | Ok r =>
      let b := tgt_Body r in
      _ ← refuse_unless (negb (String.eqb principal "") &&
                         String.eqb (ss_DeviceID (m_Source (rb_Manifest b))) principal)
            (permissionDenied "handoff belongs to a different authenticated peer");
      _ ← refuse_unless (device_bound localDeviceID r)
            (meshInvalidRequest "handoff target does not match this device");
      let mismatch := throw (meshInvalidRequest "handoff verification identity does not match accepted state") in
      match tgt_State r, rb_TargetLocator b with
      | TargetAccepted, Some l =>
          if negb (String.eqb digest (rb_Digest b)) || negb (bool_decide (locator = l)) then mismatch else
          mret (match rb_ContextLoaded b with
                | Some ack => mkVerification (rec_id r) (rb_Digest b) l "context_loaded" true (Some ack)
                | None => mkVerification (rec_id r) (rb_Digest b) l "pending" false None
                end)
      | _, _ => mismatch
      end
  end.

(** ** Recovery *)

Definition resumable (s : TargetState) : bool :=
  match s with
  | TargetReceived | TargetValidating | TargetWaitingAssets | TargetLaunching | TargetLaunchWaitingAssets => true
  | _ => false
  end.
Definition launch_phase (s : TargetState) : bool :=
  match s with TargetLaunching | TargetLaunchWaitingAssets => true | _ => false end.

(** The wait of a reloaded record is over. *)
Definition not_waiting (at_ : Time) (r : TargetRecord) : bool :=
  negb (target_retry (tgt_State r)) ||
  match rb_NextRetry (tgt_Body r) with Some t => negb (After t at_) | None => false end.

(** One candidate; whether the pass goes on. A resume that outlives its
    context goes on in the background: its effects are the operation's. *)
Definition reconcile_candidate (ctx : nat) (localDeviceID : string) (at_ : Time) (candidate : TargetRecord)
    : TM bool :=
  expired ← ctx_done ctx;
  if (expired : bool) then mret false else
  if negb (resumable (tgt_State candidate)) then mret true else
  deadline ← ask te_resumeDeadline;
  let resumeCtx := Nat.min ctx deadline in
  granted ← ask te_lock;
  if negb granted then
    gone ← ctx_done ctx;
    mret (negb gone)
  else
    got ← store_op (GetTarget (rec_id candidate));
    match got with
    | Err _ => mret true
    | Ok current =>
        if negb (not_waiting at_ current) || negb (resumable (tgt_State current)) then mret true else
        _ ← try (if launch_phase (tgt_State current) then resumeLaunch resumeCtx localDeviceID current
                 else resumeTarget resumeCtx localDeviceID current);
        mret true
    end.

Fixpoint reconcile_candidates (ctx : nat) (localDeviceID : string) (at_ : Time) (l : list TargetRecord)
    : TM unit :=
  match l with
  | [] => mret tt
  | candidate :: rest =>
      go_on ← reconcile_candidate ctx localDeviceID at_ candidate;
      if (go_on : bool) then reconcile_candidates ctx localDeviceID at_ rest else mret tt
  end.

Definition reconcileTargetHandoffs (ctx : nat) (localDeviceID : string) (at_ : Time) : TM unit :=
  records ← store_op (RecoverableTarget at_);
  match records with
  | Err _ => mret tt
  | Ok l => reconcile_candidates ctx localDeviceID at_ l
  end.
End Target.
