(* ===== verification/HandoffTargetFacts.v ===== *)
(** Safety of the target side: whatever is published, started, prompted or
    persisted for a handoff, its authenticated source has asked for exactly
    this launch, however preparation, launches, restarts and other users of
    the store interleave. *)

From S2P Require Import Prelude GoText RuneText HandoffManifest HandoffRecord HandoffStore HandoffFacts.
From S2P Require Import HandoffSteps HandoffSystem HandoffWorld HandoffWorldFacts.
From S2P Require Import Session HandoffTarget.
From stdpp Require Import base gmap strings list relations.
From Stdlib Require Import ZArith Lia Ascii.

Open Scope Z_scope.

(** ** Which records an operation may move where *)

(** Each target file is unchanged, or holds a new record whose key and state
    are in [P]. *)
Definition moves (P : string → TargetState → Prop) : relation HStore := λ s s', ∀ id,
  hs_target s' !! id = hs_target s !! id ∨
  ∃ r, hs_target s' !! id = Some (Regular 384 (Some r)) ∧ P id (tgt_State r).
Abbreviation moves_to id0 next := (moves (λ id st, id = id0 ∧ st = next)).

#[export] Instance moves_preorder P : PreOrder (moves P).
Proof.
  split.
  - intros s id. by left.
  - intros s1 s2 s3 H1 H2 id. destruct (H2 id) as [E|?]; [|by right].
    rewrite E. destruct (H1 id) as [->|?]; [by left|by right].
Qed.

Section Moves.
Context `{DigestLib}.

Lemma same_moves P s s' : hs_target s' = hs_target s → moves P s s'.
Proof. intros E id. rewrite E. by left. Qed.

Lemma write_moves (P : string → TargetState → Prop) id r :
  P id (tgt_State r) → respects (moves P) (writeJSONFile (A:=TargetRecord) id r).
Proof.
  intros HP s. pose proof (write_target_cases id r s) as Hw. destruct (writeJSONFile id r s) as [res s'].
  destruct Hw as [_ [Hi|[Hs _]]]; [|by apply same_moves].
  intros id'. simpl. rewrite Hi, lookup_insert. case_decide; [subst; right; by exists r|by left].
Qed.
Lemma getLocked_moves {A} `{SideSteps A} `{!Tracked A} P id : respects (moves P) (getLocked (A:=A) id).
Proof. intros s. apply same_moves. by rewrite (proj1 (getLocked_run id s)). Qed.
Lemma stepTime_moves P t u : respects (moves P) (stepTime t u).
Proof.
  intros s. unfold stepTime, hnow, mbind, M_bind, lift, mret, M_ret.
  destruct (IsZero t); simpl; destruct (need _ _); by apply same_moves.
Qed.

Lemma TransitionTarget_moves id rev next t : respects (moves_to id next) (TransitionTarget id rev next t).
Proof.
  unfold TransitionTarget. apply respects_lift_bind; [apply _|]. intros _ _.
  apply respects_bind; [apply _|apply getLocked_moves|]. intros r.
  do 2 (apply respects_lift_bind; [apply _|]; intros _ _).
  apply respects_bind; [apply _|apply stepTime_moves|]. intros at_.
  apply respects_lift_bind; [apply _|]. intros body _. cbv zeta.
  apply respects_lift_bind; [apply _|]. intros _ _.
  apply respects_bind; [apply _|by apply (write_moves _ id (mkTarget next _))|]. intros _. apply respects_ret, _.
Qed.

Lemma RecordTargetLaunchLocator_moves id rev l t :
  respects (moves_to id TargetLaunching) (RecordTargetLaunchLocator id rev l t).
Proof.
  unfold RecordTargetLaunchLocator. apply respects_lift_bind; [apply _|]. intros _ _.
  apply respects_bind; [apply _|apply getLocked_moves|]. intros r. cbv zeta.
  apply respects_lift_bind; [apply _|]. intros _ _.
  apply respects_lift_bind; [apply _|]. intros _ Hst%guard_err_ok%bool_decide_eq_true.
  apply respects_lift_bind; [apply _|]. intros _ _.
  destruct (rb_TargetLocator (tgt_Body r)) as [l0|].
  { destruct (bool_decide _); [apply respects_ret, _|apply respects_throw, _]. }
  apply respects_bind; [apply _|apply stepTime_moves|]. intros at_.
  apply respects_lift_bind; [apply _|]. intros _ _. rewrite Hst.
  apply respects_bind; [apply _|by apply (write_moves _ id (mkTarget TargetLaunching _))|]. intros _. apply respects_ret, _.
Qed.

Lemma ReceiveTarget_moves m : respects (moves_to (m_HandoffID m) TargetReceived) (ReceiveTarget m).
Proof.
  unfold ReceiveTarget, createRecord. apply respects_lift_bind; [apply _|]. intros digest _.
  apply respects_lift_bind; [apply _|]. intros file Hfile. unfold recordPath in Hfile.
  apply result_bind_ok in Hfile as (u & _ & [= <-]).
  apply respects_bind; [apply _|apply respects_gets, _|]. intros files.
  destruct (decode_record _) as [r|[]]; try apply respects_throw, _.
  - apply respects_lift_bind; [apply _|]. intros _ _. destruct (_ || _); [apply respects_throw, _|apply respects_ret, _].
  - apply respects_bind; [apply _|intros s; by apply same_moves|]. intros at_. cbv zeta.
    apply respects_lift_bind; [apply _|]. intros _ _.
    apply respects_bind; [apply _|by apply (write_moves _ _ (mkTarget TargetReceived _))|]. intros _. apply respects_ret, _.
Qed.

(** An acknowledgement only rewrites accepted records. *)
Abbreviation acknowledges := (moves (λ _ st, st = TargetAccepted)).
Lemma acknowledge_record_moves id r phase scope session t :
  respects acknowledges (acknowledge_record id r phase scope session t).
Proof.
  unfold acknowledge_record. cbv zeta. destruct (tgt_State r) eqn:Hst; try apply respects_throw, _.
  destruct (rb_TargetLocator (tgt_Body r)) as [l|]; [|apply respects_throw, _].
  apply respects_lift_bind; [apply _|]. intros _ _.
  destruct (rb_ContextLoaded (tgt_Body r)); [apply respects_ret, _|].
  apply respects_bind; [apply _|apply stepTime_moves|]. intros at_.
  apply respects_lift_bind; [apply _|]. intros _ _.
  apply respects_bind; [apply _|by apply (write_moves _ id (mkTarget TargetAccepted _))|].
  intros _. apply respects_ret, _.
Qed.
Lemma acknowledge_files_moves marker phase scope session t files :
  respects acknowledges (acknowledge_files marker phase scope session t files).
Proof.
  induction files as [|[id f] files IH]; simpl; [apply respects_throw, _|].
  destruct (decode_record (Some f)) as [r|]; [|apply respects_throw, _].
  destruct (negb _); [apply respects_throw, _|]. destruct (negb _); [exact IH|apply acknowledge_record_moves].
Qed.
Lemma AcknowledgeTarget_moves marker phase scope session t :
  respects acknowledges (AcknowledgeTarget marker phase scope session t).
Proof.
  unfold AcknowledgeTarget. apply respects_lift_bind; [apply _|]. intros _ _.
  apply respects_bind; [apply _| |].
  - intros s. apply same_moves. unfold try, recordFiles, verifyPrivateDir, mbind, M_bind, gets, lift, mret, M_ret.
    simpl. destruct (hs_dirs s); simpl; try done. by destruct (need _ _).
  - intros [files|e]; [apply acknowledge_files_moves|apply respects_throw, _].
Qed.
End Moves.

(** ** Launch authority *)

Section TargetFacts.
Context `{Others} `{TargetEnv}.
(** The launch requests (peer, handoff, manifest digest) that arrived from
    authenticated peers holding the launch capability, and this device. *)
Context (granted : string → string → string → Prop) (device : string).

Definition authorised (r : TargetRecord) : Prop :=
  granted (ss_DeviceID (m_Source (rb_Manifest (tgt_Body r)))) (rec_id r) (rb_Digest (tgt_Body r)).

Definition in_launch (st : TargetState) : Prop :=
  match st with TargetLaunching | TargetLaunchWaitingAssets | TargetAccepted => True | _ => False end.

(** Every stored record in its launch phase was asked for by its source. *)
Definition launches_granted (s : HStore) : Prop :=
  ∀ r : TargetRecord, stored s r → in_launch (tgt_State r) → authorised r.

Lemma authorised_later (r r' : TargetRecord) : later r r' → authorised r → authorised r'.
Proof.
  intros Hk. unfold authorised. rewrite (later_id _ _ Hk).
  by rewrite (tkept_manifest _ _ Hk), (tkept_digest _ _ Hk).
Qed.
Lemma authorised_body r r' : body_step (tgt_Body r) (tgt_Body r') → authorised r → authorised r'.
Proof. intros (Hm & Hd & _). unfold authorised, rec_id. simpl. by rewrite Hm, Hd. Qed.

(** The first move into the launch phase is from prepared to launching. *)
Lemma enters_launch r r' :
  target_step r r' → in_launch (tgt_State r') →
  in_launch (tgt_State r) ∨ (tgt_State r = TargetPrepared ∧ tgt_State r' = TargetLaunching).
Proof.
  intros [Hl _|l Hs Hs' _ _ _|ack Hs Hs' _ _] Hin; [|left; by rewrite Hs..].
  destruct (tgt_State r), (tgt_State r'); try done; auto.
Qed.

Lemma launches_granted_step P s s' :
  store_ok s → launches_granted s → store_step s s' → moves P s s' →
  (∀ r : TargetRecord, stored s r → tgt_State r = TargetPrepared → P (rec_id r) TargetLaunching → authorised r) →
  launches_granted s'.
Proof.
  intros Hok Hg [_ Hst] Hmv Hnew r' Hr' Hin.
  assert (hs_target s' !! rec_id r' = Some (Regular 384 (Some r'))) as Hf' by exact Hr'.
  specialize (Hst (rec_id r')). rewrite Hf' in Hst.
  inversion Hst as [f Hf E|r0 _ _ Hfr _ _ E0 E|f r r0 Hd _ Hid _ _ Hb Hs Ef E]; subst.
  - by apply Hg.
  - change (tgt_State r' = TargetReceived) in Hfr. by rewrite Hfr in Hin.
  - symmetry in Ef. destruct (proj2 Hok _ _ Ef) as (r1 & -> & _ & Hid1).
    unfold decode_record in Hd. simpl in Hd. injection Hd as ->.
    assert (stored s r) as Hr by (unfold stored; by rewrite Hid).
    apply (authorised_body r); [done|].
    destruct (enters_launch r r' Hs Hin) as [Hl|[Hp Hl]]; [by apply Hg|].
    apply Hnew; [done|done|].
    destruct (Hmv (rec_id r')) as [Hsame|(r2 & Hr2 & HP)].
    + rewrite Hsame in Hf'. congruence.
    + assert (r2 = r') as -> by congruence. rewrite Hid, <- Hl. done.
Qed.

(** ** What each call of the application needs *)

Definition action_of (r : TargetRecord) (c : Action) : Prop :=
  match c with
  | PublishInstructions id _ => id = rec_id r
  | PublishRendezvous marker => marker = handoffLaunchMarker r
  | CreateSession rq =>
      cs_private rq = true ∧ (cs_Name rq, cs_OwnerID rq) = handoffLaunchSessionIdentity r ∧
      cs_Agent rq = ta_Profile (m_Target (rb_Manifest (tgt_Body r))) ∧ cs_Prompt rq = "" ∧
      rb_TargetLocator (tgt_Body r) = None
  | SendPrompt id prompt =>
      prompt = handoffLaunchPrompt r ∧ ∃ l, rb_TargetLocator (tgt_Body r) = Some l ∧ tl_SessionID l = id
  | PersistSessions => True
  end.

(** The store has held the launching record the call is for. *)
Definition action_justified (s : HStore) (c : Action) : Prop :=
  ∃ r : TargetRecord, held s r ∧ tgt_State r = TargetLaunching ∧ authorised r ∧
    device_bound device r = true ∧ action_of r c.

Lemma action_justified_steps s s' c :
  rtc handoff_step s s' → action_justified s c → action_justified s' c.
Proof. intros Hs (r & Hr & Hrest). exists r. split; [by eapply held_steps|done]. Qed.

(** Nobody else starts the launch of a handoff the source did not ask for. *)
Context (others_granted : ∀ k s, store_ok s → launches_granted s → launches_granted (others k s)).

#[local] Instance target_contract : Contract Action := {|
  inv := launches_granted; justified := action_justified;
  inv_others := others_granted; justified_steps := action_justified_steps |}.

Abbreviation ends_ok P m := (hoare P m (λ _, world_ok) (λ _, world_ok)).

Lemma hoare_GetTarget id :
  hoare world_ok (store_op (GetTarget id) : TM _)
    (λ res w, match res with
     | Ok r => has r w ∧ rec_id r = id ∧ (in_launch (tgt_State r) → authorised r)
     | Err _ => world_ok w end) (λ _, world_ok).
Proof.
  eapply hoare_conseq; [apply (hoare_get (A:=TargetRecord))|done| |done].
  intros [r|e] w Hw; [|done]. destruct Hw as (Hr & Hst & Hid). split_and!; [done|done|].
  intros Hl. by apply (wok_inv _ (has_world _ _ Hr)).
Qed.

(** What an operation on the record [r] may assume of the versions it meets. *)
Lemma has_authorised r w (r1 : TargetRecord) :
  has r w → authorised r → stored (w_store w) r1 → rec_id r1 = rec_id r → authorised r1.
Proof.
  intros (_ & _ & Hr) Ha Hr1 Hid. by eapply authorised_later; [by eapply held_same|].
Qed.

Lemma op_granted {A} (m : HM A) o P w :
  run_op o = discard m → respects (moves P) m → world_ok w →
  (∀ r1 : TargetRecord, stored (w_store w) r1 → P (rec_id r1) TargetLaunching → authorised r1) →
  launches_granted (m (w_store w)).2.
Proof.
  intros Ho Hm Hw HP. eapply (launches_granted_step P (w_store w)); [apply Hw|apply Hw| |apply Hm|].
  - by apply handoff_step_store, (op_step m o).
  - intros r1 Hr1 _. by apply HP.
Qed.

Lemma hoare_transition_gen (P : World Action → Prop) r next payload msg :
  (∀ w, P w → world_ok w) → (∀ w, P w → P (wait w)) →
  (next = TargetLaunching → authorised r ∧ ∀ w, P w → has r w) →
  hoare P (transition_target r next payload msg)
    (λ r' w, has r' w ∧ tgt_State r' = next ∧ (in_launch next → authorised r')) (λ _, world_ok).
Proof.
  intros HP Hwait Ha. unfold transition_target.
  apply hoare_bind with (λ _, P); [intros w Hw; by apply Hwait|]. intros at_.
  eapply hoare_bind.
  - eapply (hoare_answering _ (OpTransitionTarget (rec_id r) (rb_Revision (tgt_Body r)) next (payload at_))
      (λ r', r') (λ r', tgt_State r' = next)); [done|exact HP| |].
    + intros w Hw.
      eapply (op_granted _ (OpTransitionTarget (rec_id r) (rb_Revision (tgt_Body r)) next (payload at_)));
        [done|apply TransitionTarget_moves|by apply HP|].
      intros r1 Hr1 [Hid Hn]. destruct (Ha (eq_sym Hn)) as [Hau Hhas]. eapply has_authorised; eauto.
    + intros FS FT. eapply hoare_conseq; [apply TransitionTarget_steps|done| |done].
      by intros r' s ([? _] & ? & _).
  - intros [r'|e] w [Hw Hr]; [|done]. destruct Hr as (Hr & _ & Hst & Hn). split_and!; [done|done|].
    intros Hin. apply (wok_inv _ Hw); [done|by rewrite Hn].
Qed.

Lemma hoare_transition_target r next payload msg :
  (next = TargetLaunching → authorised r) →
  hoare (has r) (transition_target r next payload msg)
    (λ r' w, has r' w ∧ tgt_State r' = next ∧ (in_launch next → authorised r')) (λ _, world_ok).
Proof.
  intros Ha. apply hoare_transition_gen; [apply has_world|apply has_wait|auto].
Qed.

(** Any move but the one into launching needs nothing of its record. *)
Lemma ok_transition_dto r next payload msg :
  next ≠ TargetLaunching →
  ends_ok world_ok (r' ← transition_target r next payload msg; mret (handoffStatusDTO r')).
Proof.
  intros Hn. eapply hoare_bind; [apply hoare_transition_gen; [done|apply world_wait|done]|].
  intros r' w [Hw _]. by eapply has_world.
Qed.
Lemma ok_waitForAssets r msg : ends_ok world_ok (waitForAssets r msg).
Proof. by apply ok_transition_dto. Qed.
Lemma ok_waitForLaunch r code msg : ends_ok world_ok (waitForLaunch r code msg).
Proof. by apply ok_transition_dto. Qed.
Lemma ok_reject r code msg : ends_ok world_ok (reject r code msg).
Proof. by apply ok_transition_dto. Qed.
Lemma ok_classify r e : ends_ok world_ok (classifyRepositoryFailure r e).
Proof. unfold classifyRepositoryFailure. destruct (ext_Retryable e); [apply ok_waitForAssets|apply ok_reject]. Qed.

(** ** Preparation *)

Lemma ok_refuse_unless b e : ends_ok world_ok (refuse_unless b e).
Proof. by apply ok_lift. Qed.
Lemma ok_ctx_check ctx : ends_ok world_ok (ctx_check ctx).
Proof.
  unfold ctx_check, ctx_done. eapply hoare_bind; [apply hoare_ask_ok|].
  intros []; [by apply ok_throw|by apply ok_mret].
Qed.
Lemma ok_lock : ends_ok world_ok lockPrepareContext.
Proof.
  unfold lockPrepareContext. eapply hoare_bind; [apply hoare_ask_ok|].
  intros []; [by apply ok_mret|by apply ok_throw].
Qed.

Lemma ok_prepare_assets ctx r : ends_ok world_ok (prepare_assets ctx r).
Proof.
  unfold prepare_assets. cbv zeta.
  eapply hoare_bind; [apply hoare_ask_ok|]. intros registry.
  eapply hoare_bind; [apply ok_ctx_check|]. intros [].
  destruct registry as [resolve|]; [|apply ok_reject]. destruct (resolve _) as [project|]; [|apply ok_reject].
  eapply hoare_bind; [apply hoare_ask_ok|]. intros history.
  eapply hoare_bind; [apply ok_ctx_check|]. intros []. destruct history as [path|e].
  - eapply hoare_bind; [apply hoare_ask_ok|]. intros prepared.
    eapply hoare_bind; [apply ok_ctx_check|]. intros [].
    destruct prepared; [by apply ok_transition_dto|apply ok_classify].
  - destruct (ext_Retryable e); [apply ok_waitForAssets|apply ok_reject].
Qed.

Lemma ok_validate_target ctx local r : ends_ok world_ok (validate_target ctx local r).
Proof.
  unfold validate_target. destruct (negb _); [apply ok_reject|].
  eapply hoare_bind; [apply hoare_ask_ok|]. intros []; simpl; [|apply ok_reject].
  eapply hoare_bind; [apply ok_ctx_check|]. intros []. apply ok_prepare_assets.
Qed.

Lemma ok_resumeTarget ctx local r : ends_ok world_ok (resumeTarget ctx local r).
Proof.
  unfold resumeTarget. eapply hoare_bind; [apply ok_ctx_check|]. intros []. cbv zeta.
  assert (ends_ok world_ok (r' ← transition_target r TargetValidating plain_transition "unable to validate handoff";
    validate_target ctx local r')) as Hval.
  { eapply hoare_bind; [apply hoare_transition_gen; [done|apply world_wait|done]|].
    intros r'. eapply hoare_pre; [apply ok_validate_target|]. intros w [Hw _]. by eapply has_world. }
  destruct (tgt_State r); try (by apply ok_mret); try (by apply ok_throw);
    (destruct (has_artifacts _); [apply ok_reject|]); [exact Hval|apply ok_validate_target|exact Hval].
Qed.

Lemma ok_target_prepare ctx principal local m : ends_ok world_ok (prepare ctx principal local m).
Proof.
  unfold prepare. do 4 (eapply hoare_bind; [apply ok_refuse_unless|intros []]).
  eapply hoare_bind; [apply ok_lock|intros []]. eapply hoare_bind; [apply ok_ctx_check|intros []].
  eapply hoare_bind.
  - eapply (hoare_answering (ReceiveTarget m) (OpReceiveTarget m) fst (λ _, True) (m_HandoffID m)); [done|done| |].
    + intros w Hw. eapply (op_granted _ (OpReceiveTarget m)); [done|apply ReceiveTarget_moves|done|].
      by intros r1 _ [_ ?].
    + intros FS FT. eapply hoare_conseq; [apply ReceiveTarget_steps|done| |done]. by intros [r1 b1] s1 [? _].
  - intros [[r b]|e].
    + eapply hoare_pre; [apply ok_resumeTarget|]. by intros w [? _].
    + eapply (hoare_pre _ world_ok); [destruct e; by apply ok_throw|]. by intros w [? _].
Qed.

(** ** Launch *)

(** A record whose launch goes on here. *)
Definition launching (r : TargetRecord) : Prop :=
  tgt_State r = TargetLaunching ∧ authorised r ∧ device_bound device r = true.

Lemma hoare_action {B} r c (f : nat → B) :
  launching r → action_of r c →
  hoare (has r) (call c f : TM B) (λ _, has r) (λ _, world_ok).
Proof.
  intros (Hst & Ha & Hd) Hc. apply hoare_call. intros s _ _ _ Hr. by exists r.
Qed.

(** The session selected for the launch of [current] is its recorded one. *)
Definition outcome_ok (o : LaunchOutcome) (w : World Action) : Prop :=
  match o with
  | LaunchReady sess current _ =>
      has current w ∧ launching current ∧
      ∃ l, rb_TargetLocator (tgt_Body current) = Some l ∧ ∀ k, ses_ID (te_snapshot k sess) = tl_SessionID l
  | _ => world_ok w
  end.

Lemma names_session_ID r k0 sess :
  names_session r (te_snapshot k0 sess) = true →
  ∃ l, rb_TargetLocator (tgt_Body r) = Some l ∧ ∀ k, ses_ID (te_snapshot k sess) = tl_SessionID l.
Proof.
  unfold names_session. destruct (rb_TargetLocator (tgt_Body r)) as [l|]; [|done].
  intros Hl%String.eqb_eq. exists l. split; [done|]. intros k. by rewrite (te_snapshot_ID k k0).
Qed.

Lemma hoare_ret_conflict (o : LaunchOutcome) r :
  (∀ w, has r w → outcome_ok o w) → hoare (has r) (mret o : TM _) outcome_ok (λ _, world_ok).
Proof. intros Ho w Hw. by apply Ho. Qed.

Lemma hoare_snapshot r sess {B} (f : Snapshot → TM B) Q :
  (∀ k, hoare (has r) (f (te_snapshot k sess)) Q (λ _, world_ok)) →
  hoare (has r) (snap ← ask (λ k, te_snapshot k sess); f snap) Q (λ _, world_ok).
Proof. intros Hf w Hw. apply (Hf (w_tick w)). by apply has_wait. Qed.

Lemma hoare_await fuel ctx sess r p instructions :
  launching r →
  hoare (has r) (await_continuation fuel ctx sess r p instructions) outcome_ok (λ _, world_ok).
Proof.
  intros Hl. induction fuel as [|fuel IH]; simpl; [apply hoare_ret_conflict, has_world|].
  apply hoare_snapshot. intros k.
  destruct (is_continuation _ _ _ _ && names_session _ _) eqn:Hc; simpl; [|apply hoare_ret_conflict, has_world].
  apply andb_true_iff in Hc as [_ Hid]. pose proof (names_session_ID _ _ _ Hid) as Hsess.
  assert (∀ b, hoare (has r) (mret (LaunchReady sess r b) : TM _) outcome_ok (λ _, world_ok)) as Hready
    by (intros b; by apply hoare_ret_conflict).
  destruct (String.eqb _ (handoffLaunchCurrentCommand r)); [apply Hready|].
  destruct (String.eqb _ ""); simpl; [|apply hoare_ret_conflict, has_world].
  destruct (ses_State _); try apply Hready; try (apply hoare_ret_conflict, has_world);
    (unfold ctx_done; eapply hoare_bind; [apply hoare_ask_has|]; intros []; [apply hoare_ret_conflict, has_world|exact IH]).
Qed.

Lemma hoare_record_continuation r sess snap continue :
  launching r →
  (∀ r', launching r' → hoare (has r') (continue r') outcome_ok (λ _, world_ok)) →
  hoare (has r) (record_continuation r sess snap continue) outcome_ok (λ _, world_ok).
Proof.
  intros Hl Hk. unfold record_continuation.
  eapply hoare_bind; [by apply hoare_action|]. intros []; simpl; [|apply hoare_ret_conflict, has_world].
  set (l := mkTargetLocator _ _ _).
  eapply hoare_bind; [apply hoare_transitionTime|]. intros at_.
  set (op := OpRecordTargetLaunchLocator (rec_id r) (rb_Revision (tgt_Body r)) l at_).
  eapply hoare_bind.
  - eapply (hoare_answering_frame _ op (λ r', r') (λ r', tgt_State r' = TargetLaunching) (λ s, held s r));
      [done|apply has_world| |by intros w (_ & _ & ?)|intros s s'; apply held_steps|].
    + intros w Hw. eapply (op_granted _ op); [done|apply RecordTargetLaunchLocator_moves|by eapply has_world|].
      intros r1 Hr1 [Hid _]. eapply has_authorised; [exact Hw|apply Hl|done|done].
    + intros FS FT. eapply hoare_conseq; [apply RecordTargetLaunchLocator_steps|done| |done].
      by intros r' s ([? _] & ?).
  - intros [r'|e] w (Hw & Hr & Hr').
    + destruct Hr' as (Hhas & Hid & Hst & Hs). apply (Hk r'); [|done].
      pose proof (held_same _ _ _ Hr Hst Hid) as Hlater. destruct Hl as (_ & Ha & Hd).
      split_and!; [done|by eapply authorised_later|].
      unfold device_bound in *. by rewrite (tkept_manifest _ _ Hlater).
    + by destruct e.
Qed.

Lemma hoare_targetLaunchSession ctx r p instructions :
  launching r →
  hoare (has r) (targetLaunchSession ctx r p instructions) outcome_ok (λ _, world_ok).
Proof.
  intros Hl. unfold targetLaunchSession. destruct (handoffLaunchSessionIdentity r) as [name owner] eqn:Hid.
  cbv zeta. destruct (rb_TargetLocator (tgt_Body r)) as [l|] eqn:Hloc.
  - destruct (negb _); [apply hoare_ret_conflict, has_world|].
    eapply hoare_bind; [apply hoare_ask_has|].
    intros [sess|]; [by apply hoare_await|apply hoare_ret_conflict, has_world].
  - eapply hoare_bind; [by apply hoare_action|].
    intros [sess|]; [|apply hoare_ret_conflict, has_world]. apply hoare_snapshot. intros k.
    destruct (negb _); [apply hoare_ret_conflict, has_world|].
    apply hoare_record_continuation; [done|]. intros r' Hl'. by apply hoare_await.
Qed.

Lemma ok_accept_launch sess r : launching r → ends_ok (has r) (accept_launch sess r).
Proof.
  intros Hl. unfold accept_launch. apply hoare_snapshot. intros k.
  destruct (negb _); [eapply hoare_pre; [apply ok_reject|apply has_world]|].
  eapply hoare_bind; [by apply hoare_action|]. intros []; simpl.
  - eapply hoare_pre; [|apply has_world].
    destruct (rb_TargetLocator (tgt_Body r)); [by apply ok_transition_dto|apply ok_reject].
  - eapply hoare_pre; [apply ok_waitForLaunch|apply has_world].
Qed.

Lemma ok_checked_wait ctx r code msg :
  ends_ok world_ok (_ ← ctx_check ctx; waitForLaunch r code msg).
Proof. eapply hoare_bind; [apply ok_ctx_check|]. intros []. apply ok_waitForLaunch. Qed.

Lemma ok_deliver_launch ctx r p instructions :
  launching r → ends_ok (has r) (deliver_launch ctx r p instructions).
Proof.
  intros Hl. unfold deliver_launch.
  eapply hoare_bind; [by apply hoare_targetLaunchSession|].
  intros [c|c|sess c b]; [apply ok_reject|apply ok_checked_wait|].
  intros w (Hc & Hl' & l & Hloc & HID). revert w Hc. change (ends_ok (has c)
    (if b then accept_launch sess c else
     snap ← ask (λ k, te_snapshot k sess);
     sent ← call (SendPrompt (ses_ID snap) (handoffLaunchPrompt c))
                 (λ k, te_sendPrompt k (ses_ID snap) (handoffLaunchPrompt c));
     if negb sent then _ ← ctx_check ctx;
       waitForLaunch c FailureLaunch "confirmed target prompt delivery is not ready"
     else accept_launch sess c)).
  destruct b; [by apply ok_accept_launch|]. apply hoare_snapshot. intros k.
  eapply hoare_bind; [apply hoare_action; [done|]; split; [done|]; by exists l|].
  intros []; simpl; [by apply ok_accept_launch|].
  eapply hoare_pre; [apply ok_checked_wait|apply has_world].
Qed.

Lemma ok_publish_launch ctx r path p : launching r → ends_ok (has r) (publish_launch ctx r path p).
Proof.
  intros Hl. unfold publish_launch. cbv zeta.
  assert (∀ code msg, ends_ok (has r) (waitForLaunch r code msg)) as Hwait
    by (intros; eapply hoare_pre; [apply ok_waitForLaunch|apply has_world]).
  destruct (negb _); [eapply hoare_pre; [apply ok_reject|apply has_world]|].
  eapply hoare_bind; [by apply hoare_action|]. intros [instructions|]; [|apply Hwait].
  eapply hoare_bind; [by apply hoare_action|].
  intros []; simpl; [by apply ok_deliver_launch|apply Hwait].
Qed.

Lemma hoare_ctx_check_has ctx r : hoare (has r) (ctx_check ctx) (λ _, has r) (λ _, world_ok).
Proof.
  unfold ctx_check, ctx_done. eapply hoare_bind; [apply hoare_ask_has|].
  intros []; [apply ok_throw, has_world|by intros w Hw].
Qed.

Lemma ok_launch_assets ctx r : launching r → ends_ok (has r) (launch_assets ctx r).
Proof.
  intros Hl. unfold launch_assets. cbv zeta.
  assert (∀ code msg, ends_ok (has r) (reject r code msg)) as Hrej
    by (intros; eapply hoare_pre; [apply ok_reject|apply has_world]).
  assert (∀ (e : External) m1 m2, ends_ok (has r) (if ext_Retryable e
    then waitForLaunch r FailureMissingAsset m1 else reject r FailureVerification m2)) as Hfail.
  { intros e m1 m2. destruct (ext_Retryable e); [|apply Hrej].
    eapply hoare_pre; [apply ok_waitForLaunch|apply has_world]. }
  eapply hoare_bind; [apply hoare_ask_has|]. intros registry.
  destruct registry as [resolve|]; [|apply Hrej]. destruct (resolve _) as [project|]; [|apply Hrej].
  eapply hoare_bind; [apply hoare_ask_has|]. intros history.
  eapply hoare_bind; [apply hoare_ctx_check_has|]. intros [].
  destruct history as [path|e]; [|apply Hfail].
  eapply hoare_bind; [apply hoare_ask_has|]. intros prepared.
  eapply hoare_bind; [apply hoare_ctx_check_has|]. intros [].
  destruct prepared as [p|e]; [by apply ok_publish_launch|apply Hfail].
Qed.

Lemma ok_launch_target ctx r :
  tgt_State r = TargetLaunching → authorised r → ends_ok (has r) (launch_target ctx device r).
Proof.
  intros Hst Ha. unfold launch_target. cbv zeta.
  assert (∀ code msg, ends_ok (has r) (reject r code msg)) as Hrej
    by (intros; eapply hoare_pre; [apply ok_reject|apply has_world]).
  eapply hoare_bind; [apply hoare_ctx_check_has|]. intros [].
  destruct (device_bound device r) eqn:Hd; simpl; [|apply Hrej].
  destruct (has_artifacts _); [apply Hrej|].
  eapply hoare_bind; [apply hoare_ask_has|]. intros []; simpl; [|apply Hrej].
  destruct (negb te_runtime); [apply Hrej|]. by apply ok_launch_assets.
Qed.

Lemma ok_resumeLaunch ctx r :
  (in_launch (tgt_State r) → authorised r) → ends_ok (has r) (resumeLaunch ctx device r).
Proof.
  intros Ha. unfold resumeLaunch.
  eapply hoare_bind with (R := λ r' w, has r' w ∧ (tgt_State r' = TargetLaunching → authorised r')).
  - destruct (bool_decide (tgt_State r = TargetLaunchWaitingAssets)) eqn:Hb.
    + apply bool_decide_eq_true in Hb. eapply hoare_conseq;
        [apply hoare_transition_target; intros _; apply Ha; by rewrite Hb|done| |done].
      intros r' w (Hr & _ & Hr'). split; [done|]. intros _. by apply Hr'.
    + intros w Hw. split; [done|]. intros Hst. apply Ha. by rewrite Hst.
  - intros r' w [Hw Ha']. destruct (bool_decide (tgt_State r' = TargetLaunching)) eqn:Hb; simpl.
    + apply bool_decide_eq_true in Hb. by apply (ok_launch_target ctx r' Hb (Ha' Hb)).
    + by eapply has_world.
Qed.

Lemma refuse_unless_bind {B} b e P (f : unit → TM B) Q :
  (∀ w, P w → world_ok w) → (b = true → hoare P (f tt) Q (λ _, world_ok)) →
  hoare P (a ← refuse_unless b e; f a) Q (λ _, world_ok).
Proof.
  intros HP Hf. unfold refuse_unless. apply hoare_lift_bind; [|intros ? ? _; apply HP].
  intros [] Hb%guard_err_ok. by apply Hf.
Qed.

(** A launch request of [granted] for this device. *)
Lemma ok_target_launch ctx principal id digest :
  granted principal id digest → ends_ok world_ok (launch ctx principal device id digest).
Proof.
  intros Hg. unfold launch. apply refuse_unless_bind; [done|]. intros _.
  eapply hoare_bind; [apply ok_lock|intros []]. eapply hoare_bind; [apply ok_ctx_check|intros []].
  eapply hoare_bind; [apply hoare_GetTarget|]. intros [r|e]; [|by apply ok_throw].
  intros w (Hr & Hid & Ha). revert w Hr.
  apply refuse_unless_bind; [apply has_world|]. intros [_ Hp%String.eqb_eq]%andb_true_iff.
  apply refuse_unless_bind; [apply has_world|]. intros Hd.
  apply refuse_unless_bind; [apply has_world|]. intros Hdg%String.eqb_eq.
  assert (authorised r) as Hau by (unfold authorised; by rewrite Hp, Hid, <- Hdg).
  assert (ends_ok (has r) (r' ← transition_target r TargetLaunching plain_transition
    "unable to authorize target launch"; resumeLaunch ctx device r')) as Hgo.
  { eapply hoare_bind; [by apply hoare_transition_target|].
    intros r' w (Hw & _ & Hr'). apply (ok_resumeLaunch ctx r'); [|done]. intros _. by apply Hr'. }
  destruct (tgt_State r) eqn:Hst; try (by apply ok_throw, has_world); try (by apply ok_mret, has_world);
    try exact Hgo. apply ok_resumeLaunch. by intros _.
Qed.

(** ** Questions and recovery *)

Lemma ok_status principal id : ends_ok world_ok (status principal id).
Proof.
  unfold status. apply refuse_unless_bind; [done|]. intros _.
  eapply hoare_bind; [apply hoare_GetTarget|]. intros [r|e].
  - intros w (Hr & _). revert w Hr. apply refuse_unless_bind; [apply has_world|]. intros _.
    apply ok_mret, has_world.
  - destruct e; by apply ok_throw.
Qed.

Lemma ok_target_verify principal local id digest l : ends_ok world_ok (verify principal local id digest l).
Proof.
  unfold verify. apply refuse_unless_bind; [done|]. intros _.
  eapply hoare_bind; [apply hoare_GetTarget|]. intros [r|e]; [|by apply ok_throw].
  intros w (Hr & _). revert w Hr. cbv zeta.
  do 2 (apply refuse_unless_bind; [apply has_world|]; intros _).
  destruct (tgt_State r); try (apply ok_throw, has_world).
  destruct (rb_TargetLocator (tgt_Body r)); [|apply ok_throw, has_world].
  destruct (_ || _); [apply ok_throw, has_world|apply ok_mret, has_world].
Qed.

Lemma ok_reconcile_candidate ctx at_ c : ends_ok world_ok (reconcile_candidate ctx device at_ c).
Proof.
  unfold reconcile_candidate, ctx_done. eapply hoare_bind; [apply hoare_ask_ok|].
  intros []; [by apply ok_mret|]. destruct (negb _); [by apply ok_mret|].
  eapply hoare_bind; [apply hoare_ask_ok|]. intros deadline. cbv zeta.
  eapply hoare_bind; [apply hoare_ask_ok|]. intros []; simpl.
  2: { eapply hoare_bind; [apply hoare_ask_ok|]. intros ?. by apply ok_mret. }
  eapply hoare_bind; [apply hoare_GetTarget|]. intros [r|e]; [|by apply ok_mret].
  intros w (Hr & _ & Ha). revert w Hr.
  destruct (negb _ || negb _); [apply ok_mret, has_world|].
  apply hoare_bind with (λ _, world_ok); [|intros ?; by apply ok_mret].
  apply hoare_try. destruct (launch_phase _); [by apply ok_resumeLaunch|].
  eapply hoare_pre; [apply ok_resumeTarget|apply has_world].
Qed.

Lemma ok_reconcile_candidates ctx at_ l : ends_ok world_ok (reconcile_candidates ctx device at_ l).
Proof.
  induction l as [|c l IH]; simpl; [by apply ok_mret|].
  eapply hoare_bind; [apply ok_reconcile_candidate|]. intros []; [exact IH|by apply ok_mret].
Qed.

Lemma ok_reconcileTargetHandoffs ctx at_ : ends_ok world_ok (reconcileTargetHandoffs ctx device at_).
Proof.
  unfold reconcileTargetHandoffs. apply hoare_bind with (λ _, world_ok).
  - exact (hoare_select (A:=TargetRecord) (recoverable_target at_) at_).
  - intros [l|e]; [apply ok_reconcile_candidates|by apply ok_mret].
Qed.

Lemma ok_acknowledge marker phase scope session t :
  ends_ok world_ok (store_op (AcknowledgeTarget marker phase scope session t) : TM _).
Proof.
  intros w Hw. unfold store_op. set (op := OpAcknowledgeTarget marker phase scope session t).
  pose proof (op_step (AcknowledgeTarget marker phase scope session t) op (w_store w) eq_refl) as Hst.
  pose proof (op_granted (AcknowledgeTarget marker phase scope session t) op _ w eq_refl
    (AcknowledgeTarget_moves marker phase scope session t) Hw) as Hg.
  specialize (Hg (λ r1 _ (E : TargetLaunching = TargetAccepted), match E with end)).
  pose proof (world_step w _ (w_tick w) (rtc_once _ _ Hst) Hg Hw) as Hok.
  by destruct (AcknowledgeTarget _ _ _ _ _ _) as [[]].
Qed.

(** ** The authorization theorem *)

Inductive target_op :=
| TgtPrepare (ctx : nat) (principal : string) (m : Manifest)
| TgtLaunch (ctx : nat) (principal id digest : string)
| TgtStatus (principal id : string)
| TgtVerify (principal id digest : string) (l : TargetLocator)
| TgtReconcile (ctx : nat) (at_ : Time)
| TgtAcknowledge (marker phase scope session : string) (t : Time).

Definition run_target (o : target_op) : TM unit :=
  match o with
  | TgtPrepare ctx principal m => _ ← prepare ctx principal device m; mret tt
  | TgtLaunch ctx principal id digest => _ ← launch ctx principal device id digest; mret tt
  | TgtStatus principal id => _ ← status principal id; mret tt
  | TgtVerify principal id digest l => _ ← verify principal device id digest l; mret tt
  | TgtReconcile ctx at_ => reconcileTargetHandoffs ctx device at_
  | TgtAcknowledge marker phase scope session t =>
      _ ← store_op (AcknowledgeTarget marker phase scope session t); mret tt
  end.

(** The launch requests that reach the application are those granted. *)
Definition op_allowed (o : target_op) : Prop :=
  match o with TgtLaunch _ principal id digest => granted principal id digest | _ => True end.

(** Operations of the application, and steps of the other users of the store
    (the source side, other processes) between them. *)
Inductive target_app_step : relation (World Action) :=
| tstep_op o w r w' : op_allowed o → run_target o w = (r, w') → target_app_step w w'
| tstep_store w s : handoff_step (w_store w) s → launches_granted s →
    target_app_step w (mkWorld s (w_tick w) (w_calls w)).

Lemma run_target_ok o : op_allowed o → ends_ok world_ok (run_target o).
Proof.
  destruct o; simpl; intros Ho; try apply ok_reconcileTargetHandoffs;
    (apply hoare_bind with (λ _, world_ok); [|intros ?; by apply ok_mret]).
  - apply ok_target_prepare.
  - by apply ok_target_launch.
  - apply ok_status.
  - apply ok_target_verify.
  - apply ok_acknowledge.
Qed.

Lemma target_app_step_ok w w' : target_app_step w w' → world_ok w → world_ok w'.
Proof.
  intros [o w0 r w1 Ho Hr|w0 s Hs Hg] Hw.
  - pose proof (run_target_ok o Ho w0 Hw) as Hok. rewrite Hr in Hok. by destruct r.
  - apply world_step; [by apply rtc_once|done|done].
Qed.

(** C2: The target starts nothing its source did not ask for. From an empty
    store, in any interleaving of prepare and launch requests, recovery
    passes, questions and other users of the store, whatever the daemon's
    sessions, repositories and files answer: every private file published,
    every session created, every prompt sent and every session inventory
    persisted is for a record that was durably launching, whose authenticated
    source asked to launch exactly this manifest on this device; the session
    created is the handoff's own private one, running the manifest's agent
    profile without a prompt, and only while no continuation is recorded; and
    the prompt goes to the session the record names. Preparation alone never
    leads to any of these, not even across restarts. *)
Theorem target_actions_authorized clock io tick w :
  rtc target_app_step (mkWorld (hempty clock io) tick []) w →
  (∀ c, c ∈ w_calls w → action_justified (w_store w) c) ∧ launches_granted (w_store w).
Proof.
  intros Hr. assert (world_ok w) as [_ _ Hg Hc]; [|split; [by apply Forall_forall|done]].
  assert (world_ok (mkWorld (hempty clock io) tick [])) as Hinit.
  { split; [split; apply map_Forall_empty|by exists clock, io| |constructor]. intros r Hr0. done. }
  induction Hr as [|x y z Hxy _ IH]; [done|]. by apply IH, (target_app_step_ok x).
Qed.
End TargetFacts.
