(* ===== verification/HandoffTargetLaws.v ===== *)
(** More of what the target side promises: the wait for a continuation ends
    with its context, the prompt it sends leaves the delivery evidence it looks
    for, its verification answers are durable proof, and what happens when the
    continuation's locator cannot be recorded. *)

From S2P Require Import Prelude GoText RuneText HandoffManifest HandoffRecord HandoffStore HandoffFacts.
From S2P Require Import HandoffSteps HandoffSystem HandoffLiveness HandoffWorld.
From S2P Require Import HandoffWorldFacts Session HandoffTarget.
From stdpp Require Import base gmap strings list relations.
From Stdlib Require Import ZArith Lia Ascii.

Open Scope Z_scope.

Section Waiting.
Context `{Others} `{TargetEnv}.

(** The fuel of the polling loop is never what ends it. *)
Lemma await_fuel f1 f2 ctx sess r p instructions w :
  (ctx ≤ f1 + w_tick w)%nat → (ctx ≤ f2 + w_tick w)%nat →
  await_continuation (S f1) ctx sess r p instructions w =
  await_continuation (S f2) ctx sess r p instructions w.
Proof.
  revert f2 w. induction f1 as [|f1 IH]; intros f2 w Hf1 Hf2.
  all: cbn [await_continuation]; unfold mbind, M_bind, ask; cbv beta iota.
  all: destruct (negb (_ && _)); [done|]; destruct (String.eqb _ _); [done|];
    destruct (negb _); [done|]; destruct (ses_State _); try done.
  all: unfold ctx_done, ask; cbn [w_tick wait];
    destruct (Nat.leb_spec ctx (S (w_tick w))) as [|Hlt]; [done|].
  all: try lia.
  all: destruct f2 as [|f2]; [lia|]; apply IH; simpl; lia.
Qed.

(** It ends by the deadline: the answers it takes are bounded. *)
Lemma await_deadline f ctx sess r p instructions w :
  (w_tick (await_continuation f ctx sess r p instructions w).2 ≤ S (Nat.max (S (w_tick w)) (S ctx)))%nat.
Proof.
  revert w. induction f as [|f IH]; intros w; [simpl; lia|].
  cbn [await_continuation]; unfold mbind, M_bind, ask; cbv beta iota.
  destruct (negb (_ && _)); [simpl; lia|]. destruct (String.eqb _ _); [simpl; lia|].
  destruct (negb _); [simpl; lia|].
  destruct (ses_State _); try (simpl; lia).
  all: unfold ctx_done, ask; cbn [w_tick wait];
    destruct (Nat.leb_spec ctx (S (w_tick w))) as [|Hlt]; [simpl; lia|];
    etrans; [apply IH|simpl; lia].
Qed.

(** The wait for a continuation ends. The code polls until the session
    settles or the context is done; the model's loop, which has one more
    iteration than the context has ticks, is that loop: any further iterations
    change nothing, and it takes no answer beyond the first poll after the
    deadline. *)
Theorem await_continuation_terminates n ctx sess r p instructions w :
  await_continuation (S (ctx + n)) ctx sess r p instructions w =
  await_continuation (S ctx) ctx sess r p instructions w ∧
  (w_tick (await_continuation (S ctx) ctx sess r p instructions w).2 ≤
    S (Nat.max (S (w_tick w)) (S ctx)))%nat.
Proof. split; [apply await_fuel; lia|apply await_deadline]. Qed.
End Waiting.

(** ** Delivery evidence *)

Definition plain_ascii (c : ascii) : bool := (33 <=? byte_val c) && (byte_val c <? 128).

Lemma lower_hex_plain c : is_lower_hex c = true → plain_ascii c = true.
Proof. by destruct c as [[] [] [] [] [] [] [] []]. Qed.
Lemma dashes_plain n : all_chars plain_ascii (dashes n) = true.
Proof. induction n as [|n IH]; [done|]. exact IH. Qed.
Lemma dashes_length n : String.length (dashes n) = n.
Proof. induction n as [|n IH]; [done|]. simpl. by rewrite IH. Qed.

Lemma plain_bytes s :
  all_chars plain_ascii s = true →
  Forall (λ b, 0 ≤ b < 128) (str_bytes s) ∧ forallb plain_rune (str_bytes s) = true.
Proof.
  induction s as [|c s IH]; [done|]. cbn [all_chars str_bytes forallb].
  intros [Hc Hs]%andb_true_iff. destruct (IH Hs) as [Ha Hp]. rewrite Hp.
  unfold plain_ascii in Hc. apply andb_true_iff in Hc as [Hlo%Z.leb_le Hhi%Z.ltb_lt].
  split; [constructor; [lia|done]|]. unfold plain_rune.
  rewrite !(proj2 (Z.eqb_neq _ _)) by lia. done.
Qed.

Lemma decode_runes_app l rest :
  Forall (λ b, 0 ≤ b < 128) l → decode_runes (l ++ rest) = l ++ decode_runes rest.
Proof.
  induction 1 as [|b l Hb _ IH]; [done|]. simpl. rewrite (proj2 (Z.ltb_lt b 128)) by lia. by rewrite IH.
Qed.

Section Evidence.
Context `{DigestLib}.

Lemma marker_plain marker :
  validLaunchMarker marker = true → all_chars plain_ascii marker = true ∧ String.length marker = 82%nat.
Proof.
  unfold validLaunchMarker. destruct (cut_prefix _ marker) as [encoded|] eqn:Hc; [|done].
  apply cut_prefix_spec in Hc as ->. unfold sha256Hex. intros [Hlen Hhex]%andb_true_iff.
  rewrite all_chars_app. split.
  - apply andb_true_iff. split; [done|]. by eapply all_chars_impl; [apply lower_hex_plain|].
  - unfold len_between, in_range, str_len in Hlen. apply andb_true_iff in Hlen as [Hlo%Z.leb_le Hhi%Z.leb_le].
    rewrite <- (str_bytes_length (_ +:+ _)), str_bytes_app, length_app, !str_bytes_length. simpl. lia.
Qed.

Lemma preamble_plain r :
  validLaunchMarker (handoffLaunchMarker r) = true →
  all_chars plain_ascii (handoffLaunchSafePreamble r) = true ∧
  length (str_bytes (handoffLaunchSafePreamble r)) = handoffSafePreambleRunes.
Proof.
  intros Hm. destruct (marker_plain _ Hm) as [Hp Hl]. unfold handoffLaunchSafePreamble. cbv zeta.
  rewrite all_chars_app, Hp, dashes_plain. split; [done|].
  rewrite str_bytes_app, length_app, !str_bytes_length, dashes_length, Hl. done.
Qed.

(** The preview of a plain text followed by a line break. *)
Lemma preview_plain pre rest n :
  all_chars plain_ascii pre = true → length (str_bytes pre) = n → n ≠ O →
  truncatePreview (pre +:+ (newline +:+ rest)) n = pre +:+ ellipsis.
Proof.
  intros Hp Hl Hn. destruct (plain_bytes _ Hp) as [Ha Hr].
  unfold truncatePreview, runes. cbv zeta. rewrite str_bytes_app, decode_runes_app by done.
  rewrite flatten_plain; [|done|by intros E; rewrite E in Hl].
  change (decode_runes (str_bytes (newline +:+ rest))) with (10 :: decode_runes (str_bytes rest)).
  cbn [flatten_spaces Z.eqb Pos.eqb orb].
  rewrite length_app, Hl. cbn [length].
  rewrite (proj2 (Nat.leb_gt _ _)) by lia. rewrite take_app_length' by done.
  by rewrite runes_string_ascii by done.
Qed.

(** The prompt of a launch leaves exactly the evidence the target later
    looks for. A session remembers a prompt as its first 200 characters with
    white space flattened; for a launch prompt that memory is the safe
    preamble derived from the handoff's marker, whatever follows it: so a
    restarted target recognises its own delivery, and nothing of the
    instructions is kept. *)
Theorem launch_prompt_evidence r :
  validLaunchMarker (handoffLaunchMarker r) = true →
  truncatePreview (handoffLaunchPrompt r) 200 = handoffLaunchCurrentCommand r.
Proof.
  intros Hm. destruct (preamble_plain r Hm) as [Hp Hl].
  unfold handoffLaunchPrompt. cbv zeta. apply preview_plain; [exact Hp|exact Hl|done].
Qed.
End Evidence.

(** ** Verification answers *)

Section Answers.
Context `{Others} `{TargetEnv}.

Lemma valid_target_context r ack :
  TargetRecord_validate r = Ok tt → rb_ContextLoaded (tgt_Body r) = Some ack →
  ∃ l, rb_TargetLocator (tgt_Body r) = Some l ∧
    ContextAcknowledgement_validate ack (rb_Digest (tgt_Body r)) l = Ok tt.
Proof.
  unfold TargetRecord_validate. intros Hv Hack. cbv zeta in Hv.
  do 4 apply result_bind_ok in Hv as ([] & _ & Hv).
  unfold validateContextLoaded in Hv. rewrite Hack in Hv.
  destruct (target_accepted _); [|done]. destruct (rb_TargetLocator _) as [l|]; [|done]. by exists l.
Qed.

(** The record of the target side that backs a verification answer. *)
Definition backs (s : HStore) (principal local id digest : string) (l : TargetLocator)
    (v : RemoteVerification) (r : TargetRecord) : Prop :=
  stored s r ∧ rec_id r = id ∧ tgt_State r = TargetAccepted ∧
  ss_DeviceID (m_Source (rb_Manifest (tgt_Body r))) = principal ∧
  ta_DeviceID (m_Target (rb_Manifest (tgt_Body r))) = local ∧
  rb_Digest (tgt_Body r) = digest ∧ rb_TargetLocator (tgt_Body r) = Some l ∧
  vf_HandoffID v = id ∧ vf_ManifestDigest v = digest ∧ vf_TargetLocator v = l ∧
  vf_ContextLoaded v = bool_decide (is_Some (rb_ContextLoaded (tgt_Body r))) ∧
  vf_Acknowledgement v = rb_ContextLoaded (tgt_Body r) ∧
  ∀ ack, rb_ContextLoaded (tgt_Body r) = Some ack → ContextAcknowledgement_validate ack digest l = Ok tt.

Lemma refuse_run {B} b e (f : unit → TM B) w a w' :
  (u ← refuse_unless b e; f u) w = (Ok a, w') → b = true ∧ f tt w = (Ok a, w').
Proof.
  intros Hr. apply bind_run_ok in Hr as ([] & w1 & Hg & Hr). unfold refuse_unless, lift in Hg.
  injection Hg as Hg <-. apply guard_err_ok in Hg. done.
Qed.

Lemma GetTarget_run id (w : World Action) (r : result HandoffError TargetRecord) w' :
  store_ok (w_store w) → (store_op (GetTarget id) : TM _) w = (Ok r, w') →
  w' = w ∧ ∀ t, r = Ok t → stored (w_store w) t ∧ rec_id t = id.
Proof.
  intros Hok. unfold store_op, GetTarget, mbind at 1, M_bind at 1, lift.
  destruct (validateID "handoff id" id) as [[]|]; [|intros [= <- <-]; by destruct w].
  pose proof (getLocked_run (A:=TargetRecord) id (w_store w)) as [Hs Hr].
  destruct (getLocked id (w_store w)) as [res s]. simpl in *. subst s. intros [= <- <-].
  split; [by destruct w|]. intros t ->. by apply Hr.
Qed.

Lemma verify_answers principal local id digest l w v w' :
  store_ok (w_store w) → verify principal local id digest l w = (Ok v, w') →
  w' = w ∧ ∃ r, backs (w_store w) principal local id digest l v r.
Proof.
  intros Hok Hv. unfold verify in Hv. apply refuse_run in Hv as [_ Hv].
  apply bind_run_ok in Hv as (got & w1 & Hg & Hv).
  apply GetTarget_run in Hg as [-> Hg]; [|done]. destruct got as [r|]; [|done].
  destruct (Hg r eq_refl) as [Hst Hid]. cbv zeta in Hv.
  apply refuse_run in Hv as [[_ Hp%String.eqb_eq]%andb_true_iff Hv].
  apply refuse_run in Hv as [[_ Hd%String.eqb_eq]%andb_true_iff Hv].
  destruct (tgt_State r) eqn:Hacc; try done.
  destruct (rb_TargetLocator (tgt_Body r)) as [l0|] eqn:Hl; [|done].
  destruct (String.eqb_spec digest (rb_Digest (tgt_Body r))) as [->|]; simpl in Hv; [|done].
  destruct (bool_decide_reflect (l = l0)) as [<-|]; simpl in Hv; [|done].
  pose proof (stored_valid _ _ Hok Hst) as Hvalid.
  assert (∀ ack, rb_ContextLoaded (tgt_Body r) = Some ack →
    ContextAcknowledgement_validate ack (rb_Digest (tgt_Body r)) l = Ok tt) as Hack.
  { intros ack Hack. destruct (valid_target_context r ack Hvalid Hack) as (l' & Hl' & Hv').
    by assert (l' = l) as -> by congruence. }
  injection Hv as <- <-. split; [done|]. exists r.
  destruct (rb_ContextLoaded (tgt_Body r)) as [a|] eqn:Hc; split_and!; try done; by rewrite Hc.
Qed.

(** A verification answer is durable proof. The target answers only the
    authenticated source of the handoff, about a stored accepted record on
    this device with exactly the requested digest and continuation, and
    changes nothing; it claims the context loaded exactly when the record
    holds an acknowledgement, and then hands out that acknowledgement, which
    is valid for the digest and the continuation. *)
Theorem verify_answers_durable_proof principal local id digest l w v w' :
  store_ok (w_store w) → verify principal local id digest l w = (Ok v, w') →
  w' = w ∧ ∃ r, backs (w_store w) principal local id digest l v r.
Proof. apply verify_answers. Qed.

(** ** When the locator cannot be recorded *)

Lemma zero_transition next t s : ∃ e, TransitionTarget "" 0 next t s = (Err e, s).
Proof.
  unfold TransitionTarget, mbind, M_bind, lift.
  destruct (need (validTargetState next) "target state") as [[]|]; [|by eexists].
  unfold getLocked, recordPath, mbind, M_bind, lift. simpl. by eexists.
Qed.

Lemma zero_transition_target next payload msg w :
  transition_target zero_target next payload msg w = (Err (internalError msg), wait w).
Proof.
  unfold transition_target, targetTransitionTime, transitionTime, ask, store_op, mbind, M_bind, mret, M_ret.
  set (at_ := if Before _ _ then _ else _).
  change (rec_id zero_target) with "". change (rb_Revision (tgt_Body zero_target)) with 0.
  destruct (zero_transition next (payload at_) (w_store (wait w))) as [e He]. rewrite He.
  by destruct w.
Qed.

Lemma wait_tick (w : World Action) : w_tick (wait w) = S (w_tick w).
Proof. done. Qed.
Lemma log_tick c (w : World Action) : w_tick (log c w) = w_tick w.
Proof. done. Qed.

(** The creation of [r]'s continuation. *)
Definition launch_request (r : TargetRecord) (p : RepositoryPreparation) (instructions : string)
    : CreateSessionRequest :=
  mkCreate (ta_Profile (m_Target (rb_Manifest (tgt_Body r)))) (prep_WorktreePath p) ""
    (handoffLaunchSessionIdentity r).1 (handoffLaunchSessionIdentity r).2
    {[ instructionsKey := instructions ]} true.

(** When another writer gets in between, so that the locator of a freshly
    created continuation conflicts with the stored record, the launch does not
    reject the handoff as the code intends: the record at hand is the zero
    record the store returned with its error, so the rejection itself fails.
    The answer is an internal error, and the store is what others made of it
    while the session was created, with the session left running. *)
Theorem locator_conflict_not_rejected ctx r p instructions sess e w :
  let request := launch_request r p instructions in
  let w' := wait (wait (log PersistSessions (wait (wait (log (CreateSession request) w))))) in
  let locator k := mkTargetLocator (ta_DeviceID (m_Target (rb_Manifest (tgt_Body r)))) RootProfileScope
                     (ses_ID (te_snapshot k sess)) in
  rb_TargetLocator (tgt_Body r) = None →
  te_createSession (w_tick w) request = Some sess →
  is_continuation r p instructions (te_snapshot (S (w_tick w)) sess) = true →
  te_persistSessions (S (S (w_tick w))) = true →
  e ∈ [HErrCASConflict; HErrManifestConflict; HErrIllegalTransition] →
  (∀ t, RecordTargetLaunchLocator (rec_id r) (rb_Revision (tgt_Body r)) (locator (S (w_tick w))) t
     (w_store w') = (Err e, w_store w')) →
  deliver_launch ctx r p instructions w = (Err (internalError "unable to reject handoff"), wait w').
Proof.
  cbv zeta. intros Hl Hc Hi Hp He Hrec. unfold deliver_launch, targetLaunchSession. rewrite Hl.
  unfold launch_request in *. destruct (handoffLaunchSessionIdentity r) as [name owner]. simpl in Hc, Hrec.
  cbv beta iota zeta delta [mbind M_bind call ask]. cbn [fst snd]. rewrite Hc, !wait_tick, !log_tick, Hi.
  cbv beta iota zeta delta [record_continuation targetTransitionTime transitionTime mbind M_bind mret M_ret call ask store_op negb].
  rewrite !wait_tick, !log_tick, Hp. cbv beta iota. rewrite Hrec. cbv beta iota.
  rewrite !elem_of_cons in He.
  destruct He as [->|[->|[->|He]]]; [..|by apply elem_of_nil in He];
    unfold reject, mbind, M_bind; by rewrite zero_transition_target.
Qed.
End Answers.
