(* ===== verification/HandoffEndToEnd.v ===== *)
(** The two sides together: the source's outbox verifying against the target's
    application. What the source then calls loaded is what the target has
    durably acknowledged. *)

From S2P Require Import Prelude GoText RuneText HandoffManifest HandoffRecord HandoffStore HandoffFacts.
From S2P Require Import HandoffSteps HandoffSystem HandoffLiveness HandoffWorld.
From S2P Require Import HandoffWorldFacts Session HandoffOutbox HandoffTarget HandoffTargetLaws.
From stdpp Require Import base gmap strings list relations.
From Stdlib Require Import ZArith Lia Ascii.

Open Scope Z_scope.

(** How an answer of the target reaches the caller: an RPC error keeps its
    code, any other error is reported as internal. *)
Definition over_the_wire {A} (res : result TargetError A) : result CallError A :=
  match res with
  | Ok a => Ok a
  | Err (TErrRPC code _) => Err (RPCError code)
  | Err TErrContext => Err (RPCError ErrorInternal)
  end.

Section EndToEnd.
Context `{Others} `{OutboxEnv} `{TargetEnv}.

Lemma RecordSourceContextLoaded_context id rev ack t s r b s' :
  RecordSourceContextLoaded id rev ack t s = (Ok (r, b), s') → rb_ContextLoaded (src_Body r) = Some ack.
Proof.
  unfold RecordSourceContextLoaded. intros Hr.
  apply bind_run_ok in Hr as (r0 & s1 & _ & Hr). cbv zeta in Hr.
  destruct (src_State r0); try done. destruct (rb_TargetLocator (src_Body r0)) as [l|]; [|done].
  apply bind_run_ok in Hr as ([] & s2 & _ & Hr).
  destruct (rb_ContextLoaded (src_Body r0)) as [known|] eqn:Hk.
  - destruct (bool_decide_reflect (known = ack)) as [<-|]; [|done]. by injection Hr as <- _ _.
  - apply bind_run_ok in Hr as ([] & s3 & _ & Hr). apply bind_run_ok in Hr as (at_ & s4 & _ & Hr).
    apply bind_run_ok in Hr as ([] & s5 & _ & Hr). apply bind_run_ok in Hr as ([] & s6 & _ & Hr).
    by injection Hr as <- _ _.
Qed.

Lemma store_op_run {C E A} (m : HM A) (w : World C) res w' :
  (store_op m : M (World C) E _) w = (Ok res, w') →
  m (w_store w) = (res, w_store w') ∧ w_tick w' = w_tick w ∧ w_calls w' = w_calls w.
Proof. unfold store_op. destruct (m (w_store w)) as [r s]. by intros [= <- <-]. Qed.

Lemma RecordSourceContextLoaded_stored id rev ack t s r b s' :
  store_ok s → RecordSourceContextLoaded id rev ack t s = (Ok (r, b), s') → stored s' r ∧ rec_id r = id.
Proof.
  intros Hok Hr.
  pose proof (hoare_run _ _ _ _ s (RecordSourceContextLoaded_steps (hs_source s) (hs_target s) id rev ack t)
    (conj eq_refl eq_refl)) as Hq. rewrite Hr in Hq. destruct Hq as [(f & Hf & Hd) Hst].
  assert (store_ok s') as [Hok' _] by by eapply store_step_ok; [|exact Hok].
  destruct (Hok' id f Hf) as (r0 & -> & _ & Hid). unfold decode_record in Hd. simpl in Hd. injection Hd as ->.
  split; [|done]. unfold stored. simpl. by rewrite Hid.
Qed.

Lemma dto_verdict_loaded v d : dto_ContextLoaded (dto_verdict v d) = false.
Proof. done. Qed.

Lemma others_ok k s : store_ok s → store_ok (others k s).
Proof. apply store_ok_rtc, others_steps. Qed.

(** [outbox_verify] reports a loaded context only when it has just recorded the
    answered acknowledgement. *)
Lemma outbox_verify_loaded id (w : World Call) d w' :
  outbox_verify id w = (Ok d, w') → dto_ContextLoaded d = true → store_ok (w_store w) →
  ∃ k dev dg l v ack rs, oe_callVerify k dev id dg l = Ok v ∧ vf_Acknowledgement v = Some ack ∧
    stored (w_store w') rs ∧ rec_id rs = id ∧ rb_ContextLoaded (src_Body rs) = Some ack ∧
    store_ok (w_store w').
Proof.
  intros Hv Hd Hok. unfold outbox_verify in Hv. apply bind_run_ok in Hv as (r & w1 & Hg & Hv).
  unfold get_or_fail in Hg. apply bind_run_ok in Hg as (res & w2 & Hs & Hg).
  apply store_op_run in Hs as (Hs & _ & _). unfold GetSource in Hs.
  assert (w_store w2 = w_store w ∧ ∀ r, res = Ok r → rec_id r = id) as [Hw2 Hid].
  { unfold mbind at 1, M_bind at 1, lift in Hs. destruct (validateID "handoff id" id) as [[]|]; [|by injection Hs as <- <-].
    pose proof (getLocked_run (A:=SourceRecord) id (w_store w)) as [E Hr]. rewrite Hs in E, Hr. simpl in E, Hr.
    split; [done|]. intros r0 ->. by apply Hr. }
  destruct res as [r0|e]; [|by destruct e]. injection Hg as -> <-. specialize (Hid r eq_refl).
  cbv zeta in Hv. destruct (src_State r); try done.
  destruct (rb_TargetLocator (src_Body r)) as [l|]; [|done].
  apply bind_run_ok in Hv as (answer & w3 & Hc & Hv). unfold call in Hc. injection Hc as Hans <-.
  destruct answer as [v|e].
  2: { destruct e as [[]| |]; by injection Hv as <- _. }
  destruct (_ || _ || _) eqn:Hmis; [by injection Hv as <- _|].
  destruct (negb (vf_ContextLoaded v) || _); [by injection Hv as <- _|].
  destruct (vf_Acknowledgement v) as [ack|] eqn:Hack; [|by injection Hv as <- _].
  apply bind_run_ok in Hv as (at_ & w4 & Ht & Hv). unfold sourceTransitionTime, transitionTime in Ht.
  apply bind_run_ok in Ht as (t & w5 & Ha & Ht). unfold ask in Ha. injection Ha as _ <-. injection Ht as _ <-.
  apply bind_run_ok in Hv as (res & w6 & Hr & Hv). apply store_op_run in Hr as (Hr & _ & _).
  destruct res as [[rs b]|e]; [|by injection Hv as <- _]. injection Hv as <- <-.
  set (s0 := w_store (wait _)) in Hr.
  assert (store_ok s0) as Hok0 by (apply others_ok, others_ok; simpl; by rewrite Hw2).
  pose proof (RecordSourceContextLoaded_context _ _ _ _ _ _ _ _ Hr) as Hctx.
  destruct (RecordSourceContextLoaded_stored _ _ _ _ _ _ _ _ Hok0 Hr) as [Hst Hrid].
  do 4 eexists. exists v, ack, rs. split_and!; try done.
  - rewrite <- Hid at 1. exact Hans.
  - eapply store_step_ok; [|exact Hok0].
    pose proof (hoare_run _ _ _ _ s0 (RecordSourceContextLoaded_steps (hs_source s0) (hs_target s0) id
      (rb_Revision (src_Body r)) ack at_) (conj eq_refl eq_refl)) as Hq. rewrite Hr in Hq. by destruct Hq as [_ Hq].
Qed.

(** C3: End to end: when the source's verification reports the context
    loaded, both machines hold the same proof. If the outbox's verify calls
    reach the target application, and [outbox_verify] answers that the context
    is loaded, then the source's record holds an acknowledgement, and the
    target has an accepted record of the same handoff, with the same manifest
    digest and the same continuation, that holds the same acknowledgement. *)
Theorem verified_means_acknowledged pr (wt : World Action) id (w : World Call) d w' :
  store_ok (w_store wt) → store_ok (w_store w) →
  (∀ k dev hid dg l, oe_callVerify k dev hid dg l = over_the_wire (verify pr dev hid dg l wt).1) →
  outbox_verify id w = (Ok d, w') → dto_ContextLoaded d = true →
  ∃ (rs : SourceRecord) (rt : TargetRecord) ack, stored (w_store w') rs ∧ stored (w_store wt) rt ∧
    rec_id rs = id ∧ rec_id rt = id ∧
    src_State rs = SourceAccepted ∧ tgt_State rt = TargetAccepted ∧
    rb_ContextLoaded (src_Body rs) = Some ack ∧ rb_ContextLoaded (tgt_Body rt) = Some ack ∧
    rb_Digest (src_Body rs) = rb_Digest (tgt_Body rt) ∧
    rb_TargetLocator (src_Body rs) = rb_TargetLocator (tgt_Body rt) ∧
    pr = ss_DeviceID (m_Source (rb_Manifest (tgt_Body rt))).
Proof.
  intros Hwt Hw Hcall Hv Hd.
  destruct (outbox_verify_loaded _ _ _ _ Hv Hd Hw) as (k & dev & dg & l & v & ack & rs & Ha & Hack & Hst & Hid & Hctx & Hok').
  rewrite Hcall in Ha. destruct (verify pr dev id dg l wt) as [[v'|e] wt'] eqn:Hver; [|by destruct e].
  injection Ha as ->.
  destruct (verify_answers pr dev id dg l wt v wt' Hwt Hver) as (_ & rt & Hb).
  destruct Hb as (Hrt & Hidt & Hacc & Hpr & _ & Hdg & Hl & _ & _ & _ & _ & Hb & Hval).
  rewrite Hack in Hb. symmetry in Hb. specialize (Hval ack Hb).
  unfold ContextAcknowledgement_validate in Hval.
  apply result_bind_ok in Hval as ([] & _ & Hval).
  apply result_bind_ok in Hval as ([] & [Hvd%String.eqb_eq Hvl%bool_decide_eq_true]%handoff_need_ok%andb_true_iff & _).
  destruct (valid_source_accepted rs (stored_valid _ _ Hok' Hst)) as (_ & _ & Hc & _).
  destruct (Hc ack Hctx) as (Hsacc & Hsd & Hsl).
  exists rs, rt, ack. split_and!; try done; congruence.
Qed.
End EndToEnd.
