(* ===== verification/HandoffLocks.v ===== *)
(** The per-handoff locks of internal/daemon/handoff_application.go
    ([lockPrepareContext], [releasePrepareLock]): a table of reference-counted
    entries, each with a token in a channel of one place, used by goroutines
    that wait with a context. Entries are heap objects: the table and the
    goroutines hold pointers to them. *)

From S2P Require Import Prelude.
From stdpp Require Import base gmap strings list fin_maps relations.
From Stdlib Require Import ZArith Lia.

Open Scope Z_scope.

(** ** State *)

(** [handoffPrepareLock]: the token is in the channel, and the references. *)
Record LockEntry := mkEntry { le_token : bool; le_refs : Z }.

(** A goroutine between its call of [lockPrepareContext] and the end of its
    release; [Releasing] has put the token back. *)
Inductive Phase := Waiting | Holding | Releasing.
#[export] Instance Phase_eq_dec : EqDecision Phase.
Proof. solve_decision. Defined.
Record Goroutine := mkGo { go_id : string; go_entry : positive; go_phase : Phase }.

Record LockTable := mkLocks {
  lt_locks : gmap string positive;          (** [prepareLocks] *)
  lt_entries : gmap positive LockEntry;     (** the entries allocated so far *)
  lt_procs : gmap positive Goroutine }.

Definition empty_locks : LockTable := mkLocks ∅ ∅ ∅.

(** ** Operations *)

(** [lockPrepareContext] up to its select: the entry, created when missing,
    gains a reference. *)
Definition lock_begin (p : positive) (id : string) (s : LockTable) : LockTable :=
  match lt_locks s !! id with
  | Some e =>
      mkLocks (lt_locks s)
        (alter (λ x, mkEntry (le_token x) (le_refs x + 1)) e (lt_entries s))
        (<[p := mkGo id e Waiting]> (lt_procs s))
  | None =>
      let e := fresh (dom (lt_entries s)) in
      mkLocks (<[id := e]> (lt_locks s)) (<[e := mkEntry true 1]> (lt_entries s))
        (<[p := mkGo id e Waiting]> (lt_procs s))
  end.

(** [<-entry.token] *)
Definition lock_acquire (p : positive) (g : Goroutine) (s : LockTable) : option LockTable :=
  match lt_entries s !! go_entry g with
  | Some x =>
      if le_token x
      then Some (mkLocks (lt_locks s) (<[go_entry g := mkEntry false (le_refs x)]> (lt_entries s))
             (<[p := mkGo (go_id g) (go_entry g) Holding]> (lt_procs s)))
      else None
  | None => None
  end.

(** [entry.token <- struct{}{}]: blocks while the channel is full. *)
Definition lock_unlock (p : positive) (g : Goroutine) (s : LockTable) : option LockTable :=
  match lt_entries s !! go_entry g with
  | Some x =>
      if le_token x then None
      else Some (mkLocks (lt_locks s) (<[go_entry g := mkEntry true (le_refs x)]> (lt_entries s))
             (<[p := mkGo (go_id g) (go_entry g) Releasing]> (lt_procs s)))
  | None => None
  end.

(** The goroutine's part ends in [releasePrepareLock]. *)
Definition releasePrepareLock (p : positive) (g : Goroutine) (s : LockTable) : LockTable :=
  match lt_entries s !! go_entry g with
  | Some x =>
      mkLocks (if le_refs x - 1 =? 0 then delete (go_id g) (lt_locks s) else lt_locks s)
        (<[go_entry g := mkEntry (le_token x) (le_refs x - 1)]> (lt_entries s))
        (delete p (lt_procs s))
  | None => s
  end.

(** ** Steps *)

Inductive lock_step : relation LockTable :=
| lstep_begin p id s : lt_procs s !! p = None → lock_step s (lock_begin p id s)
| lstep_acquire p g s s' : lt_procs s !! p = Some g → go_phase g = Waiting →
    lock_acquire p g s = Some s' → lock_step s s'
| lstep_cancel p g s : lt_procs s !! p = Some g → go_phase g = Waiting →
    lock_step s (releasePrepareLock p g s)
| lstep_unlock p g s s' : lt_procs s !! p = Some g → go_phase g = Holding →
    lock_unlock p g s = Some s' → lock_step s s'
| lstep_release p g s : lt_procs s !! p = Some g → go_phase g = Releasing →
    lock_step s (releasePrepareLock p g s).

(** ** Invariant *)

Definition users (e : positive) (procs : gmap positive Goroutine) : nat :=
  size (filter (λ '(_, g), go_entry g = e) procs).
Definition holds (e : positive) (p : positive) (s : LockTable) : Prop :=
  ∃ id, lt_procs s !! p = Some (mkGo id e Holding).

Record locks_ok (s : LockTable) : Prop := {
  lok_refs : ∀ e x, lt_entries s !! e = Some x → le_refs x = Z.of_nat (users e (lt_procs s));
  lok_proc : ∀ p g, lt_procs s !! p = Some g →
    is_Some (lt_entries s !! go_entry g) ∧ lt_locks s !! go_id g = Some (go_entry g);
  lok_table : ∀ id e, lt_locks s !! id = Some e →
    is_Some (lt_entries s !! e) ∧ (0 < users e (lt_procs s))%nat ∧
    ∀ id', lt_locks s !! id' = Some e → id' = id;
  lok_token : ∀ e x, lt_entries s !! e = Some x → le_token x = false → ∃ p, holds e p s;
  lok_free : ∀ e x p, lt_entries s !! e = Some x → holds e p s → le_token x = false;
  lok_one : ∀ e p q, holds e p s → holds e q s → p = q;
}.

Definition user (e : positive) (g : Goroutine) : nat := if decide (go_entry g = e) then 1 else 0.

Lemma users_insert e p g procs :
  procs !! p = None → users e (<[p := g]> procs) = (user e g + users e procs)%nat.
Proof.
  intros Hp. unfold users, user. case_decide as He.
  - rewrite map_filter_insert_True by done. rewrite map_size_insert_None; [done|].
    apply map_lookup_filter_None. by left.
  - rewrite map_filter_insert_not' by (done || by intros y Hy; congruence). done.
Qed.
Lemma users_delete e p g procs :
  procs !! p = Some g → users e procs = (user e g + users e (delete p procs))%nat.
Proof.
  intros Hp. rewrite <- (users_insert e p g (delete p procs)) by apply lookup_delete_eq.
  by rewrite insert_delete_id.
Qed.
Lemma users_update e p g g' procs :
  procs !! p = Some g → go_entry g' = go_entry g → users e (<[p := g']> procs) = users e procs.
Proof.
  intros Hp He. rewrite (users_delete e p g procs Hp). unfold user at 1. rewrite <- He.
  rewrite <- (insert_delete_eq procs p g'). rewrite users_insert by apply lookup_delete_eq. done.
Qed.
Lemma users_pos e p g procs : procs !! p = Some g → go_entry g = e → (0 < users e procs)%nat.
Proof. intros Hp He. rewrite (users_delete e p g procs Hp). unfold user. rewrite decide_True by done. lia. Qed.
Lemma users_none e p g procs :
  users e procs = 0%nat → procs !! p = Some g → go_entry g ≠ e.
Proof. intros Hu Hp He. pose proof (users_pos e p g procs Hp He). lia. Qed.

(** Who holds what, when one goroutine changes. *)
Lemma holds_insert e q locks entries procs p g :
  holds e q (mkLocks locks entries (<[p := g]> procs)) ↔
  (q = p ∧ go_entry g = e ∧ go_phase g = Holding) ∨ (q ≠ p ∧ ∃ id, procs !! q = Some (mkGo id e Holding)).
Proof.
  unfold holds. simpl. rewrite lookup_insert. case_decide as E.
  - subst. split; [intros [id [= ->]]; by left|].
    intros [(_ & He & Hh)|[? _]]; [|done]. exists (go_id g). destruct g. simpl in *. by subst.
  - split; [intros Hq; right; split; [congruence|done]|]. intros [[-> _]|[_ Hq]]; [done|exact Hq].
Qed.

(** A goroutine that starts to wait holds nothing. *)
Lemma holds_waiting e q id e0 locks entries p s :
  lt_procs s !! p = None →
  holds e q (mkLocks locks entries (<[p := mkGo id e0 Waiting]> (lt_procs s))) ↔ holds e q s.
Proof.
  intros Hp. rewrite holds_insert. simpl. split.
  - intros [(_ & _ & ?)|[_ Hq]]; [done|exact Hq].
  - intros Hq. right. split; [|exact Hq]. intros ->. destruct Hq as [id' Hq]. congruence.
Qed.

Lemma lock_begin_old_ok p id e s :
  lt_procs s !! p = None → lt_locks s !! id = Some e → locks_ok s → locks_ok (lock_begin p id s).
Proof.
  intros Hp Hid Hok. unfold lock_begin. rewrite Hid.
  destruct (lok_table s Hok id e Hid) as ([x Hx] & Hu & Hinj).
  assert (∀ e' x', alter (λ x, mkEntry (le_token x) (le_refs x + 1)) e (lt_entries s) !! e' = Some x' →
    ∃ x0, lt_entries s !! e' = Some x0 ∧ le_token x0 = le_token x' ∧
      le_refs x' = le_refs x0 + (if decide (e = e') then 1 else 0)) as Hent.
  { intros e' x'. rewrite lookup_alter. case_decide as E; [subst e'|].
    - rewrite Hx. intros [= <-]. by exists x.
    - intros Hx'. exists x'. split_and!; [done|done|lia]. }
  split; cbn [lt_locks lt_entries lt_procs].
  - intros e' x' (x0 & Hx0 & _ & ->)%Hent. rewrite users_insert by done. rewrite (lok_refs s Hok e' x0 Hx0).
    unfold user. cbn [go_entry]. case_decide; lia.
  - intros q g. rewrite lookup_insert, lookup_alter_is_Some. case_decide as E; [|apply (lok_proc s Hok)].
    intros [= <-]. simpl. split; [by exists x|done].
  - intros id' e' He'. rewrite lookup_alter_is_Some, users_insert by done.
    destruct (lok_table s Hok id' e' He') as (? & ? & ?). split_and!; [done|lia|done].
  - intros e' x' (x0 & Hx0 & Ht0 & _)%Hent Ht. rewrite <- Ht0 in Ht.
    destruct (lok_token s Hok e' x0 Hx0 Ht) as [q Hq]. exists q. by apply holds_waiting.
  - intros e' x' q (x0 & Hx0 & Ht0 & _)%Hent Hq%holds_waiting; [|done]. rewrite <- Ht0.
    by eapply (lok_free s Hok).
  - intros e' q q' Hq%holds_waiting Hq'%holds_waiting; [|done..]. by eapply (lok_one s Hok).
Qed.

Lemma no_users e s : locks_ok s → lt_entries s !! e = None → users e (lt_procs s) = 0%nat.
Proof.
  intros Hok He. unfold users. apply map_size_empty_iff, map_empty. intros q.
  apply map_lookup_filter_None. destruct (lt_procs s !! q) as [g|] eqn:Hq; [|by left]. right.
  intros g' Hg. injection Hg as <-. intros Hge.
  destruct (lok_proc s Hok q g Hq) as [[y Hy] _]. congruence.
Qed.

Lemma lock_begin_new_ok p id s :
  lt_procs s !! p = None → lt_locks s !! id = None → locks_ok s → locks_ok (lock_begin p id s).
Proof.
  intros Hp Hid Hok. unfold lock_begin. rewrite Hid. cbv zeta.
  set (e := fresh (dom (lt_entries s))).
  assert (lt_entries s !! e = None) as He by (apply not_elem_of_dom, is_fresh).
  pose proof (no_users e s Hok He) as Hue.
  split; cbn [lt_locks lt_entries lt_procs].
  - intros e' x'. rewrite lookup_insert, users_insert by done. unfold user. cbn [go_entry]. case_decide as E.
    + subst e'. intros [= <-]. simpl. lia.
    + intros Hx'. by rewrite (lok_refs s Hok e' x' Hx').
  - intros q g. rewrite lookup_insert. case_decide as E.
    + intros [= <-]. simpl. by rewrite !lookup_insert_eq.
    + intros Hg. destruct (lok_proc s Hok q g Hg) as [[y Hy] Hl]. split.
      * rewrite lookup_insert. case_decide; [done|by exists y].
      * rewrite lookup_insert. case_decide; [congruence|done].
  - intros id' e'. rewrite !lookup_insert, users_insert by done. unfold user. cbn [go_entry]. case_decide as E.
    + subst id'. intros [= <-]. split_and!; [by rewrite decide_True|rewrite decide_True by done; lia|].
      intros id'. rewrite lookup_insert. case_decide; [done|]. intros Hl.
      destruct (lok_table s Hok id' e Hl) as ([y Hy] & _). congruence.
    + intros Hl. destruct (lok_table s Hok id' e' Hl) as ([y Hy] & Hu & Hinj).
      split_and!; [case_decide; [done|by exists y]|lia|].
      intros id2. rewrite lookup_insert. case_decide; [intros [= Ee]; congruence|apply Hinj].
  - intros e' x'. rewrite lookup_insert. case_decide as E; [by intros [= <-]|].
    intros Hx' Ht. destruct (lok_token s Hok e' x' Hx' Ht) as [q Hq]. exists q. by apply holds_waiting.
  - intros e' x' q Hx' Hq%holds_waiting; [|done]. rewrite lookup_insert in Hx'. case_decide as E; [|by eapply (lok_free s Hok)].
    subst e'. destruct Hq as [id' Hq]. destruct (lok_proc s Hok q _ Hq) as [[y Hy] _]. simpl in Hy. congruence.
  - intros e' q q' Hq%holds_waiting Hq'%holds_waiting; [|done..]. by eapply (lok_one s Hok).
Qed.

(** A goroutine changes its phase, and the token of its entry with it. *)
Definition rephase (p : positive) (g : Goroutine) (b : bool) (refs : Z) (ph : Phase) (s : LockTable) : LockTable :=
  mkLocks (lt_locks s) (<[go_entry g := mkEntry b refs]> (lt_entries s))
    (<[p := mkGo (go_id g) (go_entry g) ph]> (lt_procs s)).

Lemma rephase_holds e q p g b refs ph s :
  lt_procs s !! p = Some g → e ≠ go_entry g → holds e q (rephase p g b refs ph s) ↔ holds e q s.
Proof.
  intros Hp He. unfold rephase. rewrite holds_insert. simpl. split.
  - intros [(_ & ? & _)|[_ Hq]]; [congruence|exact Hq].
  - intros Hq. right. split; [|exact Hq]. intros ->. destruct Hq as [id Hq]. rewrite Hp in Hq.
    injection Hq as ->. done.
Qed.

Lemma rephase_ok p g x b ph s :
  lt_procs s !! p = Some g → lt_entries s !! go_entry g = Some x → locks_ok s →
  let s' := rephase p g b (le_refs x) ph s in
  (∀ q, holds (go_entry g) q s' → b = false) → (b = false → ∃ q, holds (go_entry g) q s') →
  (∀ q q', holds (go_entry g) q s' → holds (go_entry g) q' s' → q = q') → locks_ok s'.
Proof.
  intros Hp Hx Hok s' Hfree Htok Hone.
  assert (∀ e', users e' (<[p := mkGo (go_id g) (go_entry g) ph]> (lt_procs s)) = users e' (lt_procs s)) as Hu
    by (intros e'; by apply (users_update e' p g)).
  assert (∀ e' y, lt_entries s' !! e' = Some y → (e' = go_entry g ∧ y = mkEntry b (le_refs x)) ∨
    (e' ≠ go_entry g ∧ lt_entries s !! e' = Some y)) as Hent.
  { intros e' y. unfold s', rephase. simpl. rewrite lookup_insert. case_decide as E; [intros [= <-]; by left|].
    right. done. }
  assert (∀ e', is_Some (lt_entries s !! e') → is_Some (lt_entries s' !! e')) as Hsome.
  { intros e' He'. unfold s', rephase. simpl. rewrite lookup_insert. case_decide; [done|exact He']. }
  split.
  - intros e' y [[-> ->]|[_ Hy]]%Hent; unfold s', rephase; cbn [lt_procs le_refs]; rewrite Hu; by apply (lok_refs s Hok).
  - intros q g'. unfold s' at 1, rephase at 1. cbn [lt_procs]. rewrite lookup_insert. case_decide as E.
    + intros [= <-]. destruct (lok_proc s Hok p g Hp). split; [by apply Hsome|done].
    + intros Hq. destruct (lok_proc s Hok q g' Hq). split; [by apply Hsome|done].
  - intros id e' He'. destruct (lok_table s Hok id e' He') as (? & ? & ?).
    unfold s' at 2, rephase. cbn [lt_procs]. rewrite Hu. split_and!; [by apply Hsome|done|done].
  - intros e' y [[-> ->]|[He Hy]]%Hent Ht; [by apply Htok|].
    destruct (lok_token s Hok e' y Hy Ht) as [q Hq]. exists q. by apply rephase_holds.
  - intros e' y q [[-> ->]|[He Hy]]%Hent Hq; [by eapply Hfree|]. apply rephase_holds in Hq; [|done..].
    by eapply (lok_free s Hok).
  - intros e' q q' Hq Hq'. destruct (decide (e' = go_entry g)) as [->|He]; [by apply Hone|].
    apply rephase_holds in Hq, Hq'; [|done..]. by eapply (lok_one s Hok).
Qed.

Lemma rephase_holder p g b refs ph s q :
  holds (go_entry g) q (rephase p g b refs ph s) → (q = p ∧ ph = Holding) ∨ (q ≠ p ∧ holds (go_entry g) q s).
Proof. unfold rephase. intros [(? & _ & ?)|[? Hq]]%holds_insert; [by left|]. right. split; [done|exact Hq]. Qed.

Lemma lock_acquire_ok p g s s' :
  lt_procs s !! p = Some g → lock_acquire p g s = Some s' → locks_ok s → locks_ok s'.
Proof.
  unfold lock_acquire. intros Hp Hs Hok. destruct (lt_entries s !! go_entry g) as [x|] eqn:Hx; [|done].
  destruct (le_token x) eqn:Ht; [|done]. injection Hs as <-.
  assert (∀ q, ¬ holds (go_entry g) q s) as Hno.
  { intros q Hq. pose proof (lok_free s Hok _ _ _ Hx Hq). congruence. }
  apply (rephase_ok p g x false Holding s); [done..| |].
  - intros _. exists p. apply holds_insert. by left.
  - intros q q' [[-> _]|[_ ?]]%rephase_holder [[-> _]|[_ ?]]%rephase_holder; [done|by edestruct Hno..].
Qed.

Lemma lock_unlock_ok p g s s' :
  lt_procs s !! p = Some g → go_phase g = Holding → lock_unlock p g s = Some s' → locks_ok s → locks_ok s'.
Proof.
  unfold lock_unlock. intros Hp Hph Hs Hok. destruct (lt_entries s !! go_entry g) as [x|] eqn:Hx; [|done].
  destruct (le_token x) eqn:Ht; [done|]. injection Hs as <-.
  assert (holds (go_entry g) p s) as Hhold by (exists (go_id g); destruct g; simpl in *; by subst).
  assert (∀ q, ¬ holds (go_entry g) q (rephase p g true (le_refs x) Releasing s)) as Hno.
  { intros q [[_ ?]|[Hne Hq]]%rephase_holder; [done|]. apply Hne. by eapply (lok_one s Hok). }
  apply (rephase_ok p g x true Releasing s); [done..| |done|].
  - intros q Hq. by edestruct Hno.
  - intros q q' Hq. by edestruct Hno.
Qed.

Lemma release_ok p g s :
  lt_procs s !! p = Some g → go_phase g ≠ Holding → locks_ok s → locks_ok (releasePrepareLock p g s).
Proof.
  intros Hp Hph Hok. unfold releasePrepareLock.
  destruct (lok_proc s Hok p g Hp) as [[x Hx] Hl]. rewrite Hx.
  pose proof (lok_refs s Hok _ _ Hx) as Hrefs.
  assert (∀ e', users e' (lt_procs s) = (user e' g + users e' (delete p (lt_procs s)))%nat) as Hu
    by (intros e'; by apply users_delete).
  pose proof (Hu (go_entry g)) as Hug. unfold user in Hug. rewrite decide_True in Hug by done.
  set (locks := if le_refs x - 1 =? 0 then _ else _). set (entries := <[_ := _]> (lt_entries s)).
  assert (∀ e' q, holds e' q (mkLocks locks entries (delete p (lt_procs s))) ↔ holds e' q s) as Hh.
  { intros e' q. unfold holds. simpl. split.
    - intros [id Hq]. exists id. by apply lookup_delete_Some in Hq as [_ Hq].
    - intros [id Hq]. exists id. rewrite lookup_delete_ne; [done|]. intros ->. rewrite Hp in Hq. by injection Hq as ->. }
  assert (∀ e' y, entries !! e' = Some y → ∃ y0, lt_entries s !! e' = Some y0 ∧ le_token y0 = le_token y ∧
    (e' = go_entry g ∧ le_refs y = le_refs x - 1 ∨ e' ≠ go_entry g ∧ y = y0)) as Hent.
  { intros e' y. unfold entries. rewrite lookup_insert. case_decide as E; [intros [= <-]; subst e'; exists x; auto|].
    intros Hy. exists y. auto. }
  assert (∀ e', is_Some (lt_entries s !! e') → is_Some (entries !! e')) as Hsome.
  { intros e' He'. unfold entries. rewrite lookup_insert. case_decide; [done|exact He']. }
  assert (∀ id e', locks !! id = Some e' → lt_locks s !! id = Some e' ∧
    (e' = go_entry g → (0 < users e' (delete p (lt_procs s)))%nat)) as Hlocks.
  { intros id e'. unfold locks. destruct (Z.eqb_spec (le_refs x - 1) 0) as [Hz|Hz].
    - intros [Hne Hid]%lookup_delete_Some. split; [done|]. intros ->. exfalso. apply Hne.
      symmetry. by eapply (lok_table s Hok).
    - intros Hid. split; [done|]. intros ->. lia. }
  assert (∀ e', (0 < users e' (delete p (lt_procs s)))%nat → ∀ id, lt_locks s !! id = Some e' → locks !! id = Some e') as Hkeep.
  { intros e' Hpos id Hid. unfold locks. destruct (Z.eqb_spec (le_refs x - 1) 0) as [Hz|Hz]; [|done].
    rewrite lookup_delete_ne; [done|]. intros <-. assert (e' = go_entry g) as -> by congruence. lia. }
  split; cbn [lt_locks lt_entries lt_procs].
  - intros e' y (y0 & Hy0 & _ & [[-> Hr]|[He ->]])%Hent.
    + rewrite Hr. lia.
    + rewrite (lok_refs s Hok e' y0 Hy0), Hu. unfold user. rewrite decide_False by congruence. lia.
  - intros q g' Hq. pose proof (users_pos _ _ _ _ Hq eq_refl) as Hpos. apply lookup_delete_Some in Hq as [_ Hq].
    destruct (lok_proc s Hok q g' Hq) as [? ?]. split; [by apply Hsome|by apply Hkeep].
  - intros id e' He'. destruct (Hlocks id e' He') as [Hid Hpos].
    destruct (lok_table s Hok id e' Hid) as (? & Hcount & Hinj). split_and!; [by apply Hsome| |].
    + destruct (decide (e' = go_entry g)) as [->|Hne]; [by apply Hpos|].
      rewrite Hu in Hcount. unfold user in Hcount. rewrite decide_False in Hcount by congruence. lia.
    + intros id' Hid'. apply Hinj. by apply Hlocks in Hid' as [? _].
  - intros e' y (y0 & Hy0 & Ht & _)%Hent Htok. rewrite <- Ht in Htok.
    destruct (lok_token s Hok e' y0 Hy0 Htok) as [q Hq]. exists q. by apply Hh.
  - intros e' y q (y0 & Hy0 & Ht & _)%Hent Hq%Hh. rewrite <- Ht. by eapply (lok_free s Hok).
  - intros e' q q' Hq%Hh Hq'%Hh. by eapply (lok_one s Hok).
Qed.

Lemma lock_step_ok s s' : lock_step s s' → locks_ok s → locks_ok s'.
Proof.
  intros [p id s0 Hp|p g s0 s1 Hp _ Ha|p g s0 Hp Hph|p g s0 s1 Hp Hph Hu|p g s0 Hp Hph] Hok.
  - destruct (lt_locks s0 !! id) eqn:Hid; [by eapply lock_begin_old_ok|by apply lock_begin_new_ok].
  - by eapply lock_acquire_ok.
  - apply release_ok; [done|by rewrite Hph|done].
  - by eapply lock_unlock_ok.
  - apply release_ok; [done|by rewrite Hph|done].
Qed.

Lemma empty_locks_ok : locks_ok empty_locks.
Proof. split; try done. by intros e p q [id Hp]. Qed.

(** The per-handoff locks exclude, never strand anyone and never leak. In
    every reachable state: two goroutines that hold the lock of the same
    handoff are the same goroutine; a holder can always put the token back
    (the send cannot block); a goroutine that waits finds the token or someone
    holds the lock; and the table has an entry for a handoff exactly while a
    goroutine uses it, so with no goroutine it is empty. *)
Theorem prepare_locks_exclude s :
  rtc lock_step empty_locks s →
  (∀ p q g h, lt_procs s !! p = Some g → lt_procs s !! q = Some h → go_id g = go_id h →
     go_phase g = Holding → go_phase h = Holding → p = q) ∧
  (∀ p g, lt_procs s !! p = Some g → go_phase g = Holding → is_Some (lock_unlock p g s)) ∧
  (∀ p g, lt_procs s !! p = Some g → go_phase g = Waiting →
     is_Some (lock_acquire p g s) ∨
     ∃ q h, lt_procs s !! q = Some h ∧ go_id h = go_id g ∧ go_phase h = Holding) ∧
  (∀ id, is_Some (lt_locks s !! id) ↔ ∃ p g, lt_procs s !! p = Some g ∧ go_id g = id).
Proof.
  intros Hr. assert (locks_ok s) as Hok.
  { pose proof empty_locks_ok as H0. induction Hr as [|x y z Hxy _ IH]; [done|]. by apply IH, (lock_step_ok x). }
  assert (∀ p g, lt_procs s !! p = Some g → go_phase g = Holding → holds (go_entry g) p s) as Hhold.
  { intros p [id e ph] Hp Hph. exists id. simpl in *. by subst. }
  split_and!.
  - intros p q g h Hp Hq Hid Hg Hh. destruct (lok_proc s Hok p g Hp) as [_ Hl].
    destruct (lok_proc s Hok q h Hq) as [_ Hl']. assert (go_entry g = go_entry h) as E by congruence.
    apply (lok_one s Hok (go_entry g)); [by apply Hhold|rewrite E; by apply Hhold].
  - intros p g Hp Hg. destruct (lok_proc s Hok p g Hp) as [[x Hx] _]. unfold lock_unlock. rewrite Hx.
    rewrite (lok_free s Hok _ _ _ Hx (Hhold p g Hp Hg)). by eexists.
  - intros p g Hp Hg. destruct (lok_proc s Hok p g Hp) as [[x Hx] Hl]. unfold lock_acquire. rewrite Hx.
    destruct (le_token x) eqn:Ht; [left; by eexists|right].
    destruct (lok_token s Hok _ _ Hx Ht) as (q & id & Hq). exists q, (mkGo id (go_entry g) Holding).
    split_and!; [done| |done]. simpl. destruct (lok_proc s Hok q _ Hq) as [_ Hl']. simpl in Hl'.
    symmetry. eapply (lok_table s Hok); [exact Hl'|exact Hl].
  - intros id. split.
    + intros [e He]. destruct (lok_table s Hok id e He) as (_ & Hu & Hinj). unfold users in Hu.
      destruct (map_choose (filter (λ '(_, g), go_entry g = e) (lt_procs s))) as (p & g & Hp).
      { intros E. rewrite E, map_size_empty in Hu. lia. }
      apply map_lookup_filter_Some in Hp as [Hp Hg]. exists p, g. split; [done|]. apply Hinj.
      destruct (lok_proc s Hok p g Hp) as [_ Hl]. by rewrite Hl, Hg.
    + intros (p & g & Hp & <-). destruct (lok_proc s Hok p g Hp) as [_ Hl]. by eexists.
Qed.
