(* ===== verification/PeerRegistry.v ===== *)
(** internal/mesh/registry.go and the credential check of mesh.go: the
    machine-local registry of paired devices, its validator, its file, and who
    an inbound connection is. *)

From S2P Require Import Prelude GoText.
From stdpp Require Import base gmap strings list fin_maps sorting.
From Stdlib Require Import ZArith Lia Ascii.

Open Scope Z_scope.

(** ** Data *)

Record SSHTunnel := mkTunnel { tun_Target : string; tun_LocalAddr : string; tun_RemoteAddr : string }.
Record Peer := mkPeerEntry {
  peer_ID : string; peer_URL : string; peer_Token : string; peer_SSHTunnel : option SSHTunnel }.
Record Registry := mkRegistry {
  reg_Version : Z;
  reg_DeviceID : string;
  reg_Serve : bool;
  reg_Accept : gmap string string;
  reg_Peers : list Peer;
  reg_Grants : gmap string (list string) }.

(** What the registry uses of [net] and of [sha256]/[base64]. *)
Class NetLib := {
  net_SplitHostPort : string → option (string * string);
  net_IsLoopbackIP : string → bool;
  token_hash : string → string }.

Definition RegistryVersion : Z := 1.
(** [safeID], [safeSSHTarget] and rpc.go's [safeScope]/[safeMethod] *)
Definition safeID (s : string) : bool :=
  head_tail is_alnum (λ c, is_alnum c || is_id_punct c) 0 63 s.
Definition safeSSHTarget (s : string) : bool :=
  head_tail is_alnum (λ c, is_alnum c || is_id_punct c || char_is "@" c) 0 254 s.
Definition safeScope (s : string) : bool :=
  head_tail is_lower (λ c, is_lc_alnum c || is_id_punct c || char_is ":" c) 0 127 s.
Definition safeMethod (s : string) : bool :=
  head_tail is_lower (λ c, is_lc_alnum c || is_id_punct c) 0 127 s.

Abbreviation check := (result string unit).
Definition need (b : bool) (what : string) : check := guard_err b what.

(** [strconv.Atoi] on a decimal numeral with an optional sign *)
Fixpoint digits_value (acc : Z) (s : string) : option Z :=
  match s with
  | EmptyString => Some acc
  | String c s' => if is_digit c then digits_value (acc * 10 + (byte_val c - 48)) s' else None
  end.
Definition Atoi (s : string) : option Z :=
  match s with
  | EmptyString => None
  | String c s' =>
      if char_is "-" c then (if String.eqb s' "" then None else Z.opp <$> digits_value 0 s')
      else if char_is "+" c then (if String.eqb s' "" then None else digits_value 0 s')
      else digits_value 0 s
  end.

Section Registry.
Context `{NetLib}.

Definition validateLoopbackEndpoint (addr : string) : check :=
  match net_SplitHostPort addr with
  | None => Err "address"
  | Some (host, portText) =>
      _ ← need (String.eqb host "localhost" || net_IsLoopbackIP host) "must be loopback";
      match Atoi portText with
      | Some port => need ((1 <=? port) && (port <=? 65535)) "port must be between 1 and 65535"
      | None => Err "port must be between 1 and 65535"
      end
  end.

Definition SSHTunnel_Validate (t : SSHTunnel) : check :=
  _ ← need (safeSSHTarget (tun_Target t)) "target";
  _ ← validateLoopbackEndpoint (tun_LocalAddr t);
  validateLoopbackEndpoint (tun_RemoteAddr t).

(** The loop over [r.Accept]; [seen] are the credentials met so far. *)
Fixpoint validate_accept (seen : gset string) (l : list (string * string)) : check :=
  match l with
  | [] => Ok tt
  | (id, token) :: rest =>
      _ ← need (safeID id && negb (String.eqb token "")) "accepted peer is invalid";
      _ ← need (negb (bool_decide (token ∈ seen))) "accepted peers reuse one credential";
      validate_accept ({[token]} ∪ seen) rest
  end.

(** The loop over [r.Peers]; [seen] are the peer identities met so far. *)
Fixpoint validate_peers (device : string) (accept : gmap string string) (seen : gset string)
    (l : list Peer) : check :=
  match l with
  | [] => Ok tt
  | p :: rest =>
      _ ← need (safeID (peer_ID p) && negb (String.eqb (peer_URL p) "") &&
                negb (String.eqb (peer_Token p) "")) "outbound peer is incomplete";
      _ ← need (negb (String.eqb (peer_ID p) device)) "peer cannot be this device";
      _ ← need (negb (bool_decide (peer_ID p ∈ seen))) "peer is duplicated";
      _ ← need (bool_decide (accept !! peer_ID p = None)) "peer cannot be both inbound and outbound";
      _ ← (match peer_SSHTunnel p with None => Ok tt | Some t => SSHTunnel_Validate t end);
      validate_peers device accept ({[peer_ID p]} ∪ seen) rest
  end.

Fixpoint validate_scopes (seen : gset string) (l : list string) : check :=
  match l with
  | [] => Ok tt
  | scope :: rest =>
      _ ← need (safeScope scope) "grant scope is invalid";
      _ ← need (negb (bool_decide (scope ∈ seen))) "grant scope is duplicated";
      validate_scopes ({[scope]} ∪ seen) rest
  end.

Definition validate_grant (g : string * list string) : check :=
  _ ← need (safeID g.1) "grant peer is invalid";
  validate_scopes ∅ g.2.

(** The iteration order of the two maps only decides which error is met first. *)
Definition Registry_Validate (r : Registry) : check :=
  _ ← need (reg_Version r =? RegistryVersion) "registry version";
  _ ← need (String.eqb (reg_DeviceID r) "" || safeID (reg_DeviceID r)) "device id";
  _ ← validate_accept ∅ (map_to_list (reg_Accept r));
  _ ← validate_peers (reg_DeviceID r) (reg_Accept r) ∅ (reg_Peers r);
  all_ok validate_grant (map_to_list (reg_Grants r)).

(** ** The file *)

Definition empty_registry : Registry := mkRegistry RegistryVersion "" false ∅ [] ∅.

(** [LoadRegistry] on what is at the path. Only a symbolic link and exposed
    permissions are refused before reading; an unreadable file is an error
    either way. *)
Definition LoadRegistry (file : option (File Registry)) : result string Registry :=
  match file with
  | None => Ok empty_registry
  | Some Irregular => Err "mesh registry must not be a symlink"
  | Some (Regular perm content) =>
      _ ← need (Z.land perm 63 =? 0) "mesh registry permissions are too open";
      match content with
      | None => Err "parse mesh registry"
      | Some r => _ ← Registry_Validate r; mret r
      end
  end.

(** The caller's registry after [SaveRegistry] has sorted it in place. *)
Definition canonical_registry (r : Registry) : Registry :=
  mkRegistry (reg_Version r) (reg_DeviceID r) (reg_Serve r) (reg_Accept r)
    (sort_by_key peer_ID (reg_Peers r)) (sort_strings <$> reg_Grants r).

(** [SaveRegistry]: the outcome, the registry and the file afterwards. [written]
    is whether the temporary file reaches its [os.Rename]. *)
Definition SaveRegistry (written : bool) (r : Registry) (file : option (File Registry))
    : check * Registry * option (File Registry) :=
  match Registry_Validate r with
  | Err e => (Err e, r, file)
  | Ok _ =>
      let r' := canonical_registry r in
      if written then (Ok tt, r', Some (Regular 384 (Some r')))
      else (Err "write mesh registry", r', file)
  end.

Fixpoint upsert_peer (peer : Peer) (l : list Peer) : list Peer :=
  match l with
  | [] => [peer]
  | p :: rest =>
      if String.eqb (peer_ID p) (peer_ID peer)
      then mkPeerEntry (peer_ID peer) (peer_URL peer) (peer_Token peer)
             (match peer_SSHTunnel peer with None => peer_SSHTunnel p | Some t => Some t end) :: rest
      else p :: upsert_peer peer rest
  end.
Definition UpsertPeer (peer : Peer) (r : Registry) : Registry :=
  mkRegistry (reg_Version r) (reg_DeviceID r) (reg_Serve r) (reg_Accept r)
    (upsert_peer peer (reg_Peers r)) (reg_Grants r).

(** ** Inbound credentials *)

(** [authorize] walks [r.Accept] in some order of the map. *)
Fixpoint authorize_in (cred : string) (order : list (string * string)) : option (string * string) :=
  match order with
  | [] => None
  | (id, token) :: rest =>
      if String.eqb (token_hash cred) token then Some (id, cred) else authorize_in cred rest
  end.
Definition authorize (order : list (string * string)) (header : string) : option (string * string) :=
  cred ← cut_prefix "Bearer " header; authorize_in cred order.

(** ** What validity means *)

Record registry_valid (r : Registry) : Prop := {
  rv_version : reg_Version r = RegistryVersion;
  rv_device : reg_DeviceID r = "" ∨ safeID (reg_DeviceID r) = true;
  rv_accept : ∀ id token, reg_Accept r !! id = Some token → safeID id = true ∧ token ≠ "";
  rv_credentials : ∀ i j token, reg_Accept r !! i = Some token → reg_Accept r !! j = Some token → i = j;
  rv_peers : NoDup (peer_ID <$> reg_Peers r);
  rv_peer : ∀ p, p ∈ reg_Peers r → safeID (peer_ID p) = true ∧ peer_URL p ≠ "" ∧ peer_Token p ≠ "" ∧
    peer_ID p ≠ reg_DeviceID r ∧ reg_Accept r !! peer_ID p = None ∧
    (∀ t, peer_SSHTunnel p = Some t → SSHTunnel_Validate t = Ok tt);
  rv_grants : ∀ id grants, reg_Grants r !! id = Some grants →
    safeID id = true ∧ NoDup grants ∧ ∀ s, s ∈ grants → safeScope s = true;
}.

Lemma unit_need b what (P : Prop) (Q : Prop) (m : check) :
  (b = true ↔ P) → (m = Ok tt ↔ Q) → ((_ ← need b what; m) = Ok tt) ↔ P ∧ Q.
Proof.
  intros HP HQ. unfold need, guard_err. destruct b; simpl; naive_solver.
Qed.

Lemma validate_accept_ok seen l :
  validate_accept seen l = Ok tt ↔
  NoDup l.*2 ∧ ∀ id token, (id, token) ∈ l → safeID id = true ∧ token ≠ "" ∧ token ∉ seen.
Proof.
  revert seen. induction l as [|[id token] l IH]; intros seen; simpl.
  { split; [|done]. intros _. split; [constructor|]. by intros ?? ?%elem_of_nil. }
  erewrite (unit_need _ _ (safeID id = true ∧ token ≠ "") _ _); [| |reflexivity].
  2:{ rewrite andb_true_iff, negb_true_iff, String.eqb_neq. done. }
  erewrite (unit_need _ _ (token ∉ seen) _ _); [| |apply IH].
  2:{ rewrite negb_true_iff, bool_decide_eq_false. done. }
  rewrite NoDup_cons. setoid_rewrite elem_of_cons. setoid_rewrite list_elem_of_fmap. split.
  - intros (Hid & Hs & Hnd & Hl). split_and!; [|done|].
    + intros ([i t] & Ht & Hin). simpl in Ht. subst t. destruct (Hl _ _ Hin) as (_ & _ & Hn). set_solver.
    + intros i t [[= -> ->]|Hin]; [by destruct Hid|]. destruct (Hl _ _ Hin) as (? & ? & ?). set_solver.
  - intros ([Hn Hnd] & Hl). destruct (Hl id token (or_introl eq_refl)) as (?&?&?). split_and!; try done.
    intros i t Hin. destruct (Hl i t) as (? & ? & ?); [by right|]. split_and!; try done.
    rewrite elem_of_union, elem_of_singleton. intros [->|]; [|done]. apply Hn. by exists (i, token).
Qed.

Definition peer_ok (device : string) (accept : gmap string string) (p : Peer) : Prop :=
  safeID (peer_ID p) = true ∧ peer_URL p ≠ "" ∧ peer_Token p ≠ "" ∧ peer_ID p ≠ device ∧
  accept !! peer_ID p = None ∧ (∀ t, peer_SSHTunnel p = Some t → SSHTunnel_Validate t = Ok tt).

Lemma validate_peers_ok device accept seen l :
  validate_peers device accept seen l = Ok tt ↔
  NoDup (peer_ID <$> l) ∧ ∀ p, p ∈ l → peer_ok device accept p ∧ peer_ID p ∉ seen.
Proof.
  revert seen. induction l as [|p l IH]; intros seen; simpl.
  { split; [|done]. intros _. split; [constructor|]. by intros ? ?%elem_of_nil. }
  assert ((match peer_SSHTunnel p with None => Ok tt | Some t => SSHTunnel_Validate t end : check) = Ok tt ↔
    ∀ t, peer_SSHTunnel p = Some t → SSHTunnel_Validate t = Ok tt) as Ht.
  { destruct (peer_SSHTunnel p); naive_solver. }
  do 4 rewrite (unit_need _ _ _ _ _ (iff_refl _) (iff_refl _)).
  rewrite result_bind_ok. setoid_rewrite IH. setoid_rewrite elem_of_cons. rewrite NoDup_cons.
  rewrite !andb_true_iff, !negb_true_iff, !String.eqb_neq, bool_decide_eq_false, bool_decide_eq_true.
  setoid_rewrite list_elem_of_fmap. split.
  - intros ([[Hid Hu] Htk] & Hdev & Hs & Hacc & [] & Htun & Hnd & Hl).
    split; [split; [|done]|].
    + intros (q & Hq & Hin). destruct (Hl _ Hin) as [_ Hn]. set_solver.
    + intros q [->|Hin]; [split; [|done]; split_and!; try done; by apply Ht|].
      destruct (Hl _ Hin) as [? Hn]. set_solver.
  - intros ([Hn Hnd] & Hl). destruct (Hl p (or_introl eq_refl)) as [(?&?&?&?&?&?) ?].
    split_and!; try done. exists tt. split_and!; [by apply Ht|done|].
    intros q Hin. destruct (Hl q (or_intror Hin)) as [? Hns]. split; [done|].
    rewrite elem_of_union, elem_of_singleton. intros [Heq|]; [|done]. apply Hn. by exists q.
Qed.

Lemma validate_scopes_ok seen l :
  validate_scopes seen l = Ok tt ↔
  NoDup l ∧ ∀ s, s ∈ l → safeScope s = true ∧ s ∉ seen.
Proof.
  revert seen. induction l as [|s l IH]; intros seen; simpl.
  { split; [|done]. intros _. split; [constructor|]. by intros ? ?%elem_of_nil. }
  erewrite (unit_need _ _ (safeScope s = true) _ _ (iff_refl _) (iff_refl _)).
  erewrite (unit_need _ _ (s ∉ seen) _ _); [| |apply IH].
  2:{ rewrite negb_true_iff, bool_decide_eq_false. done. }
  rewrite NoDup_cons. setoid_rewrite elem_of_cons. split.
  - intros (Hs & Hn & Hnd & Hl). split_and!; [|done|].
    + intros Hin. destruct (Hl _ Hin). set_solver.
    + intros t [->|Hin]; [done|]. destruct (Hl _ Hin). set_solver.
  - intros ([Hn Hnd] & Hl). destruct (Hl s (or_introl eq_refl)) as [??]. split_and!; try done.
    intros t Hin. destruct (Hl t (or_intror Hin)). set_solver.
Qed.

Lemma Registry_Validate_ok r : Registry_Validate r = Ok tt ↔ registry_valid r.
Proof.
  unfold Registry_Validate. rewrite (unit_need _ _ _ _ _ (Z.eqb_eq _ _) (iff_refl _)).
  erewrite (unit_need _ _ (reg_DeviceID r = "" ∨ safeID (reg_DeviceID r) = true) _ _); [| |reflexivity].
  2:{ by rewrite orb_true_iff, String.eqb_eq. }
  rewrite result_bind_ok. setoid_rewrite result_bind_ok. setoid_rewrite all_ok_Forall.
  assert (∀ l : list (string * string), NoDup l.*1 → NoDup l.*2 ↔ ∀ i j t, (i, t) ∈ l → (j, t) ∈ l → i = (j : string))
    as Hcred.
  { induction l as [|[i t] l IHl]; simpl; intros Hf; [split; [by intros _ ??? ?%elem_of_nil|constructor]|].
    apply NoDup_cons in Hf as [Hi Hf]. rewrite NoDup_cons, IHl by done. setoid_rewrite elem_of_cons.
    rewrite list_elem_of_fmap. split.
    - intros [Hn Hl] i' j' t' H1 H2. destruct H1 as [H1|H1], H2 as [H2|H2].
      + congruence.
      + destruct Hn. exists (j', t'). split; [simpl; congruence|done].
      + destruct Hn. exists (i', t'). split; [simpl; congruence|done].
      + by eapply Hl.
    - intros Hl. split.
      + intros ([j t'] & -> & Hin). apply Hi. rewrite list_elem_of_fmap. exists (j, t'). split; [|done].
        simpl. eapply Hl; [by left|by right].
      + intros i' j' t' H1 H2. eapply Hl; by right. }
  specialize (Hcred _ (NoDup_fst_map_to_list (reg_Accept r))).
  split.
  - intros (Hv & Hd & [] & Ha & [] & Hp & Hg). apply validate_accept_ok in Ha as [Hnd Ha].
    apply validate_peers_ok in Hp as [Hpn Hp]. rewrite Hcred in Hnd.
    setoid_rewrite elem_of_map_to_list in Ha. setoid_rewrite elem_of_map_to_list in Hnd.
    rewrite Forall_forall in Hg. split; try done.
    + intros id t Hi. by destruct (Ha id t Hi) as (? & ? & _).
    + intros p Hin. by destruct (Hp p Hin) as [? _].
    + intros id gs Hi. apply elem_of_map_to_list in Hi. apply Hg in Hi.
      unfold validate_grant in Hi. apply (unit_need _ _ _ _ _ (iff_refl _) (validate_scopes_ok ∅ gs)) in Hi.
      naive_solver.
  - intros [Hv Hd Ha Hc Hpn Hp Hg]. split_and!; try done. exists tt. split.
    { apply validate_accept_ok. rewrite Hcred. split.
      - intros i j t Hi Hj. apply elem_of_map_to_list in Hi, Hj. by eapply Hc.
      - intros i t Hi%elem_of_map_to_list. destruct (Ha _ _ Hi). set_solver. }
    exists tt. split.
    { apply validate_peers_ok. split; [done|]. intros p Hin. split; [by apply Hp|set_solver]. }
    apply Forall_forall. intros [id gs] Hi%elem_of_map_to_list. destruct (Hg _ _ Hi) as (? & ? & ?).
    unfold validate_grant. apply (unit_need _ _ _ _ _ (iff_refl _) (validate_scopes_ok ∅ gs)).
    split_and!; try done. intros s Hs. split; [auto|set_solver].
Qed.

(** ** Sorting in place *)

Lemma sorted_key_unique {A} (key : A → string) (l1 l2 : list A) :
  Sorted (key_le key) l1 → Sorted (key_le key) l2 → l1 ≡ₚ l2 → NoDup (key <$> l1) → l1 = l2.
Proof.
  intros H1%Sorted_StronglySorted H2%Sorted_StronglySorted; [|typeclasses eauto..].
  revert l2 H2. induction l1 as [|x l1 IH]; intros [|y l2] H2 Hp Hnd.
  - done.
  - by apply Permutation_nil_cons in Hp.
  - by symmetry in Hp; apply Permutation_nil_cons in Hp.
  - apply StronglySorted_inv in H1 as [H1 Hx], H2 as [H2 Hy]. rewrite Forall_forall in Hx, Hy.
    assert (x = y) as <-.
    { apply (NoDup_fmap_inj_on key (x :: l1)); [done|left|rewrite Hp; left|].
      apply (anti_symm String.le).
      - assert (y ∈ x :: l1) as [->|Hin]%elem_of_cons by (rewrite Hp; left); [done|by apply Hx].
      - assert (x ∈ y :: l2) as [->|Hin]%elem_of_cons by (rewrite <- Hp; left); [done|by apply Hy]. }
    f_equal. apply IH; [done|done|by apply Permutation_cons_inv in Hp|].
    simpl in Hnd. by apply NoDup_cons in Hnd as [_ ?].
Qed.

Lemma sort_by_key_id {A} (key : A → string) (l : list A) :
  NoDup (key <$> l) → sort_by_key key (sort_by_key key l) = sort_by_key key l.
Proof.
  intros Hnd. unfold sort_by_key. apply (sorted_key_unique key).
  - apply Sorted_merge_sort. typeclasses eauto.
  - apply Sorted_merge_sort. typeclasses eauto.
  - apply merge_sort_Permutation.
  - by rewrite !merge_sort_Permutation.
Qed.

Lemma sort_strings_id l : sort_strings (sort_strings l) = sort_strings l.
Proof.
  apply (Sorted_unique String.le); [apply sort_strings_Sorted..|apply sort_strings_Permutation].
Qed.

Lemma canonical_valid r : registry_valid r → registry_valid (canonical_registry r).
Proof.
  intros [Hv Hd Ha Hc Hpn Hp Hg]. unfold canonical_registry, sort_by_key. split; simpl; try done.
  - by rewrite merge_sort_Permutation.
  - intros p. rewrite merge_sort_Permutation. apply Hp.
  - intros id gs. rewrite lookup_fmap_Some. intros (gs' & <- & Hi). destruct (Hg _ _ Hi) as (? & ? & ?).
    split_and!; [done|by rewrite sort_strings_Permutation|].
    intros s. rewrite elem_of_sort_strings. auto.
Qed.

Lemma canonical_idempotent r : registry_valid r →
  canonical_registry (canonical_registry r) = canonical_registry r.
Proof.
  intros Hr. unfold canonical_registry. simpl. f_equal.
  - apply sort_by_key_id, rv_peers, Hr.
  - rewrite <- map_fmap_compose. apply map_fmap_ext. intros id gs _. apply sort_strings_id.
Qed.

(** Saving and loading the registry round-trips: after a successful save,
    loading the file gives back the caller's (now sorted) registry with the same
    device, credentials, peers and grants, and saving that again writes the
    very same file; a failed save leaves the file as it was. *)
Theorem SaveRegistry_roundtrip written r file :
  match SaveRegistry written r file with
  | (Err _, _, file') => file' = file
  | (Ok _, r', file') =>
      LoadRegistry file' = Ok r' ∧ registry_valid r' ∧
      reg_DeviceID r' = reg_DeviceID r ∧ reg_Accept r' = reg_Accept r ∧
      reg_Peers r' ≡ₚ reg_Peers r ∧
      (∀ id scope, (∃ gs, reg_Grants r' !! id = Some gs ∧ scope ∈ gs) ↔
                   (∃ gs, reg_Grants r !! id = Some gs ∧ scope ∈ gs)) ∧
      SaveRegistry true r' file' = (Ok tt, r', file')
  end.
Proof.
  unfold SaveRegistry. destruct (Registry_Validate r) as [[]|e] eqn:Hv; [|done].
  apply Registry_Validate_ok in Hv as Hr. destruct written; [|done].
  pose proof (canonical_valid r Hr) as Hc. pose proof (proj2 (Registry_Validate_ok _) Hc) as Hcv.
  split_and!; try done.
  - unfold LoadRegistry. simpl. by rewrite Hcv.
  - apply merge_sort_Permutation.
  - intros id scope. simpl. setoid_rewrite lookup_fmap_Some. split.
    + intros (? & (gs & <- & Hi) & Hin). exists gs. by rewrite elem_of_sort_strings in Hin.
    + intros (gs & Hi & Hin). exists (sort_strings gs). rewrite elem_of_sort_strings. eauto.
  - by rewrite Hcv, canonical_idempotent.
Qed.

(** ** Pairing refreshes *)

Lemma upsert_peer_lookup peer l p :
  NoDup (peer_ID <$> l) →
  p ∈ upsert_peer peer l ↔
  (p ∈ l ∧ peer_ID p ≠ peer_ID peer) ∨
  p = mkPeerEntry (peer_ID peer) (peer_URL peer) (peer_Token peer)
        (match peer_SSHTunnel peer with
         | Some t => Some t
         | None => q ← head (filter (λ q, peer_ID q = peer_ID peer) l); peer_SSHTunnel q
         end).
Proof.
  induction l as [|q l IH]; simpl; intros Hnd.
  - rewrite list_elem_of_singleton. destruct peer as [i u t tun]. simpl.
    destruct tun; split; intros Hp; try (by right); destruct Hp as [[Hp _]|Hp]; try done;
      by apply elem_of_nil in Hp.
  - apply NoDup_cons in Hnd as [Hq Hnd]. rewrite filter_cons.
    destruct (String.eqb_spec (peer_ID q) (peer_ID peer)) as [He|He].
    + rewrite decide_True by done. rewrite !elem_of_cons. simpl. split.
      * intros [->|Hp]; [right; by destruct (peer_SSHTunnel peer)|]. left. split; [by right|].
        intros He'. destruct Hq. rewrite He, <- He'. by apply list_elem_of_fmap_2.
      * intros [[[->|Hp] Hne]| ->]; [done|by right|left]. by destruct (peer_SSHTunnel peer).
    + rewrite decide_False by done. rewrite !elem_of_cons, IH by done. naive_solver.
Qed.

Lemma upsert_peer_ids peer l :
  peer_ID <$> upsert_peer peer l =
  if bool_decide (peer_ID peer ∈ peer_ID <$> l) then peer_ID <$> l else (peer_ID <$> l) ++ [peer_ID peer].
Proof.
  induction l as [|q l IH]; [done|]. cbn [upsert_peer].
  destruct (String.eqb_spec (peer_ID q) (peer_ID peer)) as [He|He]; rewrite !fmap_cons.
  - rewrite bool_decide_true; [by rewrite <- He|]. rewrite <- He. left.
  - rewrite IH. destruct (bool_decide_reflect (peer_ID peer ∈ peer_ID <$> l)).
    + rewrite bool_decide_true; [done|by right].
    + rewrite bool_decide_false; [done|]. rewrite elem_of_cons. intros [?|?]; congruence.
Qed.

(** Refreshing a pairing: a valid registry stays valid when the new peer is
    acceptable; the peer's identity material is replaced while its managed
    forward survives unless a new one is given; every other peer, the order of
    the list, the inbound credentials and the grants are untouched. *)
Theorem UpsertPeer_spec peer r :
  registry_valid r → peer_ok (reg_DeviceID r) (reg_Accept r) peer →
  registry_valid (UpsertPeer peer r) ∧
  (∀ p, peer_ID p ≠ peer_ID peer → p ∈ reg_Peers (UpsertPeer peer r) ↔ p ∈ reg_Peers r) ∧
  (∀ q, q ∈ reg_Peers r → peer_ID q = peer_ID peer → peer_SSHTunnel peer = None →
     mkPeerEntry (peer_ID peer) (peer_URL peer) (peer_Token peer) (peer_SSHTunnel q)
       ∈ reg_Peers (UpsertPeer peer r)) ∧
  (peer_ID peer ∈ peer_ID <$> reg_Peers r →
     peer_ID <$> reg_Peers (UpsertPeer peer r) = peer_ID <$> reg_Peers r) ∧
  reg_Accept (UpsertPeer peer r) = reg_Accept r ∧ reg_Grants (UpsertPeer peer r) = reg_Grants r.
Proof.
  intros Hr (Hid & Hu & Ht & Hdev & Hacc & Htun). pose proof (rv_peers r Hr) as Hnd.
  assert (∀ q, q ∈ reg_Peers r → peer_ID q = peer_ID peer →
    head (filter (λ q, peer_ID q = peer_ID peer) (reg_Peers r)) = Some q) as Hhead.
  { intros q Hq He. destruct (filter _ _) as [|q' l'] eqn:Hf.
    - assert (q ∈ filter (λ q, peer_ID q = peer_ID peer) (reg_Peers r)) as Hin
        by by apply list_elem_of_filter. rewrite Hf in Hin. by apply elem_of_nil in Hin.
    - simpl. f_equal. assert (q' ∈ filter (λ q, peer_ID q = peer_ID peer) (reg_Peers r)) as Hin
        by (rewrite Hf; left). apply list_elem_of_filter in Hin as [He' Hin].
      apply (NoDup_fmap_inj_on peer_ID (reg_Peers r)); [done..|congruence]. }
  split_and!; try done.
  - destruct Hr as [Hv Hd Ha Hc Hpn Hp Hg]. split; simpl; try done.
    + change (NoDup (peer_ID <$> upsert_peer peer (reg_Peers r))). rewrite upsert_peer_ids.
      case_bool_decide as Hin; [done|].
      apply NoDup_app. split_and!; [done| |apply NoDup_singleton].
      intros x Hx ->%list_elem_of_singleton. done.
    + intros p. rewrite upsert_peer_lookup by done. intros [[Hin _]| ->]; [by apply Hp|]. simpl.
      split_and!; try done. intros t. destruct (peer_SSHTunnel peer) as [t'|] eqn:Hpt.
      { intros [= <-]. by apply Htun. }
      destruct (head _) as [q|] eqn:Hq; [|done]. simpl. intros Hqt.
      assert (q ∈ reg_Peers r) as Hin.
      { apply head_Some_elem_of, list_elem_of_filter in Hq. by destruct Hq. }
      by apply (Hp q Hin).
  - intros p Hne. simpl. rewrite upsert_peer_lookup by done. split; [|by auto].
    intros [[? _]| ->]; done.
  - intros q Hq He Hnone. simpl. rewrite upsert_peer_lookup by done. right.
    rewrite Hnone, (Hhead q) by done. done.
  - intros Hin. unfold UpsertPeer. cbn [reg_Peers]. by rewrite upsert_peer_ids, bool_decide_true.
Qed.

(** ** Who a connection is *)

Lemma authorize_in_ok cred order id c :
  NoDup order.*2 → authorize_in cred order = Some (id, c) ↔ c = cred ∧ (id, token_hash cred) ∈ order.
Proof.
  induction order as [|[i t] order IH]; simpl; intros Hnd.
  { split; [done|]. by intros [_ ?%elem_of_nil]. }
  apply NoDup_cons in Hnd as [Hn Hnd]. rewrite elem_of_cons.
  destruct (String.eqb_spec (token_hash cred) t) as [He|He].
  - split; [intros [= -> ->]; split; [done|left; congruence]|]. intros [-> [[= ->]|Hin]]; [done|].
    destruct Hn. apply list_elem_of_fmap. by exists (id, token_hash cred).
  - rewrite IH by done. split; [by intros [-> ?]; auto|]. intros [-> [[= _ ?]|?]]; [congruence|done].
Qed.

(** In a valid registry a credential authenticates as exactly one device:
    the answer does not depend on the order in which the accepted peers are
    visited, and it is the one peer whose stored hash the presented bearer
    token has. *)
Theorem authorize_deterministic r order order' header id cred :
  registry_valid r → order ≡ₚ map_to_list (reg_Accept r) → order' ≡ₚ map_to_list (reg_Accept r) →
  authorize order header = authorize order' header ∧
  (authorize order header = Some (id, cred) ↔
   cut_prefix "Bearer " header = Some cred ∧ reg_Accept r !! id = Some (token_hash cred)).
Proof.
  intros Hr H1 H2.
  assert (NoDup (map_to_list (reg_Accept r)).*2) as Hnd.
  { apply Registry_Validate_ok in Hr. unfold Registry_Validate in Hr.
    do 2 apply result_bind_ok in Hr as (? & _ & Hr). apply result_bind_ok in Hr as ([] & Ha & _).
    by apply validate_accept_ok in Ha as [? _]. }
  assert (∀ o, o ≡ₚ map_to_list (reg_Accept r) → ∀ c i k, authorize_in c o = Some (i, k) ↔
    k = c ∧ reg_Accept r !! i = Some (token_hash c)) as Hin.
  { intros o Ho c i k. rewrite authorize_in_ok by by rewrite Ho. by rewrite Ho, elem_of_map_to_list. }
  unfold authorize. destruct (cut_prefix "Bearer " header) as [c|]; simpl; [|naive_solver]. split.
  - destruct (authorize_in c order) as [[i k]|] eqn:E1.
    + apply (Hin _ H1) in E1. symmetry. by apply (Hin _ H2).
    + destruct (authorize_in c order') as [[i k]|] eqn:E2; [|done].
      apply (Hin _ H2), (Hin _ H1) in E2. congruence.
  - rewrite (Hin _ H1). naive_solver.
Qed.
End Registry.
