(* ===== verification/PeerRpc.v ===== *)
(** internal/mesh/rpc.go, requests and responses of one authenticated
    connection: the method registry, capability negotiation, outgoing calls
    with their waiters, and incoming requests with their handlers. *)

From S2P Require Import Prelude GoText PeerRegistry.
From stdpp Require Import base gmap strings list fin_maps sorting pretty.
From Stdlib Require Import ZArith Lia Ascii.

Open Scope Z_scope.

Definition CapabilityRPCV1 : string := "rpc.v1".
Definition CapabilityEventsV1 : string := "events.v1".
Definition MaxApplicationPayload : Z := 49152.
Definition MaxPendingCalls : nat := 128%nat.

(** ** Methods and principals *)

Record MethodSpec := mkSpec { ms_Name : string; ms_Capability : string; ms_RequiredScope : string }.
#[export] Instance MethodSpec_eq_dec : EqDecision MethodSpec.
Proof. solve_decision. Defined.
Record Principal := mkPrincipal { pr_PeerID : string; pr_Scopes : list string }.
(** The handler of a method, by a name for its closure. *)
Record registeredMethod := mkMethod { rm_spec : MethodSpec; rm_handler : option nat }.
Record RPCError := mkRPCError { re_Code : string; re_Message : string }.

Definition HasScope (p : Principal) (scope : string) : bool :=
  existsb (λ granted, String.eqb granted scope) (pr_Scopes p).

Definition validateMethodSpec (spec : MethodSpec) (requireScope : bool) : check :=
  _ ← need (safeMethod (ms_Name spec)) "invalid mesh RPC method";
  _ ← need (safeScope (ms_Capability spec)) "invalid mesh RPC capability";
  _ ← need (negb (requireScope && negb (safeScope (ms_RequiredScope spec)))) "handler requires a scope";
  need (String.eqb (ms_RequiredScope spec) "" || safeScope (ms_RequiredScope spec)) "invalid mesh RPC scope".

(** The parts of [Manager] shared by its connections; [mg_current] is whether
    the connection below is still the one registered for its peer. *)
Record Manager := mkManager {
  mg_handlers : gmap string registeredMethod;
  mg_capabilities : list string;
  mg_started : bool;
  mg_grants : gmap string (list string);
  mg_gen : N;
  mg_stopped : bool;
  mg_current : bool }.

Definition set_handlers (h : gmap string registeredMethod) (m : Manager) : Manager :=
  mkManager h (mg_capabilities m) (mg_started m) (mg_grants m) (mg_gen m) (mg_stopped m) (mg_current m).
Definition set_current (b : bool) (m : Manager) : Manager :=
  mkManager (mg_handlers m) (mg_capabilities m) (mg_started m) (mg_grants m) (mg_gen m) (mg_stopped m) b.
Definition next_gen (m : Manager) : Manager :=
  mkManager (mg_handlers m) (mg_capabilities m) (mg_started m) (mg_grants m) (N.succ (mg_gen m))
    (mg_stopped m) (mg_current m).

Definition RegisterMethod (spec : MethodSpec) (m : Manager) : check * Manager :=
  match validateMethodSpec spec false with
  | Err e => (Err e, m)
  | Ok _ =>
      match mg_handlers m !! ms_Name spec with
      | Some existing =>
          (need (bool_decide (rm_spec existing = spec)) "different specification", m)
      | None => (Ok tt, set_handlers (<[ms_Name spec := mkMethod spec None]> (mg_handlers m)) m)
      end
  end.

Definition RegisterHandler (spec : MethodSpec) (handler : option nat) (m : Manager) : check * Manager :=
  match handler with
  | None => (Err "mesh RPC handler is nil", m)
  | Some h =>
      match
        _ ← validateMethodSpec spec true;
        match mg_handlers m !! ms_Name spec with
        | Some existing =>
            _ ← need (bool_decide (rm_spec existing = spec)) "different specification";
            need (bool_decide (rm_handler existing = None)) "already has a handler"
        | None => Ok tt
        end
      with
      | Err e => (Err e, m)
      | Ok _ => (Ok tt, set_handlers (<[ms_Name spec := mkMethod spec (Some h)]> (mg_handlers m)) m)
      end
  end.

(** ** Capabilities *)

(** First occurrences of valid names, sorted. *)
Definition normalizeCapabilities (capabilities : list string) : result string (list string) :=
  _ ← all_ok (λ c, need (safeScope c) "invalid mesh capability") capabilities;
  mret (sort_strings (remove_dups capabilities)).

Definition SetCapabilities (capabilities : list string) (m : Manager) : check * Manager :=
  match normalizeCapabilities capabilities with
  | Err e => (Err e, m)
  | Ok normalized =>
      if mg_started m then (Err "mesh capabilities cannot change after Start", m)
      else (Ok tt, mkManager (mg_handlers m) normalized (mg_started m) (mg_grants m) (mg_gen m)
                     (mg_stopped m) (mg_current m))
  end.

Definition intersectCapabilities (local remote : list string) : list string :=
  let remoteSet := filter (λ c, safeScope c = true) remote in
  sort_strings (filter (λ c, c ∈ remoteSet) local).

Definition principalFor (peerID : string) (m : Manager) : Principal :=
  mkPrincipal peerID (sort_strings (default [] (mg_grants m !! peerID))).

(** ** One connection *)

(** [rpcResponse]: the length of its result and its error. *)
Record rpcResponse := mkResponse { rsp_Result : Z; rsp_Error : option RPCError }.
Inductive callResult := CallResponse (r : rpcResponse) | CallPeerDisconnected.

Record Event := mkEvent { evt_Name : string; evt_Data : string }.
#[export] Instance Event_eq_dec : EqDecision Event.
Proof. solve_decision. Defined.

(** An application frame as its receiver decodes it; [None] is a payload that
    does not decode. *)
Inductive Frame :=
| FrameRequest (method : option string)
| FrameResponse (response : option rpcResponse)
| FrameCancel
| FrameEvent (event : option Event).
Record Envelope := mkEnvelope { env_ID : string; env_Size : Z; env_Frame : Frame }.

(** Calls in progress: [cl_waiters] holds the response channel of every [Call]
    that has not returned, [cl_pending] the identities in [rpcPending]. A send
    on a full response channel would block the reader. *)
Record ClientSide := mkClient {
  cl_pending : gset string; cl_waiters : gmap string (Chan callResult); cl_blocked : bool }.

(** What the server side does, in order: for the statements only. *)
Inductive RpcEvent :=
| EvStart (token : nat) (method : registeredMethod) (principal : Principal)
| EvCancel (token : nat)
| EvAnswer (token : nat).

(** [sv_inflight] maps request identities to the cancel function of a handler's
    context, named by its token; [sv_running] holds the handlers that have not
    returned with the request each serves. *)
Record ServerSide := mkServer {
  sv_inflight : gmap string nat; sv_canceled : gset nat; sv_running : gmap nat string;
  sv_next : nat; sv_log : list RpcEvent }.

Record Runtime := mkRuntime {
  rt_peer : string; rt_generation : N; rt_caps : gset string; rt_done : bool; rt_app : Chan Envelope;
  rt_client : ClientSide; rt_server : ServerSide }.

Record Conn := mkConn { cn_manager : Manager; cn_runtime : Runtime }.

Definition set_app (a : Chan Envelope) (r : Runtime) : Runtime :=
  mkRuntime (rt_peer r) (rt_generation r) (rt_caps r) (rt_done r) a (rt_client r) (rt_server r).
Definition set_client (c : ClientSide) (r : Runtime) : Runtime :=
  mkRuntime (rt_peer r) (rt_generation r) (rt_caps r) (rt_done r) (rt_app r) c (rt_server r).
Definition set_server (s : ServerSide) (r : Runtime) : Runtime :=
  mkRuntime (rt_peer r) (rt_generation r) (rt_caps r) (rt_done r) (rt_app r) (rt_client r) s.
Definition on_runtime (f : Runtime → Runtime) (w : Conn) : Conn := mkConn (cn_manager w) (f (cn_runtime w)).

Definition supports (r : Runtime) (capability : string) : bool := bool_decide (capability ∈ rt_caps r).

Inductive CallErr :=
| ErrContextDone | ErrMethodNotRegistered | ErrPeerDisconnected | ErrCapabilityUnavailable
| ErrPayloadTooLarge | ErrTooManyPendingCalls | ErrBackpressure.

Definition enqueueApp (env : Envelope) (r : Runtime) : result CallErr unit * Runtime :=
  if rt_done r then (Err ErrPeerDisconnected, r) else
  match try_send (rt_app r) env with
  | Some a => (Ok tt, set_app a r)
  | None => (Err ErrBackpressure, r)
  end.
(** [_ = m.enqueueApp(p, env)] *)
Definition enqueueQuietly (env : Envelope) (r : Runtime) : Runtime := (enqueueApp env r).2.

(** ** Closing *)

Definition fail_waiter (w : gmap string (Chan callResult)) (id : string) : gmap string (Chan callResult) :=
  match w !! id with
  | Some ch => match try_send ch CallPeerDisconnected with Some ch' => <[id := ch']> w | None => w end
  | None => w
  end.
Definition cancel_tokens (l : list nat) (s : ServerSide) : ServerSide :=
  mkServer (sv_inflight s) (list_to_set l ∪ sv_canceled s) (sv_running s) (sv_next s)
    (sv_log s ++ (EvCancel <$> l)).

(** [p.close]; the [closeOnce] is the test of [rt_done]. *)
Definition close (r : Runtime) : Runtime :=
  if rt_done r then r else
  let c := rt_client r in
  let s := cancel_tokens (map_to_list (sv_inflight (rt_server r))).*2 (rt_server r) in
  mkRuntime (rt_peer r) (rt_generation r) (rt_caps r) true (rt_app r)
    (mkClient ∅ (foldl fail_waiter (cl_waiters c) (elements (cl_pending c))) (cl_blocked c))
    (mkServer ∅ (sv_canceled s) (sv_running s) (sv_next s) (sv_log s)).

Definition disconnect (w : Conn) : Conn := mkConn (set_current false (cn_manager w)) (close (cn_runtime w)).

(** ** Outgoing calls *)

Definition call_id (r : Runtime) (m : Manager) : string :=
  "rpc-" +:+ (pretty (rt_generation r) +:+ ("-" +:+ pretty (mg_gen m))).

(** [Call] up to and including the insertion into [rpcPending]. *)
Definition Call_begin (ctxDone : bool) (method : string) (bytes : Z) (w : Conn) : result CallErr string * Conn :=
  let m := cn_manager w in
  let r := cn_runtime w in
  if ctxDone then (Err ErrContextDone, w) else
  match mg_handlers m !! method with
  | None => (Err ErrMethodNotRegistered, w)
  | Some registered =>
      if negb (mg_current m) then (Err ErrPeerDisconnected, w)
      else if negb (supports r CapabilityRPCV1 && supports r (ms_Capability (rm_spec registered)))
      then (Err ErrCapabilityUnavailable, w)
      else if MaxApplicationPayload <? bytes then (Err ErrPayloadTooLarge, w)
      else
        let m' := next_gen m in
        let id := call_id r m' in
        if rt_done r then (Err ErrPeerDisconnected, mkConn m' r)
        else if (MaxPendingCalls <=? size (cl_pending (rt_client r)))%nat
        then (Err ErrTooManyPendingCalls, mkConn m' r)
        else
          let c := rt_client r in
          (Ok id, mkConn m' (set_client (mkClient ({[id]} ∪ cl_pending c)
                     (<[id := mkChan 1 []]> (cl_waiters c)) (cl_blocked c)) r))
  end.

(** The [Call] goroutine returns. *)
Definition call_returns (id : string) (c : ClientSide) : ClientSide :=
  mkClient (cl_pending c) (delete id (cl_waiters c)) (cl_blocked c).
Definition removeRPCCall (id : string) (c : ClientSide) : bool * ClientSide :=
  (bool_decide (id ∈ cl_pending c), mkClient (cl_pending c ∖ {[id]}) (cl_waiters c) (cl_blocked c)).

(** [Call]'s enqueue of the request; a failure ends the call. *)
Definition Call_send (id method : string) (size : Z) (r : Runtime) : result CallErr unit * Runtime :=
  match enqueueApp (mkEnvelope id size (FrameRequest (Some method))) r with
  | (Ok _, r') => (Ok tt, r')
  | (Err e, r') => (Err e, set_client (call_returns id (removeRPCCall id (rt_client r')).2) r')
  end.

(** The branches of [Call]'s final select. *)
Definition Call_receive (id : string) (r : Runtime) : option (callResult * Runtime) :=
  ch ← cl_waiters (rt_client r) !! id;
  '(res, _) ← try_recv ch;
  Some (res, set_client (call_returns id (rt_client r)) r).
Definition Call_ctx_done (id : string) (r : Runtime) : Runtime :=
  let '(removed, c) := removeRPCCall id (rt_client r) in
  let r' := set_client (call_returns id c) r in
  if removed then enqueueQuietly (mkEnvelope id 0 FrameCancel) r' else r'.
Definition Call_peer_done (id : string) (r : Runtime) : Runtime :=
  set_client (call_returns id (removeRPCCall id (rt_client r)).2) r.

(** ** Incoming frames *)

Definition ErrorUnsupportedMethod : string := "unsupported_method".
Definition ErrorPermissionDenied : string := "permission_denied".
Definition ErrorCapabilityRequired : string := "capability_required".
Definition ErrorInvalidRequest : string := "invalid_request".
Definition ErrorBackpressure : string := "backpressure".
Definition ErrorPayloadTooLarge : string := "payload_too_large".
Definition ErrorInternal : string := "internal_error".

Fixpoint str_take (n : nat) (s : string) : string :=
  match n, s with S n, String c s' => String c (str_take n s') | _, _ => EmptyString end.

Definition sendRPCError (id code message : string) (r : Runtime) : Runtime :=
  let code := if safeScope code then code else ErrorInternal in
  let message := if 240 <? str_len message then str_take 240 message else message in
  enqueueQuietly (mkEnvelope id 0 (FrameResponse (Some (mkResponse 0 (Some (mkRPCError code message)))))) r.

Definition handleRequest (env : Envelope) (method : option string) (w : Conn) : Conn :=
  let m := cn_manager w in
  let r := cn_runtime w in
  let reply code message := on_runtime (sendRPCError (env_ID env) code message) w in
  if String.eqb (env_ID env) "" || negb (supports r CapabilityRPCV1) then disconnect w else
  match method with
  | None => disconnect w
  | Some name =>
      if negb (safeMethod name) then disconnect w else
      match mg_handlers m !! name with
      | None | Some (mkMethod _ None) => reply ErrorUnsupportedMethod "method is not supported"
      | Some (mkMethod spec (Some h) as method) =>
          if negb (supports r (ms_Capability spec))
          then reply ErrorCapabilityRequired "required capability was not negotiated" else
          let principal := principalFor (rt_peer r) m in
          if negb (HasScope principal (ms_RequiredScope spec))
          then reply ErrorPermissionDenied "peer is not granted the required scope" else
          let s := rt_server r in
          if (MaxPendingCalls <=? size (sv_inflight s))%nat
          then reply ErrorBackpressure "too many in-flight requests"
          else if bool_decide (is_Some (sv_inflight s !! env_ID env))
          then reply ErrorInvalidRequest "duplicate request id"
          else
            let token := sv_next s in
            on_runtime (set_server (mkServer (<[env_ID env := token]> (sv_inflight s)) (sv_canceled s)
              (<[token := env_ID env]> (sv_running s)) (S token) (sv_log s ++ [EvStart token method principal]))) w
      end
  end.

(** How a handler ends; [OutcomeError] is an error or a panic. *)
Inductive Outcome :=
| OutcomeResult (encodes : bool) (payload : Z)
| OutcomeRPCError (e : RPCError)
| OutcomeError.

(** [runHandler] after the handler has returned. *)
Definition finishHandler (token : nat) (o : Outcome) (w : Conn) : Conn :=
  let r := cn_runtime w in
  let s := rt_server r in
  match sv_running s !! token with
  | None => w
  | Some id =>
      let active := sv_inflight s !! id in
      let canceled := mg_stopped (cn_manager w) || bool_decide (token ∈ sv_canceled s) in
      let answer := bool_decide (is_Some active) && negb canceled in
      let s1 := mkServer (delete id (sv_inflight s)) (sv_canceled s) (delete token (sv_running s))
                  (sv_next s) (sv_log s ++ (if answer then [EvAnswer token] else [])) in
      let s2 := match active with Some t => cancel_tokens [t] s1 | None => s1 end in
      let r' := set_server s2 r in
      mkConn (cn_manager w)
        (if negb answer then r' else
         match o with
         | OutcomeRPCError e => sendRPCError id (re_Code e) (re_Message e) r'
         | OutcomeError => sendRPCError id ErrorInternal "request failed" r'
         | OutcomeResult encodes payload =>
             if negb encodes then sendRPCError id ErrorInternal "result encoding failed" r'
             else if MaxApplicationPayload <? payload
             then sendRPCError id ErrorPayloadTooLarge "response exceeds application payload limit" r'
             else enqueueQuietly (mkEnvelope id payload (FrameResponse (Some (mkResponse payload None)))) r'
         end)
  end.

Definition malformed_response (rsp : rpcResponse) : bool :=
  match rsp_Error rsp with
  | None => rsp_Result rsp =? 0
  | Some e => negb (rsp_Result rsp =? 0) || negb (safeScope (re_Code e)) || (240 <? str_len (re_Message e))
  end.

Definition handleResponse (env : Envelope) (response : option rpcResponse) (w : Conn) : Conn :=
  let r := cn_runtime w in
  let c := rt_client r in
  if String.eqb (env_ID env) "" || negb (supports r CapabilityRPCV1) then disconnect w else
  match response with
  | None => disconnect w
  | Some rsp =>
      if malformed_response rsp then disconnect w else
      let id := env_ID env in
      let known := bool_decide (id ∈ cl_pending c) in
      let pending := cl_pending c ∖ {[id]} in
      match (if known then cl_waiters c !! id else None) with
      | None => on_runtime (set_client (mkClient pending (cl_waiters c) (cl_blocked c))) w
      | Some ch =>
          match try_send ch (CallResponse rsp) with
          | Some ch' => on_runtime (set_client (mkClient pending (<[id := ch']> (cl_waiters c)) (cl_blocked c))) w
          | None => on_runtime (set_client (mkClient pending (cl_waiters c) true)) w
          end
      end
  end.

Definition handleCancel (env : Envelope) (w : Conn) : Conn :=
  let r := cn_runtime w in
  let s := rt_server r in
  if String.eqb (env_ID env) "" || negb (env_Size env =? 0) || negb (supports r CapabilityRPCV1)
  then disconnect w else
  match sv_inflight s !! env_ID env with
  | Some t =>
      on_runtime (set_server (cancel_tokens [t]
        (mkServer (delete (env_ID env) (sv_inflight s)) (sv_canceled s) (sv_running s) (sv_next s) (sv_log s)))) w
  | None => w
  end.

(** [handleEvent] up to the check of the decoded event: [None] disconnects. *)
Definition admit_event (env : Envelope) (event : option Event) (r : Runtime) : option Event :=
  if negb (String.eqb (env_ID env) "") || negb (supports r CapabilityEventsV1) then None else
  match event with
  | Some e => if safeMethod (evt_Name e) then Some e else None
  | None => None
  end.
Definition handleEvent_connection (env : Envelope) (event : option Event) (w : Conn) : Conn :=
  match admit_event env event (cn_runtime w) with Some _ => w | None => disconnect w end.

(** [handleApplicationEnvelope]; what subscribers receive is in PeerEvents. *)
Definition handleApplicationEnvelope (env : Envelope) (w : Conn) : Conn :=
  if MaxApplicationPayload <? env_Size env then disconnect w else
  match env_Frame env with
  | FrameRequest method => handleRequest env method w
  | FrameResponse response => handleResponse env response w
  | FrameCancel => handleCancel env w
  | FrameEvent event => handleEvent_connection env event w
  end.

(** The writer takes the next application frame. *)
Definition writer_takes (r : Runtime) : option (Envelope * Runtime) :=
  '(env, a) ← try_recv (rt_app r); Some (env, set_app a r).

(** [activate]: the runtime of a fresh connection. *)
Definition new_runtime (peer : string) (generation : N) (queue : nat) (caps : list string) : Runtime :=
  mkRuntime peer generation (list_to_set caps) false (mkChan queue []) (mkClient ∅ ∅ false)
    (mkServer ∅ ∅ ∅ 0 []).
