(* ===== verification/PeerRpcFacts.v ===== *)
(** The RPC substrate of a connection, under any interleaving of calls,
    frames, handlers, cancellations and closure: handlers run only with a
    negotiated capability and a granted scope, both directions stay bounded,
    the reader never blocks on a waiter, and a canceled request is silent. *)

From S2P Require Import Prelude GoText PeerRegistry PeerRpc.
From stdpp Require Import base gmap strings list fin_maps sorting pretty relations.
From Stdlib Require Import ZArith Lia Ascii.

Open Scope Z_scope.

(** ** Negotiation *)

Lemma sorted_strings_unique l1 l2 :
  Sorted String.le l1 → Sorted String.le l2 → NoDup l1 → NoDup l2 → (∀ x, x ∈ l1 ↔ x ∈ l2) → l1 = l2.
Proof.
  intros H1 H2 N1 N2 He. apply (Sorted_unique String.le); [done..|]. by apply NoDup_Permutation.
Qed.

Lemma normalize_ok caps l :
  normalizeCapabilities caps = Ok l →
  Sorted String.le l ∧ NoDup l ∧ (∀ c, c ∈ l ↔ c ∈ caps) ∧ ∀ c, c ∈ l → safeScope c = true.
Proof.
  unfold normalizeCapabilities. intros Hn. apply result_bind_ok in Hn as ([] & Hok & [= <-]).
  rewrite all_ok_Forall, Forall_forall in Hok. unfold sort_strings.
  assert (∀ c, c ∈ merge_sort String.le (remove_dups caps) ↔ c ∈ caps) as Hin.
  { intros c. by rewrite merge_sort_Permutation, elem_of_remove_dups. }
  split_and!; [apply sort_strings_Sorted| |done|].
  - rewrite merge_sort_Permutation. apply NoDup_remove_dups.
  - intros c Hc%Hin. by apply Hok, guard_err_ok in Hc.
Qed.

Lemma intersect_spec local remote :
  Sorted String.le (intersectCapabilities local remote) ∧
  (NoDup local → NoDup (intersectCapabilities local remote)) ∧
  ∀ c, c ∈ intersectCapabilities local remote ↔ c ∈ local ∧ c ∈ remote ∧ safeScope c = true.
Proof.
  unfold intersectCapabilities. split_and!; [apply sort_strings_Sorted| |].
  - intros Hnd. unfold sort_strings. rewrite merge_sort_Permutation. by apply NoDup_filter.
  - intros c. rewrite elem_of_sort_strings, !list_elem_of_filter. naive_solver.
Qed.

(** Both ends of a handshake agree: the capabilities the listener computes
    from the caller's hello, and those the caller computes from the listener's
    welcome, are the same list, and it is exactly what both advertised. *)
Theorem negotiation_agrees capsA capsB localA localB :
  normalizeCapabilities capsA = Ok localA → normalizeCapabilities capsB = Ok localB →
  let welcome := intersectCapabilities localB localA in
  intersectCapabilities localA welcome = welcome ∧
  ∀ c, c ∈ welcome ↔ c ∈ capsA ∧ c ∈ capsB.
Proof.
  intros HA HB. cbv zeta. destruct (normalize_ok _ _ HA) as (SA & NA & IA & VA).
  destruct (normalize_ok _ _ HB) as (SB & NB & IB & VB).
  destruct (intersect_spec localB localA) as (S1 & N1 & I1).
  destruct (intersect_spec localA (intersectCapabilities localB localA)) as (S2 & N2 & I2).
  split.
  - apply sorted_strings_unique; auto. intros c. rewrite I2, I1. naive_solver.
  - intros c. rewrite I1, <- IA, <- IB. naive_solver.
Qed.

(** ** Steps *)

Inductive conn_step : relation Conn :=
| cs_method spec w : conn_step w (mkConn (RegisterMethod spec (cn_manager w)).2 (cn_runtime w))
| cs_handler spec h w : conn_step w (mkConn (RegisterHandler spec h (cn_manager w)).2 (cn_runtime w))
| cs_caps caps w : conn_step w (mkConn (SetCapabilities caps (cn_manager w)).2 (cn_runtime w))
| cs_gen w : conn_step w (mkConn (next_gen (cn_manager w)) (cn_runtime w))
    (* another connection or call takes a generation *)
| cs_stop w :
    let m := cn_manager w in
    conn_step w (mkConn (mkManager (mg_handlers m) (mg_capabilities m) false (mg_grants m) (mg_gen m)
                           true (mg_current m)) (close (cn_runtime w)))
| cs_replaced w : conn_step w (disconnect w)
    (* also any transport failure *)
| cs_call_begin ctx method size w : conn_step w (Call_begin ctx method size w).2
| cs_call_send id method size w :
    is_Some (cl_waiters (rt_client (cn_runtime w)) !! id) →
    conn_step w (on_runtime (λ r, (Call_send id method size r).2) w)
| cs_call_receive id res r w :
    Call_receive id (cn_runtime w) = Some (res, r) → conn_step w (mkConn (cn_manager w) r)
| cs_call_ctx id w : conn_step w (on_runtime (Call_ctx_done id) w)
| cs_call_done id w : conn_step w (on_runtime (Call_peer_done id) w)
| cs_frame env w : conn_step w (handleApplicationEnvelope env w)
| cs_finish token o w : conn_step w (finishHandler token o w)
| cs_write env r w :
    writer_takes (cn_runtime w) = Some (env, r) → conn_step w (mkConn (cn_manager w) r).

(** A connection as [activate] makes it, in a manager with these grants. *)
Definition fresh_conn (grants : gmap string (list string)) (caps : list string) (peer : string)
    (generation : N) (queue : nat) (negotiated : list string) : Conn :=
  mkConn (mkManager ∅ caps true grants generation false true)
         (new_runtime peer generation queue negotiated).

(** ** Invariants *)

Definition authorized_start (grants : gmap string (list string)) (r : Runtime) (e : RpcEvent) : Prop :=
  match e with
  | EvStart _ method principal =>
      is_Some (rm_handler method) ∧ safeScope (ms_RequiredScope (rm_spec method)) = true ∧
      CapabilityRPCV1 ∈ rt_caps r ∧ ms_Capability (rm_spec method) ∈ rt_caps r ∧
      pr_PeerID principal = rt_peer r ∧
      ms_RequiredScope (rm_spec method) ∈ default [] (grants !! rt_peer r)
  | _ => True
  end.

(** After a cancellation of a token nothing answers it, and nothing is answered
    twice. *)
Fixpoint silent_after_cancel (log : list RpcEvent) : Prop :=
  match log with
  | [] => True
  | EvCancel t :: rest => EvAnswer t ∉ rest ∧ silent_after_cancel rest
  | EvAnswer t :: rest => EvAnswer t ∉ rest ∧ silent_after_cancel rest
  | EvStart _ _ _ :: rest => silent_after_cancel rest
  end.

Record server_ok (grants : gmap string (list string)) (r : Runtime) (s : ServerSide) : Prop := {
  so_starts : Forall (authorized_start grants r) (sv_log s);
  so_inflight : (size (sv_inflight s) ≤ MaxPendingCalls)%nat;
  so_running : ∀ t id, sv_running s !! t = Some id → (t < sv_next s)%nat ∧ EvAnswer t ∉ sv_log s;
  so_answers : ∀ t, EvAnswer t ∈ sv_log s → (t < sv_next s)%nat;
  so_canceled : ∀ t, EvCancel t ∈ sv_log s → t ∈ sv_canceled s;
  so_silent : silent_after_cancel (sv_log s);
}.

Record client_ok (m : Manager) (r : Runtime) (c : ClientSide) : Prop := {
  co_bounded : (size (cl_pending c) ≤ MaxPendingCalls)%nat;
  co_waiting : ∀ id, id ∈ cl_pending c → cl_waiters c !! id = Some (mkChan 1 []);
  co_ids : ∀ id ch, cl_waiters c !! id = Some ch → ∃ n, (n ≤ mg_gen m)%N ∧
    id = "rpc-" +:+ (pretty (rt_generation r) +:+ ("-" +:+ pretty n));
  co_unblocked : cl_blocked c = false;
}.

Record conn_ok (grants : gmap string (list string)) (w : Conn) : Prop := {
  wo_grants : mg_grants (cn_manager w) = grants;
  wo_handlers : ∀ name method, mg_handlers (cn_manager w) !! name = Some method →
    is_Some (rm_handler method) → safeScope (ms_RequiredScope (rm_spec method)) = true;
  wo_app : (length (ch_buf (rt_app (cn_runtime w))) ≤ ch_cap (rt_app (cn_runtime w)))%nat;
  wo_client : client_ok (cn_manager w) (cn_runtime w) (rt_client (cn_runtime w));
  wo_server : server_ok grants (cn_runtime w) (rt_server (cn_runtime w));
}.

(** What the runtime-only operations leave alone. *)
Definition same_identity (r r' : Runtime) : Prop :=
  rt_peer r' = rt_peer r ∧ rt_generation r' = rt_generation r ∧ rt_caps r' = rt_caps r.

Lemma server_ok_identity g r r' s : same_identity r r' → server_ok g r s → server_ok g r' s.
Proof.
  intros (Hp & _ & Hc) [Hs ? ? ? ? ?]. split; try done.
  eapply Forall_impl; [exact Hs|]. intros []; simpl; try done. by rewrite Hp, Hc.
Qed.
Lemma client_ok_identity m m' r r' c :
  same_identity r r' → (mg_gen m ≤ mg_gen m')%N → client_ok m r c → client_ok m' r' c.
Proof.
  intros (_ & Hg & _) Hle [? ? Hi ?]. split; try done. intros id ch Hid.
  destruct (Hi _ _ Hid) as (n & Hn & ->). exists n. rewrite Hg. split; [lia|done].
Qed.

(** The three parts of a runtime change independently. *)
Lemma conn_ok_runtime g w r :
  conn_ok g w → same_identity (cn_runtime w) r →
  (length (ch_buf (rt_app r)) ≤ ch_cap (rt_app r))%nat →
  client_ok (cn_manager w) r (rt_client r) → server_ok g r (rt_server r) →
  conn_ok g (mkConn (cn_manager w) r).
Proof. intros [Hg Hh Ha Hc Hs] Hi Happ Hcl Hsv. by split. Qed.

Lemma enqueueApp_ok env r r' res :
  enqueueApp env r = (res, r') → (length (ch_buf (rt_app r)) ≤ ch_cap (rt_app r))%nat →
  (length (ch_buf (rt_app r')) ≤ ch_cap (rt_app r'))%nat ∧ same_identity r r' ∧
  rt_client r' = rt_client r ∧ rt_server r' = rt_server r.
Proof.
  unfold enqueueApp. intros He Ha. destruct (rt_done r); [by simplify_eq|].
  destruct (try_send (rt_app r) env) as [a|] eqn:Hs; simplify_eq; [|done].
  apply try_send_Some in Hs as [Hlt ->]. split_and!; try done. simpl. rewrite length_app. simpl. lia.
Qed.

Lemma conn_ok_enqueue g w env : conn_ok g w → conn_ok g (on_runtime (enqueueQuietly env) w).
Proof.
  intros Hw. destruct (enqueueApp env (cn_runtime w)) as [res r'] eqn:He.
  pose proof (enqueueApp_ok _ _ _ _ He (wo_app g w Hw)) as (Ha & Hi & Hc & Hs).
  unfold on_runtime, enqueueQuietly. rewrite He. simpl.
  apply conn_ok_runtime; try done.
  - rewrite Hc. apply (client_ok_identity (cn_manager w) _ (cn_runtime w)); [done|lia|apply Hw].
  - rewrite Hs. apply (server_ok_identity _ (cn_runtime w)); [done|apply Hw].
Qed.
Lemma conn_ok_reply g w id code msg : conn_ok g w → conn_ok g (on_runtime (sendRPCError id code msg) w).
Proof. apply conn_ok_enqueue. Qed.

Lemma conn_ok_client g w c :
  conn_ok g w → client_ok (cn_manager w) (cn_runtime w) c → conn_ok g (on_runtime (set_client c) w).
Proof.
  intros Hw Hc. apply conn_ok_runtime; try done; [apply Hw| |].
  - by apply (client_ok_identity (cn_manager w) _ (cn_runtime w)); [|lia|].
  - apply (server_ok_identity _ (cn_runtime w)); [done|apply Hw].
Qed.
Lemma conn_ok_server g w s :
  conn_ok g w → server_ok g (cn_runtime w) s → conn_ok g (on_runtime (set_server s) w).
Proof.
  intros Hw Hs. apply conn_ok_runtime; try done; [apply Hw| |].
  - apply (client_ok_identity (cn_manager w) _ (cn_runtime w)); [done|lia|apply Hw].
  - by apply (server_ok_identity _ (cn_runtime w)).
Qed.

(** ** The log *)

Lemma silent_snoc log e :
  silent_after_cancel log →
  match e with EvAnswer t => EvCancel t ∉ log ∧ EvAnswer t ∉ log | _ => True end →
  silent_after_cancel (log ++ [e]).
Proof.
  induction log as [|x log IH]; simpl; intros Hl He.
  - destruct e; split; try done; apply not_elem_of_nil.
  - assert (silent_after_cancel (log ++ [e])) as Hrec.
    { destruct x; try destruct Hl as [_ Hl]; (apply IH; [done|]); destruct e; try done;
        rewrite !elem_of_cons in He; tauto. }
    destruct x as [t m p|t|t]; [done|..]; destruct Hl as [Hn _]; (split; [|done]);
      rewrite elem_of_app, list_elem_of_singleton; intros [?|Heq]; try done;
      subst e; rewrite !elem_of_cons in He; tauto.
Qed.

Lemma cancel_tokens_ok g r l s : server_ok g r s → server_ok g r (cancel_tokens l s).
Proof.
  intros [H1 H2 H3 H4 H5 H6]. unfold cancel_tokens.
  assert (∀ t, EvAnswer t ∈ sv_log s ++ (EvCancel <$> l) ↔ EvAnswer t ∈ sv_log s) as Hans.
  { intros t. rewrite elem_of_app, list_elem_of_fmap. naive_solver. }
  split; simpl; try done.
  - apply Forall_app. split; [done|]. apply Forall_fmap, Forall_forall. done.
  - intros t id Ht. rewrite Hans. eauto.
  - intros t. rewrite Hans. apply H4.
  - intros t. rewrite elem_of_app, elem_of_union, elem_of_list_to_set, list_elem_of_fmap. naive_solver.
  - clear -H6. revert H6. generalize (sv_log s). induction l as [|t l IH]; intros log Hlog; simpl.
    + by rewrite app_nil_r.
    + rewrite cons_middle, app_assoc. apply IH. by apply silent_snoc.
Qed.

Lemma server_ok_smaller g r s inflight :
  (size inflight ≤ size (sv_inflight s))%nat → server_ok g r s →
  server_ok g r (mkServer inflight (sv_canceled s) (sv_running s) (sv_next s) (sv_log s)).
Proof. intros Hsz [? ? ? ? ? ?]. split; simpl; try done. lia. Qed.

Lemma size_delete_le {A} (m : gmap string A) k : (size (delete k m) ≤ size m)%nat.
Proof. rewrite map_size_delete. destruct (m !! k); simpl; lia. Qed.

(** ** Closing *)

Lemma fail_waiters_ids l w id :
  is_Some (foldl fail_waiter w l !! id) → is_Some (w !! id).
Proof.
  revert w. induction l as [|x l IH]; intros w; simpl; [done|]. intros Hi%IH. revert Hi.
  unfold fail_waiter. destruct (w !! x) as [ch|] eqn:Hx; [|done].
  destruct (try_send _ _); [|done]. rewrite lookup_insert_is_Some. naive_solver.
Qed.

Lemma close_ok g w m' : conn_ok g w → mg_grants m' = mg_grants (cn_manager w) →
  mg_handlers m' = mg_handlers (cn_manager w) → mg_gen m' = mg_gen (cn_manager w) →
  conn_ok g (mkConn m' (close (cn_runtime w))).
Proof.
  intros [Hg Hh Ha Hc Hs] Eg Eh En. unfold close. destruct (rt_done (cn_runtime w)).
  - split; simpl; try done; [by rewrite Eg|by rewrite Eh|].
    apply (client_ok_identity (cn_manager w) _ (cn_runtime w)); [done|lia|done].
  - split; simpl; try done; [by rewrite Eg|by rewrite Eh|..].
    + destruct Hc as [? ? Hi ?]. split; simpl; try done.
      * apply Nat.le_0_l.
      * intros id ch Hch. destruct (fail_waiters_ids (elements (cl_pending (rt_client (cn_runtime w))))
          (cl_waiters (rt_client (cn_runtime w))) id) as [ch' Hch']; [by eexists|].
        rewrite En. by apply (Hi _ _ Hch').
    + apply (server_ok_identity _ (cn_runtime w)); [done|].
      apply (server_ok_smaller _ _ (cancel_tokens _ _)); [simpl; rewrite map_size_empty; lia|].
      by apply cancel_tokens_ok.
Qed.
Lemma disconnect_ok g w : conn_ok g w → conn_ok g (disconnect w).
Proof. intros Hw. by apply close_ok. Qed.

(** ** Calls *)

Lemma call_id_inj (gen n n' : N) :
  "rpc-" +:+ (pretty gen +:+ ("-" +:+ pretty n)) = "rpc-" +:+ (pretty gen +:+ ("-" +:+ pretty n')) → n = n'.
Proof. intros He. by do 3 apply (inj (String.append _)) in He; apply (inj pretty) in He. Qed.

Lemma pending_removed m r c id :
  client_ok m r c → client_ok m r (call_returns id (removeRPCCall id c).2).
Proof.
  intros [Hb Hw Hi Hu]. split; simpl; try done.
  - etransitivity; [|exact Hb]. apply subseteq_size. set_solver.
  - intros id' [Hin Hne]%elem_of_difference. rewrite lookup_delete_ne by set_solver. by apply Hw.
  - intros id' ch. rewrite lookup_delete_Some. intros [_ ?]. eauto.
Qed.

Lemma Call_begin_ok g ctx method bytes w : conn_ok g w → conn_ok g (Call_begin ctx method bytes w).2.
Proof.
  intros Hw. unfold Call_begin. destruct ctx; [done|].
  destruct (mg_handlers _ !! _) as [rm|]; [|done]. destruct (negb (mg_current _)); [done|].
  destruct (negb _); [done|]. destruct (_ <? _); [done|]. cbv zeta.
  assert (conn_ok g (mkConn (next_gen (cn_manager w)) (cn_runtime w))) as Hw'.
  { destruct Hw as [? ? ? Hc ?]. split; try done.
    apply (client_ok_identity (cn_manager w) _ (cn_runtime w)); [done|simpl; lia|done]. }
  destruct (rt_done _); [done|]. destruct (Nat.leb_spec MaxPendingCalls (size (cl_pending (rt_client (cn_runtime w))))) as [|Hlt]; [done|].
  change (conn_ok g (on_runtime (set_client (mkClient
    ({[call_id (cn_runtime w) (next_gen (cn_manager w))]} ∪ cl_pending (rt_client (cn_runtime w)))
    (<[call_id (cn_runtime w) (next_gen (cn_manager w)) := mkChan 1 []]> (cl_waiters (rt_client (cn_runtime w))))
    (cl_blocked (rt_client (cn_runtime w)))))
    (mkConn (next_gen (cn_manager w)) (cn_runtime w)))).
  apply conn_ok_client; [done|]. destruct (wo_client g w Hw) as [Hb Hp Hi Hu]. split; simpl; try done.
  - rewrite size_union_alt, size_singleton.
    assert (size (cl_pending (rt_client (cn_runtime w)) ∖ {[call_id (cn_runtime w) (next_gen (cn_manager w))]})
      ≤ size (cl_pending (rt_client (cn_runtime w))))%nat by (apply subseteq_size; set_solver). lia.
  - intros id. rewrite elem_of_union, elem_of_singleton. intros Hid.
    destruct (decide (id = call_id (cn_runtime w) (next_gen (cn_manager w)))) as [->|Hne].
    + by rewrite lookup_insert_eq.
    + rewrite lookup_insert_ne by done. apply Hp. by destruct Hid.
  - intros id ch. rewrite lookup_insert_Some. intros [[<- <-]|[_ Hch]].
    + exists (N.succ (mg_gen (cn_manager w))). split; [lia|done].
    + destruct (Hi _ _ Hch) as (n & ? & ->). exists n. split; [lia|done].
Qed.

(** ** Incoming frames *)

Lemma HasScope_granted peer m scope :
  HasScope (principalFor peer m) scope = true → scope ∈ default [] (mg_grants m !! peer).
Proof.
  unfold HasScope, principalFor. simpl. intros (x & Hx & He%String.eqb_eq)%existsb_exists. subst x.
  by rewrite <- list_elem_of_In, elem_of_sort_strings in Hx.
Qed.

Lemma handleRequest_ok g env method w : conn_ok g w → conn_ok g (handleRequest env method w).
Proof.
  intros Hw. unfold handleRequest. cbv zeta.
  destruct (_ || negb (supports _ _)) eqn:Hsup; [by apply disconnect_ok|].
  apply orb_false_iff in Hsup as [_ Hrpc]. apply negb_false_iff, bool_decide_eq_true in Hrpc.
  destruct method as [name|]; [|by apply disconnect_ok].
  destruct (negb (safeMethod name)); [by apply disconnect_ok|].
  destruct (mg_handlers _ !! name) as [[spec [h|]]|] eqn:Hm; try by apply conn_ok_reply.
  destruct (negb (supports _ (ms_Capability spec))) eqn:Hcap; [by apply conn_ok_reply|].
  apply negb_false_iff, bool_decide_eq_true in Hcap.
  destruct (negb (HasScope _ _)) eqn:Hsc; [by apply conn_ok_reply|]. apply negb_false_iff in Hsc.
  destruct (Nat.leb_spec MaxPendingCalls (size (sv_inflight (rt_server (cn_runtime w))))) as [|Hlt];
    [by apply conn_ok_reply|].
  case_bool_decide as Hdup; [by apply conn_ok_reply|].
  apply conn_ok_server; [done|]. destruct (wo_server g w Hw) as [H1 H2 H3 H4 H5 H6].
  split; simpl.
  - apply Forall_app. split; [done|]. apply Forall_singleton. simpl.
    apply HasScope_granted in Hsc. rewrite (wo_grants g w Hw) in Hsc.
    split_and!; try done. by apply (wo_handlers g w Hw name _ Hm).
  - rewrite map_size_insert_None; [lia|]. by apply eq_None_not_Some.
  - intros t id. rewrite elem_of_app, list_elem_of_singleton, lookup_insert_Some.
    intros [[<- <-]|[_ Ht]].
    + split; [lia|]. intros [Ha|]; [|done]. apply H4 in Ha. lia.
    + destruct (H3 _ _ Ht). split; [lia|]. by intros [|].
  - intros t. rewrite elem_of_app, list_elem_of_singleton. intros [Ha|]; [|done]. apply H4 in Ha. lia.
  - intros t. rewrite elem_of_app, list_elem_of_singleton. intros [|]; [auto|done].
  - by apply silent_snoc.
Qed.

Lemma handleResponse_ok g env rsp w : conn_ok g w → conn_ok g (handleResponse env rsp w).
Proof.
  intros Hw. unfold handleResponse. cbv zeta.
  destruct (_ || _); [by apply disconnect_ok|]. destruct rsp as [rsp|]; [|by apply disconnect_ok].
  destruct (malformed_response rsp); [by apply disconnect_ok|].
  destruct (wo_client g w Hw) as [Hb Hp Hi Hu].
  assert (size (cl_pending (rt_client (cn_runtime w)) ∖ {[env_ID env]}) ≤ MaxPendingCalls)%nat as Hb'.
  { etransitivity; [|exact Hb]. apply subseteq_size. set_solver. }
  case_bool_decide as Hin.
  - rewrite (Hp _ Hin). change (try_send (mkChan 1 []) (CallResponse rsp)) with (Some (mkChan 1 [CallResponse rsp])).
    cbv iota.
    apply conn_ok_client; [done|]. split; simpl; try done.
    + intros id [Hid Hne]%elem_of_difference. rewrite lookup_insert_ne by set_solver. by apply Hp.
    + intros id ch. rewrite lookup_insert_Some. intros [[<- _]|[_ ?]]; [|by eauto]. by apply (Hi _ _ (Hp _ Hin)).
  - apply conn_ok_client; [done|]. split; simpl; try done. intros id [Hid _]%elem_of_difference. by apply Hp.
Qed.

Lemma handleCancel_ok g env w : conn_ok g w → conn_ok g (handleCancel env w).
Proof.
  intros Hw. unfold handleCancel. cbv zeta. destruct (_ || _); [by apply disconnect_ok|].
  destruct (sv_inflight _ !! _) as [t|]; [|done].
  apply conn_ok_server; [done|]. apply cancel_tokens_ok.
  apply (server_ok_smaller _ _ (rt_server (cn_runtime w))); [apply size_delete_le|apply Hw].
Qed.

Lemma finish_server_ok g r s token id answer :
  server_ok g r s → sv_running s !! token = Some id →
  (answer = true → token ∉ sv_canceled s) →
  server_ok g r (mkServer (delete id (sv_inflight s)) (sv_canceled s) (delete token (sv_running s))
    (sv_next s) (sv_log s ++ (if answer then [EvAnswer token] else []))).
Proof.
  intros [H1 H2 H3 H4 H5 H6] Hrun Hans. destruct (H3 _ _ Hrun) as [Hlt Hn].
  destruct answer; [|rewrite app_nil_r]; split; simpl; try done.
  - apply Forall_app. split; [done|]. by apply Forall_singleton.
  - etransitivity; [apply size_delete_le|done].
  - intros t i [Hne Ht]%lookup_delete_Some. destruct (H3 _ _ Ht). split; [done|].
    rewrite elem_of_app, list_elem_of_singleton. intros [?|[= ?]]; [done|congruence].
  - intros t. rewrite elem_of_app, list_elem_of_singleton. intros [?|[= ->]]; [auto|done].
  - intros t. rewrite elem_of_app, list_elem_of_singleton. intros [?|?]; [auto|done].
  - apply silent_snoc; [done|]. split; [|done]. intros Hc%H5. by destruct (Hans eq_refl).
  - etransitivity; [apply size_delete_le|done].
  - intros t i [_ Ht]%lookup_delete_Some. eauto.
Qed.

Lemma finishHandler_ok g token o w : conn_ok g w → conn_ok g (finishHandler token o w).
Proof.
  intros Hw. unfold finishHandler. cbv zeta.
  destruct (sv_running _ !! token) as [id|] eqn:Hrun; [|done].
  set (answer := _ && _). set (s1 := mkServer _ _ _ _ _). set (s2 := match _ with Some t => _ | None => s1 end).
  assert (server_ok g (cn_runtime w) s1) as Hs1.
  { apply finish_server_ok; [apply Hw|done|]. unfold answer.
    intros [_ Hc%negb_true_iff]%andb_true_iff. apply orb_false_iff in Hc as [_ Hc].
    by apply bool_decide_eq_false in Hc. }
  assert (server_ok g (cn_runtime w) s2) as Hs2
    by (unfold s2; destruct (sv_inflight _ !! id); [by apply cancel_tokens_ok|done]).
  pose proof (conn_ok_server g w s2 Hw Hs2) as Hw2.
  destruct (negb answer); [done|].
  destruct o as [encodes payload|e|]; try exact (conn_ok_reply _ _ _ _ _ Hw2).
  destruct (negb encodes); [exact (conn_ok_reply _ _ _ _ _ Hw2)|].
  destruct (_ <? _); [exact (conn_ok_reply _ _ _ _ _ Hw2)|exact (conn_ok_enqueue _ _ _ Hw2)].
Qed.

Lemma register_ok g w m' : conn_ok g w → mg_grants m' = mg_grants (cn_manager w) →
  (mg_gen (cn_manager w) ≤ mg_gen m')%N →
  (∀ name method, mg_handlers m' !! name = Some method → is_Some (rm_handler method) →
     safeScope (ms_RequiredScope (rm_spec method)) = true) → conn_ok g (mkConn m' (cn_runtime w)).
Proof.
  intros [Hg Hh Ha Hc Hs] Eg En Hm. split; simpl; try done; [by rewrite Eg|].
  by apply (client_ok_identity (cn_manager w) _ (cn_runtime w)).
Qed.

Lemma RegisterMethod_ok g spec w :
  conn_ok g w → conn_ok g (mkConn (RegisterMethod spec (cn_manager w)).2 (cn_runtime w)).
Proof.
  intros Hw. unfold RegisterMethod. destruct (validateMethodSpec _ _); [|by destruct w].
  destruct (_ !! _); [by destruct w|]. simpl. apply register_ok; try done.
  simpl. intros name method [[<- <-]|[_ Hm]]%lookup_insert_Some; [by intros []|]. by apply (wo_handlers g w Hw name).
Qed.
Lemma RegisterHandler_ok g spec h w :
  conn_ok g w → conn_ok g (mkConn (RegisterHandler spec h (cn_manager w)).2 (cn_runtime w)).
Proof.
  intros Hw. unfold RegisterHandler. destruct h as [h|]; [|by destruct w].
  destruct (_ ≫= _) as [[]|e] eqn:Hv; [|by destruct w].
  apply result_bind_ok in Hv as ([] & Hv & _). unfold validateMethodSpec in Hv.
  do 2 apply result_bind_ok in Hv as ([] & _ & Hv). apply result_bind_ok in Hv as ([] & Hsc & _).
  apply guard_err_ok, negb_true_iff in Hsc. simpl in Hsc. apply negb_false_iff in Hsc.
  apply register_ok; try done.
  simpl. intros name method [[<- <-]|[_ Hm]]%lookup_insert_Some; [done|]. by apply (wo_handlers g w Hw name).
Qed.

Lemma Call_send_ok g id method bytes w :
  conn_ok g w → conn_ok g (on_runtime (λ r, (Call_send id method bytes r).2) w).
Proof.
  intros Hw. pose proof (conn_ok_enqueue g w (mkEnvelope id bytes (FrameRequest (Some method))) Hw) as Hq.
  unfold on_runtime, enqueueQuietly, Call_send in *. destruct (enqueueApp _ _) as [[] r'] eqn:He; simpl in *; [done|].
  apply (conn_ok_client g (mkConn (cn_manager w) r')); [done|]. apply pending_removed, Hq.
Qed.
Lemma Call_receive_ok g id res r w :
  Call_receive id (cn_runtime w) = Some (res, r) → conn_ok g w → conn_ok g (mkConn (cn_manager w) r).
Proof.
  unfold Call_receive. intros Hr Hw. destruct (cl_waiters _ !! id) as [ch|] eqn:Hch; [|done]. simpl in Hr.
  destruct (try_recv ch) as [[res' ch']|] eqn:Hrecv; [|done]. simpl in Hr. injection Hr as -> <-.
  apply (conn_ok_client g w); [done|]. destruct (wo_client g w Hw) as [Hb Hp Hi Hu]. split; simpl; try done.
  - intros id' Hin. rewrite lookup_delete_ne; [by apply Hp|]. intros <-. rewrite (Hp _ Hin) in Hch.
    injection Hch as <-. done.
  - intros id' c. rewrite lookup_delete_Some. intros [_ ?]. eauto.
Qed.
Lemma Call_ctx_done_ok g id w : conn_ok g w → conn_ok g (on_runtime (Call_ctx_done id) w).
Proof.
  intros Hw. unfold Call_ctx_done, on_runtime. pose proof (pending_removed _ _ _ id (wo_client g w Hw)) as Hc.
  unfold removeRPCCall in *. simpl in *. pose proof (conn_ok_client g w _ Hw Hc) as Hw'.
  case_bool_decide; [|done]. by apply (conn_ok_enqueue g (mkConn (cn_manager w) _)).
Qed.
Lemma writer_takes_ok g env r w :
  writer_takes (cn_runtime w) = Some (env, r) → conn_ok g w → conn_ok g (mkConn (cn_manager w) r).
Proof.
  unfold writer_takes, try_recv. intros Hr Hw. pose proof (wo_app g w Hw) as Ha.
  destruct (ch_buf _) as [|x b] eqn:Hbuf; [done|]. injection Hr as -> <-. simpl in Ha.
  apply conn_ok_runtime; try done; simpl; [lia| |].
  - apply (client_ok_identity (cn_manager w) _ (cn_runtime w)); [done|lia|apply Hw].
  - apply (server_ok_identity _ (cn_runtime w)); [done|apply Hw].
Qed.
Lemma SetCapabilities_ok g caps w :
  conn_ok g w → conn_ok g (mkConn (SetCapabilities caps (cn_manager w)).2 (cn_runtime w)).
Proof.
  intros Hw. unfold SetCapabilities. destruct (normalizeCapabilities _); [|by destruct w].
  destruct (mg_started _); [by destruct w|]. apply register_ok; try done. apply (wo_handlers g w Hw).
Qed.
Lemma frame_ok g env w : conn_ok g w → conn_ok g (handleApplicationEnvelope env w).
Proof.
  intros Hw. unfold handleApplicationEnvelope. destruct (_ <? _); [by apply disconnect_ok|].
  destruct (env_Frame env); [by apply handleRequest_ok|by apply handleResponse_ok|by apply handleCancel_ok|].
  unfold handleEvent_connection. destruct (admit_event _ _ _); [done|by apply disconnect_ok].
Qed.

Lemma conn_step_ok g w w' : conn_step w w' → conn_ok g w → conn_ok g w'.
Proof.
  intros [] Hw.
  - by apply RegisterMethod_ok.
  - by apply RegisterHandler_ok.
  - by apply SetCapabilities_ok.
  - apply register_ok; try done; [simpl; lia|]. by apply (wo_handlers g _ Hw).
  - by apply close_ok.
  - by apply disconnect_ok.
  - by apply Call_begin_ok.
  - by apply Call_send_ok.
  - by eapply Call_receive_ok.
  - by apply Call_ctx_done_ok.
  - apply conn_ok_client; [done|]. apply pending_removed, Hw.
  - by apply frame_ok.
  - by apply finishHandler_ok.
  - by eapply writer_takes_ok.
Qed.

Lemma fresh_conn_ok g caps peer gen queue negotiated :
  conn_ok g (fresh_conn g caps peer gen queue negotiated).
Proof.
  split; simpl; try done.
  - lia.
  - split; simpl; try done. apply Nat.le_0_l.
  - split; simpl; try done; [apply Nat.le_0_l|..]; intros t ?%elem_of_nil; done.
Qed.

Lemma reachable_conn_ok g caps peer gen queue negotiated w :
  rtc conn_step (fresh_conn g caps peer gen queue negotiated) w → conn_ok g w.
Proof.
  intros Hr. pose proof (fresh_conn_ok g caps peer gen queue negotiated) as H0. revert H0.
  induction Hr as [|w1 w2 w3 Hs _ IH]; [done|]. intros H1. by apply IH, (conn_step_ok _ _ _ Hs).
Qed.

(** Who the connection is with never changes. *)
Definition identity (w : Conn) : string * gset string := (rt_peer (cn_runtime w), rt_caps (cn_runtime w)).

Lemma identity_disconnect w : identity (disconnect w) = identity w.
Proof. unfold identity, disconnect, close. simpl. by destruct (rt_done (cn_runtime w)). Qed.
Lemma identity_enqueue m env r : identity (mkConn m (enqueueQuietly env r)) = identity (mkConn m r).
Proof.
  unfold identity, enqueueQuietly, enqueueApp. simpl. destruct (rt_done r); [done|]. by destruct (try_send _ _).
Qed.
Lemma identity_reply id code msg w : identity (on_runtime (sendRPCError id code msg) w) = identity w.
Proof. destruct w. apply identity_enqueue. Qed.

Lemma identity_frame env w : identity (handleApplicationEnvelope env w) = identity w.
Proof.
  unfold handleApplicationEnvelope. destruct (_ <? _); [apply identity_disconnect|].
  destruct (env_Frame env) as [method|rsp| |event].
  - unfold handleRequest. cbv zeta. destruct (_ || _); [apply identity_disconnect|].
    destruct method; [|apply identity_disconnect]. destruct (negb _); [apply identity_disconnect|].
    destruct (mg_handlers _ !! _) as [[spec [h|]]|]; try apply identity_reply.
    do 2 (destruct (negb _); [apply identity_reply|]).
    destruct (_ <=? _)%nat; [apply identity_reply|]. case_bool_decide; [apply identity_reply|done].
  - unfold handleResponse. cbv zeta. destruct (_ || _); [apply identity_disconnect|].
    destruct rsp as [rsp|]; [|apply identity_disconnect].
    destruct (malformed_response rsp); [apply identity_disconnect|].
    destruct (if bool_decide _ then _ else _) as [ch|]; [|done]. by destruct (try_send ch _).
  - unfold handleCancel. cbv zeta. destruct (_ || _); [apply identity_disconnect|].
    by destruct (sv_inflight _ !! _).
  - unfold handleEvent_connection. destruct (admit_event _ _ _); [done|apply identity_disconnect].
Qed.

Lemma identity_finish token o w : identity (finishHandler token o w) = identity w.
Proof.
  unfold finishHandler. cbv zeta. destruct (sv_running _ !! token) as [id|]; [|done].
  destruct (negb _); [done|]. unfold sendRPCError.
  destruct o as [enc payload|e|]; try by rewrite identity_enqueue.
  destruct (negb enc); [by rewrite identity_enqueue|]. destruct (_ <? _); by rewrite identity_enqueue.
Qed.

Lemma conn_step_identity w w' : conn_step w w' → identity w' = identity w.
Proof.
  intros []; try done; try apply identity_disconnect.
  - unfold Call_begin. by repeat case_match.
  - unfold Call_send, on_runtime. unfold enqueueApp. by repeat case_match; simplify_eq.
  - unfold Call_receive in *. destruct (cl_waiters _ !! _) as [ch|]; simpl in *; [|done].
    by destruct (try_recv ch) as [[]|]; simplify_eq/=.
  - unfold Call_ctx_done, on_runtime. simpl. case_bool_decide; [by rewrite identity_enqueue|done].
  - apply identity_frame.
  - apply identity_finish.
  - unfold writer_takes in *. by destruct (try_recv _) as [[]|]; simplify_eq/=.
Qed.
Lemma reachable_identity w w' : rtc conn_step w w' → identity w' = identity w.
Proof. induction 1 as [|w1 w2 w3 Hs _ IH]; [done|]. by rewrite IH, (conn_step_identity _ _ Hs). Qed.

(** C9: Application RPC is default-deny: on a connection, whatever frames the
    peer sends, however handlers are registered and calls interleave, a handler
    only ever starts for a registered method with a non-empty scope that this
    machine's registry grants to this authenticated peer, over capabilities
    both ends negotiated; a peer without grants runs nothing. *)
Theorem rpc_default_deny grants caps peer gen queue negotiated w token method principal :
  rtc conn_step (fresh_conn grants caps peer gen queue negotiated) w →
  EvStart token method principal ∈ sv_log (rt_server (cn_runtime w)) →
  pr_PeerID principal = peer ∧
  ms_RequiredScope (rm_spec method) ≠ "" ∧
  (∃ granted, grants !! peer = Some granted ∧ ms_RequiredScope (rm_spec method) ∈ granted) ∧
  CapabilityRPCV1 ∈ negotiated ∧ ms_Capability (rm_spec method) ∈ negotiated.
Proof.
  intros Hr Hin. pose proof (reachable_conn_ok _ _ _ _ _ _ _ Hr) as Hw.
  assert (rt_peer (cn_runtime w) = peer ∧ rt_caps (cn_runtime w) = list_to_set negotiated) as [Hp Hc].
  { by injection (reachable_identity _ _ Hr). }
  pose proof (so_starts _ _ _ (wo_server _ _ Hw)) as Hst. rewrite Forall_forall in Hst.
  destruct (Hst _ Hin) as (_ & Hsafe & Hrpc & Hcap & Hpp & Hg). rewrite Hp in Hpp, Hg. rewrite Hc in Hrpc, Hcap.
  rewrite elem_of_list_to_set in Hrpc, Hcap. split_and!; try done.
  - intros He. by rewrite He in Hsafe.
  - destruct (grants !! peer) as [gs|] eqn:Hgs; simpl in Hg; [by exists gs|by apply elem_of_nil in Hg].
Qed.

(** C10: A connection stays bounded and never wedges: at most 128 calls are
    pending and 128 requests in flight, the writer queue never exceeds its
    capacity, every pending call has a free response slot (so delivering its
    response, at most one per call, never blocks the reader), and no two calls
    in progress share an identity. *)
Theorem rpc_bounded grants caps peer gen queue negotiated w :
  rtc conn_step (fresh_conn grants caps peer gen queue negotiated) w →
  (size (cl_pending (rt_client (cn_runtime w))) ≤ 128)%nat ∧
  (size (sv_inflight (rt_server (cn_runtime w))) ≤ 128)%nat ∧
  (length (ch_buf (rt_app (cn_runtime w))) ≤ ch_cap (rt_app (cn_runtime w)))%nat ∧
  cl_blocked (rt_client (cn_runtime w)) = false ∧
  (∀ id, id ∈ cl_pending (rt_client (cn_runtime w)) →
     cl_waiters (rt_client (cn_runtime w)) !! id = Some (mkChan 1 [])) ∧
  (∀ ctx method bytes id w', Call_begin ctx method bytes w = (Ok id, w') →
     cl_waiters (rt_client (cn_runtime w)) !! id = None).
Proof.
  intros Hr. pose proof (reachable_conn_ok _ _ _ _ _ _ _ Hr) as [Hg Hh Ha [Hb Hp Hi Hu] Hs].
  split_and!; try done; [apply Hs|].
  intros ctx method bytes id w' Hc. unfold Call_begin in Hc. repeat case_match; simplify_eq.
  destruct (cl_waiters _ !! _) as [ch|] eqn:Hch; [|done].
  destruct (Hi _ _ Hch) as (n & Hn & He). apply call_id_inj in He. simpl in He. lia.
Qed.

(** C11: A request is answered at most once, and never after it has been
    canceled by its peer or by the end of the connection, even when a later
    request reuses its identity. *)
Theorem rpc_cancel_silences grants caps peer gen queue negotiated w before token after :
  rtc conn_step (fresh_conn grants caps peer gen queue negotiated) w →
  sv_log (rt_server (cn_runtime w)) = before ++ EvCancel token :: after ∨
  sv_log (rt_server (cn_runtime w)) = before ++ EvAnswer token :: after →
  EvAnswer token ∉ after.
Proof.
  intros Hr Hlog. pose proof (so_silent _ _ _ (wo_server _ _ (reachable_conn_ok _ _ _ _ _ _ _ Hr))) as Hs.
  assert (∃ e, (e = EvCancel token ∨ e = EvAnswer token) ∧
    silent_after_cancel (before ++ e :: after)) as (e & He & Hs').
  { destruct Hlog as [Hl|Hl]; rewrite Hl in Hs; eauto. }
  clear -He Hs'. induction before as [|x before IH]; simpl in Hs'.
  - destruct He as [-> | ->]; apply Hs'.
  - apply IH. destruct x; [done|apply Hs'..].
Qed.
