(* ===== verification/PeerEvents.v ===== *)
(** internal/mesh/rpc.go, events: the bounded outgoing event queue of a
    connection with its gap marker, and the local subscriptions that the events
    of all peers are published to. *)

From S2P Require Import Prelude GoText PeerRegistry PeerRpc.
From stdpp Require Import base gmap strings list fin_maps.
From Stdlib Require Import ZArith Lia Ascii.

Open Scope Z_scope.

Definition EventGapName : string := "events.gap".
Definition ScopeEventsRead : string := "events.read".

(** ** Sending *)

(** An event frame with its [eventGap] mark. *)
Record OutEvent := mkOut { oe_event : Event; oe_gap : bool }.
Definition meshGapEnvelope : OutEvent := mkOut (mkEvent EventGapName "") true.

(** [p.events], [p.eventDirty], [p.eventGapSent] and [p.done], and the event the
    writer holds between its receive and [eventDelivered]; [es_wired] is whether
    [writePeerEnvelope] has returned for it. *)
Record EventSide := mkEventSide {
  es_queue : Chan OutEvent; es_dirty : bool; es_gapSent : bool; es_done : bool;
  es_writing : option OutEvent; es_wired : bool }.

Definition new_event_side (queue : nat) : EventSide := mkEventSide (mkChan queue []) false false false None false.

Definition tryEnqueueEvent (e : OutEvent) (s : EventSide) : bool * EventSide :=
  match try_send (es_queue s) e with
  | Some q => (true, mkEventSide q (es_dirty s) (es_gapSent s) (es_done s) (es_writing s) (es_wired s))
  | None => (false, s)
  end.
Definition set_marks (dirty gapSent : bool) (s : EventSide) : EventSide :=
  mkEventSide (es_queue s) dirty gapSent (es_done s) (es_writing s) (es_wired s).

(** The end of [enqueueEvent]: the event itself, behind any gap. *)
Definition enqueue_normal (e : OutEvent) (s : EventSide) : result CallErr unit * EventSide :=
  match tryEnqueueEvent e s with
  | (true, s') => (Ok tt, s')
  | (false, s') => (Err ErrBackpressure, if es_gapSent s' then s' else set_marks true (es_gapSent s') s')
  end.

Definition enqueueEvent (e : OutEvent) (s : EventSide) : result CallErr unit * EventSide :=
  if es_done s then (Err ErrPeerDisconnected, s)
  else if oe_gap e then
    if es_gapSent s then (Ok tt, s) else
    match tryEnqueueEvent e s with
    | (true, s') => (Ok tt, set_marks false true s')
    | (false, s') => (Err ErrBackpressure, set_marks true (es_gapSent s') s')
    end
  else if es_dirty s && negb (es_gapSent s) then
    match tryEnqueueEvent meshGapEnvelope s with
    | (false, s') => (Err ErrBackpressure, s')
    | (true, s') => enqueue_normal e (set_marks false true s')
    end
  else enqueue_normal e s.

Inductive SendErr := SendInvalidName | SendCall (e : CallErr) | SendDenied.

(** [SendEvent]; [payload] is the length of the encoded event, [None] when it
    does not encode. *)
Definition SendEvent (w : Conn) (event : Event) (payload : option Z) (s : EventSide) : result SendErr unit * EventSide :=
  if negb (safeMethod (evt_Name event)) then (Err SendInvalidName, s)
  else if negb (mg_current (cn_manager w)) then (Err (SendCall ErrPeerDisconnected), s)
  else if negb (supports (cn_runtime w) CapabilityEventsV1) then (Err (SendCall ErrCapabilityUnavailable), s)
  else if negb (HasScope (principalFor (rt_peer (cn_runtime w)) (cn_manager w)) ScopeEventsRead) then (Err SendDenied, s)
  else match payload with
  | None => (Err SendInvalidName, s)
  | Some bytes =>
      if MaxApplicationPayload <? bytes then (Err (SendCall ErrPayloadTooLarge), s)
      else match enqueueEvent (mkOut event (String.eqb (evt_Name event) EventGapName)) s with
      | (Ok _, s') => (Ok tt, s')
      | (Err e, s') => (Err (SendCall e), s')
      end
  end.

(** The writer: it receives an event, puts it on the wire, and reports it. *)
Definition event_take (s : EventSide) : option (OutEvent * EventSide) :=
  match es_writing s, es_done s with
  | None, false =>
      '(e, q) ← try_recv (es_queue s);
      Some (e, mkEventSide q (es_dirty s) (es_gapSent s) false (Some e) false)
  | _, _ => None
  end.
Definition event_wired (s : EventSide) : option (OutEvent * EventSide) :=
  e ← es_writing s;
  if es_wired s then None
  else Some (e, mkEventSide (es_queue s) (es_dirty s) (es_gapSent s) (es_done s) (es_writing s) true).
Definition eventDelivered (e : OutEvent) (s : EventSide) : EventSide :=
  if es_done s then set_marks false false s else
  let s := if oe_gap e then set_marks (es_dirty s) false s else s in
  if es_dirty s && negb (es_gapSent s) then
    match tryEnqueueEvent meshGapEnvelope s with
    | (true, s') => set_marks false true s'
    | (false, s') => s'
    end
  else s.
Definition event_confirm (s : EventSide) : option (OutEvent * EventSide) :=
  e ← es_writing s;
  if es_wired s then
    Some (e, eventDelivered e (mkEventSide (es_queue s) (es_dirty s) (es_gapSent s) (es_done s) None false))
  else None.

(** [p.close] on the event side. *)
Definition close_events (s : EventSide) : EventSide :=
  if es_done s then s else mkEventSide (es_queue s) false false true (es_writing s) (es_wired s).

(** ** Subscribing *)

Record PeerEvent := mkPeerEvent { pe_PeerID : string; pe_Event : Event }.
Record eventSubscriberPeerState := mkPeerState { ps_dirty : bool; ps_gapPending : bool }.
Definition zero_state : eventSubscriberPeerState := mkPeerState false false.

Record eventSubscriber := mkSubscriber {
  sub_ch : Chan PeerEvent; sub_peers : gmap string eventSubscriberPeerState }.

(** [m.eventSubs], [m.eventSubID], and the channels that unsubscribing has
    closed with what is left in them. A send on a closed channel would panic. *)
Record Subscriptions := mkSubscriptions {
  ss_subs : gmap nat eventSubscriber; ss_closed : gmap nat (Chan PeerEvent); ss_nextID : nat }.

Definition SubscribeEvents (buffer : Z) (s : Subscriptions) : nat * Subscriptions :=
  let id := S (ss_nextID s) in
  let buffer := if buffer <? 1 then 1 else buffer in
  (id, mkSubscriptions (<[id := mkSubscriber (mkChan (Z.to_nat buffer) []) ∅]> (ss_subs s)) (ss_closed s) id).
Definition UnsubscribeEvents (id : nat) (s : Subscriptions) : Subscriptions :=
  match ss_subs s !! id with
  | Some sub => mkSubscriptions (delete id (ss_subs s)) (<[id := sub_ch sub]> (ss_closed s)) (ss_nextID s)
  | None => s
  end.

(** What happens to the events of one subscriber, for the statements. *)
Inductive Delivery := Delivered (e : PeerEvent) | Dropped (e : PeerEvent).

Definition set_peer (peer : string) (st : eventSubscriberPeerState) (sub : eventSubscriber) : eventSubscriber :=
  mkSubscriber (sub_ch sub) (<[peer := st]> (sub_peers sub)).
Definition set_ch (ch : Chan PeerEvent) (sub : eventSubscriber) : eventSubscriber :=
  mkSubscriber ch (sub_peers sub).

(** [handleEvent]'s last delivery: the normal event behind any gap. *)
Definition publish_normal (received : PeerEvent) (state : eventSubscriberPeerState) (sub : eventSubscriber)
    : list Delivery * eventSubscriber :=
  let peer := pe_PeerID received in
  match try_send (sub_ch sub) received with
  | Some ch => ([Delivered received], mkSubscriber ch (delete peer (sub_peers sub)))
  | None =>
      ([Dropped received],
       set_peer peer (if ps_gapPending state then state else mkPeerState true (ps_gapPending state)) sub)
  end.

(** The body of [handleEvent]'s loop for one subscriber. *)
Definition publish_to (received : PeerEvent) (sub : eventSubscriber) : list Delivery * eventSubscriber :=
  let peer := pe_PeerID received in
  let state := default zero_state (sub_peers sub !! peer) in
  if String.eqb (evt_Name (pe_Event received)) EventGapName then
    match try_send (sub_ch sub) received with
    | Some ch => ([Delivered received], set_peer peer (mkPeerState false true) (set_ch ch sub))
    | None => ([Dropped received], set_peer peer (mkPeerState true false) sub)
    end
  else if ps_dirty state then
    let gap := mkPeerEvent peer (mkEvent EventGapName "") in
    match try_send (sub_ch sub) gap with
    | None => ([Dropped received], set_peer peer state sub)
    | Some ch =>
        let '(obs, sub') := publish_normal received (mkPeerState false true) (set_ch ch sub) in
        (Delivered gap :: obs, sub')
    end
  else publish_normal received state sub.

Definition publish_all (received : PeerEvent) (s : Subscriptions) : Subscriptions :=
  mkSubscriptions ((λ sub, (publish_to received sub).2) <$> ss_subs s) (ss_closed s) (ss_nextID s).

(** [handleEvent] *)
Definition handleEvent (env : Envelope) (event : option Event) (w : Conn) (s : Subscriptions) : Conn * Subscriptions :=
  match admit_event env event (cn_runtime w) with
  | None => (disconnect w, s)
  | Some e => (w, publish_all (mkPeerEvent (rt_peer (cn_runtime w)) e) s)
  end.

(** The subscriber reads its channel, open or closed. *)
Definition receive_event (id : nat) (s : Subscriptions) : option (PeerEvent * Subscriptions) :=
  match ss_subs s !! id with
  | Some sub =>
      '(e, ch) ← try_recv (sub_ch sub);
      Some (e, mkSubscriptions (<[id := set_ch ch sub]> (ss_subs s)) (ss_closed s) (ss_nextID s))
  | None =>
      ch ← ss_closed s !! id; '(e, ch') ← try_recv ch;
      Some (e, mkSubscriptions (ss_subs s) (<[id := ch']> (ss_closed s)) (ss_nextID s))
  end.
