(* ===== verification/PeerEventFacts.v ===== *)
(** Events are at most once, but no loss is silent: the sender's queue and the
    receiver's subscriptions both put a gap marker where events are missing. *)

From S2P Require Import Prelude GoText PeerRegistry PeerRpc PeerEvents.
From stdpp Require Import base gmap strings list fin_maps.
From Stdlib Require Import ZArith Lia Ascii.

Open Scope Z_scope.

(** ** Runs of the sending side *)

Inductive EventObs :=
| ObsAccept (e : OutEvent)  (* put into the queue *)
| ObsLost (e : OutEvent)    (* refused with backpressure *)
| ObsWire (e : OutEvent)    (* written to the connection *)
| ObsConfirm (e : OutEvent) (* reported to [eventDelivered] *).

Definition pick_accept (o : EventObs) : option OutEvent := match o with ObsAccept e => Some e | _ => None end.
Definition pick_confirm (o : EventObs) : option OutEvent := match o with ObsConfirm e => Some e | _ => None end.
Definition accepted (l : list EventObs) : list OutEvent := omap pick_accept l.
Definition confirmed (l : list EventObs) : list OutEvent := omap pick_confirm l.

(** What an operation added to the queue. *)
Definition new_entries (s s' : EventSide) : list EventObs :=
  ObsAccept <$> drop (length (ch_buf (es_queue s))) (ch_buf (es_queue s')).
Definition lost_entry (res : result CallErr unit) (e : OutEvent) : list EventObs :=
  match res with Err ErrBackpressure => [ObsLost e] | _ => [] end.

Inductive event_step : EventSide → list EventObs → EventSide → Prop :=
| es_send e s res s' :
    enqueueEvent e s = (res, s') → event_step s (new_entries s s' ++ lost_entry res e) s'
| es_take e s s' : event_take s = Some (e, s') → event_step s [] s'
| es_wire e s s' : event_wired s = Some (e, s') → event_step s [ObsWire e] s'
| es_confirm e s s' :
    event_confirm s = Some (e, s') → event_step s (ObsConfirm e :: new_entries s s') s'
| es_close s : event_step s [] (close_events s).

Inductive event_run (s : EventSide) : list EventObs → EventSide → Prop :=
| er_nil : event_run s [] s
| er_snoc l s' o s'' : event_run s l s' → event_step s' o s'' → event_run s (l ++ o) s''.

Definition gaps (l : list OutEvent) : nat := length (filter (λ e, oe_gap e = true) l).

(** The queue, behind what the writer holds. *)
Definition in_flight (s : EventSide) : list OutEvent := option_list (es_writing s) ++ ch_buf (es_queue s).

(** A gap has been accepted and not confirmed. *)
Definition gap_outstanding (l : list EventObs) : Prop := (gaps (confirmed l) < gaps (accepted l))%nat.
Definition gap_accepted (l : list EventObs) : Prop := ∃ g, ObsAccept g ∈ l ∧ oe_gap g = true.
Definition gap_confirmed (l : list EventObs) : Prop := ∃ g, ObsConfirm g ∈ l ∧ oe_gap g = true.

(** How the two marks follow the queue. *)
Record marks_ok (s : EventSide) : Prop := {
  mo_gaps : es_done s = false → gaps (in_flight s) = if es_gapSent s then 1%nat else 0%nat;
  mo_exclusive : es_done s = false → es_dirty s = true → es_gapSent s = false;
}.

Definition loss_open (s : EventSide) : Prop := es_dirty s = true ∨ es_gapSent s = true.

(** Each loss in the trace, seen from the current state. *)
Record losses_ok (l : list EventObs) (s : EventSide) : Prop := {
  lo_fifo : accepted l = confirmed l ++ in_flight s;
  lo_open : es_done s = false → ∀ pre e post, l = pre ++ ObsLost e :: post → loss_open s ∨ gap_confirmed post;
  lo_first : es_done s = false → ∀ pre e post, l = pre ++ ObsLost e :: post →
    es_dirty s = true ∨ gap_accepted post ∨ gap_outstanding pre;
  lo_order : ∀ pre e mid e' post, l = pre ++ ObsLost e :: mid ++ ObsAccept e' :: post →
    oe_gap e' = false → gap_accepted mid ∨ gap_outstanding pre;
}.

(** ** Primitive transitions

    Every operation is a few of these, each with at most one observation. *)

Inductive prim : EventSide → list EventObs → EventSide → Prop :=
| p_gap c b d w x e : oe_gap e = true → (length b < c)%nat →
    prim (mkEventSide (mkChan c b) d false false w x) [ObsAccept e]
         (mkEventSide (mkChan c (b ++ [e])) false true false w x)
| p_normal c b g w x e : oe_gap e = false → (length b < c)%nat →
    prim (mkEventSide (mkChan c b) false g false w x) [ObsAccept e]
         (mkEventSide (mkChan c (b ++ [e])) false g false w x)
| p_lose c b d g w x e : (c ≤ length b)%nat →
    prim (mkEventSide (mkChan c b) d g false w x) [ObsLost e] (mkEventSide (mkChan c b) (d || negb g) g false w x)
| p_take c e b d g x : prim (mkEventSide (mkChan c (e :: b)) d g false None x) []
                          (mkEventSide (mkChan c b) d g false (Some e) false)
| p_wire q d g f e : prim (mkEventSide q d g f (Some e) false) [ObsWire e] (mkEventSide q d g f (Some e) true)
| p_confirm q d g e x : prim (mkEventSide q d g false (Some e) x) [ObsConfirm e]
    (mkEventSide q d (g && negb (oe_gap e)) false None false)
| p_confirm_closed q d g e x : prim (mkEventSide q d g true (Some e) x) [ObsConfirm e]
    (mkEventSide q false false true None false)
| p_close q d g w x : prim (mkEventSide q d g false w x) [] (mkEventSide q false false true w x).

Inductive prims (s : EventSide) : list EventObs → EventSide → Prop :=
| pr_nil : prims s [] s
| pr_snoc l s' o s'' : prims s l s' → prim s' o s'' → prims s (l ++ o) s''.

Lemma prims_one s o s' : prim s o s' → prims s o s'.
Proof. intros Hp. apply (pr_snoc _ [] s); [constructor|done]. Qed.
Lemma prims_app s l s' l' s'' : prims s l s' → prims s' l' s'' → prims s (l ++ l') s''.
Proof.
  intros H1 H2. induction H2 as [|l' s1 o s2 H2 IH Hp]; [by rewrite app_nil_r|].
  rewrite app_assoc. by eapply pr_snoc.
Qed.

Lemma drop_new {A} (b l : list A) : drop (length b) (b ++ l) = l.
Proof. by rewrite drop_app_length. Qed.
Lemma full_queue {A} (c : nat) (b : list A) x : try_send (mkChan c b) x = None → (c ≤ length b)%nat.
Proof. by intros ?%try_send_None. Qed.

Ltac queue_case q x :=
  let Hs := fresh "Hroom" in
  destruct (try_send q x) eqn:Hs; [apply try_send_Some in Hs as [? ->]|apply try_send_None in Hs]; simpl in *.
Ltac queue_room :=
  match goal with
  | H : context [try_send ?q ?x] |- _ => queue_case q x
  | |- context [try_send ?q ?x] => queue_case q x
  end.

Lemma enqueue_normal_prims e c b g w x res s' :
  oe_gap e = false →
  enqueue_normal e (mkEventSide (mkChan c b) false g false w x) = (res, s') →
  ∃ l, ch_buf (es_queue s') = b ++ l ∧
    prims (mkEventSide (mkChan c b) false g false w x) ((ObsAccept <$> l) ++ lost_entry res e) s'.
Proof.
  unfold enqueue_normal, tryEnqueueEvent. simpl. intros Hn He. queue_room; simplify_eq/=.
  - exists [e]. split; [done|]. simpl. by apply prims_one, p_normal.
  - exists []. rewrite app_nil_r. split; [by destruct g|]. simpl. apply prims_one.
    pose proof (p_lose c b false g w x e Hroom) as Hl. by destruct g.
Qed.

Lemma enqueue_prims e s res s' :
  enqueueEvent e s = (res, s') → (es_done s = false → es_dirty s = true → es_gapSent s = false) →
  prims s (new_entries s s' ++ lost_entry res e) s'.
Proof.
  destruct s as [[c b] d g f w x]. unfold enqueueEvent, new_entries. simpl. intros He Hx.
  destruct f; [simplify_eq/=; rewrite drop_all; constructor|].
  destruct (oe_gap e) eqn:Hgap.
  - destruct g; [simplify_eq/=; rewrite drop_all; constructor|].
    unfold tryEnqueueEvent in He. simpl in He. queue_room; simplify_eq/=.
    + rewrite drop_new. by apply prims_one, p_gap.
    + rewrite drop_all. apply prims_one. pose proof (p_lose c b d false w x e Hroom) as Hl.
      by rewrite orb_true_r in Hl.
  - destruct d; simpl in He; [rewrite (Hx eq_refl eq_refl) in *; simpl in He|].
    + unfold tryEnqueueEvent in He. simpl in He. queue_room; simplify_eq/=.
      * destruct (enqueue_normal_prims _ _ _ _ _ _ _ _ Hgap He) as (l & -> & Hp).
        rewrite <- app_assoc, drop_new. simpl.
        exact (prims_app _ _ _ _ _ (prims_one _ _ _ (p_gap c b true w x meshGapEnvelope eq_refl H)) Hp).
      * rewrite drop_all. apply prims_one. exact (p_lose c b true false w x e Hroom).
    + destruct (enqueue_normal_prims _ _ _ _ _ _ _ _ Hgap He) as (l & -> & Hp). by rewrite drop_new.
Qed.

Lemma confirm_prims e s s' :
  event_confirm s = Some (e, s') → (es_done s = false → es_dirty s = true → es_gapSent s = false) →
  prims s (ObsConfirm e :: new_entries s s') s'.
Proof.
  destruct s as [[c b] d g f w x]. unfold event_confirm, new_entries. simpl.
  destruct w as [e0|]; [|done]. simpl. destruct x; [|done]. intros [= -> <-] Hx.
  unfold eventDelivered. simpl. destruct f.
  { simpl. rewrite drop_all. apply prims_one, p_confirm_closed. }
  set (g' := g && negb (oe_gap e)).
  assert ((if oe_gap e then set_marks d false (mkEventSide (mkChan c b) d g false None false)
    else mkEventSide (mkChan c b) d g false None false) = mkEventSide (mkChan c b) d g' false None false) as ->.
  { unfold g'. by destruct (oe_gap e), g. }
  pose proof (prims_one _ _ _ (p_confirm (mkChan c b) d g e true)) as Hc. fold g' in Hc. simpl.
  destruct (d && negb g') eqn:Hd; simpl.
  - apply andb_true_iff in Hd as [-> Hg]. apply negb_true_iff in Hg. rewrite Hg in *.
    unfold tryEnqueueEvent. simpl. queue_room; simpl.
    + rewrite drop_new. exact (prims_app _ _ _ _ _ Hc (prims_one _ _ _ (p_gap c b true None false meshGapEnvelope eq_refl H))).
    + by rewrite drop_all.
  - by rewrite drop_all.
Qed.

Lemma step_prims s o s' :
  event_step s o s' → (es_done s = false → es_dirty s = true → es_gapSent s = false) → prims s o s'.
Proof.
  intros Hst Hx. destruct Hst as [e s res s' He|e s s' Ht|e s s' Ht|e s s' Ht|s].
  - by apply enqueue_prims.
  - destruct s as [[c [|x b]] d g [] [w|] wired]; unfold event_take in Ht; simpl in Ht; try done.
    simplify_eq. apply prims_one, p_take.
  - destruct s as [q d g f [w|] []]; unfold event_wired in Ht; simpl in Ht; try done.
    simplify_eq. apply prims_one, p_wire.
  - by apply confirm_prims.
  - destruct s as [q d g [] w wired]; unfold close_events; simpl; [constructor|]. apply prims_one, p_close.
Qed.

Lemma gaps_app l1 l2 : gaps (l1 ++ l2) = (gaps l1 + gaps l2)%nat.
Proof. unfold gaps. by rewrite filter_app, length_app. Qed.
Lemma gaps_nil : gaps [] = 0%nat.
Proof. done. Qed.
Lemma gaps_one e : gaps [e] = if oe_gap e then 1%nat else 0%nat.
Proof. unfold gaps. rewrite filter_cons. by destruct (oe_gap e). Qed.
Lemma gaps_cons e l : gaps (e :: l) = ((if oe_gap e then 1 else 0) + gaps l)%nat.
Proof. rewrite <- gaps_one. apply (gaps_app [e]). Qed.

Lemma prim_marks s o s' : prim s o s' → marks_ok s → marks_ok s'.
Proof.
  intros Hp [Hg Hx]. destruct Hp; split; simpl in *; intros Hd; try discriminate;
    specialize (Hg Hd); specialize (Hx Hd); unfold in_flight in *; simpl in *;
    rewrite ?gaps_app, ?gaps_cons in *; simpl in *; try done; try intros Hdirty.
  - rewrite H, gaps_nil. lia.
  - rewrite H, gaps_nil. lia.
  - destruct d, g; simpl in *; try done. auto.
  - destruct (oe_gap e), g; simpl in *; lia.
  - by rewrite Hx.
Qed.

Lemma snoc_split {A} (l : list A) x pre y post :
  l ++ [x] = pre ++ y :: post →
  (post = [] ∧ pre = l ∧ x = y) ∨ ∃ post', post = post' ++ [x] ∧ l = pre ++ y :: post'.
Proof.
  destruct post as [|z post' _] using rev_ind.
  - intros [-> [= ->]]%app_inj_tail. by left.
  - rewrite app_comm_cons, app_assoc. intros [-> ->]%app_inj_tail. right. by exists post'.
Qed.

Lemma gap_accepted_app l o : gap_accepted l → gap_accepted (l ++ o).
Proof. intros (g & Hin & Hg). exists g. rewrite elem_of_app. auto. Qed.
Lemma gap_confirmed_app l o : gap_confirmed l → gap_confirmed (l ++ o).
Proof. intros (g & Hin & Hg). exists g. rewrite elem_of_app. auto. Qed.
Lemma accepted_app l o : accepted (l ++ o) = accepted l ++ accepted o.
Proof. apply omap_app. Qed.
Lemma confirmed_app l o : confirmed (l ++ o) = confirmed l ++ confirmed o.
Proof. apply omap_app. Qed.

(** A property of every loss in the trace, when one more observation is made. *)
Lemma losses_snoc (P Q : list EventObs → list EventObs → Prop) l o :
  (length o ≤ 1)%nat →
  (∀ pre e post, l = pre ++ ObsLost e :: post → P pre post) →
  (∀ pre post, P pre post → Q pre (post ++ o)) →
  (∀ e, o = [ObsLost e] → Q l []) →
  ∀ pre e post, l ++ o = pre ++ ObsLost e :: post → Q pre post.
Proof.
  intros Ho HP HPQ Hnew pre e post Heq. destruct o as [|x [|y o]]; [| |simpl in Ho; lia].
  - rewrite app_nil_r in Heq. rewrite <- (app_nil_r post). eauto.
  - apply snoc_split in Heq as [(-> & -> & ->)|(post' & -> & ->)]; eauto.
Qed.

Lemma prim_length s o s' : prim s o s' → (length o ≤ 1)%nat.
Proof. intros []; simpl; lia. Qed.
Lemma gap_seen_accept e l : oe_gap e = true → gap_accepted (l ++ [ObsAccept e]).
Proof. intros He. exists e. rewrite elem_of_app, list_elem_of_singleton. auto. Qed.
Lemma gap_seen_confirm e l : oe_gap e = true → gap_confirmed (l ++ [ObsConfirm e]).
Proof. intros He. exists e. rewrite elem_of_app, list_elem_of_singleton. auto. Qed.

Lemma prim_fifo s o s' l : prim s o s' → accepted l = confirmed l ++ in_flight s →
  accepted (l ++ o) = confirmed (l ++ o) ++ in_flight s'.
Proof.
  intros Hp Hf. rewrite accepted_app, confirmed_app, Hf. unfold in_flight.
  destruct Hp; simpl; rewrite <- ?app_assoc, ?app_nil_r; done.
Qed.

Lemma prim_open s o s' l : prim s o s' → losses_ok l s →
  es_done s' = false → ∀ pre e post, l ++ o = pre ++ ObsLost e :: post → loss_open s' ∨ gap_confirmed post.
Proof.
  intros Hp [_ Ho _ _] Hd. apply (losses_snoc (λ pre post, loss_open s ∨ gap_confirmed post)).
  - by eapply prim_length.
  - intros pre e post. apply Ho. by destruct Hp.
  - intros pre post [Hs|Hs]; [|right; by apply gap_confirmed_app].
    unfold loss_open in *. destruct Hp; simpl in *; try discriminate; auto; try tauto.
    + destruct d, g; simpl; tauto.
    + destruct Hs as [Hs|Hs]; rewrite Hs; [auto|]. destruct (oe_gap e) eqn:He; [right; by apply gap_seen_confirm|auto].
  - intros e ->. left. unfold loss_open. inversion Hp; subst; simpl. destruct d, g; auto.
Qed.

Lemma prim_first s o s' l : prim s o s' → marks_ok s → losses_ok l s →
  es_done s' = false → ∀ pre e post, l ++ o = pre ++ ObsLost e :: post →
  es_dirty s' = true ∨ gap_accepted post ∨ gap_outstanding pre.
Proof.
  intros Hp [Hg _] [Hf _ Hfirst _] Hd.
  apply (losses_snoc (λ pre post, es_dirty s = true ∨ gap_accepted post ∨ gap_outstanding pre)).
  - by eapply prim_length.
  - intros pre e post. apply Hfirst. by destruct Hp.
  - intros pre post [Hs|[Hs|Hs]]; [|right; left; by apply gap_accepted_app|auto].
    destruct Hp; simpl in *; try discriminate; auto.
    + right. left. by apply gap_seen_accept.
    + rewrite Hs. auto.
  - intros e ->. inversion Hp; subst; simpl in *. destruct g; [|left; by destruct d].
    right. right. unfold gap_outstanding. rewrite Hf, gaps_app, (Hg eq_refl). lia.
Qed.

Lemma prim_order s o s' l : prim s o s' → losses_ok l s →
  ∀ pre e mid e' post, l ++ o = pre ++ ObsLost e :: mid ++ ObsAccept e' :: post →
  oe_gap e' = false → gap_accepted mid ∨ gap_outstanding pre.
Proof.
  intros Hp [_ _ Hfirst Horder] pre e mid e' post Heq He'.
  destruct o as [|x [|y o]]; [|  |by apply prim_length in Hp; simpl in Hp; lia].
  { rewrite app_nil_r in Heq. eauto. }
  rewrite app_comm_cons, app_assoc in Heq. apply snoc_split in Heq as [(-> & Hl & ->)|(post' & -> & Hl)].
  - symmetry in Hl. pose proof (λ Hd, Hfirst Hd _ _ _ Hl) as Hthis. clear Hl Hfirst Horder.
    inversion Hp; subst; simpl in *; [congruence|]. destruct (Hthis eq_refl) as [|]; [done|auto].
  - rewrite <- app_assoc in Hl. simpl in Hl. eauto.
Qed.

Lemma prim_losses s o s' l : prim s o s' → marks_ok s → losses_ok l s → losses_ok (l ++ o) s'.
Proof.
  intros Hp Hm Hl. split.
  - by eapply prim_fifo, Hl.
  - by eapply prim_open.
  - by eapply prim_first.
  - by eapply prim_order.
Qed.

Lemma prims_ok s l s' l0 : prims s l s' → marks_ok s → losses_ok l0 s → marks_ok s' ∧ losses_ok (l0 ++ l) s'.
Proof.
  intros Hp Hm Hl. induction Hp as [|l s1 o s2 _ [IHm IHl] Hp]; [by rewrite app_nil_r|].
  split; [by eapply prim_marks|]. rewrite app_assoc. by eapply prim_losses.
Qed.

(** A pending mark always has something ahead of it that will flush it. *)
Definition pend_ok (s : EventSide) : Prop :=
  (0 < ch_cap (es_queue s))%nat ∧ (es_done s = false → es_dirty s = true → in_flight s ≠ []).

Lemma prims_pending s l s' : prims s l s' → (∀ e, ObsConfirm e ∉ l) → pend_ok s → pend_ok s'.
Proof.
  intros Hp Hn Hs. induction Hp as [|l s1 o s2 _ IH Hp]; [done|].
  setoid_rewrite elem_of_app in Hn. destruct IH as [Hc Hq]; [naive_solver|]. unfold pend_ok, in_flight in *.
  destruct Hp; simpl in *; split; try done; try (destruct w; done).
  - intros _ _. destruct w; [done|]. simpl. destruct b; [simpl in *; lia|done].
  - destruct (Hn e). right. apply list_elem_of_here.
Qed.

Lemma confirm_pending e s s' : event_confirm s = Some (e, s') → marks_ok s → pend_ok s → pend_ok s'.
Proof.
  destruct s as [[c b] d g f [w|] []]; unfold event_confirm; simpl; try done. intros [= -> <-] [_ Hx] [Hc _].
  unfold eventDelivered, pend_ok in *. simpl in *. destruct f; [done|].
  assert (∀ g0, (if oe_gap e then set_marks d false (mkEventSide (mkChan c b) d g0 false None false)
    else mkEventSide (mkChan c b) d g0 false None false) =
    mkEventSide (mkChan c b) d (g0 && negb (oe_gap e)) false None false) as -> by (intros []; by destruct (oe_gap e)).
  simpl. destruct d; [|done]. rewrite (Hx eq_refl eq_refl) in *. simpl.
  unfold tryEnqueueEvent. simpl. queue_room; split; try done. intros _ _. unfold in_flight. simpl.
  destruct b; [simpl in *; lia|done].
Qed.

Lemma no_confirm s s' res e0 e : ObsConfirm e ∉ new_entries s s' ++ lost_entry res e0.
Proof.
  unfold new_entries. rewrite elem_of_app, list_elem_of_fmap. intros [(? & ? & _)|Hin]; [done|].
  destruct res as [[]|[]]; simpl in Hin; rewrite ?list_elem_of_singleton in Hin; by try apply elem_of_nil in Hin.
Qed.

Lemma step_pending s o s' : event_step s o s' → marks_ok s → pend_ok s → pend_ok s'.
Proof.
  intros Hst Hm Hs. pose proof (step_prims _ _ _ Hst (mo_exclusive s Hm)) as Hp.
  destruct Hst as [e s res s' He|e s s' Ht|e s s' Ht|e s s' Ht|s].
  - eapply prims_pending; [exact Hp| |done]. intros e'. apply no_confirm.
  - eapply prims_pending; [exact Hp| |done]. intros e'. apply not_elem_of_nil.
  - eapply prims_pending; [exact Hp| |done]. intros e'. by rewrite list_elem_of_singleton.
  - by eapply confirm_pending.
  - eapply prims_pending; [exact Hp| |done]. intros e'. apply not_elem_of_nil.
Qed.

Lemma run_ok queue l s : (0 < queue)%nat → event_run (new_event_side queue) l s →
  marks_ok s ∧ losses_ok l s ∧ pend_ok s.
Proof.
  intros Hq Hr. induction Hr as [|l s o s' _ (Hm & Hl & Hp) Hst].
  - split_and!; [by split| |by split]. split; try done; intros; by destruct pre.
  - pose proof (step_prims _ _ _ Hst (mo_exclusive s Hm)) as Hpr.
    destruct (prims_ok _ _ _ _ Hpr Hm Hl). split_and!; [done..|]. by eapply step_pending.
Qed.

(** C12: No event is lost silently on the way out. On an open connection with any
    interleaving of producers and the writer: events leave in the order they were
    accepted; at most one gap is unconfirmed; an event accepted after a loss
    stands behind a gap that was not yet confirmed when the loss happened or was
    queued since; and once the writer has caught up, a gap has been confirmed
    after every loss and none is pending. *)
Theorem events_loss_signalled queue l s :
  (0 < queue)%nat → event_run (new_event_side queue) l s → es_done s = false →
  accepted l = confirmed l ++ in_flight s ∧
  (gaps (accepted l) ≤ S (gaps (confirmed l)))%nat ∧
  (∀ pre e mid e' post, l = pre ++ ObsLost e :: mid ++ ObsAccept e' :: post → oe_gap e' = false →
     gap_accepted mid ∨ gap_outstanding pre) ∧
  (in_flight s = [] →
     es_dirty s = false ∧ es_gapSent s = false ∧
     ∀ pre e post, l = pre ++ ObsLost e :: post → gap_confirmed post).
Proof.
  intros Hq Hr Hd. destruct (run_ok _ _ _ Hq Hr) as ([Hg Hx] & [Hf Ho _ Hor] & [_ Hp]).
  specialize (Hg Hd). split_and!; [done| |done|].
  - rewrite Hf, gaps_app, Hg. destruct (es_gapSent s); lia.
  - intros He. rewrite He in *.
    assert (es_dirty s = false) as H1 by (destruct (es_dirty s); [by destruct (Hp Hd eq_refl)|done]).
    assert (es_gapSent s = false) as H2 by (destruct (es_gapSent s); [by rewrite gaps_nil in Hg|done]).
    split_and!; [done..|]. intros pre e post Hl. destruct (Ho Hd _ _ _ Hl) as [[|]|]; [congruence..|done].
Qed.

(** ** The writer on its own *)

Definition writer_step (s : EventSide) : option (list EventObs * EventSide) :=
  match event_confirm s with
  | Some (e, s') => Some (ObsConfirm e :: new_entries s s', s')
  | None =>
      match event_wired s with
      | Some (e, s') => Some ([ObsWire e], s')
      | None => match event_take s with Some (_, s') => Some ([], s') | None => None end
      end
  end.
Fixpoint writer_run (fuel : nat) (s : EventSide) : list EventObs * EventSide :=
  match fuel, writer_step s with
  | S fuel, Some (o, s') => let '(l, s'') := writer_run fuel s' in (o ++ l, s'')
  | _, _ => ([], s)
  end.

Definition writer_work (s : EventSide) : nat :=
  3 * length (ch_buf (es_queue s)) + (match es_writing s with None => 0 | Some _ => if es_wired s then 1 else 2 end)
  + (if es_dirty s then 3 else 0).

Lemma writer_step_ok s o s' : writer_step s = Some (o, s') → event_step s o s'.
Proof.
  unfold writer_step. destruct (event_confirm s) as [[e s1]|] eqn:Hc; [intros [= <- <-]; by apply es_confirm|].
  destruct (event_wired s) as [[e s1]|] eqn:Hw; [intros [= <- <-]; by apply es_wire|].
  destruct (event_take s) as [[e s1]|] eqn:Ht; [|done]. intros [= <- <-]. by eapply es_take.
Qed.

Lemma writer_step_work s o s' : writer_step s = Some (o, s') → es_done s = false →
  es_done s' = false ∧ (writer_work s' < writer_work s)%nat.
Proof.
  destruct s as [[c b] d g f w x]. unfold writer_step, event_confirm, event_wired, event_take, writer_work.
  simpl. intros Hs ->. destruct w as [e|]; simpl in Hs; [destruct x; simpl in Hs|].
  - simplify_eq. unfold eventDelivered. simpl.
    destruct (oe_gap e), d, g; simpl; unfold tryEnqueueEvent; simpl; try (split; [done|lia]);
      queue_room; rewrite ?length_app; simpl; (split; [done|lia]).
  - simplify_eq/=. split; [done|lia].
  - destruct b as [|e b]; simpl in Hs; [done|]. simplify_eq/=. split; [done|lia].
Qed.

Lemma writer_stuck s : writer_step s = None → es_done s = false → in_flight s = [].
Proof.
  destruct s as [[c b] d g f w x]. unfold writer_step, event_confirm, event_wired, event_take, in_flight.
  simpl. intros Hs ->. destruct w as [e|]; simpl in Hs; [by destruct x|]. by destruct b.
Qed.

Lemma event_run_app s l s' l' s'' : event_run s l s' → event_run s' l' s'' → event_run s (l ++ l') s''.
Proof.
  intros H1 H2. induction H2 as [|l' s1 o s2 H2 IH Hp]; [by rewrite app_nil_r|].
  rewrite app_assoc. by eapply er_snoc.
Qed.

(** A lossy burst is always repaired without further traffic: from any state
    of an open connection the writer alone, in at most three steps per queued
    event and eight more, empties the queue with every mark cleared. *)
Theorem writer_catches_up queue l s :
  (0 < queue)%nat → event_run (new_event_side queue) l s → es_done s = false →
  let '(l', s') := writer_run (3 * length (ch_buf (es_queue s)) + 8) s in
  event_run (new_event_side queue) (l ++ l') s' ∧ in_flight s' = [] ∧
  es_dirty s' = false ∧ es_gapSent s' = false.
Proof.
  intros Hq Hr Hd.
  assert (writer_work s ≤ 3 * length (ch_buf (es_queue s)) + 8)%nat as Hw
    by (unfold writer_work; repeat case_match; lia).
  assert (∀ fuel s, (writer_work s ≤ fuel)%nat → es_done s = false →
    let '(l', s') := writer_run fuel s in event_run s l' s' ∧ in_flight s' = [] ∧ es_done s' = false) as Hrun.
  { clear. induction fuel as [|fuel IH]; intros s Hw Hd; simpl.
    - destruct (writer_step s) as [[o s']|] eqn:Hs; [|by split_and!; [constructor|apply writer_stuck|]].
      destruct (writer_step_work _ _ _ Hs Hd). lia.
    - destruct (writer_step s) as [[o s']|] eqn:Hs; [|by split_and!; [constructor|apply writer_stuck|]].
      destruct (writer_step_work _ _ _ Hs Hd) as [Hd' Hlt]. specialize (IH s' ltac:(lia) Hd').
      destruct (writer_run fuel s') as [l' s'']. destruct IH as (Hr & ? & ?). split_and!; try done.
      apply (event_run_app _ _ s'); [|done]. apply (er_snoc _ [] s); [constructor|]. by apply writer_step_ok. }
  specialize (Hrun _ s Hw Hd). destruct (writer_run _ s) as [l' s']. destruct Hrun as (Hr' & Hi & Hd').
  pose proof (event_run_app _ _ _ _ _ Hr Hr') as Hall. destruct (run_ok _ _ _ Hq Hall) as ([Hg Hx] & _ & [_ Hp]).
  split_and!; [done..| |].
  - destruct (es_dirty s'); [by destruct (Hp Hd' eq_refl)|done].
  - specialize (Hg Hd'). rewrite Hi, gaps_nil in Hg. by destruct (es_gapSent s').
Qed.

(** ** Schedules: concrete interleavings *)

Inductive EventAct := ActSend (e : OutEvent) | ActTake | ActWire | ActConfirm.
Definition act_run (a : EventAct) (s : EventSide) : list EventObs * EventSide :=
  match a with
  | ActSend e => let '(res, s') := enqueueEvent e s in (new_entries s s' ++ lost_entry res e, s')
  | ActTake => match event_take s with Some (_, s') => ([], s') | None => ([], s) end
  | ActWire => match event_wired s with Some (e, s') => ([ObsWire e], s') | None => ([], s) end
  | ActConfirm => match event_confirm s with
                  | Some (e, s') => (ObsConfirm e :: new_entries s s', s') | None => ([], s) end
  end.
Fixpoint schedule (l : list EventAct) (s : EventSide) : list EventObs * EventSide :=
  match l with
  | [] => ([], s)
  | a :: l => let '(o, s1) := act_run a s in let '(o', s2) := schedule l s1 in (o ++ o', s2)
  end.

Lemma schedule_run l s : event_run s (schedule l s).1 (schedule l s).2.
Proof.
  assert (∀ o s s', event_step s o s' → event_run s o s') as Hone.
  { intros o s1 s2 Hst. apply (er_snoc _ [] s1); [constructor|done]. }
  revert s. induction l as [|a l IH]; intros s; simpl; [constructor|].
  assert (event_run s (act_run a s).1 (act_run a s).2) as Ha.
  { destruct a as [e| | |]; simpl.
    - destruct (enqueueEvent e s) as [res s'] eqn:He. by apply Hone, es_send.
    - destruct (event_take s) as [[e s']|] eqn:He; [|constructor]. by eapply Hone, es_take.
    - destruct (event_wired s) as [[e s']|] eqn:He; [|constructor]. by eapply Hone, es_wire.
    - destruct (event_confirm s) as [[e s']|] eqn:He; [|constructor]. by eapply Hone, es_confirm. }
  destruct (act_run a s) as [o s1]. specialize (IH s1). destruct (schedule l s1) as [o' s2].
  by eapply event_run_app.
Qed.

Definition plain (name : string) : OutEvent := mkOut (mkEvent name "") false.
Definition race_schedule : list EventAct :=
  [ActSend (plain "a"); ActSend (plain "b"); ActTake; ActWire; ActConfirm; ActTake; ActWire;
   ActSend (plain "c"); ActSend (plain "d"); ActConfirm; ActTake; ActWire; ActConfirm].

(** An event can be refused in the window in which a gap is on the wire and not
    yet reported: that gap's mark suppresses the loss, and no gap is ever written
    after it although the queue runs empty. *)
Lemma event_gap_race :
  let '(l, s) := schedule race_schedule (new_event_side 1) in
  event_run (new_event_side 1) l s ∧ in_flight s = [] ∧ es_dirty s = false ∧ es_done s = false ∧
  ∃ pre post, l = pre ++ ObsLost (plain "d") :: post ∧ ∀ g, oe_gap g = true → ObsWire g ∉ post.
Proof.
  pose proof (schedule_run race_schedule (new_event_side 1)) as Hr.
  destruct (schedule race_schedule (new_event_side 1)) as [l s] eqn:Hs. vm_compute in Hs. injection Hs as <- <-.
  split_and!; [exact Hr|done..|]. eexists [_; _; _; _; _; _; _], _. split; [reflexivity|].
  intros g Hg. rewrite !elem_of_cons, elem_of_nil. intros [|[[= ->]|[|[]]]]; done.
Qed.

(** ** Subscribers *)

Definition is_gap (e : PeerEvent) : bool := String.eqb (evt_Name (pe_Event e)) EventGapName.

(** Reading the deliveries of one peer: [lost] is whether something was dropped
    since its last normal event, [gap] whether the last thing delivered is a gap
    and no gap was dropped since, and [fine] whether every normal event after a
    loss came directly behind a gap. *)
Definition cover_step (peer : string) (st : bool * bool * bool) (d : Delivery) : bool * bool * bool :=
  let '(lost, gap, fine) := st in
  match d with
  | Delivered e =>
      if negb (String.eqb (pe_PeerID e) peer) then st
      else if is_gap e then (lost, true, fine) else (false, false, fine && (negb lost || gap))
  | Dropped e =>
      if negb (String.eqb (pe_PeerID e) peer) then st else (true, gap && negb (is_gap e), fine)
  end.
Definition cover (peer : string) (l : list Delivery) : bool * bool * bool :=
  foldl (cover_step peer) (false, false, true) l.
Definition covered (peer : string) (l : list Delivery) : Prop := (cover peer l).2 = true.

Definition pick_delivered (d : Delivery) : option PeerEvent := match d with Delivered e => Some e | _ => None end.
Definition delivered (l : list Delivery) : list PeerEvent := omap pick_delivered l.

(** The subscriber's view of a peer agrees with what happened. *)
Definition tracks (peer : string) (l : list Delivery) (peers : gmap string eventSubscriberPeerState) : Prop :=
  let st := default zero_state (peers !! peer) in
  let '(lost, gap, fine) := cover peer l in
  fine = true ∧ (lost = true → ps_dirty st = true ∨ ps_gapPending st = true) ∧
  (ps_gapPending st = true → gap = true ∧ ps_dirty st = false).

Lemma cover_app peer l o : cover peer (l ++ o) = foldl (cover_step peer) (cover peer l) o.
Proof. apply foldl_app. Qed.
Lemma delivered_app l o : delivered (l ++ o) = delivered l ++ delivered o.
Proof. apply omap_app. Qed.

Lemma tracks_other peer e l o peers peers' :
  pe_PeerID e ≠ peer → Forall (λ d, d = Delivered e ∨ d = Dropped e ∨
    d = Delivered (mkPeerEvent (pe_PeerID e) (mkEvent EventGapName ""))) o →
  peers' !! peer = peers !! peer → tracks peer l peers → tracks peer (l ++ o) peers'.
Proof.
  intros Hne Ho Hp. unfold tracks. rewrite cover_app, Hp.
  assert (∀ st, foldl (cover_step peer) st o = st) as ->; [|done].
  clear -Hne Ho. apply String.eqb_neq in Hne. induction Ho as [|d o Hd _ IH]; intros [[lost gap] fine]; [done|].
  simpl. rewrite <- IH. f_equal. destruct Hd as [->|[->| ->]]; simpl; by rewrite Hne.
Qed.

Lemma publish_normal_tracks e sub st l :
  is_gap e = false →
  tracks (pe_PeerID e) l (<[pe_PeerID e := st]> (sub_peers sub)) → ps_dirty st = false →
  tracks (pe_PeerID e) (l ++ (publish_normal e st sub).1) (sub_peers (publish_normal e st sub).2).
Proof.
  unfold tracks, publish_normal. intros Hg. rewrite lookup_insert_eq. simpl. intros Ht Hd.
  destruct (cover (pe_PeerID e) l) as [[lost gap] fine] eqn:Hc. destruct Ht as (-> & Hl & Hgp).
  destruct (try_send _ _); simpl; rewrite cover_app, Hc; simpl; rewrite String.eqb_refl, Hg; simpl.
  - rewrite lookup_delete_eq. simpl. split_and!; [|done..]. destruct lost; [|done]. simpl.
    destruct (Hl eq_refl) as [|Hp]; [congruence|]. by destruct (Hgp Hp).
  - rewrite lookup_insert_eq. simpl. destruct (ps_gapPending st) eqn:Hp; simpl.
    + destruct (Hgp eq_refl) as [-> _]. rewrite Hp. auto.
    + split_and!; auto; done.
Qed.

Lemma tracks_state peer l peers st :
  peers !! peer = Some st ∨ (peers !! peer = None ∧ st = zero_state) →
  tracks peer l peers → tracks peer l (<[peer := st]> peers).
Proof. unfold tracks. rewrite lookup_insert_eq. intros [->|[-> ->]]; done. Qed.

Lemma publish_to_tracks e sub l :
  tracks (pe_PeerID e) l (sub_peers sub) →
  tracks (pe_PeerID e) (l ++ (publish_to e sub).1) (sub_peers (publish_to e sub).2).
Proof.
  intros Ht. unfold publish_to. set (st := default zero_state _).
  assert (tracks (pe_PeerID e) l (<[pe_PeerID e := st]> (sub_peers sub))) as Ht'.
  { apply tracks_state; [|done]. unfold st. destruct (sub_peers sub !! _); auto. }
  fold (is_gap e). destruct (is_gap e) eqn:Hg.
  - revert Ht. unfold tracks. fold st. destruct (cover (pe_PeerID e) l) as [[lost gap] fine] eqn:Hc.
    intros (-> & _ & _). destruct (try_send _ _); simpl; rewrite cover_app, Hc; simpl;
      rewrite String.eqb_refl, Hg, lookup_insert_eq; simpl; auto.
    split_and!; auto; done.
  - destruct (ps_dirty st) eqn:Hd; [|by apply publish_normal_tracks].
    destruct (try_send (sub_ch sub) _) as [ch|] eqn:Hs; simpl.
    + destruct (publish_normal e (mkPeerState false true) (set_ch ch sub)) as [obs sub'] eqn:Hp. simpl.
      rewrite cons_middle, app_assoc.
      replace obs with (publish_normal e (mkPeerState false true) (set_ch ch sub)).1 by (by rewrite Hp).
      replace sub' with (publish_normal e (mkPeerState false true) (set_ch ch sub)).2 by (by rewrite Hp).
      apply publish_normal_tracks; [done| |done]. revert Ht'. unfold tracks. rewrite !lookup_insert_eq. simpl.
      rewrite cover_app. destruct (cover (pe_PeerID e) l) as [[lost gap] fine]. simpl. rewrite String.eqb_refl.
      unfold is_gap. simpl. intros (-> & _ & _). auto.
    + revert Ht'. unfold tracks. simpl. rewrite lookup_insert_eq. simpl. rewrite cover_app.
      destruct (cover (pe_PeerID e) l) as [[lost gap] fine]. simpl. rewrite String.eqb_refl, Hg, Hd. simpl.
      intros (-> & _ & Hgp). split_and!; auto. intros Hp. by destruct (Hgp Hp).
Qed.

Lemma publish_to_others e sub peer :
  peer ≠ pe_PeerID e → sub_peers (publish_to e sub).2 !! peer = sub_peers sub !! peer.
Proof.
  intros Hne. unfold publish_to, publish_normal. repeat case_match; simplify_eq/=;
    rewrite ?lookup_delete_ne, ?lookup_insert_ne by done; done.
Qed.
Lemma publish_to_obs e sub : Forall (λ d, d = Delivered e ∨ d = Dropped e ∨
    d = Delivered (mkPeerEvent (pe_PeerID e) (mkEvent EventGapName ""))) (publish_to e sub).1.
Proof.
  unfold publish_to, publish_normal. repeat case_match; simplify_eq/=; rewrite ?Forall_cons, ?Forall_nil; auto 10.
Qed.

Lemma publish_tracks e sub l :
  (∀ peer, tracks peer l (sub_peers sub)) →
  ∀ peer, tracks peer (l ++ (publish_to e sub).1) (sub_peers (publish_to e sub).2).
Proof.
  intros Ht peer. destruct (decide (pe_PeerID e = peer)) as [<-|Hne]; [by apply publish_to_tracks|].
  apply (tracks_other _ e _ _ (sub_peers sub)); [done|apply publish_to_obs|by apply publish_to_others|done].
Qed.

(** Deliveries go into the channel in order, within its capacity. *)
Lemma publish_to_channel e sub :
  (length (ch_buf (sub_ch sub)) ≤ ch_cap (sub_ch sub))%nat →
  let sub' := (publish_to e sub).2 in
  ch_buf (sub_ch sub') = ch_buf (sub_ch sub) ++ delivered (publish_to e sub).1 ∧
  ch_cap (sub_ch sub') = ch_cap (sub_ch sub) ∧ (length (ch_buf (sub_ch sub')) ≤ ch_cap (sub_ch sub'))%nat.
Proof.
  intros Hlen. unfold publish_to, publish_normal, try_send. destruct sub as [[c b] peers]. simpl in *.
  repeat case_match; simplify_eq/=; rewrite <- ?app_assoc, ?app_nil_r, ?length_app; simpl;
    repeat case_bool_decide; simplify_eq/=; rewrite ?length_app in *; simpl in *; split_and!; auto; lia.
Qed.

(** The life of one subscription among all others: [sub_run id s l r s'] with
    [l] what happened to its events and [r] what its owner has read. *)
Inductive sub_run (id : nat) (s : Subscriptions) : list Delivery → list PeerEvent → Subscriptions → Prop :=
| sr_start : sub_run id s [] [] s
| sr_subscribe l r s' buffer : sub_run id s l r s' → sub_run id s l r (SubscribeEvents buffer s').2
| sr_unsubscribe l r s' other : sub_run id s l r s' → sub_run id s l r (UnsubscribeEvents other s')
| sr_publish l r s' e : sub_run id s l r s' →
    sub_run id s (l ++ match ss_subs s' !! id with Some sub => (publish_to e sub).1 | None => [] end) r
      (publish_all e s')
| sr_read l r s' e s'' : sub_run id s l r s' → receive_event id s' = Some (e, s'') → sub_run id s l (r ++ [e]) s''
| sr_read_other l r s' other e s'' : sub_run id s l r s' → other ≠ id →
    receive_event other s' = Some (e, s'') → sub_run id s l r s''.

Inductive subscription_ok (id : nat) (cap : nat) (l : list Delivery) (r : list PeerEvent) (s : Subscriptions) : Prop :=
| so_open sub : ss_subs s !! id = Some sub → (id ≤ ss_nextID s)%nat → (∀ peer, tracks peer l (sub_peers sub)) →
    delivered l = r ++ ch_buf (sub_ch sub) → ch_cap (sub_ch sub) = cap →
    (length (ch_buf (sub_ch sub)) ≤ cap)%nat → subscription_ok id cap l r s
| so_closed ch : ss_subs s !! id = None → (id ≤ ss_nextID s)%nat → (∀ peer, covered peer l) →
    ss_closed s !! id = Some ch → delivered l = r ++ ch_buf ch →
    (length (ch_buf ch) ≤ cap)%nat → subscription_ok id cap l r s.

Lemma tracks_covered peer l peers : tracks peer l peers → covered peer l.
Proof. unfold tracks, covered. destruct (cover peer l) as [[lost gap] fine]. simpl. tauto. Qed.

Lemma receive_self id s e s' cap l r :
  receive_event id s = Some (e, s') → subscription_ok id cap l r s → subscription_ok id cap l (r ++ [e]) s'.
Proof.
  unfold receive_event, try_recv. intros Hr [sub Hs Hid Ht Hd Hc Hl|ch Hs Hid Ht Hch Hd Hl]; rewrite Hs in Hr.
  - destruct (ch_buf (sub_ch sub)) as [|x b] eqn:Hb; simplify_eq/=.
    apply (so_open _ _ _ _ _ (set_ch (mkChan (ch_cap (sub_ch sub)) b) sub)); simpl; try done.
    + by rewrite lookup_insert_eq.
    + by rewrite <- app_assoc.
    + lia.
  - rewrite Hch in Hr. simpl in Hr. destruct (ch_buf ch) as [|x b] eqn:Hb; simplify_eq/=.
    apply (so_closed _ _ _ _ _ (mkChan (ch_cap ch) b)); simpl; try done.
    + by rewrite lookup_insert_eq.
    + by rewrite <- app_assoc.
    + lia.
Qed.

Lemma receive_other id other s e s' cap l r : other ≠ id →
  receive_event other s = Some (e, s') → subscription_ok id cap l r s → subscription_ok id cap l r s'.
Proof.
  unfold receive_event, try_recv. intros Hne Hr Hok.
  destruct (ss_subs s !! other) as [sub|]; [|destruct (ss_closed s !! other) as [ch|]; simpl in Hr; [|done]];
    (destruct (ch_buf _) as [|x b]; simplify_eq/=);
    destruct Hok as [sub' Hs|ch' Hs ? ? Hch]; [eapply so_open|eapply so_closed|eapply so_open|eapply so_closed];
    simpl; rewrite ?lookup_insert_ne by done; done.
Qed.

Lemma unsubscribe_ok id other s cap l r :
  subscription_ok id cap l r s → subscription_ok id cap l r (UnsubscribeEvents other s).
Proof.
  intros Hok. unfold UnsubscribeEvents. destruct (ss_subs s !! other) as [sub|] eqn:Ho; [|done].
  destruct (decide (other = id)) as [->|Hne].
  - destruct Hok as [sub' Hs Hid Ht Hd Hc Hl|]; [|congruence]. rewrite Ho in Hs. injection Hs as <-.
    apply (so_closed _ _ _ _ _ (sub_ch sub)); simpl; rewrite ?lookup_delete_eq, ?lookup_insert_eq; try done.
    intros peer. by eapply tracks_covered.
  - destruct Hok as [sub' Hs|ch' Hs ? ? Hch]; [eapply so_open|eapply so_closed]; simpl;
      rewrite ?lookup_delete_ne, ?lookup_insert_ne by done; done.
Qed.

Lemma publish_ok id e s cap l r : subscription_ok id cap l r s →
  subscription_ok id cap (l ++ match ss_subs s !! id with Some sub => (publish_to e sub).1 | None => [] end) r
    (publish_all e s).
Proof.
  intros [sub Hs Hid Ht Hd Hc Hl|ch Hs Hid Ht Hch Hd Hl]; rewrite Hs.
  - pose proof (publish_to_channel e sub) as Hpub. rewrite Hc in Hpub. destruct (Hpub Hl) as (Hb & Hcap & Hlen).
    apply (so_open _ _ _ _ _ (publish_to e sub).2); try done.
    + simpl. by rewrite lookup_fmap, Hs.
    + by apply publish_tracks.
    + by rewrite delivered_app, Hd, Hb, app_assoc.
    + by rewrite Hcap in Hlen.
  - rewrite app_nil_r. apply (so_closed _ _ _ _ _ ch); try done. simpl. by rewrite lookup_fmap, Hs.
Qed.

Lemma sub_run_ok id s l r s' cap :
  sub_run id s l r s' → subscription_ok id cap [] [] s → subscription_ok id cap l r s'.
Proof.
  intros Hr H0. induction Hr as [|l r s' buffer _ IH|l r s' other _ IH|l r s' e _ IH|l r s' e s'' _ IH He
    |l r s' other e s'' _ IH Hne He].
  - done.
  - destruct IH as [sub Hs ?|ch Hs ?]; [eapply so_open|eapply so_closed]; simpl; try done; try lia;
      by rewrite lookup_insert_ne by lia.
  - by apply unsubscribe_ok.
  - by apply publish_ok.
  - by eapply receive_self.
  - by eapply receive_other.
Qed.

(** A subscription tells its owner of every loss: whatever other
    subscriptions, peers and readers do, its owner reads exactly the delivered
    events in order, never more than the buffer holds wait for it, and for each
    peer a normal event that follows a loss comes directly behind a gap of that
    peer, delivered after every gap of it that was dropped. *)
Theorem subscriber_gap_before_event buffer s l r s' :
  let '(id, s0) := SubscribeEvents buffer s in
  sub_run id s0 l r s' →
  (∃ waiting, delivered l = r ++ waiting ∧ (Z.of_nat (length waiting) ≤ Z.max 1 buffer)) ∧
  ∀ peer, covered peer l.
Proof.
  simpl. set (cap := Z.to_nat (if buffer <? 1 then 1 else buffer)). intros Hr.
  assert (Z.of_nat cap ≤ Z.max 1 buffer) as Hcap by (unfold cap; destruct (Z.ltb_spec buffer 1); lia).
  apply (sub_run_ok _ _ _ _ _ cap) in Hr.
  - destruct Hr as [sub Hs Hid Ht Hd Hc Hl|ch Hs Hid Ht Hch Hd Hl].
    + split; [exists (ch_buf (sub_ch sub)); split; [done|lia]|]. intros peer. by eapply tracks_covered.
    + split; [exists (ch_buf ch); split; [done|lia]|done].
  - apply (so_open _ _ _ _ _ (mkSubscriber (mkChan cap []) ∅)); simpl; try done; [|lia].
    by rewrite lookup_insert_eq.
Qed.
