(* ===== verification/PeerLink.v ===== *)
(** internal/mesh/mesh.go: the manager's current connection per peer and the
    status it publishes, the life of a connection from its activation to its
    closure, the connect loop of an outbound peer, and the redaction of errors.
    A runtime pointer is modelled by its generation, which is never reused. *)

From S2P Require Import Prelude GoText PeerRegistry PeerRpc.
From stdpp Require Import base gmap strings list fin_maps sorting.
From Stdlib Require Import ZArith Lia Ascii.

Open Scope Z_scope.

(** ** Retry timing (durations in nanoseconds) *)

Inductive retryCause :=
| retryAfterProbeFailure | retryAfterHandshakeFailure | retryAfterConnectionDrop | retryAfterTransportFailure.

Record MeshConfig := mkMeshConfig {
  cfg_ReconnectMin : Z; cfg_ReconnectMax : Z; cfg_HandshakeTimeout : Z; cfg_StaleAfter : Z; cfg_DeadAfter : Z }.

Definition maxReachabilityProbeTimeout : Z := 1000000000.
Definition maxReachabilityProbeRetry : Z := 5000000000.

Definition reachabilityProbeTimeout (cfg : MeshConfig) : Z :=
  if cfg_HandshakeTimeout cfg <? maxReachabilityProbeTimeout then cfg_HandshakeTimeout cfg
  else maxReachabilityProbeTimeout.

Definition retryBounds (cfg : MeshConfig) (cause : retryCause) : Z * Z :=
  match cause with
  | retryAfterHandshakeFailure | retryAfterTransportFailure => (cfg_ReconnectMin cfg, cfg_ReconnectMax cfg)
  | _ =>
      let max := maxReachabilityProbeRetry in
      let max := if max <? cfg_ReconnectMin cfg then cfg_ReconnectMin cfg else max in
      let max := if cfg_ReconnectMax cfg <? max then cfg_ReconnectMax cfg else max in
      (cfg_ReconnectMin cfg, max)
  end.

(** The loop of [exponentialRetryCap] with [n] iterations to go; the doubling is
    the 64-bit one of [time.Duration]. *)
Fixpoint retry_cap_loop (n : nat) (max cap : Z) : Z :=
  match n with
  | O => cap
  | S n => if cap <? max then (if max ÷ 2 <? cap then max else retry_cap_loop n max (s64 (cap * 2))) else cap
  end.
Definition exponentialRetryCap (attempt : nat) (min max : Z) : Z :=
  if max <=? min then max else retry_cap_loop (pred attempt) max min.

(** [fullJitter], with [rand] the draw below its argument; [None] is the panic
    of [rand.Int64N] on a non-positive argument. *)
Definition fullJitter (rand : Z → Z) (attempt : nat) (min max : Z) : option Z :=
  let cap := exponentialRetryCap attempt min max in
  if cap <=? 0 then Some 0 else
  let floor := min ÷ 4 in
  let n := s64 (cap - floor + 1) in
  if n <=? 0 then None else Some (floor + rand n).

(** ** Redaction *)

Fixpoint redact_from (fuel : nat) (secret s : string) : string :=
  match fuel with
  | O => s
  | S fuel =>
      match cut_prefix secret s with
      | Some rest => "[REDACTED]" +:+ redact_from fuel secret rest
      | None => match s with EmptyString => EmptyString | String c s' => String c (redact_from fuel secret s') end
      end
  end.
(** [strings.ReplaceAll(s, secret, "[REDACTED]")] for a non-empty secret *)
Definition redact (secret s : string) : string := redact_from (S (String.length s)) secret s.

Definition sanitizeSecretsError (err : option string) (secrets : list string) : string :=
  match err with
  | None => ""
  | Some text =>
      let safe := foldl (λ s secret, if String.eqb secret "" then s else redact secret s) text secrets in
      if 240 <? str_len safe then str_take 240 safe else safe
  end.
Definition sanitizePeerError `{NetLib} (peer : Peer) (err : option string) : string :=
  sanitizeSecretsError err [peer_Token peer; token_hash (peer_Token peer)].

(** ** SSH transport *)

Definition sshTunnelBaseArgs : list string :=
  ["-N"; "-T"; "-o"; "BatchMode=yes"; "-o"; "ExitOnForwardFailure=yes"; "-o"; "ServerAliveInterval=5";
   "-o"; "ServerAliveCountMax=3"; "-o"; "ConnectTimeout=5"; "-o"; "ClearAllForwardings=no";
   "-o"; "ControlMaster=no"; "-o"; "PermitLocalCommand=no"; "-o"; "StrictHostKeyChecking=yes"].
Definition sshTunnelArgs `{NetLib} (peer : Peer) : result string (list string) :=
  match peer_SSHTunnel peer with
  | None => Err "ssh tunnel is not configured"
  | Some tunnel =>
      _ ← SSHTunnel_Validate tunnel;
      mret (sshTunnelBaseArgs ++
        ["-L"; tun_LocalAddr tunnel +:+ (":" +:+ tun_RemoteAddr tunnel); "--"; tun_Target tunnel])
  end.
Definition sshTunnelInspectionArgs (tunnel : SSHTunnel) : list string :=
  ["-G"] ++ sshTunnelBaseArgs ++ ["--"; tun_Target tunnel].

(** ** Status *)

Record LinkStatus := mkLink {
  ls_Direction : string; ls_State : string; ls_ConnectedAt : option Z; ls_LastSeen : option Z;
  ls_LastSuccess : option Z; ls_LastError : string; ls_NextRetryAt : option Z; ls_Attempts : nat;
  ls_Protocol : Z; ls_RoundTripMS : Z; ls_Capabilities : list string }.
Record ProbeStatus := mkProbe { pb_State : string; pb_LastAt : option Z; pb_LastSuccess : option Z }.
Record TransportStatus := mkTransport {
  tr_Kind : string; tr_State : string; tr_Attempts : nat; tr_LastError : string; tr_NextRetryAt : option Z }.
(** [Status], its fields grouped by who writes them. *)
Record Status := mkStatus {
  st_PeerID : string; st_link : LinkStatus; st_probe : ProbeStatus; st_transport : TransportStatus }.

Definition zero_link : LinkStatus := mkLink "" "" None None None "" None 0 0 0 [].
Definition zero_probe : ProbeStatus := mkProbe "" None None.
Definition zero_transport : TransportStatus := mkTransport "" "" 0 "" None.
Definition zero_status : Status := mkStatus "" zero_link zero_probe zero_transport.

Definition on_link (f : LinkStatus → LinkStatus) (s : Status) : Status :=
  mkStatus (st_PeerID s) (f (st_link s)) (st_probe s) (st_transport s).
Definition on_probe (f : ProbeStatus → ProbeStatus) (s : Status) : Status :=
  mkStatus (st_PeerID s) (st_link s) (f (st_probe s)) (st_transport s).
Definition on_transport (f : TransportStatus → TransportStatus) (s : Status) : Status :=
  mkStatus (st_PeerID s) (st_link s) (st_probe s) (f (st_transport s)).

Definition link_state (state : string) (l : LinkStatus) : LinkStatus :=
  mkLink (ls_Direction l) state (ls_ConnectedAt l) (ls_LastSeen l) (ls_LastSuccess l) (ls_LastError l)
    (ls_NextRetryAt l) (ls_Attempts l) (ls_Protocol l) (ls_RoundTripMS l) (ls_Capabilities l).
Definition link_error (msg : string) (l : LinkStatus) : LinkStatus :=
  mkLink (ls_Direction l) (ls_State l) (ls_ConnectedAt l) (ls_LastSeen l) (ls_LastSuccess l) msg
    (ls_NextRetryAt l) (ls_Attempts l) (ls_Protocol l) (ls_RoundTripMS l) (ls_Capabilities l).
Definition link_retry (attempts : nat) (next : option Z) (l : LinkStatus) : LinkStatus :=
  mkLink (ls_Direction l) (ls_State l) (ls_ConnectedAt l) (ls_LastSeen l) (ls_LastSuccess l) (ls_LastError l)
    next attempts (ls_Protocol l) (ls_RoundTripMS l) (ls_Capabilities l).
Definition link_seen (now : Z) (l : LinkStatus) : LinkStatus :=
  mkLink (ls_Direction l) "connected" (ls_ConnectedAt l) (Some now) (Some now) (ls_LastError l)
    (ls_NextRetryAt l) (ls_Attempts l) (ls_Protocol l) (ls_RoundTripMS l) (ls_Capabilities l).
Definition link_rtt (ms : Z) (l : LinkStatus) : LinkStatus :=
  mkLink (ls_Direction l) (ls_State l) (ls_ConnectedAt l) (ls_LastSeen l) (ls_LastSuccess l) (ls_LastError l)
    (ls_NextRetryAt l) (ls_Attempts l) (ls_Protocol l) ms (ls_Capabilities l).

(** ** The manager *)

(** A connection: the peer it authenticates as, the credentials to redact, and
    whether [p.done] is closed. *)
Record LinkRuntime := mkLinkRuntime {
  lr_peer : string; lr_redactions : list string; lr_done : bool }.

(** Where an outbound peer's connect loop stands; [LoopUp] waits for the end of
    the connection it activated. *)
Inductive LoopState :=
| LoopTrying (attempt : nat) | LoopUp (generation : N) (attempt : nat) | LoopRetry (attempt : nat) | LoopEnded.

(** [lk_heap] holds every connection ever activated, [lk_closing] those that a
    goroutine is about to close, having released the manager's lock. *)
Record Links := mkLinks {
  lk_started : bool;
  lk_canceled : bool;
  lk_gen : N;
  lk_peers : gmap string N;
  lk_status : gmap string Status;
  lk_heap : gmap N LinkRuntime;
  lk_closing : gset N;
  lk_loops : gmap string LoopState }.

Definition set_status (st : gmap string Status) (m : Links) : Links :=
  mkLinks (lk_started m) (lk_canceled m) (lk_gen m) (lk_peers m) st (lk_heap m) (lk_closing m) (lk_loops m).
Definition set_loop (id : string) (l : LoopState) (m : Links) : Links :=
  mkLinks (lk_started m) (lk_canceled m) (lk_gen m) (lk_peers m) (lk_status m) (lk_heap m) (lk_closing m)
    (<[id := l]> (lk_loops m)).

Definition updateStatus (id : string) (fn : Status → Status) (m : Links) : Links :=
  let s := default zero_status (lk_status m !! id) in
  set_status (<[id := fn (mkStatus id (st_link s) (st_probe s) (st_transport s))]> (lk_status m)) m.
Definition setError (id msg : string) (m : Links) : Links := updateStatus id (on_link (link_error msg)) m.

Definition is_current (g : N) (p : LinkRuntime) (m : Links) : bool := bool_decide (lk_peers m !! lr_peer p = Some g).

Definition updateCurrent (g : N) (p : LinkRuntime) (fn : Status → Status) (m : Links) : Links :=
  if is_current g p m then
    let s := default zero_status (lk_status m !! lr_peer p) in
    set_status (<[lr_peer p := fn s]> (lk_status m)) m
  else m.

(** [activate] under the lock; a displaced connection is closed afterwards. *)
Definition activate (id direction : string) (capabilities redactions : list string) (now : Z) (m : Links)
    : option N * Links :=
  let g := N.succ (lk_gen m) in
  if negb (lk_started m) then
    (None, mkLinks (lk_started m) (lk_canceled m) g (lk_peers m) (lk_status m) (lk_heap m) (lk_closing m) (lk_loops m))
  else
    let prior := default zero_status (lk_status m !! id) in
    let status := mkStatus id
      (mkLink direction "connected" (Some now) (Some now) (Some now) "" None 0 1 0 capabilities)
      (st_probe prior) (st_transport prior) in
    (Some g, mkLinks true (lk_canceled m) g (<[id := g]> (lk_peers m)) (<[id := status]> (lk_status m))
       (<[g := mkLinkRuntime id redactions false]> (lk_heap m))
       (match lk_peers m !! id with Some old => {[old]} ∪ lk_closing m | None => lk_closing m end) (lk_loops m)).

(** [close] on the connection itself: the [closeOnce] body. *)
Definition close_link (g : N) (m : Links) : Links :=
  mkLinks (lk_started m) (lk_canceled m) (lk_gen m) (lk_peers m) (lk_status m)
    (alter (λ p, mkLinkRuntime (lr_peer p) (lr_redactions p) true) g (lk_heap m)) (lk_closing m ∖ {[g]}) (lk_loops m).

(** [disconnect] under the lock; the close follows. *)
Definition disconnect_claim (g : N) (p : LinkRuntime) (timeout : bool) (err : option string) (m : Links) : Links :=
  let closing := {[g]} ∪ lk_closing m in
  if is_current g p m then
    let s := default zero_status (lk_status m !! lr_peer p) in
    let s := on_link (λ l, link_error (sanitizeSecretsError err (lr_redactions p))
                       (link_state (if timeout then "dead" else "disconnected") l)) s in
    mkLinks (lk_started m) (lk_canceled m) (lk_gen m) (delete (lr_peer p) (lk_peers m))
      (<[lr_peer p := s]> (lk_status m)) (lk_heap m) closing (lk_loops m)
  else mkLinks (lk_started m) (lk_canceled m) (lk_gen m) (lk_peers m) (lk_status m) (lk_heap m) closing (lk_loops m).

(** ** Reader and heartbeat *)

Inductive ReaderNext := ReaderPing | ReaderPong | ReaderApplication | ReaderDisconnect.

(** [reader] on one frame of the given version and type. *)
Definition reader_frame (g : N) (p : LinkRuntime) (version : Z) (type : string) (now : Z) (m : Links)
    : ReaderNext * Links :=
  if negb (version =? 1) then (ReaderDisconnect, disconnect_claim g p false (Some "protocol version mismatch") m) else
  let m := updateCurrent g p (on_link (link_seen now)) m in
  if String.eqb type "ping" then (ReaderPing, m)
  else if String.eqb type "pong" then (ReaderPong, m)
  else if existsb (String.eqb type) ["request"; "response"; "cancel"; "event"] then (ReaderApplication, m)
  else (ReaderDisconnect, disconnect_claim g p false (Some "unsupported frame type") m).

(** [heartbeat] on one tick: whether it goes on and sends a ping. *)
Definition heartbeat_tick (cfg : MeshConfig) (g : N) (p : LinkRuntime) (now : Z) (m : Links) : bool * Links :=
  if negb (is_current g p m) then (false, m) else
  let timeout := disconnect_claim g p true (Some "peer heartbeat timed out") m in
  match ls_LastSeen (st_link (default zero_status (lk_status m !! lr_peer p))) with
  | None => (false, timeout)
  | Some seen =>
      let age := now - seen in
      if cfg_DeadAfter cfg <=? age then (false, timeout)
      else if cfg_StaleAfter cfg <=? age then (true, updateCurrent g p (on_link (link_state "stale")) m)
      else (true, m)
  end.

(** ** The connect loop *)

Definition loop_begin (id : string) (attempt : nat) (m : Links) : Links :=
  set_loop id (LoopTrying attempt)
    (updateStatus id (λ s, on_probe (λ pb, mkProbe "probing" (pb_LastAt pb) (pb_LastSuccess pb))
       (on_link (λ l, link_retry (S attempt) None (link_state "connecting" l)) s)) m).
Definition loop_probe (id : string) (reachable : bool) (probeAt : Z) (m : Links) : Links :=
  updateStatus id (λ s,
    if reachable
    then on_probe (λ _, mkProbe "reachable" (Some probeAt) (Some probeAt)) (on_link (link_state "connecting") s)
    else on_probe (λ pb, mkProbe "unreachable" (Some probeAt) (pb_LastSuccess pb)) s) m.
(** The end of an iteration: [attempt] is the counter before its increment. *)
Definition loop_retry (id : string) (attempt : nat) (next : Z) (m : Links) : Links :=
  set_loop id (LoopRetry (S attempt))
    (updateStatus id (on_link (λ l, link_retry (S attempt) (Some next) (link_state "disconnected" l))) m).
Definition loop_failed (id err : string) (attempt : nat) (next : Z) (m : Links) : Links :=
  loop_retry id attempt next (setError id err m).
Definition loop_connected (id : string) (attempt : nat) (capabilities redactions : list string) (now : Z) (m : Links)
    : Links :=
  match activate id "outbound" capabilities redactions now m with
  | (Some g, m') => set_loop id (LoopUp g attempt) m'
  | (None, m') => set_loop id LoopEnded m'
  end.
(** The connection has ended after [lived]; a full dead-peer window resets the
    counter. *)
Definition loop_dropped (cfg : MeshConfig) (id : string) (attempt : nat) (lived next : Z) (m : Links) : Links :=
  loop_retry id (if cfg_DeadAfter cfg <=? lived then 0%nat else attempt) next m.

(** ** Start, stop, listing *)

Definition initial_link (direction : string) : LinkStatus :=
  mkLink direction "disconnected" None None None "" None 0 0 0 [].
Definition outbound_status (p : Peer) : Status :=
  mkStatus (peer_ID p) (initial_link "outbound") zero_probe
    (match peer_SSHTunnel p with Some _ => mkTransport "ssh" "configured" 0 "" None | None => zero_transport end).
Definition inbound_status (id : string) : Status :=
  mkStatus id (initial_link "inbound") zero_probe zero_transport.
(** The two loops of [Start]; an accepted identity is written last. *)
Definition start_status (r : Registry) (st : gmap string Status) : gmap string Status :=
  map_imap (λ id _, Some (inbound_status id)) (reg_Accept r) ∪
  foldl (λ st p, <[peer_ID p := outbound_status p]> st) st (reg_Peers r).
Definition start_loops (r : Registry) : gmap string LoopState :=
  foldl (λ l p, <[peer_ID p := LoopRetry 0]> l) ∅ (reg_Peers r).

Definition new_manager : Links := mkLinks false false 0 ∅ ∅ ∅ ∅ ∅.

(** [Start]; [listens] is whether the listener could be opened. *)
Definition Start (r : Registry) (listens : bool) (m : Links) : result string unit * Links :=
  if lk_started m then (Ok tt, m) else
  let st := start_status r (lk_status m) in
  if reg_Serve r && negb listens
  then (Err "listen on mesh address", mkLinks false true (lk_gen m) (lk_peers m) st (lk_heap m) (lk_closing m) (lk_loops m))
  else (Ok tt, mkLinks true false (lk_gen m) (lk_peers m) st (lk_heap m) (lk_closing m) (start_loops r)).

(** [Stop] up to its closes: every current connection is about to be closed. *)
Definition Stop (m : Links) : Links :=
  if negb (lk_started m) then m else
  mkLinks false true (lk_gen m) (lk_peers m) (lk_status m) (lk_heap m)
    (list_to_set (map_to_list (lk_peers m)).*2 ∪ lk_closing m) (lk_loops m).

(** [m.Status()] *)
Definition Status_list (m : Links) : list Status := sort_by_key st_PeerID (map_to_list (lk_status m)).*2.
