(* ===== verification/PeerLinkFacts.v ===== *)
(** One current connection per peer: whatever readers, heartbeats, dropped and
    replaced connections do late, the published status is the current one's;
    and retry delays and the redaction of errors. *)

From S2P Require Import Prelude GoText PeerRegistry PeerRpc PeerLink.
From stdpp Require Import base fin_maps gmap strings list relations.
From Stdlib Require Import ZArith Lia Ascii.

Open Scope Z_scope.

Section Steps.
Context (cfg : MeshConfig) (r : Registry).

Definition outbound (id : string) : Prop := ∃ p, p ∈ reg_Peers r ∧ peer_ID p = id.
Definition inbound (id : string) : Prop := is_Some (reg_Accept r !! id).

(** What the goroutines of one manager do: its life runs from one [Start] to
    [Stop]. *)
Inductive link_step : relation Links :=
| ln_start listens m : lk_canceled m = false → link_step m (Start r listens m).2
| ln_stop m : link_step m (Stop m)
| ln_upgrade id caps secrets now m : inbound id → link_step m (activate id "inbound" caps secrets now m).2
| ln_rejected id m : inbound id → link_step m (setError id "mesh handshake rejected" m)
| ln_begin id a m : lk_loops m !! id = Some (LoopRetry a) → lk_canceled m = false → link_step m (loop_begin id a m)
| ln_probe id a ok now m : lk_loops m !! id = Some (LoopTrying a) → link_step m (loop_probe id ok now m)
| ln_failed id a err next m : lk_loops m !! id = Some (LoopTrying a) → link_step m (loop_failed id err a next m)
| ln_connected id a caps secrets now m :
    lk_loops m !! id = Some (LoopTrying a) → link_step m (loop_connected id a caps secrets now m)
| ln_dropped id g p a lived next m :
    lk_loops m !! id = Some (LoopUp g a) → lk_heap m !! g = Some p → lr_done p = true → lk_canceled m = false →
    link_step m (loop_dropped cfg id a lived next m)
| ln_loop_ends id l m : lk_canceled m = true → lk_loops m !! id = Some l → link_step m (set_loop id LoopEnded m)
| ln_transport id f m : outbound id → link_step m (updateStatus id (on_transport f) m)
| ln_disconnect g p timeout err m : lk_heap m !! g = Some p → link_step m (disconnect_claim g p timeout err m)
| ln_close g m : g ∈ lk_closing m → link_step m (close_link g m)
| ln_reader g p version type now m :
    lk_heap m !! g = Some p → link_step m (reader_frame g p version type now m).2
| ln_rtt g p ms m : lk_heap m !! g = Some p → link_step m (updateCurrent g p (on_link (link_rtt ms)) m)
| ln_heartbeat g p now m : lk_heap m !! g = Some p → link_step m (heartbeat_tick cfg g p now m).2.

(** ** The invariant *)

Definition alive (s : Status) : Prop := ls_State (st_link s) = "connected" ∨ ls_State (st_link s) = "stale".
Definition live (st : gmap string Status) (id : string) : Prop := ∃ s, st !! id = Some s ∧ alive s.

Definition loop_ok (m : Links) (id : string) (l : LoopState) : Prop :=
  match l with
  | LoopUp g _ => (∃ p, lk_heap m !! g = Some p ∧ lr_peer p = id) ∧ ∀ g', lk_peers m !! id = Some g' → g' = g
  | LoopTrying _ | LoopRetry _ => lk_peers m !! id = None
  | LoopEnded => True
  end.

Record link_ok (m : Links) : Prop := {
  kn_started : lk_started m = true → lk_canceled m = false;
  kn_idle : lk_started m = false → lk_canceled m = false → lk_peers m = ∅;
  kn_current : ∀ id g, lk_peers m !! id = Some g → ∃ p, lk_heap m !! g = Some p ∧ lr_peer p = id;
  kn_gen : ∀ g p, lk_heap m !! g = Some p → (g ≤ lk_gen m)%N;
  kn_open : ∀ g p, lk_heap m !! g = Some p → lr_done p = false →
    lk_peers m !! lr_peer p = Some g ∨ g ∈ lk_closing m;
  kn_ended : lk_canceled m = false → ∀ g p, lk_heap m !! g = Some p → lr_done p = true ∨ g ∈ lk_closing m →
    lk_peers m !! lr_peer p ≠ Some g;
  kn_stopped : lk_canceled m = true → ∀ g p, lk_heap m !! g = Some p → lr_done p = true ∨ g ∈ lk_closing m;
  kn_closing : ∀ g, g ∈ lk_closing m → is_Some (lk_heap m !! g);
  kn_loops : ∀ id l, lk_loops m !! id = Some l → outbound id ∧ loop_ok m id l;
  kn_live : ∀ id, live (lk_status m) id ↔ is_Some (lk_peers m !! id);
}.

Context (Hdisjoint : ∀ id, outbound id → ¬ inbound id).

(** ** Status *)

Lemma live_insert st id s id' :
  live (<[id := s]> st) id' ↔ (id = id' ∧ alive s) ∨ (id ≠ id' ∧ live st id').
Proof.
  unfold live. setoid_rewrite lookup_insert_Some. split.
  - intros (s' & [[-> ->]|[Hne Hs]] & Ha); [by left|right; eauto].
  - intros [[-> Ha]|[Hne (s' & ? & ?)]]; [exists s|exists s']; auto.
Qed.

Lemma status_ok st m : (∀ id, live st id ↔ live (lk_status m) id) → link_ok m → link_ok (set_status st m).
Proof. intros Hl [? ? ? ? ? ? ? ? ? Hlive]. split; try done. intros id. simpl. by rewrite Hl. Qed.

Lemma not_alive_zero id : ¬ alive (mkStatus id zero_link zero_probe zero_transport).
Proof. by intros []. Qed.

(** An update that keeps the state, and one of a peer without a connection. *)
Lemma updateStatus_keeps id f m :
  (∀ s, ls_State (st_link (f s)) = ls_State (st_link s)) → link_ok m → link_ok (updateStatus id f m).
Proof.
  intros Hf. apply status_ok. intros id'. rewrite live_insert. unfold live at 2.
  assert (∀ s, alive (f s) ↔ alive s) as Ha by (intros s; unfold alive; by rewrite Hf). rewrite Ha.
  destruct (decide (id = id')) as [<-|Hne]; [|split; [by intros [[]|[]]|by right]].
  destruct (lk_status m !! id) as [s|] eqn:Hs; simpl.
  - split; [intros [[_ Hal]|[]]; [|done]; by exists s|]. intros (s' & [= <-] & Hal). by left.
  - split; [|by intros (? & ? & ?)]. intros [[_ Hal]|[]]; [|done]. by destruct Hal.
Qed.
Lemma updateStatus_down id f m :
  (∀ s, ¬ alive (f s)) → lk_peers m !! id = None → link_ok m → link_ok (updateStatus id f m).
Proof.
  intros Hf Hp Hm. apply status_ok; [|done]. intros id'. rewrite live_insert.
  destruct (decide (id = id')) as [<-|Hne]; [|split; [by intros [[]|[]]|by right]].
  rewrite (kn_live m Hm), Hp. split; [intros [[_ []%Hf]|[]]; done|by intros []].
Qed.
(** An update through the current connection keeps the peer alive. *)
Lemma updateCurrent_ok g p f m :
  (∀ s, alive s → alive (f s)) → link_ok m → link_ok (updateCurrent g p f m).
Proof.
  intros Hf Hm. unfold updateCurrent, is_current. case_bool_decide as Hc; [|done].
  apply status_ok; [|done]. intros id'. rewrite live_insert.
  destruct (decide (lr_peer p = id')) as [<-|Hne]; [|split; [by intros [[]|[]]|by right]].
  assert (live (lk_status m) (lr_peer p)) as Hl by (apply (kn_live m Hm); eauto).
  destruct Hl as (s & Hs & Ha). rewrite Hs. simpl. split; [intros _; by exists s|]. left. auto.
Qed.
Lemma alive_link f : (∀ l, ls_State (f l) = "connected" ∨ ls_State (f l) = "stale" ∨ ls_State (f l) = ls_State l) →
  ∀ s, alive s → alive (on_link f s).
Proof. intros Hf s Ha. unfold alive, on_link in *. simpl. destruct (Hf (st_link s)) as [->|[->| ->]]; auto. Qed.

Lemma set_loop_ok id l m : outbound id → loop_ok m id l → link_ok m → link_ok (set_loop id l m).
Proof.
  intros Ho Hl [? ? ? ? ? ? ? ? Hloops ?]. split; try done. intros id' l'. simpl.
  rewrite lookup_insert_Some. intros [[<- <-]|[_ Hid]]; [done|]. by apply Hloops.
Qed.

(** ** Connections *)

Lemma close_link_ok g m : g ∈ lk_closing m → link_ok m → link_ok (close_link g m).
Proof.
  intros Hg [Hst Hid Hcur Hgen Hopen Hend Hstop Hcl Hloops Hlive].
  assert (∀ g' p, alter (λ p, mkLinkRuntime (lr_peer p) (lr_redactions p) true) g (lk_heap m) !! g' = Some p →
    ∃ p0, lk_heap m !! g' = Some p0 ∧ lr_peer p = lr_peer p0 ∧ (g' = g ∨ p = p0)) as Hheap.
  { intros g' p. rewrite lookup_alter_Some. intros [(<- & p' & Hh & ->)|[_ Hh]]; eauto 10. }
  assert (∀ g' p0, lk_heap m !! g' = Some p0 → ∃ p,
    alter (λ p, mkLinkRuntime (lr_peer p) (lr_redactions p) true) g (lk_heap m) !! g' = Some p ∧ lr_peer p = lr_peer p0) as Hback.
  { intros g' p0 Hh. destruct (decide (g = g')) as [<-|Hne].
    - eexists. by rewrite lookup_alter_eq, Hh.
    - exists p0. by rewrite lookup_alter_ne. }
  split; simpl; try done.
  - intros id g' Hp. destruct (Hcur _ _ Hp) as (p & Hh & <-). by apply Hback.
  - intros g' p (p0 & Hh & _)%Hheap. eauto.
  - intros g' p Hp Hd. destruct (Hheap _ _ Hp) as (p0 & Hh & Hpe & Hor). rewrite Hpe.
    destruct (decide (g' = g)) as [->|Hne].
    + rewrite lookup_alter_eq, Hh in Hp. injection Hp as <-. done.
    + destruct Hor as [|<-]; [done|]. destruct (Hopen _ _ Hh Hd); [auto|right; set_solver].
  - intros Hc g' p Hp Hd. destruct (Hheap _ _ Hp) as (p0 & Hh & -> & Hor). apply (Hend Hc _ _ Hh).
    destruct Hor as [->|<-]; [by right|]. destruct Hd; [auto|right; set_solver].
  - intros Hc g' p Hp. destruct (decide (g' = g)) as [->|Hne].
    + destruct (Hheap _ _ Hp) as (p0 & Hh & _). rewrite lookup_alter_eq, Hh in Hp. injection Hp as <-. by left.
    + destruct (Hheap _ _ Hp) as (p0 & Hh & _ & [|<-]); [done|]. destruct (Hstop Hc _ _ Hh); [auto|right; set_solver].
  - intros g' [Hg' _]%elem_of_difference. destruct (Hcl _ Hg') as [p0 Hh].
    destruct (Hback _ _ Hh) as (p & Hp & _). eauto.
  - intros id l Hl. destruct (Hloops _ _ Hl) as [Ho Hok]. split; [done|]. destruct l; simpl in *; try done.
    destruct Hok as [(p & Hh & <-) Hc]. split; [|done]. by apply Hback.
Qed.

Lemma disconnect_claim_ok g p timeout err m :
  lk_heap m !! g = Some p → link_ok m → link_ok (disconnect_claim g p timeout err m).
Proof.
  intros Hg [Hst Hid Hcur Hgen Hopen Hend Hstop Hcl Hloops Hlive]. unfold disconnect_claim, is_current.
  case_bool_decide as Hc; split; simpl; try done.
  - intros Hs Hca. rewrite (Hid Hs Hca). apply delete_empty.
  - intros id g'. rewrite lookup_delete_Some. intros [_ Hp]. eauto.
  - intros g' p' Hh Hd. destruct (Hopen _ _ Hh Hd) as [Hp|Hp]; [|right; set_solver].
    destruct (decide (lr_peer p = lr_peer p')) as [He|Hne].
    + right. rewrite <- He in Hp. rewrite Hc in Hp. injection Hp as <-. set_solver.
    + left. by rewrite lookup_delete_ne.
  - intros Hca g' p' Hh Hor. rewrite lookup_delete_Some. intros [Hne Hp].
    apply (Hend Hca _ _ Hh); [|done]. destruct Hor as [|[->%elem_of_singleton|]%elem_of_union]; auto.
    rewrite Hg in Hh. by injection Hh as <-.
  - intros Hca g' p' Hh. destruct (Hstop Hca _ _ Hh); [auto|right; set_solver].
  - intros g' [->%elem_of_singleton|]%elem_of_union; eauto.
  - intros id l Hl. destruct (Hloops _ _ Hl) as [Ho Hok]. split; [done|]. destruct l; simpl in *; try done.
    + rewrite lookup_delete_None. auto.
    + destruct Hok as [? Hu]. split; [done|]. intros g'. rewrite lookup_delete_Some. intros [_ ?]. auto.
    + rewrite lookup_delete_None. auto.
  - intros id. rewrite live_insert, lookup_delete_is_Some. split.
    + intros [[_ Ha]|[Hne Hl]]; [|by rewrite <- Hlive]. destruct timeout, Ha; done.
    + intros [Hne Hs]. right. by rewrite Hlive.
  - intros g' p' Hh Hd. destruct (Hopen _ _ Hh Hd); [auto|right; set_solver].
  - intros Hca g' p' Hh Hor. destruct Hor as [|[->%elem_of_singleton|]%elem_of_union]; try by apply (Hend Hca _ _ Hh); auto.
    rewrite Hg in Hh. injection Hh as <-. done.
  - intros Hca g' p' Hh. destruct (Hstop Hca _ _ Hh); [auto|right; set_solver].
  - intros g' [->%elem_of_singleton|]%elem_of_union; eauto.
Qed.

Lemma activate_ok id dir caps secrets now m :
  (∀ l, lk_loops m !! id = Some l → l = LoopEnded) → link_ok m → link_ok (activate id dir caps secrets now m).2.
Proof.
  intros Hends [Hst Hid Hcur Hgen Hopen Hend Hstop Hcl Hloops Hlive].
  unfold activate. destruct (lk_started m) eqn:Hs; simpl.
  2:{ split; simpl; try done. intros g p Hh. etrans; [by eapply Hgen|lia]. }
  specialize (Hst eq_refl). set (g0 := N.succ (lk_gen m)).
  assert (∀ g p, lk_heap m !! g = Some p → g ≠ g0) as Hfresh.
  { intros g p Hh ->. specialize (Hgen _ _ Hh). unfold g0 in Hgen. lia. }
  set (closing' := match lk_peers m !! id with Some old => {[old]} ∪ lk_closing m | None => lk_closing m end).
  assert (∀ g, g ∈ closing' ↔ lk_peers m !! id = Some g ∨ g ∈ lk_closing m) as Hclosing.
  { intros g. unfold closing'. destruct (lk_peers m !! id); set_solver. }
  split; simpl; try done.
  - intros id' g. rewrite lookup_insert_Some. intros [[<- <-]|[Hne Hp]].
    + eexists. by rewrite lookup_insert_eq.
    + destruct (Hcur _ _ Hp) as (p & Hh & ?). exists p. rewrite lookup_insert_ne; [done|]. intros ->. by destruct (Hfresh _ _ Hh).
  - intros g p. rewrite lookup_insert_Some. intros [[<- _]|[_ Hh]]; [unfold g0; lia|]. specialize (Hgen _ _ Hh). unfold g0. lia.
  - intros g p. rewrite lookup_insert_Some. intros [[<- <-]|[_ Hh]] Hd; simpl; [left; by rewrite lookup_insert_eq|].
    rewrite Hclosing. destruct (Hopen _ _ Hh Hd) as [Hp|]; [|auto].
    destruct (decide (id = lr_peer p)) as [->|Hne]; [auto|left; by rewrite lookup_insert_ne].
  - intros Hc g p. rewrite lookup_insert_Some. intros [[<- <-]|[Hne Hh]] Hor Hp; simpl in *.
    + destruct Hor as [|[Hp'|Hin]%Hclosing]; [done| |].
      * destruct (Hcur _ _ Hp') as (? & Hh & _). by destruct (Hfresh _ _ Hh).
      * destruct (Hcl _ Hin) as [? Hh]. by destruct (Hfresh _ _ Hh).
    + apply lookup_insert_Some in Hp as [[_ ->]|[Hne' Hp]]; [by destruct (Hfresh _ _ Hh)|].
      apply (Hend Hc _ _ Hh); [|done]. rewrite Hclosing in Hor. destruct Hor as [|[Hp'|]]; auto.
      destruct (Hcur _ _ Hp') as (p' & Hh' & Hpe). rewrite Hh in Hh'. injection Hh' as <-. congruence.
  - intros Hc. congruence.
  - intros g [Hp|Hin]%Hclosing; rewrite lookup_insert_is_Some.
    + destruct (Hcur _ _ Hp) as (p & Hh & _). right. split; [|eauto]. intros ->. by destruct (Hfresh _ _ Hh).
    + destruct (Hcl _ Hin) as [p Hh]. right. split; [|eauto]. intros ->. by destruct (Hfresh _ _ Hh).
  - intros id' l Hl. destruct (Hloops _ _ Hl) as [Ho Hok]. split; [done|].
    destruct (decide (id = id')) as [<-|Hne]; [by rewrite (Hends _ Hl)|].
    destruct l; simpl in *; rewrite ?lookup_insert_ne by done; try done.
    destruct Hok as [(p & Hh & ?) Hu]. split; [|intros g'; rewrite lookup_insert_ne by done; apply Hu].
    exists p. rewrite lookup_insert_ne; [done|]. intros ->. by destruct (Hfresh _ _ Hh).
  - intros id'. rewrite live_insert, lookup_insert_is_Some, Hlive. split.
    + intros [[-> _]|[? ?]]; auto.
    + destruct (decide (id = id')) as [<-|]; [left; split; [done|by left]|intros [|[]]; auto]. done.
Qed.

(** ** The connect loop *)

Lemma retrying m id a : link_ok m → lk_loops m !! id = Some (LoopRetry a) ∨ lk_loops m !! id = Some (LoopTrying a) →
  outbound id ∧ lk_peers m !! id = None.
Proof. intros Hm [Hl|Hl]; by destruct (kn_loops m Hm _ _ Hl). Qed.

Lemma loop_retry_ok id a next m :
  outbound id → lk_peers m !! id = None → link_ok m → link_ok (loop_retry id a next m).
Proof.
  intros Ho Hp Hm. apply set_loop_ok; [done|done|]. apply updateStatus_down; [|done..]. by intros s [].
Qed.

Lemma loop_connected_ok id a caps secrets now m :
  outbound id → lk_peers m !! id = None → link_ok m → link_ok (loop_connected id a caps secrets now m).
Proof.
  intros Ho Hp Hm. pose proof (set_loop_ok id LoopEnded m Ho I Hm) as Hm1.
  pose proof (activate_ok id "outbound" caps secrets now (set_loop id LoopEnded m)) as Hact.
  assert (∀ l, lk_loops (set_loop id LoopEnded m) !! id = Some l → l = LoopEnded) as Hl.
  { intros l. simpl. rewrite lookup_insert_eq. by intros [= <-]. }
  specialize (Hact Hl Hm1). unfold loop_connected, activate in *. simpl in *. destruct (lk_started m); simpl in *.
  - eapply (set_loop_ok id (LoopUp (N.succ (lk_gen m)) a)) in Hact; [|done|].
    + unfold set_loop in *. simpl in *. by rewrite insert_insert_eq in Hact.
    + simpl. rewrite !lookup_insert_eq. split; [by eexists|congruence].
  - done.
Qed.

(** ** Starting *)

Lemma start_loops_outbound id l : start_loops r !! id = Some l → outbound id ∧ l = LoopRetry 0.
Proof.
  unfold start_loops. assert (∀ ps (m0 : gmap string LoopState), (∀ p, p ∈ ps → p ∈ reg_Peers r) →
    (∀ i l, m0 !! i = Some l → outbound i ∧ l = LoopRetry 0) →
    ∀ i l, foldl (λ l p, <[peer_ID p := LoopRetry 0]> l) m0 ps !! i = Some l → outbound i ∧ l = LoopRetry 0) as Hgen.
  { induction ps as [|p ps IH]; simpl; intros m0 Hps Hm0; [done|]. apply IH; [intros p' Hp'; apply Hps; by right|].
    intros i l'. rewrite lookup_insert_Some. intros [[<- <-]|[_ Hi]]; [|by apply Hm0].
    split; [|done]. exists p. split; [|done]. apply Hps. left. }
  apply Hgen; [done|]. intros i l'. by rewrite lookup_empty.
Qed.
Lemma start_status_down st id : (∀ id, ¬ live st id) → ¬ live (start_status r st) id.
Proof.
  intros Hst (s & Hs & Ha). unfold start_status in Hs.
  apply lookup_union_Some_raw in Hs as [Hs|[_ Hs]].
  - rewrite map_lookup_imap in Hs. destruct (reg_Accept r !! id); simplify_eq/=. by destruct Ha.
  - revert st Hst Hs. induction (reg_Peers r) as [|p ps IH]; simpl; intros st Hst Hs.
    + by destruct (Hst id); exists s.
    + apply (IH _) in Hs; [done|]. intros id' [[_ Hal]|[_ Hl]]%live_insert; [by destruct Hal|by apply Hst in Hl].
Qed.
Lemma Start_ok listens m : lk_canceled m = false → link_ok m → link_ok (Start r listens m).2.
Proof.
  intros Hc Hm. unfold Start. destruct (lk_started m) eqn:Hs; [done|]. pose proof (kn_idle m Hm Hs Hc) as Hempty.
  destruct Hm as [Hst Hid Hcur Hgen Hopen Hend Hstop Hcl Hloops Hlive].
  assert (∀ id, live (start_status r (lk_status m)) id ↔ is_Some (lk_peers m !! id)) as Hl.
  { intros id. rewrite Hempty, lookup_empty. split; [|by intros []]. intros Hl. exfalso. revert Hl.
    apply start_status_down. intros id'. rewrite Hlive, Hempty, lookup_empty. by intros []. }
  assert (∀ g p, lk_heap m !! g = Some p → lr_done p = true ∨ g ∈ lk_closing m) as Hdone.
  { intros g p Hh. destruct (lr_done p) eqn:Hd; [by left|]. destruct (Hopen _ _ Hh Hd) as [Hp|]; [|by right].
    by rewrite Hempty, lookup_empty in Hp. }
  destruct (reg_Serve r && negb listens); simpl; split; simpl; try done; try (intros _; by apply Hend).
  intros id l [Ho ->]%start_loops_outbound. split; [done|]. simpl. by rewrite Hempty.
Qed.
Lemma Stop_ok m : link_ok m → link_ok (Stop m).
Proof.
  intros Hm. unfold Stop. destruct (lk_started m) eqn:Hs; [|done]. simpl.
  destruct Hm as [Hst Hid Hcur Hgen Hopen Hend Hstop Hcl Hloops Hlive].
  assert (∀ g, g ∈ (list_to_set (map_to_list (lk_peers m)).*2 : gset N) ↔ ∃ id, lk_peers m !! id = Some g) as Hall.
  { intros g. rewrite elem_of_list_to_set, list_elem_of_fmap. split.
    - intros ([id g'] & -> & Hin%elem_of_map_to_list). eauto.
    - intros (id & Hp). exists (id, g). split; [done|]. by apply elem_of_map_to_list. }
  split; simpl; try done.
  - intros g p Hh Hd. rewrite elem_of_union. destruct (Hopen _ _ Hh Hd); auto.
  - intros _ g p Hh. rewrite elem_of_union, Hall. destruct (lr_done p) eqn:Hd; [by left|].
    destruct (Hopen _ _ Hh Hd); eauto.
  - intros g [(id & Hp)%Hall|]%elem_of_union; [|auto]. destruct (Hcur _ _ Hp) as (? & ? & _). eauto.
Qed.

(** ** Runs *)

Lemma reader_frame_ok g p version type now m :
  lk_heap m !! g = Some p → link_ok m → link_ok (reader_frame g p version type now m).2.
Proof.
  intros Hh Hm. unfold reader_frame. destruct (negb (version =? 1)); [by apply disconnect_claim_ok|].
  assert (link_ok (updateCurrent g p (on_link (link_seen now)) m)) as Hu
    by (apply updateCurrent_ok; [apply alive_link; auto|done]).
  repeat case_match; try done. apply disconnect_claim_ok; [|done].
  unfold updateCurrent. by destruct (is_current g p m).
Qed.
Lemma heartbeat_ok g p now m :
  lk_heap m !! g = Some p → link_ok m → link_ok (heartbeat_tick cfg g p now m).2.
Proof.
  intros Hh Hm. unfold heartbeat_tick. destruct (negb _); [done|].
  destruct (ls_LastSeen _); [|by apply disconnect_claim_ok].
  destruct (_ <=? _); [by apply disconnect_claim_ok|]. destruct (_ <=? _); [|done].
  apply updateCurrent_ok; [apply alive_link; auto|done].
Qed.

Lemma loop_up_down id g p a m : link_ok m → lk_loops m !! id = Some (LoopUp g a) →
  lk_heap m !! g = Some p → lr_done p = true → lk_canceled m = false →
  outbound id ∧ lk_peers m !! id = None.
Proof.
  intros Hm Hl Hh Hd Hc. destruct (kn_loops m Hm _ _ Hl) as [Ho [(p' & Hh' & Hp) Hu]]. split; [done|].
  rewrite Hh in Hh'. injection Hh' as <-. destruct (lk_peers m !! id) as [g'|] eqn:Hg; [|done].
  rewrite (Hu _ eq_refl), <- Hp in Hg. destruct (kn_ended m Hm Hc _ _ Hh (or_introl Hd) Hg).
Qed.

Lemma link_step_ok m m' : link_step m m' → link_ok m → link_ok m'.
Proof.
  intros Hst Hm. destruct Hst.
  - by apply Start_ok.
  - by apply Stop_ok.
  - apply activate_ok; [|done]. intros l Hl. destruct (kn_loops m Hm _ _ Hl) as [Ho _]. by destruct (Hdisjoint id Ho).
  - by apply updateStatus_keeps.
  - destruct (retrying m id a Hm) as [Ho Hp]; [auto|]. apply set_loop_ok; [done|done|].
    apply updateStatus_down; [|done..]. by intros s [].
  - destruct (retrying m id a Hm) as [Ho Hp]; [auto|]. destruct ok; [|by apply updateStatus_keeps].
    apply updateStatus_down; [|done..]. by intros s [].
  - destruct (retrying m id a Hm) as [Ho Hp]; [auto|]. apply loop_retry_ok; [done|done|]. by apply updateStatus_keeps.
  - destruct (retrying m id a Hm) as [Ho Hp]; [auto|]. by apply loop_connected_ok.
  - destruct (loop_up_down id g p a m) as [Ho Hp]; try done. unfold loop_dropped. by apply loop_retry_ok.
  - apply set_loop_ok; [|done|done]. by destruct (kn_loops m Hm id l).
  - by apply updateStatus_keeps.
  - by apply disconnect_claim_ok.
  - by apply close_link_ok.
  - by apply reader_frame_ok.
  - apply updateCurrent_ok; [apply alive_link; auto|done].
  - by apply heartbeat_ok.
Qed.

Lemma new_manager_ok : link_ok new_manager.
Proof.
  split; simpl; try done.
  intros id. unfold live. setoid_rewrite lookup_empty. split; [by intros (? & ? & _)|by intros []].
Qed.
Lemma reachable_link_ok m m' : rtc link_step m m' → link_ok m → link_ok m'.
Proof. induction 1 as [|m1 m2 m3 Hs _ IH]; [done|]. intros Hm. by apply IH, (link_step_ok _ _ Hs). Qed.

(** A connection that has lost its place never gets it back. *)
Definition gone (g : N) (m : Links) : Prop := (g ≤ lk_gen m)%N ∧ ∀ id, lk_peers m !! id ≠ Some g.

Lemma activate_gone g id dir caps secrets now m : gone g m → gone g (activate id dir caps secrets now m).2.
Proof.
  intros [Hle Hn]. unfold activate. destruct (lk_started m); simpl; (split; simpl; [lia|]).
  - intros id'. rewrite lookup_insert_Some. intros [[_ He]|[_ Hp]]; [lia|by apply Hn in Hp].
  - done.
Qed.
Lemma disconnect_gone g g' p t err m : gone g m → gone g (disconnect_claim g' p t err m).
Proof.
  intros [Hle Hn]. unfold disconnect_claim. destruct (is_current g' p m); simpl; (split; [done|]); simpl; [|done].
  intros id. rewrite lookup_delete_Some. intros [_ Hp]. by apply Hn in Hp.
Qed.
Lemma updateCurrent_gone g g' p f m : gone g m → gone g (updateCurrent g' p f m).
Proof. unfold updateCurrent. by destruct (is_current g' p m). Qed.
Lemma link_step_gone g m m' : link_step m m' → gone g m → gone g m'.
Proof.
  intros Hst Hg. destruct Hst; first [done | apply activate_gone; done | apply disconnect_gone; done
    | apply updateCurrent_gone; done | idtac].
  - unfold Start. destruct (lk_started m); [done|]. by destruct (reg_Serve r && negb listens).
  - unfold Stop. by destruct (lk_started m).
  - unfold loop_connected. pose proof (activate_gone g id "outbound" caps secrets now m Hg) as Ha.
    destruct (activate id "outbound" caps secrets now m) as [[g1|] m1]; done.
  - unfold reader_frame. repeat case_match; by repeat first [apply disconnect_gone | apply updateCurrent_gone].
  - unfold heartbeat_tick. repeat case_match; by repeat first [apply disconnect_gone | apply updateCurrent_gone].
Qed.
Lemma reachable_gone g m m' : rtc link_step m m' → gone g m → gone g m'.
Proof. induction 1 as [|m1 m2 m3 Hs _ IH]; [done|]. intros Hm. by apply IH, (link_step_gone g _ _ Hs). Qed.
End Steps.

(** A connection that is not current changes nothing that is published. *)
Lemma not_current_harmless cfg g p m :
  lk_peers m !! lr_peer p ≠ Some g →
  let unchanged m' := lk_peers m' = lk_peers m ∧ lk_status m' = lk_status m in
  (∀ timeout err, unchanged (disconnect_claim g p timeout err m)) ∧
  (∀ version type now, unchanged (reader_frame g p version type now m).2) ∧
  (∀ ms, unchanged (updateCurrent g p (on_link (link_rtt ms)) m)) ∧
  (∀ now, unchanged (heartbeat_tick cfg g p now m).2).
Proof.
  intros Hn. assert (is_current g p m = false) as Hc by by apply bool_decide_eq_false.
  assert (∀ f, updateCurrent g p f m = m) as Hu by (intros f; unfold updateCurrent; by rewrite Hc).
  cbv zeta. assert (∀ timeout err, lk_peers (disconnect_claim g p timeout err m) = lk_peers m ∧
    lk_status (disconnect_claim g p timeout err m) = lk_status m) as Hd.
  { intros timeout err. unfold disconnect_claim. by rewrite Hc. }
  split_and!; [done| | |].
  - intros version type now. unfold reader_frame. rewrite Hu. repeat case_match; simpl; done.
  - intros ms. by rewrite Hu.
  - intros now. unfold heartbeat_tick. by rewrite Hc.
Qed.

Section Registry.
Context `{NetLib} (cfg : MeshConfig) (r : Registry).

Lemma valid_disjoint : Registry_Validate r = Ok tt → ∀ id, outbound r id → ¬ inbound r id.
Proof.
  intros Hv id (p & Hp & <-) [t Ht]. apply Registry_Validate_ok in Hv.
  destruct (rv_peer r Hv p Hp) as (_ & _ & _ & _ & Hn & _). congruence.
Qed.

(** C13: With a valid registry, under any interleaving of handshakes, connect
    loops, readers, heartbeats, errors and shutdown, a peer is shown connected or
    stale exactly while it has a current connection, every connection still open
    is the current one of its peer or about to be closed, and after [Stop] none
    stays open once the pending closes have run. *)
Theorem link_status_accurate m :
  Registry_Validate r = Ok tt → rtc (link_step cfg r) new_manager m →
  (∀ id, (∃ s, lk_status m !! id = Some s ∧
            (ls_State (st_link s) = "connected" ∨ ls_State (st_link s) = "stale")) ↔ is_Some (lk_peers m !! id)) ∧
  (∀ g p, lk_heap m !! g = Some p → lr_done p = false →
     lk_peers m !! lr_peer p = Some g ∨ g ∈ lk_closing m) ∧
  (lk_canceled m = true → lk_closing m = ∅ → ∀ g p, lk_heap m !! g = Some p → lr_done p = true).
Proof.
  intros Hv Hr. pose proof (reachable_link_ok cfg r (valid_disjoint Hv) _ _ Hr (new_manager_ok r)) as Hm.
  split_and!; [apply (kn_live r m Hm)|apply (kn_open r m Hm)|].
  intros Hc He g p Hh. destruct (kn_stopped r m Hm Hc g p Hh) as [|Hin]; [done|]. rewrite He in Hin. set_solver.
Qed.

(** A disconnection is final for its connection: once a connection has been
    replaced or disconnected, then however long the system runs on, none of its
    late frames, round trips, heartbeats or disconnections changes a current
    connection or a published status again. *)
Theorem stale_connection_harmless m m' g p :
  Registry_Validate r = Ok tt → rtc (link_step cfg r) new_manager m →
  lk_heap m !! g = Some p → lk_peers m !! lr_peer p ≠ Some g → rtc (link_step cfg r) m m' →
  let unchanged m'' := lk_peers m'' = lk_peers m' ∧ lk_status m'' = lk_status m' in
  (∀ timeout err, unchanged (disconnect_claim g p timeout err m')) ∧
  (∀ version type now, unchanged (reader_frame g p version type now m').2) ∧
  (∀ ms, unchanged (updateCurrent g p (on_link (link_rtt ms)) m')) ∧
  (∀ now, unchanged (heartbeat_tick cfg g p now m').2).
Proof.
  intros Hv Hr Hh Hn Hr'. apply not_current_harmless.
  pose proof (reachable_link_ok cfg r (valid_disjoint Hv) _ _ Hr (new_manager_ok r)) as Hm.
  apply (reachable_gone cfg r g m m' Hr'). split; [by apply (kn_gen r m Hm g p)|].
  intros id Hp. destruct (kn_current r m Hm _ _ Hp) as (p' & Hh' & Hid). rewrite Hh in Hh'. injection Hh' as <-.
  congruence.
Qed.
End Registry.

(** * Retries and redaction

    Reconnecting is bounded and never spins, and error texts never carry the
    credentials they were redacted for. *)

(** ** Backoff *)

Definition duration_max : Z := 9223372036854775807.

Lemma retry_cap_loop_spec n max cap :
  0 ≤ cap → cap ≤ max → max ≤ duration_max →
  retry_cap_loop n max cap = Z.min max (cap * 2 ^ Z.of_nat n).
Proof.
  intros H0 Hle Hmax. unfold duration_max in Hmax. revert cap H0 Hle. induction n as [|n IH]; intros cap H0 Hle; simpl.
  - lia.
  - rewrite Nat2Z.inj_succ, Z.pow_succ_r by lia.
    assert (0 < 2 ^ Z.of_nat n) as Hpow by lia.
    destruct (Z.ltb_spec cap max) as [Hlt|]; [|nia].
    rewrite Z.quot_div_nonneg by lia. pose proof (Z.div_mod max 2 ltac:(lia)). pose proof (Z.mod_pos_bound max 2 ltac:(lia)).
    destruct (Z.ltb_spec (max / 2) cap).
    + nia.
    + rewrite s64_id by lia. rewrite IH by lia. f_equal. nia.
Qed.

Lemma exponentialRetryCap_spec attempt min max :
  0 ≤ min → 0 ≤ max ≤ duration_max →
  exponentialRetryCap attempt min max = Z.min max (min * 2 ^ Z.of_nat (pred attempt)).
Proof.
  intros H0 Hmax. unfold exponentialRetryCap. destruct (Z.leb_spec max min) as [Hle|Hlt].
  - assert (0 < 2 ^ Z.of_nat (pred attempt)) by lia. nia.
  - apply retry_cap_loop_spec; lia.
Qed.

Lemma retryBounds_spec cfg cause :
  cfg_ReconnectMin cfg ≤ cfg_ReconnectMax cfg →
  (retryBounds cfg cause).1 = cfg_ReconnectMin cfg ∧
  cfg_ReconnectMin cfg ≤ (retryBounds cfg cause).2 ≤ cfg_ReconnectMax cfg.
Proof.
  intros Hle. unfold retryBounds. destruct cause; simpl; try lia;
    destruct (Z.ltb_spec maxReachabilityProbeRetry (cfg_ReconnectMin cfg));
    match goal with |- context [?a <? ?b] => destruct (Z.ltb_spec a b) end; simpl; lia.
Qed.

(** The delay before the next attempt, for any cause and any number of
    failures: it is computed without overflow or panic, it is at least a quarter
    of the configured minimum, it is within the exponential window
    min(max, min * 2^(attempt-1)), which never exceeds the configured maximum,
    and after a failed probe or a dropped connection it also never exceeds five
    seconds unless the configured minimum does. *)
Theorem retry_delay_bounds cfg cause rand attempt :
  0 ≤ cfg_ReconnectMin cfg ≤ cfg_ReconnectMax cfg → cfg_ReconnectMax cfg < duration_max →
  (∀ n, 0 < n → 0 ≤ rand n < n) →
  let '(lo, hi) := retryBounds cfg cause in
  ∃ d, fullJitter rand attempt lo hi = Some d ∧ cfg_ReconnectMin cfg / 4 ≤ d ∧
    d ≤ cfg_ReconnectMin cfg * 2 ^ Z.of_nat (pred attempt) ∧ d ≤ cfg_ReconnectMax cfg ∧
    (cause = retryAfterProbeFailure ∨ cause = retryAfterConnectionDrop →
     d ≤ Z.max 5000000000 (cfg_ReconnectMin cfg)).
Proof.
  intros Hmin Hmax Hrand. destruct (retryBounds_spec cfg cause) as [Hlo Hhi]; [lia|].
  assert (cause = retryAfterProbeFailure ∨ cause = retryAfterConnectionDrop →
    (retryBounds cfg cause).2 ≤ Z.max 5000000000 (cfg_ReconnectMin cfg)) as Hfive.
  { intros Hc. unfold retryBounds, maxReachabilityProbeRetry. destruct Hc as [-> | ->]; simpl; repeat case_match; lia. }
  destruct (retryBounds cfg cause) as [lo hi]. simpl in *. subst lo. set (lo := cfg_ReconnectMin cfg) in *.
  unfold fullJitter. rewrite exponentialRetryCap_spec by lia.
  assert (1 ≤ 2 ^ Z.of_nat (pred attempt)) by lia.
  set (cap := Z.min hi _). assert (lo ≤ cap) by (unfold cap; nia).
  assert (cap ≤ hi ∧ cap ≤ lo * 2 ^ Z.of_nat (pred attempt)) as [] by (unfold cap; lia).
  rewrite Z.quot_div_nonneg by lia. pose proof (Z.div_le_upper_bound lo 4 lo ltac:(lia) ltac:(lia)).
  pose proof (Z.div_pos lo 4 ltac:(lia) ltac:(lia)). unfold duration_max in Hmax.
  destruct (Z.leb_spec cap 0) as [Hz|Hz].
  - exists 0. assert (lo = 0) as -> by lia. split_and!; try done; try lia.
  - rewrite s64_id by lia. destruct (Z.leb_spec (cap - lo / 4 + 1) 0); [lia|].
    eexists. split; [reflexivity|]. pose proof (Hrand (cap - lo / 4 + 1) ltac:(lia)).
    split_and!; try lia. intros Hc. specialize (Hfive Hc). lia.
Qed.

(** ** Redaction *)

Definition bracket (c : ascii) : bool := char_is "[" c || char_is "]" c.
(** A secret that the replacement text cannot recreate: tokens and their hashes
    are base64url and hexadecimal texts. *)
Definition redactable (t : string) : Prop :=
  t ≠ "" ∧ all_chars (λ c, negb (bracket c)) t = true ∧ contains t "REDACTED" = false.

Lemma cut_prefix_None p s : cut_prefix p s = None ↔ has_prefix p s = false.
Proof.
  revert s. induction p as [|a p IH]; intros [|b s]; simpl; try done.
  destruct (Ascii.eqb a b); simpl; [apply IH|done].
Qed.

Lemma prefix_of_redacted fuel secret t s :
  all_chars (λ c, negb (bracket c)) t = true → has_prefix t (redact_from fuel secret s) = true → has_prefix t s = true.
Proof.
  revert t s. induction fuel as [|fuel IH]; intros t s Ht; simpl; [done|].
  destruct t as [|a t]; [by destruct s|]. simpl in Ht. apply andb_true_iff in Ht as [Ha Ht].
  destruct (cut_prefix secret s) as [rest|].
  - simpl. intros [Heq _]%andb_true_iff. apply Ascii.eqb_eq in Heq. subst a. done.
  - destruct s as [|c s]; [done|]. simpl. rewrite !andb_true_iff. intros [? Hp]. split; [done|]. by apply IH.
Qed.

(** A text without [d] does not reach across a [d]. *)
Lemma prefix_before d t w y :
  all_chars (λ c, negb (Ascii.eqb c d)) t = true → has_prefix t (w +:+ String d y) = true → has_prefix t w = true.
Proof.
  revert w. induction t as [|a t IH]; intros w Ht; [by destruct w|].
  simpl in Ht. apply andb_true_iff in Ht as [Ha Ht]. destruct w as [|b w]; simpl.
  - rewrite andb_true_iff. intros [He _]. by rewrite He in Ha.
  - rewrite !andb_true_iff. intros [? ?]. split; [done|]. by apply IH.
Qed.
Lemma contains_before d t w y :
  t ≠ "" → all_chars (λ c, negb (Ascii.eqb c d)) t = true →
  contains t (w +:+ String d y) = true → contains t w = true ∨ contains t y = true.
Proof.
  intros Hne Ht. induction w as [|c w IH].
  - change (EmptyString +:+ String d y) with (String d y). cbn [contains]. rewrite orb_true_iff. intros [Hp|]; [|auto].
    left. apply (prefix_before d t "" y Ht) in Hp. by rewrite Hp.
  - change (String c w +:+ String d y) with (String c (w +:+ String d y)). cbn [contains]. rewrite !orb_true_iff.
    intros [Hp|Hc]; [|destruct (IH Hc); auto]. left. left. by apply (prefix_before d t (String c w) y Ht).
Qed.

Lemma contains_marker t y : redactable t → contains t ("[REDACTED]" +:+ y) = true → contains t y = true.
Proof.
  intros (Hne & Hb & Hr) Hc. assert (all_chars (λ c, negb (Ascii.eqb c "]")) t = true) as H2.
  { revert Hb. apply all_chars_impl. intros c. unfold bracket, char_is. rewrite negb_orb, andb_true_iff, (Ascii.eqb_sym c).
    by intros [_ ?]. }
  change ("[REDACTED]" +:+ y) with ("[REDACTED" +:+ String "]" y) in Hc.
  destruct (contains_before "]" t "[REDACTED" y Hne H2 Hc) as [Hm|]; [|done].
  cbn [contains] in Hm. fold (contains t "REDACTED") in Hm. apply orb_true_iff in Hm as [Hm|Hm].
  - destruct t as [|a t]; [done|]. cbn in Hm, Hb. apply andb_true_iff in Hm as [He _].
    apply Ascii.eqb_eq in He. by subst a.
  - exfalso. change (contains t "REDACTED" = true) in Hm. congruence.
Qed.

Lemma redact_keeps fuel secret t s :
  redactable t → contains t (redact_from fuel secret s) = true → contains t s = true.
Proof.
  intros Ht. revert s. induction fuel as [|fuel IH]; intros s; simpl; [done|].
  destruct (cut_prefix secret s) as [rest|] eqn:Hcut.
  - intros Hc%contains_marker%IH; [|done]. apply cut_prefix_spec in Hcut as ->.
    clear -Hc. induction secret as [|c secret IH]; [done|]. change (String c secret +:+ rest) with (String c (secret +:+ rest)).
    cbn [contains]. by rewrite IH, orb_true_r.
  - destruct s as [|c s]; [done|]. cbn [contains]. rewrite !orb_true_iff.
    intros [Hp|Hc]; [|right; by apply IH]. left.
    apply (prefix_of_redacted (S fuel) secret); [apply Ht|]. simpl. by rewrite Hcut.
Qed.

Lemma length_app_str (a b : string) : String.length (a +:+ b) = (String.length a + String.length b)%nat.
Proof. induction a as [|c a IH]; simpl; [done|]. by rewrite IH. Qed.

Lemma redact_removes fuel secret s :
  redactable secret → (String.length s < fuel)%nat → contains secret (redact_from fuel secret s) = false.
Proof.
  intros Hs. revert s. induction fuel as [|fuel IH]; intros s Hlen; [lia|]. simpl.
  destruct (cut_prefix secret s) as [rest|] eqn:Hcut.
  - apply not_true_iff_false. intros Hc%contains_marker; [|done]. apply cut_prefix_spec in Hcut as ->.
    rewrite IH in Hc; [done|]. destruct Hs as [Hne _]. destruct secret as [|c secret]; [done|].
    rewrite length_app_str in Hlen. simpl in Hlen. lia.
  - apply cut_prefix_None in Hcut. destruct s as [|c s]; [by cbn [contains]; rewrite Hcut|].
    cbn [contains]. rewrite IH by (simpl in Hlen; lia). rewrite orb_false_r. apply not_true_iff_false. intros Hp.
    assert (has_prefix secret (redact_from (S fuel) secret (String c s)) = true) as Hp'.
    { simpl. by rewrite (proj2 (cut_prefix_None _ _) Hcut). }
    apply prefix_of_redacted in Hp'; [congruence|apply Hs].
Qed.

Lemma contains_take n t s : contains t (str_take n s) = true → contains t s = true.
Proof.
  assert (∀ t n s, has_prefix t (str_take n s) = true → has_prefix t s = true) as Hp.
  { clear. induction t as [|a t IH]; intros n s; [by destruct s|]. destruct n, s; simpl; try done.
    rewrite !andb_true_iff. intros [? ?]. eauto. }
  revert n. induction s as [|c s IH]; intros [|n]; try done; cbn [str_take contains]; rewrite !orb_true_iff.
  - intros [H|]; [|done]. left. by destruct t.
  - intros [H|H]; [left; by apply (Hp t (S n) (String c s))|eauto].
Qed.
Lemma length_take n s : (String.length (str_take n s) ≤ n)%nat.
Proof. revert s. induction n as [|n IH]; intros [|c s]; simpl; try lia. specialize (IH s). lia. Qed.

Lemma sanitize_fold secrets text t :
  redactable t → Forall redactable secrets → t ∈ secrets ∨ contains t text = false →
  contains t (foldl (λ s secret, if String.eqb secret "" then s else redact secret s) text secrets) = false.
Proof.
  intros Ht Hs. revert text. induction Hs as [|secret secrets Hsec _ IH]; intros text Hor; simpl.
  { destruct Hor as [?%elem_of_nil|]; done. }
  apply IH. destruct (String.eqb_spec secret "") as [->|Hne]; [by destruct Hsec|].
  destruct Hor as [Hin|Hc].
  - apply elem_of_cons in Hin as [->|Hin]; [right|by left]. unfold redact. apply redact_removes; [done|lia].
  - right. apply not_true_iff_false. intros Hc'%redact_keeps; [congruence|done].
Qed.

(** C14: An error text that is published for a peer never contains any of the
    credentials it is redacted for, even where redactions meet or the text is cut,
    never exceeds 240 bytes, and does not show a credential the text did not. *)
Theorem sanitized_errors_are_safe err secrets t :
  Forall redactable secrets → redactable t → t ∈ secrets ∨ (∀ text, err = Some text → contains t text = false) →
  contains t (sanitizeSecretsError err secrets) = false ∧ str_len (sanitizeSecretsError err secrets) ≤ 240.
Proof.
  intros Hs Ht Hor. unfold sanitizeSecretsError. destruct err as [text|].
  - assert (contains t (foldl (λ s secret, if String.eqb secret "" then s else redact secret s) text secrets) = false) as Hc.
    { apply sanitize_fold; [done..|]. destruct Hor; auto. }
    set (safe := foldl _ _ _) in *. destruct (Z.ltb_spec 240 (str_len safe)) as [Hlt|Hle]; [|done]. split.
    + apply not_true_iff_false. intros Hc'%contains_take. congruence.
    + unfold str_len. pose proof (length_take 240 safe). lia.
  - split; [|unfold str_len; simpl; lia]. destruct Ht as [Hne _]. by destruct t.
Qed.
