(* ===== verification/PeerPing.v ===== *)
(** internal/mesh/mesh.go, pings: the table of pings that wait for their pong,
    and who closes the channel each waits on. *)

From S2P Require Import Prelude GoText.
From stdpp Require Import base gmap strings list fin_maps relations.
From Stdlib Require Import ZArith Lia Ascii.

(** A result channel: the round trips in it and whether it is closed. *)
Record PingChan := mkPingChan { pc_values : list Z; pc_closed : bool }.

(** [p.pending], [p.done], the control queue, and every result channel made;
    [pg_sending] are the tracked pings between their registration and the outcome
    of their [enqueue]. [pg_panic] is a close of, or a send on, a closed channel. *)
Record Pings := mkPings {
  pg_pending : gmap string nat; pg_chans : gmap nat PingChan; pg_next : nat;
  pg_sending : gmap nat string; pg_queue : Chan string; pg_done : bool; pg_panic : bool }.

Definition new_pings (queue : nat) : Pings := mkPings ∅ ∅ 0 ∅ (mkChan queue []) false false.

(** [close(ch)] *)
Definition close_chan (ch : nat) (s : Pings) : Pings :=
  match pg_chans s !! ch with
  | Some c =>
      mkPings (pg_pending s) (<[ch := mkPingChan (pc_values c) true]> (pg_chans s)) (pg_next s) (pg_sending s)
        (pg_queue s) (pg_done s) (pg_panic s || pc_closed c)
  | None => s
  end.
(** [select { case ch <- rtt: default: }] on a channel with one slot *)
Definition offer (ch : nat) (rtt : Z) (s : Pings) : Pings :=
  match pg_chans s !! ch with
  | Some c =>
      mkPings (pg_pending s)
        (<[ch := mkPingChan (match pc_values c with [] => [rtt] | l => l end) (pc_closed c)]> (pg_chans s)) (pg_next s)
        (pg_sending s) (pg_queue s) (pg_done s) (pg_panic s || pc_closed c)
  | None => s
  end.
Definition forget (id : string) (s : Pings) : Pings :=
  mkPings (delete id (pg_pending s)) (pg_chans s) (pg_next s) (pg_sending s) (pg_queue s) (pg_done s) (pg_panic s).

(** [sendPing] with [tracked], up to its [enqueue]. *)
Definition sendPing_register (id : string) (s : Pings) : Pings :=
  let ch := pg_next s in
  mkPings (<[id := ch]> (pg_pending s)) (<[ch := mkPingChan [] false]> (pg_chans s)) (S ch)
    (<[ch := id]> (pg_sending s)) (pg_queue s) (pg_done s) (pg_panic s).

(** [enqueue] *)
Definition ping_enqueue (id : string) (s : Pings) : option Pings :=
  if pg_done s then None else
  q ← try_send (pg_queue s) id;
  Some (mkPings (pg_pending s) (pg_chans s) (pg_next s) (pg_sending s) q (pg_done s) (pg_panic s)).

Definition sent (ch : nat) (s : Pings) : Pings :=
  mkPings (pg_pending s) (pg_chans s) (pg_next s) (delete ch (pg_sending s)) (pg_queue s) (pg_done s) (pg_panic s).

(** The rest of [sendPing] for a registered ping: its entry is dropped and its
    channel closed when the frame could not be queued. *)
Definition sendPing_finish (ch : nat) (id : string) (s : Pings) : Pings :=
  match ping_enqueue id s with
  | Some s' => sent ch s'
  | None => close_chan ch (forget id (sent ch s))
  end.

(** The reader on a pong, and [removePending]. *)
Definition pong (id : string) (rtt : Z) (s : Pings) : Pings :=
  match pg_pending s !! id with
  | Some ch => close_chan ch (offer ch rtt (forget id s))
  | None => s
  end.
Definition removePending (id : string) (s : Pings) : Pings :=
  match pg_pending s !! id with
  | Some ch => close_chan ch (forget id s)
  | None => s
  end.

(** [close]: first [done], later the waiting pings. *)
Definition close_done (s : Pings) : Pings :=
  mkPings (pg_pending s) (pg_chans s) (pg_next s) (pg_sending s) (pg_queue s) true (pg_panic s).
Definition close_waiting (s : Pings) : Pings :=
  foldl (λ s e, close_chan e.2 (forget e.1 s)) s (map_to_list (pg_pending s)).

Inductive ping_step : Pings → Pings → Prop :=
| pi_register id s : ping_step s (sendPing_register id s)
| pi_finish ch id s : pg_sending s !! ch = Some id → ping_step s (sendPing_finish ch id s)
| pi_write id q s : try_recv (pg_queue s) = Some (id, q) →
    ping_step s (mkPings (pg_pending s) (pg_chans s) (pg_next s) (pg_sending s) q (pg_done s) (pg_panic s))
| pi_pong id rtt s : ping_step s (pong id rtt s)
| pi_remove id s : ping_step s (removePending id s)
| pi_done s : ping_step s (close_done s)
| pi_waiting s : pg_done s = true → ping_step s (close_waiting s).

(** ** Channels are closed once *)

Record pings_ok (s : Pings) : Prop := {
  pk_open : ∀ id ch, pg_pending s !! id = Some ch → ∃ c, pg_chans s !! ch = Some c ∧ pc_closed c = false;
  pk_inj : ∀ i j ch, pg_pending s !! i = Some ch → pg_pending s !! j = Some ch → i = j;
  pk_next : ∀ ch c, pg_chans s !! ch = Some c → (ch < pg_next s)%nat;
}.

(** Closing the channel of a pending entry that has just been dropped. *)
Lemma close_pending_ok id ch s : pings_ok s → pg_pending s !! id = Some ch →
  pings_ok (close_chan ch (forget id s)) ∧ pg_panic (close_chan ch (forget id s)) = pg_panic s ∧
  pg_pending (close_chan ch (forget id s)) = delete id (pg_pending s) ∧
  pg_done (close_chan ch (forget id s)) = pg_done s ∧
  pg_queue (close_chan ch (forget id s)) = pg_queue s.
Proof.
  intros [Ho Hi Hn] Hp. destruct (Ho _ _ Hp) as (c & Hc & Hcl). unfold close_chan. simpl. rewrite Hc, Hcl, orb_false_r.
  split_and!; [|done..]. split; simpl.
  - intros j ch'. rewrite lookup_delete_Some. intros [Hne Hj]. destruct (Ho _ _ Hj) as (c' & Hc' & ?).
    exists c'. rewrite lookup_insert_ne; [done|]. intros <-. by destruct Hne; apply (Hi _ _ ch).
  - intros i j ch'. rewrite !lookup_delete_Some. intros [_ ?] [_ ?]. by apply (Hi _ _ ch').
  - intros ch' c'. rewrite lookup_insert_Some. intros [[<- _]|[_ ?]]; eauto.
Qed.

Lemma offer_ok ch rtt s id : pings_ok s → pg_pending s !! id = Some ch →
  pings_ok (offer ch rtt s) ∧ pg_panic (offer ch rtt s) = pg_panic s ∧ pg_pending (offer ch rtt s) = pg_pending s.
Proof.
  intros [Ho Hi Hn] Hp. destruct (Ho _ _ Hp) as (c & Hc & Hcl). unfold offer. rewrite Hc, Hcl, orb_false_r.
  split_and!; [|done..]. split; simpl; [|done|].
  - intros j ch' Hj. destruct (decide (ch = ch')) as [<-|Hne].
    + rewrite lookup_insert_eq. by eexists.
    + rewrite lookup_insert_ne by done. by apply (Ho _ _ Hj).
  - intros ch' c'. rewrite lookup_insert_Some. intros [[<- _]|[_ ?]]; eauto.
Qed.

Lemma forget_offer ch rtt id s : offer ch rtt (forget id s) = forget id (offer ch rtt s).
Proof. unfold offer, forget. simpl. by destruct (pg_chans s !! ch). Qed.

Lemma pong_ok id rtt s : pings_ok s → pings_ok (pong id rtt s) ∧ pg_panic (pong id rtt s) = pg_panic s.
Proof.
  intros Hs. unfold pong. destruct (pg_pending s !! id) as [ch|] eqn:Hp; [|done].
  rewrite forget_offer. destruct (offer_ok ch rtt s id Hs Hp) as (Ho & Hpa & Hpe). rewrite <- Hpe in Hp.
  destruct (close_pending_ok _ _ _ Ho Hp) as (? & -> & _). done.
Qed.
Lemma removePending_ok id s : pings_ok s → pings_ok (removePending id s) ∧ pg_panic (removePending id s) = pg_panic s.
Proof.
  intros Hs. unfold removePending. destruct (pg_pending s !! id) as [ch|] eqn:Hp; [|done].
  by destruct (close_pending_ok _ _ _ Hs Hp) as (? & -> & _).
Qed.

Lemma close_waiting_ok s : pings_ok s →
  pings_ok (close_waiting s) ∧ pg_panic (close_waiting s) = pg_panic s ∧ pg_pending (close_waiting s) = ∅.
Proof.
  intros Hs. unfold close_waiting.
  assert (∀ l s, NoDup l.*1 → (∀ i ch, pg_pending s !! i = Some ch ↔ (i, ch) ∈ l) → pings_ok s →
    let s' := foldl (λ s e, close_chan e.2 (forget e.1 s)) s l in
    pings_ok s' ∧ pg_panic s' = pg_panic s ∧ pg_pending s' = ∅) as Hfold.
  { clear. induction l as [|[i ch] l IH]; intros s Hnd Hl Hs; simpl.
    - split_and!; [done..|]. apply map_eq. intros i. rewrite lookup_empty.
      destruct (pg_pending s !! i) as [ch|] eqn:Hi; [|done]. apply Hl in Hi. by apply elem_of_nil in Hi.
    - apply NoDup_cons in Hnd as [Hni Hnd].
      assert (pg_pending s !! i = Some ch) as Hp by (apply Hl; left).
      destruct (close_pending_ok _ _ _ Hs Hp) as (Hok & Hpa & Hpe & _).
      destruct (IH (close_chan ch (forget i s)) Hnd) as (? & -> & ?); [|done|done].
      intros j ch'. rewrite Hpe, lookup_delete_Some, Hl, elem_of_cons. split.
      + by intros [Hne [[= -> ->]|?]].
      + intros Hin. split; [|auto]. intros <-. apply Hni, list_elem_of_fmap. by exists (i, ch'). }
  apply Hfold; [apply NoDup_fst_map_to_list| |done]. intros i ch. by rewrite elem_of_map_to_list.
Qed.

(** The one operation that closes a channel it may no longer own. *)
Definition abandoned (ch : nat) (id : string) (s : Pings) : Prop :=
  ping_enqueue id s = None ∧ pg_pending s !! id ≠ Some ch.

Lemma enqueue_same id s s' : ping_enqueue id s = Some s' → pings_ok s → pings_ok s' ∧ pg_panic s' = pg_panic s.
Proof.
  unfold ping_enqueue. destruct (pg_done s); [done|]. destruct (try_send _ _); [|done].
  intros [= <-] [? ? ?]. by split.
Qed.

Lemma ping_register_ok id s : pings_ok s → pings_ok (sendPing_register id s).
Proof.
  intros [Ho Hi Hn]. split; simpl.
  - intros j ch. rewrite lookup_insert_Some. intros [[<- <-]|[_ Hj]]; [rewrite lookup_insert_eq; by eexists|].
    destruct (Ho _ _ Hj) as (c & Hc & ?). exists c. rewrite lookup_insert_ne; [done|].
    intros <-. specialize (Hn _ _ Hc). lia.
  - assert (∀ j, pg_pending s !! j ≠ Some (pg_next s)) as Hfresh.
    { intros j Hj. destruct (Ho _ _ Hj) as (c & Hc & _). specialize (Hn _ _ Hc). lia. }
    intros i j ch. rewrite !lookup_insert_Some.
    intros [[<- <-]|[_ Hi']] [[<- He]|[_ Hj]]; try done; [by apply Hfresh in Hj|subst; by apply Hfresh in Hi'|].
    by apply (Hi _ _ ch).
  - intros ch c. rewrite lookup_insert_Some. intros [[<- _]|[_ Hc]]; [lia|]. specialize (Hn _ _ Hc). lia.
Qed.

Lemma ping_step_ok s1 s2 :
  ping_step s1 s2 → (∀ ch id, pg_sending s1 !! ch = Some id → ¬ abandoned ch id s1) →
  pings_ok s1 → pings_ok s2 ∧ pg_panic s2 = pg_panic s1.
Proof.
  intros Hst Hna Hok. destruct Hst as [id s1|ch id s1 Hs|id q s1 Hq|id rtt s1|id s1|s1|s1 Hd].
  - split; [by apply ping_register_ok|done].
  - unfold sendPing_finish. destruct (ping_enqueue id s1) as [s2|] eqn:He.
    + destruct (enqueue_same _ _ _ He Hok) as [[? ? ?] ?]. split; [by split|done].
    + specialize (Hna _ _ Hs). unfold abandoned in Hna.
      destruct (decide (pg_pending s1 !! id = Some ch)) as [Hp|Hp]; [|by destruct Hna].
      assert (pings_ok (sent ch s1)) as Hok' by (destruct Hok; by split).
      by destruct (close_pending_ok id ch (sent ch s1) Hok' Hp) as (? & ? & _).
  - destruct Hok. split; [by split|done].
  - by apply pong_ok.
  - by apply removePending_ok.
  - destruct Hok. split; [by split|done].
  - by destruct (close_waiting_ok s1 Hok) as (? & ? & _).
Qed.

(** The channel a ping waits on is closed once: however pings, pongs (forged
    ones included), timeouts and the closing of the connection interleave, no
    step closes or sends on a closed channel as long as no ping whose frame cannot
    be queued has lost its table entry in the meantime; and closing the connection
    releases every ping that still waits. *)
Theorem ping_channels_closed_once queue s s' :
  rtc (λ s1 s2, ping_step s1 s2 ∧ ∀ ch id, pg_sending s1 !! ch = Some id → ¬ abandoned ch id s1) (new_pings queue) s →
  ping_step s s' → (∀ ch id, pg_sending s !! ch = Some id → ¬ abandoned ch id s) →
  pg_panic s' = false ∧ pg_pending (close_waiting s) = ∅.
Proof.
  intros Hr Hst Hna.
  assert (pings_ok s ∧ pg_panic s = false) as [Hok Hp].
  { assert (pings_ok (new_pings queue) ∧ pg_panic (new_pings queue) = false) as H0 by (split; [by split|done]).
    revert H0. clear Hst Hna. induction Hr as [|s1 s2 s3 [Hs Ha] _ IH]; [done|]. intros [Hok Hp]. apply IH.
    destruct (ping_step_ok _ _ Hs Ha Hok) as [? ->]. done. }
  destruct (ping_step_ok _ _ Hst Hna Hok) as [_ ->]. split; [done|]. by apply close_waiting_ok.
Qed.

(** A connection that closes between the registration of a ping and its
    [enqueue] closes the ping's channel, and the failing [enqueue] closes it
    again: the process panics. *)
Lemma ping_double_close :
  ∃ s, rtc ping_step (new_pings 1) s ∧ pg_panic s = true.
Proof.
  set (s1 := sendPing_register "t" (new_pings 1)). set (s3 := close_waiting (close_done s1)).
  exists (sendPing_finish 0 "t" s3). split; [|by vm_compute].
  eapply rtc_l; [apply (pi_register "t")|]. eapply rtc_l; [apply pi_done|].
  eapply rtc_l; [by apply pi_waiting|]. apply rtc_once, pi_finish. by vm_compute.
Qed.
