(* ===== verification/Screenstitch.v ===== *)
(** internal/screenstitch: merging overlapping screen captures into one
    transcript. A capture is a Go string; once [StripUniversal] has gone over
    its lines they are valid UTF-8, so a line is represented by its runes. The
    order in which Go ranges over the vote map is an argument of the functions
    that depend on it. *)

From S2P Require Import Prelude GoText RuneText.
From stdpp Require Import base gmap sets strings list.
From Stdlib Require Import ZArith Lia Ascii.

Open Scope Z_scope.

Definition Line : Type := list Z.

Definition AnchorMinLen : Z := 12.
Definition AnchorMinDistinct : Z := 6.
Definition MinAgreeingAnchors : Z := 2.
Definition RuleMinLen : Z := 30.
Definition DedupLookback : nat := 200.

Definition line_len (l : Line) : Z := Z.of_nat (length l).

(** ** Runes at the ends of a line *)

(** The cutsets [" \t"] and [" \t\r\n"]. *)
Definition is_blank (c : Z) : bool := (c =? 32) || (c =? 9).
Definition is_blank_or_eol (c : Z) : bool := is_blank c || (c =? 13) || (c =? 10).

(** ** Normalising a capture *)

(** The loop of [StripUniversal]; [csi] says that it is inside an escape
    sequence, which ends with its first byte from [@] to [~]. *)
Fixpoint strip_escapes (csi : bool) (l : Line) : Line :=
  match l with
  | [] => []
  | c :: l1 =>
      if csi then strip_escapes (negb (in_range 64 126 c)) l1
      else if c =? 27 then
        match l1 with
        | b :: l2 => if b =? 91 then strip_escapes true l2 else strip_escapes false l1
        | [] => []
        end
      else c :: strip_escapes false l1
  end.
Definition StripUniversal (line : string) : Line :=
  trim_right is_blank_or_eol (strip_escapes false (runes line)).

(** [strings.Split] on line feeds; one trailing empty element is dropped. *)
Definition raw_lines (raw : string) : list string :=
  let lines := split_on (ascii_of_nat 10) raw in
  match last lines with
  | Some EmptyString => take (length lines - 1) lines
  | _ => lines
  end.
Definition Normalize (raw : string) : list Line := StripUniversal <$> raw_lines raw.

(** ** The transcript region *)

Definition isRule (line : Line) : bool :=
  let t := TrimSpace line in
  if line_len t <? RuleMinLen then false
  else forallb (λ c, (c =? 9472) || (c =? 32)) t.

(** The last index from [n - 1] down to [start] whose line satisfies [p]. *)
Fixpoint last_index (p : Line → bool) (frame : list Line) (start n : nat) : option nat :=
  match n with
  | O => None
  | S i =>
      if (i <? start)%nat then None
      else if p (nth i frame []) then Some i else last_index p frame start i
  end.

Definition is_prompt (line : Line) : bool := runes_prefix [10095] (trim_left is_blank line).

Definition TranscriptRegion (frame : list Line) : list Line :=
  let n := length frame in
  match last_index is_prompt frame 0 n with
  | Some prompt => take (default prompt (last_index isRule frame 0 prompt)) frame
  | None => take (default n (last_index isRule frame (n * 2 / 3)%nat n)) frame
  end.

(** ** Anchors and the scroll delta *)

Definition ascii_alnum (c : Z) : bool := in_range 97 122 c || in_range 65 90 c || in_range 48 57 c.
Definition ascii_lower (c : Z) : Z := if in_range 65 90 c then c + 32 else c.

Definition isAnchor (line : Line) : bool :=
  let t := TrimSpace line in
  if line_len t <? AnchorMinLen then false
  else AnchorMinDistinct <=?
       Z.of_nat (size (list_to_set (ascii_lower <$> filter (λ c, ascii_alnum c = true) t) : gset Z)).

(** The loop that fills [count] and [idx], then the deletion of the repeated. *)
Fixpoint anchor_maps (i : nat) (frame : list Line) (count idx : gmap Line nat)
  : gmap Line nat * gmap Line nat :=
  match frame with
  | [] => (count, idx)
  | line :: rest =>
      if isAnchor line
      then anchor_maps (S i) rest (<[line := S (default O (count !! line))]> count) (<[line := i]> idx)
      else anchor_maps (S i) rest count idx
  end.
Definition uniqueAnchorIndex (frame : list Line) : gmap Line nat :=
  let '(count, idx) := anchor_maps 0 frame ∅ ∅ in
  filter (λ kv, count !! kv.1 = Some 1%nat) idx.

(** The votes: one per line that is a unique anchor of both frames. *)
Definition vote (cidx : gmap Line nat) (e : Line * nat) (tally : gmap Z Z) : gmap Z Z :=
  match cidx !! e.1 with
  | Some j => let d := Z.of_nat e.2 - Z.of_nat j in <[d := default 0 (tally !! d) + 1]> tally
  | None => tally
  end.
Definition tally_votes (pidx cidx : gmap Line nat) : gmap Z Z :=
  foldr (vote cidx) ∅ (map_to_list pidx).

Definition best_vote (votes : list (Z * Z)) : Z * Z :=
  foldl (λ b e, if b.2 <? e.2 then e else b) (0, 0) votes.

(** The entries of a vote map in the order one [range] visits them. *)
Definition Range : Type := gmap Z Z → list (Z * Z).

Definition ScrollDelta (range : Range) (prev cap : list Line) : Z * bool * Z :=
  let tally := tally_votes (uniqueAnchorIndex prev) (uniqueAnchorIndex cap) in
  let '(bestD, bestN) := best_vote (range tally) in
  if MinAgreeingAnchors <=? bestN then (bestD, true, bestN) else (0, false, 0).

Definition NewLines (range : Range) (prev cap : list Line) : list Line :=
  let '(d, ok, _) := ScrollDelta range prev cap in
  if negb ok then cap
  else if d =? 0 then []
  else if (0 <? d) && (d <=? Z.of_nat (length cap)) then drop (length cap - Z.to_nat d) cap
  else cap.

(** ** Volatile spans *)

Definition section_sign : Z := 167.

Fixpoint common_prefix (a b : Line) : nat :=
  match a, b with
  | x :: a', y :: b' => if x =? y then S (common_prefix a' b') else O
  | _, _ => O
  end.

Definition MaskVolatile (a b : Line) : Line :=
  if bool_decide (a = b) then a else
  let p := common_prefix a b in
  let q := common_prefix (rev (drop p a)) (rev (drop p b)) in
  take p a ++ [section_sign] ++ drop (length a - q) a.

Definition count_runes (p : Z → bool) (l : Line) : Z := Z.of_nat (length (filter (λ c, p c = true) l)).

(** [stableRatio(mask) >= 0.5]: the quotient of two small integers is at least
    a half in floating point exactly when it is. *)
Definition stable_half (mask : Line) : bool :=
  let total := count_runes (λ c, negb (is_space c)) mask in
  let total := if total =? 0 then 1 else total in
  total <=? 2 * count_runes ascii_alnum mask.

Definition isStatusUpdate (prevTail curTail : Line) : bool :=
  if bool_decide (prevTail = curTail) then false
  else let mask := MaskVolatile prevTail curTail in
       existsb (Z.eqb section_sign) mask && stable_half mask.

(** [-1] is [None]. *)
Definition lastNonblank (lines : list Line) : option nat :=
  last_index (λ l, negb (bool_decide (TrimSpace l = []))) lines 0 (length lines).

Fixpoint cut_at (sep : Z) (l : Line) : option (Line * Line) :=
  match l with
  | [] => None
  | c :: l' =>
      if c =? sep then Some ([], l')
      else match cut_at sep l' with Some (a, b) => Some (c :: a, b) | None => None end
  end.

Definition sameSkeleton (line skeleton : Line) : bool :=
  match cut_at section_sign skeleton with
  | None => false
  | Some (prefix, suffix) =>
      let lt := TrimSpace line in
      let pre := trim_left is_blank prefix in
      let suf := trim_right is_blank suffix in
      (bool_decide (pre = []) || runes_prefix pre lt) &&
      (bool_decide (suf = []) || runes_suffix suf lt) &&
      (line_len (TrimSpace prefix) <=? line_len lt)
  end.

(** ** The merger *)

Record Merger := mkMerger {
  mg_prev : list Line; mg_havePrev : bool; mg_transcript : list Line;
  mg_maxLines : Z; mg_lookback : nat }.

Definition NewMerger (maxLines : Z) : Merger := mkMerger [] false [] maxLines DedupLookback.

Definition dedupKey (l : Line) : Line := trim_right is_blank l.

(** The keys of the last [lookback] transcript lines. *)
Definition recent_keys (m : Merger) : gset Line :=
  list_to_set (dedupKey <$> drop (length (mg_transcript m) - mg_lookback m) (mg_transcript m)).

(** The closure [add], on [recent] and [kept]. *)
Definition add_line (l : Line) (st : gset Line * list Line) : gset Line * list Line :=
  let '(recent, kept) := st in
  let k := dedupKey l in
  if bool_decide (k = []) then st
  else if bool_decide (k ∈ recent) then st
  else ({[k]} ∪ recent, kept ++ [l]).

(** Whether [cur[i]] stands at its aligned position in [prev] unchanged or
    changed in a volatile span only. *)
Definition aligned_same (prev : list Line) (d : Z) (i : nat) (l : Line) : bool :=
  let pj := Z.of_nat i + d in
  if pj <? 0 then false
  else match prev !! Z.to_nat pj with
       | Some p => bool_decide (dedupKey p = dedupKey l) || isStatusUpdate p l
       | None => false
       end.

Fixpoint add_unaligned (prev : list Line) (d : Z) (i : nat) (cur : list Line)
    (st : gset Line * list Line) : gset Line * list Line :=
  match cur with
  | [] => st
  | l :: rest =>
      add_unaligned prev d (S i) rest (if aligned_same prev d i l then st else add_line l st)
  end.
Definition add_all (cur : list Line) (st : gset Line * list Line) : gset Line * list Line :=
  foldl (λ st l, add_line l st) st cur.

Definition trim_transcript (maxLines : Z) (transcript : list Line) : list Line :=
  if (0 <? maxLines) && (maxLines <? Z.of_nat (length transcript))
  then drop (length transcript - Z.to_nat maxLines) transcript else transcript.

(** [Ingest] after [Normalize]: the lines appended and the merger left. *)
Definition ingest_lines (range : Range) (m : Merger) (cur : list Line) : list Line * Merger :=
  let start := (recent_keys m, []) in
  let '(_, kept) :=
    if negb (mg_havePrev m) then add_all cur start
    else
      let '(d, ok, _) := ScrollDelta range (mg_prev m) cur in
      if negb ok then add_all cur start
      else add_unaligned (mg_prev m) d 0 cur start in
  (kept, mkMerger cur true (trim_transcript (mg_maxLines m) (mg_transcript m ++ kept))
           (mg_maxLines m) (mg_lookback m)).
Definition Ingest (range : Range) (m : Merger) (raw : string) : list Line * Merger :=
  ingest_lines range m (Normalize raw).

(** ** The recorder (daemon/recorder.go) *)

(** One recording: its merger, whether its log is open and the lines written
    to it, each ended by a line feed. *)
Record Recorder := mkRecorder { rc_merger : Merger; rc_open : bool; rc_log : list Line }.

(** [newRecorder] and the truncation of the log at the start of [loop]. *)
Definition newRecorder : Recorder := mkRecorder (NewMerger 0) true [].

(** One tick; [None] is a capture that failed. *)
Definition recorder_tick (range : Range) (capture : option string) (r : Recorder) : Recorder :=
  match capture with
  | None => r
  | Some raw =>
      let '(lines, m) := Ingest range (rc_merger r) raw in
      mkRecorder m (rc_open r) (if rc_open r then rc_log r ++ lines else rc_log r)
  end.
(** [stop] flushes and closes the log. *)
Definition recorder_stop (r : Recorder) : Recorder := mkRecorder (rc_merger r) false (rc_log r).
