(* ===== verification/StitchFacts.v ===== *)
(** Facts about the merging of screen captures: what a unique anchor is, how
    votes add up, what one capture adds, and that a scrolling log is put
    together again. *)

From S2P Require Import Prelude GoText RuneText Screenstitch.
From stdpp Require Import base gmap sets strings list.
From Stdlib Require Import ZArith Lia.

Open Scope Z_scope.

(** ** Keys *)

(** A normalised line carries no trailing white space, so it is its own key. *)
Lemma StripUniversal_key s : dedupKey (StripUniversal s) = StripUniversal s.
Proof.
  apply (trim_right_sub is_blank is_blank_or_eol); [|apply trim_right_idemp].
  intros c Hc. unfold is_blank_or_eol. by rewrite Hc.
Qed.
Lemma Normalize_keys raw : Forall (λ l, dedupKey l = l) (Normalize raw).
Proof.
  unfold Normalize. apply Forall_fmap, Forall_forall. intros s _. apply StripUniversal_key.
Qed.

Lemma isAnchor_nonblank l : isAnchor l = true → l ≠ [].
Proof. by intros Hl ->. Qed.

(** ** Unique anchors *)

(** What the two maps of [uniqueAnchorIndex] say of the lines already seen. *)
Definition anchors_seen (pre : list Line) (count idx : gmap Line nat) : Prop :=
  ∀ l, match count !! l with
       | None => idx !! l = None ∧ (isAnchor l = true → l ∉ pre)
       | Some n => isAnchor l = true ∧ ∃ i, idx !! l = Some i ∧ pre !! i = Some l ∧
           (n = 1%nat → ∀ j, pre !! j = Some l → j = i) ∧
           (n ≠ 1%nat → ∃ j, j ≠ i ∧ pre !! j = Some l) ∧ n ≠ O
       end.

Lemma lookup_snoc_inv (pre : list Line) line j l :
  (pre ++ [line]) !! j = Some l → pre !! j = Some l ∨ (j = length pre ∧ l = line).
Proof.
  intros Hj. apply lookup_app_Some in Hj as [?|[? Hj]]; [by left|right].
  destruct (j - length pre)%nat eqn:E; [|done]. injection Hj as <-. split; [lia|done].
Qed.
Lemma lookup_snoc_last (pre : list Line) line : (pre ++ [line]) !! length pre = Some line.
Proof. by rewrite lookup_app_r, Nat.sub_diag by lia. Qed.

Lemma anchors_seen_other pre line count idx l :
  l ≠ line → anchors_seen pre count idx →
  match count !! l with
  | None => idx !! l = None ∧ (isAnchor l = true → l ∉ pre ++ [line])
  | Some n => isAnchor l = true ∧ ∃ i, idx !! l = Some i ∧ (pre ++ [line]) !! i = Some l ∧
      (n = 1%nat → ∀ j, (pre ++ [line]) !! j = Some l → j = i) ∧
      (n ≠ 1%nat → ∃ j, j ≠ i ∧ (pre ++ [line]) !! j = Some l) ∧ n ≠ O
  end.
Proof.
  intros Hne Hseen. specialize (Hseen l). destruct (count !! l) as [n|].
  - destruct Hseen as (Ha & i & Hi & Hp & Huniq & Htwice & Hn). split; [done|]. exists i.
    split_and!; [done|by apply lookup_app_l_Some| | |done].
    + intros H1 j [Hj|[_ ->]]%lookup_snoc_inv; [by apply Huniq|done].
    + intros H1. destruct (Htwice H1) as (j & ? & Hj). exists j. split; [done|]. by apply lookup_app_l_Some.
  - destruct Hseen as [Hi Hp]. split; [done|]. intros Ha [?|?%list_elem_of_singleton]%elem_of_app; [|done].
    by apply Hp.
Qed.

Lemma anchors_seen_step pre line count idx :
  anchors_seen pre count idx → isAnchor line = true →
  anchors_seen (pre ++ [line]) (<[line := S (default O (count !! line))]> count) (<[line := length pre]> idx).
Proof.
  intros Hseen Hline l. destruct (decide (l = line)) as [->|Hne].
  - rewrite !lookup_insert_eq. split; [done|]. exists (length pre).
    split_and!; [done|apply lookup_snoc_last| | |done].
    + specialize (Hseen line). destruct (count !! line) as [n|]; simpl; [destruct Hseen as (_ & ? & _ & _ & _ & _ & ?); lia|].
      intros _ j [Hj|[? _]]%lookup_snoc_inv; [|done].
      destruct Hseen as [_ Hnot]. destruct (Hnot Hline). by apply list_elem_of_lookup_2 with j.
    + specialize (Hseen line). destruct (count !! line) as [n|]; simpl; [|done].
      intros _. destruct Hseen as (_ & i & _ & Hi & _). exists i. split; [|by apply lookup_app_l_Some].
      apply lookup_lt_Some in Hi. lia.
  - rewrite !lookup_insert_ne by done. by apply anchors_seen_other.
Qed.

Lemma anchors_seen_skip pre line count idx :
  anchors_seen pre count idx → isAnchor line = false → anchors_seen (pre ++ [line]) count idx.
Proof.
  intros Hseen Hline l. destruct (decide (l = line)) as [->|Hne]; [|by apply anchors_seen_other].
  specialize (Hseen line). destruct (count !! line) as [n|].
  - destruct Hseen as [Ha _]. by rewrite Ha in Hline.
  - destruct Hseen as [? _]. split; [done|]. by rewrite Hline.
Qed.

Lemma anchor_maps_seen frame pre count idx :
  anchors_seen pre count idx →
  let '(count', idx') := anchor_maps (length pre) frame count idx in anchors_seen (pre ++ frame) count' idx'.
Proof.
  revert pre count idx. induction frame as [|line frame IH]; intros pre count idx Hseen; simpl.
  { by rewrite app_nil_r. }
  assert (length (pre ++ [line]) = S (length pre)) as Hlen by (rewrite length_app; simpl; lia).
  replace (pre ++ line :: frame) with ((pre ++ [line]) ++ frame) by (by rewrite <- app_assoc).
  rewrite <- Hlen. destruct (isAnchor line) eqn:Ha; apply IH.
  - by apply anchors_seen_step.
  - by apply anchors_seen_skip.
Qed.

(** The map holds the anchors that occur once, with their position. *)
Lemma uniqueAnchorIndex_spec frame l i :
  uniqueAnchorIndex frame !! l = Some i ↔
  isAnchor l = true ∧ frame !! i = Some l ∧ ∀ j, frame !! j = Some l → j = i.
Proof.
  unfold uniqueAnchorIndex. pose proof (anchor_maps_seen frame [] ∅ ∅) as Hseen. simpl in Hseen.
  destruct (anchor_maps 0 frame ∅ ∅) as [count idx].
  assert (anchors_seen frame count idx) as H.
  { apply Hseen. intros k. rewrite !lookup_empty. split; [done|]. intros _. apply not_elem_of_nil. }
  clear Hseen. specialize (H l). rewrite map_lookup_filter_Some. simpl. destruct (count !! l) as [n|].
  - destruct H as (Ha & i' & Hi' & Hl & Huniq & Htwice & _). split.
    + intros [Hi [= ->]]. simplify_eq. by eauto.
    + intros (_ & Hi & Hone). assert (i' = i) as -> by (by apply Hone). split; [done|]. f_equal.
      destruct (decide (n = 1%nat)) as [|Hn]; [done|]. destruct (Htwice Hn) as (j & Hne & Hj).
      by destruct Hne; apply Hone.
  - destruct H as [-> Hnot]. split; [by intros [? _]|]. intros (Ha & Hi & _).
    destruct (Hnot Ha). by apply list_elem_of_lookup_2 with i.
Qed.

(** ** Votes *)

(** Entries that vote, and for what. *)
Definition votes_for (cidx : gmap Line nat) (d : Z) (e : Line * nat) : Prop :=
  ∀ j, cidx !! e.1 = Some j → Z.of_nat e.2 - Z.of_nat j = d.
Definition votes (cidx : gmap Line nat) (e : Line * nat) : bool := bool_decide (is_Some (cidx !! e.1)).

(** When all votes agree the tally has one entry, their number. *)
Lemma tally_agreed cidx d l :
  Forall (votes_for cidx d) l →
  foldr (vote cidx) ∅ l =
    (let n := length (filter (λ e, votes cidx e = true) l) in
     if (n =? 0)%nat then ∅ else {[d := Z.of_nat n]}).
Proof.
  induction 1 as [|e l He _ IH]; [done|]. cbn [foldr]. rewrite IH. clear IH.
  unfold vote at 1. rewrite filter_cons. destruct (cidx !! e.1) as [j|] eqn:Ej.
  - rewrite (He j Ej). rewrite decide_True by (apply bool_decide_eq_true_2; by exists j).
    cbn [length]. cbv zeta. set (n := length _). destruct n as [|n]; cbn [Nat.eqb].
    + by rewrite lookup_empty.
    + rewrite lookup_singleton_eq, insert_singleton_eq. cbn [default]. f_equal. unfold id. lia.
  - rewrite decide_False; [done|]. unfold votes. rewrite bool_decide_eq_true, Ej. by intros [? ?].
Qed.

Definition fair (range : Range) : Prop := ∀ m, range m ≡ₚ map_to_list m.

Lemma fair_singleton range d n : fair range → range {[d := n]} = [(d, n)].
Proof.
  intros Hf. specialize (Hf {[d := n]}). rewrite map_to_list_singleton in Hf.
  by apply Permutation_singleton_r in Hf.
Qed.

(** Two agreeing anchors and no disagreeing one decide the scroll. *)
Lemma ScrollDelta_agreed range prev cap d l1 i1 j1 l2 i2 j2 :
  fair range →
  (∀ l i j, isAnchor l = true → prev !! i = Some l → cap !! j = Some l → Z.of_nat i - Z.of_nat j = d) →
  uniqueAnchorIndex prev !! l1 = Some i1 → uniqueAnchorIndex cap !! l1 = Some j1 →
  uniqueAnchorIndex prev !! l2 = Some i2 → uniqueAnchorIndex cap !! l2 = Some j2 →
  l1 ≠ l2 →
  ∃ n, ScrollDelta range prev cap = (d, true, n).
Proof.
  intros Hfair Hd Hp1 Hc1 Hp2 Hc2 Hne. unfold ScrollDelta, tally_votes.
  rewrite (tally_agreed _ d).
  - set (n := length _). assert (2 ≤ n)%nat as Hn.
    { assert ([(l1, i1); (l2, i2)] ⊆ filter (λ e, votes (uniqueAnchorIndex cap) e = true)
        (map_to_list (uniqueAnchorIndex prev))) as Hsub.
      { intros e He. apply list_elem_of_filter.
        repeat (apply elem_of_cons in He as [->|He]; [split; [apply bool_decide_eq_true_2; simpl; rewrite ?Hc1, ?Hc2; by eexists|by apply elem_of_map_to_list]|]).
        by apply not_elem_of_nil in He. }
      apply NoDup_submseteq in Hsub; [apply submseteq_length in Hsub; exact Hsub|].
      repeat constructor; rewrite ?list_elem_of_singleton; [congruence|apply not_elem_of_nil]. }
    destruct n as [|n]; [lia|]. cbv zeta. cbn [Nat.eqb]. rewrite (fair_singleton range d _ Hfair).
    unfold best_vote. cbn [foldl fst snd]. rewrite (proj2 (Z.ltb_lt 0 _)) by lia.
    unfold MinAgreeingAnchors. rewrite (proj2 (Z.leb_le 2 _)) by lia. by eexists.
  - apply Forall_forall. intros [l i] Hi j Hj. apply elem_of_map_to_list in Hi. simpl in *.
    apply uniqueAnchorIndex_spec in Hi as (Ha & Hi & _), Hj as (_ & Hj & _). by eapply Hd.
Qed.

(** ** What one capture adds *)

Definition nonblank (l : Line) : bool := negb (bool_decide (dedupKey l = [])).
Lemma nonblank_true l : nonblank l = true ↔ dedupKey l ≠ [].
Proof. unfold nonblank. by rewrite negb_true_iff, bool_decide_eq_false. Qed.

(** The state of [add] after it was given the lines [given]. *)
Definition adding (r0 : gset Line) (given : list Line) (st : gset Line * list Line) : Prop :=
  st.1 = r0 ∪ list_to_set (dedupKey <$> st.2) ∧
  NoDup (dedupKey <$> st.2) ∧
  (∀ l, l ∈ st.2 → l ∈ given ∧ dedupKey l ≠ [] ∧ dedupKey l ∉ r0) ∧
  (∀ l, l ∈ given → dedupKey l ≠ [] → dedupKey l ∈ st.1).

Lemma adding_start r0 : adding r0 [] (r0, []).
Proof.
  split_and!; simpl; [set_solver|constructor|..]; intros l Hl; by apply not_elem_of_nil in Hl.
Qed.

Lemma adding_skip r0 given l st :
  adding r0 given st → (dedupKey l ≠ [] → dedupKey l ∈ st.1) → adding r0 (given ++ [l]) st.
Proof.
  intros (Hr & Hnd & Hk & Hg) Hl. split_and!; [done|done| |].
  - intros l' Hl'. destruct (Hk l' Hl') as (? & ? & ?). rewrite elem_of_app. auto.
  - intros l' [?| ->%list_elem_of_singleton]%elem_of_app; auto.
Qed.

Lemma adding_line r0 given l st : adding r0 given st → adding r0 (given ++ [l]) (add_line l st).
Proof.
  intros Hst. destruct st as [recent kept]. unfold add_line.
  destruct (bool_decide_reflect (dedupKey l = [])) as [|Hne]; [by apply adding_skip|].
  destruct (bool_decide_reflect (dedupKey l ∈ recent)) as [|Hnot]; [by apply adding_skip|].
  destruct Hst as (Hr & Hnd & Hk & Hg). simpl in *. split_and!; simpl.
  - rewrite Hr, fmap_app, list_to_set_app_L. simpl. set_solver.
  - rewrite fmap_app, NoDup_app. split_and!; [done| |apply NoDup_singleton].
    intros k Hk1 Hk2%list_elem_of_singleton. subst k. set_solver.
  - intros l' [Hl'| ->%list_elem_of_singleton]%elem_of_app; rewrite elem_of_app, list_elem_of_singleton.
    + destruct (Hk l' Hl') as (? & ? & ?). auto.
    + split_and!; [by right|done|set_solver].
  - intros l' [Hl'| ->%list_elem_of_singleton]%elem_of_app Hne'; [|set_solver].
    apply elem_of_union_r. auto.
Qed.

Lemma adding_all r0 cur given st : adding r0 given st → adding r0 (given ++ cur) (add_all cur st).
Proof.
  revert given st. induction cur as [|l cur IH]; intros given st Hst; simpl; [by rewrite app_nil_r|].
  replace (given ++ l :: cur) with ((given ++ [l]) ++ cur) by (by rewrite <- app_assoc).
  apply IH. by apply adding_line.
Qed.

(** Lines with new, distinct keys are all added, but for the blank ones. *)
Lemma add_all_new cur recent kept :
  (∀ l, l ∈ cur → dedupKey l ≠ [] → dedupKey l ∉ recent) →
  NoDup (dedupKey <$> filter (λ l, nonblank l = true) cur) →
  (add_all cur (recent, kept)).2 = kept ++ filter (λ l, nonblank l = true) cur.
Proof.
  revert recent kept. induction cur as [|l cur IH]; intros recent kept Hnew Hnd; [by rewrite app_nil_r|].
  change (add_all (l :: cur) (recent, kept)) with (add_all cur (add_line l (recent, kept))).
  assert (∀ l', l' ∈ cur → dedupKey l' ≠ [] → dedupKey l' ∉ recent) as Hnew' by (intros; apply Hnew; [by right|done]).
  unfold add_line. destruct (bool_decide_reflect (dedupKey l = [])) as [Hb|Hb].
  - rewrite filter_cons_False in Hnd |- * by (rewrite nonblank_true; by intros Hn). by apply IH.
  - assert (nonblank l = true) as Hnb by (by apply nonblank_true).
    rewrite bool_decide_eq_false_2 by (apply Hnew; [by left|done]).
    rewrite filter_cons_True in Hnd |- * by done. rewrite fmap_cons, NoDup_cons in Hnd. destruct Hnd as [Hl Hnd].
    rewrite IH; [by rewrite <- app_assoc| |done].
    intros l' Hl' Hne. rewrite elem_of_union, elem_of_singleton. intros [Heq|?]; [|by destruct (Hnew' l')].
    destruct Hl. rewrite <- Heq. apply list_elem_of_fmap_2, list_elem_of_filter. by rewrite nonblank_true.
Qed.

(** The lines the aligned comparison lets through. *)
Fixpoint unaligned (prev : list Line) (d : Z) (i : nat) (cur : list Line) : list Line :=
  match cur with
  | [] => []
  | l :: rest =>
      if aligned_same prev d i l then unaligned prev d (S i) rest else l :: unaligned prev d (S i) rest
  end.

Lemma add_unaligned_eq prev d i cur st :
  add_unaligned prev d i cur st = add_all (unaligned prev d i cur) st.
Proof.
  revert i st. induction cur as [|l cur IH]; intros i st; simpl; [done|].
  rewrite IH. by destruct (aligned_same prev d i l).
Qed.
Lemma unaligned_sub prev d i cur l : l ∈ unaligned prev d i cur → l ∈ cur.
Proof.
  revert i. induction cur as [|l' cur IH]; intros i; simpl; [done|].
  destruct (aligned_same _ _ _ _); [right; by eapply IH|].
  intros [->|?]%elem_of_cons; [by left|right; by eapply IH].
Qed.
Lemma unaligned_lookup prev d i cur j l :
  cur !! j = Some l → aligned_same prev d (i + j) l = false → l ∈ unaligned prev d i cur.
Proof.
  revert i j. induction cur as [|l' cur IH]; intros i [|j] Hj Hal; simpl in *; try done.
  - injection Hj as ->. rewrite Nat.add_0_r in Hal. rewrite Hal. by left.
  - rewrite <- Nat.add_succ_comm in Hal. specialize (IH _ _ Hj Hal).
    destruct (aligned_same prev d i l'); [done|by right].
Qed.
Lemma unaligned_app prev d i a b :
  (∀ j l, a !! j = Some l → aligned_same prev d (i + j) l = true) →
  unaligned prev d i (a ++ b) = unaligned prev d (i + length a) b.
Proof.
  revert i. induction a as [|l a IH]; intros i Ha; simpl; [by rewrite Nat.add_0_r|].
  pose proof (Ha O l eq_refl) as H0. rewrite Nat.add_0_r in H0. rewrite H0, <- Nat.add_succ_comm.
  apply IH. intros j l' Hj. rewrite Nat.add_succ_comm. by apply (Ha (S j)).
Qed.
Lemma unaligned_out prev d i cur :
  (length prev ≤ Z.to_nat (Z.of_nat i + d))%nat → 0 ≤ Z.of_nat i + d → unaligned prev d i cur = cur.
Proof.
  revert i. induction cur as [|l cur IH]; intros i Hlen Hpos; simpl; [done|].
  unfold aligned_same. rewrite (proj2 (Z.ltb_ge _ 0)) by lia.
  rewrite lookup_ge_None_2 by lia. f_equal. apply IH; lia.
Qed.

(** The lines of a capture that [add] is given. *)
Definition candidates (range : Range) (m : Merger) (cur : list Line) : list Line :=
  if negb (mg_havePrev m) then cur else
  let '(d, ok, _) := ScrollDelta range (mg_prev m) cur in
  if negb ok then cur else unaligned (mg_prev m) d 0 cur.

Lemma ingest_lines_eq range m cur :
  let kept := (add_all (candidates range m cur) (recent_keys m, [])).2 in
  ingest_lines range m cur =
    (kept, mkMerger cur true (trim_transcript (mg_maxLines m) (mg_transcript m ++ kept))
             (mg_maxLines m) (mg_lookback m)).
Proof.
  unfold ingest_lines, candidates. destruct (mg_havePrev m); cbn [negb]; [|by destruct (add_all _ _)].
  destruct (ScrollDelta _ _ _) as [[d ok] n]. destruct ok; cbn [negb]; [rewrite add_unaligned_eq|];
    by destruct (add_all _ _).
Qed.

Lemma candidates_sub range m cur l : l ∈ candidates range m cur → l ∈ cur.
Proof.
  unfold candidates. destruct (negb _); [done|]. destruct (ScrollDelta _ _ _) as [[d ok] n].
  destruct (negb ok); [done|]. apply unaligned_sub.
Qed.

(** A line that is not a candidate stood at its place in the last capture. *)
Definition seen_in_place (range : Range) (m : Merger) (cur : list Line) (i : nat) (l : Line) : Prop :=
  mg_havePrev m = true ∧ ∃ d n p,
    ScrollDelta range (mg_prev m) cur = (d, true, n) ∧ 0 ≤ Z.of_nat i + d ∧
    mg_prev m !! Z.to_nat (Z.of_nat i + d) = Some p ∧
    (dedupKey p = dedupKey l ∨ isStatusUpdate p l = true).

Lemma candidates_lookup range m cur i l :
  cur !! i = Some l → l ∈ candidates range m cur ∨ seen_in_place range m cur i l.
Proof.
  intros Hi. assert (l ∈ cur) as Hin by (by apply list_elem_of_lookup_2 with i).
  unfold candidates, seen_in_place. destruct (mg_havePrev m); cbn [negb]; [|by left].
  destruct (ScrollDelta _ _ _) as [[d ok] n]. destruct ok; cbn [negb]; [|by left].
  destruct (aligned_same (mg_prev m) d i l) eqn:Hal; [right|left; by eapply unaligned_lookup].
  split; [done|]. unfold aligned_same in Hal. destruct (Z.ltb_spec (Z.of_nat i + d) 0); [done|].
  destruct (mg_prev m !! _) as [p|] eqn:Hp; [|done]. exists d, n, p. split_and!; [done|done|done|].
  apply orb_true_iff in Hal as [?%bool_decide_eq_true|?]; auto.
Qed.

Lemma trim_transcript_unbounded n t : n ≤ 0 → trim_transcript n t = t.
Proof. intros Hn. unfold trim_transcript. by rewrite (proj2 (Z.ltb_ge 0 n)). Qed.
Lemma trim_transcript_bounded n t :
  0 < n → Z.of_nat (length (trim_transcript n t)) = Z.min n (Z.of_nat (length t)) ∧
          ∃ dropped, t = dropped ++ trim_transcript n t.
Proof.
  intros Hn. unfold trim_transcript. rewrite (proj2 (Z.ltb_lt 0 n)) by done. simpl.
  destruct (Z.ltb_spec n (Z.of_nat (length t))).
  - rewrite length_drop. split; [lia|]. eexists. symmetry. apply take_drop.
  - split; [lia|]. by exists [].
Qed.

(** Whatever a capture shows, [Ingest] appends no line twice and none
    that stands in the recent transcript; it loses no line: each non-blank
    line is in the recent transcript, is appended, or stood at its aligned
    place in the previous capture, unchanged or as a status line with the same
    skeleton; and the transcript is extended at its end, cut from its front
    only to respect the bound. *)
Theorem Ingest_lossless range m raw :
  let '(kept, m') := Ingest range m raw in
  NoDup kept ∧
  (∀ l, l ∈ kept → l ∈ Normalize raw ∧ l ≠ [] ∧ l ∉ recent_keys m) ∧
  (∀ i l, Normalize raw !! i = Some l → l ≠ [] →
     l ∈ recent_keys m ∨ l ∈ kept ∨ seen_in_place range m (Normalize raw) i l) ∧
  (mg_maxLines m ≤ 0 → mg_transcript m' = mg_transcript m ++ kept) ∧
  (0 < mg_maxLines m →
     Z.of_nat (length (mg_transcript m')) =
       Z.min (mg_maxLines m) (Z.of_nat (length (mg_transcript m ++ kept))) ∧
     ∃ dropped, mg_transcript m ++ kept = dropped ++ mg_transcript m') ∧
  mg_prev m' = Normalize raw ∧ mg_havePrev m' = true.
Proof.
  unfold Ingest. rewrite ingest_lines_eq. set (cur := Normalize raw).
  assert (∀ l, l ∈ cur → dedupKey l = l) as Hkey.
  { intros l Hl. by apply (proj1 (Forall_forall _ _) (Normalize_keys raw)). }
  pose proof (adding_all (recent_keys m) (candidates range m cur) [] _ (adding_start _)) as Hadd.
  rewrite app_nil_l in Hadd. destruct (add_all _ _) as [recent kept]. destruct Hadd as (Hr & Hnd & Hk & Hg). simpl in *.
  assert (∀ l, l ∈ kept → l ∈ cur ∧ dedupKey l = l) as Hcur.
  { intros l Hl. destruct (Hk l Hl) as (Hc%candidates_sub & _). auto. }
  split_and!; [by eapply NoDup_fmap_1| | |apply trim_transcript_unbounded|apply trim_transcript_bounded|done|done].
  - intros l Hl. destruct (Hk l Hl) as (_ & Hne & Hnot), (Hcur l Hl) as [? Heq]. by rewrite Heq in Hne, Hnot.
  - intros i l Hi Hne. assert (dedupKey l = l) as Heq by (apply Hkey; by apply list_elem_of_lookup_2 with i).
    destruct (candidates_lookup range m cur i l Hi) as [Hc|]; [|by auto].
    rewrite <- Heq in Hne. specialize (Hg l Hc Hne). rewrite Heq, Hr in Hg.
    apply elem_of_union in Hg as [?|(l' & -> & Hl')%elem_of_list_to_set%list_elem_of_fmap]; [by left|].
    right; left. destruct (Hcur l' Hl') as [_ ->]. done.
Qed.

(** ** A scrolling log is put together again *)

(** The lines [o] to [e - 1] of a log: what a screen shows of it. *)
Definition segment (L : list Line) (o e : nat) : list Line := drop o (take e L).

Lemma segment_lookup L o e i l : segment L o e !! i = Some l ↔ L !! (o + i)%nat = Some l ∧ (o + i < e)%nat.
Proof. unfold segment. rewrite lookup_drop, lookup_take_Some. done. Qed.
Lemma segment_length L o e : length (segment L o e) = (e `min` length L - o)%nat.
Proof. unfold segment. by rewrite length_drop, length_take. Qed.
Lemma segment_app L a b c : (a ≤ b)%nat → (b ≤ c)%nat → segment L a b ++ segment L b c = segment L a c.
Proof.
  intros Hab Hbc. apply list_eq. intros i. apply option_eq. intros l.
  rewrite lookup_app_Some, !segment_lookup, segment_length. split.
  - intros [[? ?]|(Hi & Hl & ?)]; [split; [done|lia]|]. apply lookup_lt_Some in Hl as Hlt.
    replace (a + i)%nat with (b + (i - (b `min` length L - a)))%nat by lia. split; [done|lia].
  - intros [Hl ?]. apply lookup_lt_Some in Hl as Hlt. destruct (decide (a + i < b)%nat); [by left|right].
    split; [lia|]. replace (b + (i - (b `min` length L - a)))%nat with (a + i)%nat by lia. split; [done|lia].
Qed.

(** Lines as [Normalize] leaves them, in which only the blank one repeats. *)
Definition log_lines (L : list Line) : Prop :=
  Forall (λ l, dedupKey l = l) L ∧
  ∀ a b l, L !! a = Some l → L !! b = Some l → l ≠ [] → a = b.
Definition two_anchors (L : list Line) (o e : nat) : Prop :=
  ∃ a b la lb, (o ≤ a)%nat ∧ (a < b)%nat ∧ (b < e)%nat ∧
    L !! a = Some la ∧ L !! b = Some lb ∧ isAnchor la = true ∧ isAnchor lb = true.

Section Scrolling.
Context (L : list Line) (HL : log_lines L).

Lemma log_key l : l ∈ L → dedupKey l = l.
Proof. destruct HL as [Hk _]. by apply (proj1 (Forall_forall _ _) Hk). Qed.
Lemma segment_in o e l : l ∈ segment L o e → ∃ i, L !! i = Some l ∧ (o ≤ i)%nat ∧ (i < e)%nat.
Proof. intros [i [? ?]%segment_lookup]%list_elem_of_lookup. exists (o + i)%nat. split_and!; [done|lia|lia]. Qed.

Lemma segment_unique o e a l :
  L !! a = Some l → isAnchor l = true → (o ≤ a)%nat → (a < e)%nat →
  uniqueAnchorIndex (segment L o e) !! l = Some (a - o)%nat.
Proof.
  intros Ha Hl Ho He. apply uniqueAnchorIndex_spec. split; [done|].
  rewrite segment_lookup. replace (o + (a - o))%nat with a by lia. split; [by split|].
  intros j [Hj _]%segment_lookup. assert (o + j = a)%nat; [|lia].
  destruct HL as [_ HL2]. by apply (HL2 _ _ l); [done..|apply isAnchor_nonblank].
Qed.

Lemma segment_scroll range o e o' e' :
  fair range → (o ≤ o')%nat → (e ≤ e')%nat → two_anchors L o' e →
  ∃ n, ScrollDelta range (segment L o e) (segment L o' e') = (Z.of_nat o' - Z.of_nat o, true, n).
Proof.
  intros Hfair Ho He (a & b & la & lb & ? & ? & ? & Ha & Hb & Hla & Hlb).
  apply (ScrollDelta_agreed _ _ _ _ la (a - o) (a - o') lb (b - o) (b - o')); [done| |apply segment_unique; (done || lia)..|].
  - intros l i j Hl [Hi _]%segment_lookup [Hj _]%segment_lookup.
    assert (o + i = o' + j)%nat; [|lia]. destruct HL as [_ HL2].
    by apply (HL2 _ _ l); [done..|apply isAnchor_nonblank].
  - intros ->. destruct HL as [_ HL2]. assert (a = b); [|lia].
    by apply (HL2 _ _ lb); [done..|apply isAnchor_nonblank].
Qed.

Lemma segment_unaligned o e o' e' :
  (o ≤ o')%nat → (o' ≤ e)%nat → (e ≤ e')%nat → (o' ≤ length L)%nat →
  unaligned (segment L o e) (Z.of_nat o' - Z.of_nat o) 0 (segment L o' e') = segment L e e'.
Proof.
  intros Ho Hoe He Hlen. rewrite <- (segment_app L o' e e') by done. rewrite unaligned_app.
  - apply unaligned_out; rewrite !segment_length; lia.
  - intros j l [Hj ?]%segment_lookup. unfold aligned_same. rewrite (proj2 (Z.ltb_ge _ 0)) by lia.
    replace (segment L o e !! _) with (Some l).
    + by rewrite bool_decide_eq_true_2.
    + symmetry. apply segment_lookup. replace (o + _)%nat with (o' + j)%nat by lia. split; [done|lia].
Qed.

Definition shown (o e : nat) : list Line := filter (λ l, nonblank l = true) (segment L o e).

Lemma shown_app a b c : (a ≤ b)%nat → (b ≤ c)%nat → shown a c = shown a b ++ shown b c.
Proof. intros. unfold shown. by rewrite <- filter_app, segment_app. Qed.

Lemma shown_NoDup o e : NoDup (dedupKey <$> shown o e).
Proof.
  assert (dedupKey <$> shown o e = shown o e) as ->.
  { rewrite <- (list_fmap_id (shown o e)) at 2. apply list_fmap_ext. intros i l Hi.
    apply list_elem_of_lookup_2, list_elem_of_filter in Hi as [_ Hin].
    apply segment_in in Hin as (j & Hj & _). apply log_key. by eapply list_elem_of_lookup_2. }
  unfold shown. destruct HL as [_ HL2].
  assert (∀ Y : list Line, (∀ a b l, Y !! a = Some l → Y !! b = Some l → l ≠ [] → a = b) →
    NoDup (filter (λ l, nonblank l = true) Y)) as Hgen.
  { induction Y as [|x Y IH]; intros HY; [constructor|].
    assert (NoDup (filter (λ l, nonblank l = true) Y)) as HndY.
    { apply IH. intros a b l Ha Hb Hl. by injection (HY (S a) (S b) l Ha Hb Hl). }
    rewrite filter_cons. destruct (decide _) as [Hx|]; [|done]. apply NoDup_cons. split; [|done].
    intros [_ [j Hj]%list_elem_of_lookup]%list_elem_of_filter. apply nonblank_true in Hx.
    by specialize (HY O (S j) x eq_refl Hj ltac:(by intros ->)). }
  apply Hgen. intros a b l [Ha _]%segment_lookup [Hb _]%segment_lookup Hl.
  specialize (HL2 _ _ _ Ha Hb Hl). lia.
Qed.

(** What the merger holds after the captures of [o0 .. e]. *)
Definition caught_up (o0 o e : nat) (m : Merger) : Prop :=
  mg_prev m = segment L o e ∧ mg_havePrev m = true ∧ mg_maxLines m = 0 ∧ mg_transcript m = shown o0 e.

Lemma recent_keys_shown o0 o e m k :
  caught_up o0 o e m → k ∈ recent_keys m → ∃ i, L !! i = Some k ∧ (i < e)%nat.
Proof.
  intros (_ & _ & _ & Ht) Hk. unfold recent_keys in Hk. rewrite Ht in Hk.
  apply elem_of_list_to_set, list_elem_of_fmap in Hk as (l & -> & Hl).
  assert (l ∈ shown o0 e) as Hin.
  { apply list_elem_of_lookup in Hl as [i Hi]. rewrite lookup_drop in Hi. by eapply list_elem_of_lookup_2. }
  apply list_elem_of_filter in Hin as [_ (i & Hi & _ & ?)%segment_in].
  rewrite log_key by (by eapply list_elem_of_lookup_2). by exists i.
Qed.

Lemma caught_up_step range m o0 o e o' e' :
  fair range → (o0 ≤ o)%nat → (o ≤ o')%nat → (e ≤ e')%nat → two_anchors L o' e →
  caught_up o0 o e m → caught_up o0 o' e' (ingest_lines range m (segment L o' e')).2.
Proof.
  intros Hfair H0 Ho He Htwo Hm. rewrite ingest_lines_eq. pose proof Hm as (Hp & Hh & Hmax & Ht).
  assert (o' < e ∧ o' < length L)%nat as [Ho'e Ho'L].
  { destruct Htwo as (a & b & la & lb & ? & ? & ? & Ha%lookup_lt_Some & _). lia. }
  destruct (segment_scroll range o e o' e' Hfair Ho He Htwo) as [n Hscroll].
  assert (candidates range m (segment L o' e') = segment L e e') as ->.
  { unfold candidates. rewrite Hh, Hp, Hscroll. cbn [negb]. apply segment_unaligned; lia. }
  split_and!; [done|done|done|]. cbn [mg_transcript snd].
  rewrite Hmax, trim_transcript_unbounded, add_all_new, Ht, (shown_app o0 e e'); [done|lia|done| |apply shown_NoDup|done].
  intros l (i & Hi & Hei & _)%segment_in Hne Hrec.
  rewrite log_key in Hne, Hrec by (by eapply list_elem_of_lookup_2).
  destruct (recent_keys_shown _ _ _ _ _ Hm Hrec) as (i' & Hi' & ?).
  destruct HL as [_ HL2]. specialize (HL2 _ _ _ Hi Hi' Hne). lia.
Qed.

(** The captures after a first one: each shows a segment that begins and ends
    no earlier than the one before, and shares two anchors with it; or fails. *)
Inductive scrolls : nat → nat → list (Range * option string) → nat → Prop :=
| scrolls_end o e : scrolls o e [] e
| scrolls_fail o e range caps last : scrolls o e caps last → scrolls o e ((range, None) :: caps) last
| scrolls_on o e o' e' range raw caps last :
    fair range → (o ≤ o')%nat → (e ≤ e')%nat → two_anchors L o' e →
    Normalize raw = segment L o' e' → scrolls o' e' caps last →
    scrolls o e ((range, Some raw) :: caps) last.

Definition record_all (r : Recorder) (caps : list (Range * option string)) : Recorder :=
  foldl (λ r c, recorder_tick c.1 c.2 r) r caps.

(** An open recording whose log is what its merger accumulated. *)
Definition recording (o0 o e : nat) (r : Recorder) : Prop :=
  caught_up o0 o e (rc_merger r) ∧ rc_open r = true ∧ rc_log r = mg_transcript (rc_merger r).

Lemma recorder_tick_log range raw r :
  rc_open r = true → rc_log r = mg_transcript (rc_merger r) → mg_maxLines (rc_merger r) = 0 →
  let r' := recorder_tick range (Some raw) r in
  rc_merger r' = (Ingest range (rc_merger r) raw).2 ∧ rc_open r' = true ∧
  rc_log r' = mg_transcript (rc_merger r').
Proof.
  intros Ho Hlog Hmax. simpl. unfold Ingest. rewrite ingest_lines_eq. cbn [rc_merger rc_open rc_log].
  rewrite Ho, Hlog. split_and!; [done|done|]. cbn [mg_transcript].
  by rewrite Hmax, trim_transcript_unbounded.
Qed.

Lemma recording_all o0 o e r caps last :
  scrolls o e caps last → (o0 ≤ o)%nat → recording o0 o e r →
  ∃ o', recording o0 o' last (record_all r caps).
Proof.
  intros Hs. revert r.
  induction Hs as [o e|o e range caps last _ IH|o e o' e' range raw caps last Hf Ho He Htwo Hraw _ IH];
    intros r H0 Hr; [by exists o|by apply IH|]. cbn [record_all foldl fst snd]. apply IH; [lia|].
  destruct Hr as (Hm & Hop & Hlog).
  destruct (recorder_tick_log range raw r Hop Hlog) as (Hmerge & ? & ?); [apply Hm|].
  split; [|done]. rewrite Hmerge. unfold Ingest. rewrite Hraw. by eapply caught_up_step.
Qed.

Lemma caught_up_first range o e : caught_up o o e (ingest_lines range (NewMerger 0) (segment L o e)).2.
Proof.
  rewrite ingest_lines_eq. split_and!; [done|done|done|]. cbn [mg_transcript snd].
  rewrite trim_transcript_unbounded by done. unfold candidates. cbn [NewMerger mg_havePrev negb mg_transcript].
  rewrite app_nil_l, add_all_new; [done| |apply shown_NoDup].
  intros l _ _. unfold recent_keys. cbn [NewMerger mg_transcript]. rewrite drop_nil. apply not_elem_of_empty.
Qed.

(** C20: recording a screen over which a log scrolls whose non-blank lines are
    all distinct, with captures that each share two anchor lines with the one
    before (or fail), stitches the log together again: the recording is the non-blank lines from the first line
    shown to the last, each once and in order, whatever the order of map
    iterations and however far each capture scrolled. *)
Theorem stitch_reconstructs range raw o e caps last :
  Normalize raw = segment L o e → scrolls o e caps last →
  rc_log (record_all newRecorder ((range, Some raw) :: caps)) = shown o last.
Proof.
  intros Hraw Hs. change (record_all newRecorder ((range, Some raw) :: caps))
    with (record_all (recorder_tick range (Some raw) newRecorder) caps).
  destruct (recording_all o o e (recorder_tick range (Some raw) newRecorder) caps last Hs) as (o' & Hm & _ & Hlog).
  - done.
  - destruct (recorder_tick_log range raw newRecorder) as (Hmerge & ? & ?); [done..|].
    split; [|done]. rewrite Hmerge. unfold Ingest. rewrite Hraw. apply caught_up_first.
  - rewrite Hlog. by destruct Hm as (_ & _ & _ & ?).
Qed.
End Scrolling.
