(* ===== verification/HookState.v ===== *)
(** internal/hooks/sessionstate.go, history_binding.go and lock.go: the state
    document a session's hooks keep, its writers and its readers. A writer
    holds the session's file lock from its read to its rename, so it is one
    step. *)

From S2P Require Import Prelude GoText RuneText.
From stdpp Require Import base gmap strings list.
From Stdlib Require Import ZArith Lia Ascii.

Open Scope Z_scope.

(** ** Data *)

Definition EventPromptSubmit : string := "prompt_submit".
Definition EventToolStart : string := "tool_start".
Definition EventToolEnd : string := "tool_end".
Definition EventTurnEnd : string := "turn_end".
Definition EventNotification : string := "notification".
Definition CanonicalEvents : list string :=
  [EventPromptSubmit; EventToolStart; EventToolEnd; EventTurnEnd; EventNotification].

Definition OverallGoalSummarizerProvenance : string := "hook.overall_goal_summarizer.v1".
Definition CanonicalHistoryBindingProvenance : string := "hook.canonical_history_frontmatter.v1".

Inductive HookError := ErrStaleOverallGoal | HookErr (message : string).
#[export] Instance HookError_eq_dec : EqDecision HookError.
Proof. solve_decision. Defined.

Record CanonicalHistoryBinding := mkBinding {
  cb_Basename : string; cb_ConversationID : string; cb_Provenance : string; cb_UpdatedAt : Time }.

Record TurnContract := mkContract {
  tc_Goal : string; tc_OverallGoal : string; tc_OverallGoalProvenance : string;
  tc_OverallGoalUpdatedAt : Time; tc_LastUserMessage : string; tc_VaultLink : string;
  tc_CanonicalHistory : option CanonicalHistoryBinding; tc_SuccessVerification : string;
  tc_Path : string; tc_Source : string; tc_UpdatedAt : Time }.
Definition zero_contract : TurnContract :=
  mkContract "" "" "" zero_time "" "" None "" "" "" zero_time.

Record SessionState := mkSessionState {
  hk_Revision : Z; hk_SessionID : string; hk_Agent : string; hk_CreatedAt : Time; hk_UpdatedAt : Time;
  hk_LastEvent : string; hk_LastTool : string; hk_Working : bool; hk_TurnCount : Z; hk_EventsSeen : Z;
  hk_LastPromptSubmitAt : Time; hk_LastTurnEndAt : Time; hk_TurnContract : option TurnContract }.
Definition zero_state : SessionState :=
  mkSessionState 0 "" "" zero_time zero_time "" "" false 0 0 zero_time zero_time None.

Record TurnContractUpdate := mkUpdate {
  up_Goal : string; up_OverallGoal : string; up_LastUserMessage : string; up_VaultLink : string;
  up_SuccessVerification : string; up_Path : string; up_Source : string }.
Definition no_update : TurnContractUpdate := mkUpdate "" "" "" "" "" "" "".

Record OverallGoalInputSnapshot := mkSnapshot {
  og_Revision : Z; og_SessionID : string; og_Agent : string; og_TurnCount : Z; og_LastTurnEndAt : Time;
  og_Goal : string; og_OverallGoal : string; og_OverallGoalProvenance : string;
  og_OverallGoalUpdatedAt : Time; og_TurnContractUpdatedAt : Time }.

(** A nil state gives the zero snapshot. *)
Definition SnapshotOverallGoalInput (st : option SessionState) : OverallGoalInputSnapshot :=
  match st with
  | None => mkSnapshot 0 "" "" 0 zero_time "" "" "" zero_time zero_time
  | Some st =>
      let c := default zero_contract (hk_TurnContract st) in
      mkSnapshot (hk_Revision st) (hk_SessionID st) (hk_Agent st) (hk_TurnCount st) (hk_LastTurnEndAt st)
        (tc_Goal c) (tc_OverallGoal c) (tc_OverallGoalProvenance c) (tc_OverallGoalUpdatedAt c)
        (tc_UpdatedAt c)
  end.

(** ** The state directory *)

(** What a read of a state file finds. *)
Inductive HookFile := HookDoc (st : SessionState) | HookCorrupt | HookUnreadable.

(** The live and the archived files by session id, and the outcomes of the
    next directory and file operations, [true] for one that fails. *)
Record HookDir := mkHookDir {
  hd_live : gmap string HookFile; hd_archived : gmap string HookFile; hd_io : list bool }.

Abbreviation HM := (M HookDir HookError).

Definition io_step (message : string) : HM unit := λ d,
  match hd_io d with
  | [] => (Ok tt, d)
  | failed :: rest =>
      (if failed then Err (HookErr message) else Ok tt, mkHookDir (hd_live d) (hd_archived d) rest)
  end.

(** [^[A-Za-z0-9._-]+$] *)
Definition sessionIDRe (s : string) : bool :=
  negb (String.eqb s "") && all_chars (λ c, is_alnum c || is_id_punct c) s.
Definition check_id (sessionID : string) : HM unit :=
  lift (guard_err (sessionIDRe sessionID) (HookErr "invalid session id")).

(** A missing file is no state and no error. *)
Definition ReadSessionState (d : HookDir) (sessionID : string) : result HookError (option SessionState) :=
  if negb (sessionIDRe sessionID) then Err (HookErr "invalid session id") else
  match hd_live d !! sessionID with
  | None => Ok None
  | Some HookUnreadable => Err (HookErr "read session state")
  | Some HookCorrupt => Err (HookErr "parse session state")
  | Some (HookDoc st) => Ok (Some st)
  end.

(** ** Writing a document *)

(** JSON replaces the bytes of a string that are not UTF-8. *)
Definition json_text (s : string) : string := runes_string (runes s).
Definition json_binding (b : CanonicalHistoryBinding) : CanonicalHistoryBinding :=
  mkBinding (json_text (cb_Basename b)) (json_text (cb_ConversationID b)) (json_text (cb_Provenance b))
    (cb_UpdatedAt b).
Definition json_contract (c : TurnContract) : TurnContract :=
  mkContract (json_text (tc_Goal c)) (json_text (tc_OverallGoal c)) (json_text (tc_OverallGoalProvenance c))
    (tc_OverallGoalUpdatedAt c) (json_text (tc_LastUserMessage c)) (json_text (tc_VaultLink c))
    (json_binding <$> tc_CanonicalHistory c) (json_text (tc_SuccessVerification c))
    (json_text (tc_Path c)) (json_text (tc_Source c)) (tc_UpdatedAt c).
Definition json_state (st : SessionState) : SessionState :=
  mkSessionState (hk_Revision st) (json_text (hk_SessionID st)) (json_text (hk_Agent st))
    (hk_CreatedAt st) (hk_UpdatedAt st) (json_text (hk_LastEvent st)) (json_text (hk_LastTool st))
    (hk_Working st) (hk_TurnCount st) (hk_EventsSeen st) (hk_LastPromptSubmitAt st)
    (hk_LastTurnEndAt st) (json_contract <$> hk_TurnContract st).

Definition set_revision (n : Z) (st : SessionState) : SessionState :=
  mkSessionState n (hk_SessionID st) (hk_Agent st) (hk_CreatedAt st) (hk_UpdatedAt st) (hk_LastEvent st)
    (hk_LastTool st) (hk_Working st) (hk_TurnCount st) (hk_EventsSeen st) (hk_LastPromptSubmitAt st)
    (hk_LastTurnEndAt st) (hk_TurnContract st).
Definition write_doc (sessionID : string) (st : SessionState) : HM unit :=
  modify (λ d, mkHookDir (<[sessionID := HookDoc st]> (hd_live d)) (hd_archived d) (hd_io d)).

(** What a writer starts from: a missing or corrupt file is the zero state. *)
Definition current_state (f : option HookFile) : result HookError SessionState :=
  match f with
  | Some (HookDoc st) => Ok st
  | Some HookUnreadable => Err (HookErr "read session state")
  | Some HookCorrupt | None => Ok zero_state
  end.

Definition mutateSessionStateChecked (sessionID : string)
    (mutate : SessionState → result HookError SessionState) : HM unit :=
  _ ← check_id sessionID;
  _ ← io_step "create session state dir";
  _ ← io_step "lock session state";
  f ← gets (λ d, hd_live d !! sessionID);
  st ← lift (current_state f);
  st ← lift (mutate st);
  _ ← lift (guard_err (negb (hk_Revision st =? u64_max)) (HookErr "session state revision exhausted"));
  _ ← io_step "write session state tmp";
  _ ← io_step "rename session state";
  write_doc sessionID (json_state (set_revision (hk_Revision st + 1) st)).

Definition mutateSessionState (sessionID : string) (mutate : SessionState → SessionState) : HM unit :=
  mutateSessionStateChecked sessionID (λ st, Ok (mutate st)).

(** ** Field updates *)

(** The first assignments of every writer: the identity, and when it began. *)
Definition identify (sessionID agent : string) (now : Time) (st : SessionState) : SessionState :=
  mkSessionState (hk_Revision st) sessionID (if String.eqb agent "" then hk_Agent st else agent)
    (if IsZero (hk_CreatedAt st) then now else hk_CreatedAt st) (hk_UpdatedAt st) (hk_LastEvent st)
    (hk_LastTool st) (hk_Working st) (hk_TurnCount st) (hk_EventsSeen st) (hk_LastPromptSubmitAt st)
    (hk_LastTurnEndAt st) (hk_TurnContract st).
Definition set_updated (now : Time) (st : SessionState) : SessionState :=
  mkSessionState (hk_Revision st) (hk_SessionID st) (hk_Agent st) (hk_CreatedAt st) now (hk_LastEvent st)
    (hk_LastTool st) (hk_Working st) (hk_TurnCount st) (hk_EventsSeen st) (hk_LastPromptSubmitAt st)
    (hk_LastTurnEndAt st) (hk_TurnContract st).
Definition set_contract (c : option TurnContract) (st : SessionState) : SessionState :=
  mkSessionState (hk_Revision st) (hk_SessionID st) (hk_Agent st) (hk_CreatedAt st) (hk_UpdatedAt st)
    (hk_LastEvent st) (hk_LastTool st) (hk_Working st) (hk_TurnCount st) (hk_EventsSeen st)
    (hk_LastPromptSubmitAt st) (hk_LastTurnEndAt st) c.
(** [st.LastEvent = event; st.EventsSeen++; st.UpdatedAt = now] *)
Definition count_event (event : string) (now : Time) (st : SessionState) : SessionState :=
  mkSessionState (hk_Revision st) (hk_SessionID st) (hk_Agent st) (hk_CreatedAt st) now event
    (hk_LastTool st) (hk_Working st) (hk_TurnCount st) (s64 (hk_EventsSeen st + 1))
    (hk_LastPromptSubmitAt st) (hk_LastTurnEndAt st) (hk_TurnContract st).
Definition set_turn (working : bool) (turns : Z) (tool : string) (prompt end_ : Time) (st : SessionState)
  : SessionState :=
  mkSessionState (hk_Revision st) (hk_SessionID st) (hk_Agent st) (hk_CreatedAt st) (hk_UpdatedAt st)
    (hk_LastEvent st) tool working turns (hk_EventsSeen st) prompt end_ (hk_TurnContract st).
(** [st.TurnContract.OverallGoal] with its proof and time. *)
Definition set_overall (goal provenance : string) (now : Time) (c : TurnContract) : TurnContract :=
  mkContract (tc_Goal c) goal provenance now (tc_LastUserMessage c) (tc_VaultLink c)
    (tc_CanonicalHistory c) (tc_SuccessVerification c) (tc_Path c) (tc_Source c) (tc_UpdatedAt c).
Definition set_contract_updated (now : Time) (c : TurnContract) : TurnContract :=
  mkContract (tc_Goal c) (tc_OverallGoal c) (tc_OverallGoalProvenance c) (tc_OverallGoalUpdatedAt c)
    (tc_LastUserMessage c) (tc_VaultLink c) (tc_CanonicalHistory c) (tc_SuccessVerification c)
    (tc_Path c) (tc_Source c) now.

(** ** Texts of the contract *)

Definition compactContractText (value : string) : string :=
  let value := squeeze (runes value) in
  match value with
  | [] => ""
  | _ => if (length value <=? 600)%nat then runes_string value else runes_string (take 600 value)
  end.

Definition cap_line (line : string) : string :=
  let r := runes line in
  if (300 <? length r)%nat then runes_string (take 300 r) else line.
Definition line_feed : ascii := ascii_of_nat 10.
Definition join_lines (lines : list string) : string :=
  match lines with
  | [] => ""
  | l :: rest => l +:+ foldr (λ l s, String line_feed (l +:+ s)) "" rest
  end.
Definition truncateLines (value : string) (n : nat) : string :=
  if blank value then "" else
  let lines := split_on line_feed value in
  let out := join_lines (cap_line <$> take n lines) in
  if (n <? length lines)%nat then out +:+ String line_feed "…" else out.

Definition or_keep (new old : string) : string := if String.eqb new "" then old else new.

Definition applyTurnContractUpdate (st : SessionState) (update : TurnContractUpdate) (now : Time)
  : SessionState :=
  let goal := compactContractText (up_Goal update) in
  let overall := compactContractText (up_OverallGoal update) in
  let lastMsg := truncateLines (up_LastUserMessage update) 3 in
  let vault := compactContractText (up_VaultLink update) in
  let verification := compactContractText (up_SuccessVerification update) in
  let path := compactContractText (up_Path update) in
  let source := compactContractText (up_Source update) in
  if forallb (λ s, String.eqb s "") [goal; overall; lastMsg; vault; verification; path; source]
  then st else
  let c := default zero_contract (hk_TurnContract st) in
  let fresh := negb (String.eqb overall "") in
  set_contract (Some (mkContract (or_keep goal (tc_Goal c)) (or_keep overall (tc_OverallGoal c))
    (if fresh then "" else tc_OverallGoalProvenance c)
    (if fresh then now else tc_OverallGoalUpdatedAt c)
    (or_keep lastMsg (tc_LastUserMessage c)) (or_keep vault (tc_VaultLink c)) (tc_CanonicalHistory c)
    (or_keep verification (tc_SuccessVerification c)) (or_keep path (tc_Path c))
    (or_keep source (tc_Source c)) now)) st.

(** ** Writers *)

Definition InitSessionState (sessionID agent launchGoal : string) (now : Time) : HM unit :=
  mutateSessionState sessionID (λ st,
    let st := identify sessionID agent now st in
    let st := if IsZero (hk_UpdatedAt st) then set_updated now st else st in
    let goal := compactContractText launchGoal in
    if String.eqb goal "" then st else
    let c := default zero_contract (hk_TurnContract st) in
    set_contract (Some (if String.eqb (tc_OverallGoal c) "" then set_overall goal "" now c else c)) st).

Definition ApplyContractOnly (sessionID agent : string) (contract : TurnContractUpdate) (now : Time)
  : HM unit :=
  mutateSessionState sessionID (λ st,
    set_updated now (applyTurnContractUpdate (identify sessionID agent now st) contract now)).

(** Instants are compared with [Equal]. *)
Definition same_instant (a b : Time) : bool := t_ns a =? t_ns b.
Definition snapshot_matches (actual expected : OverallGoalInputSnapshot) : bool :=
  (og_Revision actual =? og_Revision expected) &&
  String.eqb (og_SessionID actual) (og_SessionID expected) &&
  String.eqb (og_Agent actual) (og_Agent expected) &&
  (og_TurnCount actual =? og_TurnCount expected) &&
  same_instant (og_LastTurnEndAt actual) (og_LastTurnEndAt expected) &&
  String.eqb (og_Goal actual) (og_Goal expected) &&
  String.eqb (og_OverallGoal actual) (og_OverallGoal expected) &&
  String.eqb (og_OverallGoalProvenance actual) (og_OverallGoalProvenance expected) &&
  same_instant (og_OverallGoalUpdatedAt actual) (og_OverallGoalUpdatedAt expected) &&
  same_instant (og_TurnContractUpdatedAt actual) (og_TurnContractUpdatedAt expected).

Definition summarize (sessionID agent overallGoal : string) (now : Time) (st : SessionState)
  : SessionState :=
  let st := identify sessionID agent now st in
  let c := default zero_contract (hk_TurnContract st) in
  set_updated now (set_contract (Some (set_contract_updated now
    (set_overall overallGoal OverallGoalSummarizerProvenance now c))) st).

Definition ApplySummarizedOverallGoal (sessionID agent overallGoal : string)
    (expected : OverallGoalInputSnapshot) (now : Time) : HM unit :=
  let overallGoal := compactContractText overallGoal in
  _ ← lift (guard_err (negb (String.eqb overallGoal "")) (HookErr "summarized overall goal is required"));
  _ ← lift (guard_err
        (String.eqb (og_SessionID expected) sessionID && negb (String.eqb (og_Agent expected) "") &&
         String.eqb (og_Agent expected) agent && (1 <=? og_TurnCount expected) &&
         negb (IsZero (og_LastTurnEndAt expected)))
        (HookErr "summary turn snapshot is required"));
  mutateSessionStateChecked sessionID (λ st,
    if snapshot_matches (SnapshotOverallGoalInput (Some st)) expected
    then Ok (summarize sessionID agent overallGoal now st)
    else Err ErrStaleOverallGoal).

(** The switch on the event, after the common fields. *)
Definition apply_turn (event tool : string) (now : Time) (st : SessionState) : SessionState :=
  let prompt := hk_LastPromptSubmitAt st in
  let end_ := hk_LastTurnEndAt st in
  if String.eqb event EventPromptSubmit
  then set_turn true (s64 (hk_TurnCount st + 1)) (hk_LastTool st) now end_ st
  else if String.eqb event EventToolStart || String.eqb event EventToolEnd
  then set_turn true (hk_TurnCount st) (or_keep tool (hk_LastTool st)) prompt end_ st
  else if String.eqb event EventTurnEnd
  then set_turn false (hk_TurnCount st) (hk_LastTool st) prompt now st
  else st.

Definition ApplyEventWithContract (sessionID agent event tool : string) (contract : TurnContractUpdate)
    (now : Time) : HM unit :=
  _ ← lift (guard_err (existsb (String.eqb event) CanonicalEvents) (HookErr "unknown hook event"));
  mutateSessionState sessionID (λ st,
    applyTurnContractUpdate (apply_turn event tool now (count_event event now (identify sessionID agent now st)))
      contract now).
Definition ApplyEvent (sessionID agent event tool : string) (now : Time) : HM unit :=
  ApplyEventWithContract sessionID agent event tool no_update now.

(** A missing live file is not an error; the archive is overwritten. *)
Definition ArchiveSessionState (sessionID : string) : HM unit :=
  _ ← check_id sessionID;
  _ ← io_step "lock session state";
  f ← gets (λ d, hd_live d !! sessionID);
  match f with
  | None => mret tt
  | Some f =>
      _ ← io_step "create archive dir";
      _ ← io_step "archive session state";
      modify (λ d, mkHookDir (delete sessionID (hd_live d)) (<[sessionID := f]> (hd_archived d)) (hd_io d))
  end.

(** ** Canonical history bindings (history_binding.go) *)

Definition maxCanonicalHistoryFrontmatterBytes : Z := 16384.

(** The history root: whether its path is absolute, clean and opens, its
    directory entries (a regular file with its bytes, or something else), and
    whether a file keeps its identity, size and time while it is read. *)
Inductive HistoryEntry := HistoryFile (content : string) | HistoryOther.
Record HistoryRoot := mkHistoryRoot {
  hr_opens : bool; hr_entries : gmap string HistoryEntry; hr_stable : string → bool }.

(** [^[A-Za-z0-9][A-Za-z0-9._-]{0,254}$] *)
Definition canonicalConversationIDRe (s : string) : bool :=
  head_tail is_alnum (λ c, is_alnum c || is_id_punct c) 0 254 s.

(** [filepath.Base(basename) != basename] holds for no other name without a
    slash than the empty one. *)
Definition bad_name_char (c : ascii) : bool :=
  char_is "/" c || char_is (ascii_of_nat 92) c || existsb (λ n, char_is (ascii_of_nat n) c) [0; 13; 10]%nat.
Definition validateCanonicalHistoryMetadata (basename conversationID : string) : result HookError unit :=
  _ ← guard_err (negb (String.eqb basename "") && (rune_count basename <=? 255) &&
                 negb (String.eqb basename ".") && negb (String.eqb basename "..") &&
                 has_suffix ".md" basename && negb (contains_any bad_name_char basename))
        (HookErr "canonical history basename must name one Markdown file");
  _ ← guard_err (negb (existsb is_control (runes basename)))
        (HookErr "canonical history basename contains control characters");
  guard_err (canonicalConversationIDRe conversationID)
    (HookErr "canonical history conversation identity is invalid").

(** The closure [readLine]: [total] bytes were read, [line] is the current
    line reversed. The result is the line, the count and the rest. *)
Definition end_line (line : list ascii) : string :=
  match line with
  | c :: l => String.string_of_list_ascii (rev (if char_is (ascii_of_nat 13) c then l else line))
  | [] => ""
  end.
Fixpoint read_line (total : Z) (line : list ascii) (s : string) : option (string * Z * string) :=
  if maxCanonicalHistoryFrontmatterBytes <=? total then None else
  match s with
  | EmptyString => match line with [] => None | _ => Some (end_line line, total, "") end
  | String c s' =>
      if Ascii.eqb c line_feed then Some (end_line line, total + 1, s')
      else read_line (total + 1) (c :: line) s'
  end.

(** [strings.Cut(line, ":")] *)
Fixpoint cut_colon (s : string) : option (string * string) :=
  match s with
  | EmptyString => None
  | String c s' =>
      if char_is ":" c then Some (EmptyString, s')
      else match cut_colon s' with Some (k, v) => Some (String c k, v) | None => None end
  end.
Definition trim_space (s : string) : string := runes_string (TrimSpace (runes s)).

(** The loop over the fields; every turn reads a line, so the text that is
    left bounds the turns. *)
Fixpoint read_fields (fuel : nat) (total : Z) (s : string) (fields : gmap string string)
  : result HookError (gmap string string) :=
  let missing := Err (HookErr "canonical history is missing closing frontmatter fence") in
  match fuel with
  | O => missing
  | S fuel =>
      match read_line total [] s with
      | None => missing
      | Some (line, total, rest) =>
          if String.eqb line "---" then Ok fields else
          match cut_colon line with
          | None => read_fields fuel total rest fields
          | Some (key, value) =>
              let key := trim_space key in
              if String.eqb key "" then read_fields fuel total rest fields else
              match fields !! key with
              | Some _ => Err (HookErr "canonical history frontmatter repeats a key")
              | None => read_fields fuel total rest (<[key := trim_space value]> fields)
              end
          end
      end
  end.
Definition readCanonicalHistoryFrontmatter (s : string) : result HookError (gmap string string) :=
  match read_line 0 [] s with
  | Some ("---"%string, total, rest) => read_fields (S (String.length rest)) total rest ∅
  | _ => Err (HookErr "canonical history is missing opening frontmatter fence")
  end.

Definition VerifyCanonicalHistoryBinding (root : HistoryRoot) (basename conversationID : string)
  : result HookError unit :=
  _ ← validateCanonicalHistoryMetadata basename conversationID;
  _ ← guard_err (hr_opens root) (HookErr "canonical history root");
  match hr_entries root !! basename with
  | None => Err (HookErr "inspect canonical history")
  | Some HistoryOther => Err (HookErr "canonical history must be a regular non-symlink file")
  | Some (HistoryFile content) =>
      fields ← readCanonicalHistoryFrontmatter content;
      _ ← guard_err (String.eqb (default "" (fields !! "conversation_id")) conversationID)
            (HookErr "canonical history conversation identity does not match the exact producer identity");
      guard_err (hr_stable root basename) (HookErr "canonical history changed while validating frontmatter")
  end.

Definition ApplyVerifiedCanonicalHistoryBinding (root : HistoryRoot)
    (sessionID agent basename conversationID : string) (now : Time) : HM unit :=
  _ ← lift (VerifyCanonicalHistoryBinding root basename conversationID);
  mutateSessionState sessionID (λ st,
    let st := identify sessionID agent now st in
    let c := default zero_contract (hk_TurnContract st) in
    let b := mkBinding basename conversationID CanonicalHistoryBindingProvenance now in
    set_updated now (set_contract (Some (mkContract (tc_Goal c) (tc_OverallGoal c)
      (tc_OverallGoalProvenance c) (tc_OverallGoalUpdatedAt c) (tc_LastUserMessage c) (tc_VaultLink c)
      (Some b) (tc_SuccessVerification c) (tc_Path c) (tc_Source c) now)) st)).
