(* ===== verification/HookFacts.v ===== *)
(** Facts about the writers of hook state: what each one does to the document,
    that trusted fields have trusted writers, that a summary is applied only to
    the document it was made from, and that the turn fields are a function of
    the events recorded. *)

From S2P Require Import Prelude GoText RuneText HookState.
From stdpp Require Import base gmap strings list.
From Stdlib Require Import ZArith Lia.

Open Scope Z_scope.

(** ** The writers as data *)

Inductive HookOp :=
| HInit (id agent launchGoal : string) (now : Time)
| HContract (id agent : string) (contract : TurnContractUpdate) (now : Time)
| HEvent (id agent event tool : string) (contract : TurnContractUpdate) (now : Time)
| HBind (root : HistoryRoot) (id agent basename conversationID : string) (now : Time)
| HSummary (id agent overallGoal : string) (expected : OverallGoalInputSnapshot) (now : Time)
| HArchive (id : string).

Definition hook_op (op : HookOp) : HM unit :=
  match op with
  | HInit id agent goal now => InitSessionState id agent goal now
  | HContract id agent contract now => ApplyContractOnly id agent contract now
  | HEvent id agent event tool contract now => ApplyEventWithContract id agent event tool contract now
  | HBind root id agent basename conv now => ApplyVerifiedCanonicalHistoryBinding root id agent basename conv now
  | HSummary id agent goal expected now => ApplySummarizedOverallGoal id agent goal expected now
  | HArchive id => ArchiveSessionState id
  end.
Definition hook_run (ops : list HookOp) (d : HookDir) : HookDir := foldl (λ d op, (hook_op op d).2) d ops.
Definition no_hooks (io : list bool) : HookDir := mkHookDir ∅ ∅ io.

Definition op_id (op : HookOp) : string :=
  match op with
  | HInit id _ _ _ | HContract id _ _ _ | HEvent id _ _ _ _ _ | HBind _ id _ _ _ _ | HSummary id _ _ _ _
  | HArchive id => id
  end.

Lemma hook_run_snoc ops op d : hook_run (ops ++ [op]) d = (hook_op op (hook_run ops d)).2.
Proof. unfold hook_run. by rewrite foldl_app. Qed.

(** ** What a write does *)

(** The document a successful write replaces, and by what. *)
Definition replaced (id : string) (d : HookDir) (f : SessionState → result HookError SessionState)
    (d' : HookDir) : Prop :=
  ∃ st st', current_state (hd_live d !! id) = Ok st ∧ f st = Ok st' ∧ hk_Revision st' ≠ u64_max ∧
    hd_live d' = <[id := HookDoc (json_state (set_revision (hk_Revision st' + 1) st'))]> (hd_live d).

Lemma io_step_live m d : let '(_, d') := io_step m d in hd_live d' = hd_live d.
Proof. unfold io_step. by destruct (hd_io d). Qed.

Lemma mutate_effect id f d :
  let '(r, d') := mutateSessionStateChecked id f d in
  (hd_live d' = hd_live d ∧ ∃ e, r = Err e) ∨ (r = Ok tt ∧ replaced id d f d').
Proof.
  assert (hoare (λ d', hd_live d' = hd_live d) (mutateSessionStateChecked id f)
    (λ _ d', replaced id d f d') (λ _ d', hd_live d' = hd_live d)) as H.
  { assert (∀ m, hoare (λ d', hd_live d' = hd_live d) (io_step m) (λ _ d', hd_live d' = hd_live d)
      (λ _ d', hd_live d' = hd_live d)) as Hio.
    { intros m d1 Hd1. pose proof (io_step_live m d1) as Hl. destruct (io_step m d1) as [[?|?] ?]; by rewrite Hl. }
    unfold mutateSessionStateChecked. apply hoare_lift_bind; [intros ? _|done].
    eapply hoare_bind; [apply Hio|intros []]. eapply hoare_bind; [apply Hio|intros []].
    apply (hoare_keep_bind _ (λ f, f = hd_live d !! id)); [intros d1 Hd1; simpl; by rewrite Hd1|intros fl ->].
    apply hoare_lift_bind; [intros st Hst|done]. apply hoare_lift_bind; [intros st' Hst'|done].
    apply hoare_lift_bind; [intros ? Hmax%guard_err_ok|done].
    eapply hoare_bind; [apply Hio|intros []]. eapply hoare_bind; [apply Hio|intros []].
    intros d1 Hd1. exists st, st'. rewrite Hd1. split_and!; try done.
    intros Heq. by rewrite Heq in Hmax. }
  pose proof (hoare_run _ _ _ _ d H eq_refl) as Hrun.
  destruct (mutateSessionStateChecked id f d) as [[[]|e] d']; [by right|left]. split; [done|by eexists].
Qed.

(** The update an operation makes, and what it requires of the document. *)
Definition op_update (op : HookOp) (st : SessionState) : result HookError SessionState :=
  match op with
  | HInit id agent launchGoal now => Ok
      (let st := identify id agent now st in
       let st := if IsZero (hk_UpdatedAt st) then set_updated now st else st in
       let goal := compactContractText launchGoal in
       if String.eqb goal "" then st else
       let c := default zero_contract (hk_TurnContract st) in
       set_contract (Some (if String.eqb (tc_OverallGoal c) "" then set_overall goal "" now c else c)) st)
  | HContract id agent contract now =>
      Ok (set_updated now (applyTurnContractUpdate (identify id agent now st) contract now))
  | HEvent id agent event tool contract now =>
      Ok (applyTurnContractUpdate (apply_turn event tool now (count_event event now (identify id agent now st)))
            contract now)
  | HBind root id agent basename conv now => Ok
      (let st := identify id agent now st in
       let c := default zero_contract (hk_TurnContract st) in
       let b := mkBinding basename conv CanonicalHistoryBindingProvenance now in
       set_updated now (set_contract (Some (mkContract (tc_Goal c) (tc_OverallGoal c)
         (tc_OverallGoalProvenance c) (tc_OverallGoalUpdatedAt c) (tc_LastUserMessage c) (tc_VaultLink c)
         (Some b) (tc_SuccessVerification c) (tc_Path c) (tc_Source c) now)) st))
  | HSummary id agent goal expected now =>
      if snapshot_matches (SnapshotOverallGoalInput (Some st)) expected
      then Ok (summarize id agent (compactContractText goal) now st) else Err ErrStaleOverallGoal
  | HArchive _ => Err (HookErr "")
  end.
Definition op_ready (op : HookOp) : Prop :=
  match op with
  | HEvent _ _ event _ _ _ => event ∈ CanonicalEvents
  | HBind root _ _ basename conv _ => VerifyCanonicalHistoryBinding root basename conv = Ok tt
  | HSummary id agent goal expected _ =>
      compactContractText goal ≠ "" ∧ og_SessionID expected = id ∧ og_Agent expected = agent
  | _ => True
  end.

(** An operation fails and changes no document, or archives the session's
    document, or replaces it by its update. *)
Inductive effect (op : HookOp) (d : HookDir) : result HookError unit → HookDir → Prop :=
| effect_none r d' : hd_live d' = hd_live d → (∀ id, op = HArchive id → r = Ok tt → hd_live d !! id = None) →
    (r = Ok tt → ∃ id, op = HArchive id) → effect op d r d'
| effect_archive id d' : op = HArchive id → hd_live d' = delete id (hd_live d) → effect op d (Ok tt) d'
| effect_write d' : op_ready op → replaced (op_id op) d (op_update op) d' → effect op d (Ok tt) d'.

Lemma effect_of_mutation op d :
  op_ready op → (∀ id, op ≠ HArchive id) →
  let '(r, d') := mutateSessionStateChecked (op_id op) (op_update op) d in effect op d r d'.
Proof.
  intros Hready Hnot. pose proof (mutate_effect (op_id op) (op_update op) d) as H.
  destruct (mutateSessionStateChecked _ _ d) as [r d'].
  destruct H as [[Hl [e ->]]|[-> Hrep]]; [|by apply effect_write].
  apply effect_none; [done|done|done].
Qed.

(** A check in front of a mutation. *)
Lemma effect_of_guard {A} op d (g : result HookError A) (m : A → HM unit) :
  (∀ id, op ≠ HArchive id) →
  (∀ a, g = Ok a → let '(r, d') := m a d in effect op d r d') →
  let '(r, d') := (lift g ≫= m) d in effect op d r d'.
Proof.
  intros Hnot Hm. unfold mbind, M_bind, lift. destruct g as [a|e]; [by apply Hm|].
  apply effect_none; [done|done|done].
Qed.

Lemma archive_effect id d : let '(r, d') := ArchiveSessionState id d in effect (HArchive id) d r d'.
Proof.
  assert (∀ (e : HookError) d', hd_live d' = hd_live d → effect (HArchive id) d (Err e) d') as Herr
    by (intros; by apply effect_none).
  unfold ArchiveSessionState, check_id, mbind, M_bind, lift, gets.
  destruct (guard_err _ _) as [[]|e]; [|by apply Herr].
  pose proof (io_step_live "lock session state" d) as H1. destruct (io_step _ d) as [[[]|e] d1]; [|by apply Herr].
  rewrite H1. destruct (hd_live d !! id) as [f|] eqn:Hf.
  - unfold mbind, M_bind.
    pose proof (io_step_live "create archive dir" d1) as H2. destruct (io_step _ d1) as [[[]|e] d2]; [|apply Herr; by rewrite H2].
    pose proof (io_step_live "archive session state" d2) as H3.
    destruct (io_step _ d2) as [[[]|e] d3]; [|apply Herr; by rewrite H3, H2].
    apply (effect_archive _ _ id); [done|]. simpl. by rewrite H3, H2, H1.
  - apply effect_none; [done|by intros ? [= ->]|by exists id].
Qed.

Lemma hook_op_effect op d : let '(r, d') := hook_op op d in effect op d r d'.
Proof.
  destruct op as [id agent goal now|id agent c now|id agent event tool c now|root id agent basename conv now
    |id agent goal expected now|id]; cbn [hook_op].
  - by apply (effect_of_mutation (HInit id agent goal now)).
  - by apply (effect_of_mutation (HContract id agent c now)).
  - apply effect_of_guard; [done|]. intros _ (x & Hin%list_elem_of_In & Heq)%guard_err_ok%existsb_exists.
    apply String.eqb_eq in Heq as <-. by apply (effect_of_mutation (HEvent id agent event tool c now)).
  - apply effect_of_guard; [done|]. intros [] Hv. by apply (effect_of_mutation (HBind root id agent basename conv now)).
  - apply effect_of_guard; [done|]. intros _ Hg%guard_err_ok. apply effect_of_guard; [done|].
    intros _ Hs%guard_err_ok. rewrite !andb_true_iff, !String.eqb_eq in Hs.
    apply (effect_of_mutation (HSummary id agent goal expected now)); [|done].
    split_and!; [|apply Hs|apply Hs]. intros Heq. by rewrite Heq in Hg.
  - apply archive_effect.
Qed.

(** ** What an update keeps *)

Lemma json_text_idem s : json_text (json_text s) = json_text s.
Proof. unfold json_text. by rewrite runes_of_string by apply runes_valid. Qed.

Definition contract_of (st : SessionState) : TurnContract := default zero_contract (hk_TurnContract st).

Lemma contract_of_json st : contract_of (json_state st) = json_contract (contract_of st).
Proof. unfold contract_of. simpl. by destruct (hk_TurnContract st). Qed.
Lemma contract_of_revision n st : contract_of (set_revision n st) = contract_of st.
Proof. done. Qed.

(** The overall goal with its proof and time. *)
Definition overall_of (c : TurnContract) : string * string * Time :=
  (tc_OverallGoal c, tc_OverallGoalProvenance c, tc_OverallGoalUpdatedAt c).

Lemma update_contract st u now :
  let c := contract_of (applyTurnContractUpdate st u now) in
  (overall_of c = overall_of (contract_of st) ∨ tc_OverallGoalProvenance c = "") ∧
  tc_CanonicalHistory c = tc_CanonicalHistory (contract_of st).
Proof.
  unfold applyTurnContractUpdate. destruct (forallb _ _); [split; [by left|done]|]. simpl.
  destruct (String.eqb_spec (compactContractText (up_OverallGoal u)) "") as [->|]; [|split; [by right|done]].
  split; [left|done]. done.
Qed.
Lemma update_revision st u now : hk_Revision (applyTurnContractUpdate st u now) = hk_Revision st.
Proof. unfold applyTurnContractUpdate. by destruct (forallb _ _). Qed.
Lemma apply_turn_revision event tool now st : hk_Revision (apply_turn event tool now st) = hk_Revision st.
Proof. unfold apply_turn. by repeat case_match. Qed.
Lemma apply_turn_contract event tool now st : contract_of (apply_turn event tool now st) = contract_of st.
Proof. unfold apply_turn. by repeat case_match. Qed.

Lemma op_update_revision op st st' : op_update op st = Ok st' → hk_Revision st' = hk_Revision st.
Proof.
  destruct op; cbn [op_update]; try (intros [= <-]); try done.
  - cbv zeta. repeat case_match; done.
  - cbn [hk_Revision set_updated]. by rewrite update_revision.
  - by rewrite update_revision, apply_turn_revision.
  - case_match; [|done]. by intros [= <-].
Qed.

(** An overall goal keeps its proof, loses it, or is a summary's. *)
Lemma op_update_goal op st st' :
  op_update op st = Ok st' →
  overall_of (contract_of st') = overall_of (contract_of st) ∨
  tc_OverallGoalProvenance (contract_of st') = "" ∨
  ∃ id agent goal expected now, op = HSummary id agent goal expected now ∧
    overall_of (contract_of st') = (compactContractText goal, OverallGoalSummarizerProvenance, now).
Proof.
  destruct op as [sid agent goal now|sid agent u now|sid agent event tool u now| |sid agent goal expected now|];
    cbn [op_update]; try (intros [= <-]); try done; [| | | by left |].
  - cbv zeta. destruct (String.eqb _ _); [case_match; by left|].
    unfold contract_of. cbn [set_contract hk_TurnContract default id].
    destruct (String.eqb _ _); [right; by left|]. left. by case_match.
  - destruct (update_contract (identify sid agent now st) u now) as [[?|?] _]; [by left|right; by left].
  - destruct (update_contract (apply_turn event tool now (count_event event now (identify sid agent now st))) u now)
      as [[Heq|?] _]; [left|right; by left]. rewrite Heq, apply_turn_contract. done.
  - case_match; [|done]. intros [= <-]. right; right. by exists sid, agent, goal, expected, now.
Qed.

(** A history binding stays, or is a verified one. *)
Lemma op_update_binding op st st' :
  op_update op st = Ok st' →
  tc_CanonicalHistory (contract_of st') = tc_CanonicalHistory (contract_of st) ∨
  ∃ root sid agent basename conv now, op = HBind root sid agent basename conv now ∧
    tc_CanonicalHistory (contract_of st') = Some (mkBinding basename conv CanonicalHistoryBindingProvenance now).
Proof.
  destruct op as [sid agent goal now|sid agent u now|sid agent event tool u now|root sid agent basename conv now
    |sid agent goal expected now|]; cbn [op_update]; try (intros [= <-]); try done.
  - cbv zeta. left. destruct (String.eqb _ _); [by case_match|].
    unfold contract_of. cbn [set_contract hk_TurnContract default id].
    destruct (String.eqb _ _); by case_match.
  - left. by destruct (update_contract (identify sid agent now st) u now) as [_ ?].
  - left. destruct (update_contract (apply_turn event tool now (count_event event now (identify sid agent now st))) u now)
      as [_ Heq]. by rewrite Heq, apply_turn_contract.
  - right. by exists root, sid, agent, basename, conv, now.
  - case_match; [|done]. intros [= <-]. by left.
Qed.

(** ** Trusted fields have trusted writers *)

(** [op] is one of [ops], ran after those before it and succeeded. *)
Definition succeeded (d0 : HookDir) (ops : list HookOp) (op : HookOp) : Prop :=
  ∃ pre post, ops = pre ++ op :: post ∧ (hook_op op (hook_run pre d0)).1 = Ok tt.

Lemma succeeded_snoc d0 ops op op' : succeeded d0 ops op → succeeded d0 (ops ++ [op']) op.
Proof. intros (pre & post & -> & Hok). exists pre, (post ++ [op']). by rewrite <- app_assoc. Qed.
Lemma succeeded_last d0 ops op : (hook_op op (hook_run ops d0)).1 = Ok tt → succeeded d0 (ops ++ [op]) op.
Proof. intros Hok. by exists ops, []. Qed.

(** What backs the trusted fields of a contract of session [id]. *)
Definition backed (d0 : HookDir) (ops : list HookOp) (id : string) (c : TurnContract) : Prop :=
  (tc_OverallGoalProvenance c = OverallGoalSummarizerProvenance →
   ∃ agent goal expected now, succeeded d0 ops (HSummary id agent goal expected now) ∧
     og_SessionID expected = id ∧ og_Agent expected = agent ∧
     tc_OverallGoal c = json_text (compactContractText goal) ∧ tc_OverallGoal c ≠ "" ∧
     tc_OverallGoalUpdatedAt c = now) ∧
  (∀ b, tc_CanonicalHistory c = Some b →
   ∃ root agent basename conv now, succeeded d0 ops (HBind root id agent basename conv now) ∧
     VerifyCanonicalHistoryBinding root basename conv = Ok tt ∧
     b = json_binding (mkBinding basename conv CanonicalHistoryBindingProvenance now)).

Lemma backed_snoc d0 ops op id c : backed d0 ops id c → backed d0 (ops ++ [op]) id c.
Proof.
  intros [Hg Hb]. split.
  - intros Hp. destruct (Hg Hp) as (agent & goal & expected & now & Hs & H). exists agent, goal, expected, now.
    split; [by apply succeeded_snoc|done].
  - intros b Heq. destruct (Hb b Heq) as (root & agent & base & conv & now & Hs & H).
    exists root, agent, base, conv, now. split; [by apply succeeded_snoc|done].
Qed.
Lemma backed_zero d0 ops id : backed d0 ops id zero_contract.
Proof. by split. Qed.

Lemma json_text_ne s : s ≠ "" → json_text s ≠ "".
Proof.
  intros Hs Heq. apply Hs. destruct s as [|c s]; [done|]. exfalso.
  assert (runes (json_text (String c s)) = runes (String c s)) as Hr by (apply runes_of_string, runes_valid).
  rewrite Heq in Hr. revert Hr. unfold runes. cbn [str_bytes decode_runes].
  repeat case_match; done.
Qed.

(** The contract that is written, from the one that was read. *)
Lemma backed_write d0 ops op st st' :
  (hook_op op (hook_run ops d0)).1 = Ok tt → op_ready op → op_update op st = Ok st' →
  (contract_of st = zero_contract ∨ ∃ st0, st = json_state st0) →
  backed d0 ops (op_id op) (contract_of st) → backed d0 (ops ++ [op]) (op_id op) (json_contract (contract_of st')).
Proof.
  intros Hok Hready Hup Hjson Hb.
  assert (json_contract (contract_of st) = contract_of st) as Hid.
  { destruct Hjson as [->|[st0 ->]]; [reflexivity|]. rewrite contract_of_json. unfold json_contract, json_binding.
    destruct (contract_of st0) as [? ? ? ? ? ? [[? ? ? ?]|] ? ? ? ?]; simpl; by rewrite !json_text_idem. }
  apply (backed_snoc _ _ op) in Hb as [Hg Hh]. split.
  - intros Hp. cbn [json_contract tc_OverallGoalProvenance] in Hp. destruct (op_update_goal _ _ _ Hup) as [Heq|[Hnone|(sid & agent & goal & expected & now & -> & Hset)]].
    + assert (overall_of (json_contract (contract_of st')) = overall_of (contract_of st)) as Heq'.
      { rewrite <- Hid. unfold overall_of in *. simpl. by injection Heq as -> -> ->. }
      injection Heq' as Hgoal Hprov Htime. rewrite Hprov in Hp. destruct (Hg Hp) as (agent & goal & expected & now & H).
      exists agent, goal, expected, now. cbn [json_contract tc_OverallGoal tc_OverallGoalUpdatedAt].
      by rewrite Hgoal, Htime.
    + rewrite Hnone in Hp. discriminate Hp.
    + injection Hset as Hgoal Hprov Htime. cbn [op_ready] in Hready. destruct Hready as (Hne & Hsid & Hag).
      exists agent, goal, expected, now. split; [by apply succeeded_last|]. simpl. rewrite Hgoal, Htime.
      split_and!; try done. by apply json_text_ne.
  - intros b Hbind. destruct (op_update_binding _ _ _ Hup) as [Heq|(root & sid & agent & base & conv & now & -> & Hset)].
    + apply Hh. rewrite <- Hid. simpl in *. by rewrite <- Heq.
    + exists root, agent, base, conv, now. split; [by apply succeeded_last|]. split; [exact Hready|].
      simpl in Hbind. rewrite Hset in Hbind. by injection Hbind as <-.
Qed.

(** Every stored document is a written one, and backed. *)
Lemma docs_backed io ops id f :
  hd_live (hook_run ops (no_hooks io)) !! id = Some f →
  ∃ st, f = HookDoc (json_state st) ∧ backed (no_hooks io) ops id (contract_of (json_state st)).
Proof.
  revert id f. induction ops as [|op ops IH] using rev_ind; intros id f;
    [cbn [hook_run foldl no_hooks hd_live]; by rewrite lookup_empty|].
  rewrite hook_run_snoc. pose proof (hook_op_effect op (hook_run ops (no_hooks io))) as He.
  destruct (hook_op op _) as [r d'] eqn:Hop. cbn [snd].
  assert (∀ id f, hd_live (hook_run ops (no_hooks io)) !! id = Some f →
    ∃ st, f = HookDoc (json_state st) ∧ backed (no_hooks io) (ops ++ [op]) id (contract_of (json_state st))) as Hold.
  { intros id' f' H'. destruct (IH _ _ H') as (st & -> & Hb). exists st. split; [done|by apply backed_snoc]. }
  destruct He as [r d' Hl _ _|sid d' -> Hl|d' Hready (st & st' & Hcur & Hup & _ & Hl)]; rewrite Hl.
  - apply Hold.
  - rewrite lookup_delete_Some. intros [_ H']. by apply Hold.
  - rewrite lookup_insert_Some. intros [[<- <-]|[_ H']]; [|by apply Hold].
    eexists. split; [done|]. rewrite contract_of_json, contract_of_revision.
    apply (backed_write _ _ _ st); [by rewrite Hop|done|done| |].
    + unfold current_state in Hcur. destruct (hd_live _ !! op_id op) as [f0|] eqn:Hf0.
      * destruct (IH _ _ Hf0) as (st0 & -> & _). injection Hcur as <-. right. by exists st0.
      * injection Hcur as <-. by left.
    + unfold current_state in Hcur. destruct (hd_live _ !! op_id op) as [f0|] eqn:Hf0.
      * destruct (IH _ _ Hf0) as (st0 & -> & Hb). by injection Hcur as <-.
      * injection Hcur as <-. apply backed_zero.
Qed.

Lemma contract_backed io ops id st c :
  ReadSessionState (hook_run ops (no_hooks io)) id = Ok (Some st) → hk_TurnContract st = Some c →
  backed (no_hooks io) ops id c.
Proof.
  unfold ReadSessionState. destruct (negb _); [done|]. intros Hread Hc.
  destruct (hd_live _ !! id) as [f|] eqn:Hf; [|done]. destruct (docs_backed _ _ _ _ Hf) as (st0 & -> & Hb).
  injection Hread as <-. unfold contract_of in Hb. by rewrite Hc in Hb.
Qed.

(** Whatever hooks, contract updates, launches, archivings and failing
    writes came before, a goal that carries the summarizer's provenance is
    exactly what a successful summary of this session wrote, with its time,
    and a canonical history reference is exactly what a successful, verified
    binding of this session wrote: no other writer can produce either. *)
Theorem trusted_fields_backed io ops id st c :
  ReadSessionState (hook_run ops (no_hooks io)) id = Ok (Some st) → hk_TurnContract st = Some c →
  backed (no_hooks io) ops id c.
Proof. apply contract_backed. Qed.

(** ** A summary applies to the document it was made from *)

Lemma op_keeps_revision op d id st :
  op ≠ HArchive id → hd_live d !! id = Some (HookDoc st) →
  ∃ st', hd_live (hook_op op d).2 !! id = Some (HookDoc st') ∧
    (st' = st ∨ hk_Revision st < hk_Revision st').
Proof.
  intros Hnot Hd. pose proof (hook_op_effect op d) as He. destruct (hook_op op d) as [r d']. simpl.
  destruct He as [r d' Hl _ _|sid d' -> Hl|d' _ (st1 & st2 & Hcur & Hup & _ & Hl)]; rewrite Hl.
  - exists st. by split; [|left].
  - exists st. rewrite lookup_delete_ne by congruence. by split; [|left].
  - destruct (decide (op_id op = id)) as [<-|Hne].
    + rewrite lookup_insert_eq. eexists. split; [done|right]. rewrite Hd in Hcur. injection Hcur as <-.
      apply op_update_revision in Hup. simpl. lia.
    + rewrite lookup_insert_ne by done. exists st. by split; [|left].
Qed.

Lemma run_keeps_revision mid d id st :
  (∀ op, op ∈ mid → op ≠ HArchive id) → hd_live d !! id = Some (HookDoc st) →
  ∃ st', hd_live (hook_run mid d) !! id = Some (HookDoc st') ∧
    (st' = st ∨ hk_Revision st < hk_Revision st').
Proof.
  revert d st. induction mid as [|op mid IH]; intros d st Hnot Hd; [exists st; by split; [|left]|].
  destruct (op_keeps_revision op d id st) as (st1 & Hd1 & H1); [apply Hnot; by left|done|].
  destruct (IH (hook_op op d).2 st1) as (st2 & Hd2 & H2); [intros; apply Hnot; by right|done|].
  exists st2. split; [exact Hd2|]. destruct H1 as [->|?], H2 as [->|?]; auto. right. lia.
Qed.

(** A summary that was made from a session's document and is applied
    later, after any hooks and writers that do not archive the session, is
    accepted only if that very document is still there: an event, an update or
    another summary in between makes it stale. *)
Theorem summary_applies_to_its_document d mid id st agent goal now :
  ReadSessionState d id = Ok (Some st) →
  (∀ op, op ∈ mid → op ≠ HArchive id) →
  (hook_op (HSummary id agent goal (SnapshotOverallGoalInput (Some st)) now) (hook_run mid d)).1 = Ok tt →
  ReadSessionState (hook_run mid d) id = Ok (Some st).
Proof.
  unfold ReadSessionState. destruct (negb _); [done|]. intros Hread Hnot Hok.
  destruct (hd_live d !! id) as [[st0| |]|] eqn:Hd; [|done..]. injection Hread as ->.
  destruct (run_keeps_revision mid d id st Hnot Hd) as (st' & Hd' & Hrev). rewrite Hd'.
  destruct Hrev as [->|Hlt]; [done|]. exfalso. set (op := HSummary _ _ _ _ _) in Hok.
  pose proof (hook_op_effect op (hook_run mid d)) as He. destruct (hook_op op _) as [r d'].
  simpl in Hok. subst r. inversion He as [? ? _ _ Harch|? ? ?|? _ (st1 & st2 & Hcur & Hup & _)]; subst.
  - by destruct (Harch eq_refl).
  - done.
  - cbn [op_id op] in Hcur. rewrite Hd' in Hcur. injection Hcur as <-. cbn [op_update op] in Hup.
    destruct (snapshot_matches _ _) eqn:Hm; [|done]. unfold snapshot_matches in Hm.
    rewrite !andb_true_iff in Hm. destruct Hm as [[[[[[[[[Hr _] _] _] _] _] _] _] _] _].
    apply Z.eqb_eq in Hr. simpl in Hr. lia.
Qed.

(** ** The turn fields are a function of the events recorded *)

(** The events of a session since it was last archived: name, tool, time. *)
Definition Event : Type := string * Time.
Definition log_step (id : string) (op : HookOp) (r : result HookError unit) (log : list Event) : list Event :=
  match op, r with
  | HEvent sid _ event _ _ now, Ok _ => if String.eqb sid id then log ++ [(event, now)] else log
  | HArchive sid, Ok _ => if String.eqb sid id then [] else log
  | _, _ => log
  end.
Fixpoint hook_log (id : string) (ops : list HookOp) (d : HookDir) (log : list Event) : list Event :=
  match ops with
  | [] => log
  | op :: rest => let '(r, d') := hook_op op d in hook_log id rest d' (log_step id op r log)
  end.

Definition events_of (name : string) (log : list Event) : list Event :=
  filter (λ e, e.1 = name) log.
Definition last_time (log : list Event) : Time := default zero_time (snd <$> last log).

(** What a document shows of the turns, and what the log says. *)
Record TurnView := mkView {
  tv_working : bool; tv_turns : Z; tv_events : Z; tv_prompt : Time; tv_end : Time; tv_last : string }.
Definition view_of (st : SessionState) : TurnView :=
  mkView (hk_Working st) (hk_TurnCount st) (hk_EventsSeen st) (hk_LastPromptSubmitAt st)
    (hk_LastTurnEndAt st) (hk_LastEvent st).
Definition spec_view (log : list Event) : TurnView :=
  mkView
    match last (filter (λ e, e.1 ≠ EventNotification) log) with
    | Some (name, _) => negb (String.eqb name EventTurnEnd)
    | None => false
    end
    (s64 (Z.of_nat (length (events_of EventPromptSubmit log)))) (s64 (Z.of_nat (length log)))
    (last_time (events_of EventPromptSubmit log)) (last_time (events_of EventTurnEnd log))
    (default "" (fst <$> last log)).

Lemma s64_succ x : s64 (s64 x + 1) = s64 (x + 1).
Proof.
  unfold s64. replace ((x + 9223372036854775808) mod 18446744073709551616 - 9223372036854775808 + 1
    + 9223372036854775808) with ((x + 9223372036854775808) mod 18446744073709551616 + 1) by lia.
  rewrite Zplus_mod_idemp_l. f_equal. f_equal. lia.
Qed.

(** One event, on the document and on the log. *)
Definition add_event (e : Event) (v : TurnView) : TurnView :=
  let '(name, now) := e in
  mkView
    (if String.eqb name EventNotification then tv_working v else negb (String.eqb name EventTurnEnd))
    (if String.eqb name EventPromptSubmit then s64 (tv_turns v + 1) else tv_turns v)
    (s64 (tv_events v + 1))
    (if String.eqb name EventPromptSubmit then now else tv_prompt v)
    (if String.eqb name EventTurnEnd then now else tv_end v) name.

Lemma events_of_snoc name log e :
  events_of name (log ++ [e]) = if String.eqb e.1 name then events_of name log ++ [e] else events_of name log.
Proof.
  unfold events_of. rewrite filter_app, filter_cons, filter_nil. destruct (String.eqb_spec e.1 name).
  - by rewrite decide_True.
  - by rewrite decide_False, app_nil_r.
Qed.
Lemma last_time_snoc log e : last_time (log ++ [e]) = e.2.
Proof. unfold last_time. by rewrite last_snoc. Qed.

Lemma spec_view_snoc log e : spec_view (log ++ [e]) = add_event e (spec_view log).
Proof.
  destruct e as [name now]. unfold spec_view, add_event.
  cbn [tv_working tv_turns tv_events tv_prompt tv_end]. f_equal.
  - rewrite filter_app, filter_cons, filter_nil. cbn [fst].
    destruct (String.eqb_spec name EventNotification) as [->|Hne].
    + rewrite decide_False, app_nil_r; [done|by intros []].
    + by rewrite decide_True, last_snoc.
  - rewrite events_of_snoc. cbn [fst]. destruct (String.eqb _ _); [|done].
    rewrite length_app, s64_succ. simpl. f_equal. lia.
  - rewrite length_app, s64_succ. simpl. f_equal. lia.
  - rewrite events_of_snoc. cbn [fst]. destruct (String.eqb _ _); [|done]. apply last_time_snoc.
  - rewrite events_of_snoc. cbn [fst]. destruct (String.eqb _ _); [|done]. apply last_time_snoc.
  - by rewrite last_snoc.
Qed.

Lemma view_of_update st u now : view_of (applyTurnContractUpdate st u now) = view_of st.
Proof. unfold applyTurnContractUpdate. by destruct (forallb _ _). Qed.
Lemma json_text_events name : name ∈ CanonicalEvents → json_text name = name.
Proof. unfold CanonicalEvents. rewrite !elem_of_cons, elem_of_nil. by intros [->|[->|[->|[->|[->|[]]]]]]. Qed.

Lemma view_of_event st sid agent event tool now :
  event ∈ CanonicalEvents →
  view_of (apply_turn event tool now (count_event event now (identify sid agent now st))) =
    add_event (event, now) (view_of st).
Proof.
  unfold CanonicalEvents. rewrite !elem_of_cons, elem_of_nil. by intros [->|[->|[->|[->|[->|[]]]]]].
Qed.

(** The view an update leaves. *)
Definition view_after (op : HookOp) (v : TurnView) : TurnView :=
  match op with
  | HEvent _ _ event _ _ now => add_event (event, now) v
  | _ => v
  end.
Lemma op_update_view op st st' :
  op_ready op → op_update op st = Ok st' → view_of st' = view_after op (view_of st).
Proof.
  destruct op as [sid agent goal now|sid agent u now|sid agent event tool u now| |sid agent goal expected now|];
    cbn [op_update op_ready view_after]; try (intros Hready [= <-]); try done.
  - cbv zeta. by repeat case_match.
  - unfold set_updated, view_of. cbn. by apply (view_of_update (identify sid agent now st) u now).
  - by rewrite view_of_update, view_of_event.
  - intros _. case_match; [|done]. by intros [= <-].
Qed.

Lemma view_of_json st n :
  json_text (hk_LastEvent st) = hk_LastEvent st → view_of (json_state (set_revision n st)) = view_of st.
Proof.
  intros Hj. unfold view_of, json_state, set_revision.
  cbn [hk_Working hk_TurnCount hk_EventsSeen hk_LastPromptSubmitAt hk_LastTurnEndAt hk_LastEvent]. by rewrite Hj.
Qed.

(** The document of [id], or its absence, agrees with the log. *)
Definition agrees (d : HookDir) (id : string) (log : list Event) : Prop :=
  match hd_live d !! id with
  | None => log = []
  | Some (HookDoc st) => view_of st = spec_view log ∧ json_text (hk_LastEvent st) = hk_LastEvent st
  | Some _ => False
  end.

Lemma agrees_step d id log op :
  agrees d id log →
  let '(r, d') := hook_op op d in agrees d' id (log_step id op r log).
Proof.
  intros Ha. pose proof (hook_op_effect op d) as He. destruct (hook_op op d) as [r d'].
  destruct He as [r d' Hl Harch Hok|sid d' -> Hl|d' Hready (st & st' & Hcur & Hup & _ & Hl)].
  - assert (log_step id op r log = log) as ->.
    { destruct r as [[]|e]; [|by destruct op]. destruct (Hok eq_refl) as [sid ->]. simpl.
      specialize (Harch sid eq_refl eq_refl). destruct (String.eqb_spec sid id) as [->|]; [|done].
      unfold agrees in Ha. by rewrite Harch in Ha. }
    unfold agrees. by rewrite Hl.
  - unfold agrees. rewrite Hl. simpl. destruct (String.eqb_spec sid id) as [->|].
    + by rewrite lookup_delete_eq.
    + by rewrite lookup_delete_ne.
  - unfold agrees. rewrite Hl. destruct (decide (op_id op = id)) as [<-|Hne].
    + rewrite lookup_insert_eq.
      assert (view_of st = spec_view log ∧ json_text (hk_LastEvent st) = hk_LastEvent st) as [Hv Hj].
      { unfold agrees in Ha. unfold current_state in Hcur. destruct (hd_live d !! op_id op) as [[]|]; try done.
        - by injection Hcur as <-.
        - injection Hcur as <-. by subst log. }
      pose proof (op_update_view _ _ _ Hready Hup) as Hv'. rewrite Hv in Hv'.
      assert (view_of st' = spec_view (log_step (op_id op) op (Ok tt) log)) as Hspec.
      { rewrite Hv'. destruct op; cbn [view_after log_step op_id] in *; rewrite ?String.eqb_refl, ?spec_view_snoc; done. }
      assert (json_text (hk_LastEvent st') = hk_LastEvent st') as Hj'.
      { change (hk_LastEvent st') with (tv_last (view_of st')). rewrite Hv'.
        destruct op; cbn [view_after]; try (rewrite <- Hv; exact Hj). cbn [add_event tv_last].
        by apply json_text_events. }
      split; [by rewrite view_of_json|]. cbn [json_state set_revision hk_LastEvent]. by rewrite json_text_idem.
    + rewrite lookup_insert_ne by done. assert (log_step id op (Ok tt) log = log) as ->; [|exact Ha].
      destruct op; cbn [log_step op_id] in *; try done; by rewrite (proj2 (String.eqb_neq _ _)).
Qed.

Lemma hook_log_agrees ops d id log :
  agrees d id log → agrees (hook_run ops d) id (hook_log id ops d log).
Proof.
  revert d log. induction ops as [|op ops IH]; intros d log Ha; [done|]. cbn [hook_log].
  pose proof (agrees_step d id log op Ha) as Hs.
  change (hook_run (op :: ops) d) with (hook_run ops (hook_op op d).2).
  destruct (hook_op op d) as [r d']. by apply IH.
Qed.

Lemma read_agrees io ops id :
  sessionIDRe id = true →
  match ReadSessionState (hook_run ops (no_hooks io)) id with
  | Ok (Some st) => view_of st = spec_view (hook_log id ops (no_hooks io) [])
  | Ok None => hook_log id ops (no_hooks io) [] = []
  | Err _ => False
  end.
Proof.
  intros Hid. set (log := hook_log _ _ _ _). assert (agrees (hook_run ops (no_hooks io)) id log) as Ha.
  { apply hook_log_agrees. unfold agrees. simpl. by rewrite lookup_empty. }
  unfold ReadSessionState. rewrite Hid. cbn [negb]. unfold agrees in Ha.
  destruct (hd_live _ !! id) as [[st| |]|]; [apply Ha|done|done|exact Ha].
Qed.

(** C18: refinement: whatever writers ran and failed, what a session's document
    shows of its turns is the function [spec_view] of the events successfully
    recorded since it was last archived: it works exactly while the last event
    that is not a notification is not a turn's end, its counters count (as
    64-bit integers), and its times are those of the last prompt and the last
    turn's end. Without a document no event was recorded. *)
Theorem hook_state_refines_log io ops id :
  sessionIDRe id = true →
  let log := hook_log id ops (no_hooks io) [] in
  match ReadSessionState (hook_run ops (no_hooks io)) id with
  | Ok (Some st) => view_of st = spec_view log
  | Ok None => log = []
  | Err _ => False
  end.
Proof. intros Hid log. by apply read_agrees. Qed.
