(* ===== verification/SessionView.v ===== *)
(** internal/sessionview: the view of a local session that may be shown to
    other devices, with the cleaning of its texts and the rules for the
    current-work line. *)

From S2P Require Import Prelude GoText RuneText Safetext Session HookState.
From stdpp Require Import base gmap strings list sorting.
From Stdlib Require Import ZArith Lia Ascii.

Open Scope Z_scope.

(** ** Locators *)

Definition LocatorVersion : Z := 1.
Definition RootProfileScope : string := "root".
Definition maxGoalRunes : nat := 1024.
Definition maxOverallGoalRunes : nat := 4096.
Definition maxCurrentWorkRunes : nat := 240.
Definition maxSourceRunes : nat := 128.
Definition maxCWDRunes : nat := 4096.

Definition NamedProfileScope (normalizedName : string) : result string string :=
  if slug_matches normalizedName then Ok ("profile:" +:+ normalizedName)
  else Err "invalid normalized profile name".
Definition ProfileName (s : string) : option string :=
  match cut_prefix "profile:" s with
  | Some name => if slug_matches name then Some name else None
  | None => None
  end.
Definition ProfileScope_Validate (s : string) : result string unit :=
  if String.eqb s RootProfileScope then Ok tt
  else guard_err (bool_decide (is_Some (ProfileName s))) "invalid profile scope".

Record Locator := mkLocator { lc_Version : Z; lc_ProfileScope : string; lc_SessionID : string }.
(** [^[A-Za-z0-9][A-Za-z0-9._:-]{0,255}$] *)
Definition sessionIDPattern (s : string) : bool :=
  head_tail is_alnum (λ c, is_alnum c || is_id_punct c || char_is ":" c) 0 255 s.
Definition Locator_Validate (l : Locator) : result string unit :=
  _ ← guard_err (lc_Version l =? LocatorVersion) "unsupported locator version";
  _ ← ProfileScope_Validate (lc_ProfileScope l);
  guard_err (sessionIDPattern (lc_SessionID l)) "invalid session id".
Definition NewLocator (scope sessionID : string) : result string Locator :=
  let l := mkLocator LocatorVersion scope sessionID in
  _ ← Locator_Validate l; Ok l.

(** ** Replacing the matches of a pattern *)

(** [regexp.ReplaceAllString] for a pattern that matches no empty text: the
    leftmost match, chosen by preference, then on from its end. *)
Fixpoint replace_from (fuel : nat) (r : re) (repl : option Z → list Z → list Z) (prev : option Z)
    (s : list Z) : list Z :=
  match fuel with
  | O => s
  | S fuel =>
      match ends r (prev, s) with
      | y :: _ => repl prev (take (length s - length y.2) s) ++ replace_from fuel r repl y.1 y.2
      | [] => match s with [] => [] | c :: s' => c :: replace_from fuel r repl (Some c) s' end
      end
  end.
Definition ReplaceAll (r : re) (repl : option Z → list Z → list Z) (s : list Z) : list Z :=
  replace_from (S (length s)) r repl None s.

Definition assignment_word : re :=
  ors [seqs [lit_i "api"; sep1 "_ -"; lit_i "key"]; seqs [lit_i "access"; sep1 "_ -"; lit_i "token"];
       seqs [lit_i "auth"; sep1 "_ -"; lit_i "token"]; lit_i "password"; lit_i "secret"].
Definition secretAssignment : re :=
  seqs [Boundary; assignment_word; Star (Cls sp); Cls (any_of ":="); Star (Cls sp);
        Safetext.plus (Cls (λ r, negb (sp r || any_of ",;" r)))].
Definition bearerToken : re :=
  seqs [Boundary; lit_i "bearer"; Safetext.plus (Cls sp);
        at_least 8 (Cls (ci (λ r, az r || d09 r || any_of "._~+/=-" r)))].
Definition commonToken : re :=
  seqs [Boundary; ors [lit "sk"; lit "ghp"; lit "github_pat"; seqs [lit "xox"; Cls (any_of "baprs")]];
        Cls (any_of "-_"); at_least 8 (Cls (alnum_or "_-")); Boundary].

(** The text of the first group, the word before the sign. *)
Definition group1 (prev : option Z) (m : list Z) : list Z :=
  match ends assignment_word (prev, m) with
  | y :: _ => take (length m - length y.2) m
  | [] => []
  end.

(** ** Cleaning texts *)

Definition cleanControlText (value : list Z) : list Z :=
  filter (λ r, (r =? 10) || (r =? 9) || (32 <=? r) = true) value.
Definition boundText (value : list Z) (maxRunes : nat) : list Z :=
  if (length value <=? maxRunes)%nat then value else take maxRunes value.
Definition cleanRunes (value : list Z) (maxRunes : nat) : list Z :=
  let value := cleanControlText value in
  let value := ReplaceAll secretAssignment (λ prev m, group1 prev m ++ runes "=[REDACTED]") value in
  let value := ReplaceAll bearerToken (λ _ _, runes "Bearer [REDACTED]") value in
  let value := ReplaceAll commonToken (λ _ _, runes "[REDACTED]") value in
  boundText value maxRunes.
Definition cleanText (value : string) (maxRunes : nat) : string :=
  runes_string (cleanRunes (runes value) maxRunes).
Definition cleanBoundedText (value : string) (maxRunes : nat) : string :=
  runes_string (boundText (cleanControlText (runes value)) maxRunes).

(** [filepath.Base] *)
Fixpoint drop_slashes (l : list Z) : list Z :=
  match l with c :: l' => if c =? 47 then drop_slashes l' else l | [] => [] end.
Fixpoint until_slash (l : list Z) : list Z :=
  match l with c :: l' => if c =? 47 then [] else c :: until_slash l' | [] => [] end.
Definition path_base (path : list Z) : list Z :=
  match path with
  | [] => [46]
  | _ => match drop_slashes (rev path) with [] => [47] | l => rev (until_slash l) end
  end.
Definition safeHistoryBasename (path : string) : string :=
  match TrimSpace (runes path) with
  | [] => ""
  | path =>
      let base := path_base path in
      if bool_decide (base = [46]) || bool_decide (base = [47]) || bool_decide (base = []) then ""
      else runes_string (cleanRunes base 255)
  end.

Definition nonZeroTime (value : Time) : option Time := if IsZero value then None else Some value.

(** ** The view *)

Record WorkSummary := mkWork {
  wk_Goal : string; wk_OverallGoal : string; wk_LatestAsk : string; wk_Source : string; wk_UpdatedAt : Time }.
Record CurrentWorkSummary := mkCurrentWork { cw_Summary : string; cw_Provenance : string; cw_UpdatedAt : Time }.
Record HistoryReference := mkHistory { hx_Basename : string; hx_Provenance : string; hx_UpdatedAt : Time }.

Record Summary := mkSummary {
  sm_Locator : Locator; sm_Name : string; sm_Agent : string; sm_Transport : string; sm_LaunchCWD : string;
  sm_OwnerID : string; sm_State : string; sm_Health : string; sm_StartedAt : Time; sm_LastActivityAt : Time;
  sm_IdleSince : option Time; sm_WorkingSince : option Time; sm_CurrentWork : option CurrentWorkSummary;
  sm_Work : option WorkSummary; sm_History : option HistoryReference;
  sm_ObservedAt : Time; sm_SourceUpdatedAt : Time; sm_Private : bool }.
Record TurnActivity := mkTurn {
  ta_TurnCount : Z; ta_EventsSeen : Z; ta_LastPromptSubmitAt : option Time; ta_LastTurnEndAt : option Time }.
Record Detail := mkDetail { dt_Summary : Summary; dt_NudgeCount : Z; dt_Turn : option TurnActivity }.

(** A nil input is no current work and no error. *)
Definition NormalizeCurrentWork (value : CurrentWorkSummary) : result string CurrentWorkSummary :=
  if negb (String.eqb (cw_Provenance value) OverallGoalSummarizerProvenance)
  then Err "unsupported current-work provenance"
  else if IsZero (cw_UpdatedAt value) then Err "current-work updated_at is required"
  else
    let raw := squeeze (runes (cw_Summary value)) in
    let normalized := cleanControlText raw in
    if ContainsCredentialLike raw || ContainsCredentialLike normalized
    then Err "current-work summary appears to contain credential material"
    else
      let summary := boundText normalized maxCurrentWorkRunes in
      if bool_decide (TrimSpace summary = []) then Err "current-work summary is required"
      else Ok (mkCurrentWork (runes_string summary) (cw_Provenance value) (UTC (cw_UpdatedAt value))).

Definition CanonicalHistoryReference (hookState : option SessionState) : option HistoryReference :=
  match st ← hookState; c ← hk_TurnContract st; tc_CanonicalHistory c with
  | None => None
  | Some b =>
      if String.eqb (cb_Provenance b) CanonicalHistoryBindingProvenance &&
         negb (IsZero (cb_UpdatedAt b)) && negb (String.eqb (cb_ConversationID b) "")
      then
        let basename := safeHistoryBasename (cb_Basename b) in
        if String.eqb basename (cb_Basename b)
        then Some (mkHistory basename (cb_Provenance b) (cb_UpdatedAt b)) else None
      else None
  end.

Definition State_text (s : State) : string :=
  match s with
  | StateStarting => "starting" | StateHandshaking => "handshaking" | StateIdle => "idle"
  | StateWorking => "working" | StateStuck => "stuck" | StateEscalated => "escalated"
  | StateExited => "exited" | StateFailed => "failed" | StateOther raw => raw
  end.

Definition work_of (tc : TurnContract) : option WorkSummary :=
  let work := mkWork (cleanText (tc_Goal tc) maxGoalRunes) (cleanText (tc_OverallGoal tc) maxOverallGoalRunes)
                "" (cleanText (tc_Source tc) maxSourceRunes) (tc_UpdatedAt tc) in
  if negb (String.eqb (wk_Goal work) "") || negb (String.eqb (wk_OverallGoal work) "") ||
     negb (String.eqb (wk_Source work) "") || negb (IsZero (wk_UpdatedAt work))
  then Some work else None.
Definition current_work_of (tc : TurnContract) : option CurrentWorkSummary :=
  if String.eqb (tc_OverallGoalProvenance tc) OverallGoalSummarizerProvenance
  then match NormalizeCurrentWork (mkCurrentWork (tc_OverallGoal tc) (tc_OverallGoalProvenance tc)
               (tc_OverallGoalUpdatedAt tc)) with
       | Ok current => Some current
       | Err _ => None
       end
  else None.

Definition base_summary (locator : Locator) (snap : Snapshot) (observedAt : Time) : Summary :=
  mkSummary locator (cleanText (ses_Name snap) maxSourceRunes) (cleanText (ses_Agent snap) maxSourceRunes)
    (cleanText (ses_Transport snap) maxSourceRunes) (cleanText (ses_CWD snap) maxCWDRunes)
    (cleanText (ses_OwnerID snap) maxGoalRunes) (State_text (ses_State snap))
    (cleanText (ses_Health snap) maxSourceRunes) (ses_StartedAt snap) (ses_LastActivityAt snap)
    (ses_IdleSince snap) (ses_WorkingSince snap) None None None observedAt (ses_LastActivityAt snap)
    (ses_private snap).

(** What the hook state adds: a later source time, and the turn contract. *)
Definition with_hook_state (st : SessionState) (s : Summary) : Summary :=
  let tc := hk_TurnContract st in
  mkSummary (sm_Locator s) (sm_Name s) (sm_Agent s) (sm_Transport s) (sm_LaunchCWD s) (sm_OwnerID s)
    (sm_State s) (sm_Health s) (sm_StartedAt s) (sm_LastActivityAt s) (sm_IdleSince s) (sm_WorkingSince s)
    (tc ≫= current_work_of) (tc ≫= work_of) (tc ≫= λ _, CanonicalHistoryReference (Some st))
    (sm_ObservedAt s)
    (if After (hk_UpdatedAt st) (sm_SourceUpdatedAt s) then hk_UpdatedAt st else sm_SourceUpdatedAt s)
    (sm_Private s).

Definition Build (scope : string) (snap : Snapshot) (hookState : option SessionState) (observedAt : Time)
  : result string (Summary * Detail) :=
  locator ← NewLocator scope (ses_ID snap);
  let summary := base_summary locator snap observedAt in
  match hookState with
  | None => Ok (summary, mkDetail summary (ses_NudgeCount snap) None)
  | Some st =>
      let summary := with_hook_state st summary in
      Ok (summary, mkDetail summary (ses_NudgeCount snap)
        (Some (mkTurn (hk_TurnCount st) (hk_EventsSeen st) (nonZeroTime (hk_LastPromptSubmitAt st))
                 (nonZeroTime (hk_LastTurnEndAt st)))))
  end.

(** [sort.Slice] by scope, then session id. *)
Definition summary_le (a b : Summary) : Prop :=
  if String.eqb (lc_ProfileScope (sm_Locator a)) (lc_ProfileScope (sm_Locator b))
  then String.le (lc_SessionID (sm_Locator a)) (lc_SessionID (sm_Locator b))
  else String.le (lc_ProfileScope (sm_Locator a)) (lc_ProfileScope (sm_Locator b)).
#[export] Instance summary_le_dec : RelDecision summary_le.
Proof. intros a b. unfold summary_le. destruct (String.eqb _ _); apply _. Defined.
Definition Sort (summaries : list Summary) : list Summary := merge_sort summary_le summaries.
