(* ===== verification/GoalSummary.v ===== *)
(** internal/daemon/goal_summarizer.go: choosing the finished turns to
    summarise, the bound on concurrent summaries, the check of what the model
    returned, and the write into the hook state. The model's answer is an
    argument. *)

From S2P Require Import Prelude GoText RuneText Safetext Session HookState SessionView.
From stdpp Require Import base gmap sets strings list.
From Stdlib Require Import ZArith Lia.

Open Scope Z_scope.

Definition goalSummaryRetryAfter : Z := 60000000000.
Definition goalSummaryGlobalLimit : nat := 2.
Definition goalSummaryOutputBytes : Z := 16384.

(** ** Candidates *)

Record goalSummaryCandidateT := mkCandidate {
  gc_sessionID : string; gc_agent : string; gc_input : OverallGoalInputSnapshot; gc_current : string;
  gc_goal : string; gc_forbidden : list string }.

(** The text of the key names exactly these three values. *)
Definition candidate_key (c : goalSummaryCandidateT) : Z * Z * Z :=
  (og_Revision (gc_input c), og_TurnCount (gc_input c), t_ns (og_LastTurnEndAt (gc_input c))).

Definition goalSummaryCandidate (d : HookDir) (snap : Snapshot) : option goalSummaryCandidateT :=
  match ReadSessionState d (ses_ID snap) with
  | Err _ | Ok None => None
  | Ok (Some state) =>
      if negb (String.eqb (hk_SessionID state) (ses_ID snap)) ||
         negb (String.eqb (hk_Agent state) (ses_Agent snap)) ||
         (hk_TurnCount state <? 1) || IsZero (hk_LastTurnEndAt state)
      then None else
      match hk_TurnContract state with
      | None => None
      | Some contract =>
          let goal := trim_space (tc_Goal contract) in
          if String.eqb goal "" then None else
          let trustedCurrent :=
            String.eqb (tc_OverallGoalProvenance contract) OverallGoalSummarizerProvenance in
          if trustedCurrent && negb (Before (tc_OverallGoalUpdatedAt contract) (hk_LastTurnEndAt state))
          then None else
          Some (mkCandidate (ses_ID snap) (ses_Agent snap) (SnapshotOverallGoalInput (Some state))
            (if trustedCurrent then tc_OverallGoal contract else "") goal
            ([tc_Goal contract; tc_LastUserMessage contract] ++
             (if trustedCurrent then [] else [tc_OverallGoal contract])))
      end
  end.

(** ** The pool *)

(** [goalSummaryActive], [goalSummaryAttempts], the slots in use and the
    daemon's [stopping]. *)
Record SummaryPool := mkPool {
  sp_active : gset string; sp_attempts : gmap string ((Z * Z * Z) * Z); sp_slots : nat; sp_stopping : bool }.

Definition releaseOverallGoalSummary (sessionID : string) (p : SummaryPool) : SummaryPool :=
  mkPool (sp_active p ∖ {[sessionID]}) (sp_attempts p) (sp_slots p - 1) (sp_stopping p).

(** The same turn was attempted less than a minute ago. *)
Definition attempted_recently (now : Z) (c : goalSummaryCandidateT) (p : SummaryPool) : bool :=
  match sp_attempts p !! gc_sessionID c with
  | Some (key, at_) => bool_decide (key = candidate_key c) && (now - at_ <? goalSummaryRetryAfter)
  | None => false
  end.

(** Whether the poll goes on, whether a summary was started, the pool. *)
Definition startOverallGoalSummary (now : Z) (c : goalSummaryCandidateT) (p : SummaryPool)
  : bool * bool * SummaryPool :=
  let id := gc_sessionID c in
  if bool_decide (id ∈ sp_active p) then (true, false, p) else
  if attempted_recently now c p then (true, false, p) else
  if (goalSummaryGlobalLimit <=? sp_slots p)%nat then (true, false, p) else
  let p' := mkPool ({[id]} ∪ sp_active p) (<[id := (candidate_key c, now)]> (sp_attempts p))
              (S (sp_slots p)) (sp_stopping p) in
  if sp_stopping p then (false, false, releaseOverallGoalSummary id p') else (true, true, p').

(** One poll over the sessions: the candidates started and the pool. *)
Fixpoint queueOverallGoalSummaries (d : HookDir) (now : Z) (sessions : list Snapshot) (p : SummaryPool)
  : list goalSummaryCandidateT * SummaryPool :=
  match sessions with
  | [] => ([], p)
  | snap :: rest =>
      if ses_private snap then queueOverallGoalSummaries d now rest p else
      match goalSummaryCandidate d snap with
      | None => queueOverallGoalSummaries d now rest p
      | Some c =>
          let '(go_on, started, p') := startOverallGoalSummary now c p in
          if negb go_on then ([], p') else
          let '(cs, p'') := queueOverallGoalSummaries d now rest p' in
          (if started then c :: cs else cs, p'')
      end
  end.

(** ** Checking the answer *)

Section Checking.
Context `{UnicodeTables}.

Definition comparableGoalText (value : list Z) : list Z := ToLower (squeeze value).
Definition shorterGoalText (left right : list Z) : list Z :=
  if (length left <? length right)%nat then left else right.

(** The spans of [size] consecutive words. *)
Fixpoint spans (size : nat) (words : list (list Z)) : list (list Z) :=
  match words with
  | [] => []
  | _ :: rest =>
      if (size <=? length words)%nat then join_words (take size words) :: spans size rest else []
  end.

Definition containsVerbatimExcerpt (output source : list Z) : bool :=
  let out := comparableGoalText output in
  let src := comparableGoalText source in
  if bool_decide (out = []) || bool_decide (src = []) then false
  else if (runes_contain src out || runes_contain out src) &&
          (4 <=? length (shorterGoalText out src))%nat then true
  else
    let sourceWords := Fields src in
    if existsb (λ w, (8 <=? length w)%nat && runes_contain w out) sourceWords then true
    else existsb (λ size, existsb (λ span, (8 <=? length span)%nat && runes_contain span out)
                            (spans size sourceWords))
           (seq 2 (length sourceWords - 1)).

Definition validateGoalSummaryOutput (updated : string) (c : goalSummaryCandidateT) (now : Time)
  : result HookError string :=
  match NormalizeCurrentWork (mkCurrentWork updated OverallGoalSummarizerProvenance (UTC now)) with
  | Err _ => Err (HookErr "overall-goal summarizer returned unsafe output")
  | Ok _ =>
      if existsb (λ source, containsVerbatimExcerpt (runes updated) (runes source)) (gc_forbidden c)
      then Err (HookErr "overall-goal summarizer copied untrusted input")
      else Ok (trim_space updated)
  end.

(** [answer] is what the runner made of [current] and [goal]; the two clock
    readings are those of the check and of the write. *)
Definition refreshOverallGoal (c : goalSummaryCandidateT) (answer : result HookError string)
    (checked now : Time) : HM unit :=
  updated ← lift answer;
  updated ← lift (validateGoalSummaryOutput updated c checked);
  ApplySummarizedOverallGoal (gc_sessionID c) (gc_agent c) updated (gc_input c) now.

Definition refreshOverallGoalOnce (managed : option Snapshot)
    (runner : string → string → result HookError string) (checked now : Time) : HM unit :=
  match managed with
  | None => throw (HookErr "session not found")
  | Some snap =>
      if ses_private snap then throw (HookErr "private session summary is disabled") else
      candidate ← gets (λ d, goalSummaryCandidate d snap);
      match candidate with
      | None => throw (HookErr "session has no pending summarizable turn")
      | Some c => refreshOverallGoal c (runner (gc_current c) (gc_goal c)) checked now
      end
  end.
End Checking.
