(* ===== verification/WorkFacts.v ===== *)
(** The current-work line another device may see: it is always what the
    background summarizer made of a finished turn of that session, checked
    against the text it was not to repeat; and the summarizer's pool. *)

From S2P Require Import Prelude GoText RuneText Safetext Session HookState HookFacts SessionView GoalSummary.
From stdpp Require Import base gmap sets strings list.
From Stdlib Require Import ZArith Lia.

Open Scope Z_scope.

(** ** The daemon as the only summarizer *)

Section Work.
Context `{UnicodeTables}.

(** What a refresh does is one writer, run with the checked answer. *)
Lemma refreshOverallGoal_eq c answer checked now d :
  refreshOverallGoal c (Ok answer) checked now d =
    match validateGoalSummaryOutput answer c checked with
    | Ok t => hook_op (HSummary (gc_sessionID c) (gc_agent c) t (gc_input c) now) d
    | Err e => (Err e, d)
    end.
Proof. unfold refreshOverallGoal, mbind, M_bind, lift. by destruct (validateGoalSummaryOutput _ _ _). Qed.

(** The runs of the writers in which every summary is the checked answer of
    the model to a candidate taken earlier in the run from a session that is
    not private; everything else is any hook, update, binding or archiving. *)
Definition taken (io : list bool) (pre : list HookOp) (c : goalSummaryCandidateT) : Prop :=
  ∃ snap, ses_private snap = false ∧ goalSummaryCandidate (hook_run pre (no_hooks io)) snap = Some c.
Inductive daemon_run (io : list bool) : list HookOp → Prop :=
| daemon_nil : daemon_run io []
| daemon_hook ops op :
    daemon_run io ops → (∀ id agent goal expected now, op ≠ HSummary id agent goal expected now) →
    daemon_run io (ops ++ [op])
| daemon_summary ops pre c answer t checked now :
    daemon_run io ops → pre `prefix_of` ops → taken io pre c →
    validateGoalSummaryOutput answer c checked = Ok t →
    daemon_run io (ops ++ [HSummary (gc_sessionID c) (gc_agent c) t (gc_input c) now]).

(** Where a summary in such a run comes from. *)
Definition origin (io : list bool) (ops : list HookOp) (c : goalSummaryCandidateT) (answer t : string) : Prop :=
  (∃ pre, pre `prefix_of` ops ∧ taken io pre c) ∧
  ∃ checked, validateGoalSummaryOutput answer c checked = Ok t.

Lemma summary_origin io ops id agent goal expected now :
  daemon_run io ops → HSummary id agent goal expected now ∈ ops →
  ∃ c answer, origin io ops c answer goal ∧ gc_sessionID c = id ∧ gc_input c = expected.
Proof.
  intros Hrun. assert (∀ ops op c answer t, origin io ops c answer t → origin io (ops ++ [op]) c answer t) as Hmono.
  { intros os op c answer t [(pre & Hpre & Ht) Hc]. split; [|done]. exists pre. split; [|done].
    by apply prefix_app_r. }
  induction Hrun as [|ops op _ IH Hnot|ops pre c answer t checked now' _ IH Hpre Htaken Hvalid].
  - by intros ?%not_elem_of_nil.
  - intros [Hin|Hop%list_elem_of_singleton]%elem_of_app; [|by destruct (Hnot id agent goal expected now)].
    destruct (IH Hin) as (c & answer & Ho & Heq). exists c, answer. split; [by apply Hmono|done].
  - intros [Hin|Hop%list_elem_of_singleton]%elem_of_app.
    + destruct (IH Hin) as (c' & answer' & Ho & Heq). exists c', answer'. split; [by apply Hmono|done].
    + injection Hop as -> _ -> -> _. exists c, answer. split; [|done]. split; [|by exists checked].
      exists pre. split; [by apply prefix_app_r|done].
Qed.

(** ** What the answer was checked for *)

Lemma validate_ok answer c checked t :
  validateGoalSummaryOutput answer c checked = Ok t →
  t = trim_space answer ∧
  ContainsCredentialLike (squeeze (runes answer)) = false ∧
  ContainsCredentialLike (cleanControlText (squeeze (runes answer))) = false ∧
  (∀ source, source ∈ gc_forbidden c → containsVerbatimExcerpt (runes answer) (runes source) = false).
Proof.
  unfold validateGoalSummaryOutput, NormalizeCurrentWork. cbn [cw_Provenance cw_UpdatedAt cw_Summary].
  rewrite String.eqb_refl. cbn [negb]. destruct (IsZero _); [done|].
  destruct (ContainsCredentialLike (squeeze (runes answer))) eqn:H1; [done|].
  destruct (ContainsCredentialLike (cleanControlText _)) eqn:H2; [done|]. cbn [orb].
  destruct (bool_decide _); [done|]. destruct (existsb _ _) eqn:Hex; [done|]. intros [= <-].
  split_and!; [done|done|done|]. intros source Hin.
  destruct (containsVerbatimExcerpt _ _) eqn:Hc; [|done]. rewrite <- Hex. symmetry.
  apply existsb_exists. exists source. by rewrite <- list_elem_of_In.
Qed.

(** An accepted answer repeats no long word of its forbidden texts. *)
Lemma no_long_word out src w :
  containsVerbatimExcerpt out src = false →
  w ∈ Fields (comparableGoalText src) → (8 <= length w)%nat →
  comparableGoalText out ≠ [] → runes_contain w (comparableGoalText out) = false.
Proof.
  unfold containsVerbatimExcerpt. intros Hc Hw Hlen Hne. rewrite (bool_decide_eq_false_2 _ Hne) in Hc.
  destruct (bool_decide_reflect (comparableGoalText src = [])) as [Hs|_].
  { rewrite Hs in Hw. by apply not_elem_of_nil in Hw. }
  cbn [orb] in Hc. destruct (_ && _); [done|]. destruct (existsb _ _) eqn:Hex; [done|].
  destruct (runes_contain w _) eqn:Hin; [|done]. rewrite <- Hex. symmetry. apply existsb_exists. exists w.
  by rewrite <- list_elem_of_In, (proj2 (Nat.leb_le _ _) Hlen), Hin.
Qed.

(** ** The view *)

Lemma cleanControl_prefix a b : a `prefix_of` b → cleanControlText a `prefix_of` cleanControlText b.
Proof. intros [k ->]. unfold cleanControlText. rewrite filter_app. by eexists. Qed.
Lemma boundText_prefix l n : boundText l n `prefix_of` l ∧ (length (boundText l n) <= n)%nat.
Proof.
  unfold boundText. destruct (Nat.leb_spec (length l) n); [done|]. rewrite length_take. split; [|lia].
  by exists (drop n l); rewrite take_drop.
Qed.
Lemma cleanControl_valid l : Forall valid_rune l → Forall valid_rune (cleanControlText l).
Proof. apply filter_Forall. Qed.
Lemma valid_32 : valid_rune 32.
Proof. unfold valid_rune. lia. Qed.
Lemma squeeze_valid l : Forall valid_rune l → Forall valid_rune (squeeze l).
Proof. apply squeeze_runes, valid_32. Qed.

(** What is stored of a text, read back. *)
Lemma compact_runes s : runes (json_text (compactContractText s)) = take 600 (squeeze (runes s)).
Proof.
  assert (Forall valid_rune (squeeze (runes s))) as Hv by apply squeeze_valid, runes_valid.
  unfold compactContractText. destruct (squeeze (runes s)) as [|c l] eqn:Hs; [done|]. rewrite <- Hs in *.
  unfold json_text. rewrite runes_of_string by apply runes_valid.
  destruct (Nat.leb_spec (length (squeeze (runes s))) 600).
  - by rewrite runes_of_string, take_ge.
  - rewrite runes_of_string; [done|]. by apply Forall_take.
Qed.

(** The line shown of a stored summary of [answer]. *)
Lemma normalized_prefix answer goal prov at_ cw :
  goal = json_text (compactContractText (trim_space answer)) →
  NormalizeCurrentWork (mkCurrentWork goal prov at_) = Ok cw →
  runes (cw_Summary cw) `prefix_of` cleanControlText (squeeze (runes answer)) ∧
  (length (runes (cw_Summary cw)) <= 240)%nat ∧ runes (cw_Summary cw) ≠ [] ∧
  Forall (λ r, r ≠ 10 ∧ r ≠ 13) (runes (cw_Summary cw)).
Proof.
  intros ->. unfold NormalizeCurrentWork. cbn [cw_Provenance cw_UpdatedAt cw_Summary].
  destruct (negb _); [done|]. destruct (IsZero _); [done|]. destruct (_ || _); [done|].
  set (stored := squeeze _). destruct (bool_decide_reflect (TrimSpace (boundText (cleanControlText stored) maxCurrentWorkRunes) = [])) as [|Hne]; [done|].
  intros [= <-]. cbn [cw_Summary].
  assert (Forall valid_rune stored) as Hv by apply squeeze_valid, runes_valid.
  destruct (boundText_prefix (cleanControlText stored) maxCurrentWorkRunes) as [Hp Hlen].
  assert (Forall valid_rune (boundText (cleanControlText stored) maxCurrentWorkRunes)) as Hvb.
  { destruct Hp as [k Hk]. apply cleanControl_valid in Hv. rewrite Hk in Hv. by apply Forall_app in Hv as [? _]. }
  rewrite runes_of_string by done. split_and!.
  - etransitivity; [exact Hp|]. apply cleanControl_prefix. unfold stored. rewrite compact_runes.
    unfold trim_space. rewrite runes_of_string.
    + rewrite <- (squeeze_TrimSpace (runes answer)). apply squeeze_take.
    + apply TrimSpace_Forall, runes_valid.
  - exact Hlen.
  - intros Heq. by rewrite Heq in Hne.
  - apply Forall_forall. intros r Hr. assert (r ∈ stored) as [->|Hsp]%squeeze_one_line; [|done|].
    + destruct Hp as [k Hk]. assert (r ∈ cleanControlText stored) as Hin by (rewrite Hk; by apply elem_of_app; left).
      by apply list_elem_of_filter in Hin as [_ ?].
    + by split; intros ->.
Qed.

Lemma current_work_of_Build scope snap st observed summary detail :
  Build scope snap (Some st) observed = Ok (summary, detail) →
  sm_CurrentWork summary = (c ← hk_TurnContract st; current_work_of c).
Proof.
  unfold Build. destruct (NewLocator _ _); [|done]. cbn [mbind result_bind].
  intros [= <- _]. done.
Qed.

(** Lower case works rune by rune. *)
Lemma ToLower_prefix a b : a `prefix_of` b → ToLower a `prefix_of` ToLower b.
Proof. intros [k ->]. unfold ToLower. rewrite fmap_app. by eexists. Qed.
Lemma cleanControl_id l : Forall (λ r, 32 ≤ r) l → cleanControlText l = l.
Proof.
  intros Hl. unfold cleanControlText. induction Hl as [|r l Hr _ IH]; [done|]. rewrite filter_cons_True, IH; [done|].
  by rewrite (proj2 (Z.leb_le 32 r)), !orb_true_r.
Qed.

(** C19: whatever hooks and updates run, whatever writes fail and however late
    the model answers, a current-work line that the view of a session shows
    was made by the summarizer: it is a non-empty single line of at most 240
    runes, a prefix of the cleaned answer to a candidate of that session
    taken from a session that is not private; that answer held no credential
    and no verbatim excerpt of the goal and the user message the candidate was
    to protect; and if it held no control characters the line repeats none of
    their words of eight or more runes, in any letter case. *)
Theorem current_work_vouched io ops scope snap st observed summary detail cw :
  daemon_run io ops →
  ReadSessionState (hook_run ops (no_hooks io)) (ses_ID snap) = Ok (Some st) →
  Build scope snap (Some st) observed = Ok (summary, detail) →
  sm_CurrentWork summary = Some cw →
  let line := runes (cw_Summary cw) in
  (length line <= 240)%nat ∧ line ≠ [] ∧ Forall (λ r, r ≠ 10 ∧ r ≠ 13) line ∧
  ∃ pre c answer, pre `prefix_of` ops ∧ taken io pre c ∧ gc_sessionID c = ses_ID snap ∧
    line `prefix_of` cleanControlText (squeeze (runes answer)) ∧
    ContainsCredentialLike (cleanControlText (squeeze (runes answer))) = false ∧
    (∀ source, source ∈ gc_forbidden c → containsVerbatimExcerpt (runes answer) (runes source) = false) ∧
    (Forall (λ r, 32 ≤ r) (squeeze (runes answer)) →
     ∀ source w, source ∈ gc_forbidden c → w ∈ Fields (comparableGoalText (runes source)) →
       (8 <= length w)%nat → runes_contain w (ToLower line) = false).
Proof.
  intros Hrun Hread Hbuild Hcw line. rewrite (current_work_of_Build _ _ _ _ _ _ Hbuild) in Hcw.
  destruct (hk_TurnContract st) as [tc|] eqn:Htc; [|done]. cbn [mbind option_bind] in Hcw.
  unfold current_work_of in Hcw. destruct (String.eqb_spec (tc_OverallGoalProvenance tc) OverallGoalSummarizerProvenance) as [Hprov|]; [|done].
  destruct (NormalizeCurrentWork _) as [cw'|] eqn:Hnorm; [|done]. injection Hcw as ->.
  destruct (contract_backed _ _ _ _ _ Hread Htc) as [Hgoal _].
  destruct (Hgoal Hprov) as (agent & goal & expected & now & (opre & opost & Hops & _) & _ & _ & Htext & _ & _).
  destruct (summary_origin io ops (ses_ID snap) agent goal expected now Hrun) as (c & answer & [(pre & Hpre & Ht) [checked Hv]] & Hid & _).
  { rewrite Hops. apply elem_of_app. right. by left. }
  destruct (validate_ok _ _ _ _ Hv) as (-> & _ & Hcred & Hexc).
  destruct (normalized_prefix answer _ _ _ _ Htext Hnorm) as (Hp & Hlen & Hne & Hone).
  split_and!; [done|done|done|]. exists pre, c, answer. split_and!; [done|done|done|exact Hp|done|done|].
  intros Hctl source w Hin Hw Hlong. destruct (runes_contain w (ToLower line)) eqn:Hc; [|done].
  rewrite (cleanControl_id _ Hctl) in Hp. apply ToLower_prefix in Hp.
  assert (runes_contain w (comparableGoalText (runes answer)) = true) as Hc' by exact (runes_contain_prefix _ _ _ Hp Hc).
  rewrite (no_long_word _ _ _ (Hexc _ Hin) Hw Hlong) in Hc'; [done|].
  intros Hnil. unfold comparableGoalText in Hnil. rewrite Hnil in Hp. apply prefix_nil_inv in Hp.
  unfold ToLower in Hp. by apply fmap_nil_inv in Hp.
Qed.

(** ** The pool *)

(** Polls and ends of running summaries, in any order. *)
Inductive pool_step : SummaryPool → SummaryPool → Prop :=
| pool_start now c p : pool_step p (startOverallGoalSummary now c p).2
| pool_release id p : id ∈ sp_active p → pool_step p (releaseOverallGoalSummary id p)
| pool_stop p : pool_step p (mkPool (sp_active p) (sp_attempts p) (sp_slots p) true).
Definition no_summaries : SummaryPool := mkPool ∅ ∅ 0 false.

Definition pool_ok (p : SummaryPool) : Prop :=
  sp_slots p = size (sp_active p) ∧ (sp_slots p <= goalSummaryGlobalLimit)%nat.

Lemma summary_release_ok id p : id ∈ sp_active p → sp_slots p = size (sp_active p) →
  sp_slots (releaseOverallGoalSummary id p) = size (sp_active (releaseOverallGoalSummary id p)).
Proof.
  intros Hin Hs. simpl. rewrite size_difference by set_solver. by rewrite size_singleton, Hs.
Qed.

Lemma pool_step_ok p p' : pool_step p p' → pool_ok p → pool_ok p'.
Proof.
  intros Hstep [Hs Hb]. destruct Hstep as [now c p|id p Hin|p]; [|split; [by apply summary_release_ok|simpl; lia]|done].
  unfold startOverallGoalSummary. case_bool_decide as Hact; [done|]. destruct (attempted_recently now c p); [done|].
  destruct (Nat.leb_spec goalSummaryGlobalLimit (sp_slots p)); [done|].
  assert (size ({[gc_sessionID c]} ∪ sp_active p) = S (size (sp_active p))) as Hsize
    by (rewrite size_union, size_singleton by set_solver; lia).
  destruct (sp_stopping p); cbn [snd]; (split; [|simpl; lia]).
  - apply summary_release_ok; [simpl; set_solver|]. simpl. by rewrite Hsize, Hs.
  - simpl. by rewrite Hsize, Hs.
Qed.

Lemma pool_bounded p : rtc pool_step no_summaries p → pool_ok p.
Proof.
  intros Hp. assert (pool_ok no_summaries) as H0 by (split; [done|simpl; lia]).
  induction Hp as [|p p1 p2 Hstep _ IH]; [done|]. apply IH. by eapply pool_step_ok.
Qed.
End Work.
