(* ===== verification/Health.v ===== *)
(** internal/health/monitor.go: the monitor that watches one session. A tick
    reads and writes the session through its lock; between two of its accesses
    the other users of the session may act. What tmux, the clock and the hook
    directory answer during a tick are its inputs. *)

From S2P Require Import Prelude GoText RuneText Session HookState.
From stdpp Require Import base gmap strings list.
From Stdlib Require Import ZArith Lia Ascii.

Open Scope Z_scope.

Definition EventStuckDetected : string := "stuck_detected".
Definition EventNudgeSent : string := "nudge_sent".
Definition EventNudgeExhausted : string := "nudge_exhausted".
Definition EventAgentExited : string := "agent_exited".
Definition EventIdleDetected : string := "idle_detected".

(** ** Times *)

Definition second_ns : Z := 1000000000.
Definition idleQuiescence (interval : Z) : Z :=
  let q := s64 (2 * interval) in if q <? 5 * second_ns then 5 * second_ns else q.
Definition hookStaleBackstop (interval : Z) : Z := s64 (3 * idleQuiescence interval).

Definition quiescentIdle (state : State) (stuckMatch : string) (workingVisible : bool)
    (sinceChange quiescence : Z) : bool :=
  if negb (bool_decide (state = StateWorking)) || negb (String.eqb stuckMatch "") || workingVisible
  then false else quiescence <=? sinceChange.

(** ** The verdict of the hooks *)

Inductive idleDecision := idleUndecided | idleConfirmed | idleWorking.
#[export] Instance idleDecision_eq_dec : EqDecision idleDecision.
Proof. solve_decision. Defined.

Definition hookIdleDecision (st : option SessionState) (workingSince : Time) : idleDecision :=
  match st with
  | None => idleUndecided
  | Some st =>
      if IsZero (hk_LastPromptSubmitAt st) || IsZero workingSince then idleUndecided
      else if negb (hk_Working st) && After (hk_LastTurnEndAt st) workingSince then idleConfirmed
      else if hk_Working st then idleWorking
      else idleUndecided
  end.

(** ** Profiles (the fields the monitor reads) *)

Record Profile := mkProfile {
  pf_WorkingIndicator : string; pf_StuckTextPatterns : list string; pf_IdleTimeout : Z;
  pf_NudgeCommand : string; pf_MaxNudgeRetries : Z; pf_HookType : string }.
Definition HookBacked (p : Profile) : bool :=
  existsb (String.eqb (pf_HookType p)) ["claude_hooks"; "codex_output"; "grok_hooks"].

(** ** The monitor *)

Record HealthEvent := mkHealthEvent {
  he_SessionID : string; he_Type : string; he_Reason : string; he_Output : string; he_Timestamp : Time }.

(** [mo_stateDir] says whether a state directory is set. *)
Record Monitor := mkMonitor { mo_interval : Z; mo_stateDir : bool }.

(** What the world answers in one tick: whether the pane exists, what it shows
    ([None] when capturing fails), the clock at the idle check, after the check
    and in the setters, whether keys can be sent, the hook directory. *)
Record TickInput := mkInput {
  in_pane : bool; in_capture : option string; in_checked : Time; in_now : Time; in_set : Time;
  in_nudge : bool; in_hooks : HookDir }.

(** The session, the tick loop's memory, the event channel, the commands sent
    to the pane, and what the other users of the session do before each of the
    next accesses. *)
Record Watch := mkWatch {
  wt_session : Session; wt_lastOutput : string; wt_lastChangeAt : Time; wt_events : Chan HealthEvent;
  wt_sent : list (string * string); wt_others : list (Session → Session) }.

(** A tick has no error. *)
Abbreviation WM := (M Watch Empty_set).

Definition access {A} (f : Session → A * Session) : WM A := λ w,
  let '(act, rest) := match wt_others w with [] => (λ s, s, []) | act :: rest => (act, rest) end in
  let '(a, s) := f (act (wt_session w)) in
  (Ok a, mkWatch s (wt_lastOutput w) (wt_lastChangeAt w) (wt_events w) (wt_sent w) rest).
Definition snapshot : WM Snapshot := access (λ s, (s, s)).
Definition update (f : Session → Session) : WM unit := access (λ s, (tt, f s)).

Definition emit (event : HealthEvent) : WM unit :=
  modify (λ w, mkWatch (wt_session w) (wt_lastOutput w) (wt_lastChangeAt w)
    (default (wt_events w) (try_send (wt_events w) event)) (wt_sent w) (wt_others w)).
Definition truncate (s : string) (maxLen : nat) : string :=
  if (String.length s <=? maxLen)%nat then s else String.substring 0 maxLen s +:+ "...".

Record CheckResult := mkResult {
  cr_Alive : bool; cr_Output : string; cr_StuckMatch : string; cr_IsIdle : bool; cr_IdleTooLong : bool }.

Section Ticks.
Context `{UnicodeTables}.

(** [strings.Contains(strings.ToLower(s), strings.ToLower(sub))] *)
Definition contains_lower (s sub : string) : bool :=
  runes_contain (ToLower (runes sub)) (ToLower (runes s)).
(** The first pattern that the output contains, or the empty string. *)
Fixpoint stuck_match (patterns : list string) (output : string) : string :=
  match patterns with
  | [] => ""
  | p :: rest => if contains_lower output p then p else stuck_match rest output
  end.

Definition Check (i : TickInput) (prof : Profile) : WM CheckResult :=
  snap ← snapshot;
  if negb (in_pane i) then mret (mkResult false "" "" false false) else
  match in_capture i with
  | None => mret (mkResult true "" "" false false)
  | Some output =>
      let stuck := stuck_match (pf_StuckTextPatterns prof) output in
      match ses_IdleSince snap with
      | None => mret (mkResult true output stuck false false)
      | Some since =>
          mret (mkResult true output stuck true
            ((0 <? pf_IdleTimeout prof) && (pf_IdleTimeout prof <? time_sub (in_checked i) since)))
      end
  end.

Definition hookDecision (m : Monitor) (d : HookDir) (snap : Snapshot) (prof : Profile) : idleDecision :=
  match ses_WorkingSince snap with
  | None => idleUndecided
  | Some since =>
      if negb (mo_stateDir m) || negb (HookBacked prof) then idleUndecided else
      match ReadSessionState d (ses_ID snap) with
      | Err _ => idleUndecided
      | Ok st => hookIdleDecision st since
      end
  end.

(** Whether the keys were sent. *)
Definition Nudge (i : TickInput) (prof : Profile) : WM bool :=
  snap ← snapshot;
  _ ← modify (λ w, mkWatch (wt_session w) (wt_lastOutput w) (wt_lastChangeAt w) (wt_events w)
        (if in_nudge i then wt_sent w ++ [(ses_TmuxTarget snap, pf_NudgeCommand prof)] else wt_sent w)
        (wt_others w));
  mret (in_nudge i).

(** Declare the session idle. *)
Definition go_idle (i : TickInput) (snap : Snapshot) (reason : string) : WM unit :=
  _ ← update (SetState StateIdle (in_set i));
  _ ← update ResetNudge;
  emit (mkHealthEvent (ses_ID snap) EventIdleDetected reason "" (in_now i)).

(** The branch of a matched stuck pattern. *)
Definition handle_stuck (i : TickInput) (prof : Profile) (result : CheckResult) (snap : Snapshot) : WM unit :=
  _ ← update (SetState StateStuck (in_set i));
  if ses_NudgeCount snap <? pf_MaxNudgeRetries prof then
    sent ← Nudge i prof;
    if negb sent then mret tt else
    _ ← update IncrementNudge;
    emit (mkHealthEvent (ses_ID snap) EventNudgeSent (cr_StuckMatch result)
            (truncate (cr_Output result) 200) (in_now i))
  else
    _ ← update (SetState StateEscalated (in_set i));
    emit (mkHealthEvent (ses_ID snap) EventNudgeExhausted (cr_StuckMatch result)
            (truncate (cr_Output result) 200) (in_now i)).

(** The last part of a tick: quiescence of the screen, and idle to working. *)
Definition infer_from_screen (m : Monitor) (i : TickInput) (prof : Profile) (result : CheckResult)
    (snap : Snapshot) (lastChangeAt : Time) : WM unit :=
  let workingVisible := negb (String.eqb (pf_WorkingIndicator prof) "") &&
                        contains_lower (cr_Output result) (pf_WorkingIndicator prof) in
  if quiescentIdle (ses_State snap) (cr_StuckMatch result) workingVisible
       (time_sub (in_now i) lastChangeAt) (idleQuiescence (mo_interval m))
  then go_idle i snap "output quiescent"
  else if bool_decide (ses_State snap = StateIdle) && negb (cr_IsIdle result) then
    _ ← update (SetState StateWorking (in_set i));
    update ResetNudge
  else mret tt.

(** The part for a working session, with the verdict of its hooks. *)
Definition decide_working (m : Monitor) (i : TickInput) (prof : Profile) (result : CheckResult)
    (snap : Snapshot) (lastChangeAt : Time) : WM unit :=
  match if bool_decide (ses_State snap = StateWorking) then hookDecision m (in_hooks i) snap prof
        else idleUndecided with
  | idleConfirmed => go_idle i snap "hook:turn_end"
  | idleWorking =>
      if hookStaleBackstop (mo_interval m) <=? time_sub (in_now i) lastChangeAt
      then go_idle i snap "output quiescent (no turn_end hook)" else mret tt
  | idleUndecided => infer_from_screen m i prof result snap lastChangeAt
  end.

Definition tick (m : Monitor) (i : TickInput) (prof : Profile) : WM unit :=
  result ← Check i prof;
  snap ← snapshot;
  _ ← modify (λ w,
        if String.eqb (wt_lastOutput w) (cr_Output result) then w
        else mkWatch (wt_session w) (cr_Output result) (in_now i) (wt_events w) (wt_sent w) (wt_others w));
  lastChangeAt ← gets wt_lastChangeAt;
  if negb (cr_Alive result) then
    _ ← update (SetState StateExited (in_set i));
    emit (mkHealthEvent (ses_ID snap) EventAgentExited "pane no longer exists" "" (in_now i))
  else if negb (String.eqb (cr_StuckMatch result) "") && bool_decide (ses_State snap = StateWorking) then
    handle_stuck i prof result snap
  else if cr_IdleTooLong result && bool_decide (ses_State snap = StateWorking) then
    _ ← update (SetState StateStuck (in_set i));
    emit (mkHealthEvent (ses_ID snap) EventStuckDetected "idle timeout exceeded" "" (in_now i))
  else decide_working m i prof result snap lastChangeAt.

(** The ticks of [Run], until its context ends. *)
Definition Run (m : Monitor) (prof : Profile) (inputs : list TickInput) : WM unit :=
  for_each (λ i, tick m i prof) inputs.
End Ticks.
