(* ===== verification/HealthFacts.v ===== *)
(** The monitor against its specification: the transitions a tick may make of
    a session, with the evidence for each, and what that says over a whole run.
    The last lemmas show what the specification does not: a tick decides on a
    snapshot, and a capture that fails wakes an idle session. *)

From S2P Require Import Prelude GoText RuneText Session HookState HookFacts Health.
From stdpp Require Import base gmap strings list.
From Stdlib Require Import ZArith Lia.

Open Scope Z_scope.

Section Facts.
Context `{UnicodeTables}.

(** ** The specification *)

(** What the log of a session's hooks says of a turn that began at [since]:
    it ended; or it goes on. *)
Definition turn_ended (log : list Event) (since : Time) : Prop :=
  IsZero since = false ∧ IsZero (last_time (events_of EventPromptSubmit log)) = false ∧
  tv_working (spec_view log) = false ∧ After (last_time (events_of EventTurnEnd log)) since = true.
Definition turn_goes_on (log : list Event) (since : Time) : Prop :=
  IsZero since = false ∧ IsZero (last_time (events_of EventPromptSubmit log)) = false ∧
  tv_working (spec_view log) = true.

Definition hook_backed (m : Monitor) (prof : Profile) : Prop := mo_stateDir m = true ∧ HookBacked prof = true.

(** The screen shows no text of a stuck agent. (A pattern that is empty hides
    the patterns after it.) *)
Definition shows_no_stuck_text (i : TickInput) (prof : Profile) : Prop :=
  ∀ output p, in_capture i = Some output → Forall (λ p, p ≠ "") (pf_StuckTextPatterns prof) →
    p ∈ pf_StuckTextPatterns prof → contains_lower output p = false.
Definition shows_working (i : TickInput) (prof : Profile) : Prop :=
  pf_WorkingIndicator prof ≠ "" ∧ contains_lower (default "" (in_capture i)) (pf_WorkingIndicator prof) = true.

(** There is no reason to do anything: the pane is there; a working session
    shows no stuck text, its hooks have not ended the turn, and while they say
    that it goes on the screen has not stood still for the backstop, and while
    they say nothing it shows that it works or has not stood still for the
    quiescence; an idle session could be captured. *)
Definition nothing_due (m : Monitor) (i : TickInput) (prof : Profile) (log : list Event) (quiet_for : Z)
    (s : Session) : Prop :=
  in_pane i = true ∧
  (ses_State s = StateWorking → shows_no_stuck_text i prof ∧ ∀ since, ses_WorkingSince s = Some since →
     ¬ (hook_backed m prof ∧ turn_ended log since) ∧
     (hook_backed m prof → turn_goes_on log since → quiet_for < hookStaleBackstop (mo_interval m)) ∧
     (¬ (hook_backed m prof ∧ (turn_ended log since ∨ turn_goes_on log since)) →
      shows_working i prof ∨ quiet_for < idleQuiescence (mo_interval m))) ∧
  (ses_State s = StateIdle → is_Some (in_capture i)).

(** The transitions of session [s] in a tick, on whose screen nothing has
    changed for [quiet_for], with the event each emits. *)
Inductive transition (m : Monitor) (i : TickInput) (prof : Profile) (log : list Event) (quiet_for : Z)
    (s : Session) : Session → option string → Prop :=
| tr_same : nothing_due m i prof log quiet_for s → transition m i prof log quiet_for s s None
| tr_exited :
    in_pane i = false →
    transition m i prof log quiet_for s (SetState StateExited (in_set i) s) (Some EventAgentExited)
| tr_nudged output p :
    in_pane i = true → in_capture i = Some output → ses_State s = StateWorking →
    p ∈ pf_StuckTextPatterns prof → contains_lower output p = true →
    ses_NudgeCount s < pf_MaxNudgeRetries prof → in_nudge i = true →
    transition m i prof log quiet_for s (IncrementNudge (SetState StateStuck (in_set i) s)) (Some EventNudgeSent)
| tr_stuck output p :
    in_pane i = true → in_capture i = Some output → ses_State s = StateWorking →
    p ∈ pf_StuckTextPatterns prof → contains_lower output p = true →
    ses_NudgeCount s < pf_MaxNudgeRetries prof → in_nudge i = false →
    transition m i prof log quiet_for s (SetState StateStuck (in_set i) s) None
| tr_escalated output p :
    in_pane i = true → in_capture i = Some output → ses_State s = StateWorking →
    p ∈ pf_StuckTextPatterns prof → contains_lower output p = true →
    pf_MaxNudgeRetries prof ≤ ses_NudgeCount s →
    transition m i prof log quiet_for s
      (SetState StateEscalated (in_set i) (SetState StateStuck (in_set i) s)) (Some EventNudgeExhausted)
| tr_turn_ended since :
    in_pane i = true → ses_State s = StateWorking → shows_no_stuck_text i prof → ses_WorkingSince s = Some since →
    hook_backed m prof → turn_ended log since →
    transition m i prof log quiet_for s (ResetNudge (SetState StateIdle (in_set i) s)) (Some EventIdleDetected)
| tr_backstop since :
    in_pane i = true → ses_State s = StateWorking → shows_no_stuck_text i prof → ses_WorkingSince s = Some since →
    hook_backed m prof → turn_goes_on log since → hookStaleBackstop (mo_interval m) ≤ quiet_for →
    transition m i prof log quiet_for s (ResetNudge (SetState StateIdle (in_set i) s)) (Some EventIdleDetected)
| tr_quiescent since :
    in_pane i = true → ses_State s = StateWorking → shows_no_stuck_text i prof → ses_WorkingSince s = Some since →
    ¬ (hook_backed m prof ∧ (turn_ended log since ∨ turn_goes_on log since)) →
    (pf_WorkingIndicator prof = "" ∨ contains_lower (default "" (in_capture i)) (pf_WorkingIndicator prof) = false) →
    idleQuiescence (mo_interval m) ≤ quiet_for →
    transition m i prof log quiet_for s (ResetNudge (SetState StateIdle (in_set i) s)) (Some EventIdleDetected)
| tr_capture_failed :
    in_pane i = true → in_capture i = None → ses_State s = StateIdle →
    transition m i prof log quiet_for s (ResetNudge (SetState StateWorking (in_set i) s)) None.

Lemma transition_ok m i prof log q s s' ev :
  transition m i prof log q s s' ev → session_ok s → session_ok s'.
Proof. destruct 1; intros Hok; first [done|apply SetState_ok]. Qed.

(** ** Programs that nobody interferes with *)

Definition alone (w : Watch) : Prop := wt_others w = [].

(** The run of [c] from [w] ends in a state satisfying [Q], still alone. *)
Definition runs {A} (c : WM A) (w : Watch) (Q : A → Watch → Prop) : Prop :=
  match c w with
  | (Ok a, w') => Q a w' ∧ alone w'
  | (Err e, _) => False
  end.

Lemma runs_ret {A} (a : A) w (Q : A → Watch → Prop) : alone w → Q a w → runs (mret a) w Q.
Proof. by intros. Qed.
Lemma runs_bind {A B} (c : WM A) (f : A → WM B) w Q :
  runs c w (λ a w', alone w' → runs (f a) w' Q) → runs (c ≫= f) w Q.
Proof.
  unfold runs, mbind, M_bind. destruct (c w) as [[a|e] w']; [|done]. intros [Hf Ha]. exact (Hf Ha).
Qed.
Lemma runs_mono {A} (c : WM A) w (Q Q' : A → Watch → Prop) :
  runs c w Q → (∀ a w', Q a w' → Q' a w') → runs c w Q'.
Proof. unfold runs. destruct (c w) as [[a|e] w']; [|done]. intros [? ?] HQ. split; auto. Qed.

Definition with_session (s : Session) (w : Watch) : Watch :=
  mkWatch s (wt_lastOutput w) (wt_lastChangeAt w) (wt_events w) (wt_sent w) (wt_others w).

Lemma runs_snapshot w (Q : Snapshot → Watch → Prop) : alone w → Q (wt_session w) w → runs snapshot w Q.
Proof. unfold runs, snapshot, access, alone. destruct w as [s ? ? ? ? o]. simpl. by intros ->. Qed.
Lemma runs_update f w (Q : unit → Watch → Prop) :
  alone w → Q tt (with_session (f (wt_session w)) w) → runs (update f) w Q.
Proof. unfold runs, update, access, alone. destruct w as [s ? ? ? ? o]. simpl. by intros ->. Qed.
Lemma runs_modify f w (Q : unit → Watch → Prop) :
  alone (f w) → Q tt (f w) → runs (modify f) w Q.
Proof. by intros. Qed.
Lemma runs_gets {A} (f : Watch → A) w (Q : A → Watch → Prop) : alone w → Q (f w) w → runs (gets f) w Q.
Proof. by intros. Qed.

(** The channel after an emission, and only it. *)
Definition emitted (id ty : string) (at_ : Time) (ch ch' : Chan HealthEvent) : Prop :=
  ∃ e, he_SessionID e = id ∧ he_Type e = ty ∧ he_Timestamp e = at_ ∧ ch' = default ch (try_send ch e).
Lemma runs_emit e w (Q : unit → Watch → Prop) :
  alone w →
  (∀ w', wt_session w' = wt_session w → wt_lastOutput w' = wt_lastOutput w →
     wt_lastChangeAt w' = wt_lastChangeAt w → wt_sent w' = wt_sent w →
     emitted (he_SessionID e) (he_Type e) (he_Timestamp e) (wt_events w) (wt_events w') → Q tt w') →
  runs (emit e) w Q.
Proof.
  intros Ha HQ. apply runs_modify; [exact Ha|]. apply HQ; try done. by exists e.
Qed.

(** What a tick leaves. *)
Definition outcome (m : Monitor) (i : TickInput) (prof : Profile) (log : list Event) (w w' : Watch) : Prop :=
  let seen := if in_pane i then default "" (in_capture i) else "" in
  let changed := if String.eqb (wt_lastOutput w) seen then wt_lastChangeAt w else in_now i in
  wt_lastOutput w' = seen ∧ wt_lastChangeAt w' = changed ∧
  ∃ ev, transition m i prof log (time_sub (in_now i) changed) (wt_session w) (wt_session w') ev ∧
    match ev with
    | None => wt_events w' = wt_events w
    | Some ty => emitted (ses_ID (wt_session w)) ty (in_now i) (wt_events w) (wt_events w')
    end.

(** ** The verdict of the hooks *)

Lemma hookDecision_log m io ops snap prof :
  sessionIDRe (ses_ID snap) = true →
  let log := hook_log (ses_ID snap) ops (no_hooks io) [] in
  let d := hook_run ops (no_hooks io) in
  match ses_WorkingSince snap with
  | None => hookDecision m d snap prof = idleUndecided
  | Some since =>
      match hookDecision m d snap prof with
      | idleConfirmed => hook_backed m prof ∧ turn_ended log since
      | idleWorking => hook_backed m prof ∧ turn_goes_on log since
      | idleUndecided => ¬ (hook_backed m prof ∧ (turn_ended log since ∨ turn_goes_on log since))
      end
  end.
Proof.
  intros Hid log d. unfold hookDecision, hook_backed. destruct (ses_WorkingSince snap) as [since|]; [|done].
  destruct (mo_stateDir m); [|cbn; by intros [[? _] _]]. destruct (HookBacked prof); [|cbn; by intros [[_ ?] _]].
  cbn [negb orb]. pose proof (hook_state_refines_log io ops (ses_ID snap) Hid) as Hlog. cbv zeta in Hlog.
  fold log d in Hlog. destruct (ReadSessionState d (ses_ID snap)) as [[st|]|]; [| |done].
  - unfold hookIdleDecision, turn_ended, turn_goes_on.
    change (hk_LastPromptSubmitAt st) with (tv_prompt (view_of st)).
    change (hk_LastTurnEndAt st) with (tv_end (view_of st)). change (hk_Working st) with (tv_working (view_of st)).
    rewrite Hlog. cbn [spec_view tv_prompt tv_end]. destruct (IsZero (last_time (events_of EventPromptSubmit log))).
    { cbn. intros [_ [(_ & ? & _)|(_ & ? & _)]]; done. }
    destruct (IsZero since); [cbn; intros [_ [(? & _)|(? & _)]]; done|]. cbn [orb].
    destruct (tv_working (spec_view log)); cbn [negb andb]; [done|].
    destruct (After _ since); [done|]. intros [_ [(_ & _ & _ & ?)|(_ & _ & ?)]]; done.
  - rewrite Hlog. cbn. intros [_ [(_ & ? & _)|(_ & ? & _)]]; done.
Qed.

(** ** The parts of a tick *)

Section Parts.
Context (m : Monitor) (i : TickInput) (prof : Profile) (log : list Event).

Lemma stuck_match_spec output :
  stuck_match (pf_StuckTextPatterns prof) output = "" ∨
  stuck_match (pf_StuckTextPatterns prof) output ∈ pf_StuckTextPatterns prof ∧
  contains_lower output (stuck_match (pf_StuckTextPatterns prof) output) = true.
Proof.
  generalize (pf_StuckTextPatterns prof). intros l. induction l as [|p l IH]; [by left|]. cbn [stuck_match].
  destruct (contains_lower output p) eqn:Hp; [right; split; [by left|done]|].
  destruct IH as [?|[? ?]]; [by left|right; split; [by right|done]].
Qed.

(** A part of a tick: it leaves the memory alone and makes a transition. *)
Definition part (c : WM unit) (w : Watch) : Prop :=
  runs c w (λ _ w', wt_lastOutput w' = wt_lastOutput w ∧ wt_lastChangeAt w' = wt_lastChangeAt w ∧
    ∃ ev, transition m i prof log (time_sub (in_now i) (wt_lastChangeAt w)) (wt_session w) (wt_session w') ev ∧
      match ev with
      | None => wt_events w' = wt_events w
      | Some ty => emitted (ses_ID (wt_session w)) ty (in_now i) (wt_events w) (wt_events w')
      end).

Lemma stuck_match_none output p :
  stuck_match (pf_StuckTextPatterns prof) output = "" → Forall (λ p, p ≠ "") (pf_StuckTextPatterns prof) →
  p ∈ pf_StuckTextPatterns prof → contains_lower output p = false.
Proof.
  generalize (pf_StuckTextPatterns prof). intros l. induction l as [|q l IH]; [by intros _ _ ?%elem_of_nil|].
  cbn [stuck_match]. intros Hm [Hq Hl]%Forall_cons Hp. destruct (contains_lower output q) eqn:Hc; [done|].
  apply elem_of_cons in Hp as [->|Hp]; auto.
Qed.

Lemma part_same w :
  alone w → nothing_due m i prof log (time_sub (in_now i) (wt_lastChangeAt w)) (wt_session w) → part (mret tt) w.
Proof. intros Ha Hn. apply runs_ret; [done|]. split_and!; [done|done|]. exists None. split; [by constructor|done]. Qed.

Lemma part_go_idle w reason :
  alone w →
  transition m i prof log (time_sub (in_now i) (wt_lastChangeAt w)) (wt_session w)
    (ResetNudge (SetState StateIdle (in_set i) (wt_session w))) (Some EventIdleDetected) →
  part (go_idle i (wt_session w) reason) w.
Proof.
  intros Ha Ht. unfold part, go_idle. apply runs_bind, runs_update; [done|]. intros _.
  apply runs_bind, runs_update; [done|]. intros _. apply runs_emit; [done|].
  intros w' Hs Ho Hl _ He. split_and!; [done|done|]. exists (Some EventIdleDetected). by rewrite Hs.
Qed.

Lemma part_exit w :
  alone w → in_pane i = false →
  part (_ ← update (SetState StateExited (in_set i));
        emit (mkHealthEvent (ses_ID (wt_session w)) EventAgentExited "pane no longer exists" "" (in_now i))) w.
Proof.
  intros Ha Hp. apply runs_bind, runs_update; [done|]. intros _. apply runs_emit; [done|].
  intros w' Hs Ho Hl _ He. split_and!; [done|done|]. exists (Some EventAgentExited). rewrite Hs. split; [by constructor|done].
Qed.

Lemma part_stuck w output result :
  alone w → in_pane i = true → in_capture i = Some output →
  cr_StuckMatch result = stuck_match (pf_StuckTextPatterns prof) output → cr_StuckMatch result ≠ "" →
  ses_State (wt_session w) = StateWorking →
  part (handle_stuck i prof result (wt_session w)) w.
Proof.
  intros Ha Hp Hc Hm Hne Hst. destruct (stuck_match_spec output) as [He|[Hin Hcon]]; [congruence|].
  rewrite <- Hm in Hin, Hcon. unfold part, handle_stuck. apply runs_bind, runs_update; [done|]. intros _.
  destruct (Z.ltb_spec (ses_NudgeCount (wt_session w)) (pf_MaxNudgeRetries prof)) as [Hlt|Hge].
  - unfold Nudge. apply runs_bind, runs_bind, runs_snapshot; [done|]. intros _.
    apply runs_bind, runs_modify; [done|]. intros _. apply runs_ret; [done|]. intros _.
    destruct (in_nudge i) eqn:Hn; cbn [negb].
    + apply runs_bind, runs_update; [done|]. intros _. apply runs_emit; [done|].
      intros w' Hs Ho Hl _ He. split_and!; [done|done|]. exists (Some EventNudgeSent). rewrite Hs.
      split; [by eapply tr_nudged|done].
    + apply runs_ret; [done|]. split_and!; [done|done|]. exists None. split; [by eapply tr_stuck|done].
  - apply runs_bind, runs_update; [done|]. intros _. apply runs_emit; [done|].
    intros w' Hs Ho Hl _ He. split_and!; [done|done|]. exists (Some EventNudgeExhausted). rewrite Hs.
    split; [by eapply tr_escalated|done].
Qed.

Lemma working_since s : session_ok s → ses_State s = StateWorking → ∃ since, ses_WorkingSince s = Some since.
Proof. intros [_ Hw] Hs. by apply Hw in Hs. Qed.

Lemma part_screen w result :
  alone w → in_pane i = true → session_ok (wt_session w) →
  cr_Output result = default "" (in_capture i) →
  (in_capture i = None ∧ cr_IsIdle result = false ∨
   is_Some (in_capture i) ∧ cr_IsIdle result = bool_decide (is_Some (ses_IdleSince (wt_session w)))) →
  (ses_State (wt_session w) = StateWorking → cr_StuckMatch result = "" ∧ shows_no_stuck_text i prof) →
  (∀ since, ses_State (wt_session w) = StateWorking → ses_WorkingSince (wt_session w) = Some since →
     ¬ (hook_backed m prof ∧ (turn_ended log since ∨ turn_goes_on log since))) →
  part (infer_from_screen m i prof result (wt_session w) (wt_lastChangeAt w)) w.
Proof.
  intros Ha Hp Hok Hout Hidle Hstuck Hund. unfold infer_from_screen. destruct (quiescentIdle _ _ _ _ _) eqn:Hq.
  - apply part_go_idle; [done|]. unfold quiescentIdle in Hq. destruct (_ || _) eqn:Hor; [done|].
    rewrite !orb_false_iff, negb_false_iff, bool_decide_eq_true in Hor. destruct Hor as [[Hst _] Hvis].
    destruct (working_since _ Hok Hst) as [since Hsince]. eapply tr_quiescent; [done|done|by apply Hstuck|done|by apply Hund| |by apply Z.leb_le].
    apply andb_false_iff in Hvis as [Hv|Hv]; [left|right; by rewrite <- Hout].
    by apply negb_false_iff, String.eqb_eq in Hv.
  - destruct (bool_decide _ && _) eqn:Hb.
    2: { apply part_same; [done|]. split; [done|]. split.
         - intros Hst. destruct (Hstuck Hst) as [Hm Hno]. split; [done|]. intros since Hsince.
           pose proof (Hund since Hst Hsince) as Hu. split_and!; [naive_solver..|].
           intros _. unfold quiescentIdle in Hq. rewrite Hm, bool_decide_true in Hq by done. cbn in Hq.
           destruct (_ && _) eqn:Hvis; [left|right; by apply Z.leb_gt].
           rewrite andb_true_iff, negb_true_iff, String.eqb_neq, Hout in Hvis. exact Hvis.
         - intros Hst. rewrite bool_decide_true in Hb by done. apply negb_false_iff in Hb.
           destruct Hidle as [[_ ?]|[? _]]; [congruence|done]. }
    rewrite andb_true_iff, bool_decide_eq_true, negb_true_iff in Hb. destruct Hb as [Hst Hnot].
    apply runs_bind, runs_update; [done|]. intros _. apply runs_update; [done|].
    split_and!; [done|done|]. exists None. split; [|done]. apply tr_capture_failed; [done| |done].
    destruct Hidle as [[? _]|[_ Hidle]]; [done|]. rewrite Hidle in Hnot. apply bool_decide_eq_false in Hnot.
    destruct Hnot. by apply Hok.
Qed.
End Parts.

(** ** The whole tick *)

Lemma runs_Check i prof w :
  alone w →
  runs (Check i prof) w (λ r w', w' = w ∧ cr_Alive r = in_pane i ∧
    cr_Output r = (if in_pane i then default "" (in_capture i) else "") ∧
    (in_pane i = true → cr_StuckMatch r =
       match in_capture i with Some output => stuck_match (pf_StuckTextPatterns prof) output | None => "" end) ∧
    (in_pane i = false ∨ in_capture i = None ∧ cr_IsIdle r = false ∨
     is_Some (in_capture i) ∧ cr_IsIdle r = bool_decide (is_Some (ses_IdleSince (wt_session w)))) ∧
    (cr_IdleTooLong r = true → is_Some (ses_IdleSince (wt_session w)))).
Proof.
  intros Ha. unfold Check. apply runs_bind, runs_snapshot; [done|]. intros _.
  destruct (in_pane i); cbn [negb]; [|apply runs_ret; [done|]; by split_and!; auto].
  destruct (in_capture i) as [output|]; [|apply runs_ret; [done|]; by split_and!; auto].
  destruct (ses_IdleSince (wt_session w)) as [since|] eqn:Hi; (apply runs_ret; [done|]);
    (split_and!; [done|done|done|done|right; right|]); try done; by split.
Qed.

(** A live session is idle, stuck, undecided or follows its hooks. *)
Lemma part_decide m i prof r w io ops :
  alone w → session_ok (wt_session w) → sessionIDRe (ses_ID (wt_session w)) = true →
  in_hooks i = hook_run ops (no_hooks io) → in_pane i = true → cr_Output r = default "" (in_capture i) →
  (in_capture i = None ∧ cr_IsIdle r = false ∨
   is_Some (in_capture i) ∧ cr_IsIdle r = bool_decide (is_Some (ses_IdleSince (wt_session w)))) →
  (ses_State (wt_session w) = StateWorking → cr_StuckMatch r = "" ∧ shows_no_stuck_text i prof) →
  part m i prof (hook_log (ses_ID (wt_session w)) ops (no_hooks io) [])
    (decide_working m i prof r (wt_session w) (wt_lastChangeAt w)) w.
Proof.
  intros Ha Hok Hid Hhooks Hp Hout Hidle Hstuck. pose proof (hookDecision_log m io ops (wt_session w) prof Hid) as Hdec.
  cbv zeta in Hdec. rewrite <- Hhooks in Hdec. unfold decide_working.
  destruct (bool_decide_reflect (ses_State (wt_session w) = StateWorking)) as [Hst|Hst]; [|by apply part_screen].
  destruct (working_since _ Hok Hst) as [since Hsince]. rewrite Hsince in Hdec.
  revert Hdec. destruct (hookDecision m (in_hooks i) (wt_session w) prof); intros Hdec.
  - apply part_screen; [done..|]. intros since' _ Hs. rewrite Hsince in Hs.
    injection Hs as <-. exact Hdec.
  - apply part_go_idle; [done|]. destruct Hdec as [Hb3 Hlog]. apply (tr_turn_ended _ _ _ _ _ _ since); try done. by apply Hstuck.
  - destruct (Z.leb_spec (hookStaleBackstop (mo_interval m)) (time_sub (in_now i) (wt_lastChangeAt w))).
    2: { apply part_same; [done|]. destruct Hdec as [Hb3 Hlog]. split; [done|]. split; [|congruence].
         intros _. split; [by apply Hstuck|]. intros since' Hs. rewrite Hsince in Hs. injection Hs as <-.
         split_and!; [|done|naive_solver]. intros [_ (_ & _ & Hw & _)]. destruct Hlog as (_ & _ & Hw'). congruence. }
    apply part_go_idle; [done|]. destruct Hdec as [Hb3 Hlog]. apply (tr_backstop _ _ _ _ _ _ since); try done. by apply Hstuck.
Qed.

(** What a tick remembers of the screen before it decides. *)
Definition noticed (i : TickInput) (output : string) (w : Watch) : Watch :=
  if String.eqb (wt_lastOutput w) output then w
  else mkWatch (wt_session w) output (in_now i) (wt_events w) (wt_sent w) (wt_others w).
Lemma noticed_spec i output w :
  wt_session (noticed i output w) = wt_session w ∧ wt_events (noticed i output w) = wt_events w ∧
  wt_others (noticed i output w) = wt_others w ∧ wt_lastOutput (noticed i output w) = output ∧
  wt_lastChangeAt (noticed i output w) = (if String.eqb (wt_lastOutput w) output then wt_lastChangeAt w else in_now i).
Proof. unfold noticed. by destruct (String.eqb_spec (wt_lastOutput w) output). Qed.

Lemma tick_outcome m i prof w io ops :
  alone w → session_ok (wt_session w) → sessionIDRe (ses_ID (wt_session w)) = true →
  in_hooks i = hook_run ops (no_hooks io) →
  runs (tick m i prof) w (λ _ w', outcome m i prof (hook_log (ses_ID (wt_session w)) ops (no_hooks io) []) w w').
Proof.
  intros Ha Hok Hid Hhooks. unfold tick. apply runs_bind. eapply runs_mono; [by apply runs_Check|].
  intros r w0 (-> & Halive & Hout & Hstuck & Hidle & Htoo) _.
  pose proof (noticed_spec i (cr_Output r) w) as (Hs1 & He1 & Ho1 & Hl1 & Hc1).
  apply runs_bind, runs_snapshot; [done|]. intros _.
  apply runs_bind, runs_modify; fold (noticed i (cr_Output r) w); [unfold alone; by rewrite Ho1|]. intros Ha1.
  apply runs_bind, runs_gets; [done|]. intros _. set (w1 := noticed _ _ _) in *. rewrite <- Hs1 in *.
  set (log := hook_log _ _ _ _). apply (runs_mono _ _ (λ _ w', wt_lastOutput w' = wt_lastOutput w1 ∧
    wt_lastChangeAt w' = wt_lastChangeAt w1 ∧ ∃ ev,
    transition m i prof log (time_sub (in_now i) (wt_lastChangeAt w1)) (wt_session w1) (wt_session w') ev ∧
    match ev with
    | None => wt_events w' = wt_events w1
    | Some ty => emitted (ses_ID (wt_session w1)) ty (in_now i) (wt_events w1) (wt_events w')
    end)).
  2: { intros _ w' (Ho & Hl & ev & Ht & Hev). unfold outcome. rewrite Ho, Hl, <- Hout, <- Hc1, <- Hs1, <- He1, Hl1.
       split_and!; [done|done|by exists ev]. }
  match goal with |- runs ?c _ _ => change (part m i prof log c w1) end.
  rewrite Halive. destruct (in_pane i) eqn:Hp; cbn [negb]; [|by apply part_exit].
  destruct (negb (String.eqb (cr_StuckMatch r) "") && _) eqn:Hb.
  { rewrite andb_true_iff, negb_true_iff, String.eqb_neq, bool_decide_eq_true in Hb. destruct Hb as [Hne Hst].
    specialize (Hstuck eq_refl). destruct (in_capture i) as [output|] eqn:Hc; [|done]. by eapply part_stuck. }
  destruct (cr_IdleTooLong r && _) eqn:Hb2.
  { rewrite andb_true_iff, bool_decide_eq_true in Hb2. destruct Hb2 as [Hlong Hst].
    specialize (Htoo Hlong). apply Hok in Htoo. congruence. }
  destruct Hidle as [?|Hidle]; [done|]. apply part_decide; try done. intros Hst.
  rewrite (bool_decide_true _ Hst), andb_true_r in Hb. apply negb_false_iff, String.eqb_eq in Hb.
  split; [exact Hb|]. intros output p Hc. rewrite (Hstuck eq_refl), Hc in Hb. by apply stuck_match_none.
Qed.

(** C17: refinement: a tick of the monitor on a session nobody else touches
    meanwhile makes one of the transitions of the specification, on its
    evidence, and emits that transition's event if the channel has room; it
    does nothing only when there is no evidence to act on; it
    keeps the marks of the session consistent and remembers what it saw and
    since when. In particular a session whose pane is gone is declared exited, a
    working session that shows a stuck text is nudged or escalated, a working
    session goes idle exactly when (it shows no stuck text and) its hooks
    recorded the end of this turn, or its screen stood still long enough, and
    a stuck session is nudged at most as often as its profile allows. There is
    no transition for the idle timeout: the code never reaches it. *)
Theorem tick_refines m i prof w io ops :
  alone w → session_ok (wt_session w) → sessionIDRe (ses_ID (wt_session w)) = true →
  in_hooks i = hook_run ops (no_hooks io) →
  runs (tick m i prof) w
    (λ _ w', session_ok (wt_session w') ∧
       outcome m i prof (hook_log (ses_ID (wt_session w)) ops (no_hooks io) []) w w').
Proof.
  intros Ha Hok Hid Hhooks. eapply runs_mono; [by apply tick_outcome|].
  intros [] w' Ho. split; [|exact Ho]. destruct Ho as (_ & _ & ev & Ht & _). by eapply transition_ok.
Qed.

(** ** A whole run *)

(** The nudges of a session stay below what the profile allows. *)
Definition nudges_ok (prof : Profile) (s : Session) : Prop :=
  0 ≤ ses_NudgeCount s ≤ Z.max 0 (pf_MaxNudgeRetries prof).

Lemma transition_nudges m i prof log q s s' ev :
  pf_MaxNudgeRetries prof ≤ max_duration →
  transition m i prof log q s s' ev → nudges_ok prof s → nudges_ok prof s' ∧ ses_ID s' = ses_ID s.
Proof.
  unfold nudges_ok, max_duration. intros Hmax. destruct 1; intros Hn; (split; [|done]); cbn [ses_NudgeCount SetState ResetNudge IncrementNudge set_nudges] in *; try lia.
  rewrite s64_id; lia.
Qed.

(** However many ticks run, the session stays consistent and is never nudged
    more often than allowed, and no tick ever reports [stuck_detected]. *)
Lemma Run_keeps m prof inputs w :
  alone w → session_ok (wt_session w) → sessionIDRe (ses_ID (wt_session w)) = true →
  pf_MaxNudgeRetries prof ≤ max_duration → nudges_ok prof (wt_session w) →
  Forall (λ i, ∃ io ops, in_hooks i = hook_run ops (no_hooks io)) inputs →
  Forall (λ e, he_Type e ≠ EventStuckDetected) (ch_buf (wt_events w)) →
  runs (Run m prof inputs) w (λ _ w', session_ok (wt_session w') ∧ nudges_ok prof (wt_session w') ∧
    Forall (λ e, he_Type e ≠ EventStuckDetected) (ch_buf (wt_events w'))).
Proof.
  intros Ha Hok Hid Hmax Hn Hin. revert w Ha Hok Hid Hn. induction Hin as [|i inputs (io & ops & Hi) _ IH];
    intros w Ha Hok Hid Hn Hev; [by apply runs_ret|].
  unfold Run. cbn [for_each]. apply runs_bind. eapply runs_mono; [by apply (tick_outcome m i prof w io ops)|].
  intros [] w1 (_ & _ & ev & Ht & Hch) Ha1. pose proof (transition_ok _ _ _ _ _ _ _ _ Ht Hok) as Hok1.
  destruct (transition_nudges _ _ _ _ _ _ _ _ Hmax Ht Hn) as [Hn1 Hid1].
  apply IH; [done|done|by rewrite Hid1|done|].
  destruct ev as [ty|]; [|by rewrite Hch]. destruct Hch as (e & _ & Hty & _ & ->).
  destruct (try_send (wt_events w) e) as [ch|] eqn:Hsend; [|done]. apply try_send_Some in Hsend as [_ ->].
  cbn [default ch_buf]. apply Forall_app. split; [done|]. repeat constructor. rewrite Hty. by inversion Ht.
Qed.
End Facts.
