(* ===== verification/Delivery.v ===== *)
(** internal/delivery with the runtime of daemon/prompt_delivery.go and the
    blockers of daemon/handshake.go: judging from the screen, the hooks or the
    Typesafe service whether an agent has taken a prompt in, and the loop that
    submits it again until it has. What the screen shows and the services
    answer in each round of the loop is its input. *)

From S2P Require Import Prelude GoText RuneText HookState.
From stdpp Require Import base gmap strings list.
From Stdlib Require Import ZArith QArith Lia Ascii.

Open Scope Z_scope.

(** ** Probabilities *)

(** A finite [float64] is the rational it denotes; literals are the nearest
    doubles. They are only compared. *)
Abbreviation float64 := Q.
Definition at_least_f (x c : float64) : bool := Qle_bool c x.
Definition less_f (x c : float64) : bool := negb (Qle_bool c x).

Definition f002 : float64 := 5764607523034235 # 288230376151711744.
Definition f005 : float64 := 3602879701896397 # 72057594037927936.
Definition f010 : float64 := 3602879701896397 # 36028797018963968.
Definition f018 : float64 := 3242591731706757 # 18014398509481984.
Definition f035 : float64 := 3152519739159347 # 9007199254740992.
Definition f040 : float64 := 3602879701896397 # 9007199254740992.
Definition f050 : float64 := 1 # 2.
Definition f062 : float64 := 5584463537939415 # 9007199254740992.
Definition f070 : float64 := 3152519739159347 # 4503599627370496.
Definition f073 : float64 := 1643813863990231 # 2251799813685248.
Definition f074 : float64 := 3332663724254167 # 4503599627370496.
Definition f075 : float64 := 3 # 4.
Definition f080 : float64 := 3602879701896397 # 4503599627370496.
Definition f084 : float64 := 7566047373982433 # 9007199254740992.
Definition f088 : float64 := 7926335344172073 # 9007199254740992.
Definition f090 : float64 := 8106479329266893 # 9007199254740992.
Definition f091 : float64 := 8196551321814303 # 9007199254740992.
Definition f093 : float64 := 8376695306909123 # 9007199254740992.
Definition f095 : float64 := 4278419646001971 # 4503599627370496.
Definition f096 : float64 := 1080863910568919 # 1125899906842624.
Definition f097 : float64 := 4368491638549381 # 4503599627370496.

(** ** Evidence and assessments *)

Definition StateIngested : string := "ingested".
Definition StatePendingSubmit : string := "pending_submit".
Definition StateBlocked : string := "blocked".
Definition StateUnclear : string := "unclear".

Record Evidence := mkEvidence {
  ev_Agent : string; ev_Prompt : string; ev_BeforeOutput : string; ev_AfterOutput : string;
  ev_WorkingIndicator : string; ev_Attempt : Z; ev_LocalOnly : bool; ev_SessionID : string;
  ev_DeliveryStartedAt : Time }.
Record Assessment := mkAssessment {
  as_State : string; as_Confidence : float64; as_WorkStarted : float64; as_EnterHelpful : float64;
  as_Source : string; as_Model : string }.

Section Delivery.
Context `{UnicodeTables}.

(** ** The screen *)

Definition normalizeScreen (s : string) : list Z := squeeze (ToLower (runes s)).
Definition containsFold (s substr : string) : bool :=
  runes_contain (ToLower (runes substr)) (ToLower (runes s)).

Definition cut_bytes (n : nat) (s : string) : string :=
  if (n <? String.length s)%nat then String.substring 0 n s else s.

(** The loop over the lines; [seen] and [fragments] in the order found. *)
Fixpoint fragments_from (lines : list string) (seen : list (list Z)) (fragments : list string) : list string :=
  match lines with
  | [] => fragments
  | line :: rest =>
      let line := trim_space line in
      if (String.length line <? 18)%nat then fragments_from rest seen fragments else
      let line := cut_bytes 120 line in
      let key := normalizeScreen line in
      if bool_decide (key = []) || bool_decide (key ∈ seen) then fragments_from rest seen fragments else
      let fragments := fragments ++ [line] in
      if (length fragments =? 3)%nat then fragments else fragments_from rest (key :: seen) fragments
  end.
Definition promptFragments (prompt : string) : list string :=
  match fragments_from (split_on line_feed prompt) [] [] with
  | [] =>
      let trimmed := cut_bytes 120 (trim_space prompt) in
      if (18 <=? String.length trimmed)%nat then [trimmed] else []
  | fragments => fragments
  end.

Definition promptOccurrenceCount (output prompt : string) : nat :=
  let normalizedOutput := normalizeScreen output in
  foldl (λ count fragment, Nat.max count (runes_count (normalizeScreen fragment) normalizedOutput))
    0%nat (promptFragments prompt).
Definition containsPromptFragment (output prompt : string) : bool :=
  (0 <? promptOccurrenceCount output prompt)%nat.

Definition is_composer (line : string) : bool := bool_decide (TrimSpace (runes line) = [8250]).
(** [before] is the output up to the start of the current line. *)
Fixpoint fresh_composer (prompt : string) (total : nat) (before : string) (lines : list string) : bool :=
  match lines with
  | [] => false
  | line :: rest =>
      if is_composer line && (promptOccurrenceCount before prompt =? total)%nat then true
      else fresh_composer prompt total (before +:+ line +:+ String line_feed "") rest
  end.
Definition containsFreshComposerAfterLatestPrompt (output prompt : string) (totalPromptCount : nat) : bool :=
  fresh_composer prompt totalPromptCount "" (split_on line_feed output).
Definition containsStandaloneComposerMarker (text : string) : bool :=
  existsb is_composer (split_on line_feed text).

Definition blockers : list string := ["do you trust"; "press enter to continue"; "resume"].
Definition containsBlockerOutsidePrompt (output : list Z) (prompt : string) (promptOccurrences : nat) : bool :=
  let normalizedPrompt := normalizeScreen prompt in
  existsb (λ b, (runes_count (runes b) normalizedPrompt * promptOccurrences <? runes_count (runes b) output)%nat)
    blockers.

(** ** The judges *)

Definition heuristic (state : string) (confidence work enter : float64) : Assessment :=
  mkAssessment state confidence work enter "heuristic" "".

Definition HeuristicJudge_Assess (e : Evidence) : Assessment :=
  let output := normalizeScreen (ev_AfterOutput e) in
  let before := promptOccurrenceCount (ev_BeforeOutput e) (ev_Prompt e) in
  let after := promptOccurrenceCount (ev_AfterOutput e) (ev_Prompt e) in
  let promptRetained := negb (containsStandaloneComposerMarker (ev_Prompt e)) && (before <? after)%nat &&
                        containsFreshComposerAfterLatestPrompt (ev_AfterOutput e) (ev_Prompt e) after in
  if promptRetained then heuristic StateIngested f095 f097 f002
  else if containsBlockerOutsidePrompt output (ev_Prompt e) after then heuristic StateBlocked f093 0%Q f095
  else if negb (String.eqb (ev_WorkingIndicator e) "") &&
          runes_contain (ToLower (runes (ev_WorkingIndicator e))) (ToLower output)
  then heuristic StateIngested f090 f096 f005
  else if (0 <? after)%nat then heuristic StatePendingSubmit f084 f018 f091
  else if negb (bool_decide (normalizeScreen (ev_BeforeOutput e) = output))
  then heuristic StateIngested f074 f073 f010
  else heuristic StateUnclear f040 f035 f062.

(** The Typesafe service: what is sent to it, and what comes back. *)
Record Document := mkDocument {
  dc_agent : string; dc_requested_prompt : string; dc_screen_before_send : string;
  dc_screen_after_send : string; dc_working_indicator : string; dc_attempt : Z }.
Record Response := mkResponse {
  rp_Key : string; rp_Chosen : string; rp_Confidence : float64; rp_Probability : float64 }.
Record EvaluationResponse := mkEvaluation { er_Model : string; er_Responses : list Response }.

(** The last 4000 bytes. *)
Definition trimForDecision (s : string) : string :=
  let n := String.length s in
  if (n <=? 4000)%nat then s else String.substring (n - 4000) 4000 s.

Definition set_state (state : string) (a : Assessment) : Assessment :=
  mkAssessment state (as_Confidence a) (as_WorkStarted a) (as_EnterHelpful a) (as_Source a) (as_Model a).
Definition set_confidence (c : float64) (a : Assessment) : Assessment :=
  mkAssessment (as_State a) c (as_WorkStarted a) (as_EnterHelpful a) (as_Source a) (as_Model a).
(** Raise the confidence to [p]. *)
Definition raise_confidence (p : float64) (a : Assessment) : Assessment :=
  if less_f (as_Confidence a) p then set_confidence p a else a.

Definition read_response (a : Assessment) (r : Response) : Assessment :=
  if String.eqb (rp_Key r) "delivery_state" then set_confidence (rp_Confidence r) (set_state (rp_Chosen r) a)
  else if String.eqb (rp_Key r) "enter_helpful"
  then mkAssessment (as_State a) (as_Confidence a) (as_WorkStarted a) (rp_Probability r) (as_Source a) (as_Model a)
  else if String.eqb (rp_Key r) "work_started"
  then mkAssessment (as_State a) (as_Confidence a) (rp_Probability r) (as_EnterHelpful a) (as_Source a) (as_Model a)
  else if String.eqb (rp_Key r) "prompt_pending_input"
  then if String.eqb (as_State a) StateUnclear && at_least_f (rp_Probability r) f080
       then raise_confidence (rp_Probability r) (set_state StatePendingSubmit a) else a
  else a.
Definition read_evaluation (resp : EvaluationResponse) : Assessment :=
  let a := foldl read_response (mkAssessment StateUnclear 0%Q 0%Q 0%Q "typesafe" (er_Model resp)) (er_Responses resp) in
  if String.eqb (as_State a) StateUnclear && at_least_f (as_WorkStarted a) f088
  then raise_confidence (as_WorkStarted a) (set_state StateIngested a) else a.

(** The judge of a daemon; the service is configured or not, and every
    fallback but the hooks judge's own is the heuristic. *)
Inductive Judge := HeuristicJudge | TypesafeJudge | HooksJudge (fallback : Judge).

(** What the judges ask the world in one assessment. *)
Record World := mkWorld { jw_hooks : HookDir; jw_evaluate : Document → option EvaluationResponse }.

Definition document_of (e : Evidence) : Document :=
  mkDocument (ev_Agent e) (ev_Prompt e) (trimForDecision (ev_BeforeOutput e)) (trimForDecision (ev_AfterOutput e))
    (ev_WorkingIndicator e) (ev_Attempt e).

(** The assessment and the documents exported to make it. *)
Fixpoint Assess (j : Judge) (w : World) (e : Evidence) : Assessment * list Document :=
  match j with
  | HeuristicJudge => (HeuristicJudge_Assess e, [])
  | TypesafeJudge =>
      if ev_LocalOnly e then (HeuristicJudge_Assess e, []) else
      let d := document_of e in
      match jw_evaluate w d with
      | None => (HeuristicJudge_Assess e, [d])
      | Some resp => (read_evaluation resp, [d])
      end
  | HooksJudge fallback =>
      if String.eqb (ev_SessionID e) "" || IsZero (ev_DeliveryStartedAt e) then Assess fallback w e else
      match ReadSessionState (jw_hooks w) (ev_SessionID e) with
      | Err _ | Ok None => Assess fallback w e
      | Ok (Some st) =>
          if negb (Before (hk_LastPromptSubmitAt st) (ev_DeliveryStartedAt e))
          then (mkAssessment StateIngested f097
                  (if hk_Working st || negb (Before (hk_LastTurnEndAt st) (hk_LastPromptSubmitAt st)) then f097 else f050)
                  f005 "hooks" "", [])
          else Assess fallback w e
      end
  end.

(** [kind], whether the API key is set and a state directory given. *)
Definition newTypesafeJudge (key : bool) : Judge := if key then TypesafeJudge else HeuristicJudge.
Definition NewJudge (kind : string) (key stateDir : bool) : result string Judge :=
  if String.eqb kind "" || String.eqb kind "auto" then
    if negb stateDir
    then if String.eqb kind "auto" then Err "delivery judge requires a non-empty SessionStateDir"
         else Ok (newTypesafeJudge key)
    else Ok (HooksJudge (newTypesafeJudge key))
  else if String.eqb kind "typesafe" then Ok (newTypesafeJudge key)
  else if String.eqb kind "heuristic" then Ok HeuristicJudge
  else if String.eqb kind "hooks" then
    if stateDir then Ok (HooksJudge HeuristicJudge)
    else Err "delivery judge requires a non-empty SessionStateDir"
  else Err "unknown delivery judge".

(** ** The controller *)

Record ControllerConfig := mkConfig {
  cc_IngestionTimeout : Z; cc_RetryInterval : Z; cc_MaxSubmitAttempts : Z; cc_MinConfidence : float64 }.
Definition defaultIngestionTimeout : Z := 20000000000.
Definition defaultRetryInterval : Z := 1500000000.
Definition defaultMaxSubmitAttempts : Z := 3.
Definition DefaultControllerConfig : ControllerConfig :=
  mkConfig defaultIngestionTimeout defaultRetryInterval defaultMaxSubmitAttempts f070.
(** [NewController] replaces what is not positive. *)
Definition NewController (cfg : ControllerConfig) : ControllerConfig :=
  mkConfig (if cc_IngestionTimeout cfg <=? 0 then defaultIngestionTimeout else cc_IngestionTimeout cfg)
    (if cc_RetryInterval cfg <=? 0 then defaultRetryInterval else cc_RetryInterval cfg)
    (if cc_MaxSubmitAttempts cfg <=? 0 then defaultMaxSubmitAttempts else cc_MaxSubmitAttempts cfg)
    (if Qle_bool (cc_MinConfidence cfg) 0%Q then f070 else cc_MinConfidence cfg).

Definition isIngested (cfg : ControllerConfig) (a : Assessment) : bool :=
  at_least_f (as_WorkStarted a) f088 ||
  String.eqb (as_State a) StateIngested && at_least_f (as_Confidence a) (cc_MinConfidence cfg) ||
  String.eqb (as_State a) StateIngested && at_least_f (as_Confidence a) f040 && at_least_f (as_WorkStarted a) f050.

Definition shouldSubmit (cfg : ControllerConfig) (a : Assessment) (progressed : bool) (submitAttempts : Z) : bool :=
  if cc_MaxSubmitAttempts cfg <=? submitAttempts then false
  else if String.eqb (as_State a) StatePendingSubmit
  then at_least_f (as_Confidence a) (cc_MinConfidence cfg) || at_least_f (as_EnterHelpful a) f075
  else if String.eqb (as_State a) StateBlocked then at_least_f (as_EnterHelpful a) f080
  else if String.eqb (as_State a) StateUnclear
  then at_least_f (as_EnterHelpful a) f090 || (submitAttempts =? 0) && negb progressed
  else false.

(** ** The runtime of the daemon *)

(** The profile fields it reads. *)
Record Agent := mkAgent { ag_Name : string; ag_TrustPromptPattern : string; ag_TrustResponse : string }.

(** What the world answers in one round: the captures of the controller, of
    the trust check and of the resume check, whether keys are sent and the pane
    falls idle, the judges' world, the clock at the deadline check, and whether
    the sleep ends before the context. *)
Record Round := mkRound {
  rd_capture : option string; rd_world : World; rd_trust_capture : option string; rd_trust_sent : bool;
  rd_resume_capture : option string; rd_resume_sent : bool; rd_resume_idle : bool; rd_submit : bool;
  rd_now : Time; rd_alive : bool }.

(** What the daemon does to the pane (answering a blocker, pressing Enter to
    submit again) and to the service. *)
Inductive Effect := Keys (keys : list string) | Submit | Export (d : Document).

(** [(handled, err)] with the keys sent. *)
Definition handleTrustPrompt (r : Round) (prof : Agent) : result string bool * list Effect :=
  if String.eqb (ag_TrustPromptPattern prof) "" then (Ok false, []) else
  match rd_trust_capture r with
  | None => (Err "capture", [])
  | Some output =>
      if negb (containsFold output (ag_TrustPromptPattern prof)) then (Ok false, []) else
      let response := if String.eqb (ag_TrustResponse prof) "" then "Enter" else ag_TrustResponse prof in
      let keys := if String.eqb response "Enter" then ["Enter"] else [response; "Enter"] in
      if rd_trust_sent r then (Ok true, [Keys keys]) else (Err "send keys", [])
  end.

(** [strings.EqualFold] with an ASCII word none of whose letters folds to a
    rune beyond ASCII. *)
Fixpoint equal_fold_ascii (s word : string) : bool :=
  match s, word with
  | EmptyString, EmptyString => true
  | String a s', String b w' =>
      (let x := byte_val a in (if in_range 65 90 x then x + 32 else x) =? byte_val b) && equal_fold_ascii s' w'
  | _, _ => false
  end.
Definition handleResumePrompt (r : Round) (prof : Agent) : result string bool * list Effect :=
  if negb (equal_fold_ascii (ag_Name prof) "codex") then (Ok false, []) else
  match rd_resume_capture r with
  | None => (Err "capture", [])
  | Some output =>
      if containsFold output "resume" then
        if negb (rd_resume_sent r) then (Err "send keys", [])
        else if rd_resume_idle r then (Ok true, [Keys ["n"; "Enter"]]) else (Err "wait idle", [Keys ["n"; "Enter"]])
      else (Ok false, [])
  end.
Definition ResolveKnownBlockers (r : Round) (prof : Agent) : result string bool * list Effect :=
  match handleTrustPrompt r prof with
  | (Ok false, _) => handleResumePrompt r prof
  | handled => handled
  end.

(** ** The loop *)

(** What a round ends in: the answer of [EnsureIngested] (the assessment and
    the error, if any), or another round. *)
Inductive Verdict := Returned (a : Assessment) (err : option string) | Again (lastOutput : string) (submitAttempts : Z).

Definition round (cfg : ControllerConfig) (j : Judge) (prof : Agent) (evidence : Evidence) (deadline : Time)
    (r : Round) (lastOutput : string) (submitAttempts : Z) (lastAssessment : Assessment)
  : Verdict * Assessment * list Effect :=
  match rd_capture r with
  | None => (Returned lastAssessment (Some "capture delivery state"), lastAssessment, [])
  | Some output =>
      let current := mkEvidence (ev_Agent evidence) (ev_Prompt evidence) (ev_BeforeOutput evidence) output
        (ev_WorkingIndicator evidence) submitAttempts (ev_LocalOnly evidence) (ev_SessionID evidence)
        (ev_DeliveryStartedAt evidence) in
      let '(a, docs) := Assess j (rd_world r) current in
      let exported := Export <$> docs in
      let sleep n := if rd_alive r then Again output n else Returned a (Some "context") in
      if isIngested cfg a then (Returned a None, a, exported) else
      let '(handled, keys) := ResolveKnownBlockers r prof in
      match handled with
      | Err _ => (Returned a (Some "resolve delivery blockers"), a, exported ++ keys)
      | Ok true => (sleep submitAttempts, a, exported ++ keys)
      | Ok false =>
          let progressed := negb (bool_decide (normalizeScreen lastOutput = normalizeScreen output)) in
          if shouldSubmit cfg a progressed submitAttempts then
            if negb (rd_submit r) then (Returned a (Some "retry prompt submission"), a, exported ++ keys)
            else (sleep (submitAttempts + 1), a, exported ++ keys ++ [Submit])
          else if After (rd_now r) deadline
          then (Returned a (Some "prompt not ingested before timeout"), a, exported ++ keys)
          else (sleep submitAttempts, a, exported ++ keys)
      end
  end.

(** The rounds until the answer; [None] when the given rounds are used up. *)
Fixpoint rounds (cfg : ControllerConfig) (j : Judge) (prof : Agent) (evidence : Evidence) (deadline : Time)
    (rs : list Round) (lastOutput : string) (submitAttempts : Z) (lastAssessment : Assessment)
  : option (Assessment * option string) * list Effect :=
  match rs with
  | [] => (None, [])
  | r :: rest =>
      match round cfg j prof evidence deadline r lastOutput submitAttempts lastAssessment with
      | (Returned a err, _, effects) => (Some (a, err), effects)
      | (Again output n, a, effects) =>
          let '(answer, more) := rounds cfg j prof evidence deadline rest output n a in
          (answer, effects ++ more)
      end
  end.

Definition EnsureIngested (cfg : ControllerConfig) (j : Judge) (prof : Agent) (evidence : Evidence)
    (started : Time) (rs : list Round) : option (Assessment * option string) * list Effect :=
  let deadline := mkTime (t_ns started + cc_IngestionTimeout cfg) (t_utc started) in
  rounds cfg j prof evidence deadline rs (ev_BeforeOutput evidence) 0
    (mkAssessment StateUnclear 0%Q 0%Q 0%Q "none" "").
End Delivery.
