(* ===== verification/DeliveryFacts.v ===== *)
(** The delivery loop: it ends in bounded time unless blockers keep being
    resolved, submits a bounded number of times, reports a delivery only on an
    assessment that says so, follows the hooks of the agent, and exports
    nothing of a private session. *)

From S2P Require Import Prelude GoText RuneText HookState HookFacts Delivery.
From stdpp Require Import base gmap strings list.
From Stdlib Require Import ZArith QArith Lia.

Open Scope Z_scope.

Section Facts.
Context `{UnicodeTables}.
Context (cfg : ControllerConfig) (j : Judge) (prof : Agent) (evidence : Evidence).

Definition is_submit (e : Effect) : bool := match e with Submit => true | _ => false end.
Definition submits (l : list Effect) : Z := Z.of_nat (length (filter (λ e, is_submit e = true) l)).
Lemma submits_app l k : submits (l ++ k) = submits l + submits k.
Proof. unfold submits. rewrite filter_app, length_app. lia. Qed.
Lemma submits_exports docs : submits (Export <$> docs) = 0.
Proof. induction docs as [|d docs IH]; [done|]. exact IH. Qed.
Lemma submits_trust r : submits (handleTrustPrompt r prof).2 = 0.
Proof.
  unfold handleTrustPrompt. destruct (String.eqb _ _); [done|]. destruct (rd_trust_capture r); [|done].
  destruct (negb _); [done|]. by destruct (rd_trust_sent r).
Qed.
Lemma submits_resume r : submits (handleResumePrompt r prof).2 = 0.
Proof.
  unfold handleResumePrompt. destruct (negb _); [done|]. destruct (rd_resume_capture r); [|done].
  destruct (containsFold _ _); [|done]. destruct (rd_resume_sent r); [|done]. by destruct (rd_resume_idle r).
Qed.
Lemma submits_blockers r : submits (ResolveKnownBlockers r prof).2 = 0.
Proof.
  unfold ResolveKnownBlockers. pose proof (submits_trust r) as Ht.
  destruct (handleTrustPrompt r prof) as [[[|]|e] keys]; [done|apply submits_resume|done].
Qed.

(** Whether a round resolves a blocker. *)
Definition blocker_round (r : Round) : bool :=
  match (ResolveKnownBlockers r prof).1 with Ok true => true | _ => false end.

(** A round that goes on resolved a blocker, submitted, or was in time. *)
Lemma round_again deadline r last n a0 output n' a effects :
  round cfg j prof evidence deadline r last n a0 = (Again output n', a, effects) →
  rd_capture r = Some output ∧ rd_alive r = true ∧
  ((blocker_round r = true ∧ n' = n ∧ submits effects = 0) ∨
   (n' = n + 1 ∧ n < cc_MaxSubmitAttempts cfg ∧ submits effects = 1) ∨
   (After (rd_now r) deadline = false ∧ n' = n ∧ submits effects = 0)).
Proof.
  unfold round, blocker_round. destruct (rd_capture r) as [out|]; [|done].
  destruct (Assess _ _ _) as [a' docs]. destruct (isIngested cfg a'); [done|].
  pose proof (submits_blockers r) as Hb. destruct (ResolveKnownBlockers r prof) as [handled keys]. cbn [fst snd] in *.
  destruct handled as [[|]|e]; [| |done].
  - destruct (rd_alive r); [|done]. intros [= <- <- <- <-]. split_and!; [done|done|left]. split_and!; [done|done|].
    by rewrite submits_app, submits_exports, Hb.
  - destruct (shouldSubmit _ _ _ _) eqn:Hs.
    + destruct (rd_submit r); [|done]. cbn [negb]. destruct (rd_alive r); [|done]. intros [= <- <- <- <-].
      split_and!; [done|done|right; left]. split_and!; [done| |].
      * unfold shouldSubmit in Hs. destruct (Z.leb_spec (cc_MaxSubmitAttempts cfg) n); [done|lia].
      * by rewrite !submits_app, submits_exports, Hb.
    + destruct (After (rd_now r) deadline); [done|]. destruct (rd_alive r); [|done]. intros [= <- <- <- <-].
      split_and!; [done|done|right; right]. split_and!; [done|done|].
      by rewrite submits_app, submits_exports, Hb.
Qed.

Lemma round_returned deadline r last n a0 a err a' effects :
  round cfg j prof evidence deadline r last n a0 = (Returned a err, a', effects) →
  submits effects = 0 ∨ (submits effects = 1 ∧ n < cc_MaxSubmitAttempts cfg).
Proof.
  unfold round. destruct (rd_capture r) as [out|]; [|intros [= <- <- <- <-]; by left].
  destruct (Assess _ _ _) as [a1 docs]. destruct (isIngested cfg a1).
  { intros [= _ _ _ <-]. left. apply submits_exports. }
  pose proof (submits_blockers r) as Hb. destruct (ResolveKnownBlockers r prof) as [handled keys]. cbn [snd] in Hb.
  assert (submits ((Export <$> docs) ++ keys) = 0) as Hk by (by rewrite submits_app, submits_exports, Hb).
  destruct handled as [[|]|e].
  - destruct (rd_alive r); [done|]. intros [= _ _ _ <-]. by left.
  - destruct (shouldSubmit _ _ _ _) eqn:Hs.
    + destruct (rd_submit r); cbn [negb]; [|intros [= _ _ _ <-]; by left].
      destruct (rd_alive r); [done|]. intros [= _ _ _ <-]. right. split.
      * by rewrite app_assoc, submits_app, Hk.
      * unfold shouldSubmit in Hs. destruct (Z.leb_spec (cc_MaxSubmitAttempts cfg) n); [done|lia].
    + destruct (After (rd_now r) deadline); [intros [= _ _ _ <-]; by left|].
      destruct (rd_alive r); [done|]. intros [= _ _ _ <-]. by left.
  - intros [= _ _ _ <-]. by left.
Qed.

(** ** Bounds *)

Definition blocker_rounds (rs : list Round) : Z := Z.of_nat (length (filter (λ r, blocker_round r = true) rs)).
Definition in_time (deadline : Time) (rs : list Round) : Z :=
  Z.of_nat (length (filter (λ r, After (rd_now r) deadline = false) rs)).

Lemma blocker_rounds_cons r rs :
  blocker_rounds (r :: rs) = (if blocker_round r then 1 else 0) + blocker_rounds rs.
Proof.
  unfold blocker_rounds. rewrite filter_cons. destruct (blocker_round r).
  - rewrite decide_True by done. cbn [length]. lia.
  - by rewrite decide_False.
Qed.
Lemma in_time_cons deadline r rs :
  in_time deadline (r :: rs) = (if After (rd_now r) deadline then 0 else 1) + in_time deadline rs.
Proof.
  unfold in_time. rewrite filter_cons. destruct (After (rd_now r) deadline).
  - by rewrite decide_False.
  - rewrite decide_True by done. cbn [length]. lia.
Qed.

(** The rounds of an unfinished loop, and the submissions of any. *)
Lemma rounds_bounded deadline rs last n a0 :
  0 ≤ n →
  let '(answer, effects) := rounds cfg j prof evidence deadline rs last n a0 in
  n + submits effects ≤ Z.max n (cc_MaxSubmitAttempts cfg) ∧
  (answer = None → Z.of_nat (length rs) ≤ blocker_rounds rs + submits effects + in_time deadline rs).
Proof.
  revert last n a0. induction rs as [|r rs IH]; intros last n a0 Hn; cbn [rounds].
  { unfold submits. simpl. split; [lia|]. intros _. unfold blocker_rounds, in_time. simpl. lia. }
  destruct (round _ _ _ _ _ _ _ _ _) as [[v a] effects] eqn:Hr. destruct v as [a1 err|output n'].
  { apply round_returned in Hr. split; [|done]. lia. }
  apply round_again in Hr as (_ & _ & Hcase).
  specialize (IH output n' a ltac:(lia)). destruct (rounds _ _ _ _ _ rs _ _ _) as [answer more].
  destruct IH as [Hs Hlen]. rewrite submits_app. split; [lia|]. intros Hnone. specialize (Hlen Hnone).
  rewrite blocker_rounds_cons, in_time_cons. cbn [length].
  destruct Hcase as [(Hb & -> & He)|[(-> & ? & He)|(Ht & -> & He)]]; rewrite He.
  - rewrite Hb. destruct (After _ _); lia.
  - destruct (blocker_round r), (After _ _); lia.
  - rewrite Ht. destruct (blocker_round r); lia.
Qed.

(** Every round that goes on sleeps, so the clock at the deadline check of the
    round with [k] rounds before it is at least [k] intervals after the start. *)
Definition paced (started : Time) (k : nat) (rs : list Round) : Prop :=
  ∀ i r, rs !! i = Some r → t_ns started + Z.of_nat (k + i) * cc_RetryInterval cfg ≤ t_ns (rd_now r).

Lemma paced_in_time started deadline k rs :
  0 < cc_RetryInterval cfg → paced started k rs →
  t_ns deadline = t_ns started + cc_IngestionTimeout cfg →
  in_time deadline rs ≤ Z.max 0 (cc_IngestionTimeout cfg / cc_RetryInterval cfg + 1 - Z.of_nat k).
Proof.
  intros Hpos Hp Hd. revert k Hp. induction rs as [|r rs IH]; intros k Hp; [unfold in_time; simpl; lia|].
  rewrite in_time_cons. specialize (IH (S k)).
  assert (paced started (S k) rs) as Hp'.
  { intros i r' Hi. specialize (Hp (S i) r' Hi). by replace (S k + i)%nat with (k + S i)%nat by lia. }
  specialize (IH Hp'). specialize (Hp O r eq_refl). unfold After.
  destruct (Z.ltb_spec (t_ns deadline) (t_ns (rd_now r))); [lia|].
  assert (Z.of_nat k ≤ cc_IngestionTimeout cfg / cc_RetryInterval cfg); [|lia].
  apply Z.div_le_lower_bound; [lia|]. rewrite Nat.add_0_r in Hp. lia.
Qed.

(** C16: termination: with the clock of the code, a delivery that resolves at
    most [k] blockers answers within as many rounds as its timeout holds retry
    intervals, and one, and [k] and the submissions it may make; whatever the
    world answers, it submits at most the configured number of times. *)
Theorem delivery_terminates started rs :
  0 < cc_RetryInterval cfg → 0 ≤ cc_IngestionTimeout cfg → 0 ≤ cc_MaxSubmitAttempts cfg →
  paced started 0 rs →
  let '(answer, effects) := EnsureIngested cfg j prof evidence started rs in
  submits effects ≤ cc_MaxSubmitAttempts cfg ∧
  (cc_IngestionTimeout cfg / cc_RetryInterval cfg + 1 + cc_MaxSubmitAttempts cfg + blocker_rounds rs
     < Z.of_nat (length rs) → is_Some answer).
Proof.
  intros Hpos Ht Hmax Hp. unfold EnsureIngested. set (deadline := mkTime _ _).
  pose proof (rounds_bounded deadline rs (ev_BeforeOutput evidence) 0
    (mkAssessment StateUnclear 0%Q 0%Q 0%Q "none" "") ltac:(lia)) as Hb.
  destruct (rounds _ _ _ _ _ _ _ _ _) as [answer effects]. destruct Hb as [Hs Hlen].
  split; [lia|]. intros Hlong. destruct answer as [answer|]; [by eexists|]. exfalso. specialize (Hlen eq_refl).
  pose proof (paced_in_time started deadline 0 rs Hpos Hp eq_refl) as Hin.
  assert (0 ≤ cc_IngestionTimeout cfg / cc_RetryInterval cfg) by (apply Z.div_pos; lia). lia.
Qed.

(** ** What a delivery reports *)

(** The evidence of a round. *)
Definition evidence_at (output : string) (n : Z) : Evidence :=
  mkEvidence (ev_Agent evidence) (ev_Prompt evidence) (ev_BeforeOutput evidence) output
    (ev_WorkingIndicator evidence) n (ev_LocalOnly evidence) (ev_SessionID evidence) (ev_DeliveryStartedAt evidence).

Lemma rounds_confirmed deadline rs last n a0 a effects :
  rounds cfg j prof evidence deadline rs last n a0 = (Some (a, None), effects) →
  isIngested cfg a = true ∧
  ∃ r output k, r ∈ rs ∧ rd_capture r = Some output ∧ a = (Assess j (rd_world r) (evidence_at output k)).1.
Proof.
  revert last n a0 effects. induction rs as [|r rs IH]; intros last n a0 effects; cbn [rounds]; [done|].
  destruct (round _ _ _ _ _ _ _ _ _) as [[v a1] eff] eqn:Hr. destruct v as [a2 err|output n'].
  - intros [= -> -> _]. unfold round in Hr. destruct (rd_capture r) as [out|] eqn:Hc; [|done].
    fold (evidence_at out n) in Hr. destruct (Assess j (rd_world r) (evidence_at out n)) as [a3 docs] eqn:Ha.
    destruct (isIngested cfg a3) eqn:Hi.
    + injection Hr as -> _ _. split; [done|]. exists r, out, n. split_and!; [by left|done|by rewrite Ha].
    + destruct (ResolveKnownBlockers r prof) as [[[|]|e] keys]; [by destruct (rd_alive r)| |done].
      destruct (shouldSubmit _ _ _ _); [destruct (rd_submit r); [by destruct (rd_alive r)|done]|].
      destruct (After _ _); [done|]. by destruct (rd_alive r).
  - destruct (rounds _ _ _ _ _ rs _ _ _) as [answer more] eqn:Hrs. intros [= -> _].
    destruct (IH _ _ _ _ Hrs) as (Hi & r' & out & k & Hin & Hc & Ha). split; [done|].
    exists r', out, k. split; [by right|done].
Qed.

(** Nothing of a private session is exported. *)
Lemma Assess_private (w : World) e : ev_LocalOnly e = true → (Assess j w e).2 = [].
Proof.
  intros Hl. induction j as [| |fb IH]; cbn [Assess]; [done|by rewrite Hl|].
  destruct (_ || _); [exact IH|]. destruct (ReadSessionState _ _) as [[st|]|]; [|exact IH|exact IH].
  by destruct (negb _).
Qed.
Definition is_export (e : Effect) : bool := match e with Export _ => true | _ => false end.
Lemma blockers_export r : Forall (λ e, is_export e = false) (ResolveKnownBlockers r prof).2.
Proof.
  unfold ResolveKnownBlockers. assert (Forall (λ e, is_export e = false) (handleTrustPrompt r prof).2) as Ht.
  { unfold handleTrustPrompt. destruct (String.eqb _ _); [constructor|]. destruct (rd_trust_capture r); [|constructor].
    destruct (negb _); [constructor|]. destruct (rd_trust_sent r); by repeat constructor. }
  destruct (handleTrustPrompt r prof) as [[[|]|e] keys]; [done| |done].
  unfold handleResumePrompt. destruct (negb _); [constructor|]. destruct (rd_resume_capture r); [|constructor].
  destruct (containsFold _ _); [|constructor]. destruct (rd_resume_sent r); [|constructor].
  destruct (rd_resume_idle r); by repeat constructor.
Qed.
Lemma round_private deadline r last n a0 :
  ev_LocalOnly evidence = true →
  Forall (λ e, is_export e = false) (round cfg j prof evidence deadline r last n a0).2.
Proof.
  intros Hl. unfold round. destruct (rd_capture r) as [out|]; [|constructor]. fold (evidence_at out n).
  pose proof (Assess_private (rd_world r) (evidence_at out n) Hl) as Hd.
  destruct (Assess j (rd_world r) (evidence_at out n)) as [a docs]. cbn [snd] in Hd. subst docs. cbn [fmap list_fmap app].
  destruct (isIngested cfg a); [constructor|]. pose proof (blockers_export r) as Hb.
  destruct (ResolveKnownBlockers r prof) as [[[|]|e] keys]; cbn [snd] in Hb; [done| |done].
  destruct (shouldSubmit _ _ _ _); [|by destruct (After _ _)].
  destruct (rd_submit r); [|done]. cbn [negb snd]. apply Forall_app. split; [done|by repeat constructor].
Qed.
Lemma rounds_private deadline rs last n a0 :
  ev_LocalOnly evidence = true →
  Forall (λ e, is_export e = false) (rounds cfg j prof evidence deadline rs last n a0).2.
Proof.
  intros Hl. revert last n a0. induction rs as [|r rs IH]; intros last n a0; cbn [rounds]; [constructor|].
  pose proof (round_private deadline r last n a0 Hl) as Hr.
  destruct (round _ _ _ _ _ _ _ _ _) as [[[a err|output n'] a1] eff]; cbn [snd] in Hr; [exact Hr|].
  specialize (IH output n' a1). destruct (rounds _ _ _ _ _ rs _ _ _) as [answer more]. by apply Forall_app.
Qed.

(** ** The hooks *)

Lemma read_evaluation_source resp : as_Source (read_evaluation resp) = "typesafe".
Proof.
  unfold read_evaluation. set (a0 := mkAssessment _ _ _ _ _ _).
  assert (∀ p a, as_Source (raise_confidence p a) = as_Source a) as Hraise
    by (intros p a; unfold raise_confidence; by destruct (less_f _ _)).
  assert (∀ l a, as_Source (foldl read_response a l) = as_Source a) as Hfold.
  { intros l. induction l as [|r l IH]; intros a; [done|]. cbn [foldl]. rewrite IH. unfold read_response.
    repeat (destruct (String.eqb _ _); [done|]). destruct (String.eqb (rp_Key r) "prompt_pending_input"); [|done].
    destruct (_ && _); [|done]. by rewrite Hraise. }
  destruct (_ && _); [rewrite Hraise|]; cbn [set_state as_Source]; apply Hfold.
Qed.

(** An assessment by the hooks rests on a document with a prompt in time. *)
Lemma Assess_hooks (w : World) e :
  as_Source (Assess j w e).1 = "hooks" →
  ∃ st, ReadSessionState (jw_hooks w) (ev_SessionID e) = Ok (Some st) ∧
    Before (hk_LastPromptSubmitAt st) (ev_DeliveryStartedAt e) = false.
Proof.
  induction j as [| |fb IH]; cbn [Assess].
  - unfold HeuristicJudge_Assess. cbn [fst]. repeat (destruct (_ : bool); [done|]). done.
  - destruct (ev_LocalOnly e); [unfold HeuristicJudge_Assess; cbn [fst]; repeat (destruct (_ : bool); [done|]); done|].
    destruct (jw_evaluate w _); cbn [fst]; [by rewrite read_evaluation_source|].
    unfold HeuristicJudge_Assess. repeat (destruct (_ : bool); [done|]). done.
  - destruct (_ || _); [exact IH|]. destruct (ReadSessionState _ _) as [[st|]|]; [|exact IH|exact IH].
    destruct (Before _ _) eqn:Hb; cbn [negb]; [exact IH|]. intros _. by exists st.
Qed.

(** The log behind such a document has the event. *)
Lemma prompt_in_log io ops id st since :
  sessionIDRe id = true → 0 < t_ns since →
  ReadSessionState (hook_run ops (no_hooks io)) id = Ok (Some st) →
  Before (hk_LastPromptSubmitAt st) since = false →
  ∃ t, (EventPromptSubmit, t) ∈ hook_log id ops (no_hooks io) [] ∧ t_ns since ≤ t_ns t.
Proof.
  intros Hid Hpos Hread Hb. pose proof (read_agrees io ops id Hid) as Hlog.
  rewrite Hread in Hlog. change (hk_LastPromptSubmitAt st) with (tv_prompt (view_of st)) in Hb. rewrite Hlog in Hb.
  cbn [spec_view tv_prompt] in Hb. unfold Before in Hb. apply Z.ltb_ge in Hb.
  unfold last_time in Hb. destruct (last (events_of _ _)) as [[name t]|] eqn:Hlast; [|simpl in Hb; lia].
  apply last_Some_elem_of, list_elem_of_filter in Hlast as [Hname Hin]. simpl in Hname, Hb. subst name.
  by exists t.
Qed.

(** C15: a delivery is reported only on an assessment of the screen and hooks of
    one of its rounds that passes the controller's gate; if that assessment is
    the hooks' own, the session's log has a prompt recorded at or after the
    start of this delivery; and nothing of a private session is exported,
    whatever the judge. *)
Theorem delivery_sound started rs a effects :
  sessionIDRe (ev_SessionID evidence) = true → 0 < t_ns (ev_DeliveryStartedAt evidence) →
  EnsureIngested cfg j prof evidence started rs = (Some (a, None), effects) →
  isIngested cfg a = true ∧
  (∃ r output k, r ∈ rs ∧ rd_capture r = Some output ∧ a = (Assess j (rd_world r) (evidence_at output k)).1 ∧
     (as_Source a = "hooks" → ∀ io ops, jw_hooks (rd_world r) = hook_run ops (no_hooks io) →
        ∃ t, (EventPromptSubmit, t) ∈ hook_log (ev_SessionID evidence) ops (no_hooks io) [] ∧
             t_ns (ev_DeliveryStartedAt evidence) ≤ t_ns t)) ∧
  (ev_LocalOnly evidence = true → Forall (λ e, is_export e = false) effects).
Proof.
  intros Hid Hpos Hrun. unfold EnsureIngested in Hrun.
  destruct (rounds_confirmed _ _ _ _ _ _ _ Hrun) as (Hi & r & out & k & Hin & Hc & Ha). split_and!; [done| |].
  - exists r, out, k. split_and!; [done|done|done|]. intros Hsrc io ops Hd. rewrite Ha in Hsrc.
    destruct (Assess_hooks _ _ Hsrc) as (st & Hread & Hb). rewrite Hd in Hread.
    by eapply prompt_in_log.
  - intros Hl. change effects with (Some (a, None : option string), effects).2. rewrite <- Hrun. by apply rounds_private.
Qed.
End Facts.

(** A prompt recorded in time ends the delivery in the next round, whatever
    the screen shows and however the controller is configured. *)
Theorem hooks_end_delivery `{UnicodeTables} cfg fallback prof evidence started r rs output st :
  ev_SessionID evidence ≠ "" → IsZero (ev_DeliveryStartedAt evidence) = false →
  rd_capture r = Some output →
  ReadSessionState (jw_hooks (rd_world r)) (ev_SessionID evidence) = Ok (Some st) →
  Before (hk_LastPromptSubmitAt st) (ev_DeliveryStartedAt evidence) = false →
  ∃ a, EnsureIngested cfg (HooksJudge fallback) prof evidence started (r :: rs) = (Some (a, None), []) ∧
    as_State a = StateIngested ∧ as_Source a = "hooks".
Proof.
  intros Hid Hz Hc Hread Hb. unfold EnsureIngested. cbn [rounds]. unfold round. rewrite Hc. cbn [Assess].
  cbn [ev_SessionID ev_DeliveryStartedAt]. rewrite (proj2 (String.eqb_neq _ _) Hid), Hz, Hread, Hb. cbn [orb negb].
  eexists. set (a := mkAssessment _ _ _ _ _ _). assert (isIngested cfg a = true) as ->; [|done].
  unfold isIngested, a. cbn [as_WorkStarted as_State as_Confidence]. destruct (_ || _); [done|].
  by rewrite orb_true_r.
Qed.

(** Nothing bounds the blockers: as long as a round resolves one, the deadline
    is not looked at. *)
Lemma blockers_defeat_timeout `{UnicodeTables} cfg j prof evidence deadline r output n last :
  rd_capture r = Some output → rd_alive r = true → blocker_round prof r = true →
  (∀ a, a = (Assess j (rd_world r) (evidence_at evidence output 0)).1 → isIngested cfg a = false) →
  ∀ a0, (rounds cfg j prof evidence deadline (repeat r n) last 0 a0).1 = None.
Proof.
  intros Hc Ha Hb Hi. revert last. induction n as [|n IH]; intros last a0; [done|].
  cbn [repeat rounds]. unfold round. rewrite Hc. unfold blocker_round in Hb. specialize (Hi _ eq_refl).
  unfold evidence_at in Hi. destruct (Assess _ _ _) as [a docs]. cbn [fst] in Hi. rewrite Hi.
  destruct (ResolveKnownBlockers r prof) as [[[|]|e] keys]; try done. rewrite Ha.
  specialize (IH output a). by destruct (rounds _ _ _ _ _ _ _ _ _).
Qed.
