(* ===== verification/MeshWire.v ===== *)
(** internal/daemon/mesh_application.go, what crosses the mesh: the messages of
    the session and artifact inventories, the cleaning of session views on their
    way out and in, artifact references, topics, and the pages of an
    inventory. *)

From S2P Require Import Prelude GoText RuneText GoPath Safetext Session HookState MeshTypes GoJson SessionView PeerRpc.
From stdpp Require Import base gmap strings list sorting.
From Stdlib Require Import ZArith Lia Ascii.

Open Scope Z_scope.

Definition meshTopicSessions : string := "sessions".
Definition meshTopicArtifacts : string := "artifacts".
Definition meshPageItemMax : Z := 256.
Definition meshPageTTL : Z := 30000000000.
Definition meshPageCacheMax : nat := 64.
Definition meshPageResultBudget : Z := MaxApplicationPayload - 1024.

(** The errors of this part; a remote caller sees the first two by code. *)
Inductive AppError :=
| PageTooLarge
| InvalidRequest (what : string)
| PermissionDenied (what : string)
| ErrPeerDisconnected
| StoreError (e : MeshError)
| Failed (what : string).

(** ** Messages *)

Record ArtifactRepoRef := mkArtifactRepoRef { ar_Repo : string; ar_Commit : string }.
Record ArtifactSessionRef := mkArtifactSessionRef { as_ProfileScope : string; as_SessionID : string }.
Record ArtifactReference := mkReference {
  rf_ID : string; rf_Kind : string; rf_Repo : option ArtifactRepoRef; rf_Session : option ArtifactSessionRef }.

Record SessionsPage := mkSessionsPage {
  sp_SourceEpoch : string; sp_SourceRevision : Z; sp_ProfileScopes : list string;
  sp_Sessions : list Summary; sp_NextCursor : string }.
Record ArtifactsPage := mkArtifactsPage {
  ap_SourceEpoch : string; ap_SourceRevision : Z; ap_Artifacts : list ArtifactReference; ap_NextCursor : string }.
Record PageRequest := mkPageRequest { pq_Kind : string; pq_Cursor : string; pq_Limit : Z }.

(** ** Their encoding *)

Definition json_locator (l : Locator) : json :=
  JObject [("version", json_uint (lc_Version l)); ("profile_scope", JString (lc_ProfileScope l));
           ("session_id", JString (lc_SessionID l))].
Definition json_current_work (c : CurrentWorkSummary) : json :=
  JObject [("summary", JString (cw_Summary c)); ("provenance", JString (cw_Provenance c));
           ("updated_at", json_time (cw_UpdatedAt c))].
(** Work and History are nil in everything that is encoded. *)
Definition json_summary (s : Summary) : json :=
  JObject (member "locator" (json_locator (sm_Locator s)) ++ omit_empty "name" (sm_Name s) ++
           member "agent" (JString (sm_Agent s)) ++ omit_empty "transport" (sm_Transport s) ++
           omit_empty "launch_cwd" (sm_LaunchCWD s) ++ omit_empty "owner_id" (sm_OwnerID s) ++
           member "state" (JString (sm_State s)) ++ omit_empty "health" (sm_Health s) ++
           member "started_at" (json_time (sm_StartedAt s)) ++
           member "last_activity_at" (json_time (sm_LastActivityAt s)) ++
           omit_nil "idle_since" json_time (sm_IdleSince s) ++
           omit_nil "working_since" json_time (sm_WorkingSince s) ++
           omit_nil "current_work" json_current_work (sm_CurrentWork s) ++
           member "freshness" (JObject [("observed_at", json_time (sm_ObservedAt s));
                                        ("source_updated_at", json_time (sm_SourceUpdatedAt s))])).
Definition json_reference (r : ArtifactReference) : json :=
  JObject (member "id" (JString (rf_ID r)) ++ member "kind" (JString (rf_Kind r)) ++
           omit_nil "repo" (λ p, JObject (member "repo" (JString (ar_Repo p)) ++ omit_empty "commit" (ar_Commit p)))
             (rf_Repo r) ++
           omit_nil "session" (λ p, JObject [("profile_scope", JString (as_ProfileScope p));
                                             ("session_id", JString (as_SessionID p))]) (rf_Session r)).
Definition json_sessions_page (p : SessionsPage) : json :=
  JObject (member "source_epoch" (JString (sp_SourceEpoch p)) ++
           member "source_revision" (json_uint (sp_SourceRevision p)) ++
           member "profile_scopes" (JArray (JString <$> sp_ProfileScopes p)) ++
           member "sessions" (JArray (json_summary <$> sp_Sessions p)) ++
           omit_empty "next_cursor" (sp_NextCursor p)).
Definition json_artifacts_page (p : ArtifactsPage) : json :=
  JObject (member "source_epoch" (JString (ap_SourceEpoch p)) ++
           member "source_revision" (json_uint (ap_SourceRevision p)) ++
           member "artifacts" (JArray (json_reference <$> ap_Artifacts p)) ++
           omit_empty "next_cursor" (ap_NextCursor p)).

(** The receiver decodes what was encoded: [Private] stays behind. *)
Definition decoded_summary (s : Summary) : Summary :=
  mkSummary (sm_Locator s) (sm_Name s) (sm_Agent s) (sm_Transport s) (sm_LaunchCWD s) (sm_OwnerID s)
    (sm_State s) (sm_Health s) (sm_StartedAt s) (sm_LastActivityAt s) (sm_IdleSince s) (sm_WorkingSince s)
    (sm_CurrentWork s) (sm_Work s) (sm_History s) (sm_ObservedAt s) (sm_SourceUpdatedAt s) false.

(** ** Cleaning session views *)

Definition meshSessionNameRunes : nat := 128.
Definition meshSessionFieldRunes : nat := 128.
Definition meshSessionCWDRunes : nat := 4096.
Definition meshSessionOwnerRunes : nat := 256.

Definition meshCleanText (value : string) (maxRunes : nat) : string :=
  runes_string (boundText (List.filter (λ r, negb (is_control r || (r =? rune_error))) (runes value)) maxRunes).

(** 2000-01-01 00:00:00 UTC *)
Definition year_2000 : Z := 63082281600000000000.
Definition validateMeshTimestamp (value now : Time) : bool :=
  negb (IsZero value) && (year_2000 <=? t_ns value) && (t_ns value <=? t_ns now + 86400000000000).

(** [home] is what the environment says of the home directory. *)
Definition meshPathHint (home : option string) (value : string) : string :=
  if String.eqb value "" then "" else
  if negb (IsAbs value) then "" else
  match home with
  | None => ""
  | Some home =>
      match filepath_Rel_abs home value with
      | None => ""
      | Some rel =>
          if String.eqb rel ".." || has_prefix "../" rel then ""
          else if String.eqb rel "." then "~" else filepath_Join "~" rel
      end
  end.

Definition set_cwd (cwd : string) (s : Summary) : Summary :=
  mkSummary (sm_Locator s) (sm_Name s) (sm_Agent s) (sm_Transport s) cwd (sm_OwnerID s) (sm_State s) (sm_Health s)
    (sm_StartedAt s) (sm_LastActivityAt s) (sm_IdleSince s) (sm_WorkingSince s) (sm_CurrentWork s) (sm_Work s)
    (sm_History s) (sm_ObservedAt s) (sm_SourceUpdatedAt s) (sm_Private s).

(** The fields after the texts, the times and the current work were cleaned. *)
Definition cleaned (s : Summary) (current : option CurrentWorkSummary) : Summary :=
  mkSummary (sm_Locator s) (meshCleanText (sm_Name s) meshSessionNameRunes)
    (meshCleanText (sm_Agent s) meshSessionFieldRunes) (meshCleanText (sm_Transport s) meshSessionFieldRunes)
    (meshCleanText (sm_LaunchCWD s) meshSessionCWDRunes) (meshCleanText (sm_OwnerID s) meshSessionOwnerRunes)
    (meshCleanText (sm_State s) meshSessionFieldRunes) (meshCleanText (sm_Health s) meshSessionFieldRunes)
    (UTC (sm_StartedAt s)) (UTC (sm_LastActivityAt s)) (UTC <$> sm_IdleSince s) (UTC <$> sm_WorkingSince s)
    current None None (UTC (sm_ObservedAt s)) (UTC (sm_SourceUpdatedAt s)) (sm_Private s).

(** The times of a view that must be in range. *)
Definition summary_times (s : Summary) (current : option CurrentWorkSummary) : list Time :=
  [sm_StartedAt s; sm_LastActivityAt s; sm_ObservedAt s; sm_SourceUpdatedAt s] ++
  option_list (cw_UpdatedAt <$> current) ++ option_list (sm_IdleSince s) ++ option_list (sm_WorkingSince s).

(** [now] is the clock of the range check. *)
Definition meshSanitizeSummary (now : Time) (s : Summary) : result string Summary :=
  _ ← Locator_Validate (sm_Locator s);
  current ← (match sm_CurrentWork s with
             | None => Ok None
             | Some c => Some <$> NormalizeCurrentWork c
             end);
  let s' := cleaned s current in
  _ ← guard_err (negb (blank (sm_Agent s') || blank (sm_State s'))) "session agent and state are required";
  _ ← guard_err (forallb (λ t, validateMeshTimestamp t now) (summary_times s current))
        "time is outside the accepted range";
  Ok s'.

Definition meshSafeSummary (home : option string) (now : Time) (s : Summary) : result string Summary :=
  meshSanitizeSummary now (set_cwd (if sm_Private s then "" else meshPathHint home (sm_LaunchCWD s)) s).

Definition meshAcceptSummary (now : Time) (s : Summary) : result string Summary :=
  s ← meshSanitizeSummary now s;
  if String.eqb (sm_LaunchCWD s) "~" then Ok s else
  match cut_prefix "~/" (sm_LaunchCWD s) with
  | None => Ok (set_cwd "" s)
  | Some rest =>
      let rel := filepath_Clean rest in
      if String.eqb rel ".." || has_prefix "../" rel then Ok (set_cwd "" s)
      else Ok (set_cwd (filepath_Join "~" rel) s)
  end.

Definition set_summary (s : Summary) (d : Detail) : Detail := mkDetail s (dt_NudgeCount d) (dt_Turn d).
Definition meshSanitizeDetail (now : Time) (d : Detail) : result string Detail :=
  _ ← guard_err (0 <=? dt_NudgeCount d) "session nudge count cannot be negative";
  match dt_Turn d with
  | None => Ok d
  | Some turn =>
      _ ← guard_err ((0 <=? ta_TurnCount turn) && (0 <=? ta_EventsSeen turn))
            "session turn counters cannot be negative";
      _ ← guard_err (forallb (λ t, validateMeshTimestamp t now)
                       (option_list (ta_LastPromptSubmitAt turn) ++ option_list (ta_LastTurnEndAt turn)))
            "time is outside the accepted range";
      Ok (mkDetail (dt_Summary d) (dt_NudgeCount d)
            (Some (mkTurn (ta_TurnCount turn) (ta_EventsSeen turn) (UTC <$> ta_LastPromptSubmitAt turn)
                     (UTC <$> ta_LastTurnEndAt turn))))
  end.
Definition meshSafeDetail (home : option string) (now : Time) (d : Detail) : result string Detail :=
  s ← meshSafeSummary home now (dt_Summary d); meshSanitizeDetail now (set_summary s d).
Definition meshAcceptDetail (now : Time) (d : Detail) : result string Detail :=
  s ← meshAcceptSummary now (dt_Summary d); meshSanitizeDetail now (set_summary s d).

(** ** Artifact references *)

Section References.
Context `{UrlLib}.

Definition meshArtifactReferenceFromEnvelope (a : ArtifactEnvelope) : result AppError ArtifactReference :=
  match ArtifactEnvelope_Validate a with
  | Err e => Err (StoreError e)
  | Ok _ =>
      session ← (match art_Session a with
                 | None => Ok None
                 | Some l =>
                     match NewLocator (loc_ProfileScope l) (loc_SessionID l) with
                     | Ok locator => Ok (Some (mkArtifactSessionRef (lc_ProfileScope locator) (lc_SessionID locator)))
                     | Err e => Err (Failed e)
                     end
                 end);
      Ok (mkReference (art_ID a) (art_Kind a)
            ((λ r, mkArtifactRepoRef (repo_Repo r) (repo_Commit r)) <$> art_Repo a) session)
  end.

Definition meshArtifactEnvelopeFromReference (now : Time) (peer : string) (r : ArtifactReference)
  : result AppError ArtifactEnvelope :=
  session ← (match rf_Session r with
             | None => Ok None
             | Some p =>
                 match NewLocator (as_ProfileScope p) (as_SessionID p) with
                 | Ok locator => Ok (Some (MeshTypes.mkLocator SchemaVersion peer (lc_ProfileScope locator)
                                             (lc_SessionID locator) ""))
                 | Err e => Err (Failed e)
                 end
             end);
  let a := mkArtifact SchemaVersion (rf_ID r) "" "" (rf_Kind r) "" "" "" ""
             ((λ p, mkRepoRef (ar_Repo p) "" (ar_Commit p)) <$> rf_Repo r) session "mesh.reference.v1" "" "" 0 None
             (UTC now) (UTC now) FreshnessFresh in
  match ArtifactEnvelope_Validate a with
  | Ok _ => Ok a
  | Err e => Err (StoreError e)
  end.
End References.

(** ** Topics *)

Definition validateMeshTopics (topics : list string) : result AppError (list string) :=
  if forallb (λ t, String.eqb t meshTopicSessions || String.eqb t meshTopicArtifacts) topics
  then Ok (sort_strings (remove_dups topics)) else Err (InvalidRequest "unsupported event topic").

Definition topic_scope (topic : string) : option string :=
  if String.eqb topic meshTopicSessions then Some "sessions.read"
  else if String.eqb topic meshTopicArtifacts then Some "artifacts.read" else None.
Fixpoint authorizeMeshTopics (p : Principal) (topics : list string) : result AppError unit :=
  match topics with
  | [] => Ok tt
  | topic :: rest =>
      match topic_scope topic with
      | None => Err (InvalidRequest "unsupported event topic")
      | Some scope =>
          if HasScope p scope then authorizeMeshTopics p rest else Err (PermissionDenied "topic")
      end
  end.

(** ** Pages *)

Definition meshPageLimit (requested maximum : Z) : result AppError Z :=
  if requested =? 0 then Ok maximum
  else if (requested <? 1) || (maximum <? requested) then Err (InvalidRequest "limit")
  else Ok requested.

Definition meshCursor (prefix : string) (revision offset : Z) : string :=
  prefix +:+ "." +:+ FormatUint revision +:+ "." +:+ FormatUint offset.
Definition parseMeshCursor (prefix cursor : string) : result AppError (Z * Z) :=
  match split_on "." cursor with
  | [p; r; o] =>
      if negb (String.eqb p prefix) then Err (InvalidRequest "invalid cursor") else
      match ParseUint 64 r with
      | None | Some 0 => Err (InvalidRequest "invalid cursor revision")
      | Some revision =>
          match ParseUint 31 o with
          | None | Some 0 => Err (InvalidRequest "invalid cursor offset")
          | Some offset => Ok (revision, offset)
          end
      end
  | _ => Err (InvalidRequest "invalid cursor")
  end.

(** The responses that are paged, and what their paging needs of them. *)
Class Paged (R A : Type) := {
  pg_prefix : string;
  pg_epoch : R → string;
  pg_revision : R → Z;
  pg_scopes : R → list string;
  pg_items : R → list A;
  pg_next : R → string;
  pg_page : R → list A → string → R;
  pg_json : R → json }.
#[export] Instance sessions_paged : Paged SessionsPage Summary := {|
  pg_prefix := "s"; pg_epoch := sp_SourceEpoch; pg_revision := sp_SourceRevision;
  pg_scopes := sp_ProfileScopes; pg_items := sp_Sessions; pg_next := sp_NextCursor;
  pg_page r items next := mkSessionsPage (sp_SourceEpoch r) (sp_SourceRevision r) (sp_ProfileScopes r) items next;
  pg_json := json_sessions_page |}.
#[export] Instance artifacts_paged : Paged ArtifactsPage ArtifactReference := {|
  pg_prefix := "a"; pg_epoch := ap_SourceEpoch; pg_revision := ap_SourceRevision;
  pg_scopes _ := []; pg_items := ap_Artifacts; pg_next := ap_NextCursor;
  pg_page r items next := mkArtifactsPage (ap_SourceEpoch r) (ap_SourceRevision r) items next;
  pg_json := json_artifacts_page |}.

Section Building.
Context `{Paged R A}.

(** The result is wrapped as [{"result":…}]. *)
Definition meshResultFits (page : R) : bool := json_len (pg_json page) + 11 <=? meshPageResultBudget.

Definition cursor_after (full : R) (end_ : nat) : string :=
  if (end_ <? length (pg_items full))%nat then meshCursor pg_prefix (pg_revision full) (Z.of_nat end_) else "".
(** The loop over the items from [end_], at most [limit] of them. *)
Fixpoint build_from (full : R) (limit : nat) (todo : list A) (end_ : nat) (page : R) : R * nat :=
  match limit, todo with
  | S limit, item :: rest =>
      let candidate := pg_page full (pg_items page ++ [item]) (cursor_after full (S end_)) in
      if meshResultFits candidate then build_from full limit rest (S end_) candidate else (page, end_)
  | _, _ => (page, end_)
  end.
Definition buildPage (full : R) (offset limit : nat) : result AppError (R * nat) :=
  let page := pg_page full [] "" in
  if (offset =? length (pg_items full))%nat then
    if meshResultFits page then Ok (page, offset) else Err PageTooLarge
  else
    let '(page, end_) := build_from full limit (drop offset (pg_items full)) offset page in
    if (end_ =? offset)%nat then Err PageTooLarge else Ok (page, end_).
End Building.
Definition buildSessionPage : SessionsPage → nat → nat → result AppError (SessionsPage * nat) := buildPage.
Definition buildArtifactPage : ArtifactsPage → nat → nat → result AppError (ArtifactsPage * nat) := buildPage.
