(* ===== verification/MeshWireFacts.v ===== *)
(** What crosses the mesh: cursors can be read back, a view that a receiver
    accepts is bounded, free of control characters and stays below the home
    directory, and what a device publishes is accepted as it is. *)

From S2P Require Import Prelude GoText RuneText GoPath Safetext Session HookState MeshTypes GoJson SessionView WorkFacts.
From S2P Require Import PeerRpc MeshWire.
From stdpp Require Import base gmap strings list sorting.
From Stdlib Require Import ZArith Lia Ascii.

Open Scope Z_scope.

(** ** Cursors *)

Lemma digits_no_dot s : all_chars is_digit s = true → contains_any (char_is ".") s = false.
Proof.
  induction s as [|c s IH]; [done|]. cbn [all_chars]. intros [Hc Hs]%andb_true_iff.
  rewrite contains_any_cons, IH, orb_false_r by done. unfold char_is.
  destruct (Ascii.eqb_spec "." c) as [<-|]; [by vm_compute in Hc|done].
Qed.
Lemma FormatUint_no_dot n : 0 ≤ n → contains_any (char_is ".") (FormatUint n) = false.
Proof. intros Hn. by apply digits_no_dot, all_digits_format. Qed.

Lemma parse_meshCursor prefix r o :
  contains_any (char_is ".") prefix = false → 0 < r ≤ u64_max → 0 < o < 2147483648 →
  parseMeshCursor prefix (meshCursor prefix r o) = Ok (r, o).
Proof.
  intros Hp Hr Ho. unfold parseMeshCursor, meshCursor.
  change (prefix +:+ "." +:+ FormatUint r +:+ "." +:+ FormatUint o) with
    (prefix +:+ String "." (FormatUint r +:+ String "." (FormatUint o))).
  rewrite !split_on_app, split_on_single by (done || apply FormatUint_no_dot; lia).
  rewrite String.eqb_refl. cbn [negb].
  rewrite !ParseUint_FormatUint by (unfold u64_max in *; change (2 ^ 64) with 18446744073709551616;
    change (2 ^ 31) with 2147483648; lia).
  destruct r, o; try lia. done.
Qed.

(** ** Texts *)

Definition clean_rune (r : Z) : bool := negb (is_control r || (r =? rune_error)).

Lemma list_filter_stdpp {A} (p : A → bool) l : List.filter p l = filter (λ x, p x = true) l.
Proof.
  induction l as [|x l IH]; [done|]. cbn [List.filter]. rewrite filter_cons. destruct (p x) eqn:Hp.
  - by rewrite decide_True, IH by done.
  - by rewrite decide_False, IH by done.
Qed.
Lemma clean_text_runes v n :
  runes (meshCleanText v n) = boundText (filter (λ r, clean_rune r = true) (runes v)) n.
Proof.
  unfold meshCleanText. rewrite (list_filter_stdpp clean_rune). apply runes_of_string.
  assert (Forall valid_rune (filter (λ r, clean_rune r = true) (runes v))) as H by apply filter_Forall, runes_valid.
  unfold boundText. destruct (_ <=? _)%nat; [done|by apply Forall_take].
Qed.
(** Texts that cleaning leaves alone. *)
Definition clean_text (n : nat) (s : string) : Prop :=
  s = runes_string (runes s) ∧ (length (runes s) <= n)%nat ∧ Forall (λ r, clean_rune r = true) (runes s).
Lemma clean_text_spec v n : clean_text n (meshCleanText v n).
Proof.
  unfold clean_text. rewrite clean_text_runes. split_and!.
  - unfold meshCleanText. by rewrite (list_filter_stdpp clean_rune).
  - apply boundText_prefix.
  - destruct (boundText_prefix (filter (λ r, clean_rune r = true) (runes v)) n) as [[k Hk] _].
    assert (Forall (λ r, clean_rune r = true) (filter (λ r, clean_rune r = true) (runes v))) as H.
    { apply Forall_forall. intros r Hr. by apply list_elem_of_filter in Hr as [? _]. }
    apply (Forall_app _ _ k). by rewrite <- Hk.
Qed.
Lemma filter_all (p : Z → bool) l : Forall (λ r, p r = true) l → filter (λ r, p r = true) l = l.
Proof. induction 1 as [|r l Hr _ IH]; [done|]. by rewrite filter_cons, decide_True, IH by done. Qed.
Lemma clean_text_id n s : clean_text n s → meshCleanText s n = s.
Proof.
  intros (Hs & Hl & Hc). unfold meshCleanText. rewrite (list_filter_stdpp clean_rune), filter_all by done.
  unfold boundText. by rewrite (proj2 (Nat.leb_le _ _) Hl).
Qed.
Lemma clean_text_twice v n : meshCleanText (meshCleanText v n) n = meshCleanText v n.
Proof. apply clean_text_id, clean_text_spec. Qed.
Lemma clean_text_empty n : clean_text n "".
Proof. split_and!; [done|simpl; lia|constructor]. Qed.

(** ** Current work is stable under a second cleaning *)

Lemma squeeze_idemp l : squeeze (squeeze l) = squeeze l.
Proof. unfold squeeze at 1. unfold squeeze. by rewrite Fields_join by apply Fields_words. Qed.
Lemma join_words_length ws : (length (join_words ws) <= sum_list_with (λ w, length w + 1) ws - 1)%nat.
Proof.
  induction ws as [|w ws IH]; [done|]. destruct ws as [|w' ws]; [simpl; lia|].
  rewrite join_words_cons by done. rewrite length_app. cbn [length sum_list_with] in *. lia.
Qed.
Lemma fields_length w l :
  (sum_list_with (λ w, length w + 1) (fields_from w l) <= length w + length l + 1)%nat.
Proof.
  revert w. induction l as [|c l IH]; intros w; cbn [fields_from].
  - destruct w; simpl; [lia|]. rewrite length_app, length_rev. simpl. lia.
  - destruct (is_space c); [|specialize (IH (c :: w)); simpl in *; lia].
    destruct w as [|x w]; [specialize (IH []); simpl in *; lia|].
    cbn [sum_list_with]. specialize (IH []). rewrite length_rev. simpl in *. lia.
Qed.
Lemma squeeze_length l : (length (squeeze l) <= length l)%nat.
Proof.
  pose proof (join_words_length (Fields l)). pose proof (fields_length [] l) as Hf. unfold squeeze, Fields in *.
  simpl in Hf. lia.
Qed.

Lemma visible_control l : Forall (λ r, 32 ≤ r) (cleanControlText (squeeze l)).
Proof.
  apply Forall_forall. intros r Hr. unfold cleanControlText in Hr. apply list_elem_of_filter in Hr as [Hp Hr].
  apply squeeze_one_line in Hr as [->|Hr]; [lia|]. apply orb_true_iff in Hp as [Hp|Hp]; [|by apply Z.leb_le].
  by apply orb_true_iff in Hp as [->%Z.eqb_eq| ->%Z.eqb_eq].
Qed.

(** A line that was normalised twice is left alone by a third time: the first
    pass may cut it behind a blank or drop a control character between blanks. *)
Lemma normalize_stable c c1 c2 :
  NormalizeCurrentWork c = Ok c1 → NormalizeCurrentWork c1 = Ok c2 → NormalizeCurrentWork c2 = Ok c2.
Proof.
  unfold NormalizeCurrentWork. destruct (negb _) eqn:Hprov; [done|]. destruct (IsZero (cw_UpdatedAt c)) eqn:Hz; [done|].
  destruct (_ || _); [done|]. set (x := boundText (cleanControlText (squeeze (runes (cw_Summary c)))) maxCurrentWorkRunes).
  destruct (bool_decide _); [done|]. intros [= <-]. cbn [cw_Provenance cw_UpdatedAt cw_Summary].
  rewrite Hprov, IsZero_UTC, Hz.
  assert (x `prefix_of` cleanControlText (squeeze (runes (cw_Summary c))) ∧ (length x <= maxCurrentWorkRunes)%nat)
    as [[k Hk] Hlen] by apply boundText_prefix.
  assert (Forall valid_rune x) as Hv.
  { apply (Forall_app _ x k). rewrite <- Hk. apply cleanControl_valid, squeeze_valid, runes_valid. }
  assert (Forall (λ r, 32 ≤ r) x) as Hx.
  { apply (Forall_app _ x k). rewrite <- Hk. apply visible_control. }
  rewrite runes_of_string by done.
  assert (cleanControlText (squeeze x) = squeeze x) as Hctl by (apply cleanControl_id, squeeze_runes; [lia|done]).
  rewrite Hctl. assert (boundText (squeeze x) maxCurrentWorkRunes = squeeze x) as Hb.
  { unfold boundText. pose proof (squeeze_length x). by rewrite (proj2 (Nat.leb_le _ _)) by lia. }
  rewrite Hb. destruct (ContainsCredentialLike (squeeze x)) eqn:Hcred; [done|]. cbn [orb].
  destruct (bool_decide (TrimSpace (squeeze x) = [])) eqn:Hne; [done|]. intros [= <-].
  cbn [cw_Provenance cw_UpdatedAt cw_Summary]. rewrite Hprov, IsZero_UTC, IsZero_UTC, Hz.
  rewrite runes_of_string by (apply squeeze_valid; exact Hv). by rewrite squeeze_idemp, Hctl, Hb, Hcred, Hne.
Qed.

(** ** Cleaning a path only drops runes *)

Lemma decode_runes_split l b m :
  0 ≤ b < 128 → decode_runes (l ++ b :: m) = decode_runes l ++ b :: decode_runes m.
Proof.
  intros Hb. assert (cont b = false ∧ (∀ b0, second_ok3 b0 b = false) ∧ (∀ b0, second_ok4 b0 b = false)) as (H1 & H3 & H4).
  { assert (∀ lo hi, 128 ≤ lo → in_range lo hi b = false) as Hr.
    { intros lo hi Hlo. unfold in_range. by rewrite (proj2 (Z.leb_gt lo b)) by lia. }
    unfold cont, second_ok3, second_ok4. split_and!; [by apply Hr|intros b0..].
    - destruct (b0 =? 224); [by apply Hr|]. destruct (b0 =? 237); [by apply Hr|]. unfold cont. by rewrite Hr, andb_false_r.
    - destruct (b0 =? 240); [by apply Hr|]. destruct (b0 =? 244); [by apply Hr|]. unfold cont. by rewrite Hr, andb_false_r. }
  assert (decode_runes (b :: m) = b :: decode_runes m) as Hb1.
  { cbn [decode_runes]. by rewrite (proj2 (Z.ltb_lt b 128)) by lia. }
  induction l as [l IH] using (induction_ltof1 _ length). unfold ltof in IH.
  destruct l as [|b0 l1]; [exact Hb1|]. cbn [app]. cbn [decode_runes].
  assert (decode_runes (l1 ++ b :: m) = decode_runes l1 ++ b :: decode_runes m) as IH1 by (apply IH; simpl; lia).
  destruct (b0 <? 128); [by rewrite IH1|].
  destruct l1 as [|b1 l2]; cbn [app].
  { rewrite H1, andb_false_r. cbn [app] in IH1. destruct m as [|b2 m]; [by rewrite IH1|].
    rewrite H3, andb_false_r. cbn [andb]. destruct m as [|b3 m]; [by rewrite IH1|].
    by rewrite H4, andb_false_r, IH1. }
  assert (decode_runes (l2 ++ b :: m) = decode_runes l2 ++ b :: decode_runes m) as IH2 by (apply IH; simpl; lia).
  destruct (_ && cont b1); [by rewrite IH2|]. cbn [app] in IH1.
  destruct l2 as [|b2 l3]; cbn [app] in *.
  { rewrite H1, andb_false_r. destruct m as [|b3 m]; [by rewrite IH1|].
    by rewrite andb_false_r, IH1. }
  assert (decode_runes (l3 ++ b :: m) = decode_runes l3 ++ b :: decode_runes m) as IH3 by (apply IH; simpl; lia).
  destruct (_ && cont b2); [by rewrite IH3|].
  destruct l3 as [|b3 l4]; cbn [app] in *; [by rewrite H1, andb_false_r, IH1|].
  destruct (_ && cont b3); [|by rewrite IH1]. rewrite IH; [done|simpl; lia].
Qed.

Section Weight.
Context (f : Z → Z) (Hf : ∀ r, 0 ≤ f r).

Definition weight (s : string) : Z := sum_z (f <$> runes s).
Lemma sum_z_cons x l : sum_z (x :: l) = x + sum_z l.
Proof. done. Qed.
Lemma sum_z_app l k : sum_z (l ++ k) = sum_z l + sum_z k.
Proof. induction l as [|x l IH]; [done|]. cbn [app]. rewrite !sum_z_cons, IH. lia. Qed.
Lemma sum_z_pos l : 0 ≤ sum_z (f <$> l).
Proof. induction l as [|x l IH]; [done|]. rewrite fmap_cons, sum_z_cons. specialize (Hf x). lia. Qed.
Lemma weight_slash a b : weight (a +:+ String "/" b) = weight a + f 47 + weight b.
Proof.
  unfold weight, runes. rewrite str_bytes_app. cbn [str_bytes]. change (byte_val "/") with 47.
  rewrite decode_runes_split, fmap_app, sum_z_app, fmap_cons, sum_z_cons by lia. lia.
Qed.
(** Parts, each with the slash before it. *)
Definition parts_weight (l : list string) : Z := sum_z ((λ p, f 47 + weight p) <$> l).
Lemma parts_app l k : parts_weight (l ++ k) = parts_weight l + parts_weight k.
Proof. unfold parts_weight. by rewrite fmap_app, sum_z_app. Qed.
Lemma parts_rev l : parts_weight (rev l) = parts_weight l.
Proof.
  induction l as [|p l IH]; [done|]. cbn [rev]. rewrite parts_app, IH. unfold parts_weight.
  rewrite !fmap_cons, !sum_z_cons. simpl. lia.
Qed.
Lemma parts_cons p l : parts_weight (p :: l) = f 47 + weight p + parts_weight l.
Proof. unfold parts_weight. by rewrite fmap_cons, sum_z_cons. Qed.
Lemma weight_join p l : weight (join_slash (p :: l)) = weight p + parts_weight l.
Proof.
  revert p. induction l as [|q l IH]; intros p; [change (parts_weight []) with 0; change (join_slash [p]) with p; lia|].
  change (join_slash (p :: q :: l)) with (p +:+ String "/" (join_slash (q :: l))).
  rewrite weight_slash, IH, parts_cons. lia.
Qed.
Lemma join_split s : join_slash (split_on "/" s) = s.
Proof.
  induction s as [|c s IH]; [done|]. cbn [split_on]. destruct (Ascii.eqb_spec c "/") as [->|Hc].
  - destruct (split_on "/" s) as [|q l] eqn:Hs; [by destruct s as [|c' s']; [|cbn [split_on] in Hs; destruct (Ascii.eqb _ _), (split_on _ s')]|].
    change (join_slash ("" :: q :: l)) with (String "/" (join_slash (q :: l))). by rewrite IH.
  - destruct (split_on "/" s) as [|q l] eqn:Hs; [simpl in *; by subst s|].
    destruct l as [|q' l]; simpl in *; by rewrite <- IH.
Qed.
Lemma parts_split s : parts_weight (split_on "/" s) = f 47 + weight s.
Proof.
  destruct (split_on "/" s) as [|p l] eqn:Hs.
  - destruct s as [|c s]; [done|]. cbn [split_on] in Hs. by destruct (Ascii.eqb _ _), (split_on _ s).
  - rewrite <- (join_split s), Hs, weight_join, parts_cons. lia.
Qed.
Lemma parts_pos l : 0 ≤ parts_weight l.
Proof.
  induction l as [|p l IH]; [done|]. rewrite parts_cons. pose proof (Hf 47). pose proof (sum_z_pos (runes p)).
  unfold weight. lia.
Qed.
Lemma clean_parts_weight rooted out parts :
  parts_weight (clean_elements rooted out parts) ≤ parts_weight out + parts_weight parts.
Proof.
  revert out. induction parts as [|p parts IH]; intros out; cbn [clean_elements].
  { rewrite parts_rev. change (parts_weight []) with 0. lia. }
  rewrite parts_cons. assert (0 ≤ f 47 + weight p) as Hp.
  { pose proof (Hf 47). pose proof (sum_z_pos (runes p)). unfold weight. lia. }
  destruct (_ || _); [specialize (IH out); lia|]. destruct (String.eqb p "..").
  - destruct out as [|q out].
    + destruct rooted; [specialize (IH []); lia|]. specialize (IH [p]). rewrite parts_cons in IH. lia.
    + destruct (String.eqb q "..").
      * specialize (IH (p :: q :: out)). rewrite !parts_cons in IH. rewrite !parts_cons. lia.
      * specialize (IH out). rewrite parts_cons. pose proof (Hf 47). pose proof (sum_z_pos (runes q)).
        unfold weight in *. lia.
  - specialize (IH (p :: out)). rewrite parts_cons in IH. lia.
Qed.
Lemma weight_below root rest :
  weight (below root (path_elements rest)) ≤ weight (root +:+ String "/" rest).
Proof.
  unfold below. rewrite weight_join, weight_slash. pose proof (clean_parts_weight (IsAbs rest) [] (split_on "/" rest)) as H.
  rewrite parts_split in H. change (parts_weight []) with 0 in H. unfold path_elements. lia.
Qed.
End Weight.

(** ** Lengths of encoded values *)

Lemma str_len_app a b : str_len (a +:+ b) = str_len a + str_len b.
Proof. unfold str_len. rewrite <- !str_bytes_length, str_bytes_app, length_app. lia. Qed.
Lemma str_len_cons c s : str_len (String c s) = 1 + str_len s.
Proof. unfold str_len. cbn [String.length]. lia. Qed.

Lemma json_rune_len_bound r : 0 < json_rune_len r ≤ 6.
Proof.
  unfold json_rune_len. destruct (bool_decide _); [lia|]. destruct (_ || _); [lia|].
  unfold utf8_len, encode_rune. repeat case_match; simpl; lia.
Qed.
Lemma weight_bound (f : Z → Z) m s : (∀ r, f r ≤ m) → 0 ≤ m → weight f s ≤ m * Z.of_nat (length (runes s)).
Proof.
  intros Hf Hm. unfold weight. induction (runes s) as [|r l IH]; [simpl; lia|].
  rewrite fmap_cons, sum_z_cons. cbn [length]. specialize (Hf r). lia.
Qed.
Lemma json_string_bound n s : clean_text n s → json_string_len s ≤ 2 + 6 * Z.of_nat n.
Proof.
  intros (_ & Hl & _). unfold json_string_len. fold (weight json_rune_len s).
  pose proof (weight_bound json_rune_len 6 s (λ r, proj2 (json_rune_len_bound r)) ltac:(lia)). lia.
Qed.

(** Characters that stand for themselves. *)
Definition plain_char (c : ascii) : bool := is_alnum c || is_id_punct c || char_is ":" c.
Lemma plain_char_len c : plain_char c = true → 0 ≤ byte_val c < 128 ∧ json_rune_len (byte_val c) = 1.
Proof. destruct c as [[] [] [] [] [] [] [] []]; vm_compute; intros H; split_and!; done. Qed.
Lemma plain_string_len s : all_chars plain_char s = true → json_string_len s = 2 + str_len s.
Proof.
  intros Hs. assert (ascii_text s ∧ sum_z (json_rune_len <$> str_bytes s) = str_len s) as [Ha Hl].
  { induction s as [|c s IH]; [by repeat constructor|]. cbn [all_chars] in Hs. apply andb_true_iff in Hs as [Hc Hs].
    destruct (plain_char_len c Hc) as [Hb Hw]. destruct (IH Hs) as [Ha Hl]. cbn [str_bytes].
    rewrite fmap_cons, sum_z_cons, str_len_cons, Hw, Hl. split; [by constructor|done]. }
  unfold json_string_len. rewrite runes_ascii by done. lia.
Qed.

Lemma digit_plain n : 0 ≤ n < 10 → plain_char (digit n) = true.
Proof. intros Hn. destruct (byte_val_digit n Hn) as [_ Hd]. unfold plain_char, is_alnum. by rewrite Hd. Qed.
Lemma pad2_plain n : all_chars plain_char (pad2 n) = true.
Proof. unfold pad2. cbn [all_chars]. by rewrite !digit_plain by dlia. Qed.
Lemma pad2_len n : str_len (pad2 n) = 2.
Proof. done. Qed.
Lemma pad4_plain n : all_chars plain_char (pad4 n) = true.
Proof. unfold pad4. by rewrite all_chars_app, !pad2_plain. Qed.
Lemma pad4_len n : str_len (pad4 n) = 4.
Proof. unfold pad4. by rewrite str_len_app, !pad2_len. Qed.
Lemma fraction_plain places n :
  0 ≤ n < 10 ^ Z.of_nat places → all_chars plain_char (fraction places n) = true ∧ str_len (fraction places n) ≤ Z.of_nat places.
Proof.
  revert n. induction places as [|p IH]; intros n Hn; [done|]. cbn [fraction].
  destruct (n =? 0); [split; [done|change (str_len "") with 0; lia]|]. rewrite Nat2Z.inj_succ, Z.pow_succ_r in Hn by lia.
  assert (0 < 10 ^ Z.of_nat p) as Hp by (apply Z.pow_pos_nonneg; lia).
  destruct (IH (n mod 10 ^ Z.of_nat p)) as [Hc Hl]; [apply Z.mod_pos_bound; lia|].
  rewrite str_len_cons. cbn [all_chars]. rewrite digit_plain, Hc; [split; [done|lia]|].
  split; [apply Z.div_pos; lia|apply Z.div_lt_upper_bound; lia].
Qed.
Lemma rfc3339_plain t : all_chars plain_char (rfc3339 t) = true ∧ str_len (rfc3339 t) ≤ 30.
Proof.
  unfold rfc3339. destruct (year_day _) as [y yday]. destruct (month_day _ _ _) as [m day].
  assert (∀ b : bool, let s := if b then "" else String "." (fraction 9 (t_ns t mod 1000000000)) in
    all_chars plain_char s = true ∧ str_len s ≤ 10) as Hfrac.
  { intros [|]; [done|]. destruct (fraction_plain 9 (t_ns t mod 1000000000)) as [Hc Hl].
    { change (10 ^ Z.of_nat 9) with 1000000000. apply Z.mod_pos_bound. lia. }
    cbn [all_chars]. rewrite str_len_cons, Hc. split; [done|lia]. }
  destruct (Hfrac (t_ns t mod 1000000000 =? 0)) as [Hc Hl]. rewrite !all_chars_app, !str_len_app, Hc.
  rewrite !pad2_plain, !pad4_plain, !pad2_len, !pad4_len.
  split; [done|]. change (str_len "-") with 1. change (str_len "T") with 1. change (str_len ":") with 1.
  change (str_len "Z") with 1. lia.
Qed.
Lemma json_time_bound t : json_len (json_time t) ≤ 32.
Proof. destruct (rfc3339_plain t) as [Hc Hl]. cbn [json_time json_len]. rewrite plain_string_len by done. lia. Qed.

Lemma slug_plain s : slug_matches s = true → all_chars plain_char s = true ∧ str_len s ≤ 63.
Proof.
  assert (∀ c, is_lc_alnum c || char_is "_" c || char_is "-" c = true → plain_char c = true) as Himp.
  { intros c. unfold plain_char, is_alnum, is_lc_alnum, is_id_punct. rewrite !orb_true_iff. tauto. }
  destruct s as [|c s]; [done|]. unfold slug_matches. intros [Hc Hs]%andb_true_iff.
  assert (plain_char c = true) as Hc' by (apply Himp; by rewrite Hc).
  cbn [all_chars]. rewrite str_len_cons, Hc'. destruct (last_char s) as [z|] eqn:Hz.
  - rewrite !andb_true_iff in Hs. destruct Hs as [[_ Hl] Hall]. unfold len_between, in_range in Hl.
    split; [|lia]. by apply (all_chars_impl _ _ _ Himp).
  - destruct s as [|d s]; [split; [done|change (str_len "") with 0; lia]|]. exfalso. clear -Hz. revert d Hz.
    induction s as [|e s IH]; intros d Hz; [done|]. by apply (IH e).
Qed.
Lemma scope_plain s : ProfileScope_Validate s = Ok tt → all_chars plain_char s = true ∧ str_len s ≤ 71.
Proof.
  unfold ProfileScope_Validate. destruct (String.eqb_spec s RootProfileScope) as [->|_]; [done|].
  intros Hs%guard_err_ok. apply bool_decide_eq_true in Hs. destruct Hs as [name Hn]. unfold ProfileName in Hn.
  destruct (cut_prefix "profile:" s) as [slug|] eqn:Hcut; [|done]. destruct (slug_matches slug) eqn:Hm; [|done].
  apply cut_prefix_spec in Hcut as ->. destruct (slug_plain _ Hm) as [Hc Hl].
  rewrite all_chars_app, str_len_app, Hc. split; [done|]. change (str_len "profile:") with 8. lia.
Qed.
Lemma session_id_plain s : sessionIDPattern s = true → all_chars plain_char s = true ∧ str_len s ≤ 256.
Proof.
  destruct s as [|c s]; [done|]. unfold sessionIDPattern, head_tail. rewrite !andb_true_iff. intros [[Hc Hs] Hl].
  unfold len_between, in_range in Hl. rewrite str_len_cons. cbn [all_chars]. split; [|lia].
  apply andb_true_iff. split; [unfold plain_char; by rewrite Hc|exact Hs].
Qed.
Lemma json_locator_bound l : Locator_Validate l = Ok tt → json_len (json_locator l) ≤ 375.
Proof.
  unfold Locator_Validate. intros ([] & Hv & ([] & Hs & Hid)%result_bind_ok)%result_bind_ok.
  apply guard_err_ok, Z.eqb_eq in Hv. apply guard_err_ok in Hid.
  destruct (scope_plain _ Hs) as [H1 H2], (session_id_plain _ Hid) as [H3 H4].
  unfold json_locator. rewrite Hv. cbn [json_len fmap list_fmap]. rewrite !sum_z_cons.
  rewrite !(plain_string_len (lc_ProfileScope l)), (plain_string_len (lc_SessionID l)) by done.
  change (brackets_len _) with 4. change (json_string_len "version") with 9.
  change (json_string_len "profile_scope") with 15. change (json_string_len "session_id") with 12.
  change (json_len (json_uint LocatorVersion)) with 1. change (sum_z []) with 0. lia.
Qed.

Definition members_len (ms : list (string * json)) : Z :=
  sum_z ((λ m, json_string_len m.1 + 2 + json_len m.2) <$> ms).
Lemma members_app a b : members_len (a ++ b) = members_len a + members_len b.
Proof. unfold members_len. by rewrite fmap_app, sum_z_app. Qed.
Lemma object_bound ms : json_len (JObject ms) ≤ 2 + members_len ms.
Proof.
  cbn [json_len]. assert (sum_z ((λ m : string * json, let '(k, v) := m in json_string_len k + 1 + json_len v) <$> ms)
    = members_len ms - Z.of_nat (length ms)) as ->.
  { induction ms as [|[k v] ms IH]; [done|]. unfold members_len in *. rewrite !fmap_cons, !sum_z_cons, IH.
    cbn [length fst snd]. lia. }
  unfold brackets_len. lia.
Qed.
Lemma member_len k v : members_len (member k v) = json_string_len k + 2 + json_len v.
Proof. unfold members_len, member. rewrite fmap_cons, sum_z_cons. simpl. lia. Qed.
Lemma json_string_pos s : 2 ≤ json_string_len s.
Proof.
  unfold json_string_len. pose proof (sum_z_pos json_rune_len (λ r, Z.lt_le_incl _ _ (proj1 (json_rune_len_bound r))) (runes s)).
  lia.
Qed.
Lemma omit_empty_len k v : members_len (omit_empty k v) ≤ json_string_len k + 2 + json_string_len v.
Proof.
  unfold omit_empty. pose proof (json_string_pos k). pose proof (json_string_pos v). destruct (String.eqb v "").
  - change (members_len []) with 0. lia.
  - fold (member k (JString v)). rewrite member_len. cbn [json_len]. lia.
Qed.
Lemma omit_nil_len {A} k (f : A → json) v b :
  0 ≤ b → (∀ a, v = Some a → json_len (f a) ≤ b) → members_len (omit_nil k f v) ≤ json_string_len k + 2 + b.
Proof.
  intros Hb Hf. pose proof (json_string_pos k). destruct v as [a|]; cbn [omit_nil].
  - fold (member k (f a)). rewrite member_len. specialize (Hf a eq_refl). lia.
  - change (members_len []) with 0. lia.
Qed.

(** ** Views that cross the mesh *)

(** A current-work line that a normalisation has produced. *)
Definition normalized (c : CurrentWorkSummary) : Prop := ∃ c0, NormalizeCurrentWork c0 = Ok c.
Record wire_summary (now : Time) (s : Summary) : Prop := {
  ws_locator : Locator_Validate (sm_Locator s) = Ok tt;
  ws_name : clean_text 128 (sm_Name s);
  ws_agent : clean_text 128 (sm_Agent s);
  ws_transport : clean_text 128 (sm_Transport s);
  ws_cwd : weight json_rune_len (sm_LaunchCWD s) ≤ 24576;
  ws_cwd_clean : weight (λ r, if clean_rune r then 0 else 1) (sm_LaunchCWD s) = 0;
  ws_owner : clean_text 256 (sm_OwnerID s);
  ws_state : clean_text 128 (sm_State s);
  ws_health : clean_text 128 (sm_Health s);
  ws_required : blank (sm_Agent s) = false ∧ blank (sm_State s) = false;
  ws_work : ∀ c, sm_CurrentWork s = Some c → normalized c;
  ws_hidden : sm_Work s = None ∧ sm_History s = None;
  ws_times : Forall (λ t, validateMeshTimestamp t now = true) (summary_times s (sm_CurrentWork s)) }.

Lemma normalized_line c :
  normalized c → cw_Provenance c = OverallGoalSummarizerProvenance ∧ (length (runes (cw_Summary c)) <= 240)%nat.
Proof.
  intros [c0 H]. unfold NormalizeCurrentWork in H. destruct (negb _) eqn:Hp; [done|]. destruct (IsZero _); [done|].
  destruct (_ || _); [done|]. destruct (bool_decide _); [done|]. injection H as <-. cbn [cw_Provenance cw_Summary].
  apply negb_false_iff, String.eqb_eq in Hp. split; [exact Hp|]. pose proof (boundText_prefix
    (cleanControlText (squeeze (runes (cw_Summary c0)))) maxCurrentWorkRunes) as [[k Hk] Hl].
  rewrite runes_of_string; [exact Hl|]. apply (Forall_app _ _ k). rewrite <- Hk.
  apply cleanControl_valid, squeeze_valid, runes_valid.
Qed.
Lemma json_current_work_bound c : normalized c → json_len (json_current_work c) ≤ 1548.
Proof.
  intros [Hp Hl]%normalized_line. unfold json_current_work. etransitivity; [apply object_bound|].
  unfold members_len. rewrite !fmap_cons, !sum_z_cons. cbn [fst snd]. rewrite Hp. pose proof (json_time_bound (cw_UpdatedAt c)).
  change (json_string_len "summary") with 9. change (json_string_len "provenance") with 12.
  change (json_string_len "updated_at") with 12. change (json_len (JString OverallGoalSummarizerProvenance)) with 33.
  cbn [json_len]. unfold json_string_len. fold (weight json_rune_len (cw_Summary c)).
  pose proof (weight_bound json_rune_len 6 (cw_Summary c) (λ r, proj2 (json_rune_len_bound r)) ltac:(lia)).
  change (sum_z (_ <$> [])) with 0. lia.
Qed.

Lemma json_len_string s : json_len (JString s) = json_string_len s.
Proof. done. Qed.
Lemma json_summary_bound now s : wire_summary now s → json_len (json_summary s) ≤ 32400.
Proof.
  intros [Hloc Hname Hagent Htr Hcwd _ Hown Hst Hhe _ Hwork _ _]. unfold json_summary.
  etransitivity; [apply object_bound|]. rewrite !members_app, !member_len, !json_len_string.
  apply json_string_bound in Hname, Hagent, Htr, Hown, Hst, Hhe.
  pose proof (json_locator_bound _ Hloc). pose proof (json_time_bound (sm_StartedAt s)).
  pose proof (json_time_bound (sm_LastActivityAt s)).
  pose proof (omit_empty_len "name" (sm_Name s)). pose proof (omit_empty_len "transport" (sm_Transport s)).
  pose proof (omit_empty_len "launch_cwd" (sm_LaunchCWD s)). pose proof (omit_empty_len "owner_id" (sm_OwnerID s)).
  pose proof (omit_empty_len "health" (sm_Health s)).
  pose proof (omit_nil_len "idle_since" json_time (sm_IdleSince s) 32 ltac:(lia) (λ a _, json_time_bound a)).
  pose proof (omit_nil_len "working_since" json_time (sm_WorkingSince s) 32 ltac:(lia) (λ a _, json_time_bound a)).
  pose proof (omit_nil_len "current_work" json_current_work (sm_CurrentWork s) 1548 ltac:(lia)
    (λ a Ha, json_current_work_bound a (Hwork a Ha))).
  assert (json_len (JObject [("observed_at", json_time (sm_ObservedAt s));
                             ("source_updated_at", json_time (sm_SourceUpdatedAt s))]) ≤ 102) as Hf.
  { etransitivity; [apply object_bound|]. unfold members_len. rewrite !fmap_cons, !sum_z_cons. cbn [fst snd].
    change (json_string_len "observed_at") with 13. change (json_string_len "source_updated_at") with 19.
    pose proof (json_time_bound (sm_ObservedAt s)). pose proof (json_time_bound (sm_SourceUpdatedAt s)).
    change (sum_z (_ <$> [])) with 0. lia. }
  assert (json_string_len (sm_LaunchCWD s) ≤ 24578) by (unfold json_string_len, weight in *; lia).
  change (json_string_len "locator") with 9. change (json_string_len "name") with 6 in *.
  change (json_string_len "agent") with 7. change (json_string_len "transport") with 11 in *.
  change (json_string_len "launch_cwd") with 12 in *. change (json_string_len "owner_id") with 10 in *.
  change (json_string_len "state") with 7. change (json_string_len "health") with 8 in *.
  change (json_string_len "started_at") with 12. change (json_string_len "last_activity_at") with 18.
  change (json_string_len "idle_since") with 12 in *. change (json_string_len "working_since") with 15 in *.
  change (json_string_len "current_work") with 14 in *. change (json_string_len "freshness") with 11.
  lia.
Qed.

(** What indenting adds to a value: line breaks with their indentation, and the
    spaces after colons. *)
Fixpoint padding (depth : Z) (j : json) : Z :=
  match j with
  | JArray items => lines_len (length items) depth + sum_z (padding (depth + 1) <$> items)
  | JObject members =>
      lines_len (length members) depth +
      sum_z ((λ m, let '(_, v) := m in 1 + padding (depth + 1) v) <$> members)
  | _ => 0
  end.
Lemma padding_pos : ∀ j depth, 0 ≤ depth → 0 ≤ padding depth j.
Proof.
  fix IH 1. intros [| [] |n|s|items|members] depth Hd; cbn [padding]; try lia;
    unfold lines_len, line_len.
  - assert (0 ≤ sum_z (padding (depth + 1) <$> items)); [|destruct items; cbn [length]; lia].
    induction items as [|j items IHl]; [done|]. rewrite fmap_cons, sum_z_cons.
    pose proof (IH j (depth + 1) ltac:(lia)). lia.
  - assert (0 ≤ sum_z ((λ m : string * json, let '(_, v) := m in 1 + padding (depth + 1) v) <$> members));
      [|destruct members; cbn [length]; lia].
    induction members as [|[k v] members IHl]; [done|]. rewrite fmap_cons, sum_z_cons.
    pose proof (IH v (depth + 1) ltac:(lia)). lia.
Qed.
Lemma json_indented_padding : ∀ j depth, json_indented_len depth j = json_len j + padding depth j.
Proof.
  fix IH 1. intros [| [] |n|s|items|members] depth; cbn [json_indented_len json_len padding]; try lia.
  - assert (sum_z (json_indented_len (depth + 1) <$> items) =
      sum_z (json_len <$> items) + sum_z (padding (depth + 1) <$> items)); [|lia].
    induction items as [|j items IHl]; [done|]. rewrite !fmap_cons, !sum_z_cons, IHl, (IH j). lia.
  - assert (sum_z ((λ m : string * json, let '(k, v) := m in
        json_string_len k + 2 + json_indented_len (depth + 1) v) <$> members) =
      sum_z ((λ m : string * json, let '(k, v) := m in json_string_len k + 1 + json_len v) <$> members) +
      sum_z ((λ m : string * json, let '(_, v) := m in 1 + padding (depth + 1) v) <$> members)); [|lia].
    induction members as [|[k v] members IHl]; [done|]. rewrite !fmap_cons, !sum_z_cons, IHl, (IH v). lia.
Qed.

(** The padding of the members of the metadata object, one level in. *)
Definition members_padding (ms : list (string * json)) : Z := sum_z ((λ m, 6 + padding 2 m.2) <$> ms).
Lemma members_padding_app a b : members_padding (a ++ b) = members_padding a + members_padding b.
Proof. unfold members_padding. by rewrite fmap_app, sum_z_app. Qed.
Lemma member_padding k v : members_padding (member k v) = 6 + padding 2 v.
Proof. unfold members_padding, member. rewrite fmap_cons, sum_z_cons. change (sum_z (_ <$> [])) with 0. simpl. lia. Qed.
Lemma omit_empty_padding k v : members_padding (omit_empty k v) ≤ 6.
Proof. unfold omit_empty. by destruct (String.eqb v ""). Qed.
Lemma omit_nil_padding {A} k (f : A → json) v b :
  0 ≤ b → (∀ a, padding 2 (f a) ≤ b) → members_padding (omit_nil k f v) ≤ 6 + b.
Proof.
  intros Hb Hf. destruct v as [a|]; cbn [omit_nil].
  - fold (member k (f a)). rewrite member_padding. specialize (Hf a). lia.
  - change (members_padding []) with 0. lia.
Qed.
Lemma object_padding ms : padding 1 (JObject ms) ≤ 3 + members_padding ms.
Proof.
  cbn [padding]. assert (sum_z ((λ m : string * json, let '(_, v) := m in 1 + padding (1 + 1) v) <$> ms) =
    members_padding ms - 5 * Z.of_nat (length ms)) as ->.
  { induction ms as [|[k v] ms IH]; [done|]. unfold members_padding in *. rewrite !fmap_cons, !sum_z_cons, IH.
    cbn [length snd]. replace (1 + 1) with 2 by done. lia. }
  unfold lines_len, line_len. destruct ms; cbn [length]; lia.
Qed.
Lemma json_summary_padding s : padding 1 (json_summary s) ≤ 200.
Proof.
  unfold json_summary. etransitivity; [apply object_padding|].
  rewrite !members_padding_app, !member_padding.
  pose proof (omit_empty_padding "name" (sm_Name s)). pose proof (omit_empty_padding "transport" (sm_Transport s)).
  pose proof (omit_empty_padding "launch_cwd" (sm_LaunchCWD s)).
  pose proof (omit_empty_padding "owner_id" (sm_OwnerID s)). pose proof (omit_empty_padding "health" (sm_Health s)).
  pose proof (omit_nil_padding "idle_since" json_time (sm_IdleSince s) 0 ltac:(lia) (λ a, ltac:(simpl; lia))).
  pose proof (omit_nil_padding "working_since" json_time (sm_WorkingSince s) 0 ltac:(lia) (λ a, ltac:(simpl; lia))).
  pose proof (omit_nil_padding "current_work" json_current_work (sm_CurrentWork s) 29 ltac:(lia)
    (λ a, ltac:(unfold json_current_work; vm_compute; discriminate))).
  assert (padding 2 (json_locator (sm_Locator s)) = 29) as -> by reflexivity.
  match goal with |- context [padding 2 (JObject ?l)] =>
    assert (padding 2 (JObject l) = 21) as -> by reflexivity end.
  cbn [padding json_time]. lia.
Qed.

(** Every view that crosses the mesh fits the metadata of one session, as it
    arrives and as it is read back from its file. *)
Lemma json_summary_fits now s :
  wire_summary now s →
  json_len (json_summary s) ≤ maxMetadataBytes ∧ json_indented_len 1 (json_summary s) ≤ maxMetadataBytes.
Proof.
  intros Hs%json_summary_bound. pose proof (json_summary_padding s). rewrite json_indented_padding.
  unfold maxMetadataBytes. lia.
Qed.

(** ** The store takes it *)

Definition member_ok (m : string * json) : Prop := forbidden m.1 = false ∧ rejectSensitiveMetadata m.2 = Ok tt.
Lemma reject_object ms : Forall member_ok ms → rejectSensitiveMetadata (JObject ms) = Ok tt.
Proof.
  induction 1 as [|[k v] ms [Hk Hv] _ IH]; [done|]. cbn [fst snd] in Hk, Hv. cbn [rejectSensitiveMetadata] in *.
  rewrite Hk. cbn [negb need guard_err]. unfold mbind, result_bind. cbn. rewrite Hv. exact IH.
Qed.
Lemma member_string k v : forbidden k = false → Forall member_ok (member k (JString v)).
Proof. intros Hk. by repeat constructor. Qed.
Lemma omit_empty_ok k v : forbidden k = false → Forall member_ok (omit_empty k v).
Proof. intros Hk. unfold omit_empty. destruct (String.eqb v ""); by repeat constructor. Qed.
Lemma omit_nil_ok {A} k (f : A → json) v :
  forbidden k = false → (∀ a, rejectSensitiveMetadata (f a) = Ok tt) → Forall member_ok (omit_nil k f v).
Proof. intros Hk Hf. destruct v as [a|]; repeat constructor; [done|apply Hf]. Qed.
Lemma json_locator_ok l : rejectSensitiveMetadata (json_locator l) = Ok tt.
Proof.
  apply reject_object. repeat (apply Forall_cons; split; [split; [vm_compute; reflexivity|done]|]). constructor.
Qed.
Lemma json_current_work_ok c : rejectSensitiveMetadata (json_current_work c) = Ok tt.
Proof.
  apply reject_object. repeat (apply Forall_cons; split; [split; [vm_compute; reflexivity|done]|]). constructor.
Qed.
Lemma json_summary_ok s : rejectSensitiveMetadata (json_summary s) = Ok tt.
Proof.
  unfold json_summary. apply reject_object. rewrite !Forall_app. split_and!.
  all: try (apply omit_empty_ok; vm_compute; reflexivity).
  all: try (apply member_string; vm_compute; reflexivity).
  all: try (apply omit_nil_ok; [vm_compute; reflexivity|done]).
  - apply Forall_singleton. split; [vm_compute; reflexivity|apply json_locator_ok].
  - apply Forall_singleton. split; [vm_compute; reflexivity|]. apply reject_object.
    repeat (apply Forall_cons; split; [split; [vm_compute; reflexivity|done]|]). constructor.
Qed.

Lemma json_len_pos : ∀ j, 0 ≤ json_len j.
Proof.
  fix IH 1. intros [| [] |n|s|items|members]; cbn [json_len]; try lia.
  - unfold str_len. lia.
  - pose proof (json_string_pos s). lia.
  - unfold brackets_len. assert (0 ≤ sum_z (json_len <$> items)); [|lia].
    induction items as [|j items IHl]; [done|]. rewrite fmap_cons, sum_z_cons. specialize (IH j). lia.
  - unfold brackets_len. assert (0 ≤ sum_z ((λ m : string * json, let '(k, v) := m in
      json_string_len k + 1 + json_len v) <$> members)); [|lia].
    induction members as [|[k v] members IHl]; [done|]. rewrite fmap_cons, sum_z_cons. specialize (IH v).
    pose proof (json_string_pos k). lia.
Qed.
Lemma json_summary_pos s : 0 < json_len (json_summary s).
Proof.
  unfold json_summary. cbn [json_len member app]. unfold brackets_len.
  match goal with |- 0 < _ + sum_z (?f <$> ?l) => assert (0 ≤ sum_z (f <$> l)); [|lia] end.
  match goal with |- 0 ≤ sum_z (_ <$> ?l) => generalize l as ms end.
  induction ms as [|[k v] ms IH]; [done|]. rewrite fmap_cons, sum_z_cons.
  pose proof (json_string_pos k). pose proof (json_len_pos v). lia.
Qed.
Lemma summary_metadata s raw :
  raw_value raw = Some (json_summary s) → 0 < raw_len raw ≤ maxMetadataBytes → validateMetadata raw = Ok tt.
Proof.
  intros Hv [Hp Hb]. unfold validateMetadata. rewrite Hv, (proj2 (Z.eqb_neq _ 0)), (proj2 (Z.leb_le _ _) Hb) by lia.
  exact (json_summary_ok s).
Qed.
(** The store accepts it when it arrives and when it is read back. *)
Lemma wire_summary_metadata now s :
  wire_summary now s →
  validateMetadata (json_Marshal (json_summary s)) = Ok tt ∧
  validateMetadata (indented (json_Marshal (json_summary s))) = Ok tt.
Proof.
  intros [H1 H2]%json_summary_fits. pose proof (json_summary_pos s).
  pose proof (padding_pos (json_summary s) 1 ltac:(lia)).
  split; (eapply summary_metadata; [done|]); cbn [indented json_Marshal raw_len raw_indented]; [lia|].
  split; [rewrite json_indented_padding; lia|exact H2].
Qed.

(** ** Publishing and accepting *)

Lemma weight_clean_text (f : Z → Z) n s :
  clean_text n s → (∀ r, clean_rune r = true → f r = 0) → weight f s = 0.
Proof.
  intros (_ & _ & Hc) Hf. unfold weight. induction Hc as [|r l Hr _ IH]; [done|].
  by rewrite fmap_cons, sum_z_cons, IH, Hf.
Qed.
Lemma validate_UTC t now : validateMeshTimestamp (UTC t) now = validateMeshTimestamp t now.
Proof. done. Qed.
Lemma summary_times_cleaned now s cur :
  forallb (λ t, validateMeshTimestamp t now) (summary_times s cur) = true →
  Forall (λ t, validateMeshTimestamp t now = true) (summary_times (cleaned s cur) cur).
Proof.
  unfold summary_times. cbn [cleaned sm_StartedAt sm_LastActivityAt sm_ObservedAt sm_SourceUpdatedAt
    sm_IdleSince sm_WorkingSince].
  destruct cur as [c|], (sm_IdleSince s) as [i|], (sm_WorkingSince s) as [w|];
    cbn; rewrite ?andb_true_iff; intros Ht;
    repeat (apply Forall_cons; split; [rewrite ?validate_UTC; tauto|]); by apply Forall_nil.
Qed.

Lemma sanitize_wire now s s' :
  meshSanitizeSummary now s = Ok s' → wire_summary now s' ∧ ∃ cur, s' = cleaned s cur.
Proof.
  unfold meshSanitizeSummary. intros ([] & Hloc & (cur & Hcur & ([] & Hreq & ([] & Ht & [= <-])%result_bind_ok)
    %result_bind_ok)%result_bind_ok)%result_bind_ok.
  apply guard_err_ok in Hreq, Ht. apply negb_true_iff, orb_false_iff in Hreq.
  split; [|by exists cur]. split; try apply clean_text_spec; [exact Hloc| | |exact Hreq| |done|by apply summary_times_cleaned].
  - pose proof (json_string_bound _ _ (clean_text_spec (sm_LaunchCWD s) meshSessionCWDRunes)) as H.
    unfold json_string_len in H. unfold weight. cbn [cleaned sm_LaunchCWD]. unfold meshSessionCWDRunes in *. lia.
  - apply (weight_clean_text _ _ _ (clean_text_spec (sm_LaunchCWD s) meshSessionCWDRunes)). by intros r ->.
  - intros c Hc. cbn [cleaned sm_CurrentWork] in Hc. destruct (sm_CurrentWork s) as [c0|]; [|by subst cur].
    destruct (NormalizeCurrentWork c0) as [c1|e] eqn:Hn; [|done]. injection Hcur as <-. injection Hc as <-.
    by exists c0.
Qed.

(** Below the home directory, or nothing. *)
Definition home_relative (cwd : string) : Prop := cwd = "" ∨ ∃ l, cwd = below "~" l ∧ Forall plain l.

Lemma tilde_plain : plain "~".
Proof. by repeat split. Qed.

(** Setting another working directory. *)
Lemma wire_set_cwd now cwd s :
  wire_summary now s → weight json_rune_len cwd ≤ 24576 → weight (λ r, if clean_rune r then 0 else 1) cwd = 0 →
  wire_summary now (set_cwd cwd s).
Proof. intros [] H1 H2. by split. Qed.

Lemma accept_cwd now s s' :
  meshSanitizeSummary now s = Ok s' →
  ∃ cwd, meshAcceptSummary now s = Ok (set_cwd cwd s') ∧ home_relative cwd ∧
    wire_summary now (set_cwd cwd s') ∧
    (cwd = "" ∨ cwd = sm_LaunchCWD s' ∨ ∃ rest, sm_LaunchCWD s' = "~/" +:+ rest ∧ cwd = below "~" (path_elements rest)).
Proof.
  intros Hs. destruct (sanitize_wire _ _ _ Hs) as [Hw _]. unfold meshAcceptSummary. rewrite Hs.
  change (Ok s' ≫= ?f) with (f s'). cbv beta.
  assert (∀ cwd, sm_LaunchCWD s' = cwd → set_cwd cwd s' = s') as Hself by (intros cwd <-; by destruct s').
  assert (wire_summary now (set_cwd "" s')) as Hempty by (by apply wire_set_cwd).
  destruct (String.eqb_spec (sm_LaunchCWD s') "~") as [Hc|_].
  { exists "~". rewrite Hself by done. split_and!; [done|right; by exists []|exact Hw|by right; left]. }
  destruct (cut_prefix "~/" (sm_LaunchCWD s')) as [rest|] eqn:Hcut; [|exists ""; split_and!; auto; by left].
  apply cut_prefix_spec in Hcut. destruct (_ || _) eqn:Hup; [exists ""; split_and!; auto; by left|].
  apply orb_false_iff in Hup as [Hup1 Hup2]. apply String.eqb_neq in Hup1.
  pose proof (clean_not_up rest Hup1 Hup2) as Hpl. rewrite (Join_below "~" rest tilde_plain eq_refl Hpl).
  assert (∀ f : Z → Z, (∀ r, 0 ≤ f r) → weight f (below "~" (path_elements rest)) ≤ weight f (sm_LaunchCWD s')) as Hle.
  { intros f Hf. rewrite Hcut. exact (weight_below f Hf "~" rest). }
  eexists. split; [done|]. split_and!; [right; by eexists| |right; right; by exists rest].
  apply wire_set_cwd; [done| |].
  - etransitivity; [apply Hle|apply Hw]. intros r. pose proof (json_rune_len_bound r). lia.
  - pose proof (ws_cwd_clean _ _ Hw) as H0. specialize (Hle (λ r, if clean_rune r then 0 else 1)). rewrite H0 in Hle.
    apply Z.le_antisymm; [apply Hle; intros r; by destruct (clean_rune r)|].
    apply sum_z_pos. intros r. by destruct (clean_rune r).
Qed.

(** C26: whatever a peer sends as a session view, what the receiver keeps of it
    has a valid locator, texts of bounded length without control characters, a
    working directory that is empty or below the home directory, a current-work
    line that passed its checks, no work or history, and times in range; and
    its encoding always fits the store, which takes it as metadata, also when it
    is read back from the indented file. *)
Theorem accepted_summary_safe now s s' :
  meshAcceptSummary now s = Ok s' →
  wire_summary now s' ∧ home_relative (sm_LaunchCWD s') ∧
  json_len (json_summary s') ≤ maxMetadataBytes ∧ validateMetadata (json_Marshal (json_summary s')) = Ok tt ∧
  validateMetadata (indented (json_Marshal (json_summary s'))) = Ok tt.
Proof.
  intros Ha. assert (∃ s1, meshSanitizeSummary now s = Ok s1) as [s1 Hs].
  { unfold meshAcceptSummary in Ha. destruct (meshSanitizeSummary now s) as [s1|]; [by exists s1|done]. }
  destruct (accept_cwd _ _ _ Hs) as (cwd & Ha' & Hhome & Hw & _). rewrite Ha in Ha'. injection Ha' as ->.
  split_and!; [done|exact Hhome|by eapply json_summary_fits|by eapply wire_summary_metadata..].
Qed.

(** *** Round trip *)

Lemma normalized_again c c1 :
  normalized c → NormalizeCurrentWork c = Ok c1 → NormalizeCurrentWork c1 = Ok c1 ∧ cw_UpdatedAt c1 = UTC (cw_UpdatedAt c).
Proof.
  intros [c0 H0] H1. split; [exact (normalize_stable c0 c c1 H0 H1)|]. clear H0. unfold NormalizeCurrentWork in H1.
  destruct (negb _); [done|]. destruct (IsZero _); [done|]. destruct (_ || _); [done|].
  destruct (bool_decide _); [done|]. by injection H1 as <-.
Qed.
Lemma validate_later t now now' :
  t_ns now ≤ t_ns now' → validateMeshTimestamp t now = true → validateMeshTimestamp t now' = true.
Proof.
  unfold validateMeshTimestamp. intros Hle [[Hz H1]%andb_true_iff H2%Z.leb_le]%andb_true_iff.
  rewrite Hz, H1. apply Z.leb_le. lia.
Qed.
Lemma UTC_idem t : UTC (UTC t) = UTC t.
Proof. done. Qed.

(** What was sanitised once is left alone by another machine's sanitising, later. *)
Lemma sanitize_again now now' s s' :
  (∀ c, sm_CurrentWork s = Some c → normalized c) → t_ns now ≤ t_ns now' →
  meshSanitizeSummary now s = Ok s' → meshSanitizeSummary now' (decoded_summary s') = Ok (decoded_summary s').
Proof.
  intros Hwork Hle Hs. destruct (sanitize_wire _ _ _ Hs) as [Hw [cur ->]].
  destruct Hw as [Hloc Hn Ha Ht _ _ Ho Hst Hh Hreq _ _ Htimes].
  assert (cleaned (decoded_summary (cleaned s cur)) cur = decoded_summary (cleaned s cur)) as Hid.
  { unfold decoded_summary, cleaned in *. cbn [sm_Name sm_Agent sm_Transport sm_LaunchCWD sm_OwnerID sm_State sm_Health
      sm_Locator sm_StartedAt sm_LastActivityAt sm_IdleSince sm_WorkingSince sm_CurrentWork sm_Work sm_History
      sm_ObservedAt sm_SourceUpdatedAt sm_Private] in *.
    rewrite !clean_text_twice.
    by destruct (sm_IdleSince s), (sm_WorkingSince s). }
  assert ((match sm_CurrentWork (decoded_summary (cleaned s cur)) with
           | None => Ok None | Some c => Some <$> NormalizeCurrentWork c end) = Ok cur) as Hcur.
  { unfold meshSanitizeSummary in Hs. apply result_bind_ok in Hs as ([] & _ & Hs). apply result_bind_ok in Hs as (cur' & Hc & Hs).
    apply result_bind_ok in Hs as ([] & _ & Hs). apply result_bind_ok in Hs as ([] & _ & [= <-]).
    change (sm_CurrentWork (decoded_summary (cleaned s cur'))) with cur'.
    destruct (sm_CurrentWork s) as [c|]; [|by injection Hc as <-].
    destruct (NormalizeCurrentWork c) as [c1|] eqn:Hc1; [|done]. injection Hc as <-.
    by rewrite (proj1 (normalized_again c c1 (Hwork c eq_refl) Hc1)). }
  unfold meshSanitizeSummary. change (sm_Locator (decoded_summary (cleaned s cur))) with (sm_Locator (cleaned s cur)).
  rewrite Hloc. change (Ok tt ≫= ?f) with (f tt). cbv beta. rewrite Hcur. change (Ok cur ≫= ?f) with (f cur). cbv beta.
  rewrite Hid. destruct Hreq as [Hr1 Hr2].
  assert (∀ d, guard_err (negb (blank (sm_Agent (decoded_summary (cleaned s cur))) ||
    blank (sm_State (decoded_summary (cleaned s cur))))) d = Ok tt) as ->.
  { intros d. change (guard_err (negb (blank (sm_Agent (cleaned s cur)) || blank (sm_State (cleaned s cur)))) d = Ok tt).
    by rewrite Hr1, Hr2. }
  change (Ok tt ≫= ?f) with (f tt). cbv beta.
  rewrite (proj2 (forallb_forall _ _)); [done|]. intros t Hin. eapply validate_later; [exact Hle|].
  rewrite Forall_forall in Htimes. apply Htimes. by apply list_elem_of_In.
Qed.

Lemma path_hint_relative home value : home_relative (meshPathHint home value).
Proof.
  unfold meshPathHint. destruct (String.eqb value ""); [by left|]. destruct (IsAbs value) eqn:Habs; [|by left].
  destruct home as [home|]; [|by left]. cbn [negb]. destruct (filepath_Rel_abs home value) as [rel|] eqn:Hrel; [|by left].
  destruct (_ || _) eqn:Hup; [by left|]. apply orb_false_iff in Hup as [Hup1%String.eqb_neq Hup2].
  destruct (Rel_abs_shape _ _ _ Habs Hrel Hup1 Hup2) as [->|(p & l & -> & Hl)]; [by right; exists []|].
  destruct (join_plain p l Hl) as (_ & He & Hc). destruct (String.eqb _ "."); [by right; exists []|].
  right. exists (p :: l). split; [|done]. rewrite <- Hc at 1. rewrite Join_below; [by rewrite He|apply tilde_plain|done|by rewrite He].
Qed.
(** A working directory of that form is accepted as it is. *)
Lemma accept_home_relative now s s' :
  meshSanitizeSummary now s = Ok s' → home_relative (sm_LaunchCWD s') → meshAcceptSummary now s = Ok s'.
Proof.
  intros Hs Hh. unfold meshAcceptSummary. rewrite Hs. change (Ok s' ≫= ?f) with (f s'). cbv beta.
  destruct Hh as [Hc|([|p l] & Hc & Hl)].
  - rewrite Hc. cbn. f_equal. rewrite <- Hc. by destruct s'.
  - by rewrite Hc.
  - rewrite Hc, cut_below. destruct (String.eqb_spec (below "~" (p :: l)) "~") as [Hx|_]; [by destruct p|].
    destruct (join_plain p l Hl) as (_ & He & Hcl). rewrite Hcl.
    destruct (_ || _) eqn:Hup.
    + exfalso. inversion Hl as [|? ? (_ & _ & Hd & Hns) Hl']; subst. apply orb_true_iff in Hup as [Hx%String.eqb_eq|Hx].
      * assert (path_elements ".." = p :: l) as Hy by (by rewrite <- Hx). by injection Hy as <- <-.
      * assert (split_on "/" (join_slash (p :: l)) = p :: l) as Hy by (apply split_join; [done|by apply plain_no_slash]).
        destruct (join_slash (p :: l)) as [|c1 [|c2 [|c3 rest]]]; cbn [has_prefix] in Hx; try done;
          rewrite ?andb_true_iff in Hx; [naive_solver..|]. destruct Hx as (<-%Ascii.eqb_eq & <-%Ascii.eqb_eq & <-%Ascii.eqb_eq & _).
        cbn in Hy. by injection Hy as <- _.
    + rewrite <- Hcl at 1. rewrite Join_below, He by (done || apply tilde_plain || by rewrite He). rewrite <- Hc. by destruct s'.
Qed.

(** A view that one machine publishes is accepted by another whose clock is
    not behind, and arrives as it was sent: every field is left alone by the
    receiver's own cleaning, the current-work line included, and so is the
    working directory unless its text had to be cleaned on the way out; a
    private session publishes none. *)
Theorem published_is_accepted home now now' s s' :
  (∀ c, sm_CurrentWork s = Some c → normalized c) → t_ns now ≤ t_ns now' →
  meshSafeSummary home now s = Ok s' →
  ∃ cwd, meshAcceptSummary now' (decoded_summary s') = Ok (set_cwd cwd (decoded_summary s')) ∧
    (sm_Private s = true → sm_LaunchCWD s' = "" ∧ cwd = "") ∧
    (let hint := meshPathHint home (sm_LaunchCWD s) in
     meshCleanText hint meshSessionCWDRunes = hint → cwd = sm_LaunchCWD s').
Proof.
  unfold meshSafeSummary. intros Hwork Hle Hs. set (hint := if sm_Private s then "" else _) in Hs.
  pose proof (sanitize_again now now' (set_cwd hint s) s' Hwork Hle Hs) as Hagain.
  destruct (sanitize_wire _ _ _ Hs) as [_ [cur ->]].
  assert (home_relative hint → meshCleanText hint meshSessionCWDRunes = hint →
    meshAcceptSummary now' (decoded_summary (cleaned (set_cwd hint s) cur)) = Ok (decoded_summary (cleaned (set_cwd hint s) cur)))
    as Hkeep.
  { intros Hh Hc. apply accept_home_relative; [exact Hagain|]. cbn [decoded_summary cleaned set_cwd sm_LaunchCWD]. by rewrite Hc. }
  subst hint. destruct (sm_Private s) eqn:Hp.
  - specialize (Hkeep (or_introl eq_refl) eq_refl). exists "". split_and!; [exact Hkeep|done|done].
  - destruct (String.eqb_spec (meshCleanText (meshPathHint home (sm_LaunchCWD s)) meshSessionCWDRunes)
      (meshPathHint home (sm_LaunchCWD s))) as [Hc|Hc].
    + specialize (Hkeep (path_hint_relative _ _) Hc). eexists. split_and!; [exact Hkeep|done|done].
    + destruct (accept_cwd _ _ _ Hagain) as (cwd & Ha & _). exists cwd. split_and!; [exact Ha|done|done].
Qed.
