(* ===== verification/MeshPages.v ===== *)
(** internal/daemon/mesh_application.go, inventories page by page: the serving
    side, which keeps the inventory behind a cursor in a bounded cache, and the
    reading side, which follows the cursors and commits what it read to the
    mesh state store. *)

From S2P Require Import Prelude GoText RuneText GoPath Safetext Session HookState MeshTypes GoJson MeshStore MeshFreshness MeshFiles MeshSync MeshInventory SessionView PeerRpc MeshWire.
From stdpp Require Import base gmap strings list sorting.
From Stdlib Require Import ZArith Lia Ascii.

Open Scope Z_scope.

(** ** The cache *)

Record Cached (K R : Type) := mkCached { cc_created : Time; cc_kind : K; cc_response : R }.
Arguments mkCached {K R}.
Arguments cc_created {K R}.
Arguments cc_kind {K R}.
Arguments cc_response {K R}.

(** [sessionPages] has no kind, [artifactPages] a kind. *)
Record MeshApp := mkMeshApp {
  ma_epoch : string;
  ma_revision : Z;
  ma_sessionPages : gmap string (Cached unit SessionsPage);
  ma_artifactPages : gmap string (Cached string ArtifactsPage) }.
Definition set_sessionPages (m : gmap string (Cached unit SessionsPage)) (a : MeshApp) : MeshApp :=
  mkMeshApp (ma_epoch a) (ma_revision a) m (ma_artifactPages a).
Definition set_artifactPages (m : gmap string (Cached string ArtifactsPage)) (a : MeshApp) : MeshApp :=
  mkMeshApp (ma_epoch a) (ma_revision a) (ma_sessionPages a) m.

Definition meshEpoch (a : MeshApp) : string :=
  if String.eqb (ma_epoch a) "" then "boot-unavailable" else ma_epoch a.
(** [atomic.Uint64.Add(1)]: the new value. *)
Definition nextMeshRevision (a : MeshApp) : Z * MeshApp :=
  let r := (ma_revision a + 1) mod 2 ^ 64 in
  (r, mkMeshApp (ma_epoch a) r (ma_sessionPages a) (ma_artifactPages a)).

Definition meshPageKey (peer : string) (revision : Z) : string := peer +:+ "/" +:+ FormatUint revision.

Section Cache.
Context {K R : Type}.

Definition expired (now : Time) (c : Cached K R) : bool := meshPageTTL <? time_sub now (cc_created c).
Definition prune (now : Time) (m : gmap string (Cached K R)) : gmap string (Cached K R) :=
  filter (λ kc, expired now kc.2 = false) m.

(** One pass over the map in the order [l] in which it is ranged over. *)
Definition oldest (l : list (string * Cached K R)) : string :=
  (fold_left (λ acc kc, if String.eqb acc.1 "" || Before (cc_created kc.2) acc.2 then (kc.1, cc_created kc.2) else acc)
             l ("", mkTime 0 false)).1.
(** [order] is the order of each pass; every pass deletes one entry. *)
Fixpoint bound_pages (fuel : nat) (order : nat → list (string * Cached K R) → list (string * Cached K R))
    (m : gmap string (Cached K R)) : gmap string (Cached K R) :=
  match fuel with
  | O => m
  | S fuel =>
      if (size m <? meshPageCacheMax)%nat then m
      else bound_pages fuel order (delete (oldest (order fuel (map_to_list m))) m)
  end.
End Cache.

(** What one request reads of its surroundings: the clock, at the two places a
    handler reads it, and the orders in which a full cache is ranged over. *)
Record ServeEnv := mkServeEnv {
  se_now1 : Time; se_now2 : Time;
  se_sorder : nat → list (string * Cached unit SessionsPage) → list (string * Cached unit SessionsPage);
  se_aorder : nat → list (string * Cached string ArtifactsPage) → list (string * Cached string ArtifactsPage) }.

Definition prunePagesLocked (now : Time) (a : MeshApp) : MeshApp :=
  mkMeshApp (ma_epoch a) (ma_revision a) (prune now (ma_sessionPages a)) (prune now (ma_artifactPages a)).
Definition boundSessionPagesLocked (e : ServeEnv) (a : MeshApp) : MeshApp :=
  set_sessionPages (bound_pages (size (ma_sessionPages a)) (se_sorder e) (ma_sessionPages a)) a.
Definition boundArtifactPagesLocked (e : ServeEnv) (a : MeshApp) : MeshApp :=
  set_artifactPages (bound_pages (size (ma_artifactPages a)) (se_aorder e) (ma_artifactPages a)) a.

Definition firstSessionPage (e : ServeEnv) (peer : string) (full : SessionsPage) (limit : nat) (a : MeshApp)
  : result AppError SessionsPage * MeshApp :=
  match buildSessionPage full 0 limit with
  | Err err => (Err err, a)
  | Ok (page, end_) =>
      (Ok page,
       if (end_ <? length (sp_Sessions full))%nat then
         let a := boundSessionPagesLocked e (prunePagesLocked (se_now1 e) a) in
         set_sessionPages (<[meshPageKey peer (sp_SourceRevision full) := mkCached (se_now2 e) tt full]>
                             (ma_sessionPages a)) a
       else a)
  end.
Definition nextSessionPage (e : ServeEnv) (peer : string) (revision : Z) (offset limit : nat) (a : MeshApp)
  : result AppError SessionsPage * MeshApp :=
  let key := meshPageKey peer revision in
  let a := prunePagesLocked (se_now1 e) a in
  match ma_sessionPages a !! key with
  | None => (Err (InvalidRequest "cursor is expired or out of range"), a)
  | Some cached =>
      let full := cc_response cached in
      if (length (sp_Sessions full) <=? offset)%nat
      then (Err (InvalidRequest "cursor is expired or out of range"), a) else
      match buildSessionPage full offset limit with
      | Err err => (Err err, a)
      | Ok (page, end_) =>
          (Ok page, if (end_ =? length (sp_Sessions full))%nat
                    then set_sessionPages (delete key (ma_sessionPages a)) a else a)
      end
  end.

Definition firstArtifactPage (e : ServeEnv) (peer kind : string) (full : ArtifactsPage) (limit : nat) (a : MeshApp)
  : result AppError ArtifactsPage * MeshApp :=
  match buildArtifactPage full 0 limit with
  | Err err => (Err err, a)
  | Ok (page, end_) =>
      (Ok page,
       if (end_ <? length (ap_Artifacts full))%nat then
         let a := boundArtifactPagesLocked e (prunePagesLocked (se_now1 e) a) in
         set_artifactPages (<[meshPageKey peer (ap_SourceRevision full) := mkCached (se_now2 e) kind full]>
                              (ma_artifactPages a)) a
       else a)
  end.
Definition nextArtifactPage (e : ServeEnv) (peer kind : string) (revision : Z) (offset limit : nat) (a : MeshApp)
  : result AppError ArtifactsPage * MeshApp :=
  let key := meshPageKey peer revision in
  let a := prunePagesLocked (se_now1 e) a in
  match ma_artifactPages a !! key with
  | None => (Err (InvalidRequest "cursor is expired or out of range"), a)
  | Some cached =>
      let full := cc_response cached in
      if negb (String.eqb (cc_kind cached) kind) || (length (ap_Artifacts full) <=? offset)%nat
      then (Err (InvalidRequest "cursor is expired or out of range"), a) else
      match buildArtifactPage full offset limit with
      | Err err => (Err err, a)
      | Ok (page, end_) =>
          (Ok page, if (end_ =? length (ap_Artifacts full))%nat
                    then set_artifactPages (delete key (ma_artifactPages a)) a else a)
      end
  end.

(** ** Requests *)

(** The profile scopes of a daemon: its own, or the root's and those of its
    children [names], which are ranged over in any order. *)
Definition localMeshProfileScopes (profile : string) (names : list string) : list string :=
  if negb (String.eqb profile "") then
    match NamedProfileScope profile with Ok scope => [scope] | Err _ => [] end
  else sort_strings (RootProfileScope ::
         omap (λ name, match NamedProfileScope name with Ok scope => Some scope | Err _ => None end) names).

(** What the catalog, the profile manager, the environment and the clock give
    to a session inventory; [lc_now i] is the clock at the [i]th view. *)
Record LocalSessions := mkLocalSessions {
  lo_home : option string; lo_now : nat → Time; lo_catalog : list Summary; lo_profile : string; lo_names : list string }.
Definition safe_sessions (l : LocalSessions) : list Summary :=
  omap (λ '(i, s), match meshSafeSummary (lo_home l) (lo_now l i) s with Ok s' => Some s' | Err _ => None end)
       (imap pair (lo_catalog l)).
Definition localMeshSessions (l : LocalSessions) (a : MeshApp) : SessionsPage * MeshApp :=
  let '(revision, a) := nextMeshRevision a in
  (mkSessionsPage (meshEpoch a) revision (localMeshProfileScopes (lo_profile l) (lo_names l)) (safe_sessions l) "", a).

Definition localMeshSessionsPage (e : ServeEnv) (l : LocalSessions) (peer : string) (request : PageRequest)
    (a : MeshApp) : result AppError SessionsPage * MeshApp :=
  match meshPageLimit (pq_Limit request) meshPageItemMax with
  | Err err => (Err err, a)
  | Ok limit =>
      if String.eqb (pq_Cursor request) "" then
        let '(full, a) := localMeshSessions l a in firstSessionPage e peer full (Z.to_nat limit) a
      else
        match parseMeshCursor "s" (pq_Cursor request) with
        | Err err => (Err err, a)
        | Ok (revision, offset) => nextSessionPage e peer revision (Z.to_nat offset) (Z.to_nat limit) a
        end
  end.

Section Artifacts.
Context `{UrlLib}.

(** [listed] is what the store lists for the kind. *)
Definition localMeshArtifactsPage (e : ServeEnv) (listed : result MeshError (list ArtifactEnvelope)) (peer : string)
    (request : PageRequest) (a : MeshApp) : result AppError ArtifactsPage * MeshApp :=
  match meshPageLimit (pq_Limit request) meshPageItemMax with
  | Err err => (Err err, a)
  | Ok limit =>
      if negb (String.eqb (pq_Cursor request) "") then
        match parseMeshCursor "a" (pq_Cursor request) with
        | Err err => (Err err, a)
        | Ok (revision, offset) =>
            nextArtifactPage e peer (pq_Kind request) revision (Z.to_nat offset) (Z.to_nat limit) a
        end
      else
        match listed with
        | Err err => (Err (StoreError err), a)
        | Ok artifacts =>
            match mapM meshArtifactReferenceFromEnvelope artifacts with
            | Err err => (Err err, a)
            | Ok local =>
                let '(revision, a) := nextMeshRevision a in
                firstArtifactPage e peer (pq_Kind request) (mkArtifactsPage (meshEpoch a) revision local "")
                  (Z.to_nat limit) a
            end
        end
  end.
End Artifacts.

(** ** Reading another machine's inventory *)

Section Fetch.
Context `{Paged R A} {W : Type} (call : PageRequest → W → result AppError R * W).

Definition response_so_far (response : option R) (page : R) : result AppError R :=
  match response with
  | None => Ok (pg_page page [] (pg_next page))
  | Some response =>
      if String.eqb (pg_epoch page) (pg_epoch response) && (pg_revision page =? pg_revision response)
         && bool_decide (pg_scopes page = pg_scopes response)
      then Ok response else Err (Failed "cursor changed between pages")
  end.
Definition contiguous (response : R) (cursor : string) : bool :=
  match parseMeshCursor pg_prefix cursor with
  | Ok (revision, offset) => (revision =? pg_revision response) && (offset =? Z.of_nat (length (pg_items response)))
  | Err _ => false
  end.
(** The loop over the pages; [fuel] is the page limit. *)
Fixpoint fetch (fuel : nat) (response : option R) (cursor : string) (w : W) : result AppError R * W :=
  match fuel with
  | O => (Err (Failed "inventory exceeded page limit"), w)
  | S fuel =>
      let '(answer, w) := call (mkPageRequest "" cursor 0) w in
      match (page ← answer; response ← response_so_far response page; Ok (page, response)) with
      | Err err => (Err err, w)
      | Ok (page, response) =>
          if (256 <? length (pg_items page))%nat then (Err (Failed "page exceeds item bound"), w) else
          let response := pg_page response (pg_items response ++ pg_items page) (pg_next response) in
          let cursor := pg_next page in
          if String.eqb cursor "" then (Ok (pg_page response (pg_items response) ""), w) else
          if bool_decide (pg_items page = []) then (Err (Failed "empty continuation page"), w) else
          if negb (contiguous response cursor) then (Err (Failed "non-contiguous cursor"), w) else
          fetch fuel (Some response) cursor w
      end
  end.
Definition page_limit : nat := 4096.
End Fetch.

(** A store operation in this part. *)
Definition in_store {A} (m : H A) (s : Store) : result AppError A * Store :=
  let '(r, s) := m s in (match r with Ok x => Ok x | Err e => Err (StoreError e) end, s).
Definition lift_app {A} (r : result MeshError A) : result AppError A :=
  match r with Ok x => Ok x | Err e => Err (StoreError e) end.
Definition lift_text {A} (r : result string A) : result AppError A :=
  match r with Ok x => Ok x | Err e => Err (Failed e) end.

Section Remote.
Context `{UrlLib}.

(** The scope loop of [commitRemoteSessions]. *)
Fixpoint declared_scopes (scopes : list string) (seen : gset string) : result AppError (gset string) :=
  match scopes with
  | [] => Ok seen
  | scope :: rest =>
      _ ← lift_text (SessionView.ProfileScope_Validate scope);
      if bool_decide (scope ∈ seen) then Err (Failed "scope is duplicated")
      else declared_scopes rest ({[scope]} ∪ seen)
  end.
(** Its session loop; [clock i] is the clock at the [i]th session. *)
Fixpoint accepted_sessions (clock : nat → Time) (i : nat) (scopes : gset string) (sessions : list Summary)
  : result AppError (list (Summary * RawMessage)) :=
  match sessions with
  | [] => Ok []
  | summary :: rest =>
      _ ← lift_text (Locator_Validate (sm_Locator summary));
      if negb (bool_decide (lc_ProfileScope (sm_Locator summary) ∈ scopes)) then Err (Failed "scope is not declared") else
      clean ← lift_text (meshAcceptSummary (clock i) summary);
      accepted ← accepted_sessions clock (S i) scopes rest;
      Ok ((clean, json_Marshal (json_summary clean)) :: accepted)
  end.
Definition remote_locator (peer : string) (s : Summary) : RemoteSessionLocator :=
  MeshTypes.mkLocator SchemaVersion peer (lc_ProfileScope (sm_Locator s)) (lc_SessionID (sm_Locator s)) "".
Fixpoint upsert_sessions (peer : string) (x : SessionInventorySnapshot) (l : list (Summary * RawMessage))
  : result MeshError SessionInventorySnapshot :=
  match l with
  | [] => Ok x
  | (s, metadata) :: rest => x ← SessionInventory_Upsert x (remote_locator peer s) metadata; upsert_sessions peer x rest
  end.

Definition commitRemoteSessions (clock : nat → Time) (peer : string) (response : SessionsPage) (s : Store)
  : result AppError unit * Store :=
  match (_ ← (if String.eqb (sp_SourceEpoch response) "" || (sp_SourceRevision response =? 0)
              then Err (Failed "no source cursor") else Ok tt);
         scopes ← declared_scopes (sp_ProfileScopes response) ∅;
         _ ← (if bool_decide (scopes = ∅) then Err (Failed "no profile scopes") else Ok tt);
         accepted_sessions clock 0 scopes (sp_Sessions response)) with
  | Err err => (Err err, s)
  | Ok accepted =>
      in_store (snapshot ← BeginSessionInventory peer (sp_ProfileScopes response) (sp_SourceEpoch response)
                             (sp_SourceRevision response);
                snapshot ← lift (upsert_sessions peer snapshot accepted);
                _ ← SessionInventory_Commit snapshot;
                mret tt) s
  end.

Context {W : Type}.
Definition RemoteSessionsList (call : PageRequest → W → result AppError SessionsPage * W) (clock : nat → Time)
    (peer : string) (w : W) (s : Store) : result AppError (list RemoteSessionProjection) * W * Store :=
  let '(fetched, w) := fetch call page_limit None "" w in
  match fetched with
  | Err err => (Err err, w, s)
  | Ok response =>
      let '(committed, s) := commitRemoteSessions clock peer response s in
      match committed with
      | Err err => (Err err, w, s)
      | Ok _ => let '(listed, s) := in_store (ListRemoteSessions peer "") s in (listed, w, s)
      end
  end.

(** [answer] is what the peer's [sessions.get] returned. *)
Definition RemoteSessionGet (now : Time) (answer : result AppError Detail) (scope sessionID : string)
  : result AppError Detail :=
  detail ← answer;
  if String.eqb (lc_ProfileScope (sm_Locator (dt_Summary detail))) scope &&
     String.eqb (lc_SessionID (sm_Locator (dt_Summary detail))) sessionID
  then lift_text (meshAcceptDetail now detail) else Err (Failed "locator mismatch").

(** [clock i] is the clock at the [i]th reference. *)
Fixpoint upsert_artifacts (clock : nat → Time) (i : nat) (peer : string) (x : ArtifactInventorySnapshot)
    (l : list ArtifactReference) : result AppError ArtifactInventorySnapshot :=
  match l with
  | [] => Ok x
  | r :: rest =>
      artifact ← meshArtifactEnvelopeFromReference (clock i) peer r;
      x ← lift_app (ArtifactInventory_Upsert x artifact);
      upsert_artifacts clock (S i) peer x rest
  end.
Definition RemoteArtifactsList (call : PageRequest → W → result AppError ArtifactsPage * W) (clock : nat → Time)
    (peer kind : string) (w : W) (s : Store) : result AppError (list ArtifactEnvelope) * W * Store :=
  let '(fetched, w) := fetch call page_limit None "" w in
  match fetched with
  | Err err => (Err err, w, s)
  | Ok response =>
      let '(begun, s) := in_store (BeginArtifactInventory peer (ap_SourceEpoch response) (ap_SourceRevision response)) s in
      match (snapshot ← begun; upsert_artifacts clock 0 peer snapshot (ap_Artifacts response)) with
      | Err err => (Err err, w, s)
      | Ok snapshot =>
          let '(listed, s) := in_store (_ ← ArtifactInventory_Commit snapshot; ListArtifactsForOrigin peer kind) s in
          (listed, w, s)
      end
  end.

Record ArtifactAnswer := mkArtifactAnswer { aa_epoch : string; aa_revision : Z; aa_artifact : ArtifactReference }.
(** [now1] and [now2] are the clock's two readings. *)
Definition RemoteArtifactGet (now1 now2 : Time) (peer kind id : string) (answer : result AppError ArtifactAnswer)
  : result AppError ArtifactEnvelope :=
  response ← answer;
  if negb (String.eqb (rf_Kind (aa_artifact response)) kind && String.eqb (rf_ID (aa_artifact response)) id)
  then Err (Failed "locator mismatch") else
  a ← meshArtifactEnvelopeFromReference now1 peer (aa_artifact response);
  if String.eqb (aa_epoch response) "" || (aa_revision response =? 0) then Err (Failed "no source cursor") else
  let a := mkArtifact (art_SchemaVersion a) (art_ID a) peer (art_ID a) (art_Kind a) (art_Title a) (art_State a)
             (art_URL a) (art_PathHint a) (art_Repo a) (art_Session a) (art_Provenance a) (art_Revision a)
             (aa_epoch response) (aa_revision response) (art_RemoteObservedAt a) (UTC now2) (UTC now2) FreshnessFresh in
  match ArtifactEnvelope_Validate a with Ok _ => Ok a | Err e => Err (StoreError e) end.
End Remote.
