(* ===== verification/MeshPagesFacts.v ===== *)
(** The pages of an inventory: each is the longest run that fits, the pages
    behind one first page are all cut from the same inventory, and following
    the cursors reads that inventory and nothing else. *)

From S2P Require Import Prelude GoText RuneText GoPath Safetext Session HookState MeshTypes GoJson SessionView PeerRpc MeshWire MeshWireFacts MeshPages.
From stdpp Require Import base gmap strings list sorting.
From Stdlib Require Import ZArith Lia Ascii.

Open Scope Z_scope.

(** ** Building a page *)

(** What the two responses have in common. *)
Class PagedLaws (R A : Type) `{Paged R A} := {
  items_page : ∀ r items next, pg_items (pg_page r items next) = items;
  next_page : ∀ r items next, pg_next (pg_page r items next) = next;
  epoch_page : ∀ r items next, pg_epoch (pg_page r items next) = pg_epoch r;
  revision_page : ∀ r items next, pg_revision (pg_page r items next) = pg_revision r;
  scopes_page : ∀ r items next, pg_scopes (pg_page r items next) = pg_scopes r;
  page_page : ∀ r items next items' next', pg_page (pg_page r items next) items' next' = pg_page r items' next';
  page_self : ∀ r, pg_page r (pg_items r) (pg_next r) = r }.
#[export] Instance sessions_laws : PagedLaws SessionsPage Summary.
Proof. split; try done. by intros []. Qed.
#[export] Instance artifacts_laws : PagedLaws ArtifactsPage ArtifactReference.
Proof. split; try done. by intros []. Qed.

Section Building.
Context `{PagedLaws R A}.

(** The page of [full] that holds the [n] items from [offset]. *)
Definition page_of (full : R) (offset n : nat) : R :=
  pg_page full (take n (drop offset (pg_items full))) (cursor_after full (offset + n)).

Lemma build_from_spec full limit k offset :
  let '(page, end_) := build_from full limit (drop (offset + k) (pg_items full)) (offset + k)
      (pg_page full (take k (drop offset (pg_items full))) (if (k =? 0)%nat then "" else cursor_after full (offset + k))) in
  ∃ n, (k <= n <= k + limit)%nat ∧ end_ = (offset + n)%nat ∧
    page = pg_page full (take n (drop offset (pg_items full))) (if (n =? 0)%nat then "" else cursor_after full (offset + n)) ∧
    (n ≠ k → meshResultFits page = true ∧ (offset + n <= length (pg_items full))%nat) ∧
    (n = (k + limit)%nat ∨ (length (pg_items full) <= offset + n)%nat ∨ meshResultFits (page_of full offset (S n)) = false).
Proof.
  revert k. induction limit as [|limit IH]; intros k.
  { cbn [build_from]. exists k. split_and!; [lia..|done|done|done|by left; lia]. }
  cbn [build_from]. destruct (drop (offset + k) (pg_items full)) as [|item rest] eqn:Hd.
  { exists k. split_and!; [lia..|done|done|done|]. right; left.
    apply (f_equal length) in Hd. rewrite length_drop in Hd. simpl in Hd. lia. }
  rewrite items_page. assert (drop (offset + S k) (pg_items full) = rest) as Hd'.
  { replace (offset + S k)%nat with (offset + k + 1)%nat by lia. by rewrite <- drop_drop, Hd. }
  assert (take k (drop offset (pg_items full)) ++ [item] = take (S k) (drop offset (pg_items full))) as Htake.
  { symmetry. apply take_S_r. rewrite lookup_drop. rewrite <- (Nat.add_0_r (offset + k)), <- lookup_drop, Hd. done. }
  rewrite Htake. replace (S (offset + k)) with (offset + S k)%nat by lia.
  assert ((offset + S k <= length (pg_items full))%nat) as Hlen.
  { apply (f_equal length) in Hd. rewrite length_drop in Hd. simpl in Hd. lia. }
  destruct (meshResultFits _) eqn:Hfit.
  - specialize (IH (S k)). rewrite Hd' in IH. change (S k =? 0)%nat with false in IH. cbv iota in IH.
    destruct (build_from _ _ _ _ _) as [page end_]. destruct IH as (n & Hn & -> & -> & Hne & Hmax).
    exists n. split_and!; [lia..|done|done| |destruct Hmax as [?|?]; [left; lia|by right]].
    intros _. destruct (decide (n = S k)) as [->|Hn1]; [|by apply Hne].
    by split.
  - exists k. split_and!; [lia..|done|done|done|]. right; right. exact Hfit.
Qed.

(** What a page request over [full] may answer. *)
Definition page_spec (full : R) (offset limit : nat) (answer : result AppError (R * nat)) : Prop :=
  match answer with
  | Ok (page, end_) =>
      ∃ n, end_ = (offset + n)%nat ∧ page = page_of full offset n ∧ meshResultFits page = true ∧
        (n <= limit)%nat ∧ (offset + n <= length (pg_items full))%nat ∧
        (n = 0%nat → offset = length (pg_items full)) ∧
        (n = limit ∨ (offset + n)%nat = length (pg_items full) ∨ meshResultFits (page_of full offset (S n)) = false)
  | Err e => e = PageTooLarge ∧ meshResultFits (page_of full offset (if (offset =? length (pg_items full))%nat then 0 else 1)) = false
  end.
Lemma buildPage_run full offset limit :
  (0 < limit)%nat → (offset <= length (pg_items full))%nat → page_spec full offset limit (buildPage full offset limit).
Proof.
  intros Hlim Hoff. unfold page_spec, buildPage. destruct (Nat.eqb_spec offset (length (pg_items full))) as [Heq|Hne].
  - assert (pg_page full [] "" = page_of full offset 0) as Hp.
    { unfold page_of, cursor_after. rewrite Nat.add_0_r. rewrite (proj2 (Nat.ltb_ge _ _)) by lia. done. }
    rewrite Hp. destruct (meshResultFits _) eqn:Hf; [|by split].
    exists 0%nat. split_and!; [lia|done|done|lia|lia|done|right; left; lia].
  - pose proof (build_from_spec full limit 0 offset) as Hb. rewrite Nat.add_0_r in Hb. cbn [Nat.eqb take] in Hb.
    rewrite take_0 in Hb. destruct (build_from _ _ _ _ _) as [page end_]. destruct Hb as (n & Hn & -> & -> & Hfit & Hmax).
    destruct (Nat.eqb_spec (offset + n) offset) as [Hz|Hz].
    + assert (n = 0%nat) as -> by lia. split; [done|]. destruct Hmax as [?|[?|Hmax]]; [lia|lia|exact Hmax].
    + destruct n as [|n]; [lia|]. change (S n =? 0)%nat with false in *. cbv iota in *.
      destruct (Hfit ltac:(lia)) as [Hf Hl]. exists (S n). split_and!; [done|done|exact Hf|lia|exact Hl|lia|].
      destruct Hmax as [?|[?|?]]; [left; lia|right; left; lia|by right; right].
Qed.
End Building.

(** C25: a page holds the longest run of items from its offset that the limit and
    the payload budget allow, in order and at least one unless none is left, it
    fits the budget, and its cursor names the position behind it, or is empty
    exactly at the end of the inventory; a page is refused only where not even
    its first item fits. *)
Theorem pages_built (sessions : SessionsPage) (artifacts : ArtifactsPage) offset limit :
  (0 < limit)%nat →
  ((offset <= length (sp_Sessions sessions))%nat →
   page_spec sessions offset limit (buildSessionPage sessions offset limit)) ∧
  ((offset <= length (ap_Artifacts artifacts))%nat →
   page_spec artifacts offset limit (buildArtifactPage artifacts offset limit)).
Proof. intros Hl. split; intros Ho; by apply buildPage_run. Qed.

(** ** The cache *)

Lemma split_on_app_sep sep a b : split_on sep (a +:+ String sep b) = split_on sep a ++ split_on sep b.
Proof.
  induction a as [|c a IH].
  - simpl. by rewrite Ascii.eqb_refl.
  - change (String c a +:+ String sep b) with (String c (a +:+ String sep b)). cbn [split_on].
    rewrite IH. destruct (Ascii.eqb c sep); [done|]. pose proof (split_on_nonempty sep a).
    by destruct (split_on sep a).
Qed.
Lemma digits_no_slash s : all_chars is_digit s = true → contains_any (char_is "/") s = false.
Proof.
  induction s as [|c s IH]; [done|]. cbn [all_chars]. intros [Hc Hs]%andb_true_iff.
  rewrite contains_any_cons, IH, orb_false_r by done. unfold char_is.
  destruct (Ascii.eqb_spec "/" c) as [<-|]; [by vm_compute in Hc|done].
Qed.
Lemma FormatUint_inj n m : 0 ≤ n ≤ u64_max → 0 ≤ m ≤ u64_max → FormatUint n = FormatUint m → n = m.
Proof.
  intros Hn Hm Heq. assert (ParseUint 64 (FormatUint n) = ParseUint 64 (FormatUint m)) as H by (by rewrite Heq).
  rewrite !ParseUint_FormatUint in H by (unfold u64_max in *; change (2 ^ 64) with 18446744073709551616; lia).
  by injection H.
Qed.
Lemma meshPageKey_inj p r p' r' :
  0 ≤ r ≤ u64_max → 0 ≤ r' ≤ u64_max → meshPageKey p r = meshPageKey p' r' → p = p' ∧ r = r'.
Proof.
  intros Hr Hr' Heq. unfold meshPageKey in Heq.
  change (p +:+ String "/" (FormatUint r) = p' +:+ String "/" (FormatUint r')) in Heq.
  apply (f_equal (split_on "/")) in Heq. rewrite !split_on_app_sep in Heq.
  rewrite !(split_on_single "/" (FormatUint _)) in Heq by (apply digits_no_slash, all_digits_format; [lia|done]).
  apply app_inj_tail in Heq as [Hp Hd]. split; [|by apply FormatUint_inj].
  by rewrite <- (join_split p), Hp, join_split.
Qed.
Lemma meshPageKey_ne p r : meshPageKey p r ≠ "".
Proof. unfold meshPageKey. by destruct p. Qed.

Section Bound.
Context {K R : Type}.
Implicit Types (m : gmap string (Cached K R)) (l : list (string * Cached K R)).

Lemma oldest_from l k0 t0 :
  k0 ≠ "" → (∀ kc, kc ∈ l → kc.1 ≠ "") →
  let acc := fold_left (λ acc kc, if String.eqb acc.1 "" || Before (cc_created kc.2) acc.2
                                  then (kc.1, cc_created kc.2) else acc) l (k0, t0) in
  (acc = (k0, t0) ∨ ∃ c, (acc.1, c) ∈ l ∧ acc.2 = cc_created c) ∧
  t_ns acc.2 ≤ t_ns t0 ∧ ∀ kc, kc ∈ l → t_ns acc.2 ≤ t_ns (cc_created kc.2).
Proof.
  intros Hk0 Hl. revert k0 t0 Hk0. induction l as [|[k c] l IH]; intros k0 t0 Hk0.
  { cbn. split_and!; [by left|lia|]. by intros kc ?%elem_of_nil. }
  assert (∀ kc, kc ∈ l → kc.1 ≠ "") as Hl' by (intros kc Hkc; apply Hl, elem_of_cons; by right).
  specialize (IH Hl'). cbn [fold_left fst snd]. rewrite (proj2 (String.eqb_neq _ _)) by done. cbn [orb].
  unfold Before in *. destruct (Z.ltb_spec (t_ns (cc_created c)) (t_ns t0)).
  - assert (k ≠ "") as Hk by (apply (Hl (k, c)); apply elem_of_cons; by left).
    destruct (IH k (cc_created c) Hk) as (Hin & Hle & Hall). cbv zeta in *. split_and!.
    + right. destruct Hin as [Hin|(c' & Hc' & Hin)]; [exists c|exists c'; split; [|exact Hin]].
      * rewrite Hin. split; [apply elem_of_cons; by left|done].
      * apply elem_of_cons. by right.
    + lia.
    + intros kc [->|Hkc]%elem_of_cons; [exact Hle|by apply Hall].
  - destruct (IH k0 t0 Hk0) as (Hin & Hle & Hall). cbv zeta in *. split_and!.
    + destruct Hin as [Hin|(c' & Hc' & ?)]; [by left|right]. exists c'. split; [|done]. apply elem_of_cons. by right.
    + lia.
    + intros kc [->|Hkc]%elem_of_cons; [cbn [snd]; lia|by apply Hall].
Qed.
Lemma oldest_spec l :
  l ≠ [] → (∀ kc, kc ∈ l → kc.1 ≠ "") →
  ∃ c, (oldest l, c) ∈ l ∧ ∀ kc, kc ∈ l → t_ns (cc_created c) ≤ t_ns (cc_created kc.2).
Proof.
  destruct l as [|[k c] l]; [done|]. intros _ Hl. unfold oldest. cbn [fold_left fst snd]. cbn [String.eqb orb].
  assert (k ≠ "") as Hk by (apply (Hl (k, c)); apply elem_of_cons; by left).
  assert (∀ kc, kc ∈ l → kc.1 ≠ "") as Hl' by (intros kc Hkc; apply Hl, elem_of_cons; by right).
  destruct (oldest_from l k (cc_created c) Hk Hl') as (Hin & Hle & Hall). cbv zeta in *.
  destruct Hin as [Heq|(c' & Hc' & Heq)].
  - rewrite Heq in *. exists c. split; [apply elem_of_cons; by left|].
    intros kc [->|Hkc]%elem_of_cons; [done|by apply Hall].
  - exists c'. split; [apply elem_of_cons; by right|]. rewrite <- Heq.
    intros kc [->|Hkc]%elem_of_cons; [exact Hle|by apply Hall].
Qed.

Definition named m : Prop := ∀ k c, m !! k = Some c → k ≠ "".
Lemma bound_pages_spec fuel order m :
  (∀ n l, order n l ≡ₚ l) → named m → (size m <= fuel)%nat →
  let m' := bound_pages fuel order m in
  m' ⊆ m ∧ (size m' < meshPageCacheMax)%nat ∧
  ∀ k c k' c', m !! k = Some c → m' !! k = None → m' !! k' = Some c' → t_ns (cc_created c) ≤ t_ns (cc_created c').
Proof.
  intros Hord. revert m. induction fuel as [|fuel IH]; intros m Hn Hs; cbv zeta.
  { cbn [bound_pages]. split_and!; [done|unfold meshPageCacheMax; lia|congruence]. }
  cbn [bound_pages]. destruct (Nat.ltb_spec (size m) meshPageCacheMax) as [Hlt|Hge].
  { split_and!; [done|done|congruence]. }
  set (key := oldest _). destruct (oldest_spec (order fuel (map_to_list m))) as (c & Hc & Hold).
  { intros Hnil. pose proof (Hord fuel (map_to_list m)) as Hp. rewrite Hnil in Hp. apply Permutation_nil_l in Hp.
    apply (f_equal length) in Hp. rewrite length_map_to_list in Hp. unfold meshPageCacheMax in Hge. simpl in Hp. lia. }
  { intros [k c]. rewrite Hord. intros Hkc%elem_of_map_to_list. by apply (Hn k c). }
  fold key in Hc. rewrite Hord in Hc. apply elem_of_map_to_list in Hc.
  assert (∀ k' c', m !! k' = Some c' → t_ns (cc_created c) ≤ t_ns (cc_created c')) as Hold'.
  { intros k' c' Hk'. apply (Hold (k', c')). rewrite Hord. by apply elem_of_map_to_list. }
  assert (named (delete key m)) as Hn' by (intros k' c' [_ Hk']%lookup_delete_Some; by eapply Hn).
  assert (size (delete key m) = pred (size m)) as Hsz by (by eapply map_size_delete_Some).
  destruct (IH (delete key m) Hn' ltac:(lia)) as (Hsub & Hsize & Hkeep). split_and!.
  - etransitivity; [exact Hsub|apply delete_subseteq].
  - exact Hsize.
  - intros k1 c1 k' c' H1 H2 H3. destruct (decide (k1 = key)) as [->|Hne].
    + rewrite Hc in H1. injection H1 as <-. apply (Hold' k').
      by apply (lookup_weaken _ m) in H3; [|etransitivity; [exact Hsub|apply delete_subseteq]].
    + eapply Hkeep; [|exact H2|exact H3]. by rewrite lookup_delete_ne.
Qed.
Lemma bound_pages_submap fuel order m : bound_pages fuel order m ⊆ m.
Proof.
  revert m. induction fuel as [|fuel IH]; intros m; [done|]. cbn [bound_pages]. destruct (_ <? _)%nat; [done|].
  etransitivity; [apply IH|apply delete_subseteq].
Qed.
Lemma prune_sub now m : prune now m ⊆ m.
Proof. apply map_filter_subseteq. Qed.
End Bound.

(** *** The invariant of the cache *)

Section Pages.
Context `{Paged R A} {K : Type}.
Implicit Types m : gmap string (Cached K R).

(** Every inventory is kept under its own revision, which was given out, and
    there are at most 64. *)
Definition keyed (bound : Z) (k : string) (c : Cached K R) : Prop :=
  ∃ peer, k = meshPageKey peer (pg_revision (cc_response c)) ∧ 0 < pg_revision (cc_response c) ≤ bound.
Definition pages_ok (bound : Z) m : Prop := map_Forall (keyed bound) m ∧ (size m <= meshPageCacheMax)%nat.

Lemma keyed_named bound m : map_Forall (keyed bound) m → named m.
Proof. intros Hm k c Hk. destruct (Hm k c Hk) as (peer & -> & _). apply meshPageKey_ne. Qed.
Lemma pages_ok_sub bound m m' : m' ⊆ m → pages_ok bound m → pages_ok bound m'.
Proof.
  intros Hsub [Hk Hs]. split; [|pose proof (map_subseteq_size _ _ Hsub); lia].
  intros k c Hc. apply Hk. by eapply lookup_weaken.
Qed.
Lemma pages_ok_later b b' m : b ≤ b' → pages_ok b m → pages_ok b' m.
Proof. intros Hle [Hk Hs]. split; [|done]. intros k c Hc. destruct (Hk k c Hc) as (p & -> & ?). exists p. split; [done|lia]. Qed.
Lemma pages_ok_insert b order m peer full t kind :
  (∀ n l, order n l ≡ₚ l) → pages_ok b m → 0 < pg_revision full ≤ b →
  pages_ok b (<[meshPageKey peer (pg_revision full) := mkCached t kind full]> (bound_pages (size m) order m)).
Proof.
  intros Ho Hm Hr. destruct (bound_pages_spec (size m) order m Ho (keyed_named _ _ (proj1 Hm)) ltac:(lia)) as (Hsub & Hs & _).
  destruct (pages_ok_sub _ _ _ Hsub Hm) as [Hk _]. split.
  - intros k c [[<- <-]|[_ Hc]]%lookup_insert_Some; [by exists peer|by apply Hk].
  - pose proof (map_size_insert (meshPageKey peer (pg_revision full)) (mkCached t kind full) (bound_pages (size m) order m)) as Hi.
    rewrite Hi. destruct (_ !! _); unfold id, meshPageCacheMax in *; lia.
Qed.

(** What is kept under a key, if anything is. *)
Definition holds (k : string) (full : R) m : Prop := ∀ c, m !! k = Some c → cc_response c = full.
Lemma holds_sub k full m m' : m' ⊆ m → holds k full m → holds k full m'.
Proof. intros Hsub Hm c Hc. apply Hm. by eapply lookup_weaken. Qed.
Lemma holds_insert_ne k k' full c m : k' ≠ k → holds k full m → holds k full (<[k' := c]> m).
Proof. intros Hne Hm c' [[Hk _]|[_ Hc]]%lookup_insert_Some; [done|by apply Hm]. Qed.
Lemma holds_own_insert k full t kind m : holds k full (<[k := mkCached t kind full]> m).
Proof. intros c [[_ <-]|[Hk _]]%lookup_insert_Some; done. Qed.
End Pages.

Record app_ok (a : MeshApp) : Prop := {
  ok_revision : 0 ≤ ma_revision a ≤ u64_max;
  ok_sessions : pages_ok (ma_revision a) (ma_sessionPages a);
  ok_artifacts : pages_ok (ma_revision a) (ma_artifactPages a) }.
(** A full cache is ranged over in some order of its entries. *)
Definition env_ok (e : ServeEnv) : Prop := (∀ n l, se_sorder e n l ≡ₚ l) ∧ (∀ n l, se_aorder e n l ≡ₚ l).

(** The requests of any peers: inventories page by page, and single reads and
    events, which only take a revision. *)
Inductive ServeReq :=
| AskSessions (e : ServeEnv) (l : LocalSessions) (peer : string) (request : PageRequest)
| AskArtifacts (e : ServeEnv) (listed : result MeshError (list ArtifactEnvelope)) (peer : string) (request : PageRequest)
| TakeRevision.
Definition req_ok (q : ServeReq) : Prop :=
  match q with AskSessions e _ _ _ | AskArtifacts e _ _ _ => env_ok e | TakeRevision => True end.

Section Serving.
Context `{UrlLib}.

Definition serve (q : ServeReq) (a : MeshApp) : MeshApp :=
  match q with
  | AskSessions e l peer request => (localMeshSessionsPage e l peer request a).2
  | AskArtifacts e listed peer request => (localMeshArtifactsPage e listed peer request a).2
  | TakeRevision => (nextMeshRevision a).2
  end.

Lemma revision_next a : 0 ≤ ma_revision a < u64_max → (nextMeshRevision a).1 = ma_revision a + 1.
Proof. intros Hr. unfold nextMeshRevision, u64_max in *. cbn [fst]. apply Z.mod_small. change (2 ^ 64) with 18446744073709551616. lia. Qed.

(** What a request does to the two caches, up to forgetting. *)
Definition advances (a a' : MeshApp) : Prop :=
  ma_sessionPages a' ⊆ ma_sessionPages a ∧ ma_artifactPages a' ⊆ ma_artifactPages a ∧ ma_revision a' = ma_revision a.
Lemma prunePages_advances now a : advances a (prunePagesLocked now a).
Proof. split_and!; [apply prune_sub|apply prune_sub|done]. Qed.
Lemma nextSessionPage_advances e peer rev off lim a : advances a (nextSessionPage e peer rev off lim a).2.
Proof.
  unfold nextSessionPage. pose proof (prunePages_advances (se_now1 e) a) as (H1 & H2 & H3).
  destruct (_ !! _) as [c|]; [|done]. destruct (_ <=? _)%nat; [done|]. destruct (buildSessionPage _ _ _) as [[page end_]|]; [|done].
  cbn [snd]. destruct (_ =? _)%nat; [|done]. split_and!; [|done|done]. etransitivity; [apply delete_subseteq|exact H1].
Qed.
Lemma nextArtifactPage_advances e peer kind rev off lim a : advances a (nextArtifactPage e peer kind rev off lim a).2.
Proof.
  unfold nextArtifactPage. pose proof (prunePages_advances (se_now1 e) a) as (H1 & H2 & H3).
  destruct (_ !! _) as [c|]; [|done]. destruct (_ || _); [done|]. destruct (buildArtifactPage _ _ _) as [[page end_]|]; [|done].
  cbn [snd]. destruct (_ =? _)%nat; [|done]. split_and!; [done| |done]. etransitivity; [apply delete_subseteq|exact H2].
Qed.
Lemma advances_ok a a' : advances a a' → app_ok a → app_ok a'.
Proof.
  intros (H1 & H2 & H3) [Hr Hs Ha]. split; rewrite H3; [done|by eapply pages_ok_sub|by eapply pages_ok_sub].
Qed.

(** A first page, served with a fresh revision. *)
Lemma firstSessionPage_ok e peer full lim a :
  env_ok e → app_ok a → sp_SourceRevision full = ma_revision a → 0 < ma_revision a →
  app_ok (firstSessionPage e peer full lim a).2 ∧ ma_revision (firstSessionPage e peer full lim a).2 = ma_revision a.
Proof.
  intros [Ho _] [Hr Hs Ha] Hf H0. unfold firstSessionPage. destruct (buildSessionPage _ _ _) as [[page end_]|]; [|done].
  cbn [snd]. destruct (_ <? _)%nat; [|done]. split; [|done]. split; [done| |by eapply pages_ok_sub; [apply prune_sub|]].
  refine (pages_ok_insert (ma_revision a) (se_sorder e) (prune (se_now1 e) (ma_sessionPages a)) peer full (se_now2 e) tt Ho _ _).
  - by eapply pages_ok_sub; [apply prune_sub|].
  - cbn [pg_revision sessions_paged]. lia.
Qed.
Lemma firstArtifactPage_ok e peer kind full lim a :
  env_ok e → app_ok a → ap_SourceRevision full = ma_revision a → 0 < ma_revision a →
  app_ok (firstArtifactPage e peer kind full lim a).2 ∧ ma_revision (firstArtifactPage e peer kind full lim a).2 = ma_revision a.
Proof.
  intros [_ Ho] [Hr Hs Ha] Hf H0. unfold firstArtifactPage. destruct (buildArtifactPage _ _ _) as [[page end_]|]; [|done].
  cbn [snd]. destruct (_ <? _)%nat; [|done]. split; [|done]. split; [done|by eapply pages_ok_sub; [apply prune_sub|]|].
  refine (pages_ok_insert (ma_revision a) (se_aorder e) (prune (se_now1 e) (ma_artifactPages a)) peer full (se_now2 e) kind Ho _ _).
  - by eapply pages_ok_sub; [apply prune_sub|].
  - cbn [pg_revision artifacts_paged]. lia.
Qed.
Lemma nextRevision_ok a :
  app_ok a → ma_revision a < u64_max → app_ok (nextMeshRevision a).2 ∧ ma_revision (nextMeshRevision a).2 = ma_revision a + 1.
Proof.
  intros [Hr Hs Ha] Hlt. pose proof (revision_next a ltac:(lia)) as Hn. unfold nextMeshRevision in *. cbn [fst] in Hn.
  cbn [snd ma_revision]. rewrite Hn. split; [|done].
  split; cbn [ma_revision ma_sessionPages ma_artifactPages]; [lia|by eapply pages_ok_later; [|exact Hs]; lia|by eapply pages_ok_later; [|exact Ha]; lia].
Qed.

Lemma serve_ok q a :
  req_ok q → app_ok a → ma_revision a < u64_max →
  app_ok (serve q a) ∧ ma_revision a ≤ ma_revision (serve q a) ≤ ma_revision a + 1.
Proof.
  intros Hq Ha Hlt. destruct (nextRevision_ok a Ha Hlt) as [Hn Hrev]. pose proof (ok_revision a Ha) as Hr.
  pose proof (revision_next a ltac:(lia)) as Hnr.
  destruct q as [e l peer req|e listed peer req|]; cbn [serve].
  - unfold localMeshSessionsPage. destruct (meshPageLimit _ _) as [lim|]; [|cbn [snd]; split; [done|lia]].
    destruct (String.eqb _ _).
    + unfold localMeshSessions. destruct (nextMeshRevision a) as [r a'] eqn:Hnext. cbn [fst snd] in Hn, Hrev, Hnr. subst r.
      destruct (firstSessionPage_ok e peer (mkSessionsPage (meshEpoch a') (ma_revision a + 1)
        (localMeshProfileScopes (lo_profile l) (lo_names l)) (safe_sessions l) "") (Z.to_nat lim) a') as [H1 H2];
        [done|done|by rewrite Hrev|lia|]. split; [exact H1|lia].
    + destruct (parseMeshCursor _ _) as [[rev off]|]; [|cbn [snd]; split; [done|lia]].
      pose proof (nextSessionPage_advances e peer rev (Z.to_nat off) (Z.to_nat lim) a) as Hadv.
      split; [by eapply advances_ok|]. destruct Hadv as (_ & _ & ->). lia.
  - unfold localMeshArtifactsPage. destruct (meshPageLimit _ _) as [lim|]; [|cbn [snd]; split; [done|lia]].
    destruct (negb _).
    + destruct (parseMeshCursor _ _) as [[rev off]|]; [|cbn [snd]; split; [done|lia]].
      pose proof (nextArtifactPage_advances e peer (pq_Kind req) rev (Z.to_nat off) (Z.to_nat lim) a) as Hadv.
      split; [by eapply advances_ok|]. destruct Hadv as (_ & _ & ->). lia.
    + destruct listed as [artifacts|]; [|cbn [snd]; split; [done|lia]]. destruct (mapM _ _) as [local|]; [|cbn [snd]; split; [done|lia]].
      destruct (nextMeshRevision a) as [r a'] eqn:Hnext. cbn [fst snd] in Hn, Hrev, Hnr. subst r.
      destruct (firstArtifactPage_ok e peer (pq_Kind req) (mkArtifactsPage (meshEpoch a') (ma_revision a + 1) local "")
        (Z.to_nat lim) a') as [H1 H2]; [done|done|by rewrite Hrev|lia|]. split; [exact H1|lia].
  - split; [exact Hn|lia].
Qed.
End Serving.

(** ** Following the cursors *)

Section Following.
Context `{UrlLib}.

Definition serve_all (qs : list ServeReq) (a : MeshApp) : MeshApp := fold_left (λ a q, serve q a) qs a.
Lemma serve_all_ok qs a :
  Forall req_ok qs → app_ok a → ma_revision a + Z.of_nat (length qs) ≤ u64_max →
  app_ok (serve_all qs a) ∧ ma_revision a ≤ ma_revision (serve_all qs a) ≤ ma_revision a + Z.of_nat (length qs).
Proof.
  intros Hqs. revert a. induction Hqs as [|q qs Hq Hqs IH]; intros a Ha Hle; [split; [done|cbn; lia]|].
  cbn [length] in *. destruct (serve_ok q a Hq Ha ltac:(lia)) as [H1 H2].
  destruct (IH (serve q a) H1 ltac:(lia)) as [H3 H4]. split; [exact H3|].
  change (serve_all (q :: qs) a) with (serve_all qs (serve q a)). lia.
Qed.

Definition empty_app (epoch : string) : MeshApp := mkMeshApp epoch 0 ∅ ∅.
Lemma empty_app_ok epoch : app_ok (empty_app epoch).
Proof. split; [cbn; unfold u64_max; lia|split; [apply map_Forall_empty|cbn [ma_sessionPages ma_artifactPages empty_app];
  rewrite map_size_empty; unfold meshPageCacheMax; lia]..]. Qed.

(** Whatever inventories peers ask for, page by page and in any order, each
    of the two caches holds at most 64 of them, each under a key that names the
    revision the inventory was given, and no two revisions are the same. *)
Theorem page_caches_bounded epoch qs :
  Forall req_ok qs → Z.of_nat (length qs) ≤ u64_max →
  let a := serve_all qs (empty_app epoch) in
  (size (ma_sessionPages a) <= 64)%nat ∧ (size (ma_artifactPages a) <= 64)%nat ∧
  map_Forall (keyed (ma_revision a)) (ma_sessionPages a) ∧ map_Forall (keyed (ma_revision a)) (ma_artifactPages a).
Proof.
  intros Hqs Hlen. destruct (serve_all_ok qs _ Hqs (empty_app_ok epoch)) as [[_ [Hs Hs'] [Ha Ha']] _]; [exact Hlen|].
  by split_and!.
Qed.

(** A session inventory that a peer was promised stays what it was: another
    request never puts a different one under its key. *)
Lemma serve_holds q a peer rev full :
  app_ok a → ma_revision a < u64_max → 0 ≤ rev ≤ ma_revision a →
  holds (meshPageKey peer rev) full (ma_sessionPages a) →
  holds (meshPageKey peer rev) full (ma_sessionPages (serve q a)).
Proof.
  intros Ha Hlt Hrev Hh. pose proof (ok_revision a Ha) as Hr. pose proof (revision_next a ltac:(lia)) as Hnr.
  destruct q as [e l p req|e listed p req|]; cbn [serve]; [| |done].
  - unfold localMeshSessionsPage. destruct (meshPageLimit _ _) as [lim|]; [|done]. destruct (String.eqb _ _).
    + unfold localMeshSessions. destruct (nextMeshRevision a) as [r a'] eqn:Hnext. cbn [fst] in Hnr. subst r.
      assert (ma_sessionPages a' = ma_sessionPages a) as Heq by (unfold nextMeshRevision in Hnext; by injection Hnext as _ <-).
      unfold firstSessionPage. destruct (buildSessionPage _ _ _) as [[page end_]|]; cbn [snd]; [|by rewrite Heq].
      destruct (_ <? _)%nat; [|by rewrite Heq]. cbn [set_sessionPages ma_sessionPages sp_SourceRevision]. apply holds_insert_ne.
      * intros [_ ?]%meshPageKey_inj; unfold u64_max in *; lia.
      * eapply holds_sub; [|exact Hh]. etransitivity; [apply bound_pages_submap|]. cbn. rewrite Heq. apply prune_sub.
    + destruct (parseMeshCursor _ _) as [[rev' off]|]; [|done]. eapply holds_sub; [apply nextSessionPage_advances|done].
  - unfold localMeshArtifactsPage. destruct (meshPageLimit _ _) as [lim|]; [|done]. destruct (negb _).
    + destruct (parseMeshCursor _ _) as [[rev' off]|]; [|done]. eapply holds_sub; [apply nextArtifactPage_advances|done].
    + destruct listed as [artifacts|]; [|done]. destruct (mapM _ _) as [local|]; [|done].
      destruct (nextMeshRevision a) as [r a'] eqn:Hnext.
      assert (ma_sessionPages a' = ma_sessionPages a) as Heq by (unfold nextMeshRevision in Hnext; by injection Hnext as _ <-).
      unfold firstArtifactPage. destruct (buildArtifactPage _ _ _) as [[page end_]|]; cbn [snd]; [|by rewrite Heq].
      destruct (_ <? _)%nat; [|by rewrite Heq]. eapply holds_sub; [|exact Hh]. cbn. rewrite Heq. apply prune_sub.
Qed.
Lemma serve_all_holds qs a peer rev full :
  Forall req_ok qs → app_ok a → ma_revision a + Z.of_nat (length qs) ≤ u64_max → 0 ≤ rev ≤ ma_revision a →
  holds (meshPageKey peer rev) full (ma_sessionPages a) →
  holds (meshPageKey peer rev) full (ma_sessionPages (serve_all qs a)).
Proof.
  intros Hqs. revert a. induction Hqs as [|q qs Hq Hqs IH]; intros a Ha Hle Hrev Hh; [done|].
  cbn [length] in Hle. destruct (serve_ok q a Hq Ha ltac:(lia)) as [H1 H2].
  apply (IH (serve q a)); [done|lia|lia|]. apply serve_holds; [done|lia|done|done].
Qed.

(** The peer that answers [peer]'s calls: at each turn it first serves what
    others ask, then the call; what it answers crosses the wire. *)
Record Turn := mkTurnOf { tn_before : list ServeReq; tn_env : ServeEnv; tn_local : LocalSessions }.
Definition decoded_page (p : SessionsPage) : SessionsPage :=
  mkSessionsPage (sp_SourceEpoch p) (sp_SourceRevision p) (sp_ProfileScopes p) (decoded_summary <$> sp_Sessions p)
    (sp_NextCursor p).
Definition answer_sessions (peer : string) (request : PageRequest) (w : MeshApp * list Turn)
  : result AppError SessionsPage * (MeshApp * list Turn) :=
  match w with
  | (a, []) => (Err ErrPeerDisconnected, w)
  | (a, t :: turns) =>
      let '(r, a) := localMeshSessionsPage (tn_env t) (tn_local t) peer request (serve_all (tn_before t) a) in
      (decoded_page <$> r, (a, turns))
  end.
Definition turn_ok (t : Turn) : Prop := Forall req_ok (tn_before t) ∧ env_ok (tn_env t).
Definition turns_length (ts : list Turn) : Z := sum_z ((λ t, 1 + Z.of_nat (length (tn_before t))) <$> ts).

Lemma decoded_page_of full off n :
  decoded_page (page_of full off n) =
  pg_page (decoded_page full) (take n (drop off (pg_items (decoded_page full)))) (cursor_after full (off + n)).
Proof.
  unfold page_of, decoded_page. cbn [pg_page pg_items sessions_paged sp_SourceEpoch sp_SourceRevision sp_ProfileScopes
    sp_Sessions sp_NextCursor]. f_equal. by rewrite <- fmap_drop, <- fmap_take.
Qed.
Lemma cursor_after_end (full : SessionsPage) n :
  (n <= length (sp_Sessions full))%nat → cursor_after full n = "" → n = length (sp_Sessions full).
Proof.
  intros Hn. unfold cursor_after. destruct (Nat.ltb_spec n (length (pg_items full))) as [|Hge]; [done|].
  intros _. cbn [pg_items sessions_paged] in Hge. lia.
Qed.
Lemma parse_empty_cursor : parseMeshCursor "s" "" = Err (InvalidRequest "invalid cursor").
Proof. done. Qed.

(** One more page is taken into the response. *)
Definition taken (full : SessionsPage) (n : nat) (next : string) : SessionsPage :=
  pg_page (decoded_page full) (take n (pg_items (decoded_page full))) next.
Lemma take_page full n k next :
  pg_page (taken full n next) (pg_items (taken full n next) ++ take k (drop n (pg_items (decoded_page full)))) next =
  taken full (n + k) next.
Proof. unfold taken. rewrite items_page, page_page. f_equal. by rewrite take_take_drop. Qed.

(** The peer's answer to a first call, and to a later one. *)
Lemma answer_first peer a t turns page w :
  turn_ok t → app_ok a → ma_revision a + turns_length (t :: turns) ≤ u64_max →
  answer_sessions peer (mkPageRequest "" "" 0) (a, t :: turns) = (Ok page, w) →
  let full := (localMeshSessions (tn_local t) (serve_all (tn_before t) a)).1 in
  ∃ a' n, w = (a', turns) ∧ (n <= length (sp_Sessions full))%nat ∧ page = decoded_page (page_of full 0 n) ∧
    app_ok a' ∧ ma_revision a' + turns_length turns ≤ u64_max ∧ 0 < sp_SourceRevision full ≤ ma_revision a' ∧
    holds (meshPageKey peer (sp_SourceRevision full)) full (ma_sessionPages a').
Proof.
  intros [Hb He] Ha Hlen. unfold turns_length in *. rewrite fmap_cons, sum_z_cons in Hlen. set (rest := sum_z _) in *.
  assert (0 ≤ rest) as Hrest.
  { unfold rest. clear. induction turns as [|t ts IH]; [done|]. rewrite fmap_cons, sum_z_cons. lia. }
  destruct (serve_all_ok _ _ Hb Ha ltac:(lia)) as [Ha1 Hr1]. set (a1 := serve_all (tn_before t) a) in *.
  destruct (nextRevision_ok a1 Ha1 ltac:(lia)) as [Ha2 Hr2]. pose proof (ok_revision _ Ha1) as Hpos.
  pose proof (revision_next a1 ltac:(lia)) as Hr3.
  cbn [answer_sessions]. fold a1. unfold localMeshSessionsPage, localMeshSessions. cbn [pq_Limit pq_Cursor].
  change (meshPageLimit 0 meshPageItemMax) with (@Ok AppError Z 256). cbv iota.
  change (String.eqb "" "") with true. cbv iota.
  assert (ma_sessionPages (nextMeshRevision a1).2 = ma_sessionPages a1) as Hsame by done.
  destruct (nextMeshRevision a1) as [r a2]. cbn [fst snd] in *. subst r.
  set (full := mkSessionsPage _ _ _ _ _).
  destruct (firstSessionPage_ok (tn_env t) peer full (Z.to_nat 256) a2 He Ha2) as [Ha3 Hr4]; [by rewrite Hr2|lia|].
  destruct (firstSessionPage _ _ _ _ _) as [r a3] eqn:Hfirst. cbn [snd] in Ha3, Hr4. intros [= Hp <-].
  destruct r as [p|]; [|done]. injection Hp as <-. unfold firstSessionPage in Hfirst.
  pose proof (buildPage_run full 0 (Z.to_nat 256) ltac:(lia) ltac:(lia)) as Hspec. unfold buildSessionPage in Hfirst.
  destruct (buildPage full 0 (Z.to_nat 256)) as [[page end_]|]; [|done]. injection Hfirst as -> Hst.
  destruct Hspec as (n & -> & -> & _ & _ & Hn & _). exists a3, n. cbn [pg_items sessions_paged] in Hn.
  split_and!; [done|lia|done|done|lia|cbn; lia|cbn; lia|].
  rewrite <- Hst. destruct (_ <? _)%nat; [apply holds_own_insert|].
  intros c Hc. rewrite Hsame in Hc. destruct (ok_sessions _ Ha1) as [Hk _]. destruct (Hk _ _ Hc) as (p & Hp & Hle).
  exfalso. change (pg_revision (cc_response c)) with (sp_SourceRevision (cc_response c)) in *. unfold u64_max in *.
  apply meshPageKey_inj in Hp as [_ Hp]; cbn [sp_SourceRevision full] in *; unfold u64_max; lia.
Qed.
Lemma answer_next peer cursor a turns page w full rev n :
  Forall turn_ok turns → app_ok a → ma_revision a + turns_length turns ≤ u64_max →
  0 ≤ rev ≤ ma_revision a → holds (meshPageKey peer rev) full (ma_sessionPages a) →
  parseMeshCursor "s" cursor = Ok (rev, Z.of_nat n) →
  answer_sessions peer (mkPageRequest "" cursor 0) (a, turns) = (Ok page, w) →
  ∃ a' turns' k, w = (a', turns') ∧ (n + k <= length (sp_Sessions full))%nat ∧ page = decoded_page (page_of full n k) ∧
    Forall turn_ok turns' ∧ app_ok a' ∧ ma_revision a' + turns_length turns' ≤ u64_max ∧ rev ≤ ma_revision a' ∧
    holds (meshPageKey peer rev) full (ma_sessionPages a').
Proof.
  intros Hturns Ha Hlen Hrev Hh Hparse. destruct turns as [|t turns]; [done|].
  apply Forall_cons in Hturns as [[Hb He] Hturns]. unfold turns_length in *. rewrite fmap_cons, sum_z_cons in Hlen.
  set (rest := sum_z _) in *. assert (0 ≤ rest) as Hrest.
  { unfold rest. clear. induction turns as [|t ts IH]; [done|]. rewrite fmap_cons, sum_z_cons. lia. }
  destruct (serve_all_ok _ _ Hb Ha ltac:(lia)) as [Ha1 Hr1].
  pose proof (serve_all_holds _ a peer rev full Hb Ha ltac:(lia) Hrev Hh) as Hh1.
  cbn [answer_sessions]. set (a1 := serve_all (tn_before t) a) in *. unfold localMeshSessionsPage. cbn [pq_Limit pq_Cursor].
  change (meshPageLimit 0 meshPageItemMax) with (@Ok AppError Z 256). cbv iota.
  destruct (String.eqb_spec cursor "") as [->|_]; [done|]. rewrite Hparse, Nat2Z.id.
  pose proof (nextSessionPage_advances (tn_env t) peer rev n (Z.to_nat 256) a1) as Hadv.
  pose proof (advances_ok _ _ Hadv Ha1) as Ha2.
  destruct (nextSessionPage _ _ _ _ _ _) as [r a2] eqn:Hnext. cbn [snd] in Hadv, Ha2. intros [= Hp <-].
  destruct r as [p|]; [|done]. injection Hp as <-. unfold nextSessionPage in Hnext.
  destruct (_ !! _) as [c|] eqn:Hc; [|done]. destruct (Nat.leb_spec (length (sp_Sessions (cc_response c))) n) as [|Hlt]; [done|].
  assert (cc_response c = full) as Hfull by (apply Hh1; eapply lookup_weaken; [exact Hc|apply prune_sub]). rewrite Hfull in *.
  pose proof (buildPage_run full n (Z.to_nat 256) ltac:(lia) (Nat.lt_le_incl _ _ Hlt)) as Hspec. unfold buildSessionPage in Hnext.
  destruct (buildPage full n (Z.to_nat 256)) as [[page end_]|]; [|done]. injection Hnext as -> _.
  destruct Hspec as (k & -> & -> & _ & _ & Hk & _). exists a2, turns, k. cbn [pg_items sessions_paged] in Hk.
  destruct Hadv as (Hsub & _ & Hr2). rewrite Hr2. split_and!; [done|exact Hk|done|done|done|lia|lia|by eapply holds_sub].
Qed.

Lemma fetch_follows peer full rev fuel n next cursor a turns resp w :
  sp_SourceRevision full = rev → (n <= length (sp_Sessions full))%nat →
  Forall turn_ok turns → app_ok a → ma_revision a + turns_length turns ≤ u64_max →
  0 ≤ rev ≤ ma_revision a → holds (meshPageKey peer rev) full (ma_sessionPages a) →
  parseMeshCursor "s" cursor = Ok (rev, Z.of_nat n) →
  fetch (answer_sessions peer) fuel (Some (taken full n next)) cursor (a, turns) = (Ok resp, w) →
  resp = pg_page (decoded_page full) (pg_items (decoded_page full)) "".
Proof.
  intros Hr. revert n cursor a turns. induction fuel as [|fuel IH]; intros n cursor a turns Hn Hts Ha Hlen Hrev Hh Hparse; [done|].
  cbn [fetch]. destruct (answer_sessions _ _ _) as [answer w1] eqn:Hans. destruct answer as [page|]; [|done].
  destruct (answer_next _ _ _ _ _ _ full rev n Hts Ha Hlen Hrev Hh Hparse Hans)
    as (a' & turns' & k & -> & Hk & -> & Hts' & Ha' & Hlen' & Hrev' & Hh').
  rewrite decoded_page_of. change (Ok ?x ≫= ?f) with (f x). cbv beta.
  unfold response_so_far, taken. rewrite !epoch_page, !revision_page, !scopes_page, String.eqb_refl, Z.eqb_refl, bool_decide_eq_true_2 by done.
  cbn [andb]. change (Ok ?x ≫= ?f) with (f x). cbv beta iota. rewrite items_page.
  destruct (_ <? _)%nat; [done|]. fold (taken full n next). rewrite !next_page.
  change (pg_next (taken full n next)) with next. rewrite take_page.
  destruct (String.eqb_spec (cursor_after full (n + k)) "") as [Hend|_].
  - apply cursor_after_end in Hend; [|exact Hk]. intros [= <- _]. unfold taken. cbn. rewrite take_ge; [done|].
    rewrite length_fmap. lia.
  - destruct (bool_decide _); [done|]. unfold contiguous.
    change (@pg_prefix SessionsPage Summary _) with "s". destruct (parseMeshCursor "s" (cursor_after full (n + k))) as [[r o]|] eqn:Hp; [|done].
    destruct (_ && _) eqn:Hc; [|done]. cbn [negb]. apply andb_true_iff in Hc as [Hc1%Z.eqb_eq Hc2%Z.eqb_eq].
    apply (IH (n + k)%nat); [lia|done|done|done|lia|done|]. rewrite Hp. f_equal. f_equal.
    + rewrite Hc1. unfold taken. rewrite revision_page. exact Hr.
    + rewrite Hc2. unfold taken. rewrite items_page, length_take. cbn. rewrite length_fmap. f_equal. lia.
Qed.

Lemma fetch_one_inventory peer a t turns resp w :
  Forall turn_ok (t :: turns) → app_ok a → ma_revision a + turns_length (t :: turns) ≤ u64_max →
  fetch (answer_sessions peer) page_limit None "" (a, t :: turns) = (Ok resp, w) →
  let full := (localMeshSessions (tn_local t) (serve_all (tn_before t) a)).1 in
  resp = mkSessionsPage (sp_SourceEpoch full) (sp_SourceRevision full) (sp_ProfileScopes full)
           (decoded_summary <$> sp_Sessions full) "".
Proof.
  intros [Ht Hts]%Forall_cons Ha Hlen. unfold page_limit. change 4096%nat with (S 4095). generalize 4095%nat as fuel. intros fuel.
  cbn [fetch]. destruct (answer_sessions peer _ (a, t :: turns)) as [answer w1] eqn:Hans. destruct answer as [page|]; [|done].
  destruct (answer_first _ _ _ _ _ _ Ht Ha Hlen Hans) as (a' & n & -> & Hn & -> & Ha' & Hlen' & Hrev & Hh).
  set (full := (localMeshSessions _ _).1) in *. cbv zeta. rewrite decoded_page_of.
  change (Ok ?x ≫= ?f) with (f x). cbv beta. unfold response_so_far. rewrite ?page_page, ?next_page, ?items_page.
  change (Ok ?x ≫= ?f) with (f x). cbv beta iota. rewrite items_page. destruct (_ <? _)%nat; [done|].
  rewrite ?items_page, ?next_page, ?page_page, ?items_page. cbn [app]. rewrite ?drop_0.
  destruct (String.eqb_spec (cursor_after full (0 + n)) "") as [Hend|_].
  - apply cursor_after_end in Hend; [|exact Hn]. intros [= <- _]. cbn. rewrite ?drop_0, take_ge; [done|]. rewrite length_fmap. cbn in Hend. lia.
  - destruct (bool_decide _); [done|]. unfold contiguous.
    change (@pg_prefix SessionsPage Summary _) with "s". destruct (parseMeshCursor "s" (cursor_after full (0 + n))) as [[r o]|] eqn:Hp; [|done].
    destruct (_ && _) eqn:Hc; [|done]. cbn [negb]. apply andb_true_iff in Hc as [Hc1%Z.eqb_eq Hc2%Z.eqb_eq].
    intros Hf. eapply (fetch_follows peer full (sp_SourceRevision full) fuel n) in Hf; [exact Hf|done|exact Hn|done|done|done|lia|done|].
    rewrite Hp. f_equal. f_equal.
    + rewrite Hc1. rewrite revision_page. done.
    + rewrite Hc2. cbn. cbn in Hn. rewrite length_take, length_fmap. lia.
Qed.

(** C23: whoever asks the peer for what in between, whatever is evicted or
    expires, and however often the inventory changes while it is read: a
    session inventory that was read to its end is the one the peer held at the
    first call, every session once and in order, and never a mixture. *)
Theorem fetch_is_one_inventory peer a t turns resp w :
  Forall turn_ok (t :: turns) → app_ok a → ma_revision a + turns_length (t :: turns) ≤ u64_max →
  fetch (answer_sessions peer) page_limit None "" (a, t :: turns) = (Ok resp, w) →
  let full := (localMeshSessions (tn_local t) (serve_all (tn_before t) a)).1 in
  resp = mkSessionsPage (sp_SourceEpoch full) (sp_SourceRevision full) (sp_ProfileScopes full)
           (decoded_summary <$> sp_Sessions full) "".
Proof. apply fetch_one_inventory. Qed.
End Following.
