(* ===== verification/MeshPagesLive.v ===== *)
(** Every session inventory can be read to its end: one session always fits a
    page, so every page makes progress, and a reader that is not disturbed for
    the life of the cursor gets the whole inventory. *)

From S2P Require Import Prelude GoText RuneText GoPath Safetext Session HookState MeshTypes GoJson SessionView PeerRpc MeshWire MeshWireFacts MeshPages MeshPagesFacts.
From stdpp Require Import base gmap strings list sorting.
From Stdlib Require Import ZArith Lia Ascii.

Open Scope Z_scope.

(** ** One session fits *)

Lemma format_digits_len fuel n acc : str_len (format_digits fuel n acc) ≤ Z.of_nat fuel + str_len acc.
Proof.
  revert n acc. induction fuel as [|fuel IH]; intros n acc; [cbn; lia|]. cbn [format_digits].
  destruct (n <? 10); [|etransitivity; [apply IH|]]; rewrite str_len_cons; lia.
Qed.
Lemma FormatUint_plain n : 0 ≤ n → all_chars plain_char (FormatUint n) = true ∧ str_len (FormatUint n) ≤ 20.
Proof.
  intros Hn. split; [|apply (format_digits_len 20 n "")].
  eapply all_chars_impl; [|apply (all_digits_format 20 n ""); [done|done]]. intros c Hc. unfold plain_char, is_alnum. by rewrite Hc.
Qed.

(** The cursors of session pages. *)
Lemma meshCursor_len rev off : 0 ≤ rev → 0 ≤ off → json_string_len (meshCursor "s" rev off) ≤ 45.
Proof.
  intros Hr Ho. destruct (FormatUint_plain rev Hr) as [Hr1 Hr2]. destruct (FormatUint_plain off Ho) as [Ho1 Ho2].
  unfold meshCursor. rewrite plain_string_len by (rewrite !all_chars_app, Hr1, Ho1; done).
  rewrite !str_len_app. change (str_len "s") with 1. change (str_len ".") with 1. lia.
Qed.
Lemma cursor_after_len (full : SessionsPage) n :
  0 ≤ sp_SourceRevision full → json_string_len (cursor_after full n) ≤ 45.
Proof.
  intros Hr. unfold cursor_after. destruct (_ <? _)%nat; [|by vm_compute]. apply meshCursor_len; [exact Hr|lia].
Qed.
Lemma json_scopes_bound scopes :
  Forall (λ s, SessionView.ProfileScope_Validate s = Ok tt) scopes → json_len (JArray (JString <$> scopes)) ≤ 2 + 74 * Z.of_nat (length scopes).
Proof.
  intros Hs. cbn [json_len]. rewrite length_fmap. unfold brackets_len.
  assert (sum_z (json_len <$> (JString <$> scopes)) ≤ 73 * Z.of_nat (length scopes)); [|lia].
  induction Hs as [|s l Hs _ IH]; [done|]. rewrite !fmap_cons, sum_z_cons. cbn [json_len length].
  destruct (scope_plain s Hs) as [Hp Hl]. rewrite plain_string_len by done. lia.
Qed.

(** Inventories whose every page makes progress. *)
Record pageable (full : SessionsPage) : Prop := {
  pa_epoch : json_string_len (sp_SourceEpoch full) ≤ 200;
  pa_revision : 0 ≤ sp_SourceRevision full;
  pa_scopes : Forall (λ s, SessionView.ProfileScope_Validate s = Ok tt) (sp_ProfileScopes full);
  pa_few : (length (sp_ProfileScopes full) <= 128)%nat;
  pa_sessions : Forall (λ s, ∃ now, wire_summary now s) (sp_Sessions full) }.

Lemma single_fits full items next :
  pageable full → (length items <= 1)%nat → Forall (λ s, ∃ now, wire_summary now s) items → json_string_len next ≤ 45 →
  meshResultFits (pg_page full items next) = true.
Proof.
  intros [He Hr Hs Hf _] Hone Hitems Hnext. unfold meshResultFits. apply Z.leb_le.
  cbn [pg_json pg_page sessions_paged]. unfold json_sessions_page. cbn [sp_SourceEpoch sp_SourceRevision sp_ProfileScopes sp_Sessions sp_NextCursor].
  assert (json_len (JArray (json_summary <$> items)) ≤ 2 + maxMetadataBytes) as Hi.
  { destruct items as [|s [|]]; [done| |simpl in Hone; lia]. apply Forall_singleton in Hitems as [now Hw].
    pose proof (proj1 (json_summary_fits _ _ Hw)). cbn [json_len fmap list_fmap length]. rewrite sum_z_cons.
    change (sum_z []) with 0. change (brackets_len 1) with 2. lia. }
  pose proof (json_scopes_bound _ Hs) as Hsc. pose proof (proj2 (FormatUint_plain _ Hr)) as Hrev.
  pose proof (omit_empty_len "next_cursor" next) as Hc. set (ms := _ ++ _).
  pose proof (object_bound ms) as Hob. subst ms. rewrite !members_app, !member_len, json_len_string in Hob.
  change (json_string_len "source_epoch") with 14 in *. change (json_string_len "source_revision") with 17 in *.
  change (json_string_len "profile_scopes") with 16 in *. change (json_string_len "sessions") with 10 in *.
  change (json_string_len "next_cursor") with 13 in *. change (json_len (json_uint ?n)) with (str_len (FormatUint n)) in Hob.
  unfold maxMetadataBytes in Hi. change meshPageResultBudget with 48128. lia.
Qed.
Lemma page_progress full off : pageable full → meshResultFits (page_of full off 1) = true ∧ meshResultFits (page_of full off 0) = true.
Proof.
  intros Hp. split; unfold page_of; apply single_fits; try done.
  - rewrite length_take. lia.
  - apply Forall_take, Forall_drop, Hp.
  - apply cursor_after_len, Hp.
  - rewrite take_0. cbn. lia.
  - apply cursor_after_len, Hp.
Qed.

Lemma NamedProfileScope_valid name scope : NamedProfileScope name = Ok scope → SessionView.ProfileScope_Validate scope = Ok tt.
Proof.
  unfold NamedProfileScope. destruct (slug_matches name) eqn:Hs; [|done]. intros [= <-].
  unfold SessionView.ProfileScope_Validate. destruct (String.eqb _ _); [done|].
  assert (ProfileName ("profile:" +:+ name) = Some name) as ->; [|done].
  change ((if slug_matches name then Some name else None) = Some name). by rewrite Hs.
Qed.
Lemma local_scopes_ok profile names :
  Forall (λ s, SessionView.ProfileScope_Validate s = Ok tt) (localMeshProfileScopes profile names) ∧
  (length (localMeshProfileScopes profile names) <= S (length names))%nat.
Proof.
  unfold localMeshProfileScopes. destruct (negb _).
  - destruct (NamedProfileScope profile) as [scope|] eqn:Hn; [|split; [constructor|cbn; lia]].
    split; [|cbn; lia]. apply Forall_singleton. by eapply NamedProfileScope_valid.
  - rewrite !sort_strings_Permutation. split.
    + constructor; [done|]. apply Forall_forall. intros s (name & Hname & Hs)%list_elem_of_omap.
      destruct (NamedProfileScope name) as [scope|] eqn:Hn; [|done]. injection Hs as <-. by eapply NamedProfileScope_valid.
    + cbn [length]. apply le_n_S. induction names as [|name names IH]; [done|]. cbn.
      destruct (NamedProfileScope name); cbn; lia.
Qed.
(** What a machine with at most 127 profiles publishes. *)
Lemma local_pageable l a :
  app_ok a → ma_revision a < u64_max → (length (lo_names l) <= 127)%nat → json_string_len (meshEpoch a) ≤ 200 →
  pageable (localMeshSessions l a).1.
Proof.
  intros Ha Hlt Hn He. pose proof (ok_revision a Ha). pose proof (revision_next a ltac:(lia)) as Hr.
  assert (meshEpoch (nextMeshRevision a).2 = meshEpoch a) as Hep by done.
  unfold localMeshSessions. destruct (nextMeshRevision a) as [r a']. cbn [fst snd] in *. subst r.
  destruct (local_scopes_ok (lo_profile l) (lo_names l)) as [Hs Hl]. split; cbn [sp_SourceEpoch sp_SourceRevision sp_ProfileScopes sp_Sessions];
    [by rewrite Hep|lia|done|lia|].
  apply Forall_forall. intros s ([i s0] & _ & Hs0)%list_elem_of_omap. destruct (meshSafeSummary _ _ _) as [s'|] eqn:Hsafe; [|done].
  injection Hs0 as <-. unfold meshSafeSummary in Hsafe. exists (lo_now l i). by apply sanitize_wire in Hsafe as [? _].
Qed.

(** ** Reading to the end *)

Section Completes.
Context `{UrlLib}.

Lemma decoded_length full : length (pg_items (decoded_page full)) = length (sp_Sessions full).
Proof. cbn. apply length_fmap. Qed.
Lemma prune_keeps (m : gmap string (Cached unit SessionsPage)) now k c :
  m !! k = Some c → time_sub now (cc_created c) ≤ meshPageTTL → prune now m !! k = Some c.
Proof. intros Hk Ht. apply map_lookup_filter_Some. split; [done|]. cbn. unfold expired. apply Z.ltb_ge. lia. Qed.

(** A page inside the inventory: some items, and the cursor behind them. *)
Lemma page_inside full off : pageable full → (off < length (sp_Sessions full))%nat →
  ∃ k, buildSessionPage full off 256 = Ok (page_of full off k, (off + k)%nat) ∧ (1 <= k <= 256)%nat ∧
    (off + k <= length (sp_Sessions full))%nat.
Proof.
  intros Hp Hoff. pose proof (buildPage_run full off 256 ltac:(lia) (Nat.lt_le_incl _ _ Hoff)) as Hs. unfold buildSessionPage.
  destruct (buildPage full off 256) as [[page end_]|e]; cbn [page_spec] in Hs.
  - destruct Hs as (k & -> & -> & _ & Hk & Hl & H0 & _). exists k. cbn in Hl, H0.
    split_and!; [done| |lia|exact Hl]. destruct k; [|lia]. specialize (H0 eq_refl). lia.
  - destruct Hs as [_ Hs]. rewrite (proj2 (Nat.eqb_neq _ _)) in Hs by (cbn; lia).
    by rewrite (proj1 (page_progress full off Hp)) in Hs.
Qed.

(** The loop behind one page. *)
Lemma fetch_page call (w1 : MeshApp * list Turn) fuel full n k next cursor w :
  (1 <= k <= 256)%nat → (n + k <= length (sp_Sessions full))%nat →
  Z.of_nat (length (sp_Sessions full)) < 2147483648 → 0 < sp_SourceRevision full ≤ u64_max →
  call (mkPageRequest "" cursor 0) w = (Ok (decoded_page (page_of full n k)), w1) →
  fetch call (S fuel) (Some (taken full n next)) cursor w =
  if (n + k =? length (sp_Sessions full))%nat then (Ok (pg_page (decoded_page full) (pg_items (decoded_page full)) ""), w1)
  else fetch call fuel (Some (taken full (n + k) next)) (meshCursor "s" (sp_SourceRevision full) (Z.of_nat (n + k))) w1.
Proof.
  intros Hk Hl Hlen Hrev Hcall. cbn [fetch]. rewrite Hcall, decoded_page_of. change (Ok ?x ≫= ?f) with (f x). cbv beta.
  unfold response_so_far at 1. unfold taken at 1 2 3.
  rewrite !epoch_page, !revision_page, !scopes_page, String.eqb_refl, Z.eqb_refl, bool_decide_eq_true_2 by done.
  cbn [andb]. change (Ok ?x ≫= ?f) with (f x). cbv beta iota. rewrite items_page.
  assert (length (take k (drop n (pg_items (decoded_page full)))) = k) as Hk'.
  { rewrite length_take, length_drop, decoded_length. lia. }
  rewrite Hk', (proj2 (Nat.ltb_ge _ _)) by lia. fold (taken full n next). rewrite !next_page.
  change (pg_next (taken full n next)) with next. rewrite take_page. unfold cursor_after. change (length (pg_items full)) with (length (sp_Sessions full)).
  destruct (Nat.eqb_spec (n + k) (length (sp_Sessions full))) as [Hend|Hne].
  - rewrite (proj2 (Nat.ltb_ge _ _)) by lia. cbn [String.eqb]. f_equal. f_equal. unfold taken. rewrite items_page, page_page.
    f_equal. rewrite take_ge; [done|]. rewrite decoded_length. lia.
  - rewrite (proj2 (Nat.ltb_lt _ _)) by lia. change (pg_prefix) with "s". change (pg_revision full) with (sp_SourceRevision full).
    rewrite (proj2 (String.eqb_neq _ _)) by (unfold meshCursor; done).
    rewrite bool_decide_eq_false_2 by (intros Hnil; rewrite Hnil in Hk'; simpl in Hk'; lia).
    unfold contiguous. change (@pg_prefix SessionsPage Summary _) with "s".
    rewrite parse_meshCursor by (done || lia). unfold taken at 1 2. rewrite items_page, revision_page, length_take, decoded_length.
    change (pg_revision (decoded_page full)) with (sp_SourceRevision full). rewrite Z.eqb_refl, (proj2 (Z.eqb_eq _ _)) by lia. done.
Qed.

Lemma fetch_continues peer full t0 fuel n next a turns :
  let rev := sp_SourceRevision full in
  pageable full → 0 < rev ≤ u64_max → Z.of_nat (length (sp_Sessions full)) < 2147483648 →
  ma_sessionPages a !! meshPageKey peer rev = Some (mkCached t0 tt full) →
  Forall (λ t, tn_before t = [] ∧ time_sub (se_now1 (tn_env t)) t0 ≤ meshPageTTL) turns →
  (1 <= n < length (sp_Sessions full))%nat → (length (sp_Sessions full) <= n + length turns)%nat →
  (length (sp_Sessions full) <= n + fuel)%nat →
  ∃ w, fetch (answer_sessions peer) fuel (Some (taken full n next)) (meshCursor "s" rev (Z.of_nat n)) (a, turns) =
       (Ok (pg_page (decoded_page full) (pg_items (decoded_page full)) ""), w).
Proof.
  intros rev Hp Hrev Hlen. revert n a turns. induction fuel as [|fuel IH]; intros n a turns Hc Hts Hn Hturns Hfuel; [lia|].
  destruct turns as [|t turns]; [simpl in Hturns; lia|]. apply Forall_cons in Hts as [[Hb Ht] Hts].
  destruct (page_inside full n Hp ltac:(lia)) as (k & Hbuild & Hk & Hnk).
  set (a1 := prunePagesLocked (se_now1 (tn_env t)) a).
  assert (ma_sessionPages a1 !! meshPageKey peer rev = Some (mkCached t0 tt full)) as Hc1 by (by apply prune_keeps).
  assert (∃ a2, answer_sessions peer (mkPageRequest "" (meshCursor "s" rev (Z.of_nat n)) 0) (a, t :: turns) =
      (Ok (decoded_page (page_of full n k)), (a2, turns)) ∧
      ((n + k)%nat ≠ length (sp_Sessions full) → a2 = a1)) as (a2 & Hans & Ha2).
  { cbn [answer_sessions]. rewrite Hb. change (serve_all [] a) with a. unfold localMeshSessionsPage. cbn [pq_Limit pq_Cursor].
    change (meshPageLimit 0 meshPageItemMax) with (@Ok AppError Z 256). cbv iota.
    rewrite (proj2 (String.eqb_neq _ _)) by (unfold meshCursor; done). rewrite parse_meshCursor by (done || lia).
    unfold nextSessionPage. fold a1. rewrite Nat2Z.id, Hc1. cbn [cc_response].
    rewrite (proj2 (Nat.leb_gt _ _)) by lia. change (Z.to_nat 256) with 256%nat. rewrite Hbuild.
    eexists. split; [done|]. intros Hne. by rewrite (proj2 (Nat.eqb_neq _ _)). }
  rewrite (fetch_page _ _ fuel full n k next _ _ Hk Hnk Hlen Hrev Hans).
  destruct (Nat.eqb_spec (n + k) (length (sp_Sessions full))) as [|Hne]; [by eexists|].
  rewrite (Ha2 Hne). apply IH; [exact Hc1|exact Hts|lia|simpl in Hturns; lia|lia].
Qed.

(** A first page: of an empty inventory, or some of its items. *)
Lemma first_page full : pageable full →
  ∃ k, buildSessionPage full 0 256 = Ok (page_of full 0 k, k) ∧ (k <= 256)%nat ∧
    (k <= length (sp_Sessions full))%nat ∧ (k = 0%nat → length (sp_Sessions full) = 0%nat).
Proof.
  intros Hp. destruct (decide (length (sp_Sessions full) = 0%nat)) as [H0|H0].
  - exists 0%nat. split_and!; [|lia|lia|done]. unfold buildSessionPage, buildPage. cbn [pg_items sessions_paged].
    rewrite H0, Nat.eqb_refl. assert (pg_page full [] "" = page_of full 0 0) as ->.
    { unfold page_of, cursor_after. cbn [pg_items sessions_paged]. by rewrite H0, take_0. }
    by rewrite (proj2 (page_progress full 0 Hp)).
  - destruct (page_inside full 0 Hp ltac:(lia)) as (k & Hb & Hk & Hl). exists k. by split_and!; [|lia..].
Qed.
Lemma fetch_first_page call (w1 : MeshApp * list Turn) fuel full k w :
  (k <= 256)%nat → (k <= length (sp_Sessions full))%nat → (k = 0%nat → length (sp_Sessions full) = 0%nat) →
  Z.of_nat (length (sp_Sessions full)) < 2147483648 → 0 < sp_SourceRevision full ≤ u64_max →
  call (mkPageRequest "" "" 0) w = (Ok (decoded_page (page_of full 0 k)), w1) →
  fetch call (S fuel) None "" w =
  if (k =? length (sp_Sessions full))%nat then (Ok (pg_page (decoded_page full) (pg_items (decoded_page full)) ""), w1)
  else fetch call fuel (Some (taken full k (cursor_after full k))) (meshCursor "s" (sp_SourceRevision full) (Z.of_nat k)) w1.
Proof.
  intros Hk Hl H0 Hlen Hrev Hcall. cbn [fetch]. rewrite Hcall, decoded_page_of. change (Ok ?x ≫= ?f) with (f x). cbv beta.
  unfold response_so_far. change (Ok ?x ≫= ?f) with (f x). cbv beta iota. rewrite drop_0. cbn [Nat.add].
  set (next := cursor_after full k). assert (pg_page
    (pg_page (pg_page (decoded_page full) (take k (pg_items (decoded_page full))) next) []
       (pg_next (pg_page (decoded_page full) (take k (pg_items (decoded_page full))) next)))
    (pg_items (pg_page (pg_page (decoded_page full) (take k (pg_items (decoded_page full))) next) []
       (pg_next (pg_page (decoded_page full) (take k (pg_items (decoded_page full))) next))) ++
     pg_items (pg_page (decoded_page full) (take k (pg_items (decoded_page full))) next))
    (pg_next (pg_page (pg_page (decoded_page full) (take k (pg_items (decoded_page full))) next) []
       (pg_next (pg_page (decoded_page full) (take k (pg_items (decoded_page full))) next)))) = taken full k next) as -> by done.
  rewrite items_page, next_page. assert (length (take k (pg_items (decoded_page full))) = k) as Hk'.
  { rewrite length_take, decoded_length. lia. }
  rewrite Hk', (proj2 (Nat.ltb_ge _ _)) by lia.
  destruct (Nat.eqb_spec k (length (sp_Sessions full))) as [Hend|Hne].
  - assert (next = "") as -> by (unfold next, cursor_after; change (length (pg_items full)) with (length (sp_Sessions full)); by rewrite (proj2 (Nat.ltb_ge _ _)) by lia).
    cbn [String.eqb]. f_equal. f_equal. unfold taken. rewrite items_page, page_page.
    f_equal. rewrite take_ge; [done|]. rewrite decoded_length. lia.
  - assert (next = meshCursor "s" (sp_SourceRevision full) (Z.of_nat k)) as Hnext.
    { unfold next, cursor_after. change (length (pg_items full)) with (length (sp_Sessions full)). by rewrite (proj2 (Nat.ltb_lt _ _)) by lia. }
    rewrite (proj2 (String.eqb_neq _ _)) by (rewrite Hnext; unfold meshCursor; done).
    rewrite bool_decide_eq_false_2 by (intros Hnil; rewrite Hnil in Hk'; simpl in Hk'; lia).
    unfold contiguous. change (@pg_prefix SessionsPage Summary _) with "s". rewrite Hnext.
    rewrite parse_meshCursor by (done || lia). unfold taken at 1 2. rewrite items_page, revision_page, length_take, decoded_length.
    change (pg_revision (decoded_page full)) with (sp_SourceRevision full). rewrite Z.eqb_refl, (proj2 (Z.eqb_eq _ _)) by lia. done.
Qed.
Lemma safe_sessions_length l : (length (safe_sessions l) <= length (lo_catalog l))%nat.
Proof.
  unfold safe_sessions. rewrite <- (length_imap (@pair nat Summary) (lo_catalog l)).
  generalize (imap pair (lo_catalog l)) as views. induction views as [|[i s] views IH]; [done|]. cbn.
  destruct (meshSafeSummary _ _ _); cbn; lia.
Qed.

(** C24: a machine with at most 127 profiles and 4096 sessions can always be
    read: a peer that follows the cursors within the 30 seconds for which they
    are kept, with nothing else asked of the machine meanwhile, gets the whole
    inventory, whatever texts the sessions carry. *)
Theorem inventory_is_readable peer a t turns :
  turn_ok t → app_ok a → ma_revision a + turns_length (t :: turns) ≤ u64_max →
  (length (lo_names (tn_local t)) <= 127)%nat → json_string_len (meshEpoch (serve_all (tn_before t) a)) ≤ 200 →
  (length (lo_catalog (tn_local t)) <= 4096)%nat → (length (lo_catalog (tn_local t)) <= S (length turns))%nat →
  Forall (λ t', tn_before t' = [] ∧ time_sub (se_now1 (tn_env t')) (se_now2 (tn_env t)) ≤ meshPageTTL) turns →
  let full := (localMeshSessions (tn_local t) (serve_all (tn_before t) a)).1 in
  ∃ w, fetch (answer_sessions peer) page_limit None "" (a, t :: turns) =
       (Ok (pg_page (decoded_page full) (pg_items (decoded_page full)) ""), w).
Proof.
  intros [Hb He] Ha Hrevs Hnames Hep Hcat Hturns Hquiet. unfold turns_length in Hrevs. rewrite fmap_cons, sum_z_cons in Hrevs.
  assert (0 ≤ sum_z ((λ t, 1 + Z.of_nat (length (tn_before t))) <$> turns)) as Hrest.
  { clear. induction turns as [|t ts IH]; [done|]. rewrite fmap_cons, sum_z_cons. lia. }
  destruct (serve_all_ok _ _ Hb Ha ltac:(lia)) as [Ha1 Hr1]. set (a1 := serve_all (tn_before t) a) in *.
  pose proof (ok_revision _ Ha1). pose proof (local_pageable (tn_local t) a1 Ha1 ltac:(lia) Hnames Hep) as Hp.
  pose proof (revision_next a1 ltac:(lia)) as Hr3. intros full. fold full in Hp.
  assert (sp_SourceRevision full = ma_revision a1 + 1) as Hrev.
  { unfold full, localMeshSessions. by destruct (nextMeshRevision a1). }
  assert ((length (sp_Sessions full) <= length (lo_catalog (tn_local t)))%nat) as Hlen.
  { etransitivity; [|apply safe_sessions_length]. unfold full, localMeshSessions. by destruct (nextMeshRevision a1). }
  destruct (first_page full Hp) as (k & Hbuild & Hk & Hkl & Hk0).
  set (a2 := (firstSessionPage (tn_env t) peer full 256 (nextMeshRevision a1).2).2).
  assert (answer_sessions peer (mkPageRequest "" "" 0) (a, t :: turns) = (Ok (decoded_page (page_of full 0 k)), (a2, turns))) as Hans.
  { cbn [answer_sessions]. fold a1. unfold localMeshSessionsPage. cbn [pq_Limit pq_Cursor].
    change (meshPageLimit 0 meshPageItemMax) with (@Ok AppError Z 256). cbv iota. change (String.eqb "" "") with true. cbv iota.
    unfold a2, full, localMeshSessions in *. destruct (nextMeshRevision a1) as [r a']. cbn [fst snd] in *.
    unfold firstSessionPage. change (Z.to_nat 256) with 256%nat. by rewrite Hbuild. }
  unfold page_limit. change 4096%nat with (S 4095).
  rewrite (fetch_first_page _ _ 4095 full k _ Hk Hkl Hk0 ltac:(lia) ltac:(lia) Hans).
  destruct (Nat.eqb_spec k (length (sp_Sessions full))) as [|Hne]; [by eexists|].
  eapply (fetch_continues peer full (se_now2 (tn_env t))); [exact Hp|lia|lia| |exact Hquiet|lia|lia|lia].
  unfold a2, firstSessionPage. rewrite Hbuild. cbn [snd]. rewrite (proj2 (Nat.ltb_lt _ _)) by lia. apply lookup_insert_eq.
Qed.
End Completes.
