(* ===== verification/MeshEndToEnd.v ===== *)
(** A session inventory from one machine's catalog to the other's store: what
    [RemoteSessionsList] leaves behind for readers, and that it concerns the
    peer it was called for and no other device. *)

From S2P Require Import Prelude GoText RuneText GoPath Safetext Session HookState MeshTypes GoJson MeshStore MeshFreshness MeshFiles MeshSync MeshInventory MeshBindings MeshStoreFacts MeshListFacts MeshInventoryFacts MeshSyncFacts SessionView PeerRpc MeshWire MeshWireFacts MeshPages MeshPagesFacts.
From stdpp Require Import base gmap strings list sorting.
From Stdlib Require Import ZArith Lia Ascii.

Open Scope Z_scope.

Section Remote.
Context `{UrlLib}.

(** ** The accepted sessions *)

Lemma accepted_sessions_ok clock i scopes sessions acc :
  accepted_sessions clock i scopes sessions = Ok acc →
  Forall2 (λ s a, ∃ t, meshAcceptSummary t s = Ok a.1 ∧ (∃ n, t = clock n) ∧ a.2 = json_Marshal (json_summary a.1) ∧
             sm_Locator a.1 = sm_Locator s ∧ Locator_Validate (sm_Locator s) = Ok tt) sessions acc.
Proof.
  revert i acc. induction sessions as [|s sessions IH]; intros i acc; cbn [accepted_sessions]; [by intros [= <-]|].
  intros ([] & Hloc & Hs)%result_bind_ok. destruct (negb _); [done|].
  apply result_bind_ok in Hs as (clean & Hclean & (rest & Hrest & [= <-])%result_bind_ok).
  constructor; [|by eapply IH]. cbn [fst snd]. destruct (meshAcceptSummary (clock i) s) as [c|] eqn:Ha; [|done]. injection Hclean as ->.
  exists (clock i). unfold lift_text in Hloc. destruct (Locator_Validate (sm_Locator s)) as [[]|] eqn:Hl; [|done].
  split_and!; [done|by exists i|done| |done].
  unfold meshAcceptSummary in Ha. apply result_bind_ok in Ha as (c0 & Hc0 & Ha).
  apply sanitize_wire in Hc0 as [_ [cur ->]].
  destruct (String.eqb _ _); [by injection Ha as <-|]. destruct (cut_prefix _ _); [|by injection Ha as <-].
  destruct (_ || _); by injection Ha as <-.
Qed.

(** ** The pending inventory *)

Definition session_key (peer : string) (s : Summary) : string :=
  nul_key (loc_ProfileScope (remote_locator peer s)) (loc_SessionID (remote_locator peer s)).
Lemma Upsert_pending x l m y :
  SessionInventory_Upsert x l m = Ok y →
  si_pending y = <[nul_key (loc_ProfileScope l) (loc_SessionID l) := mkPending l m]> (si_pending x).
Proof. unfold SessionInventory_Upsert. intros Hu. by inv_ok. Qed.

Lemma upsert_sessions_ok peer x acc y :
  upsert_sessions peer x acc = Ok y →
  upserts x y ∧
  (∀ key item, si_pending y !! key = Some item →
     si_pending x !! key = Some item ∨
     ∃ a, a ∈ acc ∧ key = session_key peer a.1 ∧ item = mkPending (remote_locator peer a.1) a.2) ∧
  (∀ key, is_Some (si_pending x !! key) ∨ (∃ a, a ∈ acc ∧ key = session_key peer a.1) → is_Some (si_pending y !! key)).
Proof.
  revert x. induction acc as [|[s m] acc IH]; intros x; cbn [upsert_sessions].
  { intros [= <-]. split_and!; [done|by left|]. intros key [?|(a & Ha%elem_of_nil & _)]; done. }
  intros (x1 & Hu & (Hr & Hin & Hout)%IH)%result_bind_ok. pose proof (Upsert_pending _ _ _ _ Hu) as Hp.
  split_and!.
  - eapply rtc_l; [|exact Hr]. by exists (remote_locator peer s), m.
  - intros key item [Hx1|(a & Ha & ? & ?)]%Hin.
    + rewrite Hp in Hx1. apply lookup_insert_Some in Hx1 as [[<- <-]|[_ Hx]]; [right|by left].
      exists (s, m). split; [apply elem_of_cons; by left|done].
    + right. exists a. split; [apply elem_of_cons; by right|done].
  - intros key Hkey. apply Hout. destruct (decide (key = session_key peer s)) as [->|Hne].
    { left. rewrite Hp. unfold session_key. rewrite lookup_insert_eq. by eexists. }
    destruct Hkey as [Hx|(a & [->|Ha]%elem_of_cons & Hk)]; [left|done|right; by exists a].
    rewrite Hp, lookup_insert_ne by (unfold session_key in Hne; congruence). exact Hx.
Qed.

(** ** Other devices *)

Lemma Begin_others dev scopes ep rev s x s' :
  BeginSessionInventory dev scopes ep rev s = (Ok x, s') →
  (∀ k, k.1.1 ≠ dev → d_sessions (st_disk s') !! k = d_sessions (st_disk s) !! k) ∧
  (∀ other, other ≠ dev → d_peers (st_disk s') !! other = d_peers (st_disk s) !! other).
Proof.
  unfold BeginSessionInventory. intros Hr.
  apply bind_run_ok in Hr as ([] & s1 & [= Hdev <-] & Hr).
  do 3 apply bind_run_ok in Hr as ([] & ? & [= _ <-] & Hr).
  apply bind_run_ok in Hr as (scopeSet & ? & [= _ <-] & Hr).
  apply bind_run_ok in Hr as ([] & s2 & Hc & Hr). apply bind_run_ok in Hr as ([] & s3 & Hm & Hr). injection Hr as _ <-.
  assert (st_disk s2 = st_disk s) as Hd2.
  { unfold validateSessionInventoryCursorLocked, mbind, M_bind in Hc. rewrite getPeerOpt_run in Hc.
    destruct (optional _) as [[p|]|]; unfold lift, mret, M_ret in Hc; by simplify_eq. }
  rewrite <- Hd2. clear Hc Hd2. unfold markSessionInventorySyncingLocked, markPeerInventoriesSyncingLocked in Hm.
  apply bind_run_ok in Hm as (t & s4 & [= <- <-] & Hm). cbv beta iota zeta in Hm.
  apply bind_run_ok in Hm as ([] & s5 & Hdem & Hm). apply bind_run_ok in Hdem as (ls & s6 & H6 & Hdem).
  rewrite listRemoteSessionsLocked_run in H6. injection H6 as Hls <-. simpl in Hls.
  apply demote_sessions_ok in Hdem as (_ & Hp5 & Hs5). simpl in Hp5, Hs5.
  apply bind_run_ok in Hm as ([] & s7 & [= <-] & Hm).
  apply bind_run_ok in Hm as (peer & s8 & H8 & Hm). rewrite getPeerOrNew_run in H8.
  destruct (optional _) as [found|] eqn:Hf; [|done]. injection H8 as <- <-.
  apply bind_run_ok in Hm as ([] & s9 & [Hw Hd]%writePeer_ok & Hm).
  apply silent_ok in Hm; [|apply publish_silent]. rewrite Hm, Hd.
  assert (dev ≠ "") as Hne by (by apply validateID_chars in Hdev as (? & ? & -> & _)).
  destruct (list_sessions_ok _ _ _ Hne Hls) as (_ & Hval & _).
  split.
  - intros k Hk. cbn. rewrite Hs5. apply insert_all_ne. intros p [_ Hp]%list_elem_of_filter <-.
    apply Hk. by apply Hval.
  - intros other Ho. cbn. rewrite Hp5. rewrite lookup_insert_ne; [done|].
    intros Heq. apply Ho. rewrite <- Heq. etransitivity; [|exact (peer_or_new_device _ _ _ Hf)].
    unfold initializeLegacyTopicFreshness. by repeat case_match.
Qed.

Lemma Commit_others x s y s' :
  pending_wf x → si_deviceID x ≠ "" → SessionInventory_Commit x s = (Ok y, s') →
  (∀ k, k.1.1 ≠ si_deviceID x → d_sessions (st_disk s') !! k = d_sessions (st_disk s) !! k) ∧
  (∀ other, other ≠ si_deviceID x → d_peers (st_disk s') !! other = d_peers (st_disk s) !! other).
Proof.
  intros Hwf Hne Hc. unfold SessionInventory_Commit in Hc. apply bind_run_ok in Hc as ([] & s1 & [= _ <-] & Hc).
  apply bind_run_ok in Hc as ([] & s2 & Hc & [= _ <-]).
  apply commitSessionInventory_inv in Hc as (found & existing & at_ & Hf & Hex & _ & _ & _ & Hd).
  destruct (list_sessions_ok _ _ _ Hne Hex) as (_ & Hval & _). rewrite Hd. split.
  - intros k Hk. cbn. rewrite put_gone_sessions, insert_all_ne.
    + rewrite put_fresh_sessions. apply insert_all_ne. intros i Hi <-. apply Hk. cbn.
      by apply (item_ok x Hwf).
    + intros p [_ Hp]%list_elem_of_filter <-. apply Hk. by apply Hval.
  - intros other Ho. cbn. rewrite put_gone_keeps, put_fresh_keeps by done. rewrite lookup_insert_ne; [done|].
    intros Heq. apply Ho. by rewrite <- Heq.
Qed.

(** ** The commit *)

(** The session of a locator. *)
Definition names_session (l : RemoteSessionLocator) (s : Summary) : Prop :=
  lc_ProfileScope (sm_Locator s) = loc_ProfileScope l ∧ lc_SessionID (sm_Locator s) = loc_SessionID l.
(** What a reader of the peer's sessions finds after [response] was taken:
    one of its sessions of that locator, accepted and fresh, or, where it has
    none, nothing or a session that is gone. *)
Definition reads_as (clock : nat → Time) (response : SessionsPage) (l : RemoteSessionLocator)
    (r : result MeshError RemoteSessionProjection) : Prop :=
  (∃ s clean n p, s ∈ sp_Sessions response ∧ names_session l s ∧ meshAcceptSummary (clock n) s = Ok clean ∧
     r = Ok p ∧ rs_Freshness p = FreshnessFresh ∧ rs_Metadata p = indented (json_Marshal (json_summary clean)) ∧
     rs_SourceEpoch p = sp_SourceEpoch response ∧ rs_SourceRevision p = sp_SourceRevision response) ∨
  ((∀ s, s ∈ sp_Sessions response → ¬ names_session l s) ∧
   (r = Err ErrNotFound ∨ ∃ p, r = Ok p ∧ rs_Freshness p = FreshnessGone)).

Lemma commitRemoteSessions_ok clock peer response s s' :
  commitRemoteSessions clock peer response s = (Ok tt, s') → sessions_valid (st_disk s') →
  (∀ k, k.1.1 ≠ peer → d_sessions (st_disk s') !! k = d_sessions (st_disk s) !! k) ∧
  (∀ other, other ≠ peer → d_peers (st_disk s') !! other = d_peers (st_disk s) !! other) ∧
  (∀ l, locator_ok l → loc_DeviceID l = peer → reads_as clock response l (view_session (st_disk s') l)).
Proof.
  unfold commitRemoteSessions. destruct (mbind _ _) as [acc|] eqn:Hacc; [|done].
  apply result_bind_ok in Hacc as ([] & _ & (scopes & _ & ([] & _ & Hacc)%result_bind_ok)%result_bind_ok).
  apply accepted_sessions_ok in Hacc. unfold in_store.
  match goal with |- context [let '(_, _) := ?run in _] => destruct run as [r s1] eqn:Hrun end.
  destruct r as [[]|]; [|done]. intros [= <-] Hvalid.
  apply bind_run_ok in Hrun as (x0 & s2 & Hbegin & Hrun).
  apply bind_run_ok in Hrun as (x & s3 & Hups & Hrun). unfold lift in Hups. injection Hups as Hups <-.
  apply bind_run_ok in Hrun as (y & s4 & Hcommit & [= <-]).
  destruct (BeginSessionInventory_ok _ _ _ _ _ _ _ Hbegin) as (_ & Hdev & Hep & Hrev & Hnil & Hwf0).
  destruct (Begin_others _ _ _ _ _ _ _ Hbegin) as [Hs1 Hp1].
  destruct (upsert_sessions_ok _ _ _ _ Hups) as (Hr & Hin & Hout).
  destruct (upserts_wf _ _ Hwf0 Hr) as [Hwf Hdx]. rewrite Hdev in Hdx.
  assert (si_epoch x = si_epoch x0 ∧ si_revision x = si_revision x0) as [Hex Hrx].
  { clear -Hr. induction Hr as [|x y z (l & m & Hu) _ [IH1 IH2]]; [done|].
    apply Upsert_header in Hu as (_ & He & Hv & _). by rewrite IH1, IH2, He, Hv. }
  rewrite Hep in Hex. rewrite Hrev in Hrx.
  destruct (SessionInventory_Commit_peer _ _ _ _ Hcommit) as (_ & Hdevice & _).
  pose proof (commit_device_nonempty _ Hdevice) as Hne.
  destruct (Commit_others _ _ _ _ Hwf Hne Hcommit) as [Hs2 Hp2]. rewrite Hdx in *. split_and!.
  - intros k Hk. rewrite Hs2, Hs1 by done. done.
  - intros o Ho. rewrite Hp2, Hp1 by done. done.
  - intros l Hl Hld. pose proof (committed_inventory_view x _ _ _ l Hwf Hcommit Hvalid Hl ltac:(by rewrite Hdx)) as Hview.
    unfold inventory_spec in Hview. destruct (si_pending x !! _) as [item|] eqn:Hpend.
    + left. destruct (Hin _ _ Hpend) as [Hx|(a & Ha & Hk & ->)]; [by rewrite Hnil in Hx|].
      destruct (Hwf _ _ Hpend) as (_ & Hlok & _). cbn [pp_locator] in Hlok.
      destruct (proj1 (list_elem_of_lookup _ _) Ha) as [n Hn].
      destruct (Forall2_lookup_r _ _ _ _ _ Hacc Hn) as (s0 & Hs0 & t & Hat & [i ->] & Hm & Hloc & _).
      destruct Hview as (p & Hv & Hf & Hmeta & He & Hrv).
      apply nul_key_inj in Hk as [Hk1 Hk2]; [|by apply lok_scope..]. cbn in Hk1, Hk2. rewrite Hloc in Hk1, Hk2.
      exists s0, a.1, i, p. split_and!; [by eapply list_elem_of_lookup_2|by split|exact Hat|exact Hv|done| | |].
      * rewrite Hmeta, <- Hm. done.
      * by rewrite He.
      * by rewrite Hrv.
    + right. split.
      * intros s0 Hs0 [Hn1 Hn2]. destruct (proj1 (list_elem_of_lookup _ _) Hs0) as [n Hn].
        destruct (Forall2_lookup_l _ _ _ _ _ Hacc Hn) as (a & Ha & t & _ & _ & _ & Hloc & _).
        assert (is_Some (si_pending x !! nul_key (loc_ProfileScope l) (loc_SessionID l))) as [? Hsome]; [|by rewrite Hpend in Hsome].
        apply Hout. right. exists a. split; [by eapply list_elem_of_lookup_2|]. unfold session_key, remote_locator. cbn.
        by rewrite Hloc, Hn1, Hn2.
      * destruct (d_sessions (st_disk s2) !! skey l); [right|left]; exact Hview.
Qed.

Lemma keeps_with_peers {T A} (proj : Disk → T) (device : A → string) eff cache l : keeps proj (with_peers device eff cache l).
Proof. revert cache. induction l as [|x l IH]; intros cache; cbn [with_peers]; respects; try apply IH. Qed.
Lemma keeps_ListRemoteSessions {T} (proj : Disk → T) dev scope : keeps proj (ListRemoteSessions dev scope).
Proof. unfold ListRemoteSessions. respects; try apply keeps_with_peers. Qed.

(** A listing reads every session file. *)
Lemma listed_valid dev scope s l s' : ListRemoteSessions dev scope s = (Ok l, s') → sessions_valid (st_disk s).
Proof.
  unfold ListRemoteSessions. intros Hr. do 2 apply bind_run_ok in Hr as ([] & ? & [= _ <-] & Hr).
  apply bind_run_ok in Hr as (ls & s2 & Hls & _). rewrite listRemoteSessionsLocked_run in Hls.
  injection Hls as Hls _. unfold list_sessions in Hls. apply result_bind_ok in Hls as (out & Hout & _).
  apply read_all_ok in Hout as [Hall _]. intros k f Hf p Hp.
  destruct (Hall k f) as (q & Hq & [Hv _]%accept_session_ok); [by apply elem_of_map_to_list|]. congruence.
Qed.

Context {W : Type}.
Lemma RemoteSessionsList_ok (call : PageRequest → W → result AppError SessionsPage * W) clock peer w s listed w' s' :
  RemoteSessionsList call clock peer w s = (Ok listed, w', s') →
  ∃ response, fetch call page_limit None "" w = (Ok response, w') ∧
    (∃ s1, commitRemoteSessions clock peer response s = (Ok tt, s1) ∧ st_disk s' = st_disk s1 ∧
       sessions_valid (st_disk s1)).
Proof.
  unfold RemoteSessionsList. destruct (fetch _ _ _ _ _) as [[response|] w1] eqn:Hf; [|done].
  destruct (commitRemoteSessions _ _ _ _) as [[[]|] s1] eqn:Hc; [|done].
  unfold in_store. destruct (ListRemoteSessions peer "" s1) as [r s2] eqn:Hl. destruct r as [r|]; [|done].
  intros [= <- <- <-]. exists response. split; [done|]. exists s1. split; [exact Hc|].
  pose proof (keeps_ListRemoteSessions id peer "" s1) as Hk. rewrite Hl in Hk. split; [exact Hk|].
  eapply listed_valid, Hl.
Qed.

(** C22: when a machine's session list succeeds against a peer, whatever that
    peer answered, the sessions it reads back of that peer are fresh and are
    (as JSON values, in the store's indented text) accepted sessions of the one
    inventory that was read, everything of the peer
    that the inventory does not name is gone or unknown, and no record of any
    other device has changed. *)
Theorem remote_sessions_committed (call : PageRequest → W → result AppError SessionsPage * W) clock peer w s listed w' s' :
  RemoteSessionsList call clock peer w s = (Ok listed, w', s') →
  ∃ response, fetch call page_limit None "" w = (Ok response, w') ∧
    (∀ l, RemoteSessionLocator_Validate l = Ok tt → loc_DeviceID l = peer →
       reads_as clock response l (GetRemoteSession l s').1) ∧
    (∀ k, k.1.1 ≠ peer → d_sessions (st_disk s') !! k = d_sessions (st_disk s) !! k) ∧
    (∀ other, other ≠ peer → d_peers (st_disk s') !! other = d_peers (st_disk s) !! other).
Proof.
  intros (response & Hf & s1 & Hc & Hd & Hvalid)%RemoteSessionsList_ok. exists response.
  destruct (commitRemoteSessions_ok _ _ _ _ _ Hc Hvalid) as (Hs & Hp & Hl). rewrite Hd. split_and!; [done| |done|done].
  intros l Hv Hld. rewrite GetRemoteSession_run by done. cbn [fst]. rewrite Hd. apply Hl; [by apply locator_Validate_ok|done].
Qed.
End Remote.

(** ** From a catalog to the other store *)

Lemma locator_version l : Locator_Validate l = Ok tt → lc_Version l = LocatorVersion.
Proof. unfold Locator_Validate. by intros ([] & Hv%guard_err_ok%Z.eqb_eq & _)%result_bind_ok. Qed.


Section EndToEnd.
Context `{UrlLib}.

Lemma safe_sessions_elem l s' :
  s' ∈ safe_sessions l ↔ ∃ i s, lo_catalog l !! i = Some s ∧ meshSafeSummary (lo_home l) (lo_now l i) s = Ok s'.
Proof.
  unfold safe_sessions. rewrite list_elem_of_omap. split.
  - intros ([i s] & Hin & Hs). apply list_elem_of_lookup in Hin as [j Hj]. rewrite list_lookup_imap in Hj.
    destruct (lo_catalog l !! j) as [s0|] eqn:Hc; [|done]. injection Hj as <- <-. exists j, s0. split; [done|].
    by destruct (meshSafeSummary _ _ _) as [s1|]; [injection Hs as <-|].
  - intros (i & s & Hc & Hs). exists (i, s). rewrite Hs. split; [|done]. apply list_elem_of_lookup_2 with i.
    by rewrite list_lookup_imap, Hc.
Qed.
Lemma safe_locator home now s s' : meshSafeSummary home now s = Ok s' → sm_Locator s' = sm_Locator s.
Proof. unfold meshSafeSummary. intros [_ [cur ->]]%sanitize_wire. done. Qed.

(** C21: a session in one machine's catalog, published and fetched page by page
    while others ask for whatever they like, is what a reader finds at the
    other machine, fresh and under the peer's device, with exactly the JSON
    value that was published, in the indented text the store keeps. *)
Theorem published_session_reads_back me peer clock a t turns s listed w' s' i view published :
  Forall turn_ok (t :: turns) → app_ok a → ma_revision a + turns_length (t :: turns) ≤ u64_max →
  NoDup (sm_Locator <$> lo_catalog (tn_local t)) →
  lo_catalog (tn_local t) !! i = Some view →
  (∀ c, sm_CurrentWork view = Some c → normalized c) → (∀ n, t_ns (lo_now (tn_local t) i) ≤ t_ns (clock n)) →
  (let hint := meshPathHint (lo_home (tn_local t)) (sm_LaunchCWD view) in meshCleanText hint meshSessionCWDRunes = hint) →
  meshSafeSummary (lo_home (tn_local t)) (lo_now (tn_local t) i) view = Ok published →
  RemoteSessionLocator_Validate (remote_locator peer view) = Ok tt →
  RemoteSessionsList (answer_sessions me) clock peer (a, t :: turns) s = (Ok listed, w', s') →
  ∃ p, (GetRemoteSession (remote_locator peer view) s').1 = Ok p ∧ rs_Freshness p = FreshnessFresh ∧
    rs_Metadata p = indented (json_Marshal (json_summary published)).
Proof.
  intros Hts Ha Hlen Hnd Hview Hwork Hclock Hhint Hsafe Hvalid (response & Hf & s1 & Hc & Hd & Hread)%RemoteSessionsList_ok.
  apply fetch_one_inventory in Hf; [|done..]. cbv zeta in Hf.
  destruct (commitRemoteSessions_ok _ _ _ _ _ Hc Hread) as (_ & _ & Hl). rewrite GetRemoteSession_run by done. cbn [fst].
  rewrite Hd. specialize (Hl (remote_locator peer view) (locator_Validate_ok _ Hvalid) eq_refl).
  assert (sp_Sessions response = decoded_summary <$> safe_sessions (tn_local t)) as Hsess.
  { rewrite Hf. unfold localMeshSessions. by destruct (nextMeshRevision _). }
  assert (published ∈ safe_sessions (tn_local t)) as Hpub by (apply safe_sessions_elem; by exists i, view).
  destruct Hl as [(s0 & clean & n & p & Hin & Hname & Hacc & Hp & Hfr & Hm & _)|[Hnone _]].
  - exists p. split; [done|]. split; [done|]. rewrite Hm. rewrite Hsess in Hin. apply list_elem_of_fmap in Hin as (s2 & -> & Hs2).
    apply safe_sessions_elem in Hs2 as (j & view' & Hj & Hsafe').
    assert (sm_Locator view' = sm_Locator view) as Hloc.
    { destruct Hname as [Hn1 Hn2]. cbn in Hn1, Hn2. rewrite (safe_locator _ _ _ _ Hsafe') in Hn1, Hn2.
      pose proof (proj1 (sanitize_wire _ _ _ Hsafe)) as Hw. pose proof (proj1 (sanitize_wire _ _ _ Hsafe')) as Hw'.
      apply ws_locator in Hw, Hw'. rewrite (safe_locator _ _ _ _ Hsafe) in Hw. rewrite (safe_locator _ _ _ _ Hsafe') in Hw'.
      apply locator_version in Hw, Hw'. destruct (sm_Locator view), (sm_Locator view'); simpl in *; congruence. }
    assert (j = i) as ->.
    { eapply NoDup_lookup; [exact Hnd| |]; rewrite list_lookup_fmap; [by rewrite Hj|rewrite Hview; cbn; by rewrite Hloc]. }
    rewrite Hview in Hj. injection Hj as <-. rewrite Hsafe in Hsafe'. injection Hsafe' as <-.
    destruct (published_is_accepted _ _ (clock n) _ _ Hwork (Hclock n) Hsafe) as (cwd & Hacc' & Hpriv & Hkeep).
    rewrite Hacc in Hacc'. injection Hacc' as ->. rewrite (Hkeep Hhint). done.
  - exfalso. apply (Hnone (decoded_summary published)).
    + rewrite Hsess. by apply list_elem_of_fmap_2.
    + unfold names_session. cbn. by rewrite (safe_locator _ _ _ _ Hsafe).
Qed.
End EndToEnd.
