(* ===== verification/MeshSubs.v ===== *)
(** internal/daemon/mesh_application.go, following other machines: who is
    subscribed to this machine's events, what this machine wants to follow, the
    events and gaps it sends, and the workers that read a peer's inventories
    again when something there has changed. *)

From S2P Require Import Prelude GoText RuneText GoPath Safetext Session HookState MeshTypes GoJson MeshStore MeshFreshness MeshFiles MeshSync MeshInventory SessionView PeerRegistry PeerRpc PeerEvents PeerLink MeshWire MeshPages.
From stdpp Require Import base gmap strings list sorting.
From Stdlib Require Import ZArith Lia Ascii.

Open Scope Z_scope.

(** ** State *)

(** [connectedAt] is [None] for the zero time. *)
Record meshPeerSubscription := mkSubscription { su_connectedAt : option Z; su_topics : gset string; su_needsGap : bool }.
Record meshSyncState := mkSyncState { sy_dirty : bool; sy_resubscribe : bool }.
Record MeshSubs := mkSubs {
  sb_subs : gmap string meshPeerSubscription;
  sb_outbound : gmap string meshPeerSubscription;
  sb_syncing : gmap string meshSyncState;
  sb_running : bool;
  sb_store : Store }.
Definition set_subs (m : gmap string meshPeerSubscription) (a : MeshSubs) : MeshSubs :=
  mkSubs m (sb_outbound a) (sb_syncing a) (sb_running a) (sb_store a).
Definition set_outbound (m : gmap string meshPeerSubscription) (a : MeshSubs) : MeshSubs :=
  mkSubs (sb_subs a) m (sb_syncing a) (sb_running a) (sb_store a).
Definition set_syncing (m : gmap string meshSyncState) (a : MeshSubs) : MeshSubs :=
  mkSubs (sb_subs a) (sb_outbound a) m (sb_running a) (sb_store a).
Definition set_running (b : bool) (a : MeshSubs) : MeshSubs :=
  mkSubs (sb_subs a) (sb_outbound a) (sb_syncing a) b (sb_store a).
Definition set_store (s : Store) (a : MeshSubs) : MeshSubs :=
  mkSubs (sb_subs a) (sb_outbound a) (sb_syncing a) (sb_running a) s.
(** A store operation of the application. *)
Definition run_store {A} (m : H A) (a : MeshSubs) : result AppError A * MeshSubs :=
  let '(r, s) := in_store m (sb_store a) in (r, set_store s a).

(** ** Connections *)

Definition meshConnectedAt (m : Links) (peer : string) : option Z :=
  head (omap (λ st, if String.eqb (st_PeerID st) peer && String.eqb (ls_State (st_link st)) "connected"
                    then ls_ConnectedAt (st_link st) else None) (Status_list m)).

(** ** Subscriptions of other machines *)

Definition replacePeerSubscription (m : Links) (peer : string) (topics : list string) (a : MeshSubs)
  : result AppError unit * MeshSubs :=
  match meshConnectedAt m peer with
  | None => (Err ErrPeerDisconnected, a)
  | Some connectedAt =>
      let set : gset string := list_to_set topics in
      (Ok tt, set_subs (if bool_decide (set = ∅) then delete peer (sb_subs a)
                        else <[peer := mkSubscription (Some connectedAt) set false]> (sb_subs a)) a)
  end.
Definition clearPeerSubscription (peer : string) (a : MeshSubs) : MeshSubs := set_subs (delete peer (sb_subs a)) a.
Definition clearSubscriptionUnlessConnection (peer : string) (connectedAt : Z) (a : MeshSubs) : MeshSubs :=
  match sb_subs a !! peer with
  | Some current => if bool_decide (su_connectedAt current = Some connectedAt) then a else clearPeerSubscription peer a
  | None => a
  end.
(** The handler of [events.subscribe]. *)
Definition handleSubscribe (m : Links) (principal : Principal) (topics : list string) (a : MeshSubs)
  : result AppError (list string) * MeshSubs :=
  match (topics ← validateMeshTopics topics; _ ← authorizeMeshTopics principal topics; Ok topics) with
  | Err e => (Err e, a)
  | Ok topics =>
      match replacePeerSubscription m (pr_PeerID principal) topics a with
      | (Ok _, a) => (Ok topics, a)
      | (Err e, a) => (Err e, a)
      end
  end.
Definition handleUnsubscribe (principal : Principal) (a : MeshSubs) : list string * MeshSubs :=
  ([], clearPeerSubscription (pr_PeerID principal) a).

(** ** Sending events *)

Definition subscribedToAny (subscription : meshPeerSubscription) (topics : list string) : bool :=
  existsb (λ topic, bool_decide (topic ∈ su_topics subscription)) topics.
Definition markMeshGap (peer : string) (connectedAt : option Z) (a : MeshSubs) : MeshSubs :=
  match sb_subs a !! peer with
  | Some s =>
      if bool_decide (su_connectedAt s = connectedAt)
      then set_subs (<[peer := mkSubscription (su_connectedAt s) (su_topics s) true]> (sb_subs a)) a else a
  | None => a
  end.
(** Whether the subscription is of the connection the peer has now. *)
Definition still_connected (m : Links) (peer : string) (connectedAt : option Z) : bool :=
  match meshConnectedAt m peer with Some c => bool_decide (connectedAt = Some c) | None => false end.
(** One round of the loop over the copied subscriptions, in its stretches: the
    look at the connections the peer has at that moment, and what follows the
    answer of [manager.SendEvent]. [SendEvent] looks the peer up again, so [send]
    is an answer of a later moment, and of the connection the peer has then; between
    the stretches, and between two rounds, other goroutines may act. *)
Definition send_check (m : Links) (topics : list string) (peer : string) (subscription : meshPeerSubscription) : bool :=
  still_connected m peer (su_connectedAt subscription) && subscribedToAny subscription topics.
Definition send_settle (peer : string) (subscription : meshPeerSubscription) (answer : result SendErr unit) (a : MeshSubs) : MeshSubs :=
  match answer with Err (SendCall ErrBackpressure) => markMeshGap peer (su_connectedAt subscription) a | _ => a end.
Definition send_to (m : Links) (topics : list string) (send : string → result SendErr unit)
    (peer : string) (subscription : meshPeerSubscription) (a : MeshSubs) : option (result SendErr unit) * MeshSubs :=
  if send_check m topics peer subscription then (Some (send peer), send_settle peer subscription (send peer) a) else (None, a).
(** [copied] is the copy of the subscriptions in the order of the loop; the
    answer is what was handed to the manager and what it said. *)
Fixpoint send_all (m : Links) (topics : list string) (send : string → result SendErr unit)
    (copied : list (string * meshPeerSubscription)) (a : MeshSubs) : list (string * result SendErr unit) * MeshSubs :=
  match copied with
  | [] => ([], a)
  | (peer, subscription) :: rest =>
      let '(sent, a) := send_to m topics send peer subscription a in
      let '(more, a) := send_all m topics send rest a in
      (match sent with Some r => (peer, r) :: more | None => more end, a)
  end.
Definition sendMeshEventToTopics (order : list (string * meshPeerSubscription) → list (string * meshPeerSubscription))
    (m : Links) (topics : list string) (send : string → result SendErr unit) (a : MeshSubs)
  : list (string * result SendErr unit) * MeshSubs :=
  send_all m topics send (order (map_to_list (sb_subs a))) a.

(** Gaps that could not be queued are tried again: the peers that need one, the
    sending to one of them, and the clearing of its mark. *)
Definition pending_gaps (a : MeshSubs) : list (string * option Z) :=
  omap (λ ps, if su_needsGap ps.2 then Some (ps.1, su_connectedAt ps.2) else None) (map_to_list (sb_subs a)).
Definition retry_send (m : Links) (send : string → result SendErr unit) (peer : string) (expected : option Z)
  : option (result SendErr unit) :=
  if still_connected m peer expected then Some (send peer) else None.
Definition retry_clear (peer : string) (expected : option Z) (a : MeshSubs) : MeshSubs :=
  match sb_subs a !! peer with
  | Some s =>
      if bool_decide (su_connectedAt s = expected)
      then set_subs (<[peer := mkSubscription (su_connectedAt s) (su_topics s) false]> (sb_subs a)) a else a
  | None => a
  end.
Fixpoint retry_all (m : Links) (send : string → result SendErr unit) (pending : list (string * option Z)) (a : MeshSubs)
  : MeshSubs :=
  match pending with
  | [] => a
  | (peer, expected) :: rest =>
      let a := match retry_send m send peer expected with Some (Ok _) => retry_clear peer expected a | _ => a end in
      retry_all m send rest a
  end.
Definition retryMeshGaps (m : Links) (send : string → result SendErr unit) (a : MeshSubs) : MeshSubs :=
  retry_all m send (pending_gaps a) a.

(** ** What an event is made of *)

Record SessionEvent := mkSessionEvent {
  se_Kind : string; se_Epoch : string; se_Revision : Z; se_Scope : string; se_SessionID : string; se_Session : option Detail }.
(** A state change of a session; [found] is what the catalog says of it, and
    the revision is taken only for an event that is sent. *)
Definition forwardMeshSessionEvent (home : option string) (now : Time) (type state scope sessionID : string)
    (found : option Detail) (app : MeshApp) : option SessionEvent * MeshApp :=
  if negb (String.eqb type "state_changed") || String.eqb sessionID "" then (None, app) else
  let event kind detail :=
    let '(revision, app') := nextMeshRevision app in
    (Some (mkSessionEvent kind (meshEpoch app) revision scope sessionID detail), app') in
  if String.eqb state "exited" || String.eqb state "failed" then event "remove" None else
  match NewLocator scope sessionID with
  | Err _ => (None, app)
  | Ok _ =>
      match found with
      | None => (None, app)
      | Some d => match meshSafeDetail home now d with Ok safe => event "upsert" (Some safe) | Err _ => (None, app) end
      end
  end.

Section Following.
Context `{UrlLib}.

(** A change of the store: a gap for both topics, or an artifact. *)
Inductive StoreEvent := GapEvent (change : Change) | ArtifactEvent (change : Change) (reference : ArtifactReference).
Definition forwardMeshStoreChange (change : Change) (a : MeshSubs) : option StoreEvent * MeshSubs :=
  match chg_Type change with
  | ChangeGap => (Some (GapEvent change), a)
  | ChangeUpsert =>
      match chg_Entity change with
      | EntityArtifact =>
          match split_on "/" (chg_Key change) with
          | kind :: id :: more =>
              let '(got, a) := run_store (GetArtifact kind (join_slash (id :: more))) a in
              match (artifact ← got; meshArtifactReferenceFromEnvelope artifact) with
              | Ok reference => (Some (ArtifactEvent change reference), a)
              | Err _ => (None, a)
              end
          | _ => (None, a)
          end
      | _ => (None, a)
      end
  | _ => (None, a)
  end.
Definition event_topics (e : StoreEvent) : list string :=
  match e with GapEvent _ => [meshTopicSessions; meshTopicArtifacts] | ArtifactEvent _ _ => [meshTopicArtifacts] end.

(** ** What this machine follows *)

Definition desiredMeshTopics (peer : string) (a : MeshSubs) : list string :=
  match sb_outbound a !! peer with Some s => sort_strings (elements (su_topics s)) | None => [] end.
Definition connectedDesiredMeshPeers (m : Links) (a : MeshSubs) : list string :=
  sort_strings (List.filter (λ peer, bool_decide (is_Some (meshConnectedAt m peer))) (map_to_list (sb_outbound a)).*1).
Definition meshSubscriptionNeedsRestore (m : Links) (peer : string) (a : MeshSubs) : bool :=
  match meshConnectedAt m peer, sb_outbound a !! peer with
  | Some connectedAt, Some s => negb (bool_decide (su_connectedAt s = Some connectedAt))
  | _, _ => false
  end.

Definition want (topics : list string) (peer : string) (connectedAt : option Z) (m : gmap string meshPeerSubscription)
  : gmap string meshPeerSubscription :=
  let set : gset string := list_to_set topics in
  if bool_decide (set = ∅) then delete peer m else <[peer := mkSubscription connectedAt set false]> m.
Definition setDesiredMeshTopics (peer : string) (topics : list string) (connectedAt : option Z) (a : MeshSubs)
  : result AppError unit * MeshSubs :=
  match run_store (SetDesiredTopics peer topics) a with
  | (Err e, a) => (Err e, a)
  | (Ok _, a) => (Ok tt, set_outbound (want topics peer connectedAt (sb_outbound a)) a)
  end.

(** [SubscribeMeshPeer] before the call to the peer, and behind it; [answer] is
    what the peer said it accepted. *)
Definition subscribe_begin (peer : string) (topics : list string) (a : MeshSubs) : result AppError (list string) * MeshSubs :=
  match validateMeshTopics topics with
  | Err e => (Err e, a)
  | Ok topics =>
      match setDesiredMeshTopics peer topics None a with
      | (Err e, a) => (Err e, a)
      | (Ok _, a) => (Ok topics, a)
      end
  end.
Definition subscribe_finish (m : Links) (peer : string) (topics : list string) (answer : result AppError (list string))
    (a : MeshSubs) : result AppError (list string) * MeshSubs :=
  match (answer ← answer; accepted ← validateMeshTopics answer;
         if bool_decide (topics = accepted) then Ok accepted else Err (Failed "response changed requested topics")) with
  | Err e => (Err e, a)
  | Ok accepted =>
      match meshConnectedAt m peer with
      | None => (Err ErrPeerDisconnected, a)
      | Some connectedAt =>
          match setDesiredMeshTopics peer accepted (Some connectedAt) a with
          | (Err e, a) => (Err e, a)
          | (Ok _, a) => (Ok accepted, a)
          end
      end
  end.
Definition UnsubscribeMeshPeer (peer : string) (answer : result AppError unit) (a : MeshSubs) : result AppError unit * MeshSubs :=
  match setDesiredMeshTopics peer [] None a with
  | (Err e, a) => (Err e, a)
  | (Ok _, a) => (answer, a)
  end.

(** From the durable intent: all peers, at a start, and one peer. *)
Fixpoint restored (peers : list PeerState) (m : gmap string meshPeerSubscription) : result AppError (gmap string meshPeerSubscription) :=
  match peers with
  | [] => Ok m
  | p :: rest =>
      topics ← validateMeshTopics (ps_DesiredTopics p);
      restored rest (if bool_decide (topics = []) then m
                     else <[ps_DeviceID p := mkSubscription None (list_to_set topics) false]> m)
  end.
Definition restoreDesiredMeshTopics (a : MeshSubs) : result AppError unit * MeshSubs :=
  let '(peers, a) := run_store ListPeers a in
  match (peers ← peers; restored peers ∅) with
  | Err e => (Err e, a)
  | Ok m => (Ok tt, set_outbound m a)
  end.
Definition sameTopicSet (left right : gset string) : bool :=
  (size left =? size right)%nat && bool_decide (left ⊆ right).
Definition restoreDesiredMeshPeer (peer : string) (a : MeshSubs) : result AppError unit * MeshSubs :=
  let '(topics, a) := run_store (DesiredTopics peer) a in
  match (match topics with
         | Ok topics => validateMeshTopics topics
         | Err (StoreError ErrNotFound) => validateMeshTopics []
         | Err e => Err e
         end) with
  | Err e => (Err e, a)
  | Ok topics =>
      let connectedAt := match sb_outbound a !! peer with
                         | Some active => if sameTopicSet (su_topics active) (list_to_set topics)
                                          then su_connectedAt active else None
                         | None => None
                         end in
      (Ok tt, set_outbound (want topics peer connectedAt (sb_outbound a)) a)
  end.

(** ** Synchronising *)

(** The calls one synchronisation makes: [w] is the peer it talks to. *)
Context {W : Type}.
Record PeerCalls := mkCalls {
  cl_sessions : PageRequest → W → result AppError SessionsPage * W;
  cl_artifacts : PageRequest → W → result AppError ArtifactsPage * W;
  cl_clock : nat → Time }.
Definition syncMeshSessions (c : PeerCalls) (epoch peer : string) (markSyncing : bool) (w : W) (s : Store)
  : result AppError (list RemoteSessionProjection) * W * Store :=
  let '(marked, s) := if markSyncing then in_store (MarkSessionSyncing peer ("pending-" +:+ epoch)) s else (Ok tt, s) in
  match marked with
  | Err e => (Err e, w, s)
  | Ok _ => RemoteSessionsList (cl_sessions c) (cl_clock c) peer w s
  end.
Definition syncMeshArtifacts (c : PeerCalls) (epoch peer : string) (markSyncing : bool) (w : W) (s : Store)
  : result AppError (list ArtifactEnvelope) * W * Store :=
  let '(marked, s) := if markSyncing then in_store (MarkArtifactSyncing peer ("pending-" +:+ epoch)) s else (Ok tt, s) in
  match marked with
  | Err e => (Err e, w, s)
  | Ok _ => RemoteArtifactsList (cl_artifacts c) (cl_clock c) peer "" w s
  end.
Fixpoint sync_topics (c : PeerCalls) (epoch peer : string) (markEach : bool) (topics : list string)
    (projections : list RemoteSessionProjection) (w : W) (s : Store) : result AppError (list RemoteSessionProjection) * W * Store :=
  match topics with
  | [] => (Ok projections, w, s)
  | topic :: rest =>
      if String.eqb topic meshTopicSessions then
        match syncMeshSessions c epoch peer markEach w s with
        | (Err e, w, s) => (Err e, w, s)
        | (Ok projections, w, s) => sync_topics c epoch peer markEach rest projections w s
        end
      else if String.eqb topic meshTopicArtifacts then
        match syncMeshArtifacts c epoch peer markEach w s with
        | (Err e, w, s) => (Err e, w, s)
        | (Ok _, w, s) => sync_topics c epoch peer markEach rest projections w s
        end
      else (Err (Failed "unsupported sync topic"), w, s)
  end.
Definition syncMeshPeerTopics (c : PeerCalls) (epoch peer : string) (topics : list string) (w : W) (s : Store)
  : result AppError (list RemoteSessionProjection) * W * Store :=
  match validateMeshTopics topics with
  | Err e => (Err e, w, s)
  | Ok topics =>
      if (1 <? length topics)%nat then
        let '(marked, s) := in_store (MarkPeerSyncing peer ("pending-" +:+ epoch)) s in
        match marked with
        | Err e => (Err e, w, s)
        | Ok _ => sync_topics c epoch peer false topics [] w s
        end
      else sync_topics c epoch peer true topics [] w s
  end.
Definition SyncMeshSessions (c : PeerCalls) (epoch peer : string) := syncMeshSessions c epoch peer true.
Definition SyncMeshArtifacts (c : PeerCalls) (epoch peer : string) := syncMeshArtifacts c epoch peer true.
Definition SyncMeshPeer (c : PeerCalls) (epoch peer : string) :=
  syncMeshPeerTopics c epoch peer [meshTopicSessions; meshTopicArtifacts].
End Following.
