(* ===== verification/MeshWorkers.v ===== *)
(** internal/daemon/mesh_application.go, the synchronisation workers: one
    goroutine per peer, started by the first edge (an event, a gap, a connection
    or the periodic pass) and kept alive by the edges that arrive while it runs.
    Every access to shared state is a step of its own. *)

From S2P Require Import Prelude GoText MeshTypes MeshStore PeerRpc PeerEvents PeerLink MeshWire MeshPages MeshSubs.
From stdpp Require Import base gmap strings list.
From Stdlib Require Import ZArith Lia.

Open Scope Z_scope.

(** Where a worker is: about to read the runtime context, or the desired
    topics, or to leave for lack of either; reading the inventories of its
    topics; about to take the resubscribe flag; about to record the intent to
    subscribe, or waiting for the peer's answer; about to look at the dirty
    flag. *)
Inductive WorkerAt :=
| AtTop | AtTopics | AtFinish
| AtSync (topics : list string) | AtResubscribe (topics : list string)
| AtSubscribe (topics : list string) | AtCall (topics : list string) | AtEnd.

(** [sw_owed] has the peers for which an edge has arrived since their last pass
    began; the program does not keep it. *)
Record Workers := mkWorkers { sw_app : MeshSubs; sw_workers : gmap string WorkerAt; sw_owed : gset string }.
Definition go_to (peer : string) (at_ : WorkerAt) (a : MeshSubs) (s : Workers) : Workers :=
  mkWorkers a (<[peer := at_]> (sw_workers s)) (sw_owed s).
Definition gone (peer : string) (a : MeshSubs) (s : Workers) : Workers :=
  mkWorkers a (delete peer (sw_workers s)) (sw_owed s).

(** [scheduleMeshSync]: without a runtime the edge is ignored. *)
Definition scheduleMeshSync (peer : string) (resubscribe : bool) (s : Workers) : Workers :=
  let a := sw_app s in
  if negb (sb_running a) then s else
  match sb_syncing a !! peer with
  | Some state =>
      mkWorkers (set_syncing (<[peer := mkSyncState true (sy_resubscribe state || resubscribe)]> (sb_syncing a)) a)
                (sw_workers s) ({[peer]} ∪ sw_owed s)
  | None =>
      mkWorkers (set_syncing (<[peer := mkSyncState false resubscribe]> (sb_syncing a)) a)
                (<[peer := AtTop]> (sw_workers s)) ({[peer]} ∪ sw_owed s)
  end.
Definition handleRemoteMeshEvent (e : PeerEvent) (s : Workers) : Workers :=
  if existsb (String.eqb (evt_Name (pe_Event e))) ["sessions.changed"; "artifacts.changed"; "events.gap"]
  then scheduleMeshSync (pe_PeerID e) false s else s.

Definition finishMeshSync (peer : string) (a : MeshSubs) : MeshSubs := set_syncing (delete peer (sb_syncing a)) a.
Definition retryDirtyMeshSync (peer : string) (preserve : bool) (a : MeshSubs) : bool * MeshSubs :=
  match sb_syncing a !! peer with
  | None => (false, a)
  | Some state =>
      if sy_dirty state
      then (true, set_syncing (<[peer := mkSyncState false (sy_resubscribe state || preserve)]> (sb_syncing a)) a)
      else (false, finishMeshSync peer a)
  end.
(** Behind a failed synchronisation or subscription. *)
Definition after_failure (peer : string) (preserve : bool) (a : MeshSubs) (s : Workers) : Workers :=
  match retryDirtyMeshSync peer preserve a with
  | (true, a) => go_to peer AtTop a s
  | (false, a) => gone peer a s
  end.

(** The steps of the worker of [peer]. *)
Definition worker_top (peer : string) (s : Workers) : Workers :=
  go_to peer (if sb_running (sw_app s) then AtTopics else AtFinish) (sw_app s) s.
(** The pass begins: it will see everything that has happened so far. *)
Definition worker_topics (peer : string) (s : Workers) : Workers :=
  match desiredMeshTopics peer (sw_app s) with
  | [] => go_to peer AtFinish (sw_app s) s
  | topics => mkWorkers (sw_app s) (<[peer := AtSync topics]> (sw_workers s)) (sw_owed s ∖ {[peer]})
  end.
Definition worker_finish (peer : string) (s : Workers) : Workers :=
  mkWorkers (finishMeshSync peer (sw_app s)) (delete peer (sw_workers s)) (sw_owed s ∖ {[peer]}).
Definition worker_synced (peer : string) (topics : list string) (ok : bool) (s : Workers) : Workers :=
  if ok then go_to peer (AtResubscribe topics) (sw_app s) s else after_failure peer false (sw_app s) s.
Definition worker_flag (peer : string) (topics : list string) (s : Workers) : Workers :=
  let a := sw_app s in
  match sb_syncing a !! peer with
  | Some state =>
      go_to peer (if sy_resubscribe state then AtSubscribe topics else AtEnd)
            (set_syncing (<[peer := mkSyncState (sy_dirty state) false]> (sb_syncing a)) a) s
  | None => go_to peer AtEnd a s
  end.
Definition worker_end (peer : string) (s : Workers) : Workers :=
  let a := sw_app s in
  match sb_syncing a !! peer with
  | Some state =>
      if sy_dirty state
      then go_to peer AtTop (set_syncing (<[peer := mkSyncState false (sy_resubscribe state)]> (sb_syncing a)) a) s
      else gone peer (finishMeshSync peer a) s
  | None => gone peer (finishMeshSync peer a) s
  end.
Definition worker_subscribe (peer : string) (topics : list string) (s : Workers) : Workers :=
  match subscribe_begin peer topics (sw_app s) with
  | (Ok topics, a) => go_to peer (AtCall topics) a s
  | (Err _, a) => after_failure peer true a s
  end.
Definition worker_answer (m : Links) (peer : string) (topics : list string) (answer : result AppError (list string))
    (s : Workers) : Workers :=
  match subscribe_finish m peer topics answer (sw_app s) with
  | (Ok _, a) => go_to peer AtEnd a s
  | (Err _, a) => after_failure peer true a s
  end.

(** One step of one worker. The inventories it reads leave the store in some
    state: their commits are store operations, interleaved with all others. *)
Inductive worker_step (peer : string) : Workers → Workers → Prop :=
| step_top s : sw_workers s !! peer = Some AtTop → worker_step peer s (worker_top peer s)
| step_topics s : sw_workers s !! peer = Some AtTopics → worker_step peer s (worker_topics peer s)
| step_finish s : sw_workers s !! peer = Some AtFinish → worker_step peer s (worker_finish peer s)
| step_synced s topics ok : sw_workers s !! peer = Some (AtSync topics) → worker_step peer s (worker_synced peer topics ok s)
| step_flag s topics : sw_workers s !! peer = Some (AtResubscribe topics) → worker_step peer s (worker_flag peer topics s)
| step_subscribe s topics : sw_workers s !! peer = Some (AtSubscribe topics) → worker_step peer s (worker_subscribe peer topics s)
| step_answer s m topics answer :
    sw_workers s !! peer = Some (AtCall topics) → worker_step peer s (worker_answer m peer topics answer s)
| step_end s : sw_workers s !! peer = Some AtEnd → worker_step peer s (worker_end peer s).

(** Everything else: an edge; the runtime stopping, which waits for the workers
    before it returns, and starting, when they are gone; and the handlers and
    store operations that leave workers and runtime alone. *)
Inductive other_step : Workers → Workers → Prop :=
| step_schedule s peer resubscribe : other_step s (scheduleMeshSync peer resubscribe s)
| step_event s e : other_step s (handleRemoteMeshEvent e s)
| step_stop s : other_step s (mkWorkers (set_running false (sw_app s)) (sw_workers s) (sw_owed s))
| step_stopped s : sb_running (sw_app s) = false → sw_workers s = ∅ →
    other_step s (mkWorkers (set_subs ∅ (sw_app s)) ∅ (sw_owed s))
| step_start s : sw_workers s = ∅ → other_step s (mkWorkers (set_running true (sw_app s)) ∅ (sw_owed s))
| step_others s a : sb_syncing a = sb_syncing (sw_app s) → sb_running a = sb_running (sw_app s) →
    other_step s (mkWorkers a (sw_workers s) (sw_owed s)).
Definition sync_step (s s' : Workers) : Prop := other_step s s' ∨ ∃ peer, worker_step peer s s'.
Definition idle (a : MeshSubs) : Workers := mkWorkers (set_syncing ∅ a) ∅ ∅.
Definition sync_reachable (s : Workers) : Prop := ∃ a, rtc sync_step (idle a) s.

(** ** One worker per peer, and no edge forgotten *)

Definition about_to_pass (at_ : WorkerAt) : bool :=
  match at_ with AtTop | AtTopics | AtFinish => true | _ => false end.
Record workers_ok (s : Workers) : Prop := {
  wo_entries : dom (sw_workers s) = dom (sb_syncing (sw_app s));
  wo_owed : ∀ peer, peer ∈ sw_owed s → ∃ at_ state,
    sw_workers s !! peer = Some at_ ∧ sb_syncing (sw_app s) !! peer = Some state ∧
    (about_to_pass at_ = true ∨ sy_dirty state = true) }.

Lemma owed_lookup s peer : workers_ok s → is_Some (sw_workers s !! peer) ↔ is_Some (sb_syncing (sw_app s) !! peer).
Proof. intros [He _]. by rewrite <- !elem_of_dom, He. Qed.

(** What a change to one peer's worker must keep. *)
Lemma workers_ok_at s s' peer :
  workers_ok s →
  (∀ p, p ≠ peer → sw_workers s' !! p = sw_workers s !! p ∧ sb_syncing (sw_app s') !! p = sb_syncing (sw_app s) !! p ∧
                   (p ∈ sw_owed s' → p ∈ sw_owed s)) →
  ((sw_workers s' !! peer = None ∧ sb_syncing (sw_app s') !! peer = None ∧ peer ∉ sw_owed s') ∨
   ∃ at_ state, sw_workers s' !! peer = Some at_ ∧ sb_syncing (sw_app s') !! peer = Some state ∧
     (peer ∈ sw_owed s' → about_to_pass at_ = true ∨ sy_dirty state = true)) →
  workers_ok s'.
Proof.
  intros [He Ho] Hne Hp. split.
  - apply set_eq. intros p. rewrite !elem_of_dom. destruct (decide (p = peer)) as [->|Hp1].
    + destruct Hp as [(-> & -> & _)|(at_ & state & -> & -> & _)]; [done|]. split; intros _; [by exists state|by exists at_].
    + destruct (Hne p Hp1) as (-> & -> & _). by rewrite <- !elem_of_dom, He.
  - intros p Hin. destruct (decide (p = peer)) as [->|Hp1].
    + destruct Hp as [(_ & _ & Hn)|(at_ & state & Hw & Hs & Hc)]; [done|]. exists at_, state. split_and!; [done|done|by apply Hc].
    + destruct (Hne p Hp1) as (Hw & Hs & Hi). destruct (Ho p (Hi Hin)) as (at_ & state & H1 & H2 & H3).
      exists at_, state. by rewrite Hw, Hs.
Qed.

(** The store and the desired topics are nothing to the workers' bookkeeping. *)
Lemma run_store_syncing {A} (m : H A) a : sb_syncing (run_store m a).2 = sb_syncing a ∧ sb_running (run_store m a).2 = sb_running a.
Proof. unfold run_store. by destruct (in_store m (sb_store a)). Qed.
Lemma setDesired_syncing peer topics c a :
  sb_syncing (setDesiredMeshTopics peer topics c a).2 = sb_syncing a.
Proof.
  unfold setDesiredMeshTopics. pose proof (proj1 (run_store_syncing (SetDesiredTopics peer topics) a)) as Hr.
  by destruct (run_store _ a) as [[?|?] a'].
Qed.
Lemma subscribe_begin_syncing peer topics a : sb_syncing (subscribe_begin peer topics a).2 = sb_syncing a.
Proof.
  unfold subscribe_begin. destruct (validateMeshTopics topics) as [ts|]; [|done].
  pose proof (setDesired_syncing peer ts None a) as Hr. by destruct (setDesiredMeshTopics _ _ _ a) as [[?|?] a'].
Qed.
Lemma subscribe_finish_syncing m peer topics answer a : sb_syncing (subscribe_finish m peer topics answer a).2 = sb_syncing a.
Proof.
  unfold subscribe_finish. destruct (mbind _ answer) as [ts|]; [|done]. destruct (meshConnectedAt m peer) as [c|]; [|done].
  pose proof (setDesired_syncing peer ts (Some c) a) as Hr. by destruct (setDesiredMeshTopics _ _ _ a) as [[?|?] a'].
Qed.

Lemma go_to_ok s peer at_ at0 state a state' :
  workers_ok s → sw_workers s !! peer = Some at0 → sb_syncing (sw_app s) !! peer = Some state →
  sb_syncing a = <[peer := state']> (sb_syncing (sw_app s)) →
  (about_to_pass at0 = true ∨ sy_dirty state = true → about_to_pass at_ = true ∨ sy_dirty state' = true) →
  workers_ok (go_to peer at_ a s).
Proof.
  intros Hok Hw Hs Ha Hkeep. eapply (workers_ok_at s _ peer); [done| |right].
  - intros p Hp. cbn. rewrite Ha, !lookup_insert_ne by done. done.
  - exists at_, state'. cbn. rewrite Ha, !lookup_insert_eq. split_and!; [done|done|]. intros Hin. apply Hkeep.
    destruct (wo_owed s Hok peer Hin) as (at1 & st1 & H1 & H2 & H3). rewrite Hw in H1. rewrite Hs in H2. by simplify_eq.
Qed.
Lemma gone_ok s peer at0 state a :
  workers_ok s → sw_workers s !! peer = Some at0 → sb_syncing (sw_app s) !! peer = Some state →
  about_to_pass at0 = false → sy_dirty state = false → sb_syncing a = delete peer (sb_syncing (sw_app s)) →
  workers_ok (gone peer a s).
Proof.
  intros Hok Hw Hs Hat Hd Ha. eapply (workers_ok_at s _ peer); [done| |left].
  - intros p Hp. cbn. rewrite Ha, !lookup_delete_ne by done. done.
  - cbn. rewrite Ha, !lookup_delete_eq. split_and!; [done|done|]. intros Hin.
    destruct (wo_owed s Hok peer Hin) as (at1 & st1 & H1 & H2 & H3). rewrite Hw in H1. rewrite Hs in H2. simplify_eq.
    rewrite Hat, Hd in H3. by destruct H3.
Qed.
Lemma after_failure_ok s peer preserve at0 state a :
  workers_ok s → sw_workers s !! peer = Some at0 → sb_syncing (sw_app s) !! peer = Some state →
  about_to_pass at0 = false → sb_syncing a = sb_syncing (sw_app s) → workers_ok (after_failure peer preserve a s).
Proof.
  intros Hok Hw Hs Hat Ha. unfold after_failure, retryDirtyMeshSync. rewrite Ha, Hs. destruct (sy_dirty state) eqn:Hd.
  - eapply go_to_ok; [done..| |by left]. done.
  - eapply gone_ok; [done..|]. cbn. by rewrite Ha.
Qed.
Lemma same_entry s peer state : sb_syncing (sw_app s) !! peer = Some state → <[peer := state]> (sb_syncing (sw_app s)) = sb_syncing (sw_app s).
Proof. apply insert_id. Qed.

Lemma worker_step_ok peer s s' : workers_ok s → worker_step peer s s' → workers_ok s'.
Proof.
  intros Hok Hstep.
  assert (∀ at_, sw_workers s !! peer = Some at_ → ∃ state, sb_syncing (sw_app s) !! peer = Some state) as Hentry.
  { intros at_ Hw. apply (owed_lookup s peer Hok). by eexists. }
  inversion Hstep as [? Hw|? Hw|? Hw|? topics ok Hw|? topics Hw|? topics Hw|? m topics answer Hw|? Hw]; subst; destruct (Hentry _ Hw) as [state Hs].
  - eapply go_to_ok; [done..|symmetry; by apply same_entry|]. intros _. left. by destruct (sb_running _).
  - unfold worker_topics. destruct (desiredMeshTopics peer (sw_app s)) as [|t ts]; [by eapply go_to_ok; [done..|symmetry; by apply same_entry|by left]|].
    eapply (workers_ok_at s _ peer); [done| |right].
    + intros p Hp. cbn. rewrite lookup_insert_ne by done. split_and!; [done|done|set_solver].
    + exists (AtSync (t :: ts)), state. cbn. rewrite lookup_insert_eq. split_and!; [done|done|set_solver].
  - eapply (workers_ok_at s _ peer); [done| |left].
    + intros p Hp. cbn. rewrite !lookup_delete_ne by done. split_and!; [done|done|set_solver].
    + cbn. rewrite !lookup_delete_eq. split_and!; [done|done|set_solver].
  - unfold worker_synced. destruct ok; [|by eapply after_failure_ok].
    eapply go_to_ok; [done..|symmetry; by apply same_entry|]. intros [|]; [done|by right].
  - unfold worker_flag. rewrite Hs. eapply go_to_ok; [done..|cbn; done|]. intros [|]; [done|by right].
  - unfold worker_subscribe. pose proof (subscribe_begin_syncing peer topics (sw_app s)) as Ha.
    destruct (subscribe_begin _ _ _) as [[ts|e] a]; cbn in Ha; [|by eapply after_failure_ok].
    eapply go_to_ok; [done..|rewrite Ha; symmetry; by apply same_entry|]. intros [|]; [done|by right].
  - unfold worker_answer. pose proof (subscribe_finish_syncing m peer topics answer (sw_app s)) as Ha.
    destruct (subscribe_finish _ _ _ _ _) as [[ts|e] a]; cbn in Ha; [|by eapply after_failure_ok].
    eapply go_to_ok; [done..|rewrite Ha; symmetry; by apply same_entry|]. intros [|]; [done|by right].
  - unfold worker_end. rewrite Hs. destruct (sy_dirty state) eqn:Hd.
    + eapply go_to_ok; [done..|cbn; done|by left].
    + by eapply gone_ok.
Qed.

Lemma schedule_ok peer resub s : workers_ok s → workers_ok (scheduleMeshSync peer resub s).
Proof.
  intros Hok. unfold scheduleMeshSync. destruct (negb _); [done|]. destruct (sb_syncing (sw_app s) !! peer) as [state|] eqn:Hs.
  - destruct (proj2 (owed_lookup s peer Hok) ltac:(by eexists)) as [at_ Hw].
    eapply (workers_ok_at s _ peer); [done| |right].
    + intros p Hp. cbn. rewrite lookup_insert_ne by done. split_and!; [done|done|set_solver].
    + exists at_. eexists. cbn. rewrite lookup_insert_eq. split_and!; [done|done|by right].
  - eapply (workers_ok_at s _ peer); [done| |right].
    + intros p Hp. cbn. rewrite !lookup_insert_ne by done. split_and!; [done|done|set_solver].
    + exists AtTop. eexists. cbn. rewrite !lookup_insert_eq. split_and!; [done|done|by left].
Qed.
Lemma other_step_ok s s' : workers_ok s → other_step s s' → workers_ok s'.
Proof.
  intros Hok Hstep. inversion Hstep as [? p r|? e|?|? Hr Hw|? Hw|? a Ha Hr]; subst.
  - by apply schedule_ok.
  - unfold handleRemoteMeshEvent. destruct (existsb _ _); [by apply schedule_ok|done].
  - destruct Hok as [He Ho]. by split.
  - destruct Hok as [He Ho]. rewrite Hw in He, Ho. by split.
  - destruct Hok as [He Ho]. rewrite Hw in He, Ho. by split.
  - destruct Hok as [He Ho]. split; cbn; by rewrite Ha.
Qed.
Lemma idle_ok a : workers_ok (idle a).
Proof. split; [cbn; by rewrite !dom_empty_L|cbn; set_solver]. Qed.
Lemma workers_reachable_ok s : sync_reachable s → workers_ok s.
Proof.
  intros [a Hr]. pose proof (idle_ok a) as Hok. induction Hr as [|s1 s2 s3 Hs _ IH]; [done|].
  apply IH. destruct Hs as [Hs|[p Hs]]; [by eapply other_step_ok|by eapply worker_step_ok].
Qed.

(** C29: however edges, workers, handlers, stops and starts are interleaved: there
    is a worker for a peer exactly while the table has its entry, so never two,
    and an edge that no pass has covered yet is remembered: the worker is about
    to begin a pass, or carries the dirty mark. It is given up, without a pass,
    only by a worker that is on its way out because it had found the runtime
    stopped or nothing to follow (also when the edge, and something to follow,
    came after that finding: such a worker does not look at the mark). *)
Theorem sync_edges_remembered s :
  sync_reachable s →
  dom (sw_workers s) = dom (sb_syncing (sw_app s)) ∧
  (∀ peer, peer ∈ sw_owed s → ∃ at_ state,
     sw_workers s !! peer = Some at_ ∧ sb_syncing (sw_app s) !! peer = Some state ∧
     (about_to_pass at_ = true ∨ sy_dirty state = true)) ∧
  (∀ s' peer, sync_step s s' → peer ∈ sw_owed s → peer ∉ sw_owed s' →
     (∃ topics, topics ≠ [] ∧ sw_workers s' !! peer = Some (AtSync topics)) ∨ sw_workers s !! peer = Some AtFinish).
Proof.
  intros Hr. pose proof (workers_reachable_ok s Hr) as [He Ho]. split; [done|]. split; [done|].
  intros s' peer [Hs|[p Hs]] Hin Hout.
  - exfalso. apply Hout. assert (∀ q r, peer ∈ sw_owed (scheduleMeshSync q r s)) as Hsch.
    { intros q r. unfold scheduleMeshSync. destruct (negb _); [done|]. destruct (_ !! q); cbn; set_solver. }
    inversion Hs; subst; try done. unfold handleRemoteMeshEvent. by destruct (existsb _ _).
  - assert (∀ b a s0, sw_owed s0 = sw_owed s → sw_owed (after_failure p b a s0) = sw_owed s) as Hfail.
    { intros b a s0 H0. unfold after_failure. by destruct (retryDirtyMeshSync p b a) as [[] a']. }
    inversion Hs as [? Hw|? Hw|? Hw|? topics ok Hw|? topics Hw|? topics Hw|? m topics answer Hw|? Hw]; subst.
    + done.
    + unfold worker_topics in *. destruct (desiredMeshTopics p (sw_app s)) as [|t ts]; [done|]. left.
      destruct (decide (peer = p)) as [->|Hne]; [|cbn in Hout; set_solver].
      exists (t :: ts). cbn. by rewrite lookup_insert_eq.
    + right. destruct (decide (peer = p)) as [->|Hne]; [done|]. cbn in Hout. set_solver.
    + exfalso. apply Hout. unfold worker_synced. destruct ok; [done|]. rewrite Hfail; done.
    + exfalso. apply Hout. unfold worker_flag. destruct (sb_syncing (sw_app s) !! p); exact Hin.
    + exfalso. apply Hout. unfold worker_subscribe. destruct (subscribe_begin _ _ _) as [[]]; [exact Hin|rewrite Hfail; done].
    + exfalso. apply Hout. unfold worker_answer. destruct (subscribe_finish _ _ _ _ _) as [[]]; [exact Hin|rewrite Hfail; done].
    + exfalso. apply Hout. unfold worker_end. destruct (sb_syncing (sw_app s) !! p) as [st|]; [destruct (sy_dirty st)|]; exact Hin.
Qed.

(** ** Workers end *)

Definition position (at_ : WorkerAt) : nat :=
  match at_ with
  | AtTop => 7 | AtTopics => 6 | AtSync _ => 5 | AtResubscribe _ => 4 | AtSubscribe _ => 3 | AtCall _ => 2
  | AtEnd | AtFinish => 1
  end.
Definition remaining (peer : string) (s : Workers) : nat :=
  match sw_workers s !! peer, sb_syncing (sw_app s) !! peer with
  | Some at_, Some state => position at_ + if sy_dirty state then 8 else 0
  | _, _ => 0
  end.
Lemma remaining_go peer at_ a s state :
  sb_syncing a !! peer = Some state → remaining peer (go_to peer at_ a s) = (position at_ + if sy_dirty state then 8 else 0)%nat.
Proof. intros Hs. unfold remaining. cbn. by rewrite lookup_insert_eq, Hs. Qed.
Lemma remaining_gone peer a s : remaining peer (gone peer a s) = 0%nat.
Proof. unfold remaining. cbn. by rewrite lookup_delete_eq. Qed.
Lemma remaining_failure peer preserve a s state :
  sb_syncing a !! peer = Some state →
  (remaining peer (after_failure peer preserve a s) < 2 + if sy_dirty state then 8 else 0)%nat.
Proof.
  intros Hs. unfold after_failure, retryDirtyMeshSync. rewrite Hs. destruct (sy_dirty state).
  - erewrite remaining_go by (cbn; apply lookup_insert_eq). cbn. lia.
  - rewrite remaining_gone. lia.
Qed.
Lemma worker_step_remaining peer s s' :
  workers_ok s → worker_step peer s s' → (remaining peer s' < remaining peer s)%nat.
Proof.
  intros Hok Hstep.
  assert (∀ at_, sw_workers s !! peer = Some at_ → ∃ state, sb_syncing (sw_app s) !! peer = Some state ∧
    remaining peer s = (position at_ + if sy_dirty state then 8 else 0)%nat) as Hentry.
  { intros at_ Hw. destruct (proj1 (owed_lookup s peer Hok) ltac:(by eexists)) as [state Hs]. exists state. split; [done|].
    unfold remaining. by rewrite Hw, Hs. }
  inversion Hstep as [? Hw|? Hw|? Hw|? topics ok Hw|? topics Hw|? topics Hw|? m topics answer Hw|? Hw]; subst;
    destruct (Hentry _ Hw) as (state & Hs & ->); cbn [position].
  - unfold worker_top. rewrite (remaining_go _ _ _ _ state) by done. destruct (sb_running _); cbn; lia.
  - unfold worker_topics. destruct (desiredMeshTopics peer (sw_app s)) as [|t ts].
    + rewrite (remaining_go _ _ _ _ state) by done. cbn. lia.
    + unfold remaining. cbn. rewrite lookup_insert_eq, Hs. cbn. lia.
  - unfold remaining. cbn. rewrite lookup_delete_eq. lia.
  - unfold worker_synced. destruct ok; [rewrite (remaining_go _ _ _ _ state) by done; cbn; lia|].
    pose proof (remaining_failure peer false (sw_app s) s state Hs). lia.
  - unfold worker_flag. rewrite Hs. erewrite remaining_go by (cbn; apply lookup_insert_eq). cbn.
    destruct (sy_resubscribe state); cbn; lia.
  - unfold worker_subscribe. pose proof (subscribe_begin_syncing peer topics (sw_app s)) as Ha.
    destruct (subscribe_begin _ _ _) as [[ts|e] a]; cbn in Ha; rewrite <- Ha in Hs.
    + rewrite (remaining_go _ _ _ _ state) by done. cbn. lia.
    + pose proof (remaining_failure peer true a s state Hs). lia.
  - unfold worker_answer. pose proof (subscribe_finish_syncing m peer topics answer (sw_app s)) as Ha.
    destruct (subscribe_finish _ _ _ _ _) as [[ts|e] a]; cbn in Ha; rewrite <- Ha in Hs.
    + rewrite (remaining_go _ _ _ _ state) by done. cbn. lia.
    + pose proof (remaining_failure peer true a s state Hs). lia.
  - unfold worker_end. rewrite Hs. destruct (sy_dirty state).
    + erewrite remaining_go by (cbn; apply lookup_insert_eq). cbn. lia.
    + rewrite remaining_gone. lia.
Qed.
Lemma remaining_bound peer s : (remaining peer s <= 15)%nat.
Proof. unfold remaining. destruct (_ !! peer) as [at_|]; [|lia]. destruct (_ !! peer) as [st|]; [|lia]. destruct at_, (sy_dirty st); cbn; lia. Qed.

Lemma worker_moves peer s : is_Some (sw_workers s !! peer) → ∃ s', worker_step peer s s'.
Proof.
  intros [[| | |topics|topics|topics|topics|] Hw]; eexists.
  - exact (step_top peer s Hw).
  - exact (step_topics peer s Hw).
  - exact (step_finish peer s Hw).
  - exact (step_synced peer s topics true Hw).
  - exact (step_flag peer s topics Hw).
  - exact (step_subscribe peer s topics Hw).
  - exact (step_answer peer s (mkLinks false false 0 ∅ ∅ ∅ ∅ ∅) topics (Ok []) Hw).
  - exact (step_end peer s Hw).
Qed.

(** C30: a worker that no further edge reaches ends within fifteen steps, two
    passes at most, whatever its peer answers and whether or not its passes
    succeed: until it has ended it has a step to make, and after fifteen it has
    ended. *)
Theorem worker_ends peer s s' n :
  sync_reachable s → nsteps (worker_step peer) n s s' →
  (n <= 15)%nat ∧ (n = 15%nat → sw_workers s' !! peer = None) ∧
  (is_Some (sw_workers s' !! peer) → ∃ s'', worker_step peer s' s'').
Proof.
  intros Hr Hn. pose proof (workers_reachable_ok s Hr) as Hok. clear Hr.
  assert ((n + remaining peer s' <= remaining peer s)%nat ∧ workers_ok s') as [Hle Hok'].
  { induction Hn as [s|n s1 s2 s3 Hs _ IH]; [split; [lia|done]|].
    pose proof (worker_step_remaining _ _ _ Hok Hs). destruct (IH (worker_step_ok _ _ _ Hok Hs)) as [IH1 IH2]. split; [lia|done]. }
  pose proof (remaining_bound peer s). split; [lia|]. split; [|apply worker_moves]. intros ->.
  destruct (sw_workers s' !! peer) as [at_|] eqn:Hw; [|done]. exfalso.
  destruct (proj1 (owed_lookup s' peer Hok') ltac:(by eexists)) as [state Hs].
  assert (remaining peer s' = position at_ + if sy_dirty state then 8 else 0)%nat as Heq by (unfold remaining; by rewrite Hw, Hs).
  destruct at_; cbn in Heq; lia.
Qed.

(** ** A cancelled subscription *)

(** What this machine follows is what it last recorded. *)
Lemma setDesired_outbound peer topics c a a' :
  setDesiredMeshTopics peer topics c a = (Ok tt, a') → sb_outbound a' = want topics peer c (sb_outbound a).
Proof.
  unfold setDesiredMeshTopics, run_store. destruct (in_store _ _) as [[?|?] s]; intros [=]; by subst.
Qed.
Lemma unsubscribed peer answer a a' :
  UnsubscribeMeshPeer peer (Ok answer) a = (Ok answer, a') → sb_outbound a' !! peer = None ∧ desiredMeshTopics peer a' = [].
Proof.
  unfold UnsubscribeMeshPeer. destruct (setDesiredMeshTopics peer [] None a) as [[[]|e] a1] eqn:Hs; intros [= <-].
  apply setDesired_outbound in Hs. assert (sb_outbound a1 !! peer = None) as Hn by (rewrite Hs; apply lookup_delete_eq).
  split; [done|]. unfold desiredMeshTopics. by rewrite Hn.
Qed.
(** The worker's own subscription, of topics it read before, brings one back
    that was cancelled meanwhile; whatever the peer then answers, it is wanted
    again. *)
Lemma cancelled_subscription_returns peer topics answer a a1 s a2 accepted :
  UnsubscribeMeshPeer peer (Ok answer) a = (Ok answer, a1) →
  sw_app s = a1 → subscribe_begin peer topics a1 = (Ok accepted, a2) → accepted ≠ [] →
  worker_subscribe peer topics s = go_to peer (AtCall accepted) a2 s ∧
  sb_outbound a1 !! peer = None ∧
  sb_outbound a2 !! peer = Some (mkSubscription None (list_to_set accepted) false).
Proof.
  intros Hu <- Hb Hne. destruct (unsubscribed _ _ _ _ Hu) as [Hn _]. split_and!; [|done|].
  - unfold worker_subscribe. by rewrite Hb.
  - unfold subscribe_begin in Hb. destruct (validateMeshTopics topics) as [ts|]; [|done].
    destruct (setDesiredMeshTopics peer ts None (sw_app s)) as [[[]|e] a3] eqn:Hs; [|done]. injection Hb as -> ->.
    apply setDesired_outbound in Hs. rewrite Hs. unfold want. rewrite bool_decide_eq_false_2; [apply lookup_insert_eq|].
    destruct accepted as [|t ts']; [done|]. set_solver.
Qed.
