(* ===== verification/MeshReconcile.v ===== *)
(** internal/daemon/mesh_application.go, the runtime of the application: its
    start and stop, the one goroutine that takes this machine's and other
    machines' events and the two tickers, and what it makes of the links'
    statuses. *)

From S2P Require Import Prelude GoText GoPath MeshTypes MeshStore MeshFiles MeshSync Session SessionView PeerRpc PeerEvents PeerLink MeshWire MeshPages MeshSubs MeshWorkers.
From stdpp Require Import base gmap strings list.
From Stdlib Require Import ZArith Lia.

Open Scope Z_scope.

(** The two wake channels have room for one; [None] while there is no runtime.
    [rt_known] is the goroutine's own map of connections, [None] in it for the
    zero time; [rt_app] has the revisions. *)
Record Runtime := mkRuntime {
  rt_workers : Workers; rt_known : gmap string (option Z);
  rt_targetWake : option bool; rt_sourceWake : option bool; rt_app : MeshApp }.
Definition with_workers (s : Workers) (r : Runtime) : Runtime :=
  mkRuntime s (rt_known r) (rt_targetWake r) (rt_sourceWake r) (rt_app r).
Definition with_known (k : gmap string (option Z)) (r : Runtime) : Runtime :=
  mkRuntime (rt_workers r) k (rt_targetWake r) (rt_sourceWake r) (rt_app r).
Definition with_subs (f : MeshSubs → MeshSubs) (r : Runtime) : Runtime :=
  let s := rt_workers r in with_workers (mkWorkers (f (sw_app s)) (sw_workers s) (sw_owed s)) r.
Definition rt_subs (r : Runtime) : MeshSubs := sw_app (rt_workers r).

(** A send that is dropped when the channel is full. *)
Definition wake (c : option bool) : option bool := match c with Some _ => Some true | None => None end.
Definition scheduleTargetHandoffReconcile (r : Runtime) : Runtime :=
  mkRuntime (rt_workers r) (rt_known r) (wake (rt_targetWake r)) (rt_sourceWake r) (rt_app r).
Definition scheduleSourceHandoffReconcile (r : Runtime) : Runtime :=
  mkRuntime (rt_workers r) (rt_known r) (rt_targetWake r) (wake (rt_sourceWake r)) (rt_app r).
Definition schedule_sync (peer : string) (resubscribe : bool) (r : Runtime) : Runtime :=
  with_workers (scheduleMeshSync peer resubscribe (rt_workers r)) r.

(** ** Start and stop *)

(** [stopRuntime] before it waits for the goroutines of the runtime, and
    behind that. *)
Definition stop_cancel (r : Runtime) : Runtime :=
  let r := with_subs (set_running false) r in mkRuntime (rt_workers r) (rt_known r) None None (rt_app r).
Definition stop_clear (r : Runtime) : Runtime := with_subs (set_subs ∅) r.

Section Runtime.
Context `{UrlLib}.

(** [startMeshApplicationRuntime] once the earlier runtime is gone; an error of
    the restore is logged. *)
Definition start_runtime (r : Runtime) : Runtime :=
  let r := with_subs (λ a, set_running true (restoreDesiredMeshTopics a).2) r in
  let r := mkRuntime (rt_workers r) ∅ (Some false) (Some false) (rt_app r) in
  scheduleSourceHandoffReconcile (scheduleTargetHandoffReconcile r).

(** ** Statuses *)

Definition connection (st : Status) : option Z :=
  if String.eqb (ls_State (st_link st)) "connected" then ls_ConnectedAt (st_link st) else None.
(** One round of the loop over the statuses. *)
Definition reconcile_status (r : Runtime) (st : Status) : Runtime :=
  let peer := st_PeerID st in
  match connection st with
  | Some connectedAt =>
      let r := with_subs (λ a, (restoreDesiredMeshPeer peer a).2) r in
      if bool_decide (rt_known r !! peer = Some (Some connectedAt)) then r else
      let r := with_known (<[peer := Some connectedAt]> (rt_known r)) r in
      let r := with_subs (clearSubscriptionUnlessConnection peer connectedAt) r in
      let r := schedule_sync peer true r in
      scheduleSourceHandoffReconcile (scheduleTargetHandoffReconcile r)
  | None =>
      match rt_known r !! peer with
      | Some None => r
      | _ =>
          let r := with_known (<[peer := None]> (rt_known r)) r in
          let r := with_subs (clearPeerSubscription peer) r in
          with_subs (λ a, (run_store (MarkPeerDisconnected peer) a).2) r
      end
  end.
(** One round of the loop over the known connections. *)
Definition reconcile_gone (m : Links) (r : Runtime) (known : string * option Z) : Runtime :=
  let '(peer, previous) := known in
  if bool_decide (peer ∈ st_PeerID <$> Status_list m) then r else
  let r := with_known (delete peer (rt_known r)) r in
  let r := with_subs (clearPeerSubscription peer) r in
  if bool_decide (previous = None) then r else with_subs (λ a, (run_store (MarkPeerDisconnected peer) a).2) r.
Definition reconcileMeshStatuses (m : Links) (order : list (string * option Z) → list (string * option Z)) (r : Runtime)
  : Runtime :=
  let r := foldl reconcile_status r (Status_list m) in
  foldl (reconcile_gone m) r (order (map_to_list (rt_known r))).

(** ** The goroutine *)

(** What one arm of its select takes: [order] is how a map is iterated, [send]
    what the manager answers for each peer. *)
Inductive Arm :=
| ArmSession (type state scope sessionID : string) (home : option string) (now : Time) (found : option Detail)
| ArmStore (change : Change)
| ArmRemote (e : PeerEvent)
| ArmStatusTick (known_order : list (string * option Z) → list (string * option Z))
| ArmReconcileTick.
Definition run_arm (m : Links) (order : list (string * meshPeerSubscription) → list (string * meshPeerSubscription))
    (send : string → result SendErr unit) (arm : Arm) (r : Runtime) : Runtime :=
  match arm with
  | ArmSession type state scope sessionID home now found =>
      let '(event, app) := forwardMeshSessionEvent home now type state scope sessionID found (rt_app r) in
      let r := mkRuntime (rt_workers r) (rt_known r) (rt_targetWake r) (rt_sourceWake r) app in
      match event with
      | Some _ => with_subs (λ a, (sendMeshEventToTopics order m [meshTopicSessions] send a).2) r
      | None => r
      end
  | ArmStore change =>
      with_subs (λ a, let '(event, a) := forwardMeshStoreChange change a in
                      match event with
                      | Some e => (sendMeshEventToTopics order m (event_topics e) send a).2
                      | None => a
                      end) r
  | ArmRemote e => with_workers (handleRemoteMeshEvent e (rt_workers r)) r
  | ArmStatusTick known_order => with_subs (retryMeshGaps m send) (reconcileMeshStatuses m known_order r)
  | ArmReconcileTick =>
      let r := scheduleSourceHandoffReconcile (scheduleTargetHandoffReconcile r) in
      foldl (λ r peer, schedule_sync peer (meshSubscriptionNeedsRestore m peer (rt_subs r)) r) r
            (connectedDesiredMeshPeers m (rt_subs r))
  end.

(** ** One peer at a time *)

(** What a pass over the statuses may change of a peer. *)
Record PeerView := mkPeerView {
  pv_known : option (option Z); pv_sub : option meshPeerSubscription; pv_sync : option meshSyncState; pv_owed : bool }.
Definition peer_view (r : Runtime) (peer : string) : PeerView :=
  mkPeerView (rt_known r !! peer) (sb_subs (rt_subs r) !! peer) (sb_syncing (rt_subs r) !! peer)
             (bool_decide (peer ∈ sw_owed (rt_workers r))).

Definition sync_requested (s : option meshSyncState) : meshSyncState :=
  match s with Some s => mkSyncState true true | None => mkSyncState false true end.
(** Nothing where the connection is as it was known; a new connection drops a
    subscription of another one and asks for a synchronisation that subscribes
    again; a lost one drops the subscription. *)
Definition reconciled (running : bool) (now : option (option Z)) (v : PeerView) : PeerView :=
  if bool_decide (pv_known v = now) then v else
  match now with
  | Some (Some c) =>
      let sub := match pv_sub v with
                 | Some s => if bool_decide (su_connectedAt s = Some c) then Some s else None
                 | None => None
                 end in
      if running then mkPeerView now sub (Some (sync_requested (pv_sync v))) true else mkPeerView now sub (pv_sync v) (pv_owed v)
  | _ => mkPeerView now None (pv_sync v) (pv_owed v)
  end.

Lemma run_store_frame {A} (m : H A) a : ∃ s, (run_store m a).2 = set_store s a.
Proof. unfold run_store. destruct (in_store m (sb_store a)) as [x s]. by exists s. Qed.
Lemma restorePeer_frame peer a :
  let a' := (restoreDesiredMeshPeer peer a).2 in
  sb_subs a' = sb_subs a ∧ sb_syncing a' = sb_syncing a ∧ sb_running a' = sb_running a.
Proof.
  unfold restoreDesiredMeshPeer. destruct (run_store_frame (DesiredTopics peer) a) as [s Hs].
  destruct (run_store (DesiredTopics peer) a) as [t a1]. cbn in Hs. subst a1.
  by destruct (match t with Ok _ => _ | _ => _ end).
Qed.
Lemma disconnected_frame peer a :
  let a' := (run_store (MarkPeerDisconnected peer) a).2 in
  sb_subs a' = sb_subs a ∧ sb_syncing a' = sb_syncing a ∧ sb_running a' = sb_running a.
Proof. cbv zeta. by destruct (run_store_frame (MarkPeerDisconnected peer) a) as [s ->]. Qed.

(** An update of the subscriptions that no view shows. *)
Definition unseen (f : MeshSubs → MeshSubs) : Prop :=
  ∀ a, sb_subs (f a) = sb_subs a ∧ sb_syncing (f a) = sb_syncing a ∧ sb_running (f a) = sb_running a.
Lemma view_unseen f r peer : unseen f → peer_view (with_subs f r) peer = peer_view r peer.
Proof. intros Hf. unfold peer_view, with_subs, rt_subs. cbn. by destruct (Hf (sw_app (rt_workers r))) as (-> & -> & _). Qed.
Lemma running_unseen f r : unseen f → sb_running (rt_subs (with_subs f r)) = sb_running (rt_subs r).
Proof. intros Hf. unfold rt_subs. cbn. by destruct (Hf (sw_app (rt_workers r))) as (_ & _ & ->). Qed.

Lemma view_schedule r peer p :
  peer_view (schedule_sync peer true r) p =
  (if sb_running (rt_subs r) && bool_decide (p = peer)
   then mkPeerView (pv_known (peer_view r p)) (pv_sub (peer_view r p)) (Some (sync_requested (pv_sync (peer_view r p)))) true
   else peer_view r p) ∧
  sb_running (rt_subs (schedule_sync peer true r)) = sb_running (rt_subs r).
Proof.
  unfold schedule_sync, scheduleMeshSync, peer_view, rt_subs, with_workers. cbn.
  destruct (sb_running (sw_app (rt_workers r))) eqn:Hrun; cbn; [|by rewrite Hrun].
  destruct (sb_syncing (sw_app (rt_workers r)) !! peer) as [st|] eqn:Hs; cbn; (split; [|exact Hrun]);
    (destruct (decide (p = peer)) as [->|Hne];
     [rewrite (bool_decide_eq_true_2 (peer = peer)), lookup_insert_eq, ?Hs by done; cbn; rewrite ?orb_true_r; f_equal; apply bool_decide_eq_true_2; set_solver
     |rewrite (bool_decide_eq_false_2 (p = peer)), lookup_insert_ne by done; f_equal; apply bool_decide_ext; set_solver]).
Qed.
Lemma view_clear_unless r peer c p :
  peer_view (with_subs (clearSubscriptionUnlessConnection peer c) r) p =
  (if bool_decide (p = peer)
   then mkPeerView (pv_known (peer_view r p))
          (match pv_sub (peer_view r p) with
           | Some s => if bool_decide (su_connectedAt s = Some c) then Some s else None
           | None => None
           end) (pv_sync (peer_view r p)) (pv_owed (peer_view r p))
   else peer_view r p) ∧
  sb_running (rt_subs (with_subs (clearSubscriptionUnlessConnection peer c) r)) = sb_running (rt_subs r).
Proof.
  unfold peer_view, with_subs, rt_subs, clearSubscriptionUnlessConnection. cbn.
  destruct (sb_subs (sw_app (rt_workers r)) !! peer) as [s|] eqn:Hs.
  - rewrite (bool_decide_decide (su_connectedAt s = Some c)); destruct (decide (su_connectedAt s = Some c)) as [Hc|Hc].
    + split; [|done]. rewrite (bool_decide_decide (p = peer)); destruct (decide (p = peer)) as [Hp|Hp]; [|done]. subst p. by rewrite Hs, (bool_decide_eq_true_2 _ Hc).
    + cbn. split; [|done]. rewrite (bool_decide_decide (p = peer)); destruct (decide (p = peer)) as [Hp|Hp].
      * subst p. by rewrite lookup_delete_eq, Hs, (bool_decide_eq_false_2 _ Hc).
      * by rewrite lookup_delete_ne.
  - split; [|done]. rewrite (bool_decide_decide (p = peer)); destruct (decide (p = peer)) as [Hp|Hp]; [|done]. subst p. by rewrite Hs.
Qed.
Lemma view_clear r peer p :
  peer_view (with_subs (clearPeerSubscription peer) r) p =
  (if bool_decide (p = peer)
   then mkPeerView (pv_known (peer_view r p)) None (pv_sync (peer_view r p)) (pv_owed (peer_view r p))
   else peer_view r p).
Proof.
  unfold peer_view, with_subs, rt_subs. cbn. rewrite (bool_decide_decide (p = peer)); destruct (decide (p = peer)) as [Hp|Hp]; [subst p; by rewrite lookup_delete_eq|by rewrite lookup_delete_ne].
Qed.
Lemma view_known r k p :
  peer_view (with_known k r) p = mkPeerView (k !! p) (pv_sub (peer_view r p)) (pv_sync (peer_view r p)) (pv_owed (peer_view r p)).
Proof. done. Qed.

(** One status changes its own peer, as [reconciled] says. *)
Lemma reconcile_status_view r st p :
  peer_view (reconcile_status r st) p =
  (if bool_decide (p = st_PeerID st) then reconciled (sb_running (rt_subs r)) (Some (connection st)) (peer_view r p)
   else peer_view r p) ∧
  sb_running (rt_subs (reconcile_status r st)) = sb_running (rt_subs r).
Proof.
  unfold reconcile_status. destruct (connection st) as [c|] eqn:Hc.
  - pose proof (restorePeer_frame (st_PeerID st) : unseen (λ a, (restoreDesiredMeshPeer (st_PeerID st) a).2)) as Hf.
    rewrite <- (view_unseen _ r p Hf), <- (running_unseen _ r Hf).
    set (r1 := with_subs (λ a, (restoreDesiredMeshPeer (st_PeerID st) a).2) r). cbv zeta.
    case_bool_decide as Hk.
    { split; [|done]. rewrite (bool_decide_decide (p = st_PeerID st)); destruct (decide (p = st_PeerID st)) as [Hp|Hp]; [|done]. subst p. unfold reconciled. by rewrite bool_decide_eq_true_2. }
    set (r2 := with_known _ r1).
    destruct (view_clear_unless r2 (st_PeerID st) c p) as [Hv3 Hr3].
    set (r3 := with_subs (clearSubscriptionUnlessConnection (st_PeerID st) c) r2) in *.
    destruct (view_schedule r3 (st_PeerID st) p) as [Hv4 Hr4].
    set (r4 := schedule_sync (st_PeerID st) true r3) in *.
    change (sb_running (rt_subs r2)) with (sb_running (rt_subs r1)) in Hr3.
    split; [|transitivity (sb_running (rt_subs r4)); [done|by rewrite Hr4, Hr3]].
    change (peer_view r4 p = if bool_decide (p = st_PeerID st) then reconciled (sb_running (rt_subs r1)) (Some (Some c)) (peer_view r1 p) else peer_view r1 p).
    rewrite Hv4, Hr3, Hv3. unfold r2. rewrite view_known. rewrite (bool_decide_decide (p = st_PeerID st)); destruct (decide (p = st_PeerID st)) as [Hp|Hp].
    + subst p. rewrite andb_true_r. unfold reconciled. rewrite lookup_insert_eq. cbn [pv_known pv_sub pv_sync pv_owed].
      rewrite (bool_decide_eq_false_2 (pv_known _ = _)) by done. by destruct (sb_running _).
    + rewrite andb_false_r, lookup_insert_ne by done. done.
  - cbv zeta. pose proof (disconnected_frame (st_PeerID st) : unseen (λ a, (run_store (MarkPeerDisconnected (st_PeerID st)) a).2)) as Hf.
    destruct (rt_known r !! st_PeerID st) as [[c|]|] eqn:Hk.
    2: { split; [|done]. rewrite (bool_decide_decide (p = st_PeerID st)); destruct (decide (p = st_PeerID st)) as [Hp|Hp]; [|done]. subst p. unfold reconciled. by rewrite bool_decide_eq_true_2. }
    all: rewrite (view_unseen _ _ p Hf), (running_unseen _ _ Hf); (split; [|done]); rewrite view_clear, view_known; rewrite (bool_decide_decide (p = st_PeerID st)); destruct (decide (p = st_PeerID st)) as [Hp|Hp];
      [subst p; unfold reconciled; rewrite lookup_insert_eq, bool_decide_eq_false_2 by (cbn; by rewrite Hk); done|by rewrite lookup_insert_ne].
Qed.
Lemma reconcile_gone_view m r peer previous p :
  peer_view (reconcile_gone m r (peer, previous)) p =
  (if bool_decide (p = peer) && bool_decide (peer ∉ st_PeerID <$> Status_list m)
   then mkPeerView None None (pv_sync (peer_view r p)) (pv_owed (peer_view r p)) else peer_view r p) ∧
  sb_running (rt_subs (reconcile_gone m r (peer, previous))) = sb_running (rt_subs r).
Proof.
  unfold reconcile_gone. destruct (decide (peer ∈ st_PeerID <$> Status_list m)) as [Hin|Hin].
  { rewrite (bool_decide_eq_true_2 _ Hin), (bool_decide_eq_false_2 (_ ∉ _)) by (intros Hx; by apply Hx). by rewrite andb_false_r. }
  rewrite (bool_decide_eq_false_2 _ Hin), (bool_decide_eq_true_2 _ Hin), andb_true_r. cbv zeta.
  pose proof (disconnected_frame peer : unseen (λ a, (run_store (MarkPeerDisconnected peer) a).2)) as Hf.
  destruct (decide (previous = None)) as [Hp|Hp];
    [rewrite (bool_decide_eq_true_2 _ Hp)|rewrite (bool_decide_eq_false_2 _ Hp), (view_unseen _ _ p Hf), (running_unseen _ _ Hf)];
    (split; [|done]); rewrite view_clear, view_known; rewrite (bool_decide_decide (p = peer)); destruct (decide (p = peer)) as [->|Hne];
    [by rewrite lookup_delete_eq|by rewrite lookup_delete_ne|by rewrite lookup_delete_eq|by rewrite lookup_delete_ne].
Qed.

(** What the statuses say of a peer. *)
Definition connections_of (statuses : list Status) (peer : string) : list (option Z) :=
  connection <$> filter (λ st, st_PeerID st = peer) statuses.
Lemma statuses_view l r p :
  peer_view (foldl reconcile_status r l) p =
  foldl (λ v c, reconciled (sb_running (rt_subs r)) (Some c) v) (peer_view r p) (connections_of l p) ∧
  sb_running (rt_subs (foldl reconcile_status r l)) = sb_running (rt_subs r).
Proof.
  revert r. induction l as [|st l IH]; intros r; [done|]. cbn [foldl].
  destruct (IH (reconcile_status r st)) as [-> ->]. destruct (reconcile_status_view r st p) as [-> ->]. split; [|done].
  unfold connections_of. rewrite filter_cons. rewrite (bool_decide_decide (p = st_PeerID st)).
  destruct (decide (p = st_PeerID st)) as [Hp|Hp]; [by rewrite decide_True|by rewrite decide_False].
Qed.
Lemma gone_view m l r p :
  NoDup l.*1 →
  peer_view (foldl (reconcile_gone m) r l) p =
  (if bool_decide (p ∈ l.*1) && bool_decide (p ∉ st_PeerID <$> Status_list m)
   then mkPeerView None None (pv_sync (peer_view r p)) (pv_owed (peer_view r p)) else peer_view r p).
Proof.
  revert r. induction l as [|[peer prev] l IH]; intros r; [done|]. cbn [foldl fmap list_fmap fst]. intros [Hni Hnd]%NoDup_cons.
  rewrite IH by done. destruct (reconcile_gone_view m r peer prev p) as [-> _].
  destruct (decide (p = peer)) as [->|Hne].
  - rewrite (bool_decide_eq_false_2 (peer ∈ l.*1)), (bool_decide_eq_true_2 (peer = peer)) by done. cbn [andb].
    by rewrite (bool_decide_eq_true_2 (peer ∈ peer :: _)) by (apply elem_of_cons; by left).
  - rewrite (bool_decide_eq_false_2 (p = peer)) by done. cbn [andb].
    by rewrite (bool_decide_ext (p ∈ peer :: l.*1) (p ∈ l.*1)) by (rewrite elem_of_cons; naive_solver).
Qed.
Lemma reconciled_known running now v : pv_known (reconciled running now v) = now.
Proof. unfold reconciled. case_bool_decide; [done|]. destruct now as [[c|]|]; [by destruct running|done|done]. Qed.
Lemma connections_none l p : connections_of l p = [] ↔ p ∉ st_PeerID <$> l.
Proof.
  unfold connections_of. induction l as [|st l IH]; [split; [intros _ ?%elem_of_nil|]; done|].
  rewrite filter_cons, fmap_cons, not_elem_of_cons, <- IH. case_decide as Hp; [split; [done|by intros [Hn _]]|]. naive_solver.
Qed.

(** C27: a pass over the statuses of the links takes each peer from what was
    known of it to what its status says, and nothing else of it changes: a
    connection that is not the known one drops a subscription made on another
    connection and, while the runtime is up, asks for one synchronisation that
    subscribes again; a connection that is lost drops the subscription; a peer
    that is gone is forgotten; and a second pass over the same statuses changes
    nothing. *)
Theorem statuses_reconciled m order r peer :
  (∀ l, order l ≡ₚ l) →
  let running := sb_running (rt_subs r) in
  let seen := connections_of (Status_list m) peer in
  peer_view (reconcileMeshStatuses m order r) peer =
  (if bool_decide (seen = []) then reconciled running None (peer_view r peer)
   else foldl (λ v c, reconciled running (Some c) v) (peer_view r peer) seen) ∧
  (∀ c, seen = [c] →
     peer_view (reconcileMeshStatuses m order (reconcileMeshStatuses m order r)) peer = peer_view (reconcileMeshStatuses m order r) peer).
Proof.
  intros Ho. cbv zeta. assert (∀ r, peer_view (reconcileMeshStatuses m order r) peer =
    (if bool_decide (connections_of (Status_list m) peer = []) then reconciled (sb_running (rt_subs r)) None (peer_view r peer)
     else foldl (λ v c, reconciled (sb_running (rt_subs r)) (Some c) v) (peer_view r peer) (connections_of (Status_list m) peer))) as Hone.
  { clear r. intros r. unfold reconcileMeshStatuses. destruct (statuses_view (Status_list m) r peer) as [Hv Hr].
    set (r1 := foldl reconcile_status r (Status_list m)) in *.
    rewrite gone_view by (rewrite Ho; apply NoDup_fst_map_to_list).
    rewrite (bool_decide_ext (peer ∉ _) (connections_of (Status_list m) peer = [])) by (symmetry; apply connections_none).
    rewrite (bool_decide_decide (connections_of _ _ = [])). destruct (decide (connections_of (Status_list m) peer = [])) as [Hn|Hn].
    2: { by rewrite andb_false_r. }
    rewrite Hn in Hv. cbn [foldl] in Hv. rewrite andb_true_r, <- Hv. unfold reconciled.
    change (pv_known (peer_view r1 peer)) with (rt_known r1 !! peer).
    destruct (rt_known r1 !! peer) as [c|] eqn:Hk.
    - by rewrite bool_decide_eq_true_2 by (rewrite Ho; apply list_elem_of_fmap; exists (peer, c); split; [done|by apply elem_of_map_to_list]).
    - rewrite bool_decide_eq_false_2; [done|]. rewrite Ho. intros ([q c] & [= <-] & Hx%elem_of_map_to_list)%list_elem_of_fmap. by rewrite Hk in Hx. }
  split; [apply Hone|]. intros c Hs. rewrite Hone, Hs, (bool_decide_eq_false_2 ([c] = [])) by done. cbn [foldl].
  rewrite Hone, Hs, (bool_decide_eq_false_2 ([c] = [])) by done. cbn [foldl].
  unfold reconciled at 1. by rewrite reconciled_known, bool_decide_eq_true_2.
Qed.

(** ** The goroutine makes the steps of the workers' relation *)

Definition keeps_sync (f : MeshSubs → MeshSubs) : Prop := ∀ a, sb_syncing (f a) = sb_syncing a ∧ sb_running (f a) = sb_running a.
Abbreviation steps r r' := (rtc sync_step (rt_workers r) (rt_workers r')).
Lemma keeps_markGap peer c : keeps_sync (markMeshGap peer c).
Proof. intros a. unfold markMeshGap. destruct (sb_subs a !! peer); [case_bool_decide|]; done. Qed.
Lemma keeps_send_all m topics send l : keeps_sync (λ a, (send_all m topics send l a).2).
Proof.
  induction l as [|[peer sub] l IH]; intros a; cbn [send_all]; [done|].
  assert (keeps_sync (λ a, (send_to m topics send peer sub a).2)) as H1.
  { intros a1. unfold send_to, send_settle. destruct (send_check _ _ _ _); [|done]. destruct (send peer) as [[]|[| [] |]]; try done; apply keeps_markGap. }
  specialize (H1 a). cbv beta in H1. destruct (send_to _ _ _ _ _ a) as [o a1]. specialize (IH a1). cbn in H1, IH.
  destruct (send_all _ _ _ l a1) as [more a2]. cbn in *. destruct IH as [-> ->]. exact H1.
Qed.
Lemma keeps_forward change : keeps_sync (λ a, (forwardMeshStoreChange change a).2).
Proof.
  intros a. unfold forwardMeshStoreChange. destruct (chg_Type change); try done. destruct (chg_Entity change); try done.
  destruct (split_on _ _) as [|kind [|id more]]; try done.
  destruct (run_store_frame (GetArtifact kind (join_slash (id :: more))) a) as [s Hs].
  destruct (run_store (GetArtifact _ _) a) as [got a1]. cbn in Hs. subst a1. by destruct (mbind _ _).
Qed.
Lemma keeps_retry m send : keeps_sync (retryMeshGaps m send).
Proof.
  intros a. unfold retryMeshGaps. generalize (pending_gaps a) as l. intros l. revert a.
  induction l as [|[peer c] l IH]; intros a; cbn [retry_all]; [done|]. destruct (retry_send m send peer c) as [[[]|e]|]; [|apply IH..].
  destruct (IH (retry_clear peer c a)) as [-> ->]. unfold retry_clear. destruct (sb_subs a !! peer); [case_bool_decide|]; done.
Qed.
Lemma steps_with f r : keeps_sync f → steps r (with_subs f r).
Proof. intros Hf. apply rtc_once. left. destruct (Hf (sw_app (rt_workers r))). by apply step_others. Qed.
Lemma steps_known k f r : keeps_sync f → steps r (with_subs f (with_known k r)).
Proof. intros Hf. exact (steps_with f (with_known k r) Hf). Qed.
Lemma steps_schedule peer b r : steps r (schedule_sync peer b r).
Proof. apply rtc_once. left. apply step_schedule. Qed.
Lemma unseen_keeps f : unseen f → keeps_sync f.
Proof. intros Hf a. by destruct (Hf a) as (_ & -> & ->). Qed.
Lemma steps_foldl {A} (f : Runtime → A → Runtime) l r : (∀ r x, steps r (f r x)) → steps r (foldl f r l).
Proof. intros Hf. revert r. induction l as [|x l IH]; intros r; [reflexivity|]. etransitivity; [apply Hf|apply IH]. Qed.
Lemma keeps_clear peer : keeps_sync (clearPeerSubscription peer).
Proof. done. Qed.
Lemma keeps_clear_unless peer c : keeps_sync (clearSubscriptionUnlessConnection peer c).
Proof. intros a. unfold clearSubscriptionUnlessConnection. destruct (sb_subs a !! peer); [case_bool_decide|]; done. Qed.

Lemma status_steps r st : steps r (reconcile_status r st).
Proof.
  unfold reconcile_status. destruct (connection st) as [c|].
  - etransitivity; [apply (steps_with _ r (unseen_keeps _ (restorePeer_frame (st_PeerID st))))|]. cbv zeta.
    set (r1 := with_subs _ r). case_bool_decide; [reflexivity|].
    etransitivity; [|apply steps_schedule]. apply steps_known, keeps_clear_unless.
  - destruct (rt_known r !! st_PeerID st) as [[c|]|]; [|reflexivity|];
      (etransitivity; [|apply steps_with, (unseen_keeps _ (disconnected_frame (st_PeerID st)))]);
      apply steps_known, keeps_clear.
Qed.
Lemma gone_steps m r kp : steps r (reconcile_gone m r kp).
Proof.
  destruct kp as [peer prev]. unfold reconcile_gone. case_bool_decide; [reflexivity|]. cbv zeta.
  pose proof (steps_known (delete peer (rt_known r)) _ r (keeps_clear peer)) as Hc.
  case_bool_decide; [exact Hc|]. etransitivity; [exact Hc|]. apply steps_with, (unseen_keeps _ (disconnected_frame peer)).
Qed.
(** So what holds of every reachable state of the workers holds while the
    goroutine runs. *)
Lemma run_arm_steps m order send arm r : steps r (run_arm m order send arm r).
Proof.
  destruct arm as [type state scope sid home now found|change|e|known_order|]; cbn [run_arm].
  - destruct (forwardMeshSessionEvent _ _ _ _ _ _ _ _) as [[e|] app]; [|reflexivity].
    apply (steps_with _ (mkRuntime _ _ _ _ _)). intros a. apply keeps_send_all.
  - apply steps_with. intros a. pose proof (keeps_forward change a) as Hf. cbv beta in Hf. destruct (forwardMeshStoreChange change a) as [[e|] a1]; [|exact Hf].
    cbn in Hf. destruct Hf as [<- <-]. apply keeps_send_all.
  - apply rtc_once. left. apply step_event.
  - etransitivity; [|apply steps_with, keeps_retry]. unfold reconcileMeshStatuses.
    etransitivity; [exact (steps_foldl reconcile_status (Status_list m) r status_steps)|apply (steps_foldl (reconcile_gone m)), gone_steps].
  - apply (steps_foldl _ _ (scheduleSourceHandoffReconcile (scheduleTargetHandoffReconcile r))). intros r1 peer. apply steps_schedule.
Qed.
End Runtime.
