(* ===== verification/MeshSubsFacts.v ===== *)
(** Who is sent this machine's events: peers that asked for the topic on the
    connection they still have, with the scope for it; and what the first of two
    inventories may show of a peer before the second is there. *)

From S2P Require Import Prelude GoText MeshTypes MeshStore MeshFreshness MeshFiles MeshSync MeshInventory MeshBindings MeshStoreFacts MeshListFacts MeshInventoryFacts MeshSyncFacts PeerRpc PeerEvents PeerLink MeshWire MeshPages MeshPagesFacts MeshEndToEnd MeshSubs.
From stdpp Require Import base gmap strings list.
From Stdlib Require Import ZArith Lia.

Open Scope Z_scope.

(** ** Grants *)

(** A topic that was granted to a peer on one of its connections. *)
Abbreviation Grant := (string * Z * string)%type (only parsing).
Definition granted (m : Links) (principal : Principal) (r : result AppError (list string)) : gset Grant :=
  match r, meshConnectedAt m (pr_PeerID principal) with
  | Ok topics, Some c =>
      list_to_set (omap (λ t, match topic_scope t with
                              | Some scope => if HasScope principal scope then Some (pr_PeerID principal, c, t) else None
                              | None => None
                              end) topics)
  | _, _ => ∅
  end.

(** Everything that changes the subscriptions; [g] has the grants so far. *)
Inductive sub_step : MeshSubs * gset Grant → MeshSubs * gset Grant → Prop :=
| sub_subscribe m principal topics r a a' g :
    handleSubscribe m principal topics a = (r, a') → sub_step (a, g) (a', granted m principal r ∪ g)
| sub_unsubscribe principal a g : sub_step (a, g) ((handleUnsubscribe principal a).2, g)
| sub_clear peer a g : sub_step (a, g) (clearPeerSubscription peer a, g)
| sub_reconnected peer c a g : sub_step (a, g) (clearSubscriptionUnlessConnection peer c a, g)
| sub_mark peer c a g : sub_step (a, g) (markMeshGap peer c a, g)
| sub_unmark peer c a g : sub_step (a, g) (retry_clear peer c a, g)
| sub_stop a g : sub_step (a, g) (set_subs ∅ a, g)
| sub_other a a' g : sb_subs a' = sb_subs a → sub_step (a, g) (a', g).
Definition sub_reachable (s : MeshSubs * gset Grant) : Prop := ∃ a, sb_subs a = ∅ ∧ rtc sub_step (a, ∅) s.

Definition subs_ok (s : MeshSubs * gset Grant) : Prop :=
  ∀ peer sub, sb_subs s.1 !! peer = Some sub →
    ∃ c, su_connectedAt sub = Some c ∧ ∀ t, t ∈ su_topics sub → (peer, c, t) ∈ s.2.

Lemma authorize_scope p topics t :
  authorizeMeshTopics p topics = Ok tt → t ∈ topics → ∃ scope, topic_scope t = Some scope ∧ HasScope p scope = true.
Proof.
  induction topics as [|u topics IH]; cbn [authorizeMeshTopics]; [by intros _ ?%elem_of_nil|].
  destruct (topic_scope u) as [scope|] eqn:Hs; [|done]. destruct (HasScope p scope) eqn:Hh; [|done].
  intros Hok [->|Hin]%elem_of_cons; [by exists scope|by apply IH].
Qed.
Lemma subs_ok_sub a a' g :
  (∀ peer sub, sb_subs a' !! peer = Some sub → ∃ sub0, sb_subs a !! peer = Some sub0 ∧
     su_connectedAt sub = su_connectedAt sub0 ∧ su_topics sub = su_topics sub0) →
  subs_ok (a, g) → subs_ok (a', g).
Proof.
  intros Hsub Hok peer sub Hp. destruct (Hsub peer sub Hp) as (sub0 & H0 & Hc & Ht).
  destruct (Hok peer sub0 H0) as (c & Hcc & Htt). exists c. rewrite Hc, Ht. by split.
Qed.
Lemma set_gap_ok b a g peer c :
  subs_ok (a, g) →
  subs_ok (match sb_subs a !! peer with
           | Some s => if bool_decide (su_connectedAt s = c)
                       then set_subs (<[peer := mkSubscription (su_connectedAt s) (su_topics s) b]> (sb_subs a)) a else a
           | None => a
           end, g).
Proof.
  destruct (sb_subs a !! peer) as [s|] eqn:Hs; [|done]. case_bool_decide; [|done]. apply subs_ok_sub.
  intros p sub. cbn. intros [[<- <-]|[_ Hp]]%lookup_insert_Some; [by exists s|by exists sub].
Qed.

Lemma sub_step_ok s s' : subs_ok s → sub_step s s' → subs_ok s' ∧ s.2 ⊆ s'.2.
Proof.
  intros Hok Hs. destruct Hs as [m principal topics r a a' g Hsub|principal a g|peer a g|peer c a g|peer c a g|peer c a g|a g|a a' g Ha];
    (split; [|set_solver || done]).
  - unfold handleSubscribe in Hsub. destruct (mbind _ _) as [ts|e] eqn:Hts.
    2: { injection Hsub as <- <-. intros p sub Hp. destruct (Hok p sub Hp) as (c & Hc & Ht). exists c. split; [done|]. set_solver. }
    apply result_bind_ok in Hts as (ts' & _ & ([] & Hauth & [= ->])%result_bind_ok).
    unfold replacePeerSubscription in Hsub. destruct (meshConnectedAt m (pr_PeerID principal)) as [c|] eqn:Hc.
    2: { injection Hsub as <- <-. intros p sub Hp. destruct (Hok p sub Hp) as (c & Hc' & Ht). exists c. split; [done|]. set_solver. }
    injection Hsub as <- <-. unfold granted. rewrite Hc. intros p sub. cbn [fst snd sb_subs set_subs].
    case_bool_decide as Hempty.
    { intros [_ Hp]%lookup_delete_Some. destruct (Hok p sub Hp) as (c' & Hc' & Ht). exists c'. split; [done|]. set_solver. }
    intros [[<- <-]|[_ Hp]]%lookup_insert_Some.
    2: { destruct (Hok p sub Hp) as (c' & Hc' & Ht). exists c'. split; [done|]. set_solver. }
    exists c. split; [done|]. cbn [su_topics]. intros t Hin%elem_of_list_to_set. apply elem_of_union_l, elem_of_list_to_set, list_elem_of_omap.
    exists t. split; [done|]. destruct (authorize_scope _ _ _ Hauth Hin) as (scope & -> & ->). done.
  - eapply subs_ok_sub; [|exact Hok]. cbn. intros p sub [_ Hp]%lookup_delete_Some. by exists sub.
  - eapply subs_ok_sub; [|exact Hok]. cbn. intros p sub [_ Hp]%lookup_delete_Some. by exists sub.
  - eapply subs_ok_sub; [|exact Hok]. unfold clearSubscriptionUnlessConnection. intros p sub Hp.
    destruct (sb_subs a !! peer) as [cur|]; [|by exists sub]. case_bool_decide; [by exists sub|].
    cbn in Hp. apply lookup_delete_Some in Hp as [_ Hp]. by exists sub.
  - by apply set_gap_ok.
  - by apply set_gap_ok.
  - intros p sub Hp. cbn in Hp. by rewrite lookup_empty in Hp.
  - eapply subs_ok_sub; [|exact Hok]. intros p sub Hp. rewrite Ha in Hp. by exists sub.
Qed.
Lemma sub_reachable_ok s : sub_reachable s → subs_ok s.
Proof.
  intros (a & Ha & Hr). assert (subs_ok (a, ∅)) as Hok by (intros p sub; cbn; by rewrite Ha, lookup_empty).
  revert Hok. induction Hr as [|s1 s2 s3 Hs _ IH]; [done|]. intros Hok. apply IH. by eapply sub_step_ok.
Qed.

(** C28: an event that is handed on for a peer, from a copy of the subscriptions
    taken at any earlier moment, is on a topic that this very peer asked for, with
    the scope it takes, on the connection it still has when the sender looks; and
    where the queue refuses it, the subscription is marked for a gap. *)
Theorem events_reach_subscribers_only a1 g a2 m topics send peer sub r a3 :
  sub_reachable (a1, g) → sb_subs a1 !! peer = Some sub →
  send_to m topics send peer sub a2 = (Some r, a3) →
  ∃ c topic, meshConnectedAt m peer = Some c ∧ topic ∈ topics ∧ (peer, c, topic) ∈ g ∧
    (r = Err (SendCall ErrBackpressure) → ∀ s, sb_subs a3 !! peer = Some s → su_connectedAt s = Some c → su_needsGap s = true).
Proof.
  intros Hr Hsub Hsend. destruct (sub_reachable_ok _ Hr peer sub Hsub) as (c & Hc & Ht).
  unfold send_to in Hsend. destruct (send_check _ _ _ _) eqn:Hcheck; [|done]. unfold send_settle in Hsend.
  apply andb_true_iff in Hcheck as [Hstill Hany].
  unfold still_connected in Hstill. destruct (meshConnectedAt m peer) as [c'|]; [|done].
  apply bool_decide_eq_true in Hstill. rewrite Hc in Hstill. injection Hstill as <-.
  apply existsb_exists in Hany as (topic & Hin & Hmem%bool_decide_eq_true).
  exists c, topic. split_and!; [done|by apply list_elem_of_In|by apply Ht|].
  destruct (send peer) as [[]|[| [] |]]; simplify_eq; try done.
  intros _ s. unfold markMeshGap. rewrite Hc. destruct (sb_subs a2 !! peer) as [s0|] eqn:Hs0; [|by rewrite Hs0].
  case_bool_decide as H0; [cbn; rewrite lookup_insert_eq; by intros [= <-]|]. rewrite Hs0. intros [= <-] Hx. by rewrite Hx in H0.
Qed.

(** ** Two inventories, one visibility *)

Section Visibility.
Context `{UrlLib} {W : Type} (peer : string).

(** The peer's artifacts are being read again, and it is not shown fresh. *)
Definition artifacts_pending (p : PeerState) : Prop :=
  ps_ArtifactFreshness p = FreshnessSyncing ∧ ps_Freshness p ≠ FreshnessFresh.
Definition pending_on (s : Store) : Prop := ∃ p, read_peer (st_disk s) peer = Ok p ∧ artifacts_pending p.
Abbreviation keeps_pending m := (hoare pending_on m (λ _, pending_on) (λ _, pending_on)).

Lemma recompute_pending p : ps_ArtifactFreshness p = FreshnessSyncing → artifacts_pending (recomputePeerFreshness p).
Proof.
  intros Ha. split; [exact Ha|]. unfold recomputePeerFreshness. cbn. rewrite Ha.
  by destruct (ps_SessionFreshness p), (ps_Freshness p).
Qed.
Lemma keeps_read {A} (m : H A) : keeps (λ d, read_peer d peer) m → keeps_pending m.
Proof.
  intros Hm s (p & Hp & Ha). specialize (Hm s). unfold same in Hm. rewrite Hp in Hm.
  destruct (m s) as [[x|e] s']; exists p; by split.
Qed.
Lemma pending_bind {A B} (m : H A) (f : A → H B) : keeps_pending m → (∀ a, keeps_pending (f a)) → keeps_pending (m ≫= f).
Proof. intros Hm Hf. by eapply hoare_bind. Qed.
Lemma pending_peer {B} (f : PeerState → H B) :
  (∀ p, artifacts_pending p → ps_DeviceID p = peer → keeps_pending (f p)) → keeps_pending (getPeerOrNew peer ≫= f).
Proof.
  intros Hf s (p & Hp & Ha). unfold mbind, M_bind. rewrite getPeerOrNew_run, Hp. cbn.
  apply Hf; [exact Ha| |by exists p]. apply (peer_or_new_device (st_disk s) peer (Some p)). by rewrite Hp.
Qed.
Lemma pending_write p : artifacts_pending p → ps_DeviceID p = peer → keeps_pending (writePeerLocked p).
Proof.
  intros Ha Hd s Hs. pose proof (writePeer_writes p s) as Hw. destruct (writePeerLocked p s) as [[[]|e] s'].
  - destruct Hw as [Hok Hw]. exists p. split; [|exact Ha]. rewrite Hw, <- Hd. by apply read_peer_put.
  - destruct Hs as (q & Hq & Hqa). exists q. by rewrite Hw.
Qed.
Lemma read_peer_session q d : read_peer (put_session q d) peer = read_peer d peer.
Proof. done. Qed.

Lemma syncing_pending ep at_ p : artifacts_pending p → artifacts_pending (syncing_peer ep at_ true false p).
Proof.
  intros [Ha _]. unfold syncing_peer. apply recompute_pending. cbn.
  unfold initializeLegacyTopicFreshness. repeat case_match; cbn in *; try done; by rewrite ?Ha in *.
Qed.
Lemma pending_begin scopes ep rev : keeps_pending (BeginSessionInventory peer scopes ep rev).
Proof.
  unfold BeginSessionInventory, validateSessionInventoryCursorLocked, markSessionInventorySyncingLocked, markPeerInventoriesSyncingLocked.
  do 5 (apply pending_bind; [apply keeps_read; respects|intros ?]).
  apply pending_bind; [apply keeps_read; respects|intros _]. apply pending_bind; [|intros _; apply keeps_read; respects].
  apply pending_bind; [apply keeps_read; respects|intros t]. cbv zeta.
  apply pending_bind; [apply keeps_read; respects|intros _]. apply pending_bind; [apply keeps_read; respects|intros _].
  apply pending_peer. intros p Hp Hd. apply pending_bind; [|intros _; apply keeps_read; respects].
  apply pending_write; [by apply syncing_pending|]. rewrite <- Hd. unfold syncing_peer. cbn. apply initializeLegacy_device.
Qed.
Lemma pending_commit x : si_deviceID x = peer → keeps_pending (SessionInventory_Commit x).
Proof.
  intros Hx. unfold SessionInventory_Commit, commitSessionInventory, validateSessionInventoryCursorLocked. rewrite Hx.
  apply pending_bind; [apply keeps_read; respects|intros _]. apply pending_bind; [|intros _; apply keeps_read; respects].
  apply pending_bind; [apply keeps_read; respects|intros _].
  apply pending_peer. intros p Hp Hd.
  apply pending_bind; [apply keeps_read; respects|intros existing]. apply pending_bind; [apply keeps_read; respects|intros t].
  cbv zeta. apply pending_bind; [apply keeps_read; eauto with go|intros _]. apply pending_bind; [apply keeps_read; eauto with go|intros _].
  apply pending_bind; [|intros _; apply keeps_read; respects]. apply pending_write; [|exact Hx].
  unfold commit_group_peer. destruct (recompute_pending (ps_set_session FreshnessFresh (UTC t)
    (ps_set_updated (UTC t) (ps_set_source (si_epoch x) (ps_set_header (si_deviceID x) p))))) as [H1 H2]; [apply Hp|].
  by split.
Qed.
Lemma begin_names_peer scopes ep rev :
  hoare (pending_on) (BeginSessionInventory peer scopes ep rev) (λ x s, (si_deviceID x = peer ∧ pending_wf x) ∧ pending_on s) (λ _, pending_on).
Proof.
  intros s Hs. pose proof (pending_begin scopes ep rev s Hs) as Hp.
  destruct (BeginSessionInventory peer scopes ep rev s) as [[x|e] s'] eqn:Hb; [|exact Hp]. split; [|exact Hp].
  apply BeginSessionInventory_ok in Hb as (_ & -> & _ & _ & _ & Hwf). by split.
Qed.
Lemma pending_commit_all clock response s r s' :
  pending_on s → commitRemoteSessions clock peer response s = (r, s') → pending_on s'.
Proof.
  intros Hs. unfold commitRemoteSessions. destruct (mbind _ _) as [acc|e]; [|by intros [= _ <-]].
  assert (keeps_pending (snapshot ← BeginSessionInventory peer (sp_ProfileScopes response) (sp_SourceEpoch response)
                           (sp_SourceRevision response);
                         snapshot ← lift (upsert_sessions peer snapshot acc);
                         _ ← SessionInventory_Commit snapshot; mret tt)) as Hall.
  { eapply hoare_bind; [apply begin_names_peer|]. intros x0 s0 ([Hx0 Hwf] & Hs0).
    destruct (upsert_sessions peer x0 acc) as [x|e] eqn:Hu; [|exact Hs0].
    assert (si_deviceID x = peer) as Hx by by rewrite (proj2 (upserts_wf x0 x Hwf (proj1 (upsert_sessions_ok _ _ _ _ Hu)))).
    refine (pending_bind (SessionInventory_Commit x) (λ _, mret tt) (pending_commit x Hx) _ s0 Hs0).
    by intros _ s2 Hs2. }
  specialize (Hall s Hs). cbv beta in Hall. unfold in_store.
  match type of Hall with let (_, _) := ?m in _ => destruct m as [[[]|e] s1] end; intros [= _ <-]; exact Hall.
Qed.
Lemma pending_list (call : PageRequest → W → result AppError SessionsPage * W) clock w s r w' s' :
  pending_on s → RemoteSessionsList call clock peer w s = (r, w', s') → pending_on s'.
Proof.
  intros Hs. unfold RemoteSessionsList. destruct (fetch _ _ _ _ _) as [[response|e] w1]; [|by intros [= _ _ <-]].
  destruct (commitRemoteSessions _ _ _ _) as [r1 s1] eqn:Hc. apply pending_commit_all in Hc; [|done].
  destruct r1 as [[]|e]; [|by intros [= _ _ <-]].
  pose proof (keeps_read _ (keeps_ListRemoteSessions (λ d, read_peer d peer) peer "") s1 Hc) as Hl.
  unfold in_store. destruct (ListRemoteSessions peer "" s1) as [[l|e] s2]; intros [= _ _ <-]; exact Hl.
Qed.

Lemma marked_pending ep s s' : MarkPeerSyncing peer ep s = (Ok tt, s') → pending_on s'.
Proof.
  unfold MarkPeerSyncing. intros Hr. apply bind_run_ok in Hr as (u & s1 & Hv & Hr). unfold lift in Hv. injection Hv as Hv <-.
  unfold markPeerSyncingLocked in Hr. apply markPeerInventoriesSyncing_peer in Hr as (at_ & found & Hp).
  - eexists. split; [exact Hp|]. by apply recompute_pending.
  - unfold validateSyncingPeer in Hv. by inv_ok.
Qed.

(** Once a full synchronisation has marked the peer, what it does about
    sessions never shows the peer fresh, whatever the peer answers and however
    it ends: its artifacts are still those of before, and stay so marked until
    they have been read too. *)
Theorem peer_not_fresh_between (c : PeerCalls (W:=W)) epoch ep s s1 w r w' s2 :
  MarkPeerSyncing peer ep s = (Ok tt, s1) →
  syncMeshSessions c epoch peer false w s1 = (r, w', s2) →
  ∃ p, read_peer (st_disk s2) peer = Ok p ∧
       ps_ArtifactFreshness p = FreshnessSyncing ∧ ps_Freshness p ≠ FreshnessFresh.
Proof.
  intros Hm Hr. apply marked_pending in Hm. assert (pending_on s2) as (p & Hp & Hq); [|by exists p].
  assert (RemoteSessionsList (cl_sessions c) (cl_clock c) peer w s1 = (r, w', s2)) as Hr2.
  { rewrite <- Hr. unfold syncMeshSessions. reflexivity. }
  clear Hr. exact (pending_list (cl_sessions c) (cl_clock c) w s1 r w' s2 Hm Hr2).
Qed.
End Visibility.
