(* ===== verification/SessionEnv.v ===== *)
(** How an agent is launched with its environment: the environment file of a
    session (internal/hooks/envfile.go), the command that prints it for the shell
    (cmd/arcmux/hookenv.go), and the start command and tmux name that
    internal/daemon/daemon.go makes. A fragment of the POSIX shell says what the
    printed text does when it is evaluated. *)

From S2P Require Import Prelude GoText RuneText GoPath HookState Health.
From stdpp Require Import base gmap strings list.
From Stdlib Require Import ZArith Lia Ascii.

Open Scope Z_scope.

(** ** Text *)

(** [strings.ReplaceAll] for a non-empty [old]; [skip] bytes belong to the last
    match. *)
Fixpoint replace_from (old new : string) (skip : nat) (s : string) : string :=
  match s with
  | EmptyString => EmptyString
  | String c s' =>
      match skip with
      | S k => replace_from old new k s'
      | O => if has_prefix old s then new +:+ replace_from old new (String.length old - 1) s'
             else String c (replace_from old new 0 s')
      end
  end.
Definition ReplaceAll (s old new : string) : string := replace_from old new 0 s.
Definition squote : ascii := "'".
Definition shellSingleQuote (s : string) : string := "'" +:+ ReplaceAll s "'" "'\''" +:+ "'".
(** [strings.TrimRight(s, cutset)] for one byte *)
Fixpoint trim_right_byte (b : ascii) (s : string) : string :=
  match s with
  | EmptyString => EmptyString
  | String c s' => match trim_right_byte b s' with EmptyString => if Ascii.eqb c b then EmptyString else String c EmptyString | r => String c r end
  end.
Definition byte (n : nat) : ascii := ascii_of_nat n.
Definition newline : string := String (byte 10) EmptyString.

(** [base64.RawURLEncoding] *)
Definition base64_char (n : Z) : ascii :=
  if n <? 26 then byte_ascii (65 + n) else if n <? 52 then byte_ascii (71 + n) else if n <? 62 then byte_ascii (n - 4)
  else if n =? 62 then "-"%char else "_"%char.
Fixpoint base64 (s : string) : string :=
  match s with
  | EmptyString => EmptyString
  | String a EmptyString =>
      let a := byte_val a in
      String (base64_char (a / 4)) (String (base64_char (a mod 4 * 16)) EmptyString)
  | String a (String b EmptyString) =>
      let a := byte_val a in let b := byte_val b in
      String (base64_char (a / 4)) (String (base64_char (a mod 4 * 16 + b / 16)) (String (base64_char (b mod 16 * 4)) EmptyString))
  | String a (String b (String c s)) =>
      let a := byte_val a in let b := byte_val b in let c := byte_val c in
      String (base64_char (a / 4)) (String (base64_char (a mod 4 * 16 + b / 16))
        (String (base64_char (b mod 16 * 4 + c / 64)) (String (base64_char (c mod 64)) (base64 s))))
  end.
Example base64_root : base64 "profile:a-b_9" = "cHJvZmlsZTphLWJfOQ".
Proof. vm_compute. reflexivity. Qed.

(** ** What the code asks of the disk *)

Inductive NodeKind := NodeDir | NodeFile | NodeSymlink | NodeSpecial.
Record Node := mkNode { nd_kind : NodeKind; nd_perm : Z; nd_uid : Z; nd_content : string }.
(** Each call may fail; a failing write leaves a prefix of its data. *)
Inductive IoResult := IoOk | IoFail (written : nat).
Record EnvDisk := mkEnvDisk { ed_nodes : gmap string Node; ed_uid : Z; ed_umask : Z; ed_io : list IoResult }.
Definition EM := M EnvDisk string.
Definition put_node (path : string) (n : Node) : EM unit :=
  modify (λ d, mkEnvDisk (<[path := n]> (ed_nodes d)) (ed_uid d) (ed_umask d) (ed_io d)).
Definition node_at (path : string) : EM (option Node) := gets (λ d, ed_nodes d !! path).
Definition next_io : EM IoResult := λ d,
  match ed_io d with
  | [] => (Ok IoOk, d)
  | r :: rest => (Ok r, mkEnvDisk (ed_nodes d) (ed_uid d) (ed_umask d) rest)
  end.
Definition may_fail (message : string) : EM unit :=
  r ← next_io; match r with IoOk => mret tt | IoFail _ => throw message end.
Definition created (mode : Z) (d : EnvDisk) : Z := Z.land mode (Z.lnot (ed_umask d)).

Definition os_MkdirAll (dir : string) (mode : Z) : EM unit :=
  _ ← may_fail "mkdir";
  n ← node_at dir;
  match n with
  | None => perm ← gets (created mode); uid ← gets ed_uid; put_node dir (mkNode NodeDir perm uid "")
  | Some n => match nd_kind n with NodeDir | NodeSymlink => mret tt | _ => throw "not a directory" end
  end.
(** A symbolic link is followed, out of what is modelled. *)
Definition os_Chmod (path : string) (mode : Z) : EM unit :=
  _ ← may_fail "chmod";
  n ← node_at path;
  match n with
  | None => throw "no such file"
  | Some n =>
      match nd_kind n with
      | NodeSymlink => mret tt
      | k => uid ← gets ed_uid;
             if negb (nd_uid n =? uid) && negb (uid =? 0) then throw "not permitted"
             else put_node path (mkNode k mode (nd_uid n) (nd_content n))
      end
  end.

(** ** The environment file *)

Definition SessionEnvDir : string := "/tmp/arcmux".
Definition envKeyRe (s : string) : bool :=
  match s with
  | EmptyString => false
  | String c s' => (is_upper c || char_is "_" c) && all_chars (λ c, is_upper c || is_digit c || char_is "_" c) s'
  end.
Definition key_allowed (k : string) : bool := envKeyRe k && has_prefix "ARCMUX_" k.
(** [^[a-z0-9][a-z0-9_-]{0,62}[a-z0-9]$|^[a-z0-9]$] *)
Definition profileNameRe (s : string) : bool :=
  match s with
  | EmptyString => false
  | String c s' =>
      is_lc_alnum c &&
      match last_char s' with
      | None => true
      | Some z => is_lc_alnum z && len_between 1 63 s' && all_chars (λ d, is_lc_alnum d || char_is "_" d || char_is "-" d) s'
      end
  end.
Definition validateProfileScope (scope : string) : result string unit :=
  if String.eqb scope "root" then Ok tt else
  guard_err (match cut_prefix "profile:" scope with Some name => profileNameRe name | None => false end) "invalid profile scope".
Definition SessionEnvFilePath (dir scope sessionID : string) : result string string :=
  _ ← validateProfileScope scope;
  if negb (sessionIDRe sessionID) then Err "invalid session id" else
  Ok (filepath_Join dir (base64 scope +:+ "--" +:+ sessionID +:+ ".env")).

Definition checkOwnedSecure (path : string) (isDir : bool) : EM unit :=
  _ ← may_fail "lstat";
  n ← node_at path;
  uid ← gets ed_uid;
  match n with
  | None => throw "no such file"
  | Some n =>
      match nd_kind n, isDir with
      | NodeSymlink, _ => throw "is a symlink"
      | NodeDir, true | NodeFile, false =>
          if negb (Z.land (nd_perm n) 63 =? 0) then throw "permissions are too open" else
          if negb (nd_uid n =? uid) then throw "owned by another uid" else mret tt
      | _, true => throw "not a directory"
      | _, false => throw "not a regular file"
      end
  end.
Definition ensureOwnedDir (dir : string) (mode : Z) : EM unit :=
  _ ← os_MkdirAll dir mode; _ ← os_Chmod dir mode; checkOwnedSecure dir true.

(** One record per line, in the order of the keys. *)
Fixpoint env_lines (env : gmap string string) (keys : list string) : result string string :=
  match keys with
  | [] => Ok ""
  | k :: keys =>
      let v := default "" (env !! k) in
      if negb (key_allowed k) then Err "disallowed env key" else
      if contains_any (λ c, Ascii.eqb c (byte 10) || Ascii.eqb c (byte 0)) v then Err "env value contains newline or NUL" else
      rest ← env_lines env keys;
      Ok (k +:+ "=" +:+ v +:+ newline +:+ rest)
  end.
Definition env_keys (env : gmap string string) : list string := sort_strings (map_to_list env).*1.
Definition WriteSessionEnvFile (dir scope sessionID : string) (env : gmap string string) : EM string :=
  path ← lift (SessionEnvFilePath dir scope sessionID);
  _ ← ensureOwnedDir dir 448;
  text ← lift (env_lines env (env_keys env));
  _ ← may_fail "open session env file";
  n ← node_at path;
  uid ← gets ed_uid;
  _ ← match n with
      | None => perm ← gets (created 384); put_node path (mkNode NodeFile perm uid "")
      | Some n =>
          match nd_kind n with
          | NodeFile => put_node path (mkNode NodeFile (nd_perm n) (nd_uid n) "")
          | NodeSymlink | NodeDir => throw "open session env file"
          | NodeSpecial => throw "session env file is not a regular file"
          end
      end;
  n ← node_at path;
  _ ← match n with
      | Some n => if negb (nd_uid n =? uid) then throw "session env file is not owned by the current uid" else mret tt
      | None => throw "stat"
      end;
  _ ← os_Chmod path 384;
  r ← next_io;
  n ← node_at path;
  let write content := match n with
                       | Some n => put_node path (mkNode (nd_kind n) (nd_perm n) (nd_uid n) content)
                       | None => mret tt
                       end in
  match r with
  | IoOk => _ ← write text; mret path
  | IoFail k => _ ← write (String.substring 0 k text); throw "write session env file"
  end.

Fixpoint cut_equals (s : string) : option (string * string) :=
  match s with
  | EmptyString => None
  | String c s' =>
      if Ascii.eqb c "=" then Some (EmptyString, s')
      else match cut_equals s' with Some (k, v) => Some (String c k, v) | None => None end
  end.
Fixpoint env_exports (lines : list string) : result string (list string) :=
  match lines with
  | [] => Ok []
  | raw :: lines =>
      let line := trim_right_byte (byte 13) raw in
      if String.eqb line "" || has_prefix "#" line then env_exports lines else
      match cut_equals line with
      | None | Some (EmptyString, _) => Err "malformed env line"
      | Some (key, val) =>
          if negb (key_allowed key) then Err "disallowed env key" else
          if contains_any (Ascii.eqb (byte 0)) val then Err "env value contains NUL" else
          rest ← env_exports lines;
          Ok (("export " +:+ key +:+ "=" +:+ shellSingleQuote val) :: rest)
      end
  end.
Definition LoadSessionEnvExports (dir scope sessionID : string) : EM (list string) :=
  path ← lift (SessionEnvFilePath dir scope sessionID);
  _ ← checkOwnedSecure dir true;
  _ ← checkOwnedSecure path false;
  _ ← may_fail "read session env file";
  n ← node_at path;
  lift (env_exports (split_on (byte 10) (match n with Some n => nd_content n | None => "" end))).

(** [arcmux hook-env]: the text printed, nothing on any error. *)
Definition print_lines (l : list string) : string := foldr (λ x s, x +:+ newline +:+ s) "" l.
Definition cmdHookEnv (args : list string) (d : EnvDisk) : result string string :=
  match args with
  | [scope; sessionID] =>
      if String.eqb scope "" || String.eqb sessionID "" then Err "usage" else
      match (LoadSessionEnvExports SessionEnvDir scope sessionID d).1 with
      | Ok lines => Ok (print_lines lines)
      | Err _ => Ok ""
      end
  | _ => Err "usage"
  end.

(** ** Launching (daemon.go) *)

Record LaunchConfig := mkLaunch {
  lc_ProfileName : string; lc_Socket : string; lc_HookOutputDir : string; lc_SessionStateDir : string; lc_HistoryRoot : string; lc_AutoInstall : bool;
  (** [os.Executable], empty when it is not known *)
  lc_Executable : string }.
Record LaunchProfile := mkLaunchProfile { lp_profile : Profile; lp_SessionStartArgs : string; lp_HookDir : string }.

Definition supervisedSessionEnvironment (cfg : LaunchConfig) (id : string) (supplied : gmap string string) : gmap string string * string :=
  let profileScope := if String.eqb (lc_ProfileName cfg) "" then "root" else "profile:" +:+ lc_ProfileName cfg in
  (<["ARCMUX_HISTORY_ROOT" := lc_HistoryRoot cfg]> (<["ARCMUX_SESSION_STATE_DIR" := lc_SessionStateDir cfg]>
   (<["ARCMUX_DAEMON_SOCKET" := lc_Socket cfg]> (<["ARCMUX_PROFILE_SCOPE" := profileScope]>
   (<["ARCMUX_SESSION_ID" := id]> supplied)))), profileScope).

(** What [createSession] stores for the hooks of a session. *)
Definition sessionEnv (cfg : LaunchConfig) (profileScope id agent : string) : gmap string string :=
  let vars := list_to_map
    [("ARCMUX_SESSION_ID", id); ("ARCMUX_PROFILE_SCOPE", profileScope); ("ARCMUX_HOOK_AGENT", agent);
     ("ARCMUX_HOOK_OUTPUT_DIR", lc_HookOutputDir cfg); ("ARCMUX_SESSION_STATE_DIR", lc_SessionStateDir cfg);
     ("ARCMUX_DAEMON_SOCKET", lc_Socket cfg); ("ARCMUX_HISTORY_ROOT", lc_HistoryRoot cfg)] in
  if String.eqb (lc_Executable cfg) "" then vars else <["ARCMUX_BIN" := lc_Executable cfg]> vars.
Definition hook_env_command (cfg : LaunchConfig) (profileScope id : string) : string :=
  let bin := if String.eqb (lc_Executable cfg) "" then "arcmux" else lc_Executable cfg in
  shellSingleQuote bin +:+ " hook-env " +:+ shellSingleQuote profileScope +:+ " " +:+ shellSingleQuote id.
Definition dquote : string := String (byte 34) EmptyString.
Definition agentStartCommand (cfg : LaunchConfig) (prof : option LaunchProfile) (profileScope id startCommand : string) : string :=
  let start :=
    match prof with
    | Some p =>
        if String.eqb (lp_SessionStartArgs p) "" then startCommand else
        startCommand +:+ " " +:+
        ReplaceAll (ReplaceAll (lp_SessionStartArgs p) "{session_id}" (shellSingleQuote id)) "{hook_dir}" (shellSingleQuote (lp_HookDir p))
    | None => startCommand
    end in
  let hooked := match prof with Some p => lc_AutoInstall cfg && HookBacked (lp_profile p) | None => false end in
  if negb hooked then "exec " +:+ start else
  "eval " +:+ dquote +:+ "$(" +:+ hook_env_command cfg profileScope id +:+ ")" +:+ dquote +:+ " ; exec " +:+ start.

(** ** The tmux name *)

Definition tmux_rune (r : Z) : bool := in_range 97 122 r || in_range 48 57 r || (r =? 95) || (r =? 45).
Fixpoint tmux_runes (lastDash : bool) (l : list Z) : list Z :=
  match l with
  | [] => []
  | r :: l =>
      if tmux_rune r then r :: tmux_runes (r =? 45) l
      else if lastDash then tmux_runes true l else 45 :: tmux_runes true l
  end.
Definition is_dash (r : Z) : bool := r =? 45.
Definition trim_dashes (l : list Z) : list Z := trim_right is_dash (trim_left is_dash l).
(** The first 80 bytes, all of them ASCII. *)
Definition bounded_name (l : list Z) : list Z := if (80 <? length l)%nat then trim_right is_dash (take 80 l) else l.
Definition safeTmuxSessionName `{UnicodeTables} (raw sessionID : string) : string :=
  let l := trim_dashes (tmux_runes false (ToLower (TrimSpace (runes raw)))) in
  let name := bytes_string (bounded_name (match l with [] => str_bytes "agent" | _ => l end)) in
  if String.eqb sessionID "" then name else
  let suffix := String.substring 0 10 sessionID in
  if contains suffix name then name else name +:+ "-" +:+ suffix.
Definition agentTmuxSessionName `{UnicodeTables} (requested name ownerID sessionID : string) : string :=
  if negb (String.eqb requested "") then safeTmuxSessionName requested ""
  else if String.eqb ownerID "" then safeTmuxSessionName name sessionID
  else safeTmuxSessionName (ownerID +:+ "-" +:+ name) "".

(** * What the shell makes of it *)

(** ** The shell *)

(** Words of letters, quoted text and escaped characters; commands are ended by
    line feeds or semicolons. Anything else the shell would look at (expansions,
    redirections, operators) is refused. *)
Definition sh_blank (c : ascii) : bool := char_is " " c || Ascii.eqb c (byte 9).
Definition sh_end (c : ascii) : bool := Ascii.eqb c (byte 10) || char_is ";" c.
Definition sh_plain (c : ascii) : bool :=
  is_alnum c || char_is "_" c || char_is "-" c || char_is "." c || char_is "/" c || char_is "=" c || char_is ":" c.
Definition add_char (c : ascii) (r : option (string * string)) : option (string * string) :=
  match r with Some (w, rest) => Some (String c w, rest) | None => None end.
Fixpoint sh_word (quoted : bool) (s : string) : option (string * string) :=
  match s with
  | EmptyString => if quoted then None else Some (EmptyString, EmptyString)
  | String c s' =>
      if quoted then
        if Ascii.eqb c squote then sh_word false s' else add_char c (sh_word true s')
      else if Ascii.eqb c squote then sh_word true s'
      else if char_is "\" c then
        match s' with EmptyString => None | String d s'' => add_char d (sh_word false s'') end
      else if sh_blank c || sh_end c then Some (EmptyString, s)
      else if sh_plain c then add_char c (sh_word false s')
      else None
  end.
Fixpoint sh_commands (fuel : nat) (words : list string) (s : string) : option (list (list string)) :=
  let close rest := match words with [] => rest | _ => cons (rev words) <$> rest end in
  match fuel, s with
  | O, _ => None
  | S fuel, EmptyString => close (Some [])
  | S fuel, String c s' =>
      if sh_blank c then sh_commands fuel words s'
      else if sh_end c then close (sh_commands fuel [] s')
      else match sh_word false s with
           | Some (w, rest) => sh_commands fuel (w :: words) rest
           | None => None
           end
  end.
(** Every step but the last leaves fewer characters. *)
Definition sh_parse (s : string) : option (list (list string)) := sh_commands (S (String.length s)) [] s.
Example sh_parse_words : sh_parse "a 'b c'\''d' ; e" = Some [["a"; "b c'd"]; ["e"]].
Proof. vm_compute. reflexivity. Qed.
Example sh_parse_substitution : sh_parse "a $(b)" = None.
Proof. vm_compute. reflexivity. Qed.

Lemma app_String c s t : String c s +:+ t = String c (s +:+ t).
Proof. done. Qed.
Lemma app_assoc_string a b c : (a +:+ b) +:+ c = a +:+ (b +:+ c).
Proof. induction a as [|x a IH]; [done|]. rewrite !app_String. by rewrite IH. Qed.
Lemma app_nothing s : s +:+ "" = s.
Proof. induction s as [|c s IH]; [done|]. change (String c (s +:+ "") = String c s). by rewrite IH. Qed.
Lemma sh_fuel f f' words s r : sh_commands f words s = Some r → (f ≤ f')%nat → sh_commands f' words s = Some r.
Proof.
  revert f' words s r. induction f as [|f IH]; intros f' words s r Hs Hf; [done|]. destruct f' as [|f']; [lia|].
  cbn [sh_commands] in *. destruct s as [|c s]; [done|]. destruct (sh_blank c); [apply (IH f' words s); [done|lia]|].
  destruct (sh_end c).
  - destruct (sh_commands f [] s) as [l|] eqn:Hl; [|by destruct words].
    rewrite (IH f' [] s l Hl) by lia. done.
  - destruct (sh_word false (String c s)) as [[w rest]|]; [|done]. apply (IH f' (w :: words) rest); [done|lia].
Qed.
Lemma sh_word_plain p rest :
  all_chars sh_plain p = true → sh_word false (p +:+ rest) = match sh_word false rest with Some (w, r) => Some (p +:+ w, r) | None => None end.
Proof.
  induction p as [|c p IH]; intros Hp; [change ("" +:+ rest) with rest; by destruct (sh_word false rest) as [[w r]|]|]. cbn [all_chars] in Hp.
  apply andb_true_iff in Hp as [Hc Hp]. rewrite app_String. cbn [sh_word]. rewrite IH by done.
  assert (Ascii.eqb c squote = false ∧ char_is "\" c = false ∧ sh_blank c = false ∧ sh_end c = false) as (-> & -> & -> & ->).
  { clear -Hc. destruct c as [[] [] [] [] [] [] [] []]; vm_compute in Hc |- *; done. }
  cbn [orb]. rewrite Hc. by destruct (sh_word false rest) as [[w r]|].
Qed.
(** Quoted text comes back as it was. *)
Lemma sh_word_quoted v rest :
  sh_word false (shellSingleQuote v +:+ rest) = match sh_word false rest with Some (w, r) => Some (v +:+ w, r) | None => None end.
Proof.
  unfold shellSingleQuote. change (("'" +:+ ReplaceAll v "'" "'\''" +:+ "'") +:+ rest) with (String squote ((ReplaceAll v "'" "'\''" +:+ "'") +:+ rest)).
  cbn [sh_word]. rewrite Ascii.eqb_refl, app_assoc_string. unfold ReplaceAll.
  induction v as [|c v IH].
  - change (replace_from "'" "'\''" 0 "" +:+ ("'" +:+ rest)) with (String squote rest). cbn [sh_word]. rewrite Ascii.eqb_refl.
    by destruct (sh_word false rest) as [[w r]|].
  - cbn [replace_from]. assert (has_prefix "'" (String c v) = Ascii.eqb squote c) as -> by (cbn; by rewrite andb_true_r).
    destruct (Ascii.eqb_spec squote c) as [<-|Hne].
    + change (String.length "'" - 1)%nat with 0%nat. rewrite app_assoc_string. change ("'\''" +:+ ?x) with (String squote (String "\" (String squote (String squote x)))).
      cbn [sh_word]. rewrite !Ascii.eqb_refl. cbn [add_char]. rewrite IH. by destruct (sh_word false rest) as [[w r]|].
    + rewrite app_String. cbn [sh_word]. rewrite (proj2 (Ascii.eqb_neq c squote)) by done. rewrite IH.
      by destruct (sh_word false rest) as [[w r]|].
Qed.

(** ** What [hook-env] prints *)

Definition export_line (kv : string * string) : string := "export " +:+ kv.1 +:+ "=" +:+ shellSingleQuote kv.2.
Definition export_command (kv : string * string) : list string := ["export"; kv.1 +:+ "=" +:+ kv.2].

Lemma key_plain k : key_allowed k = true → all_chars sh_plain k = true.
Proof.
  unfold key_allowed. intros [Hk _]%andb_true_iff. destruct k as [|c k]; [done|]. cbn [envKeyRe all_chars] in *.
  apply andb_true_iff in Hk as [Hc Hk]. apply andb_true_iff. split.
  - unfold sh_plain, is_alnum. apply orb_true_iff in Hc as [-> | ->]; by rewrite ?orb_true_r.
  - eapply all_chars_impl; [|exact Hk]. intros d Hd. unfold sh_plain, is_alnum.
    apply orb_true_iff in Hd as [[-> | ->]%orb_true_iff | ->]; by rewrite ?orb_true_r.
Qed.
Lemma sh_word_end rest : sh_word false (newline +:+ rest) = Some ("", newline +:+ rest).
Proof. done. Qed.
Lemma sh_export fuel kv rest :
  key_allowed kv.1 = true →
  sh_commands (4 + fuel) [] (export_line kv +:+ newline +:+ rest) = cons (export_command kv) <$> sh_commands fuel [] rest.
Proof.
  destruct kv as [k v]. cbn [fst]. intros Hk. unfold export_line, export_command. cbn [fst snd].
  rewrite !app_assoc_string. pose proof (key_plain k Hk) as Hp. destruct k as [|c k]; [done|].
  set (tail := String c k +:+ "=" +:+ shellSingleQuote v +:+ newline +:+ rest).
  assert (sh_word false tail = Some (String c k +:+ "=" +:+ v, newline +:+ rest)) as Hw.
  { unfold tail. rewrite sh_word_plain by done. rewrite (sh_word_plain "=") by done.
    rewrite sh_word_quoted, sh_word_end. cbn. by rewrite app_nothing. }
  assert (sh_blank c = false ∧ sh_end c = false) as [Hb He].
  { cbn [all_chars] in Hp. apply andb_true_iff in Hp as [Hc _]. clear -Hc. destruct c as [[] [] [] [] [] [] [] []]; vm_compute in Hc |- *; done. }
  assert (tail = String c (k +:+ "=" +:+ shellSingleQuote v +:+ newline +:+ rest)) as Ht by done.
  change ("export " +:+ tail) with (String "e" ("xport " +:+ tail)).
  cbn [Nat.add sh_commands]. change (sh_blank "e") with false. change (sh_end "e") with false. cbv iota.
  change (sh_word false (String "e" ("xport " +:+ tail))) with (Some ("export", " " +:+ tail)). cbv iota.
  cbn [sh_commands]. change (sh_blank " ") with true. cbv iota.
  change (" " +:+ tail) with (String " " tail). rewrite Ht. cbn [sh_commands]. change (sh_blank " ") with true. cbv iota. rewrite <- Ht.
  cbn [sh_commands]. rewrite Ht at 1. rewrite Hb, He. cbv iota. rewrite <- Ht, Hw.
  change (newline +:+ rest) with (String (byte 10) rest). cbn [sh_commands]. change (sh_blank (byte 10)) with false.
  change (sh_end (byte 10)) with true. done.
Qed.
Lemma parse_exports vars : Forall (λ kv, key_allowed kv.1 = true) vars → sh_parse (print_lines (export_line <$> vars)) = Some (export_command <$> vars).
Proof.
  intros Hv. unfold sh_parse.
  assert (sh_commands (S (4 * length vars)) [] (print_lines (export_line <$> vars)) = Some (export_command <$> vars) ∧
    (4 * length vars ≤ String.length (print_lines (export_line <$> vars)))%nat) as [Hp Hl].
  { induction Hv as [|kv vars Hk Hv [IH1 IH2]]; [done|]. cbn [length fmap list_fmap print_lines foldr].
    fold (print_lines (export_line <$> vars)). split.
    - replace (S (4 * S (length vars)))%nat with (4 + S (4 * length vars))%nat by lia. rewrite sh_export by done. by rewrite IH1.
    - assert (∀ a b, String.length (a +:+ b) = (String.length a + String.length b)%nat) as Happ.
      { induction a as [|c a IH]; intros b; [done|]. rewrite app_String. cbn. by rewrite IH. }
      assert (7 ≤ String.length (export_line kv))%nat as H7.
      { unfold export_line. rewrite Happ. change (String.length "export ") with 7%nat. lia. }
      rewrite !Happ. lia. }
  eapply sh_fuel; [exact Hp|lia].
Qed.
Lemma env_exports_spec lines out :
  env_exports lines = Ok out → ∃ vars, out = export_line <$> vars ∧ Forall (λ kv, key_allowed kv.1 = true) vars.
Proof.
  revert out. induction lines as [|raw lines IH]; intros out; cbn [env_exports]; [intros [= <-]; by exists []|].
  destruct (_ || _); [by apply IH|]. destruct (cut_equals _) as [[[|c k] v]|]; [done| |done].
  destruct (key_allowed (String c k)) eqn:Hk; [|done]. cbn [negb]. destruct (contains_any _ v); [done|].
  destruct (env_exports lines) as [rest|]; [|done]. intros [= <-]. destruct (IH rest eq_refl) as (vars & -> & Hv).
  exists ((String c k, v) :: vars). split; [done|]. by constructor.
Qed.

(** ** Whose file is read *)

Definition trusted (kind : NodeKind) (uid : Z) (n : option Node) : Prop :=
  ∃ n', n = Some n' ∧ nd_kind n' = kind ∧ Z.land (nd_perm n') 63 = 0 ∧ nd_uid n' = uid.
Lemma may_fail_ok message d u d' : may_fail message d = (Ok u, d') → ed_nodes d' = ed_nodes d ∧ ed_uid d' = ed_uid d ∧ ed_umask d' = ed_umask d.
Proof. unfold may_fail, next_io, mbind, M_bind, mret, M_ret, throw. destruct (ed_io d) as [|[] rest]; intros [=]; by subst. Qed.
Lemma check_ok path isDir d u d' :
  checkOwnedSecure path isDir d = (Ok u, d') →
  trusted (if isDir then NodeDir else NodeFile) (ed_uid d) (ed_nodes d !! path) ∧ ed_nodes d' = ed_nodes d ∧ ed_uid d' = ed_uid d ∧ ed_umask d' = ed_umask d.
Proof.
  unfold checkOwnedSecure. intros (u1 & d1 & Hm & Hr)%bind_run_ok. apply may_fail_ok in Hm as (Hn & Hu & Hmask).
  apply bind_run_ok in Hr as (n & d2 & [= <- <-] & Hr). apply bind_run_ok in Hr as (uid & d3 & [= <- <-] & Hr).
  rewrite Hn, Hu in Hr. destruct (ed_nodes d !! path) as [n|]; [|done].
  destruct (nd_kind n) eqn:Hkind, isDir; try done; (destruct (Z.land (nd_perm n) 63 =? 0) eqn:Hp; [|done]); cbn [negb] in Hr;
    (destruct (nd_uid n =? ed_uid d) eqn:Hid; [|done]); cbn [negb] in Hr; injection Hr as _ <-;
    (split; [|done]); exists n; apply Z.eqb_eq in Hp, Hid; done.
Qed.
(** C37: whatever is on the disk and whichever calls fail, what [hook-env] prints
    makes the shell export variables of arcmux and nothing else: no text of the
    file is run; and it prints something only when the directory and the file are
    real, closed to others and owned by this user. *)
Theorem hook_env_output_safe args d out :
  cmdHookEnv args d = Ok out →
  (∃ vars, sh_parse out = Some (export_command <$> vars) ∧ Forall (λ kv, key_allowed kv.1 = true) vars) ∧
  (out = "" ∨ ∃ scope id path, args = [scope; id] ∧ SessionEnvFilePath SessionEnvDir scope id = Ok path ∧
     trusted NodeDir (ed_uid d) (ed_nodes d !! SessionEnvDir) ∧ trusted NodeFile (ed_uid d) (ed_nodes d !! path)).
Proof.
  assert (∃ vars : list (string * string), sh_parse "" = Some (export_command <$> vars) ∧ Forall (λ kv, key_allowed kv.1 = true) vars) as Hempty.
  { exists []. by split. }
  unfold cmdHookEnv. destruct args as [|scope [|id [|]]]; try done. destruct (_ || _); [done|].
  destruct (LoadSessionEnvExports SessionEnvDir scope id d) as [[lines|e] d'] eqn:Hload; [|intros [= <-]; split; [done|by left]].
  intros [= <-]. unfold LoadSessionEnvExports in Hload.
  apply bind_run_ok in Hload as (path & d1 & [= Hpath <-] & Hload).
  apply bind_run_ok in Hload as (u1 & d2 & Hdir & Hload). apply check_ok in Hdir as (Htd & Hn2 & Hu2 & _).
  apply bind_run_ok in Hload as (u2 & d3 & Hfile & Hload). apply check_ok in Hfile as (Htf & Hn3 & Hu3 & _). rewrite Hn2, Hu2 in Htf.
  apply bind_run_ok in Hload as (u3 & d4 & _ & Hload). apply bind_run_ok in Hload as (n & d5 & _ & [= Hl _]).
  destruct (env_exports_spec _ _ Hl) as (vars & -> & Hv). split; [exists vars; split; [by apply parse_exports|done]|].
  right. by exists scope, id, path.
Qed.

(** ** What is written is read *)

Lemma key_chars k c : key_allowed k = true → (is_upper c || is_digit c || char_is "_" c) = false → contains_any (char_is c) k = false.
Proof.
  unfold key_allowed, contains_any. intros [Hk _]%andb_true_iff Hc. apply negb_false_iff.
  assert (∀ d, (is_upper d || is_digit d || char_is "_" d) = true → negb (char_is c d) = true) as Hd.
  { intros d Hd. unfold char_is at 1. destruct (Ascii.eqb_spec c d) as [<-|]; [congruence|done]. }
  destruct k as [|d k]; [done|]. cbn [envKeyRe all_chars] in *. apply andb_true_iff in Hk as [H1 H2]. apply andb_true_iff. split.
  - apply Hd. apply orb_true_iff in H1 as [-> | ->]; by rewrite ?orb_true_r.
  - by eapply all_chars_impl; [|exact H2].
Qed.
Lemma trim_after a v : trim_right_byte (byte 13) (a +:+ "=" +:+ v) = a +:+ "=" +:+ trim_right_byte (byte 13) v.
Proof.
  induction a as [|c a IH].
  - change ("" +:+ "=" +:+ ?x) with (String "=" x). cbn [trim_right_byte]. by destruct (trim_right_byte (byte 13) v).
  - rewrite !(app_String c). cbn [trim_right_byte]. rewrite IH. by destruct a.
Qed.
Lemma contains_trim p b v : contains_any p v = false → contains_any p (trim_right_byte b v) = false.
Proof.
  induction v as [|c v IH]; [done|]. rewrite contains_any_cons. intros [Hc Hv]%orb_false_iff. cbn [trim_right_byte].
  specialize (IH Hv). destruct (trim_right_byte b v) as [|d r].
  - destruct (Ascii.eqb c b); [done|]. by rewrite contains_any_cons, Hc.
  - by rewrite contains_any_cons, Hc.
Qed.
Lemma cut_equals_key k v : contains_any (char_is "=") k = false → cut_equals (k +:+ "=" +:+ v) = Some (k, v).
Proof.
  induction k as [|c k IH]; [done|]. rewrite contains_any_cons. intros [Hc Hk]%orb_false_iff. rewrite app_String. cbn [cut_equals].
  unfold char_is in Hc. rewrite Ascii.eqb_sym, Hc. by rewrite IH.
Qed.
Definition stored_var (env : gmap string string) (k : string) : string * string := (k, trim_right_byte (byte 13) (default "" (env !! k))).
Lemma env_lines_read env keys text :
  env_lines env keys = Ok text → env_exports (split_on (byte 10) text) = Ok (export_line <$> (stored_var env <$> keys)).
Proof.
  revert text. induction keys as [|k keys IH]; intros text; cbn [env_lines]; [by intros [= <-]|].
  set (v := default "" (env !! k)). destruct (key_allowed k) eqn:Hk; [|done]. cbn [negb].
  destruct (contains_any _ v) eqn:Hv; [done|]. destruct (env_lines env keys) as [rest|]; [|done]. intros [= <-]. specialize (IH rest eq_refl).
  assert (∀ c, c = byte 10 ∨ c = byte 0 → contains_any (char_is c) v = false) as Hno.
  { intros c Hc. unfold contains_any in *. apply negb_false_iff in Hv. apply negb_false_iff. eapply all_chars_impl; [|exact Hv].
    intros d Hd. apply negb_true_iff in Hd. apply orb_false_iff in Hd as [H1 H2]. unfold char_is. rewrite Ascii.eqb_sym. by destruct Hc as [-> | ->]; rewrite ?H1, ?H2. }
  replace (k +:+ "=" +:+ v +:+ newline +:+ rest) with ((k +:+ "=" +:+ v) +:+ String (byte 10) rest) by (by rewrite !app_assoc_string).
  rewrite split_on_app by (rewrite !contains_any_app, (key_chars k) by done; rewrite Hno by (by left); done).
  cbn [env_exports]. rewrite trim_after. pose proof (key_chars k "=" Hk eq_refl) as Heq. set (tv := trim_right_byte (byte 13) v).
  pose proof (key_chars k "#" Hk eq_refl) as Hhash. rewrite (cut_equals_key k tv Heq). destruct k as [|c k]; [done|].
  rewrite contains_any_cons in Hhash. apply orb_false_iff in Hhash as [Hhash _].
  assert (String.eqb (String c k +:+ "=" +:+ tv) "" || has_prefix "#" (String c k +:+ "=" +:+ tv) = false) as ->.
  { rewrite app_String. cbn [has_prefix]. unfold char_is in Hhash. by rewrite Hhash. }
  rewrite Hk. cbn [negb]. pose proof (contains_trim (char_is (byte 0)) (byte 13) v (Hno _ ltac:(by right))) as Hz. fold tv in Hz.
  change (contains_any (Ascii.eqb (byte 0)) tv) with (contains_any (char_is (byte 0)) tv). rewrite Hz, IH. done.
Qed.

Lemma stored_keys env keys text : env_lines env keys = Ok text → Forall (λ kv, key_allowed kv.1 = true) (stored_var env <$> keys).
Proof.
  revert text. induction keys as [|k keys IH]; intros text; [constructor|]. cbn [env_lines].
  destruct (key_allowed k) eqn:Hk; [|done]. cbn [negb]. destruct (contains_any _ _); [done|].
  destruct (env_lines env keys) as [rest|]; [|done]. intros _. constructor; [done|]. by apply (IH rest).
Qed.

(** Different sessions have different files. *)
Lemma base64_char_spec n : 0 ≤ n < 64 →
  (contains_any (char_is "/") (String (base64_char n) "") = false) ∧ (base64_char n = "-"%char → n = 62).
Proof.
  intros Hn. assert (n ∈ seqZ 0 64) as H by (apply elem_of_seqZ; lia). revert H. clear Hn.
  assert (Forall (λ n, contains_any (char_is "/") (String (base64_char n) "") = false ∧ (base64_char n = "-"%char → n = 62)) (seqZ 0 64)) as HF.
  { apply (bool_decide_unpack _). vm_compute. exact I. }
  intros H. by apply (proj1 (Forall_forall _ _) HF).
Qed.
Lemma base64_char_inj a b : 0 ≤ a < 64 → 0 ≤ b < 64 → base64_char a = base64_char b → a = b.
Proof.
  intros Ha Hb. assert (Forall (λ a, Forall (λ b, base64_char a = base64_char b → a = b) (seqZ 0 64)) (seqZ 0 64)) as HF.
  { apply (bool_decide_unpack _). vm_compute. exact I. }
  rewrite Forall_forall in HF. specialize (HF a ltac:(apply elem_of_seqZ; lia)). rewrite Forall_forall in HF. apply HF, elem_of_seqZ. lia.
Qed.
Lemma byte_val_inj a b : byte_val a = byte_val b → a = b.
Proof. intros Heq. by rewrite <- (byte_ascii_val a), Heq, byte_ascii_val. Qed.
Ltac same_sextets :=
  repeat match goal with
  | H : base64_char ?a = base64_char ?b |- _ => apply base64_char_inj in H; [|dlia..]
  end.
Lemma base64_inj_aux n s t : (String.length s ≤ n)%nat → base64 s = base64 t → s = t.
Proof.
  revert s t. induction n as [|n IH]; intros s t Hn.
  { destruct s; [|simpl in Hn; lia]. destruct t as [|a [|b [|c t]]]; done. }
  destruct s as [|a [|b [|c s]]], t as [|a' [|b' [|c' t]]]; cbn [base64]; intros Heq; try done; injection Heq;
    pose proof (byte_val_byte a) as Ha; pose proof (byte_val_byte a') as Ha'; unfold is_byte in *.
  - intros H1 H2. same_sextets. f_equal. apply byte_val_inj. dlia.
  - pose proof (byte_val_byte b) as Hb; pose proof (byte_val_byte b') as Hb'; unfold is_byte in *.
    intros H1 H2 H3. same_sextets. assert (a = a') as -> by (apply byte_val_inj; dlia). do 2 f_equal. apply byte_val_inj. dlia.
  - pose proof (byte_val_byte b) as Hb; pose proof (byte_val_byte b') as Hb'; pose proof (byte_val_byte c) as Hc;
      pose proof (byte_val_byte c') as Hc'; unfold is_byte in *.
    intros Hs H1 H2 H3 H4. same_sextets. assert (a = a') as -> by (apply byte_val_inj; dlia).
    assert (b = b') as -> by (apply byte_val_inj; dlia). assert (c = c') as -> by (apply byte_val_inj; dlia).
    do 3 f_equal. apply IH; [simpl in Hn; lia|done].
Qed.
Lemma base64_inj s t : base64 s = base64 t → s = t.
Proof. by apply (base64_inj_aux (String.length s)). Qed.
Lemma base64_chars (p : ascii → bool) s :
  (∀ a b c : Z, In a (str_bytes s) → In b (str_bytes s) → In c (str_bytes s) →
     p (base64_char (a / 4)) = true ∧ p (base64_char (a mod 4 * 16)) = true ∧ p (base64_char (a mod 4 * 16 + b / 16)) = true ∧
     p (base64_char (b mod 16 * 4)) = true ∧ p (base64_char (b mod 16 * 4 + c / 64)) = true ∧ p (base64_char (c mod 64)) = true) →
  all_chars p (base64 s) = true.
Proof.
  assert (∀ n s, (String.length s ≤ n)%nat → (∀ a b c : Z, In a (str_bytes s) → In b (str_bytes s) → In c (str_bytes s) →
     p (base64_char (a / 4)) = true ∧ p (base64_char (a mod 4 * 16)) = true ∧ p (base64_char (a mod 4 * 16 + b / 16)) = true ∧
     p (base64_char (b mod 16 * 4)) = true ∧ p (base64_char (b mod 16 * 4 + c / 64)) = true ∧ p (base64_char (c mod 64)) = true) →
    all_chars p (base64 s) = true) as H.
  { clear s. induction n as [|n IH]; intros s Hn Hp; [destruct s; [done|simpl in Hn; lia]|].
    destruct s as [|a [|b [|c s]]]; cbn [base64 all_chars str_bytes] in *; [done| | |].
    - destruct (Hp (byte_val a) (byte_val a) (byte_val a)) as (-> & -> & _); simpl; auto.
    - destruct (Hp (byte_val a) (byte_val b) (byte_val b)) as (-> & _ & -> & -> & _); simpl; auto.
    - destruct (Hp (byte_val a) (byte_val b) (byte_val c)) as (-> & _ & -> & _ & -> & ->); simpl; auto. apply IH; [simpl in Hn; lia|].
      intros x y z Hx Hy Hz. apply Hp; simpl; auto. }
  by apply (H (String.length s)).
Qed.
Lemma base64_no_slash s : contains_any (char_is "/") (base64 s) = false.
Proof.
  unfold contains_any. apply negb_false_iff, base64_chars.
  assert (∀ n, 0 ≤ n < 64 → negb (char_is "/" (base64_char n)) = true) as Hc.
  { intros n Hn. destruct (base64_char_spec n Hn) as [H _]. rewrite contains_any_cons in H. apply orb_false_iff in H as [H _]. by rewrite H. }
  assert (∀ a, In a (str_bytes s) → 0 ≤ a < 256) as Hb.
  { induction s as [|x s IH]; [done|]. cbn [str_bytes]. intros a [<-|Ha]; [apply byte_val_byte|by apply IH]. }
  intros a b c Ha%Hb Hbb%Hb Hcc%Hb. split_and!; apply Hc; dlia.
Qed.
(** What may stand in the scope of a profile. *)
Definition scope_char (c : ascii) : bool := is_lc_alnum c || char_is "_" c || char_is "-" c || char_is ":" c.
Lemma scope_all_chars scope : validateProfileScope scope = Ok tt → all_chars scope_char scope = true.
Proof.
  unfold validateProfileScope. destruct (String.eqb_spec scope "root") as [->|_]; [done|]. intros Hg%guard_err_ok.
  destruct (cut_prefix "profile:" scope) as [name|] eqn:Hc; [|done]. apply cut_prefix_spec in Hc as ->.
  rewrite all_chars_app. apply andb_true_iff. split; [done|]. destruct name as [|c s]; [done|]. cbn [profileNameRe all_chars] in *.
  apply andb_true_iff in Hg as [Hg Hs]. apply andb_true_iff. split; [by unfold scope_char; rewrite Hg|].
  destruct s as [|d s]; [done|]. destruct (last_char (String d s)) as [z|] eqn:Hz.
  - apply andb_true_iff in Hs as [_ Hs]. eapply all_chars_impl; [|exact Hs]. intros x Hx. unfold scope_char. by rewrite Hx.
  - exfalso. clear -Hz. revert d Hz. induction s as [|e s IH]; intros d Hz; [done|]. by apply (IH e).
Qed.
Lemma scope_no_dash scope : validateProfileScope scope = Ok tt → all_chars (λ c, negb (Ascii.eqb "-" c)) (base64 scope) = true.
Proof.
  intros Hs%scope_all_chars. apply base64_chars.
  assert (∀ n, 0 ≤ n < 64 → n ≠ 62 → negb (Ascii.eqb "-" (base64_char n)) = true) as Hc.
  { intros n Hn Hne. destruct (base64_char_spec n Hn) as [_ H]. destruct (Ascii.eqb_spec "-" (base64_char n)) as [Heq|]; [|done]. by specialize (H (eq_sym Heq)). }
  assert (∀ a, In a (str_bytes scope) → 45 ≤ a < 123 ∧ a ≠ 62) as Hb.
  { induction scope as [|x s IH]; [done|]. cbn [str_bytes all_chars] in *. apply andb_true_iff in Hs as [Hx Hs].
    intros a [<-|Ha]; [|by apply IH]. clear -Hx. destruct x as [[] [] [] [] [] [] [] []]; vm_compute in Hx |- *; done. }
  intros a b c Ha%Hb Hbb%Hb Hcc%Hb. split_and!; apply Hc; dlia.
Qed.

(** Where the file of a locator is. *)
Definition env_file_name (scope id : string) : string := base64 scope +:+ String "-" ("-" +:+ id +:+ ".env").
Lemma name_plain scope id : sessionIDRe id = true → plain (env_file_name scope id).
Proof.
  intros [_ Hid]%andb_true_iff. assert (contains_any (char_is "-") (env_file_name scope id) = true) as Hd.
  { unfold env_file_name. rewrite contains_any_app, contains_any_cons. cbn [char_is]. by rewrite orb_true_r. }
  split_and!; [by intros Heq; rewrite Heq in Hd..|].
  unfold env_file_name. rewrite contains_any_app, base64_no_slash, contains_any_cons, !contains_any_app.
  change (contains_any (char_is "/") "-") with false. change (contains_any (char_is "/") ".env") with false.
  change (char_is "/" "-") with false. cbn [orb]. rewrite orb_false_r.
  unfold contains_any. apply negb_false_iff. eapply all_chars_impl; [|exact Hid].
  intros c Hc. destruct c as [[] [] [] [] [] [] [] []]; vm_compute in Hc |- *; done.
Qed.
Lemma env_path scope id path :
  SessionEnvFilePath SessionEnvDir scope id = Ok path →
  validateProfileScope scope = Ok tt ∧ sessionIDRe id = true ∧ path = "/tmp/arcmux/" +:+ env_file_name scope id.
Proof.
  unfold SessionEnvFilePath. destruct (validateProfileScope scope) as [[]|] eqn:Hs; [|done]. cbn [mbind result_bind].
  destruct (sessionIDRe id) eqn:Hid; [|done]. cbn [negb]. intros [= <-]. split_and!; [done..|].
  pose proof (name_plain scope id Hid) as Hp. change (base64 scope +:+ "--" +:+ id +:+ ".env") with (env_file_name scope id).
  generalize dependent (env_file_name scope id). intros name Hp. destruct Hp as (Hne & Hrest). unfold filepath_Join. cbn [List.filter].
  change (String.eqb SessionEnvDir "") with false. rewrite (proj2 (String.eqb_neq name "")) by done. cbn [negb].
  change (join_slash [SessionEnvDir; name]) with ("" +:+ String "/" ("tmp" +:+ String "/" ("arcmux" +:+ String "/" name))).
  unfold filepath_Clean. change (IsAbs ("" +:+ ?x)) with true. cbv iota. unfold path_elements. change (IsAbs ("" +:+ ?x)) with true.
  rewrite !split_on_app, split_on_single by (done || apply Hrest). rewrite clean_skips_empty, clean_plain; [done|].
  repeat constructor; try done; apply Hrest.
Qed.
Lemma same_end a b t : a +:+ t = b +:+ t → a = b.
Proof.
  assert (∀ c a t, t ≠ String c (a +:+ t)) as Hlen.
  { intros c x y Heq. apply (f_equal str_bytes) in Heq. apply (f_equal length) in Heq. revert Heq. cbn [str_bytes length].
    enough (∀ x, length (str_bytes (x +:+ y)) = (length (str_bytes x) + length (str_bytes y))%nat) as -> by lia.
    clear x. induction x as [|d x IH]; [done|]. rewrite app_String. cbn [str_bytes length]. by rewrite IH. }
  revert b. induction a as [|c a IH]; intros [|d b]; [done| | |].
  - intros Heq. by apply Hlen in Heq.
  - intros Heq. symmetry in Heq. by apply Hlen in Heq.
  - rewrite !app_String. intros [= -> Heq]. by rewrite (IH b).
Qed.
Lemma path_locator scope id scope' id' path :
  SessionEnvFilePath SessionEnvDir scope id = Ok path → SessionEnvFilePath SessionEnvDir scope' id' = Ok path → (scope', id') = (scope, id).
Proof.
  intros (Hs & _ & ->)%env_path (Hs' & _ & Heq)%env_path. apply (inj (String.append "/tmp/arcmux/")) in Heq.
  apply join_sep_inj in Heq as [->%base64_inj Heq]; [|by apply scope_no_dash..].
  apply (inj (String.append "-")) in Heq. by apply same_end in Heq as ->.
Qed.
Lemma path_not_dir scope id path : SessionEnvFilePath SessionEnvDir scope id = Ok path → path ≠ SessionEnvDir.
Proof. intros (_ & _ & ->)%env_path. by destruct (env_file_name scope id). Qed.

Definition elsewhere (path : string) (d d' : EnvDisk) : Prop := (∀ p, p ≠ path → ed_nodes d' !! p = ed_nodes d !! p) ∧ ed_uid d' = ed_uid d.
Lemma chmod_ok path mode d u d' :
  os_Chmod path mode d = (Ok u, d') → elsewhere path d d' ∧
  ∃ n, ed_nodes d !! path = Some n ∧ (nd_kind n ≠ NodeSymlink → ed_nodes d' !! path = Some (mkNode (nd_kind n) mode (nd_uid n) (nd_content n))).
Proof.
  unfold os_Chmod. intros (u1 & d1 & Hm & Hr)%bind_run_ok. apply may_fail_ok in Hm as (Hn & Hu & _).
  apply bind_run_ok in Hr as (n & d2 & [= <- <-] & Hr). unfold elsewhere. rewrite <- Hn, <- Hu.
  destruct (ed_nodes d1 !! path) as [n|] eqn:Hnode; [|discriminate Hr].
  destruct (nd_kind n) eqn:Hk; [| |injection Hr as _ <-; split; [done|by exists n]|];
    apply bind_run_ok in Hr as (uid & d3 & [= <- <-] & Hr); (destruct (_ && _); [done|]); injection Hr as _ <-; cbn [ed_nodes ed_uid];
    (split; [split; [intros p Hp; by rewrite lookup_insert_ne|done]|]); exists n; (split; [done|]); intros _; by rewrite lookup_insert_eq, Hk.
Qed.
Lemma mkdir_ok dir mode d u d' : os_MkdirAll dir mode d = (Ok u, d') → elsewhere dir d d' ∧ (is_Some (ed_nodes d !! dir) → ed_nodes d' = ed_nodes d).
Proof.
  unfold os_MkdirAll. intros (u1 & d1 & Hm & Hr)%bind_run_ok. apply may_fail_ok in Hm as (Hn & Hu & _).
  apply bind_run_ok in Hr as (n & d2 & [= <- <-] & Hr). unfold elsewhere. rewrite <- Hn, <- Hu.
  destruct (ed_nodes d1 !! dir) as [n|] eqn:Hnode.
  - destruct (nd_kind n); try done; by injection Hr as _ <-.
  - apply bind_run_ok in Hr as (perm & d3 & [= <- <-] & Hr). apply bind_run_ok in Hr as (uid & d4 & [= <- <-] & Hr). injection Hr as _ <-.
    split; [|by intros []]. split; [intros p Hp; cbn; by rewrite lookup_insert_ne|done].
Qed.
Lemma ensure_dir_ok dir mode d u d' :
  ensureOwnedDir dir mode d = (Ok u, d') → elsewhere dir d d' ∧ trusted NodeDir (ed_uid d') (ed_nodes d' !! dir).
Proof.
  unfold ensureOwnedDir. intros (u1 & d1 & ([H1 H1'] & _)%mkdir_ok & Hr)%bind_run_ok.
  apply bind_run_ok in Hr as (u2 & d2 & ([H2 H2'] & _)%chmod_ok & Hr). apply check_ok in Hr as (Ht & Hn & Hu & _).
  unfold elsewhere. rewrite Hn, Hu. split; [split|done]; [|by rewrite H2', H1']. intros p Hp. by rewrite H2, H1.
Qed.
Lemma elsewhere_trans path a b c : elsewhere path a b → elsewhere path b c → elsewhere path a c.
Proof. intros [H1 H1'] [H2 H2']. split; [|by rewrite H2', H1']. intros p Hp. by rewrite H2, H1. Qed.
(** After a write that succeeds: the directory is closed to others, the file
    holds the text and nobody else can write it. *)
Lemma write_ok scope id env d path d' :
  WriteSessionEnvFile SessionEnvDir scope id env d = (Ok path, d') →
  ∃ text, SessionEnvFilePath SessionEnvDir scope id = Ok path ∧ env_lines env (env_keys env) = Ok text ∧
    trusted NodeDir (ed_uid d') (ed_nodes d' !! SessionEnvDir) ∧
    ed_nodes d' !! path = Some (mkNode NodeFile 384 (ed_uid d') text) ∧ ed_uid d' = ed_uid d ∧
    (∀ p, p ≠ path → p ≠ SessionEnvDir → ed_nodes d' !! p = ed_nodes d !! p).
Proof.
  unfold WriteSessionEnvFile. intros (path1 & d1 & [= Hpath <-] & Hr)%bind_run_ok. pose proof (path_not_dir _ _ _ Hpath) as Hdir.
  apply bind_run_ok in Hr as (u2 & d2 & ([H2 H2'] & Ht)%ensure_dir_ok & Hr).
  apply bind_run_ok in Hr as (text & d3 & [= Htext <-] & Hr). exists text.
  apply bind_run_ok in Hr as (u4 & d4 & (Hn4 & Hu4 & _)%may_fail_ok & Hr). rewrite <- Hn4, <- Hu4 in Ht.
  assert (∀ p, p ≠ SessionEnvDir → ed_nodes d4 !! p = ed_nodes d !! p) as H4 by (intros p Hp; by rewrite Hn4, H2).
  rewrite <- Hu4 in H2'. clear H2 Hn4 Hu4.
  apply bind_run_ok in Hr as (n4 & d4' & [= <- <-] & Hr). apply bind_run_ok in Hr as (uid4 & d4' & [= <- <-] & Hr).
  apply bind_run_ok in Hr as (u5 & d5 & Hopen & Hr).
  assert (elsewhere path1 d4 d5 ∧ ∃ n, ed_nodes d5 !! path1 = Some n ∧ nd_kind n = NodeFile) as [H5 (n5 & Hn5 & Hk5)].
  { destruct (ed_nodes d4 !! path1) as [[[] perm uid content]|]; cbn [nd_kind] in Hopen; try discriminate Hopen.
    - injection Hopen as _ <-. split; [split; [intros p Hp; cbn; by rewrite lookup_insert_ne|done]|].
      eexists. cbn [ed_nodes]. rewrite lookup_insert_eq. by split.
    - apply bind_run_ok in Hopen as (perm & d6 & [= <- <-] & Hopen). injection Hopen as _ <-.
      split; [split; [intros p Hp; cbn; by rewrite lookup_insert_ne|done]|].
      eexists. cbn [ed_nodes]. rewrite lookup_insert_eq. by split. }
  apply bind_run_ok in Hr as (n5' & d5' & [= <- <-] & Hr). rewrite Hn5 in Hr. apply bind_run_ok in Hr as (u6 & d6 & Hstat & Hr).
  destruct (nd_uid n5 =? ed_uid d4) eqn:Hown; [|discriminate Hstat]. injection Hstat as _ <-. apply Z.eqb_eq in Hown.
  apply bind_run_ok in Hr as (u7 & d7 & [H7 (n7 & Hn7 & Hc)]%chmod_ok & Hr). rewrite Hn5 in Hn7. injection Hn7 as <-. rewrite Hk5 in Hc.
  specialize (Hc ltac:(done)). pose proof (elsewhere_trans _ _ _ _ H5 H7) as [H7n H7u]. clear H5 H7.
  apply bind_run_ok in Hr as (r & d8 & Hio & Hr). assert (ed_nodes d8 = ed_nodes d7 ∧ ed_uid d8 = ed_uid d7) as [Hn8 Hu8].
  { unfold next_io in Hio. destruct (ed_io d7); injection Hio as _ <-; done. }
  apply bind_run_ok in Hr as (n8 & d8' & [= <- <-] & Hr). rewrite Hn8, Hc in Hr.
  destruct r; apply bind_run_ok in Hr as (u9 & d9 & [= _ <-] & Hr); [|discriminate Hr]. injection Hr as <- <-. cbn [ed_nodes ed_uid nd_kind nd_perm nd_uid].
  rewrite lookup_insert_eq, lookup_insert_ne, Hn8, Hu8, H7u, H7n, Hown by done. split_and!; try done.
  intros p Hp Hpd. by rewrite lookup_insert_ne, H7n, H4.
Qed.

(** No further call fails. *)
Definition calls_succeed (d : EnvDisk) : EnvDisk := mkEnvDisk (ed_nodes d) (ed_uid d) (ed_umask d) [].
Lemma check_trusted path (isDir : bool) d :
  trusted (if isDir then NodeDir else NodeFile) (ed_uid d) (ed_nodes d !! path) →
  checkOwnedSecure path isDir (calls_succeed d) = (Ok tt, calls_succeed d).
Proof.
  intros (n & Hn & Hk & Hp & Hu). unfold checkOwnedSecure, may_fail, next_io, node_at, gets, mbind, M_bind, mret, M_ret, throw. cbn.
  rewrite Hn. destruct isDir; rewrite Hk, Hp, Hu, !Z.eqb_refl; done.
Qed.
Lemma load_trusted scope id d path content :
  SessionEnvFilePath SessionEnvDir scope id = Ok path → trusted NodeDir (ed_uid d) (ed_nodes d !! SessionEnvDir) →
  ed_nodes d !! path = Some (mkNode NodeFile 384 (ed_uid d) content) →
  (LoadSessionEnvExports SessionEnvDir scope id (calls_succeed d)).1 = env_exports (split_on (byte 10) content).
Proof.
  intros Hpath Hdir Hfile. unfold LoadSessionEnvExports. rewrite Hpath. unfold mbind, M_bind, lift at 1.
  rewrite (check_trusted SessionEnvDir true) by done. rewrite (check_trusted path false).
  - unfold may_fail, next_io, node_at, gets, mbind, M_bind, mret, M_ret, lift. cbn. by rewrite Hfile.
  - rewrite Hfile. by eexists.
Qed.
(** C36: a session's environment file that was written without an error is read
    back by a [hook-env] whose own calls do not fail: the shell exports each
    variable that was stored with its value less the carriage returns at its
    end; and where the directory was trusted before, the write leaves what such
    a [hook-env] prints for every other session of any profile as it was. *)
Theorem env_file_roundtrip scope id env d path d' :
  WriteSessionEnvFile SessionEnvDir scope id env d = (Ok path, d') →
  (∃ out, cmdHookEnv [scope; id] (calls_succeed d') = Ok out ∧
     sh_parse out = Some (export_command <$> (stored_var env <$> env_keys env))) ∧
  (∀ scope' id', (scope', id') ≠ (scope, id) → trusted NodeDir (ed_uid d) (ed_nodes d !! SessionEnvDir) →
     cmdHookEnv [scope'; id'] (calls_succeed d') = cmdHookEnv [scope'; id'] (calls_succeed d)).
Proof.
  intros (text & Hpath & Htext & Hdir & Hfile & Huid & Helse)%write_ok. split.
  - pose proof (env_path _ _ _ Hpath) as (Hscope & Hid & _). unfold cmdHookEnv.
    destruct (String.eqb_spec scope "") as [->|_]; [done|]. destruct (String.eqb_spec id "") as [->|_]; [done|]. cbn [orb].
    rewrite (load_trusted _ _ _ _ _ Hpath Hdir Hfile), (env_lines_read _ _ _ Htext). eexists. split; [done|].
    by apply parse_exports, (stored_keys _ _ text).
  - intros scope' id' Hne Ht. unfold cmdHookEnv. destruct (_ || _); [done|]. enough ((LoadSessionEnvExports SessionEnvDir scope' id' (calls_succeed d')).1 =
      (LoadSessionEnvExports SessionEnvDir scope' id' (calls_succeed d)).1) as -> by done.
    unfold LoadSessionEnvExports. destruct (SessionEnvFilePath SessionEnvDir scope' id') as [path'|] eqn:Hpath'; [|done].
    assert (path' ≠ path) as Hp by (intros ->; by apply Hne, (path_locator _ _ _ _ path)).
    pose proof (path_not_dir _ _ _ Hpath') as Hpd. unfold mbind, M_bind, lift at 1 3.
    rewrite (check_trusted SessionEnvDir true d), (check_trusted SessionEnvDir true d') by done.
    unfold checkOwnedSecure, may_fail, next_io, node_at, gets, mbind, M_bind, mret, M_ret, throw. cbn. rewrite Helse, Huid by done.
    destruct (ed_nodes d !! path') as [[[] perm uid content]|]; cbn; try done.
    destruct (Z.land perm 63 =? 0); cbn; [|done]. destruct (uid =? ed_uid d); cbn; [|done]. by rewrite Helse.
Qed.

(** ** The command the agent is started with *)

Lemma sh_command_words fuel words v rest :
  sh_commands (S fuel) words (shellSingleQuote v +:+ " " +:+ rest) = sh_commands fuel (v :: words) (" " +:+ rest).
Proof.
  change (shellSingleQuote v +:+ " " +:+ rest) with (String squote ((ReplaceAll v "'" "'\''" +:+ "'") +:+ " " +:+ rest)).
  cbn [sh_commands]. change (sh_blank squote) with false. change (sh_end squote) with false. cbv iota.
  change (String squote ((ReplaceAll v "'" "'\''" +:+ "'") +:+ " " +:+ rest)) with (shellSingleQuote v +:+ " " +:+ rest).
  rewrite sh_word_quoted. change (sh_word false (" " +:+ rest)) with (Some ("", " " +:+ rest)). cbv iota. by rewrite app_nothing.
Qed.
Lemma sh_command_blank fuel words rest : sh_commands (S fuel) words (" " +:+ rest) = sh_commands fuel words rest.
Proof. done. Qed.
Lemma sh_command_name fuel words rest :
  sh_commands (S fuel) words ("hook-env " +:+ rest) = sh_commands fuel ("hook-env" :: words) (" " +:+ rest).
Proof. done. Qed.
(** The command whose output the pane evaluates is one command with the
    executable, the scope and the session as its words, whatever they hold. *)
Lemma hook_env_command_parses cfg scope id :
  sh_parse (hook_env_command cfg scope id) =
  Some [[if String.eqb (lc_Executable cfg) "" then "arcmux" else lc_Executable cfg; "hook-env"; scope; id]].
Proof.
  unfold hook_env_command. set (bin := if String.eqb (lc_Executable cfg) "" then "arcmux" else lc_Executable cfg).
  assert (sh_commands (8 + 0) [] (shellSingleQuote bin +:+ " " +:+ ("hook-env " +:+ shellSingleQuote scope +:+ " " +:+ shellSingleQuote id)) =
    Some [[bin; "hook-env"; scope; id]]) as H.
  { change (8 + 0)%nat with (S 7). rewrite sh_command_words, sh_command_blank, sh_command_name, sh_command_blank, sh_command_words, sh_command_blank.
    pose proof (sh_word_quoted id "") as Hid. rewrite app_nothing in Hid. change (sh_word false "") with (Some ("", "")) in Hid. cbv iota in Hid.
    rewrite app_nothing in Hid. assert (shellSingleQuote id = String squote (ReplaceAll id "'" "'\''" +:+ "'")) as Hs by done. rewrite Hs in *.
    cbn [sh_commands]. change (sh_blank squote) with false. change (sh_end squote) with false. cbv iota. by rewrite Hid. }
  change (shellSingleQuote bin +:+ " hook-env " +:+ shellSingleQuote scope +:+ " " +:+ shellSingleQuote id) with
    (shellSingleQuote bin +:+ " " +:+ ("hook-env " +:+ shellSingleQuote scope +:+ " " +:+ shellSingleQuote id)).
  unfold sh_parse. eapply sh_fuel; [exact H|].
  assert (∀ a b, String.length (a +:+ b) = (String.length a + String.length b)%nat) as Happ.
  { induction a as [|c a IH]; intros b; [done|]. rewrite app_String. cbn. by rewrite IH. }
  unfold shellSingleQuote. rewrite !Happ. change (String.length "hook-env ") with 9%nat. lia.
Qed.
