(* ===== verification/Bolt.v ===== *)
(** go.etcd.io/bbolt as the manager store uses it: a bucket is a finite map from
    byte strings that a cursor visits in byte order, with a counter of its own.
    The library is an interface; [SortedBucket] is an instance of it. The keys of
    the time-ordered buckets, two big-endian numbers, are here too. *)

From S2P Require Import Prelude GoText RuneText.
From stdpp Require Import base gmap strings list sorting.
From Stdlib Require Import ZArith Lia Ascii.

Open Scope Z_scope.

(** ** Byte order *)

Definition bytes_lt : relation string := strict String.le.
Definition in_order {V} (l : list (string * V)) : Prop := StronglySorted bytes_lt l.*1.

Lemma bytes_lt_irrefl k : ¬ bytes_lt k k.
Proof. intros [H1 H2]. by apply H2. Qed.
Lemma bytes_lt_trans x y z : bytes_lt x y → bytes_lt y z → bytes_lt x z.
Proof. apply transitivity. Qed.
Lemma bytes_trichotomy x y : bytes_lt x y ∨ x = y ∨ bytes_lt y x.
Proof.
  destruct (decide (String.le x y)) as [H1|H1], (decide (String.le y x)) as [H2|H2].
  - right; left. by apply (anti_symm String.le).
  - by left.
  - by right; right.
  - destruct (total String.le x y); contradiction.
Qed.

(** ** Buckets *)

(** [b_entries] is what a cursor visits from [First] on; [Last] and [Prev] visit
    the same backwards; [Stats().KeyN] is their number. *)
Class BucketLib (B : Type → Type) := {
  b_empty {V} : B V;
  b_entries {V} : B V → list (string * V);
  b_put {V} : string → V → B V → B V;
  b_delete {V} : string → B V → B V;
  b_sequence {V} : B V → Z;
  b_next {V} : B V → B V }.

(** What the documentation of the library says of them. *)
Class BucketLaws (B : Type → Type) `{BucketLib B} := {
  entries_empty V : b_entries (V:=V) b_empty = [];
  entries_sorted V (b : B V) : in_order (b_entries b);
  entries_put V k (v : V) b x : x ∈ b_entries (b_put k v b) ↔ x = (k, v) ∨ (x.1 ≠ k ∧ x ∈ b_entries b);
  entries_delete V k (b : B V) x : x ∈ b_entries (b_delete k b) ↔ x.1 ≠ k ∧ x ∈ b_entries b;
  entries_next V (b : B V) : b_entries (b_next b) = b_entries b;
  sequence_empty V : b_sequence (V:=V) b_empty = 0;
  sequence_put V k (v : V) b : b_sequence (b_put k v b) = b_sequence b;
  sequence_delete V k (b : B V) : b_sequence (b_delete k b) = b_sequence b;
  sequence_next V (b : B V) : b_sequence (b_next b) = u64_succ (b_sequence b) }.

(** ** Lists in byte order *)

Section Order.
Context {V : Type}.
Implicit Types (l : list (string * V)).

Lemma in_order_cons x l : in_order (x :: l) ↔ in_order l ∧ ∀ y, y ∈ l → bytes_lt x.1 y.1.
Proof.
  unfold in_order. cbn. split.
  - intros Hs. apply StronglySorted_inv in Hs as [Hs Hf]. split; [done|]. intros y Hy.
    eapply Forall_forall; [exact Hf|]. by apply list_elem_of_fmap_2.
  - intros [Hs Hf]. constructor; [done|]. apply Forall_forall. intros k (y & -> & Hy)%list_elem_of_fmap. by apply Hf.
Qed.
Lemma in_order_NoDup l : in_order l → NoDup l.*1.
Proof.
  induction l as [|x l IH]; [constructor|]. intros [Hs Hx]%in_order_cons. cbn. constructor; [|by apply IH].
  intros (y & Heq & Hy)%list_elem_of_fmap. apply Hx in Hy. rewrite <- Heq in Hy. by apply bytes_lt_irrefl in Hy.
Qed.
(** A list in byte order is known by its elements. *)
Lemma in_order_ext l1 l2 : in_order l1 → in_order l2 → (∀ x, x ∈ l1 ↔ x ∈ l2) → l1 = l2.
Proof.
  revert l2. induction l1 as [|x l1 IH]; intros [|y l2] H1 H2 Heq.
  - done.
  - exfalso. apply (elem_of_nil y), Heq. by left.
  - exfalso. apply (elem_of_nil x), Heq. by left.
  - apply in_order_cons in H1 as [H1 Hx]. apply in_order_cons in H2 as [H2 Hy].
    assert (x = y) as ->.
    { pose proof (proj1 (Heq x) ltac:(by left)) as [Hi|Hi]%elem_of_cons; [done|].
      pose proof (proj2 (Heq y) ltac:(by left)) as [Hj|Hj]%elem_of_cons; [done|].
      exfalso. eapply bytes_lt_irrefl, bytes_lt_trans; [by apply Hx|by apply Hy]. }
    f_equal. apply IH; [done..|]. intros z. split; intros Hz.
    + pose proof (proj1 (Heq z) ltac:(by right)) as [->|Hi]%elem_of_cons; [|done]. apply Hx, bytes_lt_irrefl in Hz. done.
    + pose proof (proj2 (Heq z) ltac:(by right)) as [->|Hi]%elem_of_cons; [|done]. apply Hy, bytes_lt_irrefl in Hz. done.
Qed.
Lemma in_order_snoc l x : in_order l → (∀ y, y ∈ l → bytes_lt y.1 x.1) → in_order (l ++ [x]).
Proof.
  induction l as [|y l IH]; intros Hl Hx; [apply in_order_cons; split; [constructor|by intros y ?%elem_of_nil]|].
  apply in_order_cons in Hl as [Hl Hy]. cbn [app]. apply in_order_cons. split.
  - apply IH; [done|]. intros z Hz. apply Hx. by right.
  - intros z [Hz|Hz%list_elem_of_singleton]%elem_of_app; [by apply Hy|]. subst z. apply Hx. by left.
Qed.
Lemma in_order_filter (P : string * V → Prop) `{∀ x, Decision (P x)} l : in_order l → in_order (filter P l).
Proof.
  induction l as [|x l IH]; [done|]. intros [Hl Hx]%in_order_cons. rewrite filter_cons. destruct (decide (P x)); [|by apply IH].
  apply in_order_cons. split; [by apply IH|]. intros y [_ Hy]%list_elem_of_filter. by apply Hx.
Qed.
End Order.

Section Laws.
Context {B : Type → Type} `{BucketLaws B} {V : Type}.
Implicit Types (b : B V).

(** Behind every other key a new entry comes last. *)
Lemma put_last k v b :
  (∀ y, y ∈ b_entries b → bytes_lt y.1 k) → b_entries (b_put k v b) = b_entries b ++ [(k, v)].
Proof.
  intros Hk. apply in_order_ext; [apply entries_sorted|by apply in_order_snoc; [apply entries_sorted|]|].
  intros x. rewrite entries_put, elem_of_app, list_elem_of_singleton. split; [tauto|].
  intros [Hx|Hx]; [right|by left]. split; [|done]. intros <-. by apply Hk, bytes_lt_irrefl in Hx.
Qed.
(** A new key adds one entry and takes none away. *)
Lemma put_fresh k v b :
  (∀ y, y ∈ b_entries b → y.1 ≠ k) → b_entries (b_put k v b) ≡ₚ (k, v) :: b_entries b.
Proof.
  intros Hk. apply NoDup_Permutation.
  - eapply NoDup_fmap_1, in_order_NoDup, entries_sorted.
  - constructor; [|eapply NoDup_fmap_1, in_order_NoDup, entries_sorted]. intros Hin. by apply Hk in Hin.
  - intros x. rewrite entries_put, elem_of_cons. split; [tauto|]. intros [Hx|Hx]; [by left|right]. split; [by apply Hk|done].
Qed.
Lemma delete_filter k b : b_entries (b_delete k b) = filter (λ x, x.1 ≠ k) (b_entries b).
Proof.
  apply in_order_ext; [apply entries_sorted|apply in_order_filter, entries_sorted|].
  intros x. by rewrite entries_delete, list_elem_of_filter.
Qed.
Lemma delete_split k b pre v post :
  b_entries b = pre ++ (k, v) :: post → b_entries (b_delete k b) = pre ++ post.
Proof.
  intros Hb. rewrite delete_filter, Hb. pose proof (in_order_NoDup _ (entries_sorted V b)) as Hnd. rewrite Hb in Hnd.
  rewrite fmap_app in Hnd. cbn in Hnd. apply NoDup_app in Hnd as (_ & Hpre & [Hpost _]%NoDup_cons).
  assert (∀ l : list (string * V), k ∉ l.*1 → filter (λ x, x.1 ≠ k) l = l) as Hsame.
  { induction l as [|y l IH]; intros Hl; [done|]. cbn in Hl. apply not_elem_of_cons in Hl as [Hy Hl].
    rewrite filter_cons, decide_True by (intros Heq; by apply Hy). f_equal. by apply IH. }
  rewrite filter_app, filter_cons, decide_False by (cbn; by intros Hx). rewrite !Hsame; [done|done|].
  intros Hin. apply (Hpre k Hin). by left.
Qed.
End Laws.

(** ** An instance *)

Record SortedBucket (V : Type) := mkBucket { sk_entries : list (string * V); sk_sorted : in_order sk_entries; sk_sequence : Z }.
Arguments mkBucket {V}.
Arguments sk_entries {V}.
Arguments sk_sorted {V}.
Arguments sk_sequence {V}.
Fixpoint insert_entry {V} (k : string) (v : V) (l : list (string * V)) : list (string * V) :=
  match l with
  | [] => [(k, v)]
  | (k', v') :: l' =>
      if decide (k = k') then (k, v) :: l'
      else if decide (String.le k k') then (k, v) :: l else (k', v') :: insert_entry k v l'
  end.
Lemma elem_of_insert_entry {V} k (v : V) l x :
  in_order l → x ∈ insert_entry k v l ↔ x = (k, v) ∨ (x.1 ≠ k ∧ x ∈ l).
Proof.
  induction l as [|[k' v'] l IH]; intros Hl; cbn [insert_entry].
  { rewrite list_elem_of_singleton, elem_of_nil. tauto. }
  apply in_order_cons in Hl as [Hl Hk]. destruct (decide (k = k')) as [<-|Hne].
  - rewrite !elem_of_cons. split; [|intros [->|[Hx [->|Hin]]]; [by left|done|by right]].
    intros [->|Hin]; [by left|]. right. split; [|by right]. intros Heq. apply Hk in Hin. cbn in Hin. rewrite Heq in Hin.
    by apply bytes_lt_irrefl in Hin.
  - destruct (decide (String.le k k')) as [Hle|Hle].
    + rewrite !elem_of_cons. split; [|tauto]. intros [->|[->|Hin]]; [by left|right; split; [done|by left]|right].
      split; [|by right]. intros Heq. apply Hk in Hin. cbn in Hin. rewrite Heq in Hin. destruct Hin as [_ Hn]. by apply Hn.
    + rewrite !elem_of_cons, IH by done. split; [|tauto]. intros [->|[->|[Hx Hin]]]; [right; split; [done|by left]|by left|tauto].
Qed.
Lemma insert_entry_sorted {V} k (v : V) l : in_order l → in_order (insert_entry k v l).
Proof.
  induction l as [|[k' v'] l IH]; intros Hl; cbn [insert_entry].
  { apply in_order_cons. split; [constructor|by intros y ?%elem_of_nil]. }
  pose proof Hl as Hfull. apply in_order_cons in Hl as [Hl Hk]. destruct (decide (k = k')) as [<-|Hne].
  - by apply in_order_cons.
  - destruct (decide (String.le k k')) as [Hle|Hle].
    + assert (bytes_lt k k') as Hlt by (split; [done|]; intros Hge; by apply Hne, (anti_symm String.le)).
      apply in_order_cons. split; [done|]. intros y [->|Hy]%elem_of_cons; [done|]. eapply bytes_lt_trans; [exact Hlt|by apply Hk].
    + apply in_order_cons. split; [by apply IH|]. intros y Hy. apply elem_of_insert_entry in Hy as [->|[_ Hy]]; [|by apply Hk|done].
      cbn. destruct (bytes_trichotomy k k') as [[Hlt _]|[?|?]]; done.
Qed.
#[export] Instance sorted_lib : BucketLib SortedBucket := {|
  b_empty V := mkBucket [] ltac:(constructor) 0;
  b_entries V := sk_entries;
  b_put V k v b := mkBucket (insert_entry k v (sk_entries b)) (insert_entry_sorted k v _ (sk_sorted b)) (sk_sequence b);
  b_delete V k b := mkBucket (filter (λ x, x.1 ≠ k) (sk_entries b)) (in_order_filter _ _ (sk_sorted b)) (sk_sequence b);
  b_sequence V := sk_sequence;
  b_next V b := mkBucket (sk_entries b) (sk_sorted b) (u64_succ (sk_sequence b)) |}.
#[export] Instance sorted_laws : BucketLaws SortedBucket.
Proof.
  split; try done.
  - intros V b. apply sk_sorted.
  - intros V k v b x. apply elem_of_insert_entry, sk_sorted.
  - intros V k b x. cbn. by rewrite list_elem_of_filter.
Qed.

(** ** Big-endian numbers *)

(** [binary.BigEndian.PutUint64], for [n] bytes. *)
Fixpoint big_endian (n : nat) (z : Z) : string :=
  match n with
  | O => ""
  | S n => String (byte_ascii (z / 256 ^ Z.of_nat n mod 256)) (big_endian n z)
  end.
(** [binary.BigEndian.Uint64] panics on a shorter slice. *)
Fixpoint read_bytes (n : nat) (acc : Z) (s : string) : option Z :=
  match n, s with
  | O, _ => Some acc
  | S n, String c s => read_bytes n (acc * 256 + byte_val c) s
  | S _, EmptyString => None
  end.
Definition Uint64 (s : string) : option Z := read_bytes 8 0 s.
Definition time_key (ts seq : Z) : string := big_endian 8 ts +:+ big_endian 8 seq.

Lemma byte_val_ascii b : 0 ≤ b < 256 → byte_val (byte_ascii b) = b.
Proof. intros Hb. unfold byte_val, byte_ascii. rewrite N_ascii_embedding; lia. Qed.
Lemma top_byte n z :
  z mod 256 ^ Z.of_nat (S n) = (z / 256 ^ Z.of_nat n mod 256) * 256 ^ Z.of_nat n + z mod 256 ^ Z.of_nat n.
Proof.
  rewrite Nat2Z.inj_succ, Z.pow_succ_r, Z.mul_comm by lia.
  assert (0 < 256 ^ Z.of_nat n) by (apply Z.pow_pos_nonneg; lia).
  rewrite Z.rem_mul_r by lia. lia.
Qed.
Lemma rest_bound n z : 0 ≤ z mod 256 ^ Z.of_nat n < 256 ^ Z.of_nat n.
Proof. apply Z.mod_pos_bound, Z.pow_pos_nonneg; lia. Qed.

Lemma append_nothing s : s +:+ "" = s.
Proof. induction s as [|c s IH]; [done|]. change (String c (s +:+ "") = String c s). by rewrite IH. Qed.

(** Big-endian numbers are ordered as their bytes. *)
Lemma big_endian_compare n a b r s :
  String.compare (big_endian n a +:+ r) (big_endian n b +:+ s) =
  match a mod 256 ^ Z.of_nat n ?= b mod 256 ^ Z.of_nat n with Eq => String.compare r s | c => c end.
Proof.
  induction n as [|n IH]; [by rewrite !Z.mod_1_r|]. rewrite !top_byte. cbn [big_endian].
  set (x := a / 256 ^ Z.of_nat n mod 256). set (y := b / 256 ^ Z.of_nat n mod 256).
  assert (0 ≤ x < 256 ∧ 0 ≤ y < 256) as [Hx Hy] by (split; apply Z.mod_pos_bound; lia).
  pose proof (rest_bound n a). pose proof (rest_bound n b).
  change (match Ascii.compare (byte_ascii x) (byte_ascii y) with Eq => String.compare (big_endian n a +:+ r) (big_endian n b +:+ s) | c => c end =
    match x * 256 ^ Z.of_nat n + a mod 256 ^ Z.of_nat n ?= y * 256 ^ Z.of_nat n + b mod 256 ^ Z.of_nat n with Eq => String.compare r s | c => c end).
  unfold Ascii.compare, byte_ascii. rewrite !N_ascii_embedding by lia. rewrite Z2N.inj_compare by lia.
  destruct (Z.compare_spec x y) as [Heq|Hlt|Hgt].
  - rewrite IH, Heq, Z.add_compare_mono_l. done.
  - symmetry. assert (x * 256 ^ Z.of_nat n + a mod 256 ^ Z.of_nat n < y * 256 ^ Z.of_nat n + b mod 256 ^ Z.of_nat n) as Hc by nia.
    by rewrite (proj2 (Z.compare_lt_iff _ _) Hc).
  - symmetry. assert (y * 256 ^ Z.of_nat n + b mod 256 ^ Z.of_nat n < x * 256 ^ Z.of_nat n + a mod 256 ^ Z.of_nat n) as Hc by nia.
    by rewrite (proj2 (Z.compare_gt_iff _ _) Hc).
Qed.
Lemma read_big_endian n acc z r :
  read_bytes n acc (big_endian n z +:+ r) = Some (acc * 256 ^ Z.of_nat n + z mod 256 ^ Z.of_nat n).
Proof.
  revert acc. induction n as [|n IH]; intros acc; [cbn; by rewrite Z.mod_1_r, Z.mul_1_r, Z.add_0_r|].
  rewrite top_byte. cbn [big_endian].
  change (read_bytes n (acc * 256 + byte_val (byte_ascii (z / 256 ^ Z.of_nat n mod 256))) (big_endian n z +:+ r) =
    Some (acc * 256 ^ Z.of_nat (S n) + (z / 256 ^ Z.of_nat n mod 256 * 256 ^ Z.of_nat n + z mod 256 ^ Z.of_nat n))).
  rewrite byte_val_ascii, IH by (apply Z.mod_pos_bound; lia). rewrite Nat2Z.inj_succ, Z.pow_succ_r by lia. f_equal. lia.
Qed.
Lemma Uint64_put z : 0 ≤ z ≤ u64_max → Uint64 (big_endian 8 z) = Some z.
Proof.
  intros Hz. unfold Uint64. pose proof (read_big_endian 8 0 z "") as Hr. rewrite append_nothing in Hr. rewrite Hr.
  f_equal. change (256 ^ Z.of_nat 8) with 18446744073709551616. unfold u64_max in Hz. rewrite Z.mod_small; lia.
Qed.

(** Time keys are ordered by time, then by sequence. *)
Definition time_before (x y : Z * Z) : Prop := x.1 < y.1 ∨ (x.1 = y.1 ∧ x.2 < y.2).
Definition in_range64 (x : Z * Z) : Prop := 0 ≤ x.1 ≤ u64_max ∧ 0 ≤ x.2 ≤ u64_max.
Lemma bytes_lt_compare x y : bytes_lt x y ↔ String.compare x y = Lt.
Proof.
  unfold bytes_lt, strict, String.le, String.leb. rewrite (String.compare_antisym x y).
  destruct (String.compare y x); cbn; split; try done; try (intros [H1 H2]; done); try (by intros _; split; [done|intros []]).
Qed.
Lemma time_key_lt x y : in_range64 x → in_range64 y → bytes_lt (time_key x.1 x.2) (time_key y.1 y.2) ↔ time_before x y.
Proof.
  intros [H1 H2] [H3 H4]. rewrite bytes_lt_compare. unfold time_key. rewrite big_endian_compare.
  pose proof (big_endian_compare 8 x.2 y.2 "" "") as Hs. rewrite !append_nothing in Hs. rewrite Hs.
  change (256 ^ Z.of_nat 8) with 18446744073709551616. unfold u64_max in *. rewrite !Z.mod_small by lia.
  unfold time_before. destruct (Z.compare_spec x.1 y.1), (Z.compare_spec x.2 y.2); cbn; split; try done; try lia.
Qed.
Lemma time_key_inj x y : in_range64 x → in_range64 y → time_key x.1 x.2 = time_key y.1 y.2 → x = y.
Proof.
  intros Hx Hy Heq. pose proof (time_key_lt x y Hx Hy) as H1. pose proof (time_key_lt y x Hy Hx) as H2. rewrite Heq in H1, H2.
  destruct x as [x1 x2], y as [y1 y2]. unfold time_before in *. cbn in *.
  assert (¬ (x1 < y1 ∨ x1 = y1 ∧ x2 < y2)) as Hn1 by (intros Hlt; eapply bytes_lt_irrefl, H1, Hlt).
  assert (¬ (y1 < x1 ∨ y1 = x1 ∧ y2 < x2)) as Hn2 by (intros Hlt; eapply bytes_lt_irrefl, H2, Hlt).
  f_equal; lia.
Qed.
