(* ===== verification/Inbox.v ===== *)
(** internal/manager/store: the coordination store of a project or of the
    daemon, over the buckets of Bolt. A transaction that fails is rolled back; a
    commit may fail, as the list of outcomes in the state decides. A stored value
    is what its JSON decodes to, [None] when it does not decode. The second half
    proves that the inboxes are queues in order of receipt. *)

From S2P Require Import Prelude GoText RuneText MeshTypes GoJson HookState Bolt.
From stdpp Require Import base gmap strings list.
From Stdlib Require Import ZArith Lia.

Open Scope Z_scope.

(** ** Data *)

Record InboxMsg := mkMsg {
  im_ID : string; im_Verb : string; im_From : string; im_Priority : Z; im_Body : string;
  im_Refs : list (string * json); im_ReceivedAt : Time }.
Record AuditEntry := mkAudit {
  ae_Timestamp : Time; ae_Action : string; ae_Actor : string; ae_Subject : string; ae_RuleID : string;
  ae_Detail : list (string * json) }.
Record ProjectMeta := mkProjectMeta { pm_PaneRef : string; pm_SurfaceRef : string; pm_WorkspaceRef : string; pm_UpdatedAt : Time }.

Inductive DBError :=
| NameRequired | IDRequired | TokenRequired | ErrSessionInboxMissing | ParentMissing | ErrDBNotFound
| BadJSON | CommitFailed | SchemaMismatch (file : Z) | SchemaMalformed | Panicked.

(** What a value looks like once it has been encoded and decoded. A time outside
    the years 0 to 9999 does not encode. *)
Definition time_encodes (t : Time) : bool :=
  (-31622400000000000 <=? t_ns t) && (t_ns t <? 315537897600000000000).
Definition stored_msg (m : InboxMsg) : option InboxMsg :=
  if time_encodes (im_ReceivedAt m) then
    Some (mkMsg (json_text (im_ID m)) (json_text (im_Verb m)) (json_text (im_From m)) (im_Priority m) (json_text (im_Body m))
            (im_Refs m) (im_ReceivedAt m))
  else None.
Definition stored_audit (e : AuditEntry) : option AuditEntry :=
  if time_encodes (ae_Timestamp e) then
    Some (mkAudit (ae_Timestamp e) (json_text (ae_Action e)) (json_text (ae_Actor e)) (json_text (ae_Subject e))
            (json_text (ae_RuleID e)) (ae_Detail e))
  else None.
Definition stored_meta (m : ProjectMeta) : option ProjectMeta :=
  if time_encodes (pm_UpdatedAt m) then
    Some (mkProjectMeta (json_text (pm_PaneRef m)) (json_text (pm_SurfaceRef m)) (json_text (pm_WorkspaceRef m)) (pm_UpdatedAt m))
  else None.

Definition unix_epoch : Z := 62135596800000000000.
(** [uint64(t.UnixNano())] *)
Definition unix_nano (t : Time) : Z := (t_ns t - unix_epoch) mod 18446744073709551616.

Section Store.
Context {B : Type → Type} `{BucketLib B}.

(** The meta bucket holds two keys. *)
Record MetaBucket := mkMeta { mt_schema : option string; mt_project : option (option ProjectMeta) }.
(** The four buckets of [AllBuckets]; [db_commits] says which of the next
    transactions commit. *)
Record DB := mkDB {
  db_audit : option (B (option AuditEntry));
  db_meta : option MetaBucket;
  db_inboxes : option (gmap string (B (option InboxMsg)));
  db_babysit : option (gmap string string);
  db_commits : list bool }.
Definition new_db (commits : list bool) : DB := mkDB None None None None commits.
Definition set_audit (b : B (option AuditEntry)) (d : DB) : DB :=
  mkDB (Some b) (db_meta d) (db_inboxes d) (db_babysit d) (db_commits d).
Definition set_meta (m : MetaBucket) (d : DB) : DB := mkDB (db_audit d) (Some m) (db_inboxes d) (db_babysit d) (db_commits d).
Definition set_inboxes (m : gmap string (B (option InboxMsg))) (d : DB) : DB :=
  mkDB (db_audit d) (db_meta d) (Some m) (db_babysit d) (db_commits d).
Definition set_babysit (m : gmap string string) (d : DB) : DB :=
  mkDB (db_audit d) (db_meta d) (db_inboxes d) (Some m) (db_commits d).
Definition set_commits (l : list bool) (d : DB) : DB := mkDB (db_audit d) (db_meta d) (db_inboxes d) (db_babysit d) l.

Definition DM := M DB DBError.
Definition Update {A} (tx : DM A) : DM A := λ d,
  match tx d with
  | (Err e, _) => (Err e, d)
  | (Ok a, d') =>
      match db_commits d with
      | false :: rest => (Err CommitFailed, set_commits rest d)
      | true :: rest => (Ok a, set_commits rest d')
      | [] => (Ok a, d')
      end
  end.
Definition View {A} (tx : DM A) : DM A := λ d, ((tx d).1, d).
(** A bucket that the code takes to exist. *)
Definition must {A} (o : option A) : DM A := match o with Some a => mret a | None => throw Panicked end.

(** ** Opening *)

Definition CurrentSchemaVersion : Z := 1.
Definition init : DM unit := Update (
  _ ← modify (λ d, mkDB (Some (default b_empty (db_audit d))) (Some (default (mkMeta None None) (db_meta d)))
                      (Some (default ∅ (db_inboxes d))) (Some (default ∅ (db_babysit d))) (db_commits d));
  meta ← gets (λ d, default (mkMeta None None) (db_meta d));
  match mt_schema meta with
  | None => modify (set_meta (mkMeta (Some (big_endian 8 CurrentSchemaVersion)) (mt_project meta)))
  | Some v =>
      match Uint64 v with
      | None => throw Panicked
      | Some got => if got =? CurrentSchemaVersion then mret tt else throw (SchemaMismatch got)
      end
  end).
Definition SchemaVersion : DM Z := View (
  meta ← (λ d, must (db_meta d) d);
  match mt_schema meta with
  | Some v => if (String.length v =? 8)%nat then must (Uint64 v) else throw SchemaMalformed
  | None => throw SchemaMalformed
  end).

(** ** Session inboxes *)

Definition sessionInboxBucket (name : string) : DM (B (option InboxMsg)) := λ d,
  match db_inboxes d with
  | None => (Err ErrSessionInboxMissing, d)
  | Some m => match m !! name with Some b => (Ok b, d) | None => (Err ErrSessionInboxMissing, d) end
  end.
Definition store_inbox (name : string) (b : B (option InboxMsg)) : DM unit :=
  modify (λ d, set_inboxes (<[name := b]> (default ∅ (db_inboxes d))) d).

Definition EnsureSessionInbox (name : string) : DM unit :=
  if String.eqb name "" then throw NameRequired else Update (λ d,
    match db_inboxes d with
    | None => (Err ParentMissing, d)
    | Some m => match m !! name with Some _ => (Ok tt, d) | None => store_inbox name b_empty d end
    end).
Definition HasSessionInbox (name : string) (d : DB) : bool :=
  match db_inboxes d with Some m => bool_decide (is_Some (m !! name)) | None => false end.

Definition putInbox (m : InboxMsg) (b : B (option InboxMsg)) : result DBError (B (option InboxMsg)) :=
  let b := b_next b in
  match stored_msg m with
  | Some v => Ok (b_put (time_key (unix_nano (im_ReceivedAt m)) (b_sequence b)) (Some v) b)
  | None => Err BadJSON
  end.
Definition set_received (now : Time) (m : InboxMsg) : InboxMsg :=
  if IsZero (im_ReceivedAt m)
  then mkMsg (im_ID m) (im_Verb m) (im_From m) (im_Priority m) (im_Body m) (im_Refs m) now else m.
Definition PushSessionInbox (now : Time) (name : string) (m : InboxMsg) : DM unit :=
  if String.eqb name "" then throw NameRequired else
  if String.eqb (im_ID m) "" then throw IDRequired else
  Update (b ← sessionInboxBucket name; b' ← lift (putInbox (set_received now m) b); store_inbox name b').

(** Up to [n] messages from the front, all of them for [None]; one that does not
    decode among them is an error. *)
Fixpoint peek (n : option nat) (l : list (string * option InboxMsg)) : result DBError (list InboxMsg) :=
  match n, l with
  | Some O, _ | _, [] => Ok []
  | _, (_, None) :: _ => Err BadJSON
  | _, (_, Some m) :: l => rest ← peek (pred <$> n) l; Ok (m :: rest)
  end.
Definition PeekSessionInbox (name : string) (n : Z) : DM (list InboxMsg) :=
  if String.eqb name "" then throw NameRequired else
  View (b ← sessionInboxBucket name; lift (peek (if n <=? 0 then None else Some (Z.to_nat n)) (b_entries b))).

(** The key of the first message with the identity. *)
Fixpoint find_id (id : string) (l : list (string * option InboxMsg)) : option string :=
  match l with
  | [] => None
  | (k, Some m) :: l => if String.eqb (im_ID m) id then Some k else find_id id l
  | (_, None) :: l => find_id id l
  end.
Definition AckSessionInbox (name id : string) : DM unit :=
  if String.eqb name "" then throw NameRequired else
  Update (b ← sessionInboxBucket name;
          match find_id id (b_entries b) with
          | Some k => store_inbox name (b_delete k b)
          | None => mret tt
          end).
Definition DepthSessionInbox (name : string) : DM Z :=
  if String.eqb name "" then throw NameRequired else
  View (b ← sessionInboxBucket name; mret (Z.of_nat (length (b_entries b)))).

(** ** Audit *)

Definition set_timestamp (now : Time) (e : AuditEntry) : AuditEntry :=
  if IsZero (ae_Timestamp e)
  then mkAudit now (ae_Action e) (ae_Actor e) (ae_Subject e) (ae_RuleID e) (ae_Detail e) else e.
Definition AppendAudit (now : Time) (e : AuditEntry) : DM unit :=
  let e := set_timestamp now e in
  Update (b ← (λ d, must (db_audit d) d);
          let b := b_next b in
          match stored_audit e with
          | Some v => modify (set_audit (b_put (time_key (unix_nano (ae_Timestamp e)) (b_sequence b)) (Some v) b))
          | None => throw BadJSON
          end).
Fixpoint newest (n : nat) (l : list (string * option AuditEntry)) : result DBError (list AuditEntry) :=
  match n, l with
  | O, _ | _, [] => Ok []
  | _, (_, None) :: _ => Err BadJSON
  | S n, (_, Some e) :: l => rest ← newest n l; Ok (e :: rest)
  end.
Definition RecentAudit (n : Z) : DM (list AuditEntry) :=
  if n <=? 0 then mret [] else
  View (b ← (λ d, must (db_audit d) d); lift (newest (Z.to_nat n) (rev (b_entries b)))).

(** ** Project meta and call contexts *)

Definition PutProjectMeta (now : Time) (m : ProjectMeta) : DM unit :=
  match stored_meta (mkProjectMeta (pm_PaneRef m) (pm_SurfaceRef m) (pm_WorkspaceRef m) now) with
  | None => throw BadJSON
  | Some v => Update (meta ← (λ d, must (db_meta d) d); modify (set_meta (mkMeta (mt_schema meta) (Some (Some v)))))
  end.
Definition GetProjectMeta : DM ProjectMeta := View (
  meta ← (λ d, must (db_meta d) d);
  match mt_project meta with
  | None => throw ErrDBNotFound
  | Some None => throw BadJSON
  | Some (Some m) => mret m
  end).

Definition PutBabysitContext (token value : string) : DM unit :=
  if String.eqb token "" then throw TokenRequired else
  Update (λ d, match db_babysit d with
               | None => (Err ParentMissing, d)
               | Some m => (Ok tt, set_babysit (<[token := value]> m) d)
               end).
Definition GetBabysitContext (token : string) : DM (option string) := View (λ d,
  (Ok (match db_babysit d with Some m => m !! token | None => None end), d)).
Definition DeleteBabysitContext (token : string) : DM unit := Update (λ d,
  match db_babysit d with Some m => (Ok tt, set_babysit (delete token m) d) | None => (Ok tt, d) end).
End Store.
#[global] Arguments DB B : clear implicits.
#[global] Arguments DM B A : clear implicits.

(** * The inboxes are queues

    The inboxes of a store are queues in order of receipt: every run of
    store operations is a run of the queues below, commits that fail
    included. *)

(** ** The specification *)

Inductive InboxOp :=
| OpEnsure (name : string) | OpPush (now : Time) (name : string) (m : InboxMsg) | OpPeek (name : string) (n : Z)
| OpAck (name id : string) | OpDepth (name : string).
Inductive Answer := Done | Messages (l : list InboxMsg) | Depth (n : Z).
(** Every inbox that was ensured has its messages, the oldest first. *)
Abbreviation Queues := (gmap string (list InboxMsg)).

Definition received (m : InboxMsg) : Z := unix_nano (im_ReceivedAt m).
Fixpoint q_insert (m : InboxMsg) (l : list InboxMsg) : list InboxMsg :=
  match l with
  | [] => [m]
  | x :: rest => if received x <=? received m then x :: q_insert m rest else m :: l
  end.
Fixpoint q_remove (id : string) (l : list InboxMsg) : list InboxMsg :=
  match l with
  | [] => []
  | x :: rest => if String.eqb (im_ID x) id then rest else x :: q_remove id rest
  end.
Definition q_named {A} (name : string) (qs : Queues) (f : list InboxMsg → result DBError A) : result DBError A :=
  if String.eqb name "" then Err NameRequired else
  match qs !! name with Some l => f l | None => Err ErrSessionInboxMissing end.
Definition q_op (op : InboxOp) (qs : Queues) : result DBError Answer * Queues :=
  match op with
  | OpEnsure name =>
      if String.eqb name "" then (Err NameRequired, qs) else (Ok Done, <[name := default [] (qs !! name)]> qs)
  | OpPush now name m =>
      if String.eqb name "" then (Err NameRequired, qs) else
      if String.eqb (im_ID m) "" then (Err IDRequired, qs) else
      match qs !! name, stored_msg (set_received now m) with
      | None, _ => (Err ErrSessionInboxMissing, qs)
      | Some _, None => (Err BadJSON, qs)
      | Some l, Some m' => (Ok Done, <[name := q_insert m' l]> qs)
      end
  | OpPeek name n => (q_named name qs (λ l, Ok (Messages (if n <=? 0 then l else take (Z.to_nat n) l))), qs)
  | OpAck name id =>
      (q_named name qs (λ _, Ok Done),
       if String.eqb name "" then qs else match qs !! name with Some l => <[name := q_remove id l]> qs | None => qs end)
  | OpDepth name => (q_named name qs (λ l, Ok (Depth (Z.of_nat (length l)))), qs)
  end.
(** An operation that changes something may also fail to commit. *)
Inductive q_runs : list InboxOp → list (result DBError Answer) → Queues → Queues → Prop :=
| q_nil qs : q_runs [] [] qs qs
| q_done op r qs1 qs2 ops rs qs3 : q_op op qs1 = (r, qs2) → q_runs ops rs qs2 qs3 → q_runs (op :: ops) (r :: rs) qs1 qs3
| q_failed op qs1 ops rs qs3 : q_runs ops rs qs1 qs3 → q_runs (op :: ops) (Err CommitFailed :: rs) qs1 qs3.

(** ** The store *)

Section Store.
Context {B : Type → Type} `{BucketLaws B}.
Implicit Types (b : B (option InboxMsg)) (d : DB B).

Definition answer {A} (f : A → Answer) (r : result DBError A) : result DBError Answer := f <$> r.
Definition inbox_op (op : InboxOp) (d : DB B) : result DBError Answer * DB B :=
  match op with
  | OpEnsure name => let '(r, d) := EnsureSessionInbox name d in (answer (λ _, Done) r, d)
  | OpPush now name m => let '(r, d) := PushSessionInbox now name m d in (answer (λ _, Done) r, d)
  | OpPeek name n => let '(r, d) := PeekSessionInbox name n d in (answer Messages r, d)
  | OpAck name id => let '(r, d) := AckSessionInbox name id d in (answer (λ _, Done) r, d)
  | OpDepth name => let '(r, d) := DepthSessionInbox name d in (answer Depth r, d)
  end.
Fixpoint inbox_run (ops : list InboxOp) (d : DB B) : list (result DBError Answer) * DB B :=
  match ops with
  | [] => ([], d)
  | op :: ops => let '(r, d) := inbox_op op d in let '(rs, d) := inbox_run ops d in (r :: rs, d)
  end.

(** Keys are made of the time of receipt and a sequence number already used. *)
Definition entry_ok (seq : Z) (x : string * option InboxMsg) : Prop :=
  ∃ s m, x = (time_key (received m) s, Some m) ∧ 1 ≤ s ≤ seq.
Definition bucket_ok (bound : Z) b : Prop :=
  0 ≤ b_sequence b ≤ bound ∧ ∀ x, x ∈ b_entries b → entry_ok (b_sequence b) x.
Definition messages b : list InboxMsg := omap snd (b_entries b).
Definition store_ok (bound : Z) d (qs : Queues) : Prop :=
  ∃ m, db_inboxes d = Some m ∧ map_Forall (λ _ b, bucket_ok bound b) m ∧ qs = messages <$> m.

Lemma received_range m : 0 ≤ received m ≤ u64_max.
Proof. unfold received, unix_nano, u64_max. pose proof (Z.mod_pos_bound (t_ns (im_ReceivedAt m) - unix_epoch) 18446744073709551616). lia. Qed.
Lemma bucket_ok_later n n' b : n ≤ n' → bucket_ok n b → bucket_ok n' b.
Proof. intros Hn [Hs He]. split; [lia|done]. Qed.

Lemma peek_take b n k :
  bucket_ok n b → peek k (b_entries b) = Ok (match k with Some k => take k (messages b) | None => messages b end).
Proof.
  intros [_ He]. unfold messages. revert k. induction (b_entries b) as [|x l IH]; intros k; [by destruct k as [[|k]|]|].
  destruct (He x ltac:(by left)) as (s & m & -> & _). cbn. assert (∀ y, y ∈ l → entry_ok (b_sequence b) y) as Hl by (intros; apply He; by right).
  destruct k as [[|k]|]; [done| |]; cbn; by rewrite (IH Hl).
Qed.
Lemma length_messages b n : bucket_ok n b → length (messages b) = length (b_entries b).
Proof.
  intros [_ He]. unfold messages. induction (b_entries b) as [|x l IH]; [done|].
  destruct (He x ltac:(by left)) as (s & m & -> & _). cbn. f_equal. apply IH. intros y Hy. apply He. by right.
Qed.

(** *** Push *)

(** In a list in byte order, a fresh key goes in front of the first larger one. *)
Lemma insert_spec b k v :
  (∀ x, x ∈ b_entries b → x.1 ≠ k) →
  ∃ pre post, b_entries b = pre ++ post ∧ b_entries (b_put k v b) = pre ++ (k, v) :: post ∧
    (∀ x, x ∈ pre → bytes_lt x.1 k) ∧ (∀ x, x ∈ post → bytes_lt k x.1).
Proof.
  intros Hk. assert (∀ l, in_order l → (∀ x : string * option InboxMsg, x ∈ l → x.1 ≠ k) → ∃ pre post, l = pre ++ post ∧
    (∀ x, x ∈ pre → bytes_lt x.1 k) ∧ (∀ x, x ∈ post → bytes_lt k x.1)) as Hsplit.
  { induction l as [|x l IH]; intros Hl Hne; [exists [], []; split_and!; [done|by intros y Hy%elem_of_nil..]|].
    apply in_order_cons in Hl as [Hl Hx]. destruct (bytes_trichotomy x.1 k) as [Hlt|[Heq|Hgt]].
    - destruct IH as (pre & post & -> & H1 & H2); [done|intros y Hy; apply Hne; by right|].
      exists (x :: pre), post. split_and!; [done| |done]. intros y [->|Hy]%elem_of_cons; [done|by apply H1].
    - exfalso. by apply (Hne x ltac:(by left)).
    - exists [], (x :: l). split_and!; [done|by intros y ?%elem_of_nil|]. intros y [->|Hy]%elem_of_cons; [done|].
      eapply bytes_lt_trans; [exact Hgt|by apply Hx]. }
  destruct (Hsplit _ (entries_sorted _ b) Hk) as (pre & post & Hb & H1 & H2). exists pre, post. split_and!; [done| |done..].
  apply in_order_ext; [apply entries_sorted| |].
  - pose proof (entries_sorted _ b) as Hs. rewrite Hb in Hs. clear Hb Hsplit. induction pre as [|x pre IH]; cbn in *.
    + apply in_order_cons. split; [done|]. intros y Hy. by apply H2.
    + apply in_order_cons in Hs as [Hs Hx]. apply in_order_cons. split; [apply IH; [intros y Hy; apply H1; by right|done]|].
      intros y [Hy|[->|Hy]%elem_of_cons]%elem_of_app; [apply Hx, elem_of_app; by left|apply H1; by left|apply Hx, elem_of_app; by right].
  - intros x. rewrite entries_put, Hb, !elem_of_app, elem_of_cons. split; [tauto|].
    intros [Hx|[->|Hx]]; [right|by left|right]; (split; [|tauto]); intros Heq.
    + apply H1 in Hx. rewrite Heq in Hx. by apply bytes_lt_irrefl in Hx.
    + apply H2 in Hx. rewrite Heq in Hx. by apply bytes_lt_irrefl in Hx.
Qed.
Lemma q_insert_split m pre post :
  (∀ x, x ∈ pre → received x ≤ received m) → (∀ x, x ∈ post → received m < received x) →
  q_insert m (pre ++ post) = pre ++ m :: post.
Proof.
  intros Hpre Hpost. induction pre as [|x pre IH]; cbn [app q_insert].
  - destruct post as [|y post]; [done|]. cbn. specialize (Hpost y ltac:(by left)).
    destruct (Z.leb_spec (received y) (received m)); [lia|done].
  - specialize (Hpre x ltac:(by left)) as Hx. destruct (Z.leb_spec (received x) (received m)); [|lia].
    f_equal. apply IH. intros y Hy. apply Hpre. by right.
Qed.
Lemma putInbox_spec n b m m' :
  bucket_ok n b → n < u64_max → stored_msg m = Some m' →
  ∃ b', putInbox m b = Ok b' ∧ bucket_ok (n + 1) b' ∧ messages b' = q_insert m' (messages b).
Proof.
  intros [Hseq He] Hn Hm. unfold putInbox. rewrite Hm. eexists. split; [reflexivity|].
  assert (received m' = unix_nano (im_ReceivedAt m)) as <-.
  { unfold stored_msg in Hm. destruct (time_encodes _); [|done]. by injection Hm as <-. }
  assert (b_sequence (b_next b) = b_sequence b + 1) as Hnext by (rewrite sequence_next; apply u64_succ_small; lia).
  set (k := time_key (received m') (b_sequence (b_next b))).
  assert (∀ x, x ∈ b_entries (b_next b) → ∃ s mx, x = (time_key (received mx) s, Some mx) ∧ 1 ≤ s ≤ b_sequence b) as Hold.
  { intros x. rewrite entries_next. apply He. }
  assert (∀ s mx, 1 ≤ s ≤ b_sequence b → in_range64 (received mx, s) ∧ in_range64 (received m', b_sequence (b_next b))) as Hrange.
  { intros s mx Hs. pose proof (received_range mx). pose proof (received_range m'). unfold in_range64. cbn. rewrite Hnext. lia. }
  destruct (insert_spec (b_next b) k (Some m')) as (pre & post & Hb & Hput & Hpre & Hpost).
  { intros x Hx Heq. destruct (Hold x Hx) as (s & mx & -> & Hs). destruct (Hrange s mx Hs) as [Hr1 Hr2].
    apply (time_key_inj _ _ Hr1 Hr2) in Heq. injection Heq as _ Heq. lia. }
  split.
  - split; [rewrite sequence_put, Hnext; lia|]. intros x. rewrite entries_put. intros [->|[_ Hx]].
    + exists (b_sequence (b_next b)), m'. split; [done|rewrite sequence_put, Hnext; lia].
    + destruct (Hold x Hx) as (s & mx & -> & Hs). exists s, mx. rewrite sequence_put, Hnext. split; [done|lia].
  - unfold messages. rewrite Hput, <- (entries_next _ b), Hb, !omap_app. cbn. symmetry. apply q_insert_split.
    + intros y ([ky vy] & Hy & Hv)%list_elem_of_omap. cbn in Hv. subst vy.
      destruct (Hold (ky, Some y)) as (s & mx & [= -> <-] & Hs); [rewrite Hb; apply elem_of_app; by left|].
      destruct (Hrange s y Hs) as [Hr1 Hr2]. apply Hpre, (time_key_lt _ _ Hr1 Hr2) in Hy. unfold time_before in Hy. cbn in Hy. lia.
    + intros y ([ky vy] & Hy & Hv)%list_elem_of_omap. cbn in Hv. subst vy.
      destruct (Hold (ky, Some y)) as (s & mx & [= -> <-] & Hs); [rewrite Hb; apply elem_of_app; by right|].
      destruct (Hrange s y Hs) as [Hr1 Hr2]. apply Hpost, (time_key_lt _ _ Hr2 Hr1) in Hy. unfold time_before in Hy. cbn in Hy. lia.
Qed.

(** *** Ack *)

Lemma ack_spec n b id :
  bucket_ok n b →
  match find_id id (b_entries b) with
  | Some k => bucket_ok n (b_delete k b) ∧ messages (b_delete k b) = q_remove id (messages b)
  | None => q_remove id (messages b) = messages b
  end.
Proof.
  intros [Hseq He].
  assert (∀ l, (∀ x, x ∈ l → entry_ok (b_sequence b) x) →
    match find_id id l with
    | Some k => ∃ pre v post, l = pre ++ (k, v) :: post ∧ q_remove id (omap snd l) = omap snd (pre ++ post)
    | None => q_remove id (omap snd l) = omap snd l
    end) as Hl.
  { induction l as [|x l IH]; intros Hok; [done|]. destruct (Hok x ltac:(by left)) as (s & m & -> & _). cbn.
    destruct (String.eqb (im_ID m) id); [by exists [], (Some m), l|]. specialize (IH (λ y Hy, Hok y ltac:(by right))).
    destruct (find_id id l) as [k|]; [|by rewrite IH].
    destruct IH as (pre & v & post & -> & Heq). exists ((time_key (received m) s, Some m) :: pre), v, post.
    split; [done|]. cbn. by rewrite Heq. }
  specialize (Hl (b_entries b) He). unfold messages. destruct (find_id id (b_entries b)) as [k|]; [|done].
  destruct Hl as (pre & v & post & Hb & Hq). rewrite (delete_split _ _ _ _ _ Hb), Hq. split; [|done]. split; [by rewrite sequence_delete|].
  intros x Hx. rewrite sequence_delete. apply He. by apply entries_delete in Hx as [_ Hx].
Qed.

(** *** One operation *)

Lemma store_lookup n d qs name :
  store_ok n d qs →
  match qs !! name with
  | Some l => ∃ b, (sessionInboxBucket name d).1 = Ok b ∧ bucket_ok n b ∧ messages b = l
  | None => (sessionInboxBucket name d).1 = Err ErrSessionInboxMissing
  end ∧ (sessionInboxBucket name d).2 = d.
Proof.
  intros (m & Hm & Hok & ->). unfold sessionInboxBucket. rewrite Hm, lookup_fmap.
  destruct (m !! name) as [b|] eqn:Hb; cbn; [|done]. split; [|done]. exists b. split_and!; [done| |done]. by apply (Hok name).
Qed.
Lemma store_ok_later n n' d qs : n ≤ n' → store_ok n d qs → store_ok n' d qs.
Proof.
  intros Hn (m & Hm & Hok & Hq). exists m. split_and!; [done| |done]. intros k b Hb. eapply bucket_ok_later; [exact Hn|]. by apply (Hok k).
Qed.
Lemma store_ok_commits n d qs l : store_ok n d qs → store_ok n (set_commits l d) qs.
Proof. by intros (m & Hm & Hok & Hq); exists m. Qed.
Lemma store_inbox_ok n d qs name b :
  store_ok n d qs → bucket_ok n b →
  (store_inbox name b d).1 = Ok tt ∧ store_ok n (store_inbox name b d).2 (<[name := messages b]> qs).
Proof.
  intros (m & Hm & Hok & ->) Hb. split; [done|]. unfold store_inbox, modify. cbn. rewrite Hm. cbn.
  exists (<[name := b]> m). split_and!; [done|by apply map_Forall_insert_2|by rewrite fmap_insert].
Qed.

(** What a transaction makes of a store, and so what its commit does. *)
Lemma Update_ok {A} n n' (tx : DM B A) d qs r qs' :
  store_ok n d qs → n ≤ n' → (tx d).1 = r → (∀ a, r = Ok a → store_ok n' (tx d).2 qs') → (∀ e, r = Err e → qs' = qs) →
  store_ok n' (Update tx d).2 qs' ∧ (Update tx d).1 = r ∨ store_ok n' (Update tx d).2 qs ∧ (Update tx d).1 = Err CommitFailed.
Proof.
  intros Hd Hn <- Hok Herr. unfold Update. destruct (tx d) as [[a|e] d'] eqn:Htx; cbn in *.
  - specialize (Hok a eq_refl). destruct (db_commits d) as [|[] rest]; cbn.
    + by left.
    + left. split; [by apply store_ok_commits|done].
    + right. split; [by eapply store_ok_commits, store_ok_later|done].
  - left. split; [|done]. rewrite (Herr e eq_refl). by eapply store_ok_later.
Qed.

(** *** Frames *)

Lemma Update_frame {A X} (f : DB B → X) (tx : DM B A) d :
  f (tx d).2 = f d → (∀ d l, f (set_commits l d) = f d) → f (Update tx d).2 = f d.
Proof.
  intros Htx Hf. unfold Update. destruct (tx d) as [[a|e] d']; cbn in *; [|done].
  destruct (db_commits d) as [|[] rest]; cbn; [done| |]; rewrite Hf; done.
Qed.
Lemma lookup_bucket name d : (sessionInboxBucket name d).2 = d.
Proof. unfold sessionInboxBucket. destruct (db_inboxes d) as [m|]; [|done]. by destruct (m !! name). Qed.
Lemma AppendAudit_frame now e d :
  db_inboxes (AppendAudit now e d).2 = db_inboxes d ∧ db_meta (AppendAudit now e d).2 = db_meta d.
Proof.
  unfold AppendAudit. split; (apply Update_frame; [|done]); unfold mbind, M_bind, must;
    (destruct (db_audit d); cbn; [|done]); by destruct (stored_audit _).
Qed.
Lemma store_ok_audit n d qs now e : store_ok n d qs → store_ok n (AppendAudit now e d).2 qs.
Proof.
  intros (m & Hm & Hok & Hq). exists m. destruct (AppendAudit_frame now e d) as [Hi _]. by rewrite Hi.
Qed.

Definition refined (n : Z) (op : InboxOp) (d : DB B) (qs : Queues) : Prop :=
  let '(r, d') := inbox_op op d in
  let '(r', qs') := q_op op qs in
  store_ok n d' qs' ∧ r = r' ∨ store_ok n d' qs ∧ r = Err CommitFailed.

Lemma refined_ensure n d qs name : store_ok n d qs → 0 ≤ n → refined n (OpEnsure name) d qs.
Proof.
  intros Hd Hn. unfold refined, inbox_op, EnsureSessionInbox, q_op. destruct (String.eqb name ""); [by left|].
  match goal with |- context [Update ?t] => set (tx := t) end.
  assert ((tx d).1 = Ok tt ∧ store_ok n (tx d).2 (<[name := default [] (qs !! name)]> qs)) as [H1 H2].
  { destruct Hd as (m & Hm & Hok & ->). unfold tx. rewrite Hm, lookup_fmap. destruct (m !! name) as [b|] eqn:Hb; cbn.
    - split; [done|]. exists m. split_and!; [done..|]. rewrite <- fmap_insert. by rewrite insert_id.
    - split; [done|]. rewrite Hm. cbn. exists (<[name := b_empty]> m).
      assert (messages b_empty = []) as <- by (unfold messages; by rewrite entries_empty).
      split_and!; [done| |by rewrite fmap_insert]. apply map_Forall_insert_2; [|done].
      split; [rewrite sequence_empty; lia|]. rewrite entries_empty. by intros x ?%elem_of_nil. }
  destruct (Update_ok n n tx d qs (Ok tt) _ Hd ltac:(lia) H1 (λ _ _, H2) ltac:(done)) as [[Hs Hr]|[Hs Hr]];
    destruct (Update tx d) as [r d']; cbn in *; rewrite Hr; [by left|by right].
Qed.
Lemma refined_push n d qs now name m :
  store_ok n d qs → 0 ≤ n < u64_max → refined (n + 1) (OpPush now name m) d qs.
Proof.
  intros Hd Hn. unfold refined, inbox_op, PushSessionInbox, q_op.
  assert (store_ok (n + 1) d qs) as Hd' by (eapply store_ok_later; [|exact Hd]; lia).
  destruct (String.eqb name ""); [by left|]. destruct (String.eqb (im_ID m) ""); [by left|].
  match goal with |- context [Update ?t] => set (tx := t) end. pose proof (store_lookup n d qs name Hd) as [Hl Hsame].
  set (out := match qs !! name, stored_msg (set_received now m) with
              | None, _ => (Err ErrSessionInboxMissing, qs)
              | Some _, None => (Err BadJSON, qs)
              | Some l, Some m' => (Ok tt, <[name := q_insert m' l]> qs)
              end : result DBError unit * Queues).
  assert ((tx d).1 = out.1 ∧ (∀ a, out.1 = Ok a → store_ok (n + 1) (tx d).2 out.2) ∧ (∀ e, out.1 = Err e → out.2 = qs)) as (H1 & H2 & H3).
  { unfold tx, out, mbind, M_bind. destruct (sessionInboxBucket name d) as [rb d1]. cbn in Hl, Hsame. subst d1.
    destruct (qs !! name) as [l|]; [|by subst rb]. destruct Hl as (b & -> & Hb & Hml).
    destruct (stored_msg (set_received now m)) as [m'|] eqn:Hm.
    - destruct (putInbox_spec n b _ m' Hb ltac:(lia) Hm) as (b' & Hp & Hb' & Hmb). unfold lift. rewrite Hp.
      destruct (store_inbox_ok (n + 1) d qs name b' Hd' Hb') as [Hs1 Hs2].
      rewrite Hmb, Hml in Hs2. by split_and!.
    - unfold lift, putInbox. by rewrite Hm. }
  destruct (Update_ok n (n + 1) tx d qs _ _ Hd ltac:(lia) H1 H2 H3) as [[Hs Hr]|[Hs Hr]];
    destruct (Update tx d) as [r d']; cbn in Hs, Hr; subst r; unfold out in *; destruct (qs !! name); try destruct (stored_msg _); (by left) || (by right).
Qed.
Lemma refined_ack n d qs name id : store_ok n d qs → refined n (OpAck name id) d qs.
Proof.
  intros Hd. unfold refined, inbox_op, AckSessionInbox, q_op, q_named. destruct (String.eqb name ""); [by left|].
  match goal with |- context [Update ?t] => set (tx := t) end. pose proof (store_lookup n d qs name Hd) as [Hl Hsame].
  set (out := match qs !! name with
              | None => (Err ErrSessionInboxMissing, qs)
              | Some l => (Ok tt, <[name := q_remove id l]> qs)
              end : result DBError unit * Queues).
  assert ((tx d).1 = out.1 ∧ (∀ a, out.1 = Ok a → store_ok n (tx d).2 out.2) ∧ (∀ e, out.1 = Err e → out.2 = qs)) as (H1 & H2 & H3).
  { unfold tx, out, mbind, M_bind. destruct (sessionInboxBucket name d) as [rb d1]. cbn in Hl, Hsame. subst d1.
    destruct (qs !! name) as [l|] eqn:Hq; [|by subst rb]. destruct Hl as (b & -> & Hb & <-).
    pose proof (ack_spec n b id Hb) as Ha. destruct (find_id id (b_entries b)) as [k|].
    - destruct Ha as [Hb' <-]. destruct (store_inbox_ok n d qs name _ Hd Hb') as [Hs1 Hs2]. by split_and!.
    - split_and!; [done| |done]. intros _ _. rewrite Ha. cbn. by rewrite (insert_id qs name) by done. }
  destruct (Update_ok n n tx d qs _ _ Hd ltac:(lia) H1 H2 H3) as [[Hs Hr]|[Hs Hr]];
    destruct (Update tx d) as [r d']; cbn in Hs, Hr; subst r; unfold out in *; destruct (qs !! name); (by left) || (by right).
Qed.
Lemma peek_spec n d qs name k :
  store_ok n d qs → (PeekSessionInbox name k d).1 = q_named name qs (λ l, Ok (if k <=? 0 then l else take (Z.to_nat k) l)).
Proof.
  intros Hd. unfold PeekSessionInbox, q_named, View. destruct (String.eqb name ""); [done|].
  pose proof (store_lookup n d qs name Hd) as [Hl Hsame]. unfold mbind, M_bind.
  destruct (sessionInboxBucket name d) as [rb d1]. cbn in Hl, Hsame. subst d1.
  destruct (qs !! name) as [l|]; [|by subst rb]. destruct Hl as (b & -> & Hb & <-). cbn. rewrite (peek_take b n) by done.
  by destruct (k <=? 0).
Qed.
Lemma refined_peek n d qs name k : store_ok n d qs → refined n (OpPeek name k) d qs.
Proof.
  intros Hd. unfold refined, inbox_op. pose proof (peek_spec n d qs name k Hd) as Hp.
  assert ((PeekSessionInbox name k d).2 = d) as Hs by (unfold PeekSessionInbox; by destruct (String.eqb name "")).
  destruct (PeekSessionInbox name k d) as [r d']. cbn in Hp, Hs. subst r d'. cbn. left. split; [done|].
  unfold q_named, answer. destruct (String.eqb name ""); [done|]. by destruct (qs !! name).
Qed.
Lemma depth_spec n d qs name :
  store_ok n d qs → (DepthSessionInbox name d).1 = q_named name qs (λ l, Ok (Z.of_nat (length l))).
Proof.
  intros Hd. unfold DepthSessionInbox, q_named, View. destruct (String.eqb name ""); [done|].
  pose proof (store_lookup n d qs name Hd) as [Hl Hsame]. unfold mbind, M_bind.
  destruct (sessionInboxBucket name d) as [rb d1]. cbn in Hl, Hsame. subst d1.
  destruct (qs !! name) as [l|]; [|by subst rb]. destruct Hl as (b & -> & Hb & <-). cbn. by rewrite (length_messages b n).
Qed.
Lemma refined_depth n d qs name : store_ok n d qs → refined n (OpDepth name) d qs.
Proof.
  intros Hd. unfold refined, inbox_op. pose proof (depth_spec n d qs name Hd) as Hp.
  assert ((DepthSessionInbox name d).2 = d) as Hs by (unfold DepthSessionInbox; by destruct (String.eqb name "")).
  destruct (DepthSessionInbox name d) as [r d']. cbn in Hp, Hs. subst r d'. cbn. left. split; [done|].
  unfold q_named, answer. destruct (String.eqb name ""); [done|]. by destruct (qs !! name).
Qed.
Lemma refined_op n d qs op : store_ok n d qs → 0 ≤ n < u64_max → refined (n + 1) op d qs.
Proof.
  intros Hd Hn. assert (store_ok (n + 1) d qs) as Hd' by (eapply store_ok_later; [|exact Hd]; lia).
  destruct op; [apply refined_ensure; [done|lia]|by apply refined_push|by apply refined_peek|by apply refined_ack|by apply refined_depth].
Qed.
Lemma inbox_runs ops n d qs rs d' :
  store_ok n d qs → 0 ≤ n → n + Z.of_nat (length ops) < u64_max → inbox_run ops d = (rs, d') →
  ∃ qs', q_runs ops rs qs qs' ∧ store_ok (n + Z.of_nat (length ops)) d' qs'.
Proof.
  revert n d qs rs. induction ops as [|op ops IH]; intros n d qs rs Hd Hn Hlen; cbn [inbox_run length].
  { intros [= <- <-]. exists qs. split; [constructor|]. eapply store_ok_later; [|exact Hd]. lia. }
  cbn [length] in Hlen. destruct (inbox_op op d) as [r d1] eqn:Hop. destruct (inbox_run ops d1) as [rs1 d2] eqn:Hrun. intros [= <- <-].
  pose proof (refined_op n d qs op Hd ltac:(lia)) as Href. unfold refined in Href. rewrite Hop in Href.
  destruct (q_op op qs) as [r' qs1] eqn:Hq. destruct Href as [[Hd1 ->]|[Hd1 ->]].
  - destruct (IH (n + 1) d1 qs1 rs1 Hd1 ltac:(lia) ltac:(lia) Hrun) as (qs2 & Hqs & Hok). exists qs2.
    split; [by eapply q_done|]. eapply store_ok_later; [|exact Hok]. lia.
  - destruct (IH (n + 1) d1 qs rs1 Hd1 ltac:(lia) ltac:(lia) Hrun) as (qs2 & Hqs & Hok). exists qs2.
    split; [by apply q_failed|]. eapply store_ok_later; [|exact Hok]. lia.
Qed.

Lemma init_ok commits d : init (new_db commits) = (Ok tt, d) → store_ok 0 d ∅.
Proof.
  unfold init, Update. cbn. destruct commits as [|[] rest]; intros [= <-]; exists ∅; split_and!; try done; apply map_Forall_empty.
Qed.

(** C33: from a new store on, any sequence of inbox operations answers as queues
    kept in order of receipt would: nothing that was pushed is lost, repeated or
    overtaken, an acknowledgement takes the oldest message of that identity, and
    an operation whose commit fails has changed nothing. *)
Theorem inbox_refines_queues commits ops d rs d' :
  init (new_db commits) = (Ok tt, d) → inbox_run ops d = (rs, d') → Z.of_nat (length ops) < u64_max →
  ∃ qs, q_runs ops rs ∅ qs ∧ ∀ name, (PeekSessionInbox name 0 d').1 = q_named name qs Ok.
Proof.
  intros Hi Hrun Hlen. destruct (inbox_runs ops 0 d ∅ rs d' (init_ok _ _ Hi) ltac:(lia) ltac:(lia) Hrun) as (qs & Hq & Hok).
  exists qs. split; [done|]. intros name. by rewrite (peek_spec _ d' qs name 0 Hok).
Qed.
End Store.
