(* ===== verification/Pulse.v ===== *)
(** internal/manager/pulse: the loop that wakes the pane of a project when its
    inbox grew or its review is due, over the store of Inbox. What the terminal
    answers to a wake is an input of the tick. The second half proves that it
    follows a specification over queues and a history of ticks. *)

From S2P Require Import Prelude GoText RuneText MeshTypes GoJson HookState Bolt Inbox.
From S2P Require Import Inbox.
From stdpp Require Import base gmap strings list.
From Stdlib Require Import ZArith Lia Ascii.

Open Scope Z_scope.

(** ** Durations as text (package time) *)

Definition Second : Z := 1000000000.
(** [d.Round(m)]: halves are rounded away from zero, what overflows saturates. *)
Definition duration_Round (d m : Z) : Z :=
  if m <=? 0 then d else
  if d <? 0 then
    let r := Z.rem (- d) m in
    if r + r <? m then d + r else Z.max min_duration (d - m + r)
  else
    let r := Z.rem d m in
    if r + r <? m then d - r else Z.min max_duration (d + m - r).
Definition with_fraction (places : nat) (u : Z) : string :=
  let unit := 10 ^ Z.of_nat places in
  FormatUint (u / unit) +:+ (if u mod unit =? 0 then "" else String "." (fraction places (u mod unit))).
Definition duration_String (d : Z) : string :=
  let u := Z.abs d in
  let text :=
    if u =? 0 then "0s"
    else if u <? 1000 then FormatUint u +:+ "ns"
    else if u <? 1000000 then with_fraction 3 u +:+ "µs"
    else if u <? Second then with_fraction 6 u +:+ "ms"
    else
      let s := u / Second in
      let seconds := with_fraction 9 (u mod Second + s mod 60 * Second) +:+ "s" in
      if s / 60 =? 0 then seconds else
      let minutes := FormatUint (s / 60 mod 60) +:+ "m" +:+ seconds in
      if s / 3600 =? 0 then minutes else FormatUint (s / 3600) +:+ "h" +:+ minutes in
  if d <? 0 then String "-" text else text.

Example duration_hours : duration_String (duration_Round 5445678900000 Second) = "1h30m46s".
Proof. vm_compute. reflexivity. Qed.
Example duration_parts : (duration_String 1500000, duration_String 90000000001) = ("1.5ms", "1m30.000000001s").
Proof. vm_compute. reflexivity. Qed.

(** ** Data *)

Record Target := mkTarget { tg_ID : string; tg_PaneRef : string; tg_Cadence : Z }.
Record PulseState := mkPulseState { LastInboxDepth : Z; LastWakeAt : Time }.
Record Pulser := mkPulser { pu_Project : string; pu_Interval : Z }.
Inductive Trigger := TriggerInboxGrew | TriggerCadenceElapsed | TriggerBoth | TriggerNone.
Definition trigger_text (t : Trigger) : string :=
  match t with
  | TriggerInboxGrew => "inbox-grew"
  | TriggerCadenceElapsed => "cadence-elapsed"
  | TriggerBoth => "inbox-grew+cadence-elapsed"
  | TriggerNone => "none"
  end.
Record Decision := mkDecision {
  de_Target : Target; de_InboxDepth : Z; de_PrevDepth : Z; de_SinceLast : Z; de_Trigger : Trigger;
  de_WakeSent : bool; de_WakeError : string; de_WakePromptOK : string }.
Record Report := mkReport { re_At : Time; re_Targets : Z; re_Wakes : Z; re_Errors : Z; re_Decisions : list Decision }.

Definition buildWakeBody (tg : Target) (depth since : Z) : string :=
  "[arcmux pulse] " +:+ tg_ID tg +:+ " — you have " +:+ FormatInt depth +:+ " queued inbox message(s); " +:+
  duration_String (duration_Round since Second) +:+
  " since last wake. Run your bootstrap protocol: peek your inbox, act on what's there, then journal + scratchpad before yielding.".

(** The case distinction of [evaluate]. *)
Definition trigger (grew elapsed seen : bool) : Trigger :=
  if grew && elapsed then TriggerBoth
  else if grew then TriggerInboxGrew
  else if elapsed && seen then TriggerCadenceElapsed
  else TriggerNone.

Section Pulse.
Context {B : Type → Type} `{BucketLib B}.

(** The memory of a pulser, its store, and the calls of [Mux.Send] it has made,
    the last one first. *)
Record PulseWorld := mkPulseWorld {
  pw_db : DB B; pw_mem : gmap string PulseState; pw_sends : list (string * string) }.
Definition new_pulse (d : DB B) : PulseWorld := mkPulseWorld d ∅ [].
Definition set_db (d : DB B) (w : PulseWorld) : PulseWorld := mkPulseWorld d (pw_mem w) (pw_sends w).
Definition remember (id : string) (st : PulseState) (w : PulseWorld) : PulseWorld :=
  mkPulseWorld (pw_db w) (<[id := st]> (pw_mem w)) (pw_sends w).
Definition sent (pane body : string) (w : PulseWorld) : PulseWorld :=
  mkPulseWorld (pw_db w) (pw_mem w) ((pane, body) :: pw_sends w).

Definition collectTargets (p : Pulser) (d : DB B) : result DBError (list Target) :=
  match (GetProjectMeta d).1 with
  | Err ErrDBNotFound => Ok []
  | Err e => Err e
  | Ok meta => Ok (if String.eqb (pm_PaneRef meta) "" then [] else [mkTarget "session" (pm_PaneRef meta) (pu_Interval p)])
  end.
Definition inboxDepth (p : Pulser) (d : DB B) : result DBError Z :=
  match (DepthSessionInbox (pu_Project p) d).1 with
  | Err ErrSessionInboxMissing => Ok 0
  | r => r
  end.
(** Its error is dropped. *)
Definition append_audit (at_ : Time) (action subject : string) (detail : list (string * json)) (w : PulseWorld) : PulseWorld :=
  set_db (AppendAudit at_ (mkAudit at_ action "pulse" subject "" detail) (pw_db w)).2 w.
Definition audit (p : Pulser) (at_ : Time) (tg : Target) (action : string) (detail : list (string * json))
    (w : PulseWorld) : PulseWorld :=
  append_audit at_ action (pu_Project p +:+ "/" +:+ tg_ID tg)
    (detail ++ [("target_id", JString (tg_ID tg)); ("pane_ref", JString (tg_PaneRef tg))]) w.

Definition evaluate (p : Pulser) (now : Time) (Send : string → string → option string) (tg : Target) (w : PulseWorld)
  : Decision * PulseWorld :=
  let depth := got (inboxDepth p (pw_db w)) 0 in
  let seen := bool_decide (is_Some (pw_mem w !! tg_ID tg)) in
  let st := default (mkPulseState 0 now) (pw_mem w !! tg_ID tg) in
  let w := remember (tg_ID tg) st w in
  let prev := LastInboxDepth st in
  let since := time_sub now (LastWakeAt st) in
  let t := trigger (prev <? depth) ((0 <? tg_Cadence tg) && (tg_Cadence tg <=? since)) seen in
  let decision := mkDecision tg depth prev since t in
  match t with
  | TriggerNone => (decision false "" "", remember (tg_ID tg) (mkPulseState depth (LastWakeAt st)) w)
  | _ =>
      let body := buildWakeBody tg depth since in
      let w := sent (tg_PaneRef tg) body w in
      let common := [("trigger", JString (trigger_text t)); ("inbox_depth", JNumber (FormatInt depth));
                     ("prev_depth", JNumber (FormatInt prev))] in
      match Send (tg_PaneRef tg) body with
      | Some err =>
          (decision false err body,
           audit p now tg "pulse.wake.error" (common ++ [("error", JString (json_text err))]) w)
      | None =>
          (decision true "" body,
           audit p now tg "pulse.wake" (common ++ [("since_last_wake", JString (duration_String since))])
             (remember (tg_ID tg) (mkPulseState depth now) w))
      end
  end.
Fixpoint evaluate_all (p : Pulser) (now : Time) (Send : string → string → option string) (targets : list Target)
    (w : PulseWorld) : list Decision * PulseWorld :=
  match targets with
  | [] => ([], w)
  | tg :: targets =>
      let '(d, w) := evaluate p now Send tg w in
      let '(ds, w) := evaluate_all p now Send targets w in
      (d :: ds, w)
  end.
Definition count {A} (f : A → bool) (l : list A) : Z := Z.of_nat (length (filter (λ x, f x = true) l)).
Definition Tick (p : Pulser) (now : Time) (Send : string → string → option string) (w : PulseWorld)
  : result DBError Report * PulseWorld :=
  match collectTargets p (pw_db w) with
  | Err e => (Err e, w)
  | Ok targets =>
      let '(ds, w) := evaluate_all p now Send targets w in
      let wakes := count de_WakeSent ds in
      let errors := count (λ d, negb (String.eqb (de_WakeError d) "")) ds in
      let n := Z.of_nat (length targets) in
      (Ok (mkReport now n wakes errors ds),
       append_audit now "pulse.tick" (pu_Project p)
         [("targets", JNumber (FormatInt n)); ("wakes", JNumber (FormatInt wakes)); ("errors", JNumber (FormatInt errors))] w)
  end.

(** [Run]: one tick at once, then one per interval until the context ends; the
    outcome of a tick is only logged. [None] is the error of a bad interval. *)
Definition Run (p : Pulser) (interval : Z) (first : Time * (string → string → option string))
    (ticks : list (Time * (string → string → option string))) (w : PulseWorld) : option PulseWorld :=
  if interval <=? 0 then None
  else Some (foldl (λ w t, (Tick p t.1 t.2 w).2) w (first :: ticks)).
End Pulse.
#[global] Arguments PulseWorld B : clear implicits.

(** * The pulser follows its history

    The pulser wakes its pane exactly when the inbox holds more than at the
    latest tick that was not a refused wake, or the review is due since the
    latest wake: a run of the pulser over the store is a run of the
    specification over queues and a history of ticks. *)

(** ** The specification *)

Inductive Outcome := Quiet | Woke | Refused.
(** What a tick saw, and what came of it. *)
Record Seen := mkSeen { sn_at : Time; sn_depth : Z; sn_outcome : Outcome }.
(** Histories have the latest tick first. *)
Fixpoint known_depth (h : list Seen) : Z :=
  match h with
  | [] => 0
  | s :: h => match sn_outcome s with Refused => known_depth h | _ => sn_depth s end
  end.
Fixpoint last_wake (now : Time) (h : list Seen) : Time :=
  match h with
  | [] => now
  | s :: h => match sn_outcome s with Woke => sn_at s | _ => last_wake (sn_at s) h end
  end.
Definition review_due (interval : Z) (now : Time) (h : list Seen) : bool :=
  (0 <? interval) && (interval <=? time_sub now (last_wake now h)).
Definition wake_due (interval : Z) (now : Time) (depth : Z) (h : list Seen) : bool :=
  (known_depth h <? depth) || (negb (bool_decide (h = [])) && review_due interval now h).

Inductive PulseEvent :=
| PInbox (op : InboxOp) | PPane (now : Time) (meta : ProjectMeta) | PTick (now : Time) (Send : string → string → option string).
Record PulseSpec := mkSpec { sp_queues : Queues; sp_meta : option ProjectMeta; sp_seen : list Seen; sp_sends : list (string * string) }.
Definition queued (p : Pulser) (qs : Queues) : Z := got (q_named (pu_Project p) qs (λ l, Ok (Z.of_nat (length l)))) 0.
Definition outcome (due : bool) (answer : option string) : Outcome :=
  if due then match answer with None => Woke | Some _ => Refused end else Quiet.
Definition tick_spec (p : Pulser) (now : Time) (Send : string → string → option string) (s : PulseSpec) : PulseSpec :=
  match sp_meta s with
  | None => s
  | Some meta =>
      if String.eqb (pm_PaneRef meta) "" then s else
      let h := sp_seen s in
      let depth := queued p (sp_queues s) in
      let body := buildWakeBody (mkTarget "session" (pm_PaneRef meta) (pu_Interval p)) depth (time_sub now (last_wake now h)) in
      let due := wake_due (pu_Interval p) now depth h in
      mkSpec (sp_queues s) (sp_meta s)
        (mkSeen now depth (outcome due (Send (pm_PaneRef meta) body)) :: h)
        (if due then (pm_PaneRef meta, body) :: sp_sends s else sp_sends s)
  end.
Inductive pulse_step (p : Pulser) : PulseEvent → result DBError Answer → PulseSpec → PulseSpec → Prop :=
| step_inbox op r qs s :
    q_op op (sp_queues s) = (r, qs) → pulse_step p (PInbox op) r s (mkSpec qs (sp_meta s) (sp_seen s) (sp_sends s))
| step_pane now meta v s :
    stored_meta (mkProjectMeta (pm_PaneRef meta) (pm_SurfaceRef meta) (pm_WorkspaceRef meta) now) = Some v →
    pulse_step p (PPane now meta) (Ok Done) s (mkSpec (sp_queues s) (Some v) (sp_seen s) (sp_sends s))
| step_bad_pane now meta s :
    stored_meta (mkProjectMeta (pm_PaneRef meta) (pm_SurfaceRef meta) (pm_WorkspaceRef meta) now) = None →
    pulse_step p (PPane now meta) (Err BadJSON) s s
| step_failed ev s : (∀ now Send, ev ≠ PTick now Send) → pulse_step p ev (Err CommitFailed) s s
| step_tick now Send s : pulse_step p (PTick now Send) (Ok Done) s (tick_spec p now Send s).
Inductive pulse_steps (p : Pulser) : list PulseEvent → list (result DBError Answer) → PulseSpec → PulseSpec → Prop :=
| steps_nil s : pulse_steps p [] [] s s
| steps_cons ev r s1 s2 evs rs s3 :
    pulse_step p ev r s1 s2 → pulse_steps p evs rs s2 s3 → pulse_steps p (ev :: evs) (r :: rs) s1 s3.

Section Pulse.
Context {B : Type → Type} `{BucketLaws B}.
Implicit Types (d : DB B) (w : PulseWorld B).

(** ** Runs of the code *)

Definition pulse_event (p : Pulser) (ev : PulseEvent) w : result DBError Answer * PulseWorld B :=
  match ev with
  | PInbox op => let '(r, d) := inbox_op op (pw_db w) in (r, set_db d w)
  | PPane now meta => let '(r, d) := PutProjectMeta now meta (pw_db w) in (answer (λ _, Done) r, set_db d w)
  | PTick now Send => let '(r, w) := Tick p now Send w in (answer (λ _, Done) r, w)
  end.
Fixpoint pulse_run (p : Pulser) (evs : list PulseEvent) w : list (result DBError Answer) * PulseWorld B :=
  match evs with
  | [] => ([], w)
  | ev :: evs => let '(r, w) := pulse_event p ev w in let '(rs, w) := pulse_run p evs w in (r :: rs, w)
  end.

(** ** The memory of the pulser is a view of the history *)

Definition memory (h : list Seen) : gmap string PulseState :=
  match h with [] => ∅ | s :: _ => {["session" := mkPulseState (known_depth h) (last_wake (sn_at s) h)]} end.
Definition meta_ok d (meta : option ProjectMeta) : Prop :=
  ∃ m, db_meta d = Some m ∧ mt_project m = (Some <$> meta).
Definition related (n : Z) w (s : PulseSpec) : Prop :=
  store_ok n (pw_db w) (sp_queues s) ∧ meta_ok (pw_db w) (sp_meta s) ∧
  pw_mem w = memory (sp_seen s) ∧ pw_sends w = sp_sends s.

Lemma inbox_op_meta op d : db_meta (inbox_op op d).2 = db_meta d.
Proof.
  assert (∀ name (k : B (option InboxMsg) → DM B unit), (∀ b d, db_meta (k b d).2 = db_meta d) →
    db_meta (Update (b ← sessionInboxBucket name; k b) d).2 = db_meta d) as Hb.
  { intros name k Hk. apply Update_frame; [|done]. unfold mbind, M_bind. pose proof (lookup_bucket name d) as Hs.
    destruct (sessionInboxBucket name d) as [[b|e] d1]; cbn in *; subst d1; [apply Hk|done]. }
  destruct op as [name|now name m|name n|name id|name]; cbn [inbox_op].
  - unfold EnsureSessionInbox. destruct (String.eqb name ""); [done|].
    match goal with |- context [Update ?t d] => pose proof (Update_frame db_meta t d) as Hu; destruct (Update t d) end. apply Hu; [|done].
    cbn. destruct (db_inboxes d) as [q|]; [|done]. by destruct (q !! name).
  - unfold PushSessionInbox. destruct (String.eqb name ""); [done|]. destruct (String.eqb (im_ID m) ""); [done|].
    match goal with |- context [Update (sessionInboxBucket name ≫= ?k) d] => specialize (Hb name k) end.
    destruct (Update _ d). apply Hb. intros b d1. unfold mbind, M_bind, lift. by destruct (putInbox _ b).
  - unfold PeekSessionInbox. by destruct (String.eqb name "").
  - unfold AckSessionInbox. destruct (String.eqb name ""); [done|].
    match goal with |- context [Update (sessionInboxBucket name ≫= ?k) d] => specialize (Hb name k) end.
    destruct (Update _ d). apply Hb. intros b d1. by destruct (find_id id (b_entries b)).
  - unfold DepthSessionInbox. by destruct (String.eqb name "").
Qed.
Lemma append_audit_frame at_ action subject detail w :
  let w' := append_audit at_ action subject detail w in
  db_inboxes (pw_db w') = db_inboxes (pw_db w) ∧ db_meta (pw_db w') = db_meta (pw_db w) ∧
  pw_mem w' = pw_mem w ∧ pw_sends w' = pw_sends w.
Proof.
  destruct (AppendAudit_frame at_ (mkAudit at_ action "pulse" subject "" detail) (pw_db w)). by split_and!.
Qed.
Lemma related_audit n w s at_ action subject detail :
  related n w s → related n (append_audit at_ action subject detail w) s.
Proof.
  intros ((m & Hm & Hok & Hq) & (t & Ht & Hp) & Hmem & Hs).
  destruct (append_audit_frame at_ action subject detail w) as (H1 & H2 & H3 & H4).
  split_and!; [exists m|exists t|by rewrite H3|by rewrite H4]; by rewrite ?H1, ?H2.
Qed.

(** ** One tick *)

Lemma targets_spec n w s p :
  related n w s →
  collectTargets p (pw_db w) =
  Ok (match sp_meta s with
      | Some meta => if String.eqb (pm_PaneRef meta) "" then [] else [mkTarget "session" (pm_PaneRef meta) (pu_Interval p)]
      | None => []
      end).
Proof.
  intros (_ & (m & Hm & Hp) & _). unfold collectTargets, GetProjectMeta, View, must, mbind, M_bind. rewrite Hm. cbn.
  rewrite Hp. by destruct (sp_meta s).
Qed.
Lemma depth_seen n w s p : related n w s → got (inboxDepth p (pw_db w)) 0 = queued p (sp_queues s).
Proof.
  intros (Hs & _). unfold inboxDepth, queued. rewrite (depth_spec n _ _ (pu_Project p) Hs). unfold q_named.
  destruct (String.eqb (pu_Project p) ""); [done|]. by destruct (sp_queues s !! pu_Project p).
Qed.
Lemma trigger_due p now depth h :
  match trigger (known_depth h <? depth) (review_due (pu_Interval p) now h) (negb (bool_decide (h = []))) with
  | TriggerNone => false | _ => true
  end = wake_due (pu_Interval p) now depth h.
Proof. unfold trigger, wake_due. by destruct (_ <? _), (review_due _ _ _), (bool_decide (h = [])). Qed.
(** A first tick is never due for review. *)
Lemma memory_lookup h now :
  default (mkPulseState 0 now) (memory h !! "session") = mkPulseState (known_depth h) (last_wake now h) ∧
  bool_decide (is_Some (memory h !! "session")) = negb (bool_decide (h = [])).
Proof.
  destruct h as [|s h]; [done|]. unfold memory. rewrite lookup_singleton_eq. cbn. by destruct (sn_outcome s).
Qed.
Lemma memory_insert h st : <["session" := st]> (memory h) = {["session" := st]}.
Proof. destruct h as [|s h]; [done|]. unfold memory. by rewrite insert_singleton_eq. Qed.

Lemma evaluate_spec n w s p now Send pane meta :
  related n w s → sp_meta s = Some meta → pm_PaneRef meta = pane → pane ≠ "" →
  related n (evaluate p now Send (mkTarget "session" pane (pu_Interval p)) w).2 (tick_spec p now Send s).
Proof.
  intros Hr Hmeta Hpane Hne. unfold tick_spec. rewrite Hmeta, Hpane, (proj2 (String.eqb_neq pane "") Hne). cbv zeta.
  pose proof Hr as (Hs & Hm & Hmem & Hsends). unfold evaluate. cbv zeta. rewrite (depth_seen n w s p Hr), Hmem. cbn [tg_ID tg_Cadence tg_PaneRef].
  destruct (memory_lookup (sp_seen s) now) as [Hl Hb]. rewrite Hl, Hb. cbn [LastInboxDepth LastWakeAt].
  set (depth := queued p (sp_queues s)). set (h := sp_seen s) in *. fold (review_due (pu_Interval p) now h).
  rewrite <- (trigger_due p now depth h).
  set (body := buildWakeBody _ depth _).
  assert (∀ x w', store_ok n (pw_db w') (sp_queues s) → meta_ok (pw_db w') (sp_meta s) →
    pw_mem w' = {["session" := mkPulseState (known_depth (x :: h)) (last_wake (sn_at x) (x :: h))]} →
    ∀ l, pw_sends w' = l → related n w' (mkSpec (sp_queues s) (sp_meta s) (x :: h) l)) as Hnew by (by intros; split_and!).
  rewrite Hmeta in Hnew.
  destruct (trigger _ _ _); [| | |cbn [snd outcome]; apply Hnew; cbn;
    [done|by rewrite <- Hmeta|by rewrite Hmem, !memory_insert, ?insert_singleton_eq|done]].
  all: destruct (Send pane body) as [err|]; cbn [snd outcome];
    (apply related_audit, Hnew; cbn;
     [done|by rewrite <- Hmeta|by rewrite Hmem, ?memory_insert, ?insert_singleton_eq|by rewrite Hsends]).
Qed.
Lemma Tick_spec n w s p now Send :
  related n w s → is_ok (Tick p now Send w).1 = true ∧ related n (Tick p now Send w).2 (tick_spec p now Send s).
Proof.
  intros Hr. unfold Tick. rewrite (targets_spec n w s p Hr). pose proof (evaluate_spec n w s p now Send) as He.
  unfold tick_spec in *. destruct (sp_meta s) as [meta|]; [|split; [done|by apply related_audit]].
  destruct (String.eqb_spec (pm_PaneRef meta) "") as [Hp|Hp]; [split; [done|by apply related_audit]|].
  specialize (He _ meta Hr eq_refl eq_refl Hp). cbv iota in He.
  cbn [evaluate_all]. destruct (evaluate p now Send _ w) as [dec w1]. split; [done|]. by apply related_audit.
Qed.

(** ** Runs *)

Lemma related_queues n w qs d s :
  related n w s → store_ok n d qs → db_meta d = db_meta (pw_db w) →
  related n (set_db d w) (mkSpec qs (sp_meta s) (sp_seen s) (sp_sends s)).
Proof. intros (_ & (m & Hm & Hp) & Hmem & Hs) Hd Hmeta. split_and!; try done. exists m. cbn. by rewrite Hmeta. Qed.
Lemma spec_eta s : mkSpec (sp_queues s) (sp_meta s) (sp_seen s) (sp_sends s) = s.
Proof. by destruct s. Qed.
Lemma pane_step n w s p now meta :
  related n w s →
  let '(r, w') := pulse_event p (PPane now meta) w in ∃ s', pulse_step p (PPane now meta) r s s' ∧ related n w' s'.
Proof.
  intros Hr. pose proof Hr as ((q & Hq & Hok & Heq) & (m & Hm & Hp) & Hmem & Hs). cbn [pulse_event]. unfold PutProjectMeta.
  destruct (stored_meta _) as [v|] eqn:Hv.
  - unfold Update, must, modify, mbind, M_bind. rewrite Hm. cbn.
    assert (∀ d, db_inboxes d = db_inboxes (pw_db w) → db_meta d = Some (mkMeta (mt_schema m) (Some (Some v))) →
      related n (set_db d w) (mkSpec (sp_queues s) (Some v) (sp_seen s) (sp_sends s))) as Hd.
    { intros d H1 H2. split_and!; [exists q; cbn; by rewrite H1|by eexists|done..]. }
    destruct (db_commits (pw_db w)) as [|[] rest]; [eexists; split; [by apply step_pane|by apply Hd]..|].
    exists s. split; [by apply step_failed|]. split_and!; [by exists q|by exists m|done..].
  - exists s. split; [by apply step_bad_pane|]. by destruct w.
Qed.
Lemma event_step n w s p ev :
  related n w s → 0 ≤ n < u64_max →
  let '(r, w') := pulse_event p ev w in ∃ s', pulse_step p ev r s s' ∧ related (n + 1) w' s'.
Proof.
  intros Hr Hn. assert (∀ w s, related n w s → related (n + 1) w s) as Hlater.
  { intros w1 s1 (H1 & H2 & H3). split; [|done]. eapply store_ok_later; [|exact H1]. lia. }
  destruct ev as [op|now meta|now Send].
  - cbn [pulse_event]. pose proof (refined_op n (pw_db w) (sp_queues s) op ltac:(apply Hr) Hn) as Ho. unfold refined in Ho.
    pose proof (inbox_op_meta op (pw_db w)) as Hmeta. destruct (inbox_op op (pw_db w)) as [r d] eqn:Hop.
    destruct (q_op op (sp_queues s)) as [r' qs] eqn:Hq. apply Hlater in Hr. destruct Ho as [[Hd ->]|[Hd ->]].
    + eexists. split; [by eapply step_inbox|]. by eapply related_queues.
    + exists s. split; [by apply step_failed|]. rewrite <- (spec_eta s). by eapply related_queues.
  - pose proof (pane_step n w s p now meta Hr) as Hp. destruct (pulse_event p (PPane now meta) w) as [r w'].
    destruct Hp as (s' & Hs & Hr'). exists s'. split; [done|by apply Hlater].
  - cbn [pulse_event]. destruct (Tick_spec n w s p now Send Hr) as [Hok Hr']. destruct (Tick p now Send w) as [[r|e] w']; [|done].
    eexists. split; [apply step_tick|by apply Hlater].
Qed.
Lemma run_steps p evs n w s rs w' :
  related n w s → 0 ≤ n → n + Z.of_nat (length evs) < u64_max → pulse_run p evs w = (rs, w') →
  ∃ s', pulse_steps p evs rs s s' ∧ pw_sends w' = sp_sends s'.
Proof.
  revert n w s rs. induction evs as [|ev evs IH]; intros n w s rs Hr Hn Hlen; cbn [pulse_run length] in *.
  { intros [= <- <-]. exists s. split; [constructor|]. by destruct Hr as (_ & _ & _ & ?). }
  pose proof (event_step n w s p ev Hr ltac:(lia)) as He. destruct (pulse_event p ev w) as [r w1].
  destruct He as (s1 & Hs1 & Hr1). destruct (pulse_run p evs w1) as [rs1 w2] eqn:Hrun. intros [= <- <-].
  destruct (IH (n + 1) w1 s1 rs1 Hr1 ltac:(lia) ltac:(lia) Hrun) as (s2 & Hs2 & Heq). exists s2. split; [by econstructor|done].
Qed.

(** C34: whatever is queued, acknowledged and registered between the ticks, and
    whatever the terminal answers, the pulser calls the terminal exactly as the
    specification does: a tick wakes the registered pane once when more is queued
    than at the latest tick that was not a refused wake, or when the review
    interval has passed since the latest wake or the first tick; a refused wake is
    tried again at the next tick, and the first tick never wakes for review. A
    tick always succeeds. *)
Theorem pulse_wakes_when_due commits d p evs rs w :
  init (new_db commits) = (Ok tt, d) → pulse_run p evs (new_pulse d) = (rs, w) → Z.of_nat (length evs) < u64_max →
  ∃ s, pulse_steps p evs rs (mkSpec ∅ None [] []) s ∧ pw_sends w = sp_sends s.
Proof.
  intros Hi Hrun Hlen. eapply (run_steps p evs 0); [|lia|lia|exact Hrun]. split_and!; [by eapply init_ok| |done..].
  unfold init, Update in Hi. cbn in Hi. destruct commits as [|[] rest]; revert Hi; intros [= <-]; by eexists.
Qed.
End Pulse.
