(* ===== verification/PulseSupervisor.v ===== *)
(** daemon/pulse_supervisor.go: one pulser per project found on disk, each with
    the store of its project open. The calls that the supervisor makes are its
    effects; what the disk answers is an input. The second half proves the lives
    of the stores. *)

From S2P Require Import Prelude GoText GoPath.
From stdpp Require Import base gmap strings list.
From Stdlib Require Import ZArith Lia Ascii.

Open Scope Z_scope.

(** ** internal/manager/paths *)

Definition slug_rest (c : ascii) : bool :=
  is_alnum c || char_is "_" c || char_is "." c || char_is "-" c.
(** [Validate] *)
Definition valid_slug (slug : string) : bool := head_tail is_alnum slug_rest 0 63 slug.
(** [ForProject(dataRoot, "", slug).StateBolt] *)
Definition StateBolt (dataRoot slug : string) : string := filepath_Join (filepath_Join (filepath_Join dataRoot "arcmux") slug) "state.bolt".

(** ** Discovery *)

(** What the disk holds: the entries of a directory in order, with whether each
    is a directory; and whether a path is there and is a directory. *)
Inductive DirRead := DirEntries (l : list (string * bool)) | DirMissing | DirUnreadable.
Record DiskView := mkDiskView { dv_read : string → DirRead; dv_stat : string → option bool }.
(** [None]: the directory could not be read. *)
Definition scanProjects (disk : DiskView) (dataRoot : string) : option (list string) :=
  let root := filepath_Join dataRoot "arcmux" in
  match dv_read disk root with
  | DirMissing => Some []
  | DirUnreadable => None
  | DirEntries l =>
      Some (omap (λ e,
        if negb e.2 then None else if negb (valid_slug e.1) then None else
        match dv_stat disk (filepath_Join (filepath_Join root e.1) "state.bolt") with Some false => Some e.1 | _ => None end) l)
  end.

(** ** Supervision *)

Record PulseEntry := mkEntry { pe_slug : string; pe_bolt : string }.
Inductive PulserCall :=
| OpenStore (slug path : string) (ok : bool) | StartPulser (slug : string)
| CancelPulser (slug : string) | DrainPulser (slug : string) | CloseStore (slug : string).
Abbreviation Projects := (gmap string PulseEntry).
(** What a scan finds, and which stores open then; and the order in which Go
    ranges over a map. *)
Record Discovery := mkDiscovery { ds_slugs : option (list string); ds_opens : string → bool }.
Class MapOrder := { range : Projects → list (string * PulseEntry); range_perm m : range m ≡ₚ map_to_list m }.

Section Supervisor.
Context `{MapOrder} (boltPathFor : string → string).

Definition startProject (opens : string → bool) (slug : string) (projects : Projects) : list PulserCall * Projects :=
  let path := boltPathFor slug in
  if opens slug
  then ([OpenStore slug path true; StartPulser slug], <[slug := mkEntry slug path]> projects)
  else ([OpenStore slug path false], projects).
Fixpoint start_new (opens : string → bool) (slugs : list string) (projects : Projects) : list PulserCall * Projects :=
  match slugs with
  | [] => ([], projects)
  | slug :: slugs =>
      let '(calls, projects) :=
        if bool_decide (is_Some (projects !! slug)) then ([], projects) else startProject opens slug projects in
      let '(more, projects) := start_new opens slugs projects in
      (calls ++ more, projects)
  end.
Definition stop_calls (e : PulseEntry) : list PulserCall := [CancelPulser (pe_slug e); DrainPulser (pe_slug e); CloseStore (pe_slug e)].
Definition rescan (d : Discovery) (projects : Projects) : list PulserCall * Projects :=
  match ds_slugs d with
  | None => ([], projects)
  | Some slugs =>
      let toStop := filter (λ x, x.1 ∉ slugs) (range projects) in
      let kept := filter (λ x, x.1 ∈ slugs) projects in
      let '(calls, projects) := start_new (ds_opens d) slugs kept in
      ((toStop.*2 ≫= stop_calls) ++ calls, projects)
  end.
Definition shutdownAll (projects : Projects) : list PulserCall :=
  let entries := (range projects).*2 in
  (CancelPulser ∘ pe_slug <$> entries) ++ (entries ≫= λ e, [DrainPulser (pe_slug e); CloseStore (pe_slug e)]).
Definition Supervised (projects : Projects) : list string := (range projects).*1.

Record ParsedPulse := mkParsedPulse { pp_Enabled : bool; pp_DiscoveryInterval : Z; pp_Interval : Z }.
Fixpoint rescans (ds : list Discovery) (projects : Projects) : list PulserCall * Projects :=
  match ds with
  | [] => ([], projects)
  | d :: ds =>
      let '(calls, projects) := rescan d projects in
      let '(more, projects) := rescans ds projects in
      (calls ++ more, projects)
  end.
Inductive RunEnd := RunDisabled | RunBadDiscoveryInterval | RunBadInterval | RunCancelled.
(** [Run]: a scan at once and one per tick, until the context ends. *)
Definition Supervisor_Run (cfg : ParsedPulse) (first : Discovery) (ticks : list Discovery) : RunEnd * list PulserCall :=
  if negb (pp_Enabled cfg) then (RunDisabled, []) else
  if pp_DiscoveryInterval cfg <=? 0 then (RunBadDiscoveryInterval, []) else
  if pp_Interval cfg <=? 0 then (RunBadInterval, []) else
  let '(calls, projects) := rescans (first :: ticks) ∅ in
  (RunCancelled, calls ++ shutdownAll projects).
End Supervisor.

(** * The lives of the stores

    Every store the supervisor opens goes through one life: opened while
    closed, pulsed, cancelled, drained, closed. *)

(** ** The specification *)

Inductive Phase := Closed | Opened | Running | Cancelled | Drained.
Definition next_phase (ph : Phase) (c : PulserCall) : option Phase :=
  match ph, c with
  | Closed, OpenStore _ _ ok => Some (if ok then Opened else Closed)
  | Opened, StartPulser _ => Some Running
  | Running, CancelPulser _ => Some Cancelled
  | Cancelled, DrainPulser _ => Some Drained
  | Drained, CloseStore _ => Some Closed
  | _, _ => None
  end.
Definition call_slug (c : PulserCall) : string :=
  match c with OpenStore s _ _ | StartPulser s | CancelPulser s | DrainPulser s | CloseStore s => s end.
(** Where a project is after the calls; [None] when they do not follow the
    order. *)
Fixpoint life (slug : string) (calls : list PulserCall) (ph : Phase) : option Phase :=
  match calls with
  | [] => Some ph
  | c :: calls => if String.eqb (call_slug c) slug then next_phase ph c ≫= life slug calls else life slug calls ph
  end.
(** Whether a project is supervised after the scans. *)
Fixpoint supervised_after (slug : string) (ds : list Discovery) (b : bool) : bool :=
  match ds with
  | [] => b
  | d :: ds =>
      supervised_after slug ds
        (match ds_slugs d with None => b | Some slugs => bool_decide (slug ∈ slugs) && (b || ds_opens d slug) end)
  end.

Section Facts.
Context `{MapOrder} (boltPathFor : string → string).
Implicit Types (m : Projects).

Lemma life_app slug a b ph : life slug (a ++ b) ph = life slug a ph ≫= life slug b.
Proof.
  revert ph. induction a as [|c a IH]; intros ph; [done|]. cbn [app life]. destruct (String.eqb _ _); [|by apply IH].
  destruct (next_phase ph c) as [ph'|]; cbn; [by apply IH|done].
Qed.
(** Calls made once for each of a list of projects. *)
Lemma life_each (f : PulseEntry → list PulserCall) ph ph' (l : list (string * PulseEntry)) slug :
  (∀ s ph0, s ≠ slug → ∀ e, pe_slug e = s → life slug (f e) ph0 = Some ph0) →
  (slug ∈ l.*1 → ∀ e, pe_slug e = slug → life slug (f e) ph = Some ph') →
  (∀ x, x ∈ l → pe_slug x.2 = x.1) → NoDup l.*1 →
  life slug (l.*2 ≫= f) ph = Some (if bool_decide (slug ∈ l.*1) then ph' else ph).
Proof.
  intros Hother Hown Hl Hnd.
  assert (∀ ph0 l, (∀ x : string * PulseEntry, x ∈ l → pe_slug x.2 = x.1) → slug ∉ l.*1 → life slug (l.*2 ≫= f) ph0 = Some ph0) as Hnone.
  { intros ph0 l0. induction l0 as [|x l0 IH]; intros Hl0 Hn; [done|]. cbn in Hn. apply not_elem_of_cons in Hn as [Hx Hn].
    cbn. rewrite life_app, (Hother x.1) by (done || (apply Hl0; by left)). cbn. apply IH; [|done]. intros y Hy. apply Hl0. by right. }
  destruct (bool_decide_reflect (slug ∈ l.*1)) as [Hin|Hn]; [|by apply Hnone].
  induction l as [|x l IH]; [by apply elem_of_nil in Hin|]. cbn in Hnd, Hin. apply NoDup_cons in Hnd as [Hx Hnd]. cbn. rewrite life_app.
  destruct (decide (slug = x.1)) as [->|Hne].
  - rewrite Hown by (done || (by left) || (apply Hl; by left)). cbn. apply Hnone; [|done]. intros y Hy. apply Hl. by right.
  - apply elem_of_cons in Hin as [Hin|Hin]; [done|]. rewrite (Hother x.1) by (done || (apply Hl; by left)). cbn.
    apply IH; [by intros _; apply Hown; right|intros y Hy; apply Hl; by right|done..].
Qed.

Definition entries_ok m : Prop := map_Forall (λ slug e, e = mkEntry slug (boltPathFor slug)) m.
Definition phase m (slug : string) : Phase := if bool_decide (is_Some (m !! slug)) then Running else Closed.

Lemma elem_of_range m x : x ∈ range m ↔ m !! x.1 = Some x.2.
Proof. rewrite range_perm. destruct x as [k e]. by rewrite elem_of_map_to_list. Qed.
Lemma range_NoDup m : NoDup (range m).*1.
Proof. rewrite range_perm. apply NoDup_fst_map_to_list. Qed.
Lemma elem_of_keys m slug : slug ∈ (range m).*1 ↔ is_Some (m !! slug).
Proof.
  split; [intros (x & -> & Hx)%list_elem_of_fmap; apply elem_of_range in Hx; by eexists|].
  intros [e He]. apply list_elem_of_fmap. exists (slug, e). split; [done|]. by apply elem_of_range.
Qed.

Lemma start_new_spec opens slugs m :
  entries_ok m →
  let '(calls, m') := start_new boltPathFor opens slugs m in
  entries_ok m' ∧ (∀ slug, life slug calls (phase m slug) = Some (phase m' slug)) ∧
  ∀ slug, is_Some (m' !! slug) ↔ is_Some (m !! slug) ∨ (slug ∈ slugs ∧ opens slug = true).
Proof.
  revert m. induction slugs as [|s slugs IH]; intros m Hm; cbn [start_new].
  { split_and!; [done..|]. intros slug. rewrite elem_of_nil. tauto. }
  destruct (bool_decide_reflect (is_Some (m !! s))) as [Hs|Hs].
  - specialize (IH m Hm). destruct (start_new _ _ slugs m) as [calls m']. destruct IH as (H1 & H2 & H3).
    split_and!; [done..|]. intros slug. rewrite H3, elem_of_cons. split; [tauto|]. intros [?|[[->|?] ?]]; tauto.
  - unfold startProject. destruct (opens s) eqn:Ho.
    + set (m1 := <[s := mkEntry s (boltPathFor s)]> m). assert (entries_ok m1) as Hm1 by (by apply map_Forall_insert_2).
      specialize (IH m1 Hm1). destruct (start_new _ _ slugs m1) as [calls m']. destruct IH as (H1 & H2 & H3). split; [done|]. split.
      * intros slug. rewrite life_app. cbn [life call_slug]. specialize (H2 slug). revert H2. unfold phase at 1 3, m1.
        destruct (String.eqb_spec s slug) as [<-|Hne].
        -- rewrite lookup_insert_eq, (bool_decide_false _ Hs). cbn. done.
        -- by rewrite lookup_insert_ne.
      * intros slug. rewrite H3. unfold m1. rewrite elem_of_cons. destruct (decide (slug = s)) as [->|Hne].
        -- rewrite lookup_insert_eq. split; [intros _; by right; split; [left|]|intros _; left; by eexists].
        -- rewrite lookup_insert_ne by done. split; [tauto|]. intros [?|[[?|?] ?]]; tauto.
    + specialize (IH m Hm). destruct (start_new _ _ slugs m) as [calls m']. destruct IH as (H1 & H2 & H3). split; [done|]. split.
      * intros slug. rewrite life_app, <- H2. cbn [life call_slug]. destruct (String.eqb_spec s slug) as [<-|Hne]; [|done].
        unfold phase. by rewrite (bool_decide_false _ Hs).
      * intros slug. rewrite H3, elem_of_cons. split; [tauto|]. intros [?|[[->|?] ?]]; [by left|congruence|tauto].
Qed.
Lemma stop_life slug e ph :
  life slug (stop_calls e) ph =
  if String.eqb (pe_slug e) slug then match ph with Running => Some Closed | _ => None end else Some ph.
Proof. cbn. destruct (String.eqb (pe_slug e) slug); [|done]. by destruct ph. Qed.

Lemma rescan_spec d m :
  entries_ok m →
  let '(calls, m') := rescan boltPathFor d m in
  entries_ok m' ∧ (∀ slug, life slug calls (phase m slug) = Some (phase m' slug)) ∧
  ∀ slug, bool_decide (is_Some (m' !! slug)) = supervised_after slug [d] (bool_decide (is_Some (m !! slug))).
Proof.
  intros Hm. unfold rescan. cbn [supervised_after]. destruct (ds_slugs d) as [slugs|]; [|by split_and!].
  set (kept := filter (λ x, x.1 ∈ slugs) m).
  assert (entries_ok kept) as Hk by (intros s e [He _]%map_lookup_filter_Some; by apply Hm).
  pose proof (start_new_spec (ds_opens d) slugs kept Hk) as Hs.
  destruct (start_new _ _ slugs kept) as [calls m']. destruct Hs as (H1 & H2 & H3).
  assert (∀ slug, is_Some (kept !! slug) ↔ is_Some (m !! slug) ∧ slug ∈ slugs) as Hkept.
  { intros slug. unfold kept. split.
    - intros [e [He Hi]%map_lookup_filter_Some]. by split; [eexists|].
    - intros [[e He] Hi]. exists e. by apply map_lookup_filter_Some. }
  split_and!; [done| |].
  - intros slug. rewrite life_app, (life_each _ _ Closed).
    + assert (bool_decide (slug ∈ (filter (λ x, x.1 ∉ slugs) (range m)).*1) = bool_decide (is_Some (m !! slug) ∧ slug ∉ slugs)) as ->.
      { apply bool_decide_ext. split.
        - intros (x & -> & [Hn Hx]%list_elem_of_filter)%list_elem_of_fmap. apply elem_of_range in Hx. by split; [eexists|].
        - intros [[e He] Hn]. apply list_elem_of_fmap. exists (slug, e). split; [done|]. apply list_elem_of_filter. by split; [|apply elem_of_range]. }
      cbn. rewrite <- H2. f_equal. unfold phase.
      rewrite (bool_decide_ext (is_Some (kept !! slug)) (is_Some (m !! slug) ∧ slug ∈ slugs)) by apply Hkept.
      repeat case_bool_decide; tauto.
    + intros s ph0 Hne e He. rewrite stop_life, He. by rewrite (proj2 (String.eqb_neq s slug) Hne).
    + intros (x & -> & [_ Hx]%list_elem_of_filter)%list_elem_of_fmap e He. apply elem_of_range in Hx.
      rewrite stop_life, He, String.eqb_refl. unfold phase. by rewrite bool_decide_true by (by eexists).
    + intros x [_ Hx]%list_elem_of_filter. apply elem_of_range in Hx. by rewrite (Hm _ _ Hx).
    + eapply sublist_NoDup; [apply range_NoDup|]. apply fmap_sublist, sublist_filter.
  - intros slug. rewrite (bool_decide_ext _ _ (H3 slug)). specialize (Hkept slug).
    destruct (ds_opens d slug); repeat case_bool_decide; cbn; done || intuition congruence.
Qed.
Lemma shutdown_life m slug : entries_ok m → life slug (shutdownAll m) (phase m slug) = Some Closed.
Proof.
  intros Hm. unfold shutdownAll. rewrite life_app.
  assert (∀ l : list (string * PulseEntry), CancelPulser ∘ pe_slug <$> l.*2 = l.*2 ≫= λ e, [CancelPulser (pe_slug e)]) as ->.
  { induction l as [|x l IH]; [done|]. cbn. by f_equal. }
  assert (∀ x, x ∈ range m → pe_slug x.2 = x.1) as Hl by (intros x Hx%elem_of_range; by rewrite (Hm _ _ Hx)).
  assert (∀ s, s ≠ slug → String.eqb s slug = false) as Hne by (intros; by apply String.eqb_neq).
  rewrite (life_each _ _ Cancelled); [|by intros s ph0 Hs e He; cbn; rewrite He, Hne| |done|apply range_NoDup].
  2: { intros [e0 He0]%elem_of_keys e He. cbn. rewrite He, String.eqb_refl. unfold phase. by rewrite bool_decide_true by (by eexists). }
  cbn. rewrite (bool_decide_ext _ _ (elem_of_keys m slug)). unfold phase.
  destruct (bool_decide_reflect (is_Some (m !! slug))) as [Hs|Hs].
  - rewrite (life_each _ _ Closed); [by rewrite bool_decide_true by (by apply elem_of_keys)| | |done|apply range_NoDup].
    + intros s ph0 Hs0 e He. cbn. by rewrite He, Hne.
    + intros _ e He. cbn. by rewrite He, String.eqb_refl.
  - rewrite (life_each _ _ Closed); [by rewrite bool_decide_false by (by rewrite elem_of_keys)| | |done|apply range_NoDup].
    + intros s ph0 Hs0 e He. cbn. by rewrite He, Hne.
    + by intros Hin%elem_of_keys.
Qed.
Lemma rescans_spec ds m :
  entries_ok m →
  let '(calls, m') := rescans boltPathFor ds m in
  entries_ok m' ∧ (∀ slug, life slug calls (phase m slug) = Some (phase m' slug)) ∧
  ∀ slug, bool_decide (is_Some (m' !! slug)) = supervised_after slug ds (bool_decide (is_Some (m !! slug))).
Proof.
  revert m. induction ds as [|d ds IH]; intros m Hm; cbn [rescans]; [by split_and!|].
  pose proof (rescan_spec d m Hm) as Hr. destruct (rescan boltPathFor d m) as [calls m1]. destruct Hr as (H1 & H2 & H3).
  specialize (IH m1 H1). destruct (rescans boltPathFor ds m1) as [more m2]. destruct IH as (H4 & H5 & H6). split_and!; [done| |].
  - intros slug. rewrite life_app, H2. apply H5.
  - intros slug. by rewrite H6, H3.
Qed.

(** C35: whatever the scans find and whichever stores open, in whatever order Go
    ranges over the projects: a project is supervised exactly when it has been
    found by every scan that could be read since one at which its store opened;
    then its store is open and its pulser runs; a store is opened only while it is
    closed, and closed only once its pulser, cancelled before, has ended; and when
    the supervisor ends every store is closed. *)
Theorem supervisor_lives cfg first ticks slug :
  let '(calls, projects) := rescans boltPathFor (first :: ticks) ∅ in
  life slug calls Closed = Some (if bool_decide (slug ∈ Supervised projects) then Running else Closed) ∧
  bool_decide (slug ∈ Supervised projects) = supervised_after slug (first :: ticks) false ∧
  life slug (Supervisor_Run boltPathFor cfg first ticks).2 Closed = Some Closed.
Proof.
  assert (entries_ok ∅) as H0 by apply map_Forall_empty.
  pose proof (rescans_spec (first :: ticks) ∅ H0) as Hr. unfold Supervisor_Run.
  destruct (rescans boltPathFor (first :: ticks) ∅) as [calls m]. destruct Hr as (H1 & H2 & H3). specialize (H2 slug). specialize (H3 slug).
  unfold Supervised. rewrite (bool_decide_ext _ _ (elem_of_keys m slug)). split_and!; [done|done|].
  destruct (negb _); [done|]. destruct (pp_DiscoveryInterval cfg <=? 0); [done|]. destruct (pp_Interval cfg <=? 0); [done|].
  cbn [snd]. rewrite life_app. change Closed with (phase ∅ slug) at 1. rewrite H2. by apply shutdown_life.
Qed.
End Facts.
