(* ===== verification/SendInbox.v ===== *)
(** daemon/grpc_c1.go with the parts of daemon/daemon.go it drives: messages to
    a session by name, delivered at once or queued in its inbox, and the draining
    of the inbox when the session is announced idle. A step of a handler is one
    access to what handlers share; runs are lists of steps of many handlers. *)

From S2P Require Import Prelude GoText RuneText MeshTypes GoJson HookState Session Bolt Inbox.
From stdpp Require Import base gmap strings list.
From Stdlib Require Import ZArith Lia Ascii.

Open Scope Z_scope.

(** ** Identities of messages (store/types.go) *)

Definition hex_digit (n : Z) : ascii := if n <? 10 then digit n else byte_ascii (87 + n).
(** [hex.EncodeToString] *)
Definition hex_bytes (l : list Z) : string :=
  foldr (λ b s, String (hex_digit (b / 16)) (String (hex_digit (b mod 16)) s)) "" l.
Definition NewInboxID (now : Time) (random : list Z) : string :=
  FormatInt (s64 (t_ns now - unix_epoch)) +:+ "-" +:+ hex_bytes random.

(** ** Readiness *)

Definition freshSpawnWindow : Z := 10000000000.
Definition isFreshSpawn (now : Time) (snap : Session) : bool :=
  match ses_State snap with
  | StateStarting | StateHandshaking =>
      if IsZero (ses_StartedAt snap) then false else time_sub now (ses_StartedAt snap) <=? freshSpawnWindow
  | _ => false
  end.
Definition sessionReady (now : Time) (snap : Session) : bool :=
  if bool_decide (ses_State snap = StateIdle) then true else isFreshSpawn now snap.
Definition isSpawnTransient (snap : Session) : bool :=
  match ses_State snap with StateStarting | StateHandshaking => true | _ => false end.

(** ** State *)

Record SendRequest := mkSendRequest { sr_SessionName : string; sr_Body : string; sr_From : string; sr_ForceDirect : bool }.
Inductive SendAnswer :=
| SendInvalid | SendNotFound | SendUnavailable | SendInternal | SendDelivered (msgID : string) | SendQueued (msgID : string).
(** Where a [Send] is: before the readiness decision, with the transport, setting
    the state the delivery leaves, and at its two store operations. *)
Inductive SendAt := AtReady | AtDeliver | AtSettle (taken : bool) | AtEnsure | AtPush.
Record SendOp := mkSendOp { so_req : SendRequest; so_sid : string; so_id : string; so_at : SendAt }.
(** Where a drain is: about to check readiness, to read the inbox, with the
    transport, setting the state, and at its acknowledgement. *)
Inductive DrainAt :=
| DrainCheck | DrainPeek (name : string) | DrainDeliver (name : string) (m : InboxMsg)
| DrainSettle (name : string) (m : InboxMsg) (taken : bool) | DrainAck (name : string) (m : InboxMsg).
(** A prompt the transport of a session has taken; of a drain, with its message. *)
Record Taken := mkTaken { tk_sid : string; tk_body : string; tk_msg : option (string * string) }.

Section Daemon.
Context {B : Type → Type} `{BucketLib B}.

Record Daemon := mkDaemon {
  dm_sessions : gmap string Session;
  dm_state : option (DB B);
  dm_taken : list Taken;
  dm_sends : gmap nat SendOp;
  dm_drains : gmap nat (string * DrainAt) }.
Definition set_sessions (m : gmap string Session) (w : Daemon) : Daemon :=
  mkDaemon m (dm_state w) (dm_taken w) (dm_sends w) (dm_drains w).
Definition set_store (d : DB B) (w : Daemon) : Daemon :=
  mkDaemon (dm_sessions w) (Some d) (dm_taken w) (dm_sends w) (dm_drains w).
Definition hand_over (t : Taken) (w : Daemon) : Daemon :=
  mkDaemon (dm_sessions w) (dm_state w) (dm_taken w ++ [t]) (dm_sends w) (dm_drains w).
Definition set_send (k : nat) (op : option SendOp) (w : Daemon) : Daemon :=
  mkDaemon (dm_sessions w) (dm_state w) (dm_taken w) (partial_alter (λ _, op) k (dm_sends w)) (dm_drains w).
Definition set_drain (k : nat) (op : option (string * DrainAt)) (w : Daemon) : Daemon :=
  mkDaemon (dm_sessions w) (dm_state w) (dm_taken w) (dm_sends w) (partial_alter (λ _, op) k (dm_drains w)).
Definition send_goes (at_ : SendAt) (op : SendOp) : SendOp := mkSendOp (so_req op) (so_sid op) (so_id op) at_.

(** ** Audit rows *)

Definition with_member (k : string) (v : json) (l : list (string * json)) : list (string * json) :=
  if bool_decide (k ∈ l.*1) then l else l ++ [(k, v)].
Definition auditSessionEvent (now : Time) (action : string) (snap : Session) (detail : list (string * json)) (d : DB B) : DB B :=
  let detail := if String.eqb (ses_OwnerID snap) "" then detail else with_member "owner_id" (JString (ses_OwnerID snap)) detail in
  let detail := with_member "session_id" (JString (ses_ID snap)) detail in
  (AppendAudit now (mkAudit now action "arcmux" (ses_Name snap) "" detail) d).2.
(** On the store of the daemon, for a session it may not have. *)
Definition audit_on (now : Time) (action sid : string) (detail : list (string * json)) (w : Daemon) : Daemon :=
  match dm_state w, dm_sessions w !! sid with
  | Some d, Some s => set_store (auditSessionEvent now action s detail d) w
  | _, _ => w
  end.

(** ** Delivery to a session *)

(** [SendPrompt], whose lookups succeed for a session of the daemon, hands the
    text to the transport; this is the state that it sets after that on tmux. The
    exec transport sets the state itself. *)
Definition settle (now : Time) (taken : bool) (body : string) (s : Session) : Session :=
  if String.eqb (ses_Transport s) "exec" then s
  else if taken then ResetNudge (SetState StateWorking now (SetCurrentCommand (truncatePreview body 200) s))
  else SetState StateStuck now s.
Definition settle_on (now : Time) (sid : string) (taken : bool) (body : string) (w : Daemon) : Daemon :=
  set_sessions (alter (settle now taken body) sid (dm_sessions w)) w.

(** ** [Send] *)

(** The checks before the readiness window. [found] is a session that ranging
    over the sessions may find under the name; [random] the bytes of the new
    identity, if the source of randomness gives any. *)
Definition found_by_name (name : string) (found : option string) (w : Daemon) : bool :=
  match found with
  | Some sid => match dm_sessions w !! sid with Some s => String.eqb (ses_Name s) name | None => false end
  | None => bool_decide (map_Forall (λ _ s, ses_Name s ≠ name) (dm_sessions w))
  end.
Definition send_begin (k : nat) (req : SendRequest) (found : option string) (now : Time) (random : option (list Z)) (w : Daemon)
  : option SendAnswer * Daemon :=
  if String.eqb (sr_SessionName req) "" then (Some SendInvalid, w) else
  if String.eqb (sr_Body req) "" then (Some SendInvalid, w) else
  match found with
  | None => (Some SendNotFound, w)
  | Some sid =>
      match dm_state w with
      | None => (Some SendUnavailable, w)
      | Some _ =>
          match random with
          | None => (Some SendInternal, w)
          | Some bytes => (None, set_send k (Some (mkSendOp req sid (NewInboxID now bytes) AtReady)) w)
          end
      end
  end.
(** One step of a [Send]. The wait in the readiness window only delays the first.
    [ok] is the answer of the transport. *)
Definition send_step (k : nat) (now : Time) (ok : bool) (w : Daemon) : option SendAnswer * Daemon :=
  match dm_sends w !! k with
  | None => (None, w)
  | Some op =>
      let req := so_req op in
      let detail := [("msg_id", JString (so_id op)); ("from", JString (json_text (sr_From req)))] in
      match so_at op with
      | AtReady =>
          let ready := match dm_sessions w !! so_sid op with Some s => sessionReady now s | None => false end in
          (None, set_send k (Some (send_goes (if sr_ForceDirect req || ready then AtDeliver else AtEnsure) op)) w)
      | AtDeliver =>
          let w := if ok then hand_over (mkTaken (so_sid op) (sr_Body req) None) w else w in
          (None, set_send k (Some (send_goes (AtSettle ok) op)) w)
      | AtSettle taken =>
          let w := settle_on now (so_sid op) taken (sr_Body req) w in
          if taken then
            (Some (SendDelivered (so_id op)),
             set_send k None (audit_on now (if sr_ForceDirect req then "inbox.send.force_direct" else "inbox.send.direct")
                                       (so_sid op) detail w))
          else if sr_ForceDirect req then (None, set_send k (Some (send_goes AtEnsure op)) w)
          else (Some SendInternal, set_send k None w)
      | AtEnsure =>
          match dm_state w with
          | None => (None, w)
          | Some d =>
              let '(r, d) := EnsureSessionInbox (sr_SessionName req) d in
              if is_ok r then (None, set_send k (Some (send_goes AtPush op)) (set_store d w))
              else (Some SendInternal, set_send k None (set_store d w))
          end
      | AtPush =>
          match dm_state w with
          | None => (None, w)
          | Some d =>
              let m := mkMsg (so_id op) "" (sr_From req) 0 (sr_Body req) [] now in
              let '(r, d) := PushSessionInbox now (sr_SessionName req) m d in
              if is_ok r
              then (Some (SendQueued (so_id op)),
                    set_send k None (audit_on now "inbox.send.queued" (so_sid op) detail (set_store d w)))
              else (Some SendInternal, set_send k None (set_store d w))
          end
      end
  end.

(** ** Draining *)

Definition drain_step (k : nat) (now : Time) (ok : bool) (w : Daemon) : Daemon :=
  match dm_drains w !! k with
  | None => w
  | Some (sid, at_) =>
      let go a := set_drain k (Some (sid, a)) in
      let stop := set_drain k None in
      match at_ with
      | DrainCheck =>
          match dm_sessions w !! sid with
          | None => stop w
          | Some s =>
              if negb (sessionReady now s) then stop w else
              if String.eqb (ses_Name s) "" then stop w else
              match dm_state w with None => stop w | Some _ => go (DrainPeek (ses_Name s)) w end
          end
      | DrainPeek name =>
          match dm_state w with
          | None => stop w
          | Some d =>
              match (PeekSessionInbox name 1 d).1 with
              | Ok (m :: _) => go (DrainDeliver name m) w
              | _ => stop w
              end
          end
      | DrainDeliver name m =>
          let w := if ok then hand_over (mkTaken sid (im_Body m) (Some (name, im_ID m))) w else w in
          go (DrainSettle name m ok) w
      | DrainSettle name m taken =>
          let w := settle_on now sid taken (im_Body m) w in
          if taken then go (DrainAck name m) w else stop w
      | DrainAck name m =>
          match dm_state w with
          | None => stop w
          | Some d =>
              let w := set_store (AckSessionInbox name (im_ID m) d).2 w in
              stop (audit_on now "inbox.drain.delivered" sid
                      [("msg_id", JString (im_ID m)); ("from", JString (im_From m))] w)
          end
      end
  end.

(** A transition to idle that is announced starts a drain; those of the health
    monitor are not announced here. *)
Definition emitStateChanged (k : nat) (sid : string) (st : State) (w : Daemon) : Daemon :=
  if bool_decide (st = StateIdle) then set_drain k (Some (sid, DrainCheck)) w else w.

(** ** [AckInbox] and [PeekInbox] *)

Inductive AckAnswer := AckInvalid | AckUnavailable | Acked (yes : bool) | AckInternal.
Definition AckInbox (name msgID : string) (found : option string) (now : Time) (w : Daemon) : AckAnswer * Daemon :=
  if String.eqb name "" then (AckInvalid, w) else
  if String.eqb msgID "" then (AckInvalid, w) else
  match dm_state w with
  | None => (AckUnavailable, w)
  | Some d =>
      let '(r, d) := AckSessionInbox name msgID d in
      let w := set_store d w in
      match r with
      | Err ErrSessionInboxMissing => (Acked false, w)
      | Err _ => (AckInternal, w)
      | Ok _ =>
          (Acked true,
           match found with Some sid => audit_on now "inbox.ack" sid [("msg_id", JString (json_text msgID))] w | None => w end)
      end
  end.
Inductive PeekAnswer := PeekInvalid | PeekUnavailable | Peeked (l : list InboxMsg) | PeekInternal.
Definition PeekInbox (name : string) (n : Z) (w : Daemon) : PeekAnswer :=
  if String.eqb name "" then PeekInvalid else
  match dm_state w with
  | None => PeekUnavailable
  | Some d =>
      match (PeekSessionInbox name (if n <=? 0 then 0 else n) d).1 with
      | Ok l => Peeked l
      | Err ErrSessionInboxMissing => Peeked []
      | Err _ => PeekInternal
      end
  end.

(** ** Runs *)

Inductive Action :=
| ActSend (k : nat) (req : SendRequest) (found : option string) (now : Time) (random : option (list Z))
| ActSendStep (k : nat) (now : Time) (ok : bool)
| ActDrainStep (k : nat) (now : Time) (ok : bool)
| ActEmit (k : nat) (sid : string) (st : State)
| ActSession (sid : string) (s : option Session)
| ActAck (name msgID : string) (found : option string) (now : Time).
(** [ActSession] is anything else that happens to a session. What a step answers
    its caller. Handlers are numbered apart, and a name is
    found only where a session has it. *)
Definition act (a : Action) (w : Daemon) : option SendAnswer * Daemon :=
  match a with
  | ActSend k req found now random =>
      if bool_decide (is_Some (dm_sends w !! k)) || negb (found_by_name (sr_SessionName req) found w) then (None, w)
      else send_begin k req found now random w
  | ActSendStep k now ok => send_step k now ok w
  | ActDrainStep k now ok => (None, drain_step k now ok w)
  | ActEmit k sid st => if bool_decide (is_Some (dm_drains w !! k)) then (None, w) else (None, emitStateChanged k sid st w)
  | ActSession sid s => (None, set_sessions (partial_alter (λ _, s) sid (dm_sessions w)) w)
  | ActAck name msgID found now => (None, (AckInbox name msgID found now w).2)
  end.
Fixpoint acts (l : list Action) (w : Daemon) : list (option SendAnswer) * Daemon :=
  match l with
  | [] => ([], w)
  | a :: l => let '(r, w) := act a w in let '(rs, w) := acts l w in (r :: rs, w)
  end.
End Daemon.
#[global] Arguments Daemon B : clear implicits.
