(* ===== verification/SendFacts.v ===== *)
(** No queued message is lost, however sends, drains, acknowledgements, commits
    that fail and changes of the sessions interleave; and a session that keeps
    returning to idle gets its messages in order. *)

From S2P Require Import Prelude GoText RuneText MeshTypes GoJson HookState Session Bolt Inbox SendInbox.
From stdpp Require Import base gmap strings list.
From Stdlib Require Import ZArith Lia Ascii.

Open Scope Z_scope.

(** ** Identities are plain text *)

Lemma digit_ascii n : 0 ≤ n < 10 → 0 ≤ byte_val (digit n) < 128.
Proof. intros Hn. destruct (byte_val_digit n Hn) as [-> _]. lia. Qed.
Lemma ascii_cons c s : ascii_text (String c s) ↔ 0 ≤ byte_val c < 128 ∧ ascii_text s.
Proof. unfold ascii_text. cbn [str_bytes]. by rewrite Forall_cons. Qed.
Lemma format_digits_ascii fuel n acc : 0 ≤ n → ascii_text acc → ascii_text (format_digits fuel n acc).
Proof.
  revert n acc. induction fuel as [|fuel IH]; intros n acc Hn Ha; [done|]. cbn [format_digits].
  assert (ascii_text (String (digit (n mod 10)) acc)) as Hd by (apply ascii_cons; split; [apply digit_ascii; dlia|done]).
  destruct (n <? 10); [done|]. apply IH; [dlia|done].
Qed.
Lemma FormatInt_ascii n : ascii_text (FormatInt n).
Proof.
  unfold FormatInt. destruct (Z.ltb_spec n 0).
  - apply ascii_cons. split; [by vm_compute|]. apply format_digits_ascii; [lia|constructor].
  - apply format_digits_ascii; [lia|constructor].
Qed.
Lemma hex_digit_ascii n : 0 ≤ n < 16 → 0 ≤ byte_val (hex_digit n) < 128.
Proof.
  intros Hn. unfold hex_digit. destruct (Z.ltb_spec n 10); [apply digit_ascii; lia|].
  rewrite byte_val_ascii by lia. lia.
Qed.
Lemma NewInboxID_text now bytes : Forall is_byte bytes → json_text (NewInboxID now bytes) = NewInboxID now bytes.
Proof.
  intros Hb. assert (ascii_text (NewInboxID now bytes)) as Ha.
  { unfold NewInboxID. rewrite !ascii_text_app. split; [apply FormatInt_ascii|]. split; [by vm_compute; repeat constructor|].
    induction Hb as [|b l Hb _ IH]; [constructor|]. cbn. unfold is_byte in Hb.
    apply ascii_cons. split; [apply hex_digit_ascii; dlia|]. apply ascii_cons. split; [apply hex_digit_ascii; dlia|exact IH]. }
  unfold json_text. rewrite runes_ascii by done. by apply runes_string_ascii.
Qed.

(** ** What is queued in a run *)

(** A message as it comes out of its inbox. *)
Record Message := mkMessage { ms_name : string; ms_id : string; ms_body : string }.
Definition message (name : string) (m : InboxMsg) : Message := mkMessage name (im_ID m) (im_Body m).
Definition action_ok (a : Action) : Prop :=
  match a with ActSend _ _ _ _ (Some bytes) => Forall is_byte bytes | _ => True end.
Definition new_id (a : Action) : option string :=
  match a with ActSend _ _ _ now (Some bytes) => Some (NewInboxID now bytes) | _ => None end.
Definition acked (a : Action) : option (string * string) :=
  match a with ActAck name id _ _ => Some (name, id) | _ => None end.

Section Facts.
Context {B : Type → Type} `{BucketLaws B}.
Implicit Types (w : Daemon B) (d : DB B).

(** What a step tells its caller is queued, and all that a run does. *)
Definition queued_at (a : Action) w : list Message :=
  match a with
  | ActSendStep k now ok =>
      match dm_sends w !! k, (act a w).1 with
      | Some op, Some (SendQueued id) => [mkMessage (sr_SessionName (so_req op)) id (json_text (sr_Body (so_req op)))]
      | _, _ => []
      end
  | _ => []
  end.
Fixpoint queued (l : list Action) w : list Message :=
  match l with [] => [] | a :: l => queued_at a w ++ queued l (act a w).2 end.

(** ** Queues *)

Lemma elem_of_q_insert m x l : x ∈ q_insert m l ↔ x = m ∨ x ∈ l.
Proof.
  induction l as [|y l IH]; cbn [q_insert]; [by rewrite list_elem_of_singleton, elem_of_nil; tauto|].
  destruct (_ <=? _); rewrite !elem_of_cons; [rewrite IH|]; tauto.
Qed.
Lemma q_remove_sub id x l : x ∈ q_remove id l → x ∈ l.
Proof.
  induction l as [|y l IH]; cbn [q_remove]; [done|]. destruct (String.eqb _ _); [by right|].
  rewrite !elem_of_cons. intros [->|Hx]; [by left|right; by apply IH].
Qed.
Lemma q_remove_other id x l : x ∈ l → im_ID x ≠ id → x ∈ q_remove id l.
Proof.
  intros Hx Hid. induction l as [|y l IH]; [done|]. cbn [q_remove]. apply elem_of_cons in Hx.
  destruct (String.eqb_spec (im_ID y) id) as [Heq|Hne].
  - destruct Hx as [->|Hx]; [congruence|done].
  - apply elem_of_cons. destruct Hx as [->|Hx]; [by left|right; by apply IH].
Qed.

(** What the three store operations make of the queues. *)
Lemma ensure_store n d qs name :
  store_ok n d qs → 0 ≤ n →
  ∃ qs', store_ok n (EnsureSessionInbox name d).2 qs' ∧ (qs' = qs ∨ qs' = <[name := default [] (qs !! name)]> qs).
Proof.
  intros Hd Hn. pose proof (refined_ensure n d qs name Hd Hn) as Hr. unfold refined in Hr. cbn in Hr.
  destruct (EnsureSessionInbox name d) as [r d']. cbn. destruct (String.eqb name "").
  - exists qs. destruct Hr as [[Hs _]|[Hs _]]; by split; [|left].
  - destruct Hr as [[Hs _]|[Hs _]]; eexists; (split; [exact Hs|]); [by right|by left].
Qed.
Lemma push_store n d qs now name m :
  store_ok n d qs → 0 ≤ n < u64_max →
  match (PushSessionInbox now name m d).1 with
  | Ok _ => ∃ l m', name ≠ "" ∧ qs !! name = Some l ∧ stored_msg (set_received now m) = Some m' ∧
                    store_ok (n + 1) (PushSessionInbox now name m d).2 (<[name := q_insert m' l]> qs)
  | Err _ => store_ok (n + 1) (PushSessionInbox now name m d).2 qs
  end.
Proof.
  intros Hd Hn. pose proof (refined_push n d qs now name m Hd Hn) as Hr. unfold refined in Hr. cbn in Hr.
  destruct (PushSessionInbox now name m d) as [r d']. cbn in *. destruct (String.eqb_spec name ""); [destruct r; destruct Hr as [[? ?]|[? ?]]; done|].
  destruct (String.eqb (im_ID m) ""); [destruct r; destruct Hr as [[? ?]|[? ?]]; done|].
  destruct (qs !! name) as [l|]; [|destruct r; destruct Hr as [[? ?]|[? ?]]; done].
  destruct (stored_msg _) as [m'|]; [|destruct r; destruct Hr as [[? ?]|[? ?]]; done].
  destruct r as [u|e]; destruct Hr as [[Hs Hr]|[Hs Hr]]; try done. by exists l, m'.
Qed.
Lemma ack_store n d qs name id :
  store_ok n d qs →
  ∃ qs', store_ok n (AckSessionInbox name id d).2 qs' ∧
    (qs' = qs ∨ ∃ l, qs !! name = Some l ∧ qs' = <[name := q_remove id l]> qs).
Proof.
  intros Hd. pose proof (refined_ack n d qs name id Hd) as Hr. unfold refined in Hr. cbn in Hr.
  destruct (AckSessionInbox name id d) as [r d']. cbn. destruct (String.eqb name "").
  - exists qs. destruct Hr as [[Hs _]|[Hs _]]; by split; [|left].
  - destruct (qs !! name) as [l|].
    + destruct Hr as [[Hs _]|[Hs _]]; eexists; (split; [exact Hs|]); [right; by exists l|by left].
    + exists qs. destruct Hr as [[Hs _]|[Hs _]]; by split; [|left].
Qed.

(** ** The invariant *)

(** A message is in its inbox, a transport has taken it, or its sender
    acknowledged it. *)
Definition kept (A : list (string * string)) (qs : Queues) (taken : list Taken) (q : Message) : Prop :=
  (∃ l m, qs !! ms_name q = Some l ∧ m ∈ l ∧ message (ms_name q) m = q) ∨
  (∃ sid, mkTaken sid (ms_body q) (Some (ms_name q, ms_id q)) ∈ taken) ∨
  (ms_name q, ms_id q) ∈ A.
Definition drain_ok (Q : list Message) (taken : list Taken) (sid : string) (at_ : DrainAt) : Prop :=
  match at_ with
  | DrainDeliver name m | DrainSettle name m false => message name m ∈ Q
  | DrainSettle name m true | DrainAck name m =>
      message name m ∈ Q ∧ mkTaken sid (im_Body m) (Some (name, im_ID m)) ∈ taken
  | _ => True
  end.
Record inbox_inv (n : Z) (U : list string) (Q : list Message) (A : list (string * string)) w : Prop := {
  iv_store : ∃ d qs, dm_state w = Some d ∧ store_ok n d qs ∧ (∀ q, q ∈ Q → kept A qs (dm_taken w) q) ∧
                     (∀ name l m, qs !! name = Some l → m ∈ l → message name m ∈ Q);
  iv_sends : ∀ k op, dm_sends w !! k = Some op →
               so_id op ∈ U ∧ json_text (so_id op) = so_id op ∧ (∀ q, q ∈ Q → ms_id q ≠ so_id op);
  iv_distinct : ∀ k k' op op', dm_sends w !! k = Some op → dm_sends w !! k' = Some op' → so_id op = so_id op' → k = k';
  iv_used : ∀ q, q ∈ Q → ms_id q ∈ U ∧ ms_name q ≠ "";
  iv_once : NoDup (ms_id <$> Q);
  iv_drains : ∀ k sid at_, dm_drains w !! k = Some (sid, at_) → drain_ok Q (dm_taken w) sid at_ }.

Lemma kept_mono A A' qs taken taken' q : A ⊆ A' → taken ⊆ taken' → kept A qs taken q → kept A' qs taken' q.
Proof. intros HA Ht [Hk|[(sid & Hk)|Hk]]; [by left|right; left; exists sid; by apply Ht|right; right; by apply HA]. Qed.
Lemma drain_ok_mono Q Q' taken taken' sid at_ : Q ⊆ Q' → taken ⊆ taken' → drain_ok Q taken sid at_ → drain_ok Q' taken' sid at_.
Proof.
  intros HQ Ht. destruct at_ as [|name|name m|name m []|name m]; cbn; try done;
    try (intros [H1 H2]; split; [by apply HQ|by apply Ht]); intros Hm; by apply HQ.
Qed.
Lemma once Q q q' : NoDup (ms_id <$> Q) → q ∈ Q → q' ∈ Q → ms_id q = ms_id q' → q = q'.
Proof. apply NoDup_fmap_inj_on. Qed.

(** Changes that keep it. *)
Lemma inv_weaken n n' U U' Q A A' w :
  n ≤ n' → U ⊆ U' → A ⊆ A' → inbox_inv n U Q A w → inbox_inv n' U' Q A' w.
Proof.
  intros Hn HU HA [(d & qs & Hd & Hs & Hk & Hm) H2 H3 H4 H5 H6]. split; try done.
  - exists d, qs. split_and!; [done|by eapply store_ok_later| |done]. intros q Hq. eapply kept_mono; [exact HA|done|by apply Hk].
  - intros k op Hop. destruct (H2 k op Hop) as (H7 & H8 & H9). split_and!; [by apply HU|done..].
  - intros q Hq. destruct (H4 q Hq) as [H7 H8]. split; [by apply HU|done].
Qed.
Lemma inv_sessions n U Q A w m : inbox_inv n U Q A w → inbox_inv n U Q A (set_sessions m w).
Proof. by intros [H1 H2 H3 H4 H5 H6]; split. Qed.
Lemma inv_settle n U Q A w now sid taken body : inbox_inv n U Q A w → inbox_inv n U Q A (settle_on now sid taken body w).
Proof. apply inv_sessions. Qed.
Lemma inv_store n n' U Q A A' w d qs :
  inbox_inv n U Q A w → store_ok n' d qs → (∀ q, q ∈ Q → kept A' qs (dm_taken w) q) →
  (∀ name l m, qs !! name = Some l → m ∈ l → message name m ∈ Q) → inbox_inv n' U Q A' (set_store d w).
Proof. intros [H1 H2 H3 H4 H5 H6] Hd Hk Hm. split; try done. by exists d, qs. Qed.
Lemma inv_audit n U Q A w now action sid detail :
  inbox_inv n U Q A w → inbox_inv n U Q A (audit_on now action sid detail w).
Proof.
  intros Hi. unfold audit_on. pose proof (iv_store _ _ _ _ _ Hi) as (d & qs & Hd & Hs & Hk & Hm). rewrite Hd.
  destruct (dm_sessions w !! sid) as [s|]; [|done]. eapply inv_store; [done| |exact Hk|exact Hm]. by apply store_ok_audit.
Qed.
Lemma lookup_set_send k next w k' op :
  dm_sends (set_send k next w) !! k' = Some op → k' = k ∧ next = Some op ∨ k' ≠ k ∧ dm_sends w !! k' = Some op.
Proof.
  cbn. destruct (decide (k' = k)) as [->|Hne]; [rewrite lookup_partial_alter_eq; by left|]. rewrite lookup_partial_alter_ne by done. by right.
Qed.
Lemma lookup_send_end k w k' op : dm_sends (set_send k None w) !! k' = Some op → k' ≠ k ∧ dm_sends w !! k' = Some op.
Proof. by intros [[_ ?]|?]%lookup_set_send. Qed.
Lemma inv_send_end n U Q A w k : inbox_inv n U Q A w → inbox_inv n U Q A (set_send k None w).
Proof.
  intros [H1 H2 H3 H4 H5 H6]. split; try done.
  - intros k' op [_ Hop]%lookup_send_end. by apply (H2 k').
  - intros k1 k2 op1 op2 [_ Ho1]%lookup_send_end [_ Ho2]%lookup_send_end. by apply (H3 k1 k2 op1 op2).
Qed.
Lemma inv_send_to n U Q A w k op at_ :
  inbox_inv n U Q A w → dm_sends w !! k = Some op → inbox_inv n U Q A (set_send k (Some (send_goes at_ op)) w).
Proof.
  intros [H1 H2 H3 H4 H5 H6] Hk.
  assert (∀ k' op', dm_sends (set_send k (Some (send_goes at_ op)) w) !! k' = Some op' →
    ∃ op0, dm_sends w !! k' = Some op0 ∧ so_id op' = so_id op0) as Hold.
  { intros k' op' [[-> [= <-]]|[_ Hop]]%lookup_set_send; [by exists op|by exists op']. }
  split; try done.
  - intros k' op' (op0 & Ho & ->)%Hold. by apply (H2 k').
  - intros k1 k2 op1 op2 (o1 & Ho1 & ->)%Hold (o2 & Ho2 & ->)%Hold. by apply (H3 k1 k2 o1 o2).
Qed.
Lemma inv_drain n U Q A w k next :
  inbox_inv n U Q A w → (∀ sid at_, next = Some (sid, at_) → drain_ok Q (dm_taken w) sid at_) →
  inbox_inv n U Q A (set_drain k next w).
Proof.
  intros [H1 H2 H3 H4 H5 H6] Hn. split; try done; cbn. intros k' sid at_ Hd. destruct (decide (k' = k)) as [->|Hne].
  - rewrite lookup_partial_alter_eq in Hd. by apply Hn.
  - rewrite lookup_partial_alter_ne in Hd by done. by apply (H6 k').
Qed.
Lemma inv_take n U Q A w t : inbox_inv n U Q A w → inbox_inv n U Q A (hand_over t w).
Proof.
  intros [(d & qs & Hd & Hs & Hk & Hm) H2 H3 H4 H5 H6].
  assert (dm_taken w ⊆ dm_taken w ++ [t]) as Ht by (intros x Hx; apply elem_of_app; by left).
  split; try done; cbn.
  - exists d, qs. split_and!; [done..| |done]. intros q Hq. eapply kept_mono; [done|exact Ht|by apply Hk].
  - intros k sid at_ Hd'. eapply drain_ok_mono; [done|exact Ht|by apply (H6 k)].
Qed.

(** ** The steps *)

Lemma inv_send_new n U Q A w k req sid id :
  inbox_inv n U Q A w → dm_sends w !! k = None → id ∉ U → json_text id = id →
  inbox_inv n (U ++ [id]) Q A (set_send k (Some (mkSendOp req sid id AtReady)) w).
Proof.
  intros Hi Hk Hid Htext. assert (U ⊆ U ++ [id]) as HU by (intros x Hx; apply elem_of_app; by left).
  destruct (inv_weaken n n U _ Q A A w ltac:(lia) HU ltac:(done) Hi) as [H1 H2 H3 H4 H5 H6].
  assert (∀ k' op', dm_sends w !! k' = Some op' → so_id op' ≠ id) as Hold.
  { intros k' op' Hop <-. by apply Hid, (iv_sends _ _ _ _ _ Hi k'). }
  split; try done.
  - intros k' op [[-> [= <-]]|[_ Hop]]%lookup_set_send; [|by apply (H2 k')]. cbn. split_and!; [apply elem_of_app; right; by left|done|].
    intros q Hq <-. by apply Hid, (iv_used _ _ _ _ _ Hi).
  - intros k1 k2 op1 op2 [[-> [= <-]]|[N1 Ho1]]%lookup_set_send [[-> [= <-]]|[N2 Ho2]]%lookup_set_send Heq; [done| | |by apply (H3 k1 k2 op1 op2)].
    + by destruct (Hold _ _ Ho2).
    + by destruct (Hold _ _ Ho1).
Qed.
Lemma inv_push n U Q A w k op d now :
  inbox_inv n U Q A w → 0 ≤ n < u64_max → dm_sends w !! k = Some op → dm_state w = Some d →
  let r := PushSessionInbox now (sr_SessionName (so_req op))
             (mkMsg (so_id op) "" (sr_From (so_req op)) 0 (sr_Body (so_req op)) [] now) d in
  match r.1 with
  | Ok _ => inbox_inv (n + 1) U (Q ++ [mkMessage (sr_SessionName (so_req op)) (so_id op) (json_text (sr_Body (so_req op)))]) A
              (set_send k None (set_store r.2 w))
  | Err _ => inbox_inv (n + 1) U Q A (set_send k None (set_store r.2 w))
  end.
Proof.
  intros Hi Hn Hop Hd. pose proof (iv_store _ _ _ _ _ Hi) as (d0 & qs & Hd0 & Hs & Hk & Hm). rewrite Hd in Hd0. injection Hd0 as <-.
  set (name := sr_SessionName (so_req op)). set (m := mkMsg _ _ _ _ _ _ _). cbv zeta.
  pose proof (push_store n d qs now name m Hs Hn) as Hp. destruct (PushSessionInbox now name m d) as [[u|e] d']; cbn [fst snd] in *.
  - destruct Hp as (l & m' & Hname & Hl & Hm' & Hs').
    destruct (iv_sends _ _ _ _ _ Hi k op Hop) as (Hid & Htext & Hnew).
    assert (message name m' = mkMessage name (so_id op) (json_text (sr_Body (so_req op)))) as Hmsg.
    { unfold stored_msg, set_received, m in Hm'. destruct (IsZero _), (time_encodes _); try done; injection Hm' as <-;
        unfold message; cbn; by rewrite Htext. }
    rewrite <- Hmsg. assert (Q ⊆ Q ++ [message name m']) as HQ by (intros x Hx; apply elem_of_app; by left).
    destruct Hi as [_ H2 H3 H4 H5 H6]. split.
    + exists d', (<[name := q_insert m' l]> qs). split_and!; [done|done| |].
      * intros q [Hq| ->%list_elem_of_singleton]%elem_of_app.
        -- destruct (Hk q Hq) as [(l0 & m0 & Hl0 & Hm0 & Hq0)|Hq0]; [left|by right]. destruct (decide (ms_name q = name)) as [Heq|Hne].
           ++ rewrite Heq in Hl0 |- *. rewrite Hl in Hl0. injection Hl0 as <-. exists (q_insert m' l), m0.
              rewrite lookup_insert_eq. split_and!; [done|by apply elem_of_q_insert; right|by rewrite <- Heq].
           ++ exists l0, m0. by rewrite lookup_insert_ne.
        -- left. exists (q_insert m' l), m'. cbn. rewrite lookup_insert_eq. split_and!; [done|by apply elem_of_q_insert; left|done].
      * intros name0 l0 m0 Hl0 Hm0. apply elem_of_app. destruct (decide (name0 = name)) as [->|Hne].
        -- rewrite lookup_insert_eq in Hl0. injection Hl0 as <-. apply elem_of_q_insert in Hm0 as [->|Hm0]; [right; by left|left; by apply (Hm name l)].
        -- rewrite lookup_insert_ne in Hl0 by done. left. by apply (Hm name0 l0).
    + intros k' op' [Hne Hop']%lookup_send_end. cbn in Hop'. destruct (H2 k' op' Hop') as (H7 & H8 & H9). split_and!; [done..|].
      intros q [Hq| ->%list_elem_of_singleton]%elem_of_app; [by apply H9|]. rewrite Hmsg. intros Heq. by apply Hne, (H3 k' k op' op).
    + intros k1 k2 op1 op2 [_ Ho1]%lookup_send_end [_ Ho2]%lookup_send_end. by apply (H3 k1 k2 op1 op2).
    + intros q [Hq| ->%list_elem_of_singleton]%elem_of_app; [by apply H4|rewrite Hmsg; by split].
    + rewrite fmap_app. apply NoDup_app. split_and!; [done| |by apply NoDup_singleton].
      intros x (q & -> & Hq)%list_elem_of_fmap Hx%list_elem_of_singleton. rewrite Hmsg in Hx. by apply (Hnew q).
    + intros k' sid at_ Hdr. eapply drain_ok_mono; [exact HQ|done|by apply (H6 k')].
  - apply inv_send_end. by eapply inv_store.
Qed.

Lemma set_send_audit k next now action sid detail w :
  set_send k next (audit_on now action sid detail w) = audit_on now action sid detail (set_send k next w).
Proof. unfold audit_on. cbn. destruct (dm_state w); [|done]. by destruct (dm_sessions w !! sid). Qed.
Lemma inv_ack n U Q A A' w d name id :
  inbox_inv n U Q A w → dm_state w = Some d → A ⊆ A' →
  (∀ q, q ∈ Q → ms_name q = name → ms_id q = id → ∀ qs, kept A' qs (dm_taken w) q) →
  inbox_inv n U Q A' (set_store (AckSessionInbox name id d).2 w).
Proof.
  intros Hi Hd HA Hacked. pose proof (iv_store _ _ _ _ _ Hi) as (d0 & qs & Hd0 & Hs & Hk & Hm). rewrite Hd in Hd0. injection Hd0 as <-.
  destruct (ack_store n d qs name id Hs) as (qs' & Hs' & Hqs). eapply inv_store; [exact Hi|exact Hs'| |].
  - intros q Hq. specialize (Hk q Hq). apply (kept_mono A A' _ (dm_taken w) (dm_taken w)) in Hk; [|done..].
    destruct Hqs as [->|(l & Hl & ->)]; [done|]. destruct (decide (ms_name q = name)) as [Heq|Hne].
    + destruct (decide (ms_id q = id)) as [Hid|Hid]; [by apply Hacked|].
      destruct Hk as [(l0 & m0 & Hl0 & Hm0 & Hq0)|Hk]; [left|by right]. rewrite Heq, Hl in Hl0. injection Hl0 as <-.
      exists (q_remove id l), m0. rewrite Heq, lookup_insert_eq. split_and!; [done| |by rewrite <- Heq].
      apply q_remove_other; [done|]. intros Hid0. by rewrite <- Hq0 in Hid.
    + destruct Hk as [(l0 & m0 & Hl0 & Hm0 & Hq0)|Hk]; [left; exists l0, m0; by rewrite lookup_insert_ne|by right].
  - destruct Hqs as [->|(l & Hl & ->)]; [done|]. intros name0 l0 m0 Hl0 Hm0. destruct (decide (name0 = name)) as [->|Hne].
    + rewrite lookup_insert_eq in Hl0. injection Hl0 as <-. apply (Hm name l); [done|by eapply q_remove_sub].
    + rewrite lookup_insert_ne in Hl0 by done. by apply (Hm name0 l0).
Qed.
Lemma inv_send_step n U Q A w k now ok :
  inbox_inv n U Q A w → 0 ≤ n < u64_max →
  inbox_inv (n + 1) U (Q ++ queued_at (ActSendStep k now ok) w) A (send_step k now ok w).2.
Proof.
  intros Hi Hn. unfold queued_at. cbn [act]. assert (∀ w', inbox_inv n U Q A w' → inbox_inv (n + 1) U (Q ++ []) A w') as Hlater.
  { intros w' Hw'. rewrite app_nil_r. by eapply inv_weaken; [| | |exact Hw']; [lia|..]. }
  unfold send_step. destruct (dm_sends w !! k) as [op|] eqn:Hop; [|by apply Hlater].
  destruct (so_at op).
  - apply Hlater. by apply inv_send_to.
  - apply Hlater. destruct ok; [apply inv_send_to; [by apply inv_take|done]|by apply inv_send_to].
  - destruct taken; [apply Hlater, inv_send_end, inv_audit; by apply inv_settle|].
    destruct (sr_ForceDirect (so_req op)); apply Hlater; [apply inv_send_to; [by apply inv_settle|done]|apply inv_send_end; by apply inv_settle].
  - destruct (dm_state w) as [d|] eqn:Hd; [|by apply Hlater].
    pose proof (iv_store _ _ _ _ _ Hi) as (d0 & qs & Hd0 & Hs & Hk & Hm). rewrite Hd in Hd0. injection Hd0 as <-.
    destruct (ensure_store n d qs (sr_SessionName (so_req op)) Hs ltac:(lia)) as (qs' & Hs' & Hqs).
    destruct (EnsureSessionInbox _ d) as [r d'].
    assert (inbox_inv n U Q A (set_store d' w)) as Hi'.
    { eapply inv_store; [exact Hi|exact Hs'| |]; destruct Hqs as [->| ->]; try done.
      - intros q Hq. destruct (Hk q Hq) as [(l0 & m0 & Hl0 & Hm0 & Hq0)|Hq0]; [left|by right]. exists l0, m0. split_and!; [|done..].
        destruct (decide (ms_name q = sr_SessionName (so_req op))) as [<-|Hne]; [by rewrite lookup_insert_eq, Hl0|by rewrite lookup_insert_ne].
      - intros name l0 m0 Hl0 Hm0. destruct (decide (name = sr_SessionName (so_req op))) as [->|Hne].
        + rewrite lookup_insert_eq in Hl0. injection Hl0 as <-. destruct (qs !! sr_SessionName (so_req op)) as [l|] eqn:Hl; cbn in Hm0; [by apply (Hm _ l)|by apply elem_of_nil in Hm0].
        + rewrite lookup_insert_ne in Hl0 by done. by apply (Hm name l0). }
    destruct (is_ok r); cbn [snd]; apply Hlater; [by apply inv_send_to|by apply inv_send_end].
  - destruct (dm_state w) as [d|] eqn:Hd; [|by apply Hlater].
    pose proof (inv_push n U Q A w k op d now Hi Hn Hop Hd) as Hp. cbv zeta in Hp.
    destruct (PushSessionInbox now _ _ d) as [[u|e] d']; cbn [fst snd is_ok] in *.
    + rewrite set_send_audit. by apply inv_audit.
    + by rewrite app_nil_r.
Qed.
Lemma inv_drain_step n U Q A w k now ok : inbox_inv n U Q A w → inbox_inv n U Q A (drain_step k now ok w).
Proof.
  intros Hi. unfold drain_step. destruct (dm_drains w !! k) as [[sid at_]|] eqn:Hdr; [|done].
  assert (∀ w', inbox_inv n U Q A w' → inbox_inv n U Q A (set_drain k None w')) as Hstop by (intros; by apply inv_drain).
  assert (∀ w' a, inbox_inv n U Q A w' → drain_ok Q (dm_taken w') sid a → inbox_inv n U Q A (set_drain k (Some (sid, a)) w')) as Hgo.
  { intros w' a Hw' Ha. apply inv_drain; [done|]. by intros ? ? [= <- <-]. }
  pose proof (iv_drains _ _ _ _ _ Hi k sid at_ Hdr) as Hok. destruct at_ as [|name|name m|name m taken|name m].
  - destruct (dm_sessions w !! sid) as [s|]; [|by apply Hstop]. destruct (negb _); [by apply Hstop|].
    destruct (String.eqb _ _); [by apply Hstop|]. destruct (dm_state w); [by apply Hgo|by apply Hstop].
  - pose proof (iv_store _ _ _ _ _ Hi) as (d & qs & Hd & Hs & Hk & Hm). rewrite Hd. rewrite (peek_spec n d qs name 1 Hs).
    unfold q_named. destruct (String.eqb name ""); [by apply Hstop|]. destruct (qs !! name) as [l|] eqn:Hl; [|by apply Hstop].
    cbn. destruct l as [|m l]; [by apply Hstop|]. cbn. apply Hgo; [done|]. cbn. apply (Hm name (m :: l)); [done|by left].
  - destruct ok; apply Hgo; [by apply inv_take| |done|exact Hok]. cbn. split; [exact Hok|]. apply elem_of_app. right. by left.
  - destruct taken; [apply Hgo; [by apply inv_settle|exact Hok]|apply Hstop; by apply inv_settle].
  - pose proof (iv_store _ _ _ _ _ Hi) as (d & qs & Hd & Hs & Hk & Hm). rewrite Hd. apply Hstop, inv_audit.
    destruct Hok as [HQ Ht]. eapply inv_ack; [exact Hi|exact Hd|done|]. intros q Hq Hname Hid qs'. right. left. exists sid.
    assert (q = message name m) as ->; [|done]. eapply once; [by apply (iv_once _ _ _ _ _ Hi)|done..].
Qed.
Lemma inv_act n U Q A w a :
  inbox_inv n U Q A w → 0 ≤ n < u64_max → action_ok a → (∀ id, new_id a = Some id → id ∉ U) →
  inbox_inv (n + 1) (U ++ option_list (new_id a)) (Q ++ queued_at a w) (A ++ option_list (acked a)) (act a w).2.
Proof.
  intros Hi Hn Hok Hnew.
  assert (∀ U' A' w', inbox_inv n U' Q A' w' → inbox_inv (n + 1) U' Q A' w') as Hlater.
  { intros U' A' w' Hw'. by eapply inv_weaken; [| | |exact Hw']; [lia|..]. }
  destruct a as [k req found now random|k now ok|k now ok|k sid st|sid s|name id found now]; cbn [act new_id acked option_list] in *;
    rewrite ?app_nil_r.
  - cbn [queued_at]. rewrite ?app_nil_r. apply Hlater.
    assert (inbox_inv n (U ++ option_list (new_id (ActSend k req found now random))) Q A w) as Hi'.
    { eapply inv_weaken; [| | |exact Hi]; [lia|intros x Hx; apply elem_of_app; by left|done]. }
    cbn [new_id] in Hi'. destruct (bool_decide_reflect (is_Some (dm_sends w !! k))) as [Hk|Hk]; [done|].
    destruct (found_by_name _ _ _); [|done]. cbn [negb orb]. unfold send_begin.
    destruct (String.eqb _ _); [done|]. destruct (String.eqb _ _); [done|]. destruct found as [sid|]; [|done].
    destruct (dm_state w); [|done]. destruct random as [bytes|]; [|done]. cbn [snd option_list].
    apply inv_send_new; [done|by apply eq_None_not_Some|by apply Hnew|by apply NewInboxID_text].
  - by apply inv_send_step.
  - cbn [queued_at]. rewrite ?app_nil_r. apply Hlater. by apply inv_drain_step.
  - cbn [queued_at]. rewrite ?app_nil_r. apply Hlater. destruct (bool_decide _); [done|]. cbn [snd]. unfold emitStateChanged.
    destruct (bool_decide _); [|done]. apply inv_drain; [done|]. by intros ? ? [= <- <-].
  - cbn [queued_at]. rewrite ?app_nil_r. apply Hlater. by apply inv_sessions.
  - cbn [queued_at]. rewrite ?app_nil_r. apply Hlater. assert (A ⊆ A ++ [(name, id)]) as HA by (intros x Hx; apply elem_of_app; by left).
    assert (inbox_inv n U Q (A ++ [(name, id)]) w) as Hi' by (by eapply inv_weaken; [| | |exact Hi]).
    unfold AckInbox. destruct (String.eqb name ""); [done|]. destruct (String.eqb id ""); [done|].
    pose proof (iv_store _ _ _ _ _ Hi) as (d & qs & Hd & _). rewrite Hd.
    assert (inbox_inv n U Q (A ++ [(name, id)]) (set_store (AckSessionInbox name id d).2 w)) as Ha.
    { eapply inv_ack; [exact Hi|exact Hd|exact HA|]. intros q Hq <- <- qs'. right. right. apply elem_of_app. right. by left. }
    destruct (AckSessionInbox name id d) as [[u|e] d']; cbn [snd] in *; [|by destruct e].
    destruct found as [sid|]; [by apply inv_audit|done].
Qed.
Lemma inv_acts l n U Q A w :
  inbox_inv n U Q A w → 0 ≤ n → n + Z.of_nat (length l) < u64_max → Forall action_ok l →
  NoDup (omap new_id l) → (∀ id, id ∈ omap new_id l → id ∉ U) →
  inbox_inv (n + Z.of_nat (length l)) (U ++ omap new_id l) (Q ++ queued l w) (A ++ omap acked l) (acts l w).2.
Proof.
  revert n U Q A w. induction l as [|a l IH]; intros n U Q A w Hi Hn Hlen Hok Hnd Hnew.
  { cbn. rewrite !app_nil_r, Z.add_0_r. done. }
  apply Forall_cons in Hok as [Ha Hok].
  assert (omap new_id (a :: l) = option_list (new_id a) ++ omap new_id l) as Hids by (cbn; by destruct (new_id a)).
  assert (omap acked (a :: l) = option_list (acked a) ++ omap acked l) as Hacks by (cbn; by destruct (acked a)).
  rewrite Hids in Hnd, Hnew |- *. rewrite Hacks. apply NoDup_app in Hnd as (_ & Hdis & Hnd). cbn [length queued acts] in *.
  assert (∀ id, new_id a = Some id → id ∈ option_list (new_id a)) as Hin by (intros id ->; by left).
  pose proof (inv_act n U Q A w a Hi ltac:(lia) Ha (λ id Hid, Hnew id (proj2 (elem_of_app _ _ _) (or_introl (Hin id Hid))))) as H1.
  destruct (act a w) as [r w1]. cbn [snd] in *. specialize (IH (n + 1) _ _ _ w1 H1 ltac:(lia) ltac:(lia) Hok Hnd).
  destruct (acts l w1) as [rs w2]. cbn [snd] in *. rewrite <- !app_assoc in IH.
  replace (n + Z.of_nat (S (length l))) with (n + 1 + Z.of_nat (length l)) by lia. apply IH.
  intros id Hid [HU|Hx]%elem_of_app; [|by apply (Hdis id)]. apply (Hnew id); [apply elem_of_app; by right|done].
Qed.
Definition start (sessions : gmap string Session) d : Daemon B := mkDaemon sessions (Some d) [] ∅ ∅.
Lemma inv_start commits d sessions : init (new_db commits) = (Ok tt, d) → inbox_inv 0 [] [] [] (start sessions d).
Proof.
  intros Hi. split; cbn; try done.
  - exists d, ∅. split_and!; [done|by eapply init_ok|by intros q ?%elem_of_nil|done].
  - by intros q ?%elem_of_nil.
  - constructor.
Qed.

(** C31: whatever handlers run at the same time, whatever the transports answer,
    whichever commits fail and whatever happens to the sessions: a message that
    [Send] has answered as queued is in the inbox of the session, or a drain has
    handed its text to a transport that took it, or its sender acknowledged it. *)
Theorem queued_messages_kept commits d sessions l name id body :
  init (new_db commits) = (Ok tt, d) → Forall action_ok l → NoDup (omap new_id l) → Z.of_nat (length l) < u64_max →
  let w := (acts l (start sessions d)).2 in
  mkMessage name id body ∈ queued l (start sessions d) →
  (∃ ms m, PeekInbox name 0 w = Peeked ms ∧ m ∈ ms ∧ message name m = mkMessage name id body) ∨
  (∃ sid, mkTaken sid body (Some (name, id)) ∈ dm_taken w) ∨
  (∃ found now, ActAck name id found now ∈ l).
Proof.
  intros Hi Hok Hnd Hlen w Hq.
  pose proof (inv_acts l 0 [] [] [] _ (inv_start commits d sessions Hi) ltac:(lia) ltac:(lia) Hok Hnd ltac:(intros id0 _ ?%elem_of_nil; done)) as Hinv.
  fold w in Hinv. pose proof (iv_store _ _ _ _ _ Hinv) as (d' & qs & Hd & Hs & Hk & Hm).
  destruct (Hk _ Hq) as [(l0 & m & Hl & Hm0 & Heq)|[Ht|Ha]]; cbn [ms_name ms_id ms_body] in *.
  - left. exists l0, m. split; [|done]. destruct (iv_used _ _ _ _ _ Hinv _ Hq) as [_ Hname]. cbn in Hname.
    unfold PeekInbox. rewrite Hd. cbn [Z.leb]. rewrite (peek_spec _ d' qs name _ Hs). unfold q_named.
    by rewrite !(proj2 (String.eqb_neq name "") Hname), Hl.
  - right. by left.
  - right. right. cbn in Ha. apply list_elem_of_omap in Ha as (a & Ha & Heq). destruct a as [| | | | |n0 i0 found now]; try done.
    injection Heq as -> ->. by exists found, now.
Qed.

(** ** Undisturbed drains *)

(** A session comes to idle, and its drain runs to the end with a transport that
    takes the prompt. *)
Record Round := mkRound { rd_k : nat; rd_session : Session; rd_now : Time }.
Definition idle_round (sid : string) (r : Round) : list Action :=
  ActSession sid (Some (rd_session r)) :: ActEmit (rd_k r) sid StateIdle :: replicate 5 (ActDrainStep (rd_k r) (rd_now r) true).
Definition quiet_store (n : Z) (qs : Queues) w : Prop := ∃ d, dm_state w = Some d ∧ store_ok n d qs ∧ db_commits d = [].

Lemma Update_quiet {A} (tx : DM B A) d :
  db_commits d = [] → db_commits (tx d).2 = [] → db_commits (Update tx d).2 = [] ∧ (Update tx d).1 = (tx d).1.
Proof. intros Hd Htx. unfold Update. destruct (tx d) as [[a|e] d']; cbn in *; [|done]. by rewrite Hd. Qed.
Lemma audit_quiet now e d : db_commits d = [] → db_commits (AppendAudit now e d).2 = [].
Proof.
  intros Hd. unfold AppendAudit. apply Update_quiet; [done|]. unfold mbind, M_bind, must. destruct (db_audit d); cbn; [|done].
  by destruct (stored_audit _).
Qed.
Lemma ack_quiet n d qs name id l :
  store_ok n d qs → db_commits d = [] → name ≠ "" → qs !! name = Some l →
  store_ok n (AckSessionInbox name id d).2 (<[name := q_remove id l]> qs) ∧ db_commits (AckSessionInbox name id d).2 = [].
Proof.
  intros Hs Hd Hname Hl. pose proof (refined_ack n d qs name id Hs) as Hr. unfold refined in Hr. cbn in Hr. revert Hr.
  unfold AckSessionInbox. rewrite (proj2 (String.eqb_neq name "") Hname), Hl.
  match goal with |- context [Update ?t d] => set (tx := t); pose proof (Update_quiet tx d Hd) as Hu end.
  pose proof (store_lookup n d qs name Hs) as [Hb Hsame]. rewrite Hl in Hb. destruct Hb as (b & Hb & _).
  assert (db_commits (tx d).2 = [] ∧ (tx d).1 = Ok tt) as [Hc Ht].
  { unfold tx, mbind, M_bind. destruct (sessionInboxBucket name d) as [rb d1]. cbn in Hb, Hsame. subst rb d1.
    by destruct (find_id id (b_entries b)). }
  destruct (Hu Hc) as [H1 H2]. rewrite Ht in H2. destruct (Update tx d) as [r d']. cbn in *. subst r. by intros [[Hs' _]|[_ ?]].
Qed.
Lemma audit_on_quiet n qs w now action sid detail :
  quiet_store n qs w → quiet_store n qs (audit_on now action sid detail w) ∧
  dm_taken (audit_on now action sid detail w) = dm_taken w ∧ dm_drains (audit_on now action sid detail w) = dm_drains w.
Proof.
  intros (d & Hd & Hs & Hc). unfold audit_on. rewrite Hd. destruct (dm_sessions w !! sid) as [s|]; [|split_and!; [by exists d|done..]].
  split_and!; [|done..]. eexists. split; [done|]. split; [by apply store_ok_audit|by apply audit_quiet].
Qed.

Lemma lookup_set_drain k next w : dm_drains (set_drain k next w) !! k = next.
Proof. apply lookup_partial_alter_eq. Qed.
Lemma step_check k now ok sid s w :
  dm_drains w !! k = Some (sid, DrainCheck) → dm_sessions w !! sid = Some s → ses_State s = StateIdle → ses_Name s ≠ "" →
  is_Some (dm_state w) → drain_step k now ok w = set_drain k (Some (sid, DrainPeek (ses_Name s))) w.
Proof.
  intros Hk Hs Hidle Hname [d Hd]. unfold drain_step. rewrite Hk. cbv beta zeta iota. rewrite Hs. unfold sessionReady. rewrite Hidle, (bool_decide_true _ eq_refl). cbn.
  by rewrite (proj2 (String.eqb_neq _ _) Hname), Hd.
Qed.
(** What is queued under a name. *)
Definition waiting (qs : Queues) (name : string) : list InboxMsg := default [] (qs !! name).
Lemma step_peek n qs k now ok sid name w :
  dm_drains w !! k = Some (sid, DrainPeek name) → quiet_store n qs w → name ≠ "" →
  drain_step k now ok w = set_drain k (match waiting qs name with m :: _ => Some (sid, DrainDeliver name m) | [] => None end) w.
Proof.
  intros Hk (d & Hd & Hs & _) Hname. unfold drain_step. rewrite Hk. cbv beta zeta iota. rewrite Hd, (peek_spec n d qs name 1 Hs). unfold q_named, waiting.
  rewrite (proj2 (String.eqb_neq _ _) Hname). by destruct (qs !! name) as [[|m l]|].
Qed.
Lemma drain_none k now ok w : dm_drains w !! k = None → drain_step k now ok w = w.
Proof. intros Hk. unfold drain_step. by rewrite Hk. Qed.
Lemma step_deliver k now sid name m w :
  dm_drains w !! k = Some (sid, DrainDeliver name m) →
  drain_step k now true w = set_drain k (Some (sid, DrainSettle name m true)) (hand_over (mkTaken sid (im_Body m) (Some (name, im_ID m))) w).
Proof. intros Hk. unfold drain_step. by rewrite Hk. Qed.
Lemma step_settle k now ok sid name m w :
  dm_drains w !! k = Some (sid, DrainSettle name m true) →
  drain_step k now ok w = set_drain k (Some (sid, DrainAck name m)) (settle_on now sid true (im_Body m) w).
Proof. intros Hk. unfold drain_step. by rewrite Hk. Qed.
Lemma step_ack n qs k now ok sid name m l w :
  dm_drains w !! k = Some (sid, DrainAck name m) → quiet_store n qs w → name ≠ "" → qs !! name = Some (m :: l) →
  quiet_store n (<[name := l]> qs) (drain_step k now ok w) ∧ dm_taken (drain_step k now ok w) = dm_taken w ∧
  dm_drains (drain_step k now ok w) = delete k (dm_drains w).
Proof.
  intros Hk (d & Hd & Hs & Hc) Hname Hl. unfold drain_step. rewrite Hk. cbv beta zeta iota. rewrite Hd.
  destruct (ack_quiet n d qs name (im_ID m) _ Hs Hc Hname Hl) as [Hs' Hc']. cbn [q_remove] in Hs'. rewrite String.eqb_refl in Hs'.
  set (w1 := set_store _ w). assert (quiet_store n (<[name := l]> qs) w1) as Hq1 by (by exists (AckSessionInbox name (im_ID m) d).2).
  destruct (audit_on_quiet n (<[name := l]> qs) w1 now "inbox.drain.delivered" sid
    [("msg_id", JString (im_ID m)); ("from", JString (im_From m))] Hq1) as (Hq & Ht & Hdr).
  split_and!; [exact Hq|exact Ht|]. unfold set_drain. cbn [dm_drains]. by rewrite Hdr.
Qed.
(** A map altered at one key only, and there to nothing. *)
Lemma drains_reset k (m : gmap nat (string * DrainAt)) : m !! k = None → (∀ j, j ≠ k → m !! j = None) → m = ∅.
Proof. intros Hk Hj. apply map_eq. intros j. rewrite lookup_empty. destruct (decide (j = k)) as [->|Hne]; [done|by apply Hj]. Qed.
Lemma acts_cons a l w : (acts (a :: l) w).2 = (acts l (act a w).2).2.
Proof. cbn [acts]. destruct (act a w) as [r w1]. cbn [snd]. by destruct (acts l w1). Qed.
Lemma acts_app l1 l2 w : (acts (l1 ++ l2) w).2 = (acts l2 (acts l1 w).2).2.
Proof. revert w. induction l1 as [|a l1 IH]; intros w; [done|]. cbn [app]. by rewrite !acts_cons, IH. Qed.

(** One round takes the first message, if there is one. *)
Lemma round_spec n qs w sid r l :
  quiet_store n qs w → waiting qs (ses_Name (rd_session r)) = l → ses_Name (rd_session r) ≠ "" →
  ses_State (rd_session r) = StateIdle → dm_drains w = ∅ →
  let w' := (acts (idle_round sid r) w).2 in
  quiet_store n (match l with m :: l' => <[ses_Name (rd_session r) := l']> qs | [] => qs end) w' ∧
  dm_taken w' = dm_taken w ++ (match l with m :: _ => [mkTaken sid (im_Body m) (Some (ses_Name (rd_session r), im_ID m))] | [] => [] end) ∧
  dm_drains w' = ∅.
Proof.
  destruct r as [k s now]. cbn [rd_k rd_session rd_now]. intros Hq Hl Hname Hidle Hdr.
  unfold idle_round. cbn [rd_k rd_session rd_now replicate]. rewrite !acts_cons. cbn [act acts snd].
  set (w0 := set_sessions _ w). rewrite (bool_decide_false (is_Some _)) by (cbn; rewrite Hdr; by intros [? ?]). cbn [snd].
  unfold emitStateChanged. cbn [bool_decide decide_rel]. rewrite (bool_decide_true _ eq_refl).
  set (w1 := set_drain k (Some (sid, DrainCheck)) w0). assert (quiet_store n qs w1) as Hq1 by done.
  assert (dm_sessions w1 !! sid = Some s) as Hs1 by (cbn; apply lookup_partial_alter_eq).
  rewrite (step_check k now true sid s w1) by (apply lookup_set_drain || done || (destruct Hq1 as (d & Hd & _); by eexists)).
  set (w2 := set_drain k _ w1). assert (quiet_store n qs w2) as Hq2 by done.
  rewrite (step_peek n qs k now true sid (ses_Name s) w2) by (apply lookup_set_drain || done). rewrite Hl.
  destruct l as [|m l].
  - rewrite !(drain_none k now true (set_drain k None w2)) by apply lookup_set_drain.
    split_and!; [exact Hq2|by rewrite app_nil_r|].
    apply (drains_reset k); [apply lookup_set_drain|]. intros j Hj. cbn. by rewrite Hdr, !lookup_partial_alter_ne.
  - set (w3 := set_drain k _ w2). rewrite (step_deliver k now sid (ses_Name s) m w3) by apply lookup_set_drain.
    set (w4 := set_drain k _ _). rewrite (step_settle k now true sid (ses_Name s) m w4) by apply lookup_set_drain.
    set (w5 := set_drain k _ _). assert (quiet_store n qs w5) as Hq5 by done.
    assert (qs !! ses_Name s = Some (m :: l)) as Hl' by (unfold waiting in Hl; destruct (qs !! ses_Name s); [cbn in Hl; by rewrite Hl|done]).
    destruct (step_ack n qs k now true sid (ses_Name s) m l w5) as (H1 & H2 & H3); [apply lookup_set_drain|done..|].
    split_and!; [exact H1|by rewrite H2|]. rewrite H3.
    apply (drains_reset k); [apply lookup_delete_eq|]. intros j Hj. rewrite lookup_delete_ne by done. cbn. by rewrite Hdr, !lookup_partial_alter_ne.
Qed.
Lemma rounds_spec rounds n qs w sid name :
  quiet_store n qs w → name ≠ "" → dm_drains w = ∅ →
  Forall (λ r, ses_Name (rd_session r) = name ∧ ses_State (rd_session r) = StateIdle) rounds →
  let w' := (acts (rounds ≫= idle_round sid) w).2 in
  dm_taken w' = dm_taken w ++ ((λ m, mkTaken sid (im_Body m) (Some (name, im_ID m))) <$> take (length rounds) (waiting qs name)) ∧
  ∃ qs', quiet_store n qs' w' ∧ waiting qs' name = drop (length rounds) (waiting qs name).
Proof.
  revert qs w. induction rounds as [|r rounds IH]; intros qs w Hq Hname Hdr Hr; cbn [mbind list_bind length acts snd].
  { cbn. rewrite app_nil_r. split; [done|]. by exists qs. }
  apply Forall_cons in Hr as [[<- Hidle] Hr]. rewrite acts_app.
  destruct (round_spec n qs w sid r _ Hq eq_refl Hname Hidle Hdr) as (H1 & H2 & H3). set (w1 := (acts (idle_round sid r) w).2) in *.
  destruct (waiting qs (ses_Name (rd_session r))) as [|m l] eqn:Hl.
  - destruct (IH qs w1 H1 Hname H3 Hr) as (H4 & H5). rewrite Hl, take_nil, drop_nil in *. rewrite H4, H2. cbn.
    by rewrite !app_nil_r.
  - destruct (IH _ w1 H1 Hname H3 Hr) as (H4 & H5). unfold waiting in H4, H5 at 2. rewrite lookup_insert_eq in H4, H5.
    cbn [take drop]. rewrite H4, H2. rewrite <- app_assoc. by split.
Qed.

(** C32: after any history, a session whose coming to idle is announced again
    and again, with nothing else going on during its drains, no commit failing
    and its transport taking the prompts, is given the messages in the order of
    the inbox, one each time, each once, and the inbox holds the rest. *)
Theorem drains_in_order commits d sessions l rounds sid name ms :
  init (new_db commits) = (Ok tt, d) → Forall action_ok l → NoDup (omap new_id l) → Z.of_nat (length l) < u64_max →
  let w := (acts l (start sessions d)).2 in
  db_commits <$> dm_state w = Some [] → dm_drains w = ∅ → PeekInbox name 0 w = Peeked ms →
  Forall (λ r, ses_Name (rd_session r) = name ∧ ses_State (rd_session r) = StateIdle) rounds →
  let w' := (acts (rounds ≫= idle_round sid) w).2 in
  dm_taken w' = dm_taken w ++ ((λ m, mkTaken sid (im_Body m) (Some (name, im_ID m))) <$> take (length rounds) ms) ∧
  PeekInbox name 0 w' = Peeked (drop (length rounds) ms).
Proof.
  intros Hi Hok Hnd Hlen w Hc Hdr Hms Hr w'.
  pose proof (inv_acts l 0 [] [] [] _ (inv_start commits d sessions Hi) ltac:(lia) ltac:(lia) Hok Hnd ltac:(intros id0 _ ?%elem_of_nil; done)) as Hinv.
  fold w in Hinv. pose proof (iv_store _ _ _ _ _ Hinv) as (d' & qs & Hd & Hs & _). rewrite Hd in Hc. injection Hc as Hc.
  assert (name ≠ "") as Hname by (intros ->; done).
  assert (∀ n qs w, quiet_store n qs w → PeekInbox name 0 w = Peeked (waiting qs name)) as Hpeek.
  { clear -Hname H0. intros n qs w (d & Hd & Hs & _). unfold PeekInbox. rewrite Hd. cbn [Z.leb]. rewrite (peek_spec n d qs name _ Hs).
    unfold q_named, waiting. rewrite !(proj2 (String.eqb_neq name "") Hname). by destruct (qs !! name). }
  assert (quiet_store (0 + Z.of_nat (length l)) qs w) as Hq by (by exists d').
  rewrite (Hpeek _ _ _ Hq) in Hms. injection Hms as <-.
  destruct (rounds_spec rounds _ qs w sid name Hq Hname Hdr Hr) as (H1 & qs' & H2 & H3). split; [exact H1|].
  unfold w'. etransitivity; [exact (Hpeek _ _ _ H2)|]. by rewrite H3.
Qed.
End Facts.
