(* ===== verification/MeshWitnesses.v ===== *)
(** Concrete runs of the mesh store on which the hypotheses of the store's
    theorems hold: one peer, one session, one binding. *)

From S2P Require Import Prelude GoText MeshTypes MeshStore MeshFreshness MeshFiles MeshSync.
From S2P Require Import MeshInventory MeshBindings MeshStoreFacts MeshInventoryFacts MeshInvariant.
From S2P Require Import MeshSyncFacts MeshWatch MeshListFacts.
From stdpp Require Import base gmap strings list relations.
From Stdlib Require Import ZArith Lia Ascii.

Open Scope Z_scope.

(** A URL library that knows one host. *)
#[export] Instance sample_urls : UrlLib := {|
  url_Parse s := if has_prefix "https://" s then Some (mkURL "https" "example.com" false []) else None |}.

Definition sample_clock (n : nat) : Time := mkTime (1000 + Z.of_nat n) true.
Definition sample_locator : RemoteSessionLocator := mkLocator 1 "peer-1" "root" "session-1" "".
Definition sample_metadata : RawMessage := mkRaw 19 (Some (JObject [("state", JString "working")])) 28.
Definition sample_inventory0 : SessionInventorySnapshot :=
  mkSessionInventory "peer-1" "epoch-1" 5 {["root"]} false ∅.
Definition sample_inventory : SessionInventorySnapshot :=
  got (SessionInventory_Upsert sample_inventory0 sample_locator sample_metadata) sample_inventory0.
Definition sample_uuid : string := "00000000-0000-0000-0000-000000000001".
Definition sample_binding (source : string) : SurfaceBinding :=
  mkBinding 0 "binding-1" "device-1" "cmux" sample_uuid sample_uuid sample_locator source zero_time zero_time.

(** The store before and after the session inventory of the peer. *)
Definition sample_store (io : list bool) : Store := new_store sample_clock io.
Definition begun_with (io : list bool) : Store :=
  (BeginSessionInventory "peer-1" ["root"] "epoch-1" 5 (sample_store io)).2.
Definition committed : Store := (SessionInventory_Commit sample_inventory (begun_with [])).2.
Definition bound : Store := (PutSurfaceBinding (sample_binding "cli") false committed).2.
Definition spent : SessionInventorySnapshot := si_close sample_inventory (si_pending sample_inventory).

Lemma sample_upserted :
  SessionInventory_Upsert sample_inventory0 sample_locator sample_metadata = Ok sample_inventory.
Proof. by vm_compute. Qed.
Lemma sample_wf0 : pending_wf sample_inventory0.
Proof. intros k item Hk. done. Qed.
Lemma sample_wf : pending_wf sample_inventory.
Proof. exact (Upsert_wf _ _ _ _ sample_wf0 sample_upserted). Qed.
Lemma begun_ok io : head io ≠ Some true →
  BeginSessionInventory "peer-1" ["root"] "epoch-1" 5 (sample_store io) = (Ok sample_inventory0, begun_with io).
Proof. destruct io as [|[] io]; intros Hio; [by vm_compute|done|by vm_compute]. Qed.
Lemma commit_ok : SessionInventory_Commit sample_inventory (begun_with []) = (Ok spent, committed).
Proof. by vm_compute. Qed.

Lemma sample_fits : op_fits (OpCommitSessionInventory sample_inventory).
Proof.
  assert (si_pending sample_inventory =
    {[nul_key (loc_ProfileScope sample_locator) (loc_SessionID sample_locator) :=
      mkPending sample_locator sample_metadata]}) as Hp by (vm_compute; reflexivity).
  unfold op_fits. rewrite Hp. apply map_Forall_singleton. vm_compute. reflexivity.
Qed.

(** The steps that lead to [bound]. *)
Lemma bound_reachable : rtc mesh_step (sample_store []) bound.
Proof.
  eapply rtc_l.
  { apply (step_op (OpBeginSessionInventory "peer-1" ["root"] "epoch-1" 5) _ (Ok tt) (begun_with [])); [done|].
    by vm_compute. }
  eapply rtc_l.
  { apply (step_op (OpCommitSessionInventory sample_inventory) _ (Ok tt) committed); [apply sample_fits|].
    by vm_compute. }
  apply rtc_once, (step_op (OpPutSurfaceBinding (sample_binding "cli") false) _ (Ok tt)); [done|]. by vm_compute.
Qed.
Lemma bound_disk_ok : disk_ok (st_disk bound).
Proof.
  assert (disk_ok (st_disk (sample_store []))) as Hempty by (split; apply map_Forall_empty).
  revert Hempty. pose proof bound_reachable as Hr. induction Hr as [|s1 s2 s3 Hs _ IH]; [done|].
  intros H1. by apply IH, (mesh_step_preserves s1).
Qed.

(** ** Session inventories *)

Lemma committed_disk_ok : disk_ok (st_disk committed).
Proof.
  apply (reachable_disk_ok sample_clock []). eapply rtc_l.
  { apply (step_op (OpBeginSessionInventory "peer-1" ["root"] "epoch-1" 5) _ (Ok tt) (begun_with [])); [done|].
    by vm_compute. }
  apply rtc_once, (step_op (OpCommitSessionInventory sample_inventory) _ (Ok tt)); [apply sample_fits|]. by vm_compute.
Qed.
Lemma committed_files : sessions_valid (st_disk committed) ∧ canonical (st_disk committed).
Proof.
  split; intros k f Hf p Hp;
    destruct (ok_sessions _ committed_disk_ok _ _ Hf) as (q & -> & [Hv _]%accept_session_ok & Hw);
    by injection Hp as <-.
Qed.

Lemma SessionInventory_Commit_spec_witness :
  inventory_spec sample_inventory (st_disk (begun_with [])) sample_locator
    (GetRemoteSession sample_locator committed).1.
Proof.
  apply (SessionInventory_Commit_spec sample_inventory (begun_with []) spent committed sample_locator).
  - exact sample_wf.
  - exact commit_ok.
  - apply committed_files.
  - by vm_compute.
  - by vm_compute.
Defined.

(** The session file is written and the peer record is not. *)
Definition interrupted : Store :=
  (SessionInventory_Commit sample_inventory (begun_with [false; false; true])).2.
Definition sample_projection : RemoteSessionProjection :=
  mkProjection 1 sample_locator sample_metadata (mkTime 1001 true) (mkTime 1001 true) "epoch-1" 5 FreshnessSyncing.
Definition interrupted_view : RemoteSessionProjection :=
  got (GetRemoteSession sample_locator interrupted).1 sample_projection.

Lemma SessionInventory_interrupted_witness :
  (GetRemoteSession sample_locator interrupted).1 = Ok interrupted_view ∧
  rs_Freshness interrupted_view ≠ FreshnessFresh.
Proof.
  assert ((GetRemoteSession sample_locator interrupted).1 = Ok interrupted_view) as Hv by by vm_compute.
  split; [exact Hv|].
  apply (SessionInventory_interrupted_fails_closed "peer-1" ["root"] "epoch-1" 5
    (sample_store [false; false; true]) sample_inventory0 (begun_with [false; false; true])
    sample_inventory (begun_with [false; false; true]) (ErrIO "write") interrupted sample_locator).
  - by apply begun_ok.
  - apply rtc_once. exists sample_locator, sample_metadata. exact sample_upserted.
  - done.
  - by vm_compute.
  - by vm_compute.
  - exact Hv.
Defined.

Lemma SessionInventory_cursor_witness :
  SessionInventory_Commit spent committed = (Err ErrSnapshotClosed, committed).
Proof.
  apply (SessionInventory_cursor_monotone sample_inventory (begun_with []) spent committed committed).
  - exact commit_ok.
  - done.
Defined.

(** ** Reachable stores *)

Lemma mesh_reachable_listings_witness : ∃ bindings, ListSurfaceBindings bound = (Ok bindings, bound).
Proof.
  destruct (mesh_reachable_listings sample_clock [] bound bound_reachable) as (_ & _ & _ & Hb & _).
  exact Hb.
Defined.

Lemma no_forbidden_metadata_witness :
  ∃ p, (GetRemoteSession sample_locator committed).1 = Ok p ∧ metadata_safe (rs_Metadata p).
Proof.
  set (p := got (GetRemoteSession sample_locator committed).1 sample_projection).
  assert ((GetRemoteSession sample_locator committed).1 = Ok p) as Hp by by vm_compute.
  exists p. split; [exact Hp|]. apply (no_forbidden_metadata committed).
  - by vm_compute.
  - left. exists sample_locator, (GetRemoteSession sample_locator committed).2.
    rewrite <- Hp. apply surjective_pairing.
Defined.

(** Metadata that fits as it arrives and no longer fits once it is indented:
    its inventory is accepted and committed, and from then on the session
    cannot be read, nor any session of the store listed, nor another inventory
    of the peer begun. *)
Definition dense_metadata : RawMessage :=
  mkRaw 30000 (Some (JObject [("state", JString "working")])) 40000.
Definition dense_inventory : SessionInventorySnapshot :=
  match SessionInventory_Upsert sample_inventory0 sample_locator dense_metadata with
  | Ok x => x | Err _ => sample_inventory0
  end.
Definition outgrown : Store := (SessionInventory_Commit dense_inventory (begun_with [])).2.
Lemma metadata_outgrows_limit :
  SessionInventory_Upsert sample_inventory0 sample_locator dense_metadata = Ok dense_inventory ∧
  is_ok (SessionInventory_Commit dense_inventory (begun_with [])).1 = true ∧
  is_ok (GetRemoteSession sample_locator outgrown).1 = false ∧
  is_ok (ListRemoteSessions "" "" outgrown).1 = false ∧
  is_ok (BeginSessionInventory "peer-1" ["root"] "epoch-1" 6 outgrown).1 = false.
Proof. by vm_compute. Qed.

(** ** Disconnection *)

Definition disconnected : Store := (MarkPeerDisconnected "peer-1" committed).2.
Lemma MarkPeerDisconnected_witness :
  match (GetRemoteSession sample_locator committed).1 with
  | Ok p => ∃ p', (GetRemoteSession sample_locator disconnected).1 = Ok p' ∧ stale_or_gone (rs_Freshness p')
  | Err _ => False
  end.
Proof.
  assert (MarkPeerDisconnected "peer-1" committed = (Ok tt, disconnected)) as Hm by by vm_compute.
  destruct (MarkPeerDisconnected_spec "peer-1" committed disconnected (proj2 committed_files) Hm) as [Hs _].
  specialize (Hs sample_locator eq_refl eq_refl).
  set (r := (GetRemoteSession sample_locator committed).1) in *.
  assert (is_ok r = true) as Hr by by vm_compute.
  destruct r as [p|e]; [|done]. destruct Hs as (p' & Hp' & Hf & _). exact (ex_intro _ p' (conj Hp' Hf)).
Defined.

(** ** Surface bindings *)

Definition sample_existing : SurfaceBinding :=
  got (GetSurfaceBinding sample_uuid bound).1 (sample_binding "cli").
Definition rebound : Store := (PutSurfaceBinding (sample_binding "operator") false bound).2.
Lemma PutSurfaceBinding_witness :
  PutSurfaceBinding (sample_binding "operator") false bound = (Ok tt, rebound) ∧
  ∃ b', GetSurfaceBinding sample_uuid rebound = (Ok b', rebound) ∧ sb_Source b' = "cli".
Proof.
  assert (PutSurfaceBinding (sample_binding "operator") false bound = (Ok tt, rebound)) as Hrun by by vm_compute.
  assert (GetSurfaceBinding (sb_SurfaceID (sample_binding "operator")) bound = (Ok sample_existing, bound)) as Hg
    by by vm_compute.
  assert (sameTarget sample_existing (sample_binding "operator") = true) as Hsame by by vm_compute.
  assert (sb_Source sample_existing = "cli") as Hsrc by by vm_compute.
  split; [exact Hrun|].
  pose proof (PutSurfaceBinding_spec (sample_binding "operator") false bound sample_existing bound_disk_ok Hg)
    as Hput.
  rewrite Hrun in Hput. destruct Hput as [(_ & b' & Hb' & _ & Hk) _].
  destruct (Hk Hsame) as (_ & Hs & _).
  exact (ex_intro _ b' (conj Hb' (eq_trans Hs Hsrc))).
Defined.

Definition validated : result MeshError ResolvedSurfaceBinding * Store :=
  ValidateAndPutSurfaceBinding (sample_binding "cli") false committed.
Definition sample_resolved : ResolvedSurfaceBinding :=
  got validated.1 (mkResolved (sample_binding "cli") None None FreshnessStale FreshnessStale).
Lemma ValidateAndPut_witness :
  ResolveSurfaceBinding sample_uuid validated.2 = (Ok sample_resolved, validated.2).
Proof.
  apply (ValidateAndPut_agrees_with_Resolve (sample_binding "cli") false committed).
  by vm_compute.
Defined.

(** ** Subscriptions *)

(** A subscriber with room for two changes. The commit publishes three: while
    the store drains the full channel, the subscriber takes one change more. *)
Definition racing : list nat := [0; 0; 0; 0; 1]%nat.
Definition watching (race : list nat) : Z * Store := Watch 2 race (begun_with []).
Definition watched (race : list nat) : Store :=
  (SessionInventory_Commit sample_inventory (watching race).2).2.
Definition numbers (race : list nat) : option (list Z * list Z * list Z) :=
  (λ w, (chg_Sequence <$> wa_sent w, chg_Sequence <$> wa_got w, chg_Sequence <$> ch_buf (wa_ch w))) <$>
  st_watchers (watched race) !! (watching race).1.

(** The subscriber sees change 3 right away, without change 2; the gap waits. *)
Lemma skip_seen_before_gap : numbers racing = Some ([2; 3; 4], [3], [4]).
Proof. vm_compute. reflexivity. Qed.

Lemma Watch_witness :
  ∃ w, st_watchers (watched racing) !! (watching racing).1 = Some w ∧
    numbered (st_changeSeq (watching racing).2) (wa_sent w) (st_changeSeq (watched racing)) ∧
    List.filter no_gap (received_or_queued w) `sublist_of` wa_sent w ∧
    accounted (wa_sent w) (received_or_queued w) ∧
    (ch_buf (wa_ch w) = [] → Forall no_gap (wa_got w) → wa_got w = wa_sent w).
Proof.
  apply (Watch_no_silent_loss 2 racing (begun_with []) (watching racing).1 (watching racing).2 (watched racing)).
  - done.
  - apply rtc_once. apply (wstep_op _ _ (OpCommitSessionInventory sample_inventory) (Ok tt)). by vm_compute.
Defined.
