(* ===== verification/HandoffWitnesses.v ===== *)
(** Concrete runs of the handoff stores, of the outbox and of the target on which the
    hypotheses of their theorems hold. *)

From S2P Require Import Prelude GoText RuneText HandoffManifest HandoffRecord HandoffStore HandoffFacts HandoffSteps.
From S2P Require Import HandoffSystem HandoffLiveness HandoffWorld HandoffWorldFacts HandoffOutbox HandoffOutboxFacts Session.
From S2P Require Import HandoffTarget HandoffTargetFacts HandoffTargetLaws HandoffEndToEnd HandoffLocks.
From stdpp Require Import base gmap strings list relations.
From Stdlib Require Import ZArith Lia Ascii.

Open Scope Z_scope.

Definition string_of_list : list ascii → string := foldr String EmptyString.
Definition digits64 (c : ascii) : string := string_of_list (repeat c 64).
(** A digest that tells the source agent of a manifest, and nothing else. *)
#[export] Instance sample_digests : DigestLib := {|
  marshal_sha256 m := digits64 (if String.eqb (m_SourceAgent m) "codex" then "a" else "b");
  text_sha256 s := digits64 "c" |}.

Definition sample_time (n : Z) : Time := mkTime (1000 + n) true.
Definition object40 : string := string_of_list (repeat "1"%char 40).
Definition sample_repository : RepositorySnapshot :=
  mkRepository "arcmux" "lin-labs/arcmux" "main" object40 object40 object40 RepositoryClean
    TransferRemoteBranch None.
Definition sample_history : HistoryRef := mkHistory "history-1" "log.jsonl" (digits64 "d") 10 "".
Definition sample_manifest : Manifest :=
  mkManifest 1 "handoff-1" "trace-1" "" (mkSourceSession "device-1" "root" "session-1") "codex"
    (mkTargetAgent "device-2" "claude") (mkGoal "finish the tests" "explicit_operator" (sample_time 0))
    sample_history sample_repository (Some []) (mkEvidence ValidationNotRun "" None) (sample_time 0).
Definition sample_hclock (n : nat) : Time := sample_time (Z.of_nat n).
Definition empty_store : HStore := hempty sample_hclock [].

(** ** The source side *)

Definition queued_store : HStore := (QueueSource sample_manifest empty_store).2.
Definition queued_record : SourceRecord :=
  mkSource SourceQueued (new_body sample_manifest (digits64 "a") (sample_time 0)) None.
Lemma queued_ok : QueueSource sample_manifest empty_store = (Ok (queued_record, false), queued_store).
Proof. by vm_compute. Qed.
Lemma queued_step : handoff_step empty_store queued_store.
Proof. apply (hstep_op (OpQueueSource sample_manifest) _ (Ok tt)). by vm_compute. Qed.
Lemma queued_file : hs_source queued_store !! "handoff-1" = Some (Regular 384 (Some queued_record)).
Proof. by vm_compute. Qed.
Lemma empty_store_ok : store_ok empty_store.
Proof. split; apply map_Forall_empty. Qed.

Definition to_preparing : Transition := mkTransition (sample_time 5) None None None.
Definition preparing : result HandoffError SourceRecord * HStore :=
  TransitionSource "handoff-1" 1 SourcePreparingRemote to_preparing queued_store.
Definition preparing_record : SourceRecord := got preparing.1 queued_record.
Lemma preparing_ok :
  TransitionSource "handoff-1" 1 SourcePreparingRemote to_preparing queued_store =
  (Ok preparing_record, preparing.2).
Proof. by vm_compute. Qed.
Lemma preparing_step : handoff_step queued_store preparing.2.
Proof.
  apply (hstep_op (OpTransitionSource "handoff-1" 1 SourcePreparingRemote to_preparing) _ (Ok tt)).
  by vm_compute.
Qed.

Lemma reachable_source_records_witness :
  ∃ r, Regular 384 (Some queued_record) = Regular 384 (Some r) ∧ SourceRecord_validate r = Ok tt.
Proof.
  destruct (reachable_source_records sample_hclock [] queued_store "handoff-1" _
    (rtc_once _ _ queued_step) queued_file) as (r & Hr & Hv & _).
  exact (ex_intro _ r (conj Hr Hv)).
Defined.

Lemma handoff_promises_witness :
  ∃ r', hs_source preparing.2 !! "handoff-1" = Some (Regular 384 (Some r')) ∧ kept queued_record r'.
Proof.
  destruct (handoff_promises_kept queued_store preparing.2 "handoff-1" queued_record
    (rtc_once _ _ preparing_step) queued_file) as (r' & Hr' & Hk & _).
  exact (ex_intro _ r' (conj Hr' Hk)).
Defined.

Lemma queued_store_ok : store_ok queued_store.
Proof. eapply store_step_ok; [apply handoff_step_store, queued_step|apply empty_store_ok]. Qed.

Lemma TransitionSource_cas_witness :
  ∃ e, TransitionSource "handoff-1" 1 SourceFailed to_preparing preparing.2 = (Err e, preparing.2).
Proof.
  destruct (TransitionSource_cas "handoff-1" 1 SourcePreparingRemote to_preparing queued_store
    preparing_record preparing.2 0 preparing.2 SourceFailed to_preparing queued_store_ok preparing_ok)
    as (e & He & _).
  - lia.
  - unfold u64_max. lia.
  - apply nsteps_O.
  - exact (ex_intro _ e He).
Defined.

Lemma QueueSource_idempotent_witness :
  ∃ r', QueueSource sample_manifest preparing.2 = (Ok (r', true), preparing.2) ∧ kept queued_record r'.
Proof.
  apply (QueueSource_idempotent sample_manifest empty_store queued_record false queued_store preparing.2).
  - exact empty_store_ok.
  - exact queued_ok.
  - exact (rtc_once _ _ preparing_step).
Defined.

Lemma legal_transition_enabled_witness :
  ∃ t r' s', TransitionSource "handoff-1" 1 SourcePreparingRemote t queued_store = (Ok r', s') ∧
    hs_source s' !! "handoff-1" = Some (Regular 384 (Some r')) ∧ src_State r' = SourcePreparingRemote.
Proof.
  apply (legal_transition_enabled sample_hclock [] queued_store "handoff-1" queued_record SourcePreparingRemote
    (rtc_once _ _ queued_step) queued_file).
  - reflexivity.
  - vm_compute. split; [discriminate|reflexivity].
  - by vm_compute.
  - by vm_compute.
Defined.

(** ** The target side *)

Definition sample_target_locator : TargetLocator := mkTargetLocator "device-2" "root" "session-2".
(** Received, validated, prepared, launched and accepted, at revisions 1 to 5. *)
Definition accept_target : HM unit :=
  _ ← ReceiveTarget sample_manifest;
  _ ← TransitionTarget "handoff-1" 1 TargetValidating (mkTransition zero_time None None None);
  _ ← TransitionTarget "handoff-1" 2 TargetPrepared (mkTransition zero_time None None None);
  _ ← TransitionTarget "handoff-1" 3 TargetLaunching (mkTransition zero_time None None None);
  _ ← TransitionTarget "handoff-1" 4 TargetAccepted
        (mkTransition zero_time None None (Some sample_target_locator));
  mret tt.
Definition accepted_store : HStore := (accept_target empty_store).2.
Definition sample_marker : string := LaunchMarker "handoff-1" (digits64 "a").
Definition acknowledgement : result HandoffError (TargetRecord * bool) * HStore :=
  AcknowledgeTarget sample_marker "context_loaded" "root" "session-2" zero_time accepted_store.
Definition acknowledged_target : TargetRecord :=
  (got acknowledgement.1 (mkTarget TargetReceived (src_Body queued_record), true)).1.

Lemma AcknowledgeTarget_witness :
  acknowledged sample_marker "root" "session-2" accepted_store acknowledged_target false acknowledgement.2.
Proof.
  apply (AcknowledgeTarget_authentic sample_marker "context_loaded" "root" "session-2" zero_time accepted_store).
  by vm_compute.
Defined.

(** ** The outbox *)

(** Nobody else uses the store. *)
#[export] Instance nobody : Others := {| others k s := s; others_steps k s := rtc_refl _ s |}.

(** Peers that answer every call, for the device "device-1". *)
#[export] Instance sample_env : OutboxEnv := {|
  oe_deviceID := "device-1";
  oe_now k := sample_time (Z.of_nat k);
  oe_lookupSession k scope id := Some (mkDetail scope id "codex" "/work" "working" (Some "log.jsonl") None);
  oe_resolveProject k p := Some true;
  oe_inspectRepository k cwd p := Ok sample_repository;
  oe_publishHistory k name conversation := Ok sample_history;
  oe_newID k prefix := Some (prefix +:+ "1");
  oe_callPrepare k dev m := Ok (mkRemote (m_HandoffID m) (digits64 "a") TargetPrepared 1 None None);
  oe_callLaunch k dev id digest := Ok (mkRemote id digest TargetAccepted 2 None (Some sample_target_locator));
  oe_callVerify k dev id digest l := Ok (mkVerification id digest l "context_loaded" true
    (Some (mkAck "context_loaded" digest l (sample_time 0))));
  oe_closeSource k src timeout := true |}.

Definition sample_request : PrepareRequest :=
  mkRequest "root" "session-1" "device-2" "claude" "arcmux" "finish the tests" "" "" "" None.
Definition outbox0 : World Call := mkWorld empty_store 0 [].
Definition run_all (ops : list outbox_op) : World Call := foldl (λ w o, (run_outbox o w).2) outbox0 ops.
Definition full_handoff : list outbox_op :=
  [OutPrepare sample_request; OutLaunch "handoff-1"; OutVerify "handoff-1";
   OutRetire "handoff-1" RetirementImmediate second].

Lemma run_all_reachable ops : rtc outbox_step outbox0 (run_all ops).
Proof.
  unfold run_all. generalize outbox0. induction ops as [|o ops IH]; intros w; simpl; [done|].
  eapply rtc_l; [|apply IH]. apply (ostep_op o w (run_outbox o w).1). apply surjective_pairing.
Qed.

(** The whole journey: prepared, launched, verified and the source closed. *)
Lemma outbox_calls_authorized_witness :
  (∀ c, c ∈ w_calls (run_all full_handoff) → authorized (w_store (run_all full_handoff)) c) ∧
  CallClose (mkSourceSession "device-1" "root" "session-1") second ∈ w_calls (run_all full_handoff).
Proof.
  split.
  - apply (outbox_calls_authorized sample_hclock [] 0). exact (run_all_reachable full_handoff).
  - vm_compute. repeat constructor.
Defined.

(** * The target side

    Concrete runs of the target side on which the hypotheses of its theorems
    hold. *)

(** ** A daemon that can launch *)

Definition sample_target : TargetRecord :=
  mkTarget TargetReceived (new_body sample_manifest (digits64 "a") (sample_time 0)).
Definition sample_preparation : RepositoryPreparation :=
  mkPreparation "/work/tree" object40 "main" "main".
(** The continuation: idle, and after tick [sent] with the prompt delivered. *)
Definition sample_session (sent k : nat) : Snapshot :=
  let '(name, owner) := handoffLaunchSessionIdentity sample_target in
  let fresh_session := NewSession "session-2" name "claude" "/work/tree" (sample_time 0) in
  let s := SetEnv {[ instructionsKey := "/state/launch-instructions.json" ]}
             (MarkPrivate (SetOwnerID owner (SetState StateIdle (sample_time 1) fresh_session))) in
  SetCurrentCommand (if Nat.leb sent k then handoffLaunchCurrentCommand sample_target else "") s.

#[export] Instance sample_target_env : TargetEnv := {|
  te_now k := sample_time (Z.of_nat k);
  te_lock k := true;
  te_resumeDeadline k := 1000%nat;
  te_validateProfile k name := true;
  te_Project := unit;
  te_loadProjects k := Some (λ _, Some tt);
  te_snapshotHistory k id h := Ok "/state/history.md";
  te_prepareRepository k m p := Ok tt;
  te_runtime := true;
  te_prepareLaunchRepo k m p := Ok sample_preparation;
  te_publisher := true;
  te_publishLaunchFile k id path m p := Some "/state/launch-instructions.json";
  te_publishRendezvous k marker := true;
  te_createSession k rq := Some "pointer";
  te_lookupSession k id := Some "pointer";
  te_snapshot k sess := sample_session 31 k;
  te_sendPrompt k id prompt := true;
  te_persistSessions k := true;
  te_snapshot_ID j k sess := eq_refl |}.

Definition target0 : World Action := mkWorld empty_store 0 [].
Definition target_ops : list target_op :=
  [TgtPrepare 1000 "device-1" sample_manifest; TgtLaunch 1000 "device-1" "handoff-1" (digits64 "a");
   TgtAcknowledge sample_marker "context_loaded" "root" "session-2" (sample_time 100)].
Definition run_targets (ops : list target_op) : World Action :=
  foldl (λ w o, (run_target "device-2" o w).2) target0 ops.

Definition sample_granted (peer id digest : string) : Prop :=
  peer = "device-1" ∧ id = "handoff-1" ∧ digest = digits64 "a".

Lemma nobody_launches granted k s :
  store_ok s → launches_granted granted s → launches_granted granted (others k s).
Proof. by intros _ ?. Qed.

Lemma run_targets_reachable ops :
  Forall (op_allowed sample_granted) ops →
  rtc (target_app_step sample_granted "device-2") target0 (run_targets ops).
Proof.
  unfold run_targets. generalize target0. induction ops as [|o ops IH]; intros w Hops; simpl; [done|].
  inversion Hops; subst. eapply rtc_l; [|by apply IH].
  apply (tstep_op sample_granted "device-2" o w (run_target "device-2" o w).1); [done|]. apply surjective_pairing.
Qed.

(** Prepared, launched, prompted and acknowledged. *)
Lemma target_actions_authorized_witness :
  (∀ c, c ∈ w_calls (run_targets target_ops) →
     action_justified sample_granted "device-2" (w_store (run_targets target_ops)) c) ∧
  SendPrompt "session-2" (handoffLaunchPrompt sample_target) ∈ w_calls (run_targets target_ops).
Proof.
  split.
  - apply (target_actions_authorized sample_granted "device-2" (nobody_launches sample_granted) sample_hclock [] 0).
    apply (run_targets_reachable target_ops). by repeat constructor.
  - vm_compute. repeat constructor.
Defined.

Lemma launch_prompt_evidence_witness :
  truncatePreview (handoffLaunchPrompt sample_target) 200 = handoffLaunchCurrentCommand sample_target.
Proof. apply (launch_prompt_evidence sample_target). reflexivity. Defined.

(** ** Verification *)

Definition acknowledged_world : World Action := run_targets target_ops.
Lemma acknowledged_world_ok : store_ok (w_store acknowledged_world).
Proof.
  split; intros id f Hf.
  - vm_compute in Hf. destruct id; done.
  - apply elem_of_map_to_list in Hf. vm_compute in Hf. apply list_elem_of_singleton in Hf.
    injection Hf as -> ->. eexists. split; [done|]. split; vm_compute; done.
Qed.

Definition verification : RemoteVerification :=
  mkVerification "handoff-1" (digits64 "a") sample_target_locator "context_loaded" true
    (Some (mkAck "context_loaded" (digits64 "a") sample_target_locator (sample_time 100))).
Lemma verify_answers_durable_proof_witness :
  acknowledged_world = acknowledged_world ∧
  ∃ r, backs (w_store acknowledged_world) "device-1" "device-2" "handoff-1" (digits64 "a")
         sample_target_locator verification r.
Proof.
  apply (verify_answers_durable_proof "device-1" "device-2" "handoff-1" (digits64 "a") sample_target_locator
    acknowledged_world verification acknowledged_world).
  - exact acknowledged_world_ok.
  - vm_compute. reflexivity.
Defined.

(** ** Both sides *)

(** The source's peer is the target application above. *)
Definition linked_env : OutboxEnv := {|
  oe_deviceID := "device-1";
  oe_now k := sample_time (Z.of_nat k);
  oe_lookupSession k scope id := Some (mkDetail scope id "codex" "/work" "working" (Some "log.jsonl") None);
  oe_resolveProject k p := Some true;
  oe_inspectRepository k cwd p := Ok sample_repository;
  oe_publishHistory k name conversation := Ok sample_history;
  oe_newID k prefix := Some (prefix +:+ "1");
  oe_callPrepare k dev m := Ok (mkRemote (m_HandoffID m) (digits64 "a") TargetPrepared 1 None None);
  oe_callLaunch k dev id digest := Ok (mkRemote id digest TargetAccepted 2 None (Some sample_target_locator));
  oe_callVerify k dev id digest l :=
    over_the_wire (verify "device-1" dev id digest l acknowledged_world).1;
  oe_closeSource k src timeout := true |}.

Definition source_world : World Call :=
  (outbox_launch (H1:=linked_env) "handoff-1"
    (outbox_prepare (H1:=linked_env) (mkRequest "root" "session-1" "device-2" "claude" "arcmux" "finish the tests" "" "" "" None)
      (mkWorld empty_store 0 [])).2).2.
Lemma source_world_ok : store_ok (w_store source_world).
Proof.
  split; intros id f Hf.
  - apply elem_of_map_to_list in Hf. vm_compute in Hf. apply list_elem_of_singleton in Hf.
    injection Hf as -> ->. eexists. split; [done|]. split; vm_compute; done.
  - vm_compute in Hf. destruct id; done.
Qed.
Definition verified : SourceDTO * World Call :=
  match outbox_verify (H1:=linked_env) "handoff-1" source_world with
  | (Ok d, w) => (d, w)
  | (Err _, w) => (sourceHandoffRecordDTO queued_record, w)
  end.

Lemma verified_means_acknowledged_witness :
  ∃ (rs : SourceRecord) (rt : TargetRecord) ack, stored (w_store verified.2) rs ∧
    stored (w_store acknowledged_world) rt ∧ rb_ContextLoaded (src_Body rs) = Some ack ∧
    rb_ContextLoaded (tgt_Body rt) = Some ack.
Proof.
  destruct (verified_means_acknowledged (H1:=linked_env) "device-1" acknowledged_world "handoff-1" source_world
    verified.1 verified.2) as (rs & rt & ack & H1 & H2 & _ & _ & _ & _ & H3 & H4 & _).
  - exact acknowledged_world_ok.
  - exact source_world_ok.
  - reflexivity.
  - vm_compute. reflexivity.
  - vm_compute. reflexivity.
  - exact (ex_intro _ rs (ex_intro _ rt (ex_intro _ ack (conj H1 (conj H2 (conj H3 H4)))))).
Defined.

(** ** A conflict while the session is created *)

Definition launching_store : HStore :=
  ((_ ← ReceiveTarget sample_manifest;
    _ ← TransitionTarget "handoff-1" 1 TargetValidating (mkTransition zero_time None None None);
    _ ← TransitionTarget "handoff-1" 2 TargetPrepared (mkTransition zero_time None None None);
    TransitionTarget "handoff-1" 3 TargetLaunching (mkTransition zero_time None None None)) empty_store).2.
Definition launching_record : TargetRecord :=
  match hs_target launching_store !! "handoff-1" with Some (Regular _ (Some r)) => r | _ => sample_target end.

(** Another process postpones the launch at tick 0. *)
Definition postpone : Transition :=
  mkTransition (sample_time 50) (Some (sample_time 60))
    (Some (mkFailure FailureInternal "" true (sample_time 50))) None.
Definition meddle (k : nat) (s : HStore) : HStore :=
  match k with O => (TransitionTarget "handoff-1" 4 TargetLaunchWaitingAssets postpone s).2 | _ => s end.
Lemma meddle_steps k s : rtc handoff_step s (meddle k s).
Proof.
  destruct k as [|k]; [|done]. apply rtc_once.
  by apply (op_step _ (OpTransitionTarget "handoff-1" 4 TargetLaunchWaitingAssets postpone)).
Qed.
Definition meddler : Others := {| others := meddle; others_steps := meddle_steps |}.

Lemma locator_conflict_not_rejected_witness :
  ∃ w', deliver_launch (H0:=meddler) 100 launching_record sample_preparation "/state/launch-instructions.json"
          (mkWorld launching_store 0 []) = (Err (internalError "unable to reject handoff"), w').
Proof.
  eexists.
  apply (locator_conflict_not_rejected (H0:=meddler) 100 launching_record sample_preparation
    "/state/launch-instructions.json" "pointer" HErrCASConflict (mkWorld launching_store 0 [])).
  - vm_compute. reflexivity.
  - reflexivity.
  - vm_compute. reflexivity.
  - reflexivity.
  - left.
  - intros t. vm_compute. reflexivity.
Defined.

(** ** Locks *)

Definition contended : LockTable := lock_begin 2 "handoff-1" (lock_begin 1 "handoff-1" empty_locks).
Lemma prepare_locks_exclude_witness :
  lt_procs contended !! 1%positive = Some (mkGo "handoff-1" 1 Waiting) ∧
  (∀ p g, lt_procs contended !! p = Some g → go_phase g = Waiting →
     is_Some (lock_acquire p g contended) ∨
     ∃ q h, lt_procs contended !! q = Some h ∧ go_id h = go_id g ∧ go_phase h = Holding).
Proof.
  split; [vm_compute; reflexivity|]. apply (prepare_locks_exclude contended).
  eapply rtc_l; [|apply rtc_once].
  - apply (lstep_begin 1 "handoff-1"). reflexivity.
  - apply (lstep_begin 2 "handoff-1"). vm_compute. reflexivity.
Defined.
