(* ===== verification/PeerWitnesses.v ===== *)
(** Concrete registries and connections on which the hypotheses of the peer
    theorems hold. *)

From S2P Require Import Prelude GoText PeerRegistry PeerRpc PeerRpcFacts PeerEvents PeerEventFacts.
From S2P Require Import PeerLink PeerLinkFacts PeerPing.
From stdpp Require Import base gmap strings list relations fin_maps sorting.
From Stdlib Require Import ZArith Lia Ascii.

Open Scope Z_scope.

(** ** Registries *)

#[export] Instance sample_net : NetLib := {|
  net_SplitHostPort s := if String.eqb s "127.0.0.1:9000" then Some ("127.0.0.1", "9000") else None;
  net_IsLoopbackIP s := String.eqb s "127.0.0.1";
  token_hash s := "hash-of-" +:+ s |}.

Definition sample_tunnel : SSHTunnel := mkTunnel "user@host" "127.0.0.1:9000" "127.0.0.1:9000".
Definition sample_peer : Peer := mkPeerEntry "peer-2" "http://127.0.0.1:9000" "secret" (Some sample_tunnel).
Definition sample_registry : Registry :=
  mkRegistry 1 "device-1" true {["peer-1" := "hash-of-token"]} [sample_peer] {["peer-1" := ["mesh.read"]]}.
Definition renewed_peer : Peer := mkPeerEntry "peer-2" "http://127.0.0.1:9001" "renewed" None.

Lemma sample_registry_valid : registry_valid sample_registry.
Proof. apply Registry_Validate_ok. by vm_compute. Qed.

Lemma UpsertPeer_witness :
  mkPeerEntry "peer-2" "http://127.0.0.1:9001" "renewed" (Some sample_tunnel)
    ∈ reg_Peers (UpsertPeer renewed_peer sample_registry).
Proof.
  destruct (UpsertPeer_spec renewed_peer sample_registry sample_registry_valid) as (_ & _ & H & _).
  - by split_and!.
  - exact (H sample_peer (list_elem_of_here _ _) eq_refl eq_refl).
Defined.

Lemma authorize_witness :
  authorize [("peer-1", "hash-of-token")] "Bearer token" = Some ("peer-1", "token").
Proof.
  refine (proj2 (proj2 (authorize_deterministic sample_registry [("peer-1", "hash-of-token")]
    [("peer-1", "hash-of-token")] "Bearer token" "peer-1" "token" sample_registry_valid _ _)) _).
  - by vm_compute.
  - by vm_compute.
  - by vm_compute.
Defined.

(** ** Connections *)

Lemma negotiation_witness :
  intersectCapabilities ["rpc.v1"; "sessions.v1"] ["rpc.v1"] = ["rpc.v1"].
Proof.
  exact (proj1 (negotiation_agrees ["sessions.v1"; "rpc.v1"] ["rpc.v1"; "files.v1"]
    ["rpc.v1"; "sessions.v1"] ["files.v1"; "rpc.v1"] eq_refl eq_refl)).
Defined.

Definition sample_grants : gmap string (list string) := {["peer-1" := ["mesh.read"]]}.
Definition sample_caps : list string := ["rpc.v1"; "sessions.v1"].
Definition sample_spec : MethodSpec := mkSpec "sessions.list" "sessions.v1" "mesh.read".
Definition conn0 : Conn := fresh_conn sample_grants sample_caps "peer-1" 1 4 sample_caps.
Definition conn1 : Conn := mkConn (RegisterHandler sample_spec (Some 0%nat) (cn_manager conn0)).2 (cn_runtime conn0).
Definition conn2 : Conn :=
  handleApplicationEnvelope (mkEnvelope "req-1" 20 (FrameRequest (Some "sessions.list"))) conn1.
Definition conn3 : Conn := handleApplicationEnvelope (mkEnvelope "req-1" 0 FrameCancel) conn2.
Definition conn4 : Conn := finishHandler 0 OutcomeError conn3.

Definition started : RpcEvent :=
  EvStart 0 (mkMethod sample_spec (Some 0%nat)) (mkPrincipal "peer-1" ["mesh.read"]).
Lemma conn2_log : sv_log (rt_server (cn_runtime conn2)) = [started].
Proof. by vm_compute. Qed.
Lemma conn4_log : sv_log (rt_server (cn_runtime conn4)) = [started] ++ EvCancel 0 :: [].
Proof. by vm_compute. Qed.
Lemma conn2_reachable : rtc conn_step conn0 conn2.
Proof. eapply rtc_l; [apply (cs_handler sample_spec (Some 0%nat))|]. apply rtc_once, cs_frame. Qed.
Lemma conn4_reachable : rtc conn_step conn0 conn4.
Proof.
  etrans; [exact conn2_reachable|]. eapply rtc_l; [apply cs_frame|]. apply rtc_once, cs_finish.
Qed.

Lemma rpc_default_deny_witness :
  ∃ granted, sample_grants !! "peer-1" = Some granted ∧ "mesh.read" ∈ granted.
Proof.
  refine (proj1 (proj2 (proj2 (rpc_default_deny sample_grants sample_caps "peer-1" 1 4 sample_caps conn2 0
    (mkMethod sample_spec (Some 0%nat)) (mkPrincipal "peer-1" ["mesh.read"]) conn2_reachable _)))).
  rewrite conn2_log. apply list_elem_of_here.
Defined.

Lemma rpc_bounded_witness : (size (sv_inflight (rt_server (cn_runtime conn2))) ≤ 128)%nat.
Proof. exact (proj1 (proj2 (rpc_bounded sample_grants sample_caps "peer-1" 1 4 sample_caps conn2 conn2_reachable))). Defined.

Lemma rpc_cancel_silences_witness : EvAnswer 0 ∉ ([] : list RpcEvent).
Proof.
  exact (rpc_cancel_silences sample_grants sample_caps "peer-1" 1 4 sample_caps conn4 [started] 0 []
    conn4_reachable (or_introl conn4_log)).
Defined.

(** ** Events *)

Definition calm_schedule : list EventAct :=
  [ActSend (plain "a"); ActSend (plain "b"); ActTake; ActWire; ActConfirm; ActTake; ActWire; ActConfirm].

Lemma events_loss_signalled_witness :
  es_gapSent (schedule calm_schedule (new_event_side 1)).2 = false ∧
  gap_confirmed (drop 2 (schedule calm_schedule (new_event_side 1)).1).
Proof.
  assert (in_flight (schedule calm_schedule (new_event_side 1)).2 = []) as Hq by by vm_compute.
  assert (es_done (schedule calm_schedule (new_event_side 1)).2 = false) as Hd by by vm_compute.
  destruct (events_loss_signalled 1 (schedule calm_schedule (new_event_side 1)).1
    (schedule calm_schedule (new_event_side 1)).2 Nat.lt_0_1 (schedule_run calm_schedule (new_event_side 1)) Hd)
    as (_ & _ & _ & H).
  destruct (H Hq) as (_ & Hs & Hl). split; [exact Hs|].
  exact (Hl [ObsAccept (plain "a")] (plain "b") _ eq_refl).
Defined.

Definition burst : list EventAct := [ActSend (plain "a"); ActSend (plain "b")].
Lemma writer_catches_up_witness :
  ∃ l s, event_run (new_event_side 1) l s ∧ in_flight s = [] ∧ es_dirty s = false.
Proof.
  pose proof (writer_catches_up 1 (schedule burst (new_event_side 1)).1 (schedule burst (new_event_side 1)).2
    Nat.lt_0_1 (schedule_run burst (new_event_side 1)) eq_refl) as H.
  destruct (writer_run _ _) as [l s]. destruct H as (H1 & H2 & H3 & _).
  exact (ex_intro _ _ (ex_intro _ _ (conj H1 (conj H2 H3)))).
Defined.

Definition no_subscriptions : Subscriptions := mkSubscriptions ∅ ∅ 0.
Definition peer_event (name : string) : PeerEvent := mkPeerEvent "peer-1" (mkEvent name "").
Lemma subscriber_witness :
  covered "peer-1" [Delivered (peer_event "a"); Dropped (peer_event "b")].
Proof.
  pose proof (sr_publish 1 _ _ [] _ (peer_event "b") (sr_publish 1 _ [] [] _ (peer_event "a")
    (sr_start 1 (SubscribeEvents 1 no_subscriptions).2))) as Hrun.
  exact (proj2 (subscriber_gap_before_event 1 no_subscriptions _ [] _ Hrun) "peer-1").
Defined.

(** ** Retries and redaction *)

Definition sample_config : MeshConfig := mkMeshConfig 500000000 30000000000 10000000000 35000000000 60000000000.
Lemma retry_delay_witness :
  ∃ d, fullJitter (λ n, n - 1) 10 500000000 5000000000 = Some d ∧ d ≤ 5000000000.
Proof.
  destruct (retry_delay_bounds sample_config retryAfterProbeFailure (λ n, n - 1) 10) as (d & Hd & _ & _ & _ & H).
  - by split; vm_compute.
  - by vm_compute.
  - intros n Hn. lia.
  - exact (ex_intro _ d (conj Hd (H (or_introl eq_refl)))).
Defined.

Lemma sample_secret_redactable : redactable "s3cret".
Proof. by split_and!; vm_compute. Qed.
Lemma sanitized_witness :
  contains "s3cret" (sanitizeSecretsError (Some "dial s3cret: s3crets3cret refused") ["s3cret"]) = false.
Proof.
  exact (proj1 (sanitized_errors_are_safe (Some "dial s3cret: s3crets3cret refused") ["s3cret"] "s3cret"
    (Forall_cons_2 _ _ _ sample_secret_redactable (Forall_nil_2 _)) sample_secret_redactable
    (or_introl (list_elem_of_here _ _)))).
Defined.

(** ** Links *)

Definition link1 : Links := (Start sample_registry true new_manager).2.
Definition link2 : Links := (activate "peer-1" "inbound" ["rpc.v1"] ["token"] 100 link1).2.
Definition link_runtime : LinkRuntime := mkLinkRuntime "peer-1" ["token"] false.
Definition link3 : Links := disconnect_claim 1 link_runtime true (Some "peer heartbeat timed out") link2.
Definition link4 : Links := close_link 1 link3.

Lemma link2_reachable : rtc (link_step sample_config sample_registry) new_manager link2.
Proof.
  eapply rtc_l; [by apply (ln_start sample_config sample_registry true)|].
  apply rtc_once, (ln_upgrade sample_config sample_registry "peer-1"). by eexists.
Qed.
Lemma link3_reachable : rtc (link_step sample_config sample_registry) new_manager link3.
Proof. etrans; [exact link2_reachable|]. apply rtc_once, ln_disconnect. by vm_compute. Qed.
Lemma sample_registry_validates : Registry_Validate sample_registry = Ok tt.
Proof. by vm_compute. Qed.

Lemma link_status_witness :
  ∃ s, lk_status link2 !! "peer-1" = Some s ∧
    (ls_State (st_link s) = "connected" ∨ ls_State (st_link s) = "stale").
Proof.
  refine (proj2 (proj1 (link_status_accurate sample_config sample_registry link2 sample_registry_validates
    link2_reachable) "peer-1") _). by exists 1%N.
Defined.

Lemma stale_connection_witness :
  lk_status (reader_frame 1 link_runtime 1 "ping" 200 link4).2 = lk_status link4.
Proof.
  refine (proj2 (proj1 (proj2 (stale_connection_harmless sample_config sample_registry link3 link4 1 link_runtime
    sample_registry_validates link3_reachable _ _ _)) 1 "ping" 200)).
  - by vm_compute.
  - by vm_compute.
  - apply rtc_once, ln_close. by vm_compute.
Defined.

(** ** Pings *)

Definition ping1 : Pings := sendPing_register "t" (new_pings 1).
Lemma ping_witness : pg_panic (sendPing_finish 0 "t" ping1) = false.
Proof.
  assert (∀ ch id, pg_sending ping1 !! ch = Some id → ¬ abandoned ch id ping1) as Hna.
  { intros ch id Hs [He _]. by vm_compute in He. }
  refine (proj1 (ping_channels_closed_once 1 ping1 (sendPing_finish 0 "t" ping1) _ _ Hna)).
  - apply rtc_once. split; [apply pi_register|]. intros ch id Hs. done.
  - apply pi_finish. by vm_compute.
Defined.

(** A peer that cancels a request and sends another one under the same identity
    gets no answer to the second: the end of the first handler, which kept
    running, removes the new entry and cancels it. *)
Definition reuse1 : Conn :=
  handleApplicationEnvelope (mkEnvelope "req-1" 20 (FrameRequest (Some "sessions.list"))) conn3.
Definition reuse2 : Conn := finishHandler 1 (OutcomeResult true 10) (finishHandler 0 OutcomeError reuse1).
Lemma reused_request_unanswered :
  rtc conn_step conn0 reuse2 ∧ (EvAnswer 1 ∉ sv_log (rt_server (cn_runtime reuse2))) ∧
  sv_running (rt_server (cn_runtime reuse2)) = ∅ ∧ ch_buf (rt_app (cn_runtime reuse2)) = [].
Proof.
  assert (sv_log (rt_server (cn_runtime reuse2)) = [started; EvCancel 0;
    EvStart 1 (mkMethod sample_spec (Some 0%nat)) (mkPrincipal "peer-1" ["mesh.read"]); EvCancel 1]) as Hlog by by vm_compute.
  split_and!; [|rewrite Hlog, !elem_of_cons, elem_of_nil; intuition discriminate|by vm_compute|by vm_compute].
  etrans; [exact conn2_reachable|]. eapply rtc_l; [apply cs_frame|]. eapply rtc_l; [apply cs_frame|].
  eapply rtc_l; [apply cs_finish|]. apply rtc_once, cs_finish.
Qed.
