(* ===== verification/WorkWitnesses.v ===== *)
(** A session of three writers, from its first prompt to its current-work
    line, at which the theorems on hook state are applied; and two answers that
    the check of the summarizer lets through; then ticks of the health monitor,
    deliveries and recordings. *)

From S2P Require Import Prelude GoText RuneText Safetext Session Screenstitch StitchFacts HookState.
From S2P Require Import HookFacts SessionView GoalSummary WorkFacts Health HealthFacts Delivery DeliveryFacts.
From stdpp Require Import base gmap sets strings list.
From Stdlib Require Import ZArith Lia Ascii QArith.

Open Scope Z_scope.

#[export] Instance ascii_tables : UnicodeTables := {| lower_beyond := λ r, r |}.

Definition at_ (n : Z) : Time := mkTime (63900000000000000000 + n) true.
Definition ask : TurnContractUpdate :=
  mkUpdate "repair the login page redirect" "" "the login page sends everybody to /home" "" "" "" "".
Definition turn_ops : list HookOp :=
  [HInit "s1" "codex" "look at the login page" (at_ 0);
   HEvent "s1" "codex" EventPromptSubmit "" ask (at_ 1);
   HEvent "s1" "codex" EventToolStart "bash" no_update (at_ 2);
   HEvent "s1" "codex" EventTurnEnd "" no_update (at_ 3)].
Definition s1_snap : Snapshot := NewSession "s1" "login" "codex" "/src" (at_ 0).
Definition dir_of (ops : list HookOp) : HookDir := hook_run ops (no_hooks []).
Definition doc_of (ops : list HookOp) : SessionState :=
  match ReadSessionState (dir_of ops) "s1" with Ok (Some st) => st | _ => zero_state end.

Definition turn_doc : SessionState := Eval vm_compute in doc_of turn_ops.
Definition turn_candidate : goalSummaryCandidateT := Eval vm_compute in
  match goalSummaryCandidate (dir_of turn_ops) s1_snap with
  | Some c => c
  | None => mkCandidate "" "" (SnapshotOverallGoalInput None) "" "" []
  end.
Definition answer : string := " Fixing where users land after they sign in ".
Definition summary_op : HookOp :=
  HSummary "s1" "codex" "Fixing where users land after they sign in" (gc_input turn_candidate) (at_ 5).
Definition work_ops : list HookOp := turn_ops ++ [summary_op].
Definition work_doc : SessionState := Eval vm_compute in doc_of work_ops.

Lemma turn_doc_read : ReadSessionState (dir_of turn_ops) "s1" = Ok (Some turn_doc).
Proof. vm_compute. reflexivity. Qed.
Lemma work_doc_read : ReadSessionState (dir_of work_ops) "s1" = Ok (Some work_doc).
Proof. vm_compute. reflexivity. Qed.

Lemma trusted_fields_backed_witness :
  ∃ c, hk_TurnContract work_doc = Some c ∧ backed (no_hooks []) work_ops "s1" c.
Proof.
  eexists. split; [reflexivity|].
  apply (trusted_fields_backed [] work_ops "s1" work_doc); [exact work_doc_read|reflexivity].
Defined.

Lemma summary_applies_witness :
  ReadSessionState (hook_run [] (dir_of turn_ops)) "s1" = Ok (Some turn_doc).
Proof.
  apply (summary_applies_to_its_document (dir_of turn_ops) [] "s1" turn_doc "codex" "Fixing the sign-in page" (at_ 5)).
  - exact turn_doc_read.
  - intros op Hop. by apply not_elem_of_nil in Hop.
  - vm_compute. reflexivity.
Defined.

Lemma hook_state_refines_log_witness :
  sessionIDRe "s1" = true ∧
  match ReadSessionState (dir_of turn_ops) "s1" with
  | Ok (Some st) => view_of st = mkView false 1 3 (at_ 1) (at_ 3) EventTurnEnd
  | _ => False
  end.
Proof.
  split; [reflexivity|]. pose proof (hook_state_refines_log [] turn_ops "s1" eq_refl) as H.
  unfold dir_of. revert H. vm_compute. exact (λ H, H).
Defined.

Lemma turn_daemon_run : daemon_run [] turn_ops.
Proof.
  apply (daemon_hook [] [_; _; _]); [|done]. apply (daemon_hook [] [_; _]); [|done].
  apply (daemon_hook [] [_]); [|done]. apply (daemon_hook [] []); [constructor|done].
Qed.
Lemma turn_candidate_taken : taken [] turn_ops turn_candidate.
Proof. exists s1_snap. split; [reflexivity|]. vm_compute. reflexivity. Qed.
Lemma work_daemon_run : daemon_run [] work_ops.
Proof.
  apply (daemon_summary [] turn_ops turn_ops turn_candidate answer _ (at_ 4) (at_ 5));
    [apply turn_daemon_run|done|apply turn_candidate_taken|vm_compute; reflexivity].
Qed.

Definition work_view : Summary * Detail := Eval vm_compute in
  match Build "root" s1_snap (Some work_doc) (at_ 6) with
  | Ok v => v
  | Err _ => (base_summary (mkLocator 1 "" "") s1_snap (at_ 6), mkDetail (base_summary (mkLocator 1 "" "") s1_snap (at_ 6)) 0 None)
  end.

Lemma current_work_vouched_witness :
  ∃ cw, sm_CurrentWork work_view.1 = Some cw ∧
    cw_Summary cw = "Fixing where users land after they sign in" ∧ (length (runes (cw_Summary cw)) <= 240)%nat.
Proof.
  eexists. split; [reflexivity|]. split; [reflexivity|].
  eapply (current_work_vouched [] work_ops "root" s1_snap work_doc (at_ 6) work_view.1 work_view.2).
  - exact work_daemon_run.
  - exact work_doc_read.
  - vm_compute. reflexivity.
  - reflexivity.
Defined.

(** ** What the check lets through *)

(** The check compares the answer before control characters are taken out of
    it: a control character inside a word hides the copy, and the line shown is
    the copy. *)
Definition hidden_copy : string := "Now the redire" +:+ String (ascii_of_nat 1) "ct is repaired".
Lemma control_characters_hide_copies :
  validateGoalSummaryOutput hidden_copy turn_candidate (at_ 4) = Ok hidden_copy ∧
  "repair the login page redirect"%string ∈ gc_forbidden turn_candidate ∧
  ∃ cw, NormalizeCurrentWork (mkCurrentWork hidden_copy OverallGoalSummarizerProvenance (at_ 4)) = Ok cw ∧
    containsVerbatimExcerpt (runes (cw_Summary cw)) (runes "repair the login page redirect") = true.
Proof.
  split; [vm_compute; reflexivity|]. split; [by left|].
  exists (mkCurrentWork "Now the redirect is repaired" OverallGoalSummarizerProvenance (at_ 4)).
  split; vm_compute; reflexivity.
Qed.

(** A part of a long word is no excerpt, however long it is. *)
Lemma word_parts_pass :
  containsVerbatimExcerpt (runes "working with supersecrettoken1234 today") (runes "supersecrettoken12345 rotate") = false.
Proof. vm_compute. reflexivity. Qed.

(** * Ticks of the health monitor

    Ticks at concrete inputs: the end of a turn, a capture that fails while
    the session is idle, and a prompt that arrives between a tick's decision
    and its write. *)

Definition codex_profile : Profile := mkProfile "working" ["error"] 3600000000000 "continue" 2 "codex_output".
Definition monitor : Monitor := mkMonitor (2 * second_ns) true.
Definition s1_working : Session := SetState StateWorking (at_ 1) s1_snap.
Definition watch (s : Session) (others : list (Session → Session)) : Watch :=
  mkWatch s "ready" (at_ 0) (mkChan 64 []) [] others.
Definition turn_input (capture : option string) : TickInput :=
  mkInput true capture (at_ 4) (at_ 4) (at_ 5) true (dir_of turn_ops).

Lemma watch_alone s : alone (watch s []).
Proof. reflexivity. Qed.
Lemma s1_working_ok : session_ok s1_working.
Proof. apply SetState_ok. Qed.

Lemma tick_refines_witness :
  runs (tick monitor (turn_input (Some "ready")) codex_profile) (watch s1_working [])
    (λ _ w', session_ok (wt_session w') ∧
       outcome monitor (turn_input (Some "ready")) codex_profile (hook_log "s1" turn_ops (no_hooks []) [])
         (watch s1_working []) w') ∧
  ses_State (wt_session (tick monitor (turn_input (Some "ready")) codex_profile (watch s1_working [])).2) = StateIdle.
Proof.
  split; [|vm_compute; reflexivity].
  apply (tick_refines monitor (turn_input (Some "ready")) codex_profile (watch s1_working []) [] turn_ops);
    [apply watch_alone|apply s1_working_ok|reflexivity|reflexivity].
Defined.

(** The comment of the branch says that the agent is producing output; but an
    idle session passes it only when the screen could not be captured. *)
Lemma failed_capture_wakes_idle :
  ses_State (wt_session (tick monitor (turn_input None) codex_profile
    (watch (SetState StateIdle (at_ 2) s1_snap) [])).2) = StateWorking ∧
  ses_State (wt_session (tick monitor (turn_input (Some "output that just changed")) codex_profile
    (watch (SetState StateIdle (at_ 2) s1_snap) [])).2) = StateIdle.
Proof. split; vm_compute; reflexivity. Qed.

(** The idle timeout of a profile makes no difference, however long a session
    idles or works. *)
Definition late_input : TickInput :=
  mkInput true (Some "ready") (at_ 90000000000000) (at_ 90000000000000) (at_ 90000000000000) true (no_hooks []).
Lemma idle_timeout_unused :
  ch_buf (wt_events (tick monitor late_input codex_profile (watch (SetState StateIdle (at_ 2) s1_snap) [])).2) = [].
Proof. vm_compute. reflexivity. Qed.

(** A prompt delivered after the tick read the session, and before it writes,
    has its new turn declared idle. *)
Lemma stale_decision_overwrites :
  ses_State (wt_session (tick monitor (turn_input (Some "ready")) codex_profile
    (watch s1_working [λ s, s; λ s, s; SetState StateWorking (at_ 4)])).2) = StateIdle.
Proof. vm_compute. reflexivity. Qed.

(** * Deliveries

    Deliveries at concrete inputs: one that the hooks confirm, one that
    times out, and one whose prompt is mistaken for a resume question for
    ever. *)

Definition codex : Agent := mkAgent "codex" "" "".
Definition resume_prompt : string := "please resume the migration of the login page".
Definition login_evidence (prompt : string) : Evidence :=
  mkEvidence "codex" prompt "ready" "" "working" 0 true "s1" (at_ 1).
Definition quiet_world : World := mkWorld (no_hooks []) (λ _, None).
Definition hook_world : World := mkWorld (dir_of turn_ops) (λ _, None).
(** A round [k] retry intervals after the start, on a screen. *)
Definition round_at (screen : string) (w : World) (k : nat) : Round :=
  mkRound (Some screen) w None true (Some screen) true true true
    (at_ (Z.of_nat k * cc_RetryInterval DefaultControllerConfig)) true.
Definition auto_judge : Judge := HooksJudge TypesafeJudge.

(** A screen on which nothing ever happens: one more Enter, then the timeout. *)
Definition still_rounds : list Round := round_at "ready" quiet_world <$> seq 0 20.
Lemma still_paced : paced DefaultControllerConfig (at_ 0) 0 still_rounds.
Proof.
  intros i r Hi. apply list_lookup_fmap_Some in Hi as (k & -> & Hk). apply lookup_seq in Hk as [-> _].
  cbn -[Z.mul Z.add]. lia.
Qed.

Lemma delivery_terminates_witness :
  let run := EnsureIngested DefaultControllerConfig auto_judge codex (login_evidence "repair the login page redirect")
    (at_ 0) still_rounds in
  submits run.2 ≤ 3 ∧ is_Some run.1.
Proof.
  cbv zeta.
  pose proof (delivery_terminates DefaultControllerConfig auto_judge codex
    (login_evidence "repair the login page redirect") (at_ 0) still_rounds) as H.
  specialize (H eq_refl ltac:(vm_compute; discriminate) ltac:(vm_compute; discriminate) still_paced).
  destruct (EnsureIngested _ _ _ _ _ _) as [answer effects]. destruct H as [Hs Hend].
  split; [exact Hs|]. apply Hend. vm_compute. reflexivity.
Defined.

Definition confirmed_round : Round := round_at "ready" hook_world 0.
Definition confirmed : Assessment := mkAssessment StateIngested f097 f097 f005 "hooks" "".
Lemma confirmed_run :
  EnsureIngested DefaultControllerConfig auto_judge codex (login_evidence "repair the login page redirect")
    (at_ 0) [confirmed_round] = (Some (confirmed, None), []).
Proof. vm_compute. reflexivity. Qed.

Lemma delivery_sound_witness :
  ∃ t, (EventPromptSubmit, t) ∈ hook_log "s1" turn_ops (no_hooks []) [] ∧ t_ns (at_ 1) ≤ t_ns t.
Proof.
  destruct (delivery_sound DefaultControllerConfig auto_judge codex (login_evidence "repair the login page redirect")
    (at_ 0) [confirmed_round] confirmed [] eq_refl eq_refl confirmed_run) as (_ & (r & output & k & Hr & _ & _ & Hlog) & _).
  apply list_elem_of_singleton in Hr as ->. exact (Hlog eq_refl [] turn_ops eq_refl).
Defined.

Lemma hooks_end_delivery_witness :
  ∃ a, EnsureIngested DefaultControllerConfig (HooksJudge HeuristicJudge) codex (login_evidence resume_prompt)
    (at_ 0) [confirmed_round] = (Some (a, None), []) ∧ as_State a = StateIngested ∧ as_Source a = "hooks".
Proof.
  apply (hooks_end_delivery DefaultControllerConfig HeuristicJudge codex (login_evidence resume_prompt) (at_ 0)
    confirmed_round [] "ready" turn_doc); [discriminate|reflexivity|reflexivity|exact turn_doc_read|reflexivity].
Defined.

(** A prompt with the word “resume” stays on the screen of a codex session: each
    round takes it for the resume question and types “n”, and no timeout ends
    it. *)
Definition resume_round : Round := round_at ("› " +:+ resume_prompt) quiet_world 0.
Lemma resume_prompts_answered_forever n :
  (EnsureIngested DefaultControllerConfig HeuristicJudge codex (login_evidence resume_prompt) (at_ 0)
     (repeat resume_round n)).1 = None.
Proof.
  apply (blockers_defeat_timeout DefaultControllerConfig HeuristicJudge codex (login_evidence resume_prompt) _
    resume_round ("› " +:+ resume_prompt)); [reflexivity|reflexivity|vm_compute; reflexivity|].
  intros a ->. vm_compute. reflexivity.
Qed.

(** * Recordings

    Concrete captures: the theorem on scrolling logs at an input, and the
    behaviours the tests of the Go package ask for. *)

Definition nl : string := String (ascii_of_nat 10) "".
Definition esc : string := String (ascii_of_nat 27) "".
Definition text (lines : list string) : string := foldr (λ l s, l +:+ nl +:+ s) "" lines.

Definition any_range : Range := map_to_list.
Lemma any_range_fair : fair any_range.
Proof. by intros m. Qed.

(** A log of five lines, one blank, seen through a window of three. *)
Definition log1 : string := "the bug is a missing await in auth".
Definition log2 : string := "patched the logout handler as well".
Definition log3 : string := "running the complete test suite again".
Definition log5 : string := "all of the checks are passing now".
Definition demo_log : list Line := [runes log1; runes log2; runes log3; []; runes log5].
Definition capture1 : string := text [esc +:+ "[31m" +:+ log1 +:+ esc +:+ "[0m"; log2; log3 +:+ "  "].
Definition capture2 : string := text [log2; log3; "  "].
Definition capture3 : string := text [log2; log3; ""; log5].

Lemma demo_log_lines : log_lines demo_log.
Proof.
  split; [repeat constructor|]. intros a b l Ha Hb Hl.
  do 5 (destruct a as [|a]; [do 5 (destruct b as [|b]; [first [done|by simplify_eq/=|by rewrite <- Ha in Hb]|]); done|]).
  done.
Qed.

Lemma demo_anchors : two_anchors demo_log 1 3.
Proof. exists 1%nat, 2%nat, (runes log2), (runes log3). split_and!; first [lia|reflexivity]. Qed.

Lemma stitch_reconstructs_witness :
  rc_log (record_all newRecorder
    [(any_range, Some capture1); (any_range, Some capture2); (any_range, None); (any_range, Some capture3)]) =
  [runes log1; runes log2; runes log3; runes log5].
Proof.
  refine (eq_trans (stitch_reconstructs demo_log demo_log_lines any_range capture1 0 3
    [(any_range, Some capture2); (any_range, None); (any_range, Some capture3)] 5 _ _) _).
  - vm_compute. reflexivity.
  - apply (scrolls_on demo_log 0 3 1 4 any_range capture2);
      [apply any_range_fair|lia|lia|apply demo_anchors|vm_compute; reflexivity|].
    apply scrolls_fail.
    apply (scrolls_on demo_log 1 4 1 5 any_range capture3);
      [apply any_range_fair|lia|lia| |vm_compute; reflexivity|apply scrolls_end].
    exists 1%nat, 2%nat, (runes log2), (runes log3). split_and!; first [lia|reflexivity].
  - vm_compute. reflexivity.
Defined.

(** The cases of screenstitch_test.go and merger_test.go. *)
Example strip_universal_example :
  StripUniversal (esc +:+ "[31mhello" +:+ esc +:+ "[0m world   ") = runes "hello world".
Proof. vm_compute. reflexivity. Qed.

Definition rule_line : string := "────────────────────────────────────────".
Example transcript_region_example :
  TranscriptRegion (runes <$> ["real transcript line one"; "real transcript line two"; rule_line;
                               "❯ type here"; rule_line]) =
  runes <$> ["real transcript line one"; "real transcript line two"].
Proof. vm_compute. reflexivity. Qed.

Example scroll_delta_example :
  (ScrollDelta any_range (runes <$> [log1; log2; "working 1m9s 3.4k tokens"])
     (runes <$> [log1; log2; "working 1m14s 3.4k tokens"])).1 = (0, true).
Proof. vm_compute. reflexivity. Qed.

Example new_lines_example :
  NewLines any_range (runes <$> ["alpha alpha alpha line"; "bravo bravo bravo line"; "charlie charlie line"])
    (runes <$> ["bravo bravo bravo line"; "charlie charlie line"; "delta delta delta line"]) =
  runes <$> ["delta delta delta line"].
Proof. vm_compute. reflexivity. Qed.

Example mask_example :
  MaskVolatile (runes "Thinking (12s)") (runes "Thinking (17s)") = runes "Thinking (1§s)".
Proof. vm_compute. reflexivity. Qed.
Example status_update_example :
  (isStatusUpdate (runes "Working (1m9s 3.4k tokens)") (runes "Working (1m14s 3.7k tokens)"),
   isStatusUpdate (runes "Working (1m9s 3.4k tokens)") (runes "Let me look at the auth module instead")) =
  (true, false).
Proof. vm_compute. reflexivity. Qed.

(** A ticking timer is not logged again; a question that replaces the composer
    without any scrolling is. *)
Definition work_lines : list string := ["the real work line is here long"; "second real work line also long"].
Example ticking_timer_example :
  let m := (Ingest any_range (NewMerger 5000) (text (work_lines ++ ["Working (1m9s tokens 3.4k)"]))).2 in
  (Ingest any_range m (text (work_lines ++ ["Working (1m14s tokens 3.7k)"]))).1 = [].
Proof. vm_compute. reflexivity. Qed.
Example pinned_question_example :
  let m := (Ingest any_range (NewMerger 5000) (text (work_lines ++ ["❯ "]))).2 in
  (Ingest any_range m (text (work_lines ++ ["Which option do you want?"; "  1. build path A"]))).1 =
  runes <$> ["Which option do you want?"; "  1. build path A"].
Proof. vm_compute. reflexivity. Qed.

(** A ticking status line qualifies as an anchor, and two of them that show
    the same reading can vote. *)
Lemma status_line_is_anchor : isAnchor (runes "Working (1m9s tokens 3.4k)") = true.
Proof. reflexivity. Qed.
