(* ===== verification/MeshPagesWitnesses.v ===== *)
(** A machine with twelve sessions whose inventory takes two pages, and
    another that reads it: the runs at which the theorems on views, pages and
    whole inventories are applied; then subscriptions and synchronisation. *)

From S2P Require Import Prelude GoText RuneText GoPath Safetext MeshTypes GoJson MeshStore.
From S2P Require Import MeshFreshness MeshFiles MeshSync MeshInventory MeshBindings MeshStoreFacts MeshListFacts MeshInvariant.
From S2P Require Import Session PeerRpc PeerEvents PeerLink HookState SessionView MeshWire MeshWireFacts.
From S2P Require Import MeshPages MeshPagesFacts MeshPagesLive MeshEndToEnd MeshSubs MeshWorkers MeshReconcile MeshSubsFacts.
From stdpp Require Import base gmap strings list.
From Stdlib Require Import ZArith Lia Ascii.

Open Scope Z_scope.

#[export] Instance page_urls : UrlLib := {| url_Parse _ := None |}.

Definition time_at (n : Z) : Time := mkTime (63900000000000000000 + n) true.
Fixpoint repeated (n : nat) : string := match n with O => "" | S n => String "a" (repeated n) end.
Definition sample_work : CurrentWorkSummary :=
  mkCurrentWork "Fixing the login page" OverallGoalSummarizerProvenance (time_at 1).
Definition view_of (i : nat) : Summary :=
  mkSummary (SessionView.mkLocator 1 "root" ("session-" +:+ FormatUint (Z.of_nat i))) "login" "codex" "tmux"
    ("/home/u/" +:+ repeated 4080) "owner" "working" "healthy" (time_at 0) (time_at 1) None (Some (time_at 1))
    (Some sample_work) None None (time_at 2) (time_at 1) false.
Definition catalog : list Summary := view_of <$> seq 0 12.
Definition here : LocalSessions := mkLocalSessions (Some "/home/u") (λ _, time_at 3) catalog "" ["team"].
Definition env : ServeEnv := mkServeEnv (time_at 4) (time_at 5) (λ _ l, l) (λ _ l, l).
Definition turn (before : list ServeReq) : Turn := mkTurnOf before env here.
(** Between the two pages somebody else asks for the inventory as well. *)
Definition other_asks : ServeReq := AskSessions env here "peer-3" (mkPageRequest "" "" 2).
Definition turns : list Turn := [turn [other_asks]].
Definition app0 : MeshApp := empty_app "boot-1".
Definition inventory : SessionsPage := Eval vm_compute in (localMeshSessions here app0).1.

Lemma env_fine : env_ok env.
Proof. by split. Qed.
Lemma turn_fine before : Forall req_ok before → turn_ok (turn before).
Proof. intros Hb. split; [exact Hb|apply env_fine]. Qed.
Lemma turns_fine : Forall turn_ok (turn [] :: turns).
Proof.
  apply Forall_cons. split; [by apply turn_fine, Forall_nil|]. apply Forall_singleton, turn_fine, Forall_singleton, env_fine.
Qed.

(** ** Views *)

Definition view0 : Summary := view_of 0.
Definition published0 : Summary := Eval vm_compute in
  match meshSafeSummary (Some "/home/u") (time_at 3) view0 with Ok s => s | Err _ => view0 end.

Lemma accepted_summary_safe_witness :
  meshAcceptSummary (time_at 5) (decoded_summary published0) = Ok (decoded_summary published0) ∧
  (wire_summary (time_at 5) (decoded_summary published0) ∧ home_relative (sm_LaunchCWD (decoded_summary published0)) ∧
   json_len (json_summary (decoded_summary published0)) ≤ maxMetadataBytes ∧
   validateMetadata (json_Marshal (json_summary (decoded_summary published0))) = Ok tt ∧
   validateMetadata (indented (json_Marshal (json_summary (decoded_summary published0)))) = Ok tt).
Proof.
  assert (meshAcceptSummary (time_at 5) (decoded_summary published0) = Ok (decoded_summary published0)) as Ha
    by (vm_compute; reflexivity).
  split; [exact Ha|]. exact (accepted_summary_safe (time_at 5) _ _ Ha).
Defined.

(** ** Pages *)

Lemma pages_built_witness :
  page_spec inventory 3 4 (buildSessionPage inventory 3 4) ∧ page_spec (mkArtifactsPage "e" 1 [] "") 0 4 (buildArtifactPage (mkArtifactsPage "e" 1 [] "") 0 4).
Proof.
  destruct (pages_built inventory (mkArtifactsPage "e" 1 [] "") 3 4) as [H1 _]; [lia|].
  destruct (pages_built inventory (mkArtifactsPage "e" 1 [] "") 0 4) as [_ H2]; [lia|].
  split; [apply H1; vm_compute; lia|apply H2; lia].
Defined.

Lemma page_caches_bounded_witness :
  let a := serve_all [other_asks; TakeRevision] (empty_app "boot-1") in
  size (ma_sessionPages a) = 1%nat ∧
  ((size (ma_sessionPages a) <= 64)%nat ∧ (size (ma_artifactPages a) <= 64)%nat ∧
   map_Forall (keyed (ma_revision a)) (ma_sessionPages a) ∧ map_Forall (keyed (ma_revision a)) (ma_artifactPages a)).
Proof.
  assert (Forall req_ok [other_asks; TakeRevision]) as Hq.
  { apply Forall_cons. split; [apply env_fine|]. by apply Forall_singleton. }
  split; [vm_compute; reflexivity|].
  exact (page_caches_bounded "boot-1" [other_asks; TakeRevision] Hq ltac:(unfold u64_max; simpl; lia)).
Defined.

(** ** Following the cursors *)

Lemma fetched : ∃ r w, fetch (answer_sessions "peer-2") page_limit None "" (app0, turn [] :: turns) = (Ok r, w) ∧
  length (sp_Sessions r) = 12%nat ∧ length w.2 = 0%nat.
Proof.
  assert (let '(r, w) := fetch (answer_sessions "peer-2") page_limit None "" (app0, turn [] :: turns) in
          (match r with Ok r => length (sp_Sessions r) | Err _ => 0%nat end, length w.2) = (12%nat, 0%nat)) as Hf
    by (vm_compute; reflexivity).
  destruct (fetch _ _ _ _ _) as [[r|e] w]; [|discriminate Hf]. injection Hf as H1 H2. by exists r, w.
Qed.
Lemma app0_fine : app_ok app0.
Proof. apply empty_app_ok. Qed.

Lemma fetch_is_one_inventory_witness : ∃ r, length (sp_Sessions r) = 12%nat ∧
  let full := (localMeshSessions (tn_local (turn [])) (serve_all (tn_before (turn [])) app0)).1 in
  r = mkSessionsPage (sp_SourceEpoch full) (sp_SourceRevision full) (sp_ProfileScopes full)
        (decoded_summary <$> sp_Sessions full) "".
Proof.
  destruct fetched as (r & w & Hf & Hlen & _). exists r. split; [exact Hlen|].
  exact (fetch_is_one_inventory "peer-2" app0 (turn []) turns r w turns_fine app0_fine
    ltac:(unfold u64_max; vm_compute; discriminate) Hf).
Defined.

Lemma inventory_is_readable_witness :
  (length catalog = 12)%nat ∧
  let full := (localMeshSessions (tn_local (turn [])) (serve_all (tn_before (turn [])) app0)).1 in
  ∃ w, fetch (answer_sessions "peer-2") page_limit None "" (app0, turn [] :: replicate 11 (turn [])) =
       (Ok (pg_page (decoded_page full) (pg_items (decoded_page full)) ""), w).
Proof.
  split; [reflexivity|].
  refine (inventory_is_readable "peer-2" app0 (turn []) (replicate 11 (turn [])) (turn_fine [] (Forall_nil_2 _)) app0_fine
    _ _ _ _ _ _).
  - unfold u64_max. vm_compute. discriminate.
  - simpl. lia.
  - vm_compute. discriminate.
  - simpl. lia.
  - simpl. lia.
  - apply Forall_forall. intros t Ht. assert (t = turn []) as -> by (by apply elem_of_replicate_inv in Ht).
    split; [reflexivity|vm_compute; discriminate].
Defined.

(** ** The other machine's store *)

Definition short_view (i : nat) : Summary :=
  set_cwd ("/home/u/src/" +:+ FormatUint (Z.of_nat i)) (view_of i).
Definition there : LocalSessions :=
  mkLocalSessions (Some "/home/u") (λ _, time_at 3) (short_view <$> seq 0 2) "" ["team"].
Definition one_turn : Turn := mkTurnOf [other_asks] env there.
Definition accept_clock (n : nat) : Time := time_at 10.
Definition reader_store : Store := new_store (λ n, time_at (20 + Z.of_nat n)) [].
Lemma reader_ran : ∃ listed w s,
  RemoteSessionsList (answer_sessions "peer-2") accept_clock "peer-1" (app0, [one_turn]) reader_store = (Ok listed, w, s) ∧
  length listed = 2%nat.
Proof.
  assert (match (RemoteSessionsList (answer_sessions "peer-2") accept_clock "peer-1" (app0, [one_turn]) reader_store).1.1 with
          | Ok l => length l | Err _ => 0%nat end = 2%nat) as Hl by (vm_compute; reflexivity).
  destruct (RemoteSessionsList _ _ _ _ _) as [[[l|e] w] s]; [|discriminate Hl]. by exists l, w, s.
Qed.
Lemma one_turn_fine : Forall turn_ok [one_turn].
Proof. apply Forall_singleton. split; [apply Forall_singleton, env_fine|apply env_fine]. Qed.

Lemma remote_sessions_committed_witness : ∃ listed w s, length (A:=RemoteSessionProjection) listed = 2%nat ∧
  ∃ response, fetch (answer_sessions "peer-2") page_limit None "" (app0, [one_turn]) = (Ok response, w) ∧
    (∀ l, RemoteSessionLocator_Validate l = Ok tt → loc_DeviceID l = "peer-1" →
       reads_as accept_clock response l (GetRemoteSession l s).1) ∧
    (∀ k, k.1.1 ≠ "peer-1" → d_sessions (st_disk s) !! k = d_sessions (st_disk reader_store) !! k) ∧
    (∀ other, other ≠ "peer-1" → d_peers (st_disk s) !! other = d_peers (st_disk reader_store) !! other).
Proof.
  destruct reader_ran as (listed & w & s & Hrun & Hlen). exists listed, w, s. split; [exact Hlen|].
  exact (remote_sessions_committed (answer_sessions "peer-2") accept_clock "peer-1" (app0, [one_turn]) reader_store
    listed w s Hrun).
Defined.

Definition short_published : Summary := Eval vm_compute in
  match meshSafeSummary (Some "/home/u") (time_at 3) (short_view 1) with Ok s => s | Err _ => short_view 1 end.
#[export] Instance locator_eq : EqDecision Locator.
Proof. solve_decision. Defined.
Lemma published_session_reads_back_witness :
  sm_LaunchCWD short_published = "~/src/1" ∧
  ∃ s p, (GetRemoteSession (remote_locator "peer-1" (short_view 1)) s).1 = Ok p ∧
    rs_Freshness p = FreshnessFresh ∧ rs_Metadata p = indented (json_Marshal (json_summary short_published)).
Proof.
  split; [vm_compute; reflexivity|]. destruct reader_ran as (listed & w & s & Hrun & _). exists s.
  refine (published_session_reads_back "peer-2" "peer-1" accept_clock app0 one_turn [] reader_store
    listed w s 1 (short_view 1) short_published one_turn_fine app0_fine _ _ _ _ _ _ _ _ Hrun).
  - unfold u64_max. vm_compute. discriminate.
  - apply (bool_decide_unpack _). vm_compute. exact I.
  - vm_compute. reflexivity.
  - intros c Hc. exists sample_work. assert (c = sample_work) as -> by (vm_compute in Hc; by injection Hc as <-).
    vm_compute. reflexivity.
  - intros n. vm_compute. discriminate.
  - vm_compute. reflexivity.
  - vm_compute. reflexivity.
  - vm_compute. reflexivity.
Defined.

(** * Subscriptions and synchronisation

    A peer that subscribes, is sent an event and is refused another; workers
    that are woken while they run; a peer whose sessions are read while its
    artifacts are not: the runs at which the theorems on following other
    machines are applied. *)

Definition linked (peer : string) (at_ : Z) : Links :=
  mkLinks true false 1 ∅ {[peer := mkStatus peer (mkLink "inbound" "connected" (Some at_) None None "" None 0 1 0 []) zero_probe zero_transport]} ∅ ∅ ∅.
Definition reader : Principal := mkPrincipal "peer-2" ["sessions.read"].
(** The store has no part in these runs. *)
Definition quiet_app (st : Store) : MeshSubs := mkSubs ∅ ∅ ∅ true st.
Definition wanted : meshPeerSubscription := mkSubscription (Some 5) {["sessions"]} false.
Definition asked (st : Store) : MeshSubs := mkSubs {["peer-2" := wanted]} ∅ ∅ true st.

(** ** Events *)

Definition full_queue (_ : string) : result SendErr unit := Err (SendCall ErrBackpressure).
Lemma asked_reachable st : sub_reachable (asked st, granted (linked "peer-2" 5) reader (Ok ["sessions"]) ∪ ∅).
Proof.
  exists (quiet_app st). split; [reflexivity|].
  apply rtc_once, (sub_subscribe (linked "peer-2" 5) reader ["sessions"] (Ok ["sessions"]) (quiet_app st) (asked st) ∅).
  vm_compute. reflexivity.
Qed.
Lemma asked_sends st : sb_subs (asked st) !! "peer-2" = Some wanted ∧
  send_to (linked "peer-2" 5) ["sessions"] full_queue "peer-2" wanted (asked st) =
  (Some (full_queue "peer-2"), markMeshGap "peer-2" (Some 5) (asked st)).
Proof. split; vm_compute; reflexivity. Qed.
Lemma events_reach_subscribers_only_witness :
  ∃ a3, sb_subs a3 !! "peer-2" = Some (mkSubscription (Some 5) {["sessions"]} true) ∧
  ∃ c topic, meshConnectedAt (linked "peer-2" 5) "peer-2" = Some c ∧ topic ∈ ["sessions"] ∧
    ("peer-2", c, topic) ∈ granted (linked "peer-2" 5) reader (Ok ["sessions"]) ∪ ∅ ∧
    (full_queue "peer-2" = Err (SendCall ErrBackpressure) → ∀ s, sb_subs a3 !! "peer-2" = Some s → su_connectedAt s = Some c → su_needsGap s = true).
Proof.
  destruct (asked_sends reader_store) as [Hsub Hsend].
  exists (markMeshGap "peer-2" (Some 5) (asked reader_store)). split; [vm_compute; reflexivity|].
  exact (events_reach_subscribers_only (asked reader_store) _ (asked reader_store) (linked "peer-2" 5) ["sessions"] full_queue
    "peer-2" wanted _ _ (asked_reachable reader_store) Hsub Hsend).
Defined.

(** ** Workers *)

Definition follower (st : Store) : MeshSubs := mkSubs ∅ {["peer-1" := wanted]} ∅ true st.
(** An event wakes the worker of the peer; another comes while it reads, and
    what it was reading fails: it finds the mark, and begins a second pass. *)
Definition woken (st : Store) : Workers := scheduleMeshSync "peer-1" false (idle (follower st)).
Definition reading (st : Store) : Workers := worker_topics "peer-1" (worker_top "peer-1" (woken st)).
Definition woken_again (st : Store) : Workers := scheduleMeshSync "peer-1" true (reading st).
Definition second_pass (st : Store) : Workers :=
  worker_top "peer-1" (worker_synced "peer-1" ["sessions"] false (woken_again st)).
Lemma woken_again_reachable st : sync_reachable (woken_again st).
Proof.
  exists (follower st). apply (rtc_l _ _ (woken st)); [left; apply step_schedule|].
  apply (rtc_l _ _ (worker_top "peer-1" (woken st))); [right; exists "peer-1"; apply step_top; vm_compute; reflexivity|].
  apply (rtc_l _ _ (reading st)); [right; exists "peer-1"; apply step_topics; vm_compute; reflexivity|].
  apply rtc_once. left. apply step_schedule.
Qed.
Lemma second_pass_begins st : nsteps (worker_step "peer-1") 2 (woken_again st) (second_pass st).
Proof.
  eapply nsteps_l; [apply (step_synced "peer-1" (woken_again st) ["sessions"] false); vm_compute; reflexivity|].
  eapply nsteps_l; [apply step_top; vm_compute; reflexivity|apply nsteps_O].
Qed.
Lemma woken_owed st : sw_owed (woken_again st) = {["peer-1"]} ∧ sw_workers (second_pass st) !! "peer-1" = Some AtTopics.
Proof. split; vm_compute; reflexivity. Qed.
Lemma sync_edges_remembered_witness : ∃ s, sw_owed s = {["peer-1"]} ∧
  (dom (sw_workers s) = dom (sb_syncing (sw_app s)) ∧
   (∀ peer, peer ∈ sw_owed s → ∃ at_ state,
      sw_workers s !! peer = Some at_ ∧ sb_syncing (sw_app s) !! peer = Some state ∧
      (about_to_pass at_ = true ∨ sy_dirty state = true)) ∧
   (∀ s' peer, sync_step s s' → peer ∈ sw_owed s → peer ∉ sw_owed s' →
      (∃ topics, topics ≠ [] ∧ sw_workers s' !! peer = Some (AtSync topics)) ∨ sw_workers s !! peer = Some AtFinish)).
Proof.
  exists (woken_again reader_store). split; [exact (proj1 (woken_owed reader_store))|].
  exact (sync_edges_remembered (woken_again reader_store) (woken_again_reachable reader_store)).
Defined.
Lemma worker_ends_witness : ∃ s, sw_workers s !! "peer-1" = Some AtTopics ∧
  ((2 <= 15)%nat ∧ (2%nat = 15%nat → sw_workers s !! "peer-1" = None) ∧
   (is_Some (sw_workers s !! "peer-1") → ∃ s'', worker_step "peer-1" s s'')).
Proof.
  exists (second_pass reader_store). split; [exact (proj2 (woken_owed reader_store))|].
  exact (worker_ends "peer-1" _ _ 2 (woken_again_reachable reader_store) (second_pass_begins reader_store)).
Defined.

(** ** Visibility *)

Definition sessions_only : PeerCalls (W:=MeshApp * list Turn) :=
  mkCalls (answer_sessions "peer-2") (λ _ w, (Err (Failed "unused"), w)) accept_clock.
Lemma marked_and_read : ∃ s1 r w s2, MarkPeerSyncing "peer-1" "pending-boot" reader_store = (Ok tt, s1) ∧
  syncMeshSessions sessions_only "boot" "peer-1" false (app0, [one_turn]) s1 = (r, w, s2) ∧ is_ok r = true.
Proof.
  assert (let '(m, s1) := MarkPeerSyncing "peer-1" "pending-boot" reader_store in
          is_ok m && is_ok (syncMeshSessions sessions_only "boot" "peer-1" false (app0, [one_turn]) s1).1.1 = true) as Hm
    by (vm_compute; reflexivity).
  destruct (MarkPeerSyncing _ _ _) as [[[]|e] s1]; [|exact (False_rect _ (Bool.diff_false_true Hm))].
  destruct (syncMeshSessions _ _ _ _ _ _) as [[r w] s2] eqn:Hr. exists s1, r, w, s2. exact (conj eq_refl (conj Hr Hm)).
Qed.
Lemma peer_not_fresh_between_witness : ∃ s2, ∃ p, read_peer (st_disk s2) "peer-1" = Ok p ∧
  ps_ArtifactFreshness p = FreshnessSyncing ∧ ps_Freshness p ≠ FreshnessFresh.
Proof.
  destruct marked_and_read as (s1 & r & w & s2 & Hm & Hr & _). exists s2.
  exact (peer_not_fresh_between "peer-1" sessions_only "boot" "pending-boot" reader_store s1 (app0, [one_turn]) r w s2 Hm Hr).
Defined.

(** ** Statuses *)

(** The peer has come back on another connection than it subscribed on. *)
Definition came_back (st : Store) : Runtime :=
  mkRuntime (mkWorkers (asked st) ∅ ∅) {["peer-2" := Some 5]} (Some false) (Some false) (empty_app "boot-1").
Definition as_listed (l : list (string * option Z)) : list (string * option Z) := l.
Lemma came_back_seen st :
  sb_running (rt_subs (came_back st)) = true ∧
  peer_view (came_back st) "peer-2" = mkPeerView (Some (Some 5)) (Some wanted) None false ∧
  connections_of (Status_list (linked "peer-2" 9)) "peer-2" = [Some 9].
Proof. split_and!; vm_compute; reflexivity. Qed.
Lemma statuses_reconciled_witness : ∃ r,
  peer_view (reconcileMeshStatuses (linked "peer-2" 9) as_listed r) "peer-2" =
    mkPeerView (Some (Some 9)) None (Some (mkSyncState false true)) true.
Proof.
  exists (came_back reader_store). destruct (came_back_seen reader_store) as (Hrun & Hview & Hseen).
  destruct (statuses_reconciled (linked "peer-2" 9) as_listed (came_back reader_store) "peer-2" (λ l, Permutation_refl l)) as [H _].
  rewrite H, Hseen, Hview, Hrun. vm_compute. reflexivity.
Defined.
