(* ===== verification/DaemonSessions.v ===== *)
(** The sessions of a daemon (internal/daemon/daemon.go, events.go and
    exec_transport.go): creating, prompting, recording and ending them, the event
    bus, the inventory file that carries them over a restart, and the exec
    transport. A definition is one stretch of a handler between two waits; what
    terminals, processes and the clock answer are its inputs, and what the daemon
    asks of them is a list of calls. *)

From S2P Require Import Prelude GoText RuneText GoPath MeshTypes GoJson HookState HookFacts Session Health Inbox SendInbox SendFacts SessionEnv.
From stdpp Require Import base gmap strings list.
From Stdlib Require Import ZArith Lia Ascii.

Open Scope Z_scope.

(** ** Text and paths *)

(** The text through its last slash. *)
Fixpoint through_slash (s : string) : string :=
  match s with
  | EmptyString => EmptyString
  | String c s' => match through_slash s' with EmptyString => if char_is "/" c then "/" else "" | p => String c p end
  end.
Definition filepath_Dir (path : string) : string := filepath_Clean (through_slash path).
Example Dir_file : (filepath_Dir "/a/b/c.json", filepath_Dir "c.json", filepath_Dir "/c") = ("/a/b", ".", "/").
Proof. reflexivity. Qed.
(** [s[n:]] *)
Fixpoint string_drop (n : nat) (s : string) : string :=
  match n, s with S n, String _ s' => string_drop n s' | _, _ => s end.
(** [strings.Join(l, sep)] *)
Fixpoint join_with (sep : string) (l : list string) : string :=
  match l with [] => "" | [x] => x | x :: l => x +:+ sep +:+ join_with sep l end.
(** [strings.TrimSpace] on the bytes of a text: the encodings of the white space
    runes are taken off its ends. *)
Definition space_encodings : list (list Z) :=
  (λ r, encode_rune r) <$> [9; 10; 11; 12; 13; 32; 133; 160; 5760; 8192; 8193; 8194; 8195; 8196; 8197; 8198; 8199; 8200; 8201; 8202; 8232; 8233; 8239; 8287; 12288].
Fixpoint trim_front (encodings : list (list Z)) (fuel : nat) (l : list Z) : list Z :=
  match fuel with
  | O => l
  | S fuel => match List.find (λ w, runes_prefix w l) encodings with Some w => trim_front encodings fuel (drop (length w) l) | None => l end
  end.
Definition trim_text (s : string) : string :=
  let l := str_bytes s in
  let l := trim_front space_encodings (length l) l in
  bytes_string (rev (trim_front ((λ w, rev w) <$> space_encodings) (length l) (rev l))).
Example trim_text_ends : trim_text (" " +:+ "a b" +:+ newline) = "a b".
Proof. vm_compute. reflexivity. Qed.

(** ** Events (events.go) *)

Record Event := mkEvent {
  de_SessionID : string; de_Type : string; de_State : string; de_Message : string; de_Timestamp : Time; de_Data : gmap string string }.
Record subscription := mkSubscription { sub_ch : Chan Event; sub_sessionID : string }.
(** A closed channel may still be read; [eb_ended] keeps them. *)
Record EventBus := mkBus { eb_subs : gmap Z subscription; eb_nextID : Z; eb_closed : bool; eb_ended : gmap Z (Chan Event) }.
Definition NewEventBus : EventBus := mkBus ∅ 0 false ∅.
Definition Subscribe (sessionID : string) (b : EventBus) : Z * EventBus :=
  (eb_nextID b, mkBus (<[eb_nextID b := mkSubscription (mkChan 64 []) sessionID]> (eb_subs b)) (s64 (eb_nextID b + 1)) (eb_closed b) (eb_ended b)).
Definition Unsubscribe (id : Z) (b : EventBus) : EventBus :=
  match eb_subs b !! id with
  | Some sub => mkBus (delete id (eb_subs b)) (eb_nextID b) (eb_closed b) (<[id := sub_ch sub]> (eb_ended b))
  | None => b
  end.
Definition concerns (sub : string) (e : Event) : bool := String.eqb sub "" || String.eqb sub (de_SessionID e).
Definition deliver (e : Event) (sub : subscription) : subscription :=
  if negb (concerns (sub_sessionID sub) e) then sub else
  match try_send (sub_ch sub) e with Some ch => mkSubscription ch (sub_sessionID sub) | None => sub end.
Definition Publish (e : Event) (b : EventBus) : EventBus :=
  if eb_closed b then b else mkBus (deliver e <$> eb_subs b) (eb_nextID b) (eb_closed b) (eb_ended b).
Definition Close (b : EventBus) : EventBus := mkBus ∅ (eb_nextID b) true ((sub_ch <$> eb_subs b) ∪ eb_ended b).

(** ** State *)

Definition TransportTmux : string := "tmux".
Definition TransportExec : string := "exec".
Record AgentProfile := mkAgentProfile {
  ap_launch : LaunchProfile; ap_Transport : string; ap_ExecDriver : string; ap_StartCommand : string }.
Record DaemonConfig := mkDaemonConfig { dc_launch : LaunchConfig; dc_StatePath : string; dc_LogDir : string; dc_ScreenLogDir : string }.

Record persistedSession := mkPersisted {
  ps_ID : string; ps_Name : string; ps_Agent : string; ps_CWD : string; ps_Transport : string; ps_TmuxSessionName : string;
  ps_TmuxTarget : string; ps_CurrentCommand : string; ps_BackendSessionID : string; ps_State : State; ps_StartedAt : Time;
  ps_OwnerID : string; ps_Private : bool; ps_HandoffInstructions : string }.
Record Recorder := mkRecorder { rc_logPath : string; rc_startedAt : Time }.
(** What the function in [monitors] cancels. *)
Inductive Supervision := HealthMonitor | ExecRun.
Inductive Call :=
| CallAudit (action sid : string) | CallWatch (sid : string) | CallUnwatch (sid : string) | CallCleanup (sid : string)
| CallMonitor (sid : string) | CallCancel (sid : string) (what : Supervision)
| CallRecord (sid : string) | CallStopRecorder (sid : string)
| CallPrompt (sid text : string) | CallLifecycle (sid prompt : string) | CallDrain (sid : string)
| CallSetupPane (tmuxSession window cwd : string) (env : gmap string string) (command : string)
| CallPipe (target : string) | CallStopPipe (target : string) | CallKeys (target keys : string)
| CallKillSession (name : string) | CallKillPane (target : string) | CallProbe (target : string)
| CallWriteOutput (sid text : string) | CallStartProcess (sid : string) (args : list string) | CallSignal (pid : Z) (kill : bool).

(** [ds_io]: the outcomes of the next operations on the inventory file and on
    output files, [true] for one that fails. *)
Record Sessions := mkSessions {
  ds_sessions : gmap string Session; ds_monitors : gmap string Supervision; ds_recorders : gmap string Recorder;
  ds_processes : gmap string Z; ds_stopping : bool; ds_bus : EventBus; ds_hooks : HookDir; ds_env : EnvDisk;
  ds_files : gmap string (File (list persistedSession)); ds_io : list bool; ds_calls : list Call }.
Abbreviation SM := (M Sessions string).
Definition set_sessions (f : gmap string Session → gmap string Session) (s : Sessions) : Sessions :=
  mkSessions (f (ds_sessions s)) (ds_monitors s) (ds_recorders s) (ds_processes s) (ds_stopping s) (ds_bus s) (ds_hooks s) (ds_env s) (ds_files s) (ds_io s) (ds_calls s).
Definition set_monitors (f : gmap string Supervision → gmap string Supervision) (s : Sessions) : Sessions :=
  mkSessions (ds_sessions s) (f (ds_monitors s)) (ds_recorders s) (ds_processes s) (ds_stopping s) (ds_bus s) (ds_hooks s) (ds_env s) (ds_files s) (ds_io s) (ds_calls s).
Definition set_recorders (f : gmap string Recorder → gmap string Recorder) (s : Sessions) : Sessions :=
  mkSessions (ds_sessions s) (ds_monitors s) (f (ds_recorders s)) (ds_processes s) (ds_stopping s) (ds_bus s) (ds_hooks s) (ds_env s) (ds_files s) (ds_io s) (ds_calls s).
Definition set_processes (f : gmap string Z → gmap string Z) (s : Sessions) : Sessions :=
  mkSessions (ds_sessions s) (ds_monitors s) (ds_recorders s) (f (ds_processes s)) (ds_stopping s) (ds_bus s) (ds_hooks s) (ds_env s) (ds_files s) (ds_io s) (ds_calls s).
Definition set_stopping (s : Sessions) : Sessions :=
  mkSessions (ds_sessions s) (ds_monitors s) (ds_recorders s) (ds_processes s) true (ds_bus s) (ds_hooks s) (ds_env s) (ds_files s) (ds_io s) (ds_calls s).
Definition set_bus (f : EventBus → EventBus) (s : Sessions) : Sessions :=
  mkSessions (ds_sessions s) (ds_monitors s) (ds_recorders s) (ds_processes s) (ds_stopping s) (f (ds_bus s)) (ds_hooks s) (ds_env s) (ds_files s) (ds_io s) (ds_calls s).
Definition set_hooks (h : HookDir) (s : Sessions) : Sessions :=
  mkSessions (ds_sessions s) (ds_monitors s) (ds_recorders s) (ds_processes s) (ds_stopping s) (ds_bus s) h (ds_env s) (ds_files s) (ds_io s) (ds_calls s).
Definition set_env_disk (e : EnvDisk) (s : Sessions) : Sessions :=
  mkSessions (ds_sessions s) (ds_monitors s) (ds_recorders s) (ds_processes s) (ds_stopping s) (ds_bus s) (ds_hooks s) e (ds_files s) (ds_io s) (ds_calls s).
Definition set_files (f : gmap string (File (list persistedSession)) → gmap string (File (list persistedSession))) (s : Sessions) : Sessions :=
  mkSessions (ds_sessions s) (ds_monitors s) (ds_recorders s) (ds_processes s) (ds_stopping s) (ds_bus s) (ds_hooks s) (ds_env s) (f (ds_files s)) (ds_io s) (ds_calls s).
Definition set_io (l : list bool) (s : Sessions) : Sessions :=
  mkSessions (ds_sessions s) (ds_monitors s) (ds_recorders s) (ds_processes s) (ds_stopping s) (ds_bus s) (ds_hooks s) (ds_env s) (ds_files s) l (ds_calls s).
Definition call (c : Call) : SM unit := modify (λ s,
  mkSessions (ds_sessions s) (ds_monitors s) (ds_recorders s) (ds_processes s) (ds_stopping s) (ds_bus s) (ds_hooks s) (ds_env s) (ds_files s) (ds_io s) (ds_calls s ++ [c])).
Definition file_step (message : string) : SM unit := λ s,
  match ds_io s with
  | [] => (Ok tt, s)
  | failed :: rest => (if failed then Err message else Ok tt, set_io rest s)
  end.
(** Best-effort calls into the other components: an error is logged. *)
Definition run_hooks (m : HM unit) : SM unit := modify (λ s, set_hooks (m (ds_hooks s)).2 s).
Definition run_env (m : EM string) : SM unit := modify (λ s, set_env_disk (m (ds_env s)).2 s).
Definition best_effort (m : SM unit) : SM unit := _ ← try m; mret tt.
(** A session is a pointer. While the table has it, its setters act on the entry
    of its identity; once [handleSessionClose] has taken it out, they reach only
    the object that the handlers still hold, and nothing of the table. *)
Definition on_session (id : string) (f : Session → Session) : SM unit := modify (set_sessions (alter f id)).
Definition GetSession (id : string) : SM (option Session) := gets (λ s, ds_sessions s !! id).
Definition require_session (id : string) : SM Session :=
  o ← GetSession id;
  match o with Some sess => mret sess | None => throw ("session not found: " +:+ id) end.

Definition state_text (st : State) : string :=
  match st with
  | StateStarting => "starting" | StateHandshaking => "handshaking" | StateIdle => "idle" | StateWorking => "working"
  | StateStuck => "stuck" | StateEscalated => "escalated" | StateExited => "exited" | StateFailed => "failed" | StateOther raw => raw
  end.
Definition terminal (st : State) : bool := match st with StateExited | StateFailed => true | _ => false end.
Definition emitEvent (e : Event) : SM unit := modify (set_bus (Publish e)).
(** The drain started on idle is the one of SendInbox. *)
Definition emitStateChanged (id : string) (st : State) (message : string) (now : Time) : SM unit :=
  _ ← emitEvent (mkEvent id "state_changed" (state_text st) message now ∅);
  if bool_decide (st = StateIdle) then call (CallDrain id) else mret tt.

(** ** Sessions *)

Definition set_tmux (name target : string) (s : Session) : Session :=
  mkSession (ses_ID s) (ses_Name s) (ses_Agent s) (ses_CWD s) (ses_Transport s) name
    target (ses_CurrentCommand s) (ses_BackendSessionID s) (ses_PID s) (ses_State s) (ses_Health s)
    (ses_StartedAt s) (ses_LastActivityAt s) (ses_IdleSince s) (ses_WorkingSince s)
    (ses_NudgeCount s) (ses_Env s) (ses_AutoClose s) (ses_OwnerID s) (ses_private s).
Definition set_started (at_ : Time) (s : Session) : Session :=
  mkSession (ses_ID s) (ses_Name s) (ses_Agent s) (ses_CWD s) (ses_Transport s) (ses_TmuxSessionName s)
    (ses_TmuxTarget s) (ses_CurrentCommand s) (ses_BackendSessionID s) (ses_PID s) (ses_State s) (ses_Health s)
    at_ (ses_LastActivityAt s) (ses_IdleSince s) (ses_WorkingSince s)
    (ses_NudgeCount s) (ses_Env s) (ses_AutoClose s) (ses_OwnerID s) (ses_private s).

Section Daemon.
Context `{UnicodeTables} (cfg : DaemonConfig) (profiles : gmap string AgentProfile).

(** ** The inventory file *)

Definition legacyPersistPath : string := filepath_Join (filepath_Dir (lc_Socket (dc_launch cfg))) "sessions.json".
Definition persistPath : string :=
  if negb (String.eqb (dc_StatePath cfg) "") then filepath_Join (filepath_Dir (dc_StatePath cfg)) "sessions.json"
  else if negb (String.eqb (lc_ProfileName (dc_launch cfg)) "") && negb (String.eqb (dc_LogDir cfg) "")
  then filepath_Join (filepath_Dir (dc_LogDir cfg)) "sessions.json"
  else legacyPersistPath.

Definition handoff_env : string := "ARCMUX_HANDOFF_INSTRUCTIONS".
Definition persist_record (snap : Session) : persistedSession :=
  mkPersisted (ses_ID snap) (ses_Name snap) (ses_Agent snap) (ses_CWD snap) (ses_Transport snap) (ses_TmuxSessionName snap)
    (ses_TmuxTarget snap) (ses_CurrentCommand snap) (ses_BackendSessionID snap) (ses_State snap) (ses_StartedAt snap)
    (ses_OwnerID snap) (ses_private snap) (if ses_private snap then env_lookup handoff_env snap else "").
(** What JSON keeps of a record. *)
Definition json_persisted (r : persistedSession) : persistedSession :=
  mkPersisted (json_text (ps_ID r)) (json_text (ps_Name r)) (json_text (ps_Agent r)) (json_text (ps_CWD r)) (json_text (ps_Transport r))
    (json_text (ps_TmuxSessionName r)) (json_text (ps_TmuxTarget r)) (json_text (ps_CurrentCommand r)) (json_text (ps_BackendSessionID r))
    (match ps_State r with StateOther raw => StateOther (json_text raw) | st => st end) (ps_StartedAt r)
    (json_text (ps_OwnerID r)) (ps_Private r) (json_text (ps_HandoffInstructions r)).
(** In the order of the map; their identities are distinct, so a reader does not
    see it. *)
Definition persisted_records (sessions : gmap string Session) : list persistedSession :=
  persist_record <$> List.filter (λ snap, negb (terminal (ses_State snap))) (map_to_list sessions).*2.

(** Everything up to the rename works on a temporary file. *)
Definition persistSessionsChecked : SM unit :=
  records ← gets (λ s, persisted_records (ds_sessions s));
  _ ← lift (guard_err (forallb (λ r, time_encodes (ps_StartedAt r)) records) "marshal session inventory");
  _ ← file_step "create session inventory directory";
  _ ← file_step "inspect session inventory";
  existing ← gets (λ s, ds_files s !! persistPath);
  _ ← match existing with Some Irregular => throw "session inventory path is unsafe" | _ => mret tt end;
  _ ← file_step "create session inventory temp";
  _ ← file_step "secure session inventory temp";
  _ ← file_step "write session inventory";
  _ ← file_step "sync session inventory";
  _ ← file_step "close session inventory";
  _ ← file_step "publish session inventory";
  _ ← modify (set_files (<[persistPath := Regular 384 (Some (json_persisted <$> records))]>));
  _ ← file_step "secure session inventory";
  _ ← file_step "open session inventory directory";
  _ ← file_step "sync session inventory directory";
  file_step "close session inventory directory".
Definition persistSessions : SM unit := best_effort persistSessionsChecked.

(** The records a start finds; [None] when there are none to restore. A failing
    read and a file that does not parse are logged. *)
Definition inventory_found : SM (option (list persistedSession)) :=
  r ← try (file_step "read");
  files ← gets ds_files;
  match r with
  | Err _ => mret None
  | Ok _ =>
      match files !! persistPath with
      | Some (Regular _ content) => mret content
      | Some Irregular => mret None
      | None =>
          if String.eqb (lc_ProfileName (dc_launch cfg)) "" && negb (String.eqb persistPath legacyPersistPath) then
            r ← try (file_step "read legacy");
            mret (match r, files !! legacyPersistPath with Ok _, Some (Regular _ content) => content | _, _ => None end)
          else mret None
      end
  end.
(** The assignments both transports make first. *)
Definition restored_session (rec : persistedSession) (transport : string) (now : Time) : Session :=
  let sess := SetOwnerID (ps_OwnerID rec) (SetTransport transport (NewSession (ps_ID rec) (ps_Name rec) (ps_Agent rec) (ps_CWD rec) now)) in
  let sess := if ps_Private rec then MarkPrivate sess else sess in
  if ps_Private rec && negb (String.eqb (ps_HandoffInstructions rec) "")
  then SetEnv {[handoff_env := ps_HandoffInstructions rec]} sess else sess.
Definition restored_exec (rec : persistedSession) (now : Time) : Session :=
  let sess := set_started (ps_StartedAt rec) (SetBackendSessionID (ps_BackendSessionID rec) (SetCurrentCommand (ps_CurrentCommand rec) (restored_session rec TransportExec now))) in
  SetState (if bool_decide (ps_State rec = StateWorking) then StateIdle else ps_State rec) now sess.
Definition restored_tmux (rec : persistedSession) (transport : string) (now : Time) : Session :=
  let sess := set_tmux (ps_TmuxSessionName rec) (ps_TmuxTarget rec) (restored_session rec transport now) in
  SetState (ps_State rec) now (set_started (ps_StartedAt rec) (SetBackendSessionID (ps_BackendSessionID rec) (SetCurrentCommand (ps_CurrentCommand rec) sess))).
Definition restored_transport (rec : persistedSession) (prof : AgentProfile) : string :=
  if negb (String.eqb (ps_Transport rec) "") then ps_Transport rec
  else if negb (String.eqb (ap_Transport prof) "") then ap_Transport prof else TransportTmux.

Definition startMonitor (id : string) : SM unit :=
  _ ← modify (set_monitors (<[id := HealthMonitor]>)); call (CallMonitor id).
(** What a restart finds: which panes exist, which hook output files do, and the
    clock while a record is restored. *)
Record RestoreInput := mkRestore { ri_pane : string → bool; ri_output : string → bool; ri_clock : persistedSession → Time }.
Definition restore_record (i : RestoreInput) (rec : persistedSession) : SM unit :=
  match profiles !! ps_Agent rec with
  | None => mret tt
  | Some prof =>
      let transport := restored_transport rec prof in
      let now := ri_clock i rec in
      if String.eqb transport TransportExec then modify (set_sessions (<[ps_ID rec := restored_exec rec now]>))
      else if negb (ri_pane i (ps_TmuxTarget rec)) then mret tt
      else
        _ ← modify (set_sessions (<[ps_ID rec := restored_tmux rec transport now]>));
        _ ← match ps_State rec with StateWorking | StateIdle | StateStuck => startMonitor (ps_ID rec) | _ => mret tt end;
        _ ← if ri_output i (ps_ID rec) then call (CallWatch (ps_ID rec)) else mret tt;
        if HookBacked (lp_profile (ap_launch prof)) then run_hooks (InitSessionState (ps_ID rec) (ps_Agent rec) "" now) else mret tt
  end.
Definition restoreSessions (i : RestoreInput) : SM unit :=
  found ← inventory_found;
  match found with Some records => for_each (restore_record i) records | None => mret tt end.

(** ** Creating *)

Record CreateSessionRequest := mkCreate {
  cr_Agent : string; cr_CWD : string; cr_Prompt : string; cr_Name : string; cr_TmuxSession : string; cr_TmuxWindow : string;
  cr_Env : gmap string string; cr_AutoClose : bool; cr_OwnerID : string; cr_private : bool }.
(** The home directory, the clock, whether the hooks could be installed, the pane
    that was made, and the order in which the table is read. *)
Record CreateInput := mkCreateInput {
  ci_home : option string; ci_now : Time; ci_installed : bool; ci_pane : option string; ci_order : list Session → list Session }.
Definition generateSessionID (now : Time) : string := "s-" +:+ FormatInt (s64 (t_ns now - unix_epoch)).
Definition owned_by (name ownerID : string) (private : bool) (snap : Session) : bool :=
  String.eqb (ses_Name snap) name && String.eqb (ses_OwnerID snap) ownerID && Bool.eqb (ses_private snap) private && negb (terminal (ses_State snap)).
Definition findNonTerminalByNameOwner (order : list Session → list Session) (name ownerID : string) (private : bool)
    (sessions : gmap string Session) : option Session :=
  List.find (owned_by name ownerID private) (order (map_to_list sessions).*2).

(** What a creation settles for itself: nothing of it depends on the table. *)
Record Creation := mkCreation {
  cn_prof : AgentProfile; cn_id : string; cn_name : string; cn_cwd : string; cn_env : gmap string string; cn_scope : string }.
Definition home_projects (home : option string) : string := match home with Some home => filepath_Join home "Projects" | None => "" end.
Definition plan_creation (r : CreateSessionRequest) (i : CreateInput) : result string Creation :=
  match profiles !! cr_Agent r with
  | None => Err ("unknown agent profile: " +:+ cr_Agent r)
  | Some prof =>
      let id := generateSessionID (ci_now i) in
      let '(env, profileScope) := supervisedSessionEnvironment (dc_launch cfg) id (cr_Env r) in
      Ok (mkCreation prof id (if String.eqb (cr_Name r) "" then cr_Agent r +:+ "-" +:+ string_drop 2 id else cr_Name r)
            (if String.eqb (cr_CWD r) "" then home_projects (ci_home i) else cr_CWD r) env profileScope)
  end.
Definition created_session (r : CreateSessionRequest) (c : Creation) (now : Time) : Session :=
  let sess := SetOwnerID (cr_OwnerID r) (SetAutoClose (cr_AutoClose r) (SetEnv (cn_env c)
    (SetTransport (ap_Transport (cn_prof c)) (NewSession (cn_id c) (cn_name c) (cr_Agent r) (cn_cwd c) now)))) in
  if cr_private r then MarkPrivate sess else sess.
(** The table is read under its lock: the session of that name, if any. *)
Definition create_check (r : CreateSessionRequest) (i : CreateInput) (c : Creation) : SM (option string) :=
  existing ← (if negb (String.eqb (cn_name c) "") && negb (String.eqb (cr_OwnerID r) "")
              then gets (λ s, findNonTerminalByNameOwner (ci_order i) (cn_name c) (cr_OwnerID r) (cr_private r) (ds_sessions s)) else mret None);
  match existing with
  | Some snap => _ ← call (CallAudit "session.create.idempotent_hit" (ses_ID snap)); mret (Some (ses_ID snap))
  | None => _ ← call (CallAudit "session.create" (cn_id c)); mret None
  end.
Definition insert_session (id : string) (sess : Session) : SM unit :=
  _ ← modify (set_sessions (<[id := sess]>)); persistSessions.
(** The end of a creation that runs its prompts as processes. *)
Definition create_exec (r : CreateSessionRequest) (i : CreateInput) (c : Creation) : SM unit :=
  _ ← insert_session (cn_id c) (SetState StateIdle (ci_now i) (created_session r c (ci_now i)));
  _ ← emitStateChanged (cn_id c) StateIdle "session ready" (ci_now i);
  if String.eqb (cr_Prompt r) "" then mret tt else call (CallPrompt (cn_id c) (cr_Prompt r)).
(** In a pane: the hooks and the file they read, *)
Definition create_files (r : CreateSessionRequest) (i : CreateInput) (c : Creation) : SM unit :=
  if lc_AutoInstall (dc_launch cfg) then
    _ ← if ci_installed i then call (CallWatch (cn_id c)) else mret tt;
    if HookBacked (lp_profile (ap_launch (cn_prof c))) then
      _ ← run_hooks (InitSessionState (cn_id c) (cr_Agent r) (cr_Prompt r) (ci_now i));
      run_env (WriteSessionEnvFile SessionEnvDir (cn_scope c) (cn_id c) (sessionEnv (dc_launch cfg) (cn_scope c) (cn_id c) (cr_Agent r)))
    else mret tt
  else mret tt.
(** then the pane, with the agent as its command, *)
Definition pane_session (r : CreateSessionRequest) (c : Creation) : string :=
  agentTmuxSessionName (cr_TmuxSession r) (cn_name c) (cr_OwnerID r) (cn_id c).
Definition setup_call (r : CreateSessionRequest) (c : Creation) : Call :=
  CallSetupPane (pane_session r c) (if String.eqb (cr_TmuxWindow r) "" then cn_name c else cr_TmuxWindow r) (cn_cwd c) (cn_env c)
    (agentStartCommand (dc_launch cfg) (Some (ap_launch (cn_prof c))) (cn_scope c) (cn_id c) (ap_StartCommand (cn_prof c))).
Definition create_launch (r : CreateSessionRequest) (i : CreateInput) (c : Creation) : SM string :=
  _ ← call (setup_call r c);
  match ci_pane i with
  | None => throw (if cr_private r then "setup private tmux pane failed" else "setup tmux pane")
  | Some target => mret target
  end.
(** and the session with that pane. *)
Definition create_place (r : CreateSessionRequest) (i : CreateInput) (c : Creation) (target : string) : SM unit :=
  _ ← call (CallPipe target);
  _ ← insert_session (cn_id c) (set_tmux (pane_session r c) target (created_session r c (ci_now i)));
  call (CallLifecycle (cn_id c) (cr_Prompt r)).
(** [others] is what the other handlers do while this one is between two of its
    stretches. The identity of the session, and whether it is new. *)
Inductive CreateWait := AfterCheck | AfterFiles | AfterPane.
Definition createSessionWithIdempotency (others : CreateWait → Sessions → Sessions) (r : CreateSessionRequest) (i : CreateInput) : SM (string * bool) :=
  c ← lift (plan_creation r i);
  existing ← create_check r i c;
  match existing with
  | Some id => mret (id, false)
  | None =>
      _ ← modify (others AfterCheck);
      _ ← (if String.eqb (ap_Transport (cn_prof c)) TransportExec then create_exec r i c
           else
             _ ← create_files r i c;
             _ ← modify (others AfterFiles);
             target ← create_launch r i c;
             _ ← modify (others AfterPane);
             create_place r i c target);
      mret (cn_id c, true)
  end.

(** ** Over HTTP (http.go) *)

Definition findByName (order : list Session → list Session) (name : string) (sessions : gmap string Session) : option Session :=
  List.find (λ snap, String.eqb (ses_Name snap) name) (order (map_to_list sessions).*2).
Definition name_safe (name : string) : bool := len_between 1 64 name && all_chars (λ c, is_alnum c || char_is "_" c || char_is "-" c) name.
Definition codexRemoteServerAgent : string := "codex".
Definition codexRemoteServerCommand : string := "cdx remote-control".
(** The function [agentStartCommand] of http.go. *)
Definition remote_command (agent : string) : option string :=
  if String.eqb agent "claude" then Some "cld --remote-control"
  else if String.eqb agent codexRemoteServerAgent then Some codexRemoteServerCommand else None.
Definition isCodexRemoteServerSnapshot (snap : Session) : bool :=
  String.eqb (ses_Agent snap) codexRemoteServerAgent && String.eqb (ses_CurrentCommand snap) codexRemoteServerCommand.
(** The parameters of the request, the home directory, the clock, which panes
    exist, the pane that was made, and the order in which the table is read. *)
Record NewInput := mkNewInput {
  ni_agent : string; ni_name : string; ni_cwd : string; ni_home : option string; ni_now : Time; ni_exists : string → bool;
  ni_pane : option string; ni_order : list Session → list Session }.
Definition findActiveCodexRemoteServer (i : NewInput) (sessions : gmap string Session) : option Session :=
  List.find (λ snap, isCodexRemoteServerSnapshot snap && negb (terminal (ses_State snap)) &&
    negb (String.eqb (ses_TmuxTarget snap) "") && ni_exists i (ses_TmuxTarget snap)) (ni_order i (map_to_list sessions).*2).
Definition remote_agent (i : NewInput) : string := if String.eqb (ni_agent i) "" then "claude" else ni_agent i.
Definition remote_id (i : NewInput) : string := generateSessionID (ni_now i).
Definition remote_name (i : NewInput) : string :=
  if String.eqb (ni_name i) "" then remote_agent i +:+ "-" +:+ string_drop 2 (remote_id i) else ni_name i.
Definition remote_session (i : NewInput) (command target : string) : Session :=
  SetState StateIdle (ni_now i) (SetCurrentCommand command (set_tmux (agentTmuxSessionName "" (remote_name i) "" (remote_id i)) target
    (SetEnv (supervisedSessionEnvironment (dc_launch cfg) (remote_id i) ∅).1 (SetTransport TransportTmux
      (NewSession (remote_id i) (remote_name i) (remote_agent i) (if String.eqb (ni_cwd i) "" then home_projects (ni_home i) else ni_cwd i) (ni_now i)))))).
(** A remote server that runs already, or the command and the pane of a new one. *)
Definition session_new_ask (i : NewInput) : SM (string + string * string) :=
  match remote_command (remote_agent i) with
  | None => throw ("agent not implemented: " +:+ remote_agent i)
  | Some command =>
      if negb (String.eqb (ni_name i) "") && negb (name_safe (ni_name i)) then throw "name must match [A-Za-z0-9_-]{1,64}" else
      running ← (if String.eqb (remote_agent i) codexRemoteServerAgent then gets (λ s, findActiveCodexRemoteServer i (ds_sessions s)) else mret None);
      match running with
      | Some snap => mret (inl (ses_ID snap))
      | None =>
          taken ← gets (λ s, findByName (ni_order i) (remote_name i) (ds_sessions s));
          match taken with
          | Some _ => throw ("session name already in use: " +:+ remote_name i)
          | None =>
              let sess := remote_session i command "" in
              _ ← call (CallSetupPane (ses_TmuxSessionName sess) (remote_name i) (ses_CWD sess) (ses_Env sess) ("exec " +:+ command));
              match ni_pane i with Some target => mret (inr (command, target)) | None => throw "setup tmux pane" end
          end
      end
  end.
Definition handleSessionNew (others : Sessions → Sessions) (i : NewInput) : SM string :=
  answer ← session_new_ask i;
  match answer with
  | inl id => mret id
  | inr (command, target) =>
      _ ← modify others; _ ← insert_session (remote_id i) (remote_session i command target); mret (remote_id i)
  end.
(** Closing asks tmux once, for the session or for the pane, and forgets the
    session whatever the answer is; its monitor and its recorder stay. *)
Definition session_close_ask (order : list Session → list Session) (name : string) : SM Session :=
  if String.eqb name "" then throw "missing name" else
  found ← gets (λ s, findByName order name (ds_sessions s));
  match found with
  | None => throw ("session not found: " +:+ name)
  | Some snap =>
      _ ← (if negb (String.eqb (ses_TmuxSessionName snap) "") then call (CallKillSession (ses_TmuxSessionName snap))
           else if negb (String.eqb (ses_TmuxTarget snap) "") then call (CallKillPane (ses_TmuxTarget snap)) else mret tt);
      mret snap
  end.
Definition session_close_forget (id : string) : SM unit :=
  _ ← modify (set_sessions (delete id)); persistSessions.
Definition handleSessionClose (others : Sessions → Sessions) (order : list Session → list Session) (name : string) : SM string :=
  snap ← session_close_ask order name;
  _ ← modify others;
  _ ← session_close_forget (ses_ID snap);
  mret (ses_ID snap).

(** ** The first prompt and later ones *)

Definition prompt_event (id kind message : string) (now : Time) : Event := mkEvent id kind "" message now ∅.
(** [startAgentLifecycle]: up to the handshake, after it, and after the delivery
    of the first prompt. *)
Definition lifecycle_begin (id : string) (now : Time) : SM unit :=
  _ ← on_session id (SetState StateHandshaking now); emitStateChanged id StateHandshaking "" now.
Definition lifecycle_shaken (id : string) (failure : option string) (prompt : string) (now : Time) : SM unit :=
  match failure with
  | Some err => _ ← on_session id (SetState StateFailed now); emitStateChanged id StateFailed err now
  | None =>
      _ ← on_session id (SetState StateIdle now);
      _ ← emitStateChanged id StateIdle "agent ready" now;
      if String.eqb prompt "" then startMonitor id else mret tt
  end.
(** What a delivered prompt leaves, in [startAgentLifecycle] and in [SendPrompt]. *)
Definition prompt_taken (id text : string) (now : Time) : SM unit :=
  _ ← on_session id (λ s, ResetNudge (SetState StateWorking now (SetCurrentCommand (truncatePreview text 200) s)));
  _ ← emitStateChanged id StateWorking "prompt delivered" now;
  emitEvent (prompt_event id "prompt_delivered" "" now).
Definition lifecycle_prompted (id prompt : string) (failure : option string) (now : Time) : SM unit :=
  match failure with
  | Some err =>
      _ ← on_session id (SetState StateStuck now);
      _ ← emitStateChanged id StateStuck "prompt delivery failed" now;
      emitEvent (prompt_event id "prompt_failed" err now)
  | None => _ ← prompt_taken id prompt now; startMonitor id
  end.
(** [SendPrompt] before the transport; the profile says which one. *)
Definition sendPrompt_check (id : string) : SM AgentProfile :=
  sess ← require_session id;
  match profiles !! ses_Agent sess with Some prof => mret prof | None => throw ("unknown agent profile: " +:+ ses_Agent sess) end.
(** and after [deliverPrompt] in a pane *)
Definition sendPrompt_settle (id text : string) (failure : option string) (now : Time) : SM unit :=
  match failure with
  | Some err =>
      _ ← on_session id (SetState StateStuck now);
      _ ← emitStateChanged id StateStuck "prompt delivery failed" now;
      throw err
  | None => prompt_taken id text now
  end.

(** ** Recording *)

Definition ScreenLogPath (id : string) : string := filepath_Join (dc_ScreenLogDir cfg) (id +:+ ".screen.log").
Definition SetRecording (id : string) (on : bool) (now : Time) : SM string :=
  _ ← require_session id;
  let logPath := ScreenLogPath id in
  r ← gets (λ s, ds_recorders s !! id);
  match on, r with
  | true, Some _ => mret logPath
  | true, None =>
      _ ← file_step "mkdir";
      _ ← modify (set_recorders (<[id := mkRecorder logPath now]>));
      _ ← call (CallRecord id); mret logPath
  | false, Some _ => _ ← modify (set_recorders (delete id)); _ ← call (CallStopRecorder id); mret logPath
  | false, None => mret logPath
  end.
Definition RecordingStatus (id : string) (s : Sessions) : bool * string * Time :=
  match ds_recorders s !! id with
  | Some r => (true, rc_logPath r, rc_startedAt r)
  | None => (false, ScreenLogPath id, zero_time)
  end.

(** ** Ending *)

Definition stop_recorder (id : string) : SM unit :=
  r ← gets (λ s, ds_recorders s !! id);
  match r with Some _ => _ ← modify (set_recorders (delete id)); call (CallStopRecorder id) | None => mret tt end.
Definition cancel_monitor (id : string) : SM unit :=
  m ← gets (λ s, ds_monitors s !! id);
  match m with Some k => _ ← call (CallCancel id k); modify (set_monitors (delete id)) | None => mret tt end.
(** What tmux answers to the termination, and for a pane to the question whether
    it is still there; the clock. *)
Record KillInput := mkKillInput { ki_kill : option string; ki_probe : string → result string bool; ki_now : Time }.
Definition kill_keys (snap : Session) (graceful : bool) : SM unit :=
  if graceful then call (CallKeys (ses_TmuxTarget snap) "C-c") else mret tt.
Definition kill_call (snap : Session) : Call :=
  if negb (String.eqb (ses_TmuxSessionName snap) "") then CallKillSession (ses_TmuxSessionName snap) else CallKillPane (ses_TmuxTarget snap).
Definition kill_ask (snap : Session) : SM unit :=
  if String.eqb (ses_TmuxTarget snap) "" then throw "exact tmux pane target is unavailable" else call (kill_call snap).
Definition kill_probe (snap : Session) (i : KillInput) : SM (result string bool) :=
  _ ← call (CallProbe (ses_TmuxTarget snap)); mret (ki_probe i (ses_TmuxTarget snap)).
Definition kill_settle (id : string) (snap : Session) (i : KillInput) (answer : result string bool) : SM unit :=
  let target := ses_TmuxTarget snap in
  match answer with
  | Err e => throw ("verify exact tmux pane after termination: " +:+ e)
  | Ok true =>
      throw (match ki_kill i with Some e => "terminate exact tmux session: " +:+ e
             | None => "exact tmux pane " +:+ target +:+ " is still alive after termination" end)
  | Ok false =>
      _ ← cancel_monitor id;
      _ ← stop_recorder id;
      _ ← call (CallStopPipe target);
      _ ← call (CallUnwatch id);
      _ ← call (CallCleanup id);
      _ ← run_hooks (ArchiveSessionState id);
      _ ← on_session id (SetState StateExited (ki_now i));
      _ ← persistSessions;
      emitStateChanged id StateExited "killed" (ki_now i)
  end.
Inductive KillWait := AfterKeys | AfterKill | AfterProbe.
Definition kill_tmux (others : KillWait → Sessions → Sessions) (id : string) (snap : Session) (graceful : bool) (i : KillInput) : SM unit :=
  _ ← kill_keys snap graceful;
  _ ← modify (others AfterKeys);
  _ ← kill_ask snap;
  _ ← modify (others AfterKill);
  answer ← kill_probe snap i;
  _ ← modify (others AfterProbe);
  kill_settle id snap i answer.
(** A session that runs its prompts as processes. Whatever the waits for the
    process find, the session ends. *)
Definition kill_exec_ask (id : string) (graceful : bool) : SM (option Supervision) :=
  proc ← gets (λ s, ds_processes s !! id);
  mon ← gets (λ s, ds_monitors s !! id);
  _ ← match proc with
      | Some pid => _ ← if graceful then call (CallSignal pid false) else mret tt; call (CallSignal pid true)
      | None => mret tt
      end;
  mret mon.
Definition kill_exec_settle (id : string) (mon : option Supervision) (now : Time) : SM unit :=
  _ ← match mon with Some k => call (CallCancel id k) | None => mret tt end;
  _ ← modify (set_processes (delete id));
  _ ← modify (set_monitors (delete id));
  _ ← stop_recorder id;
  _ ← on_session id (λ s, SetState StateExited now (SetCurrentCommand "" (SetPID 0 s)));
  _ ← persistSessions;
  emitStateChanged id StateExited "killed" now.
Definition killExecSession (others : KillWait → Sessions → Sessions) (id : string) (graceful : bool) (now : Time) : SM unit :=
  mon ← kill_exec_ask id graceful; _ ← modify (others AfterKill); kill_exec_settle id mon now.
Definition Kill (others : KillWait → Sessions → Sessions) (id : string) (graceful : bool) (i : KillInput) : SM unit :=
  snap ← require_session id;
  if String.eqb (ses_Transport snap) TransportExec then killExecSession others id graceful (ki_now i) else kill_tmux others id snap graceful i.
Definition beginStop : SM unit := modify set_stopping.
(** The end of [Stop], after the processes were drained. *)
Definition Stop_sessions : SM unit :=
  _ ← persistSessions;
  l ← gets (λ s, map_to_list (ds_monitors s));
  _ ← for_each (λ m, call (CallCancel m.1 m.2)) l;
  _ ← modify (set_monitors (λ _, ∅));
  modify (set_bus Close).

(** ** The exec transport (exec_transport.go) *)

Definition ExecDriverCodexExecJSON : string := "codex_exec_json".
Definition ExecDriverClaudePrintStreamJSON : string := "claude_print_stream_json".
Definition ExecDriverGrokStreamJSON : string := "grok_stream_json".

(** The environment of a process: that of the daemon less the keys in [unset],
    overlaid with the one of the session. *)
Definition kept_env (unset base : list string) : list string :=
  List.filter (λ e, negb (existsb (λ key, has_prefix (key +:+ "=") e) unset)) base.
Definition env_map (base : list string) : gmap string string :=
  foldl (λ m e, match cut_equals e with Some (k, v) => <[k := v]> m | None => m end) ∅ base.
Definition mergedEnv (unset base : list string) (snap : Session) : list string :=
  let base := kept_env unset base in
  if bool_decide (ses_Env snap = ∅) then base else
  (λ kv, kv.1 +:+ "=" +:+ kv.2) <$> map_to_list (ses_Env snap ∪ env_map base).

(** What is at a path: whether it is a directory, and its permissions. *)
Record ExecWorld := mkExecWorld { ew_environ : list string; ew_stat : string → option (bool * Z); ew_lookPath : string → option string }.
Definition search_path (w : ExecWorld) (name : string) (dirs : list string) : option string :=
  head (List.filter (λ c, match ew_stat w c with Some (dir, perm) => negb dir && negb (Z.land perm 73 =? 0) | None => false end)
    ((λ dir, filepath_Join (if String.eqb dir "" then "." else dir) name) <$> dirs)).
Definition resolveExecutable (w : ExecWorld) (name : string) (env : list string) : option string :=
  if contains_any (char_is "/") name then Some name else
  let pathValue := default "" (head (omap (cut_prefix "PATH=") env)) in
  if String.eqb pathValue "" then ew_lookPath w name
  else search_path w name (split_on ":" pathValue).

Record execRunConfig := mkExecRun { rn_path : string; rn_args : list string; rn_env : list string; rn_dir : string; rn_stdin : option string; rn_final : string }.
Definition commandWithSnapshotEnv (w : ExecWorld) (name : string) (args unset : list string) (stdin : option string) (final : string) (snap : Session) : SM execRunConfig :=
  let env := mergedEnv unset (ew_environ w) snap in
  match resolveExecutable w name env with
  | Some path => mret (mkExecRun path args env (ses_CWD snap) stdin final)
  | None => throw "executable file not found"
  end.
(** [lastOutputPath] is the temporary path for the last message; [uuid] a new
    identity. *)
Definition buildCodexExecRun (w : ExecWorld) (lastOutputPath prompt : string) (snap : Session) : SM execRunConfig :=
  let args := "exec" ::
    (if negb (String.eqb (ses_BackendSessionID snap) "")
     then ["resume"; "--dangerously-bypass-approvals-and-sandbox"; "--json"; "-o"; lastOutputPath; ses_BackendSessionID snap; "-"]
     else ["--dangerously-bypass-approvals-and-sandbox"; "--json"; "-o"; lastOutputPath; "-"]) in
  commandWithSnapshotEnv w "codex" args [] (Some prompt) lastOutputPath snap.
Definition buildClaudeExecRun (w : ExecWorld) (uuid prompt : string) (snap : Session) : SM execRunConfig :=
  let fresh := String.eqb (ses_BackendSessionID snap) "" in
  let backend := if fresh then uuid else ses_BackendSessionID snap in
  _ ← if fresh then on_session (ses_ID snap) (SetBackendSessionID backend) else mret tt;
  let args := ["-p"; "--dangerously-skip-permissions"; "--verbose"; "--output-format"; "stream-json"; "--include-partial-messages"] ++
    [if fresh then "--session-id" else "--resume"; backend; prompt] in
  commandWithSnapshotEnv w "claude" args ["ANTHROPIC_API_KEY"; "CLAUDECODE"] None "" snap.
Definition buildGrokExecRun (w : ExecWorld) (prompt : string) (snap : Session) : SM execRunConfig :=
  let args := ["-p"; prompt; "--output-format"; "streaming-json"; "--permission-mode"; "bypassPermissions"] ++
    (if String.eqb (ses_BackendSessionID snap) "" then [] else ["--resume"; ses_BackendSessionID snap]) in
  commandWithSnapshotEnv w "grok" args [] None "" snap.
Definition buildExecRunConfig (w : ExecWorld) (prof : AgentProfile) (lastOutputPath uuid prompt : string) (snap : Session) : SM execRunConfig :=
  if String.eqb (ap_ExecDriver prof) ExecDriverCodexExecJSON then buildCodexExecRun w lastOutputPath prompt snap
  else if String.eqb (ap_ExecDriver prof) ExecDriverClaudePrintStreamJSON then buildClaudeExecRun w uuid prompt snap
  else if String.eqb (ap_ExecDriver prof) ExecDriverGrokStreamJSON then buildGrokExecRun w prompt snap
  else throw ("unsupported exec driver: " +:+ ap_ExecDriver prof).

(** [sendExecPrompt]: the check and the command, then the start. *)
Definition exec_check (w : ExecWorld) (prof : AgentProfile) (id text lastOutputPath uuid : string) : SM execRunConfig :=
  if String.eqb (trim_text text) "" then throw "prompt text is empty" else
  snap ← require_session id;
  if bool_decide (ses_State snap = StateExited) then throw ("session exited: " +:+ id) else
  running ← gets (λ s, ds_processes s !! id);
  match running with
  | Some _ => throw ("session busy: " +:+ id)
  | None => buildExecRunConfig w prof lastOutputPath uuid text snap
  end.
(** [pid] is [None] when the process does not start. *)
Definition exec_start (run : execRunConfig) (id text : string) (pid : option Z) (now : Time) : SM unit :=
  _ ← file_step "prepare output dir";
  _ ← file_step "prepare output file";
  let commandText := join_with " " (rn_path run :: rn_args run) in
  _ ← call (CallWriteOutput id ("[arcmux exec] running: " +:+ commandText +:+ newline));
  stopping ← gets ds_stopping;
  if stopping : bool then throw "daemon stopping" else
  _ ← call (CallStartProcess id (rn_path run :: rn_args run));
  match pid with
  | None => throw "start exec process"
  | Some pid =>
      _ ← modify (set_processes (<[id := pid]>));
      _ ← modify (set_monitors (<[id := ExecRun]>));
      _ ← on_session id (λ s, ResetNudge (SetHealth "healthy" (SetState StateWorking now (SetCurrentCommand commandText (SetPID pid s)))));
      _ ← persistSessions;
      _ ← emitStateChanged id StateWorking "prompt started" now;
      emitEvent (prompt_event id "prompt_started" (trim_text text) now)
  end.
(** The end of [waitExecPrompt], in two stretches: [snap] is read before the
    state is set; the last one takes the process out of the table. *)
Definition exec_settle (id : string) (snap : Session) (waitErr : option string) (now : Time) : SM unit :=
  _ ← on_session id (λ s, SetCurrentCommand "" (SetPID 0 s));
  if bool_decide (ses_State snap = StateExited) then mret tt else
  let terminalState := if ses_AutoClose snap then StateExited else StateIdle in
  _ ← on_session id (SetState terminalState now);
  _ ← persistSessions;
  match waitErr with
  | Some e => _ ← emitStateChanged id terminalState "prompt failed" now; emitEvent (prompt_event id "prompt_failed" e now)
  | None => _ ← emitStateChanged id terminalState "prompt completed" now; emitEvent (prompt_event id "prompt_completed" "" now)
  end.
Definition exec_forget (id : string) : SM unit :=
  _ ← modify (set_processes (delete id)); cancel_monitor id.
End Daemon.

(** ** What an exec process prints *)

(** What the lines decode to is an input; [raw] keeps the lines. *)
Record codexEvent := mkCodexEvent { cx_Type : string; cx_ThreadID : string; cx_ItemType : string; cx_ItemText : string; cx_Result : string }.
Record execParser := mkParser { xp_lastOutput : string; xp_resultText : string; xp_text : string; xp_raw : list string }.
Definition new_parser : execParser := mkParser "" "" "" [].
Definition with_line (line : string) (p : execParser) : execParser := mkParser (xp_lastOutput p) (xp_resultText p) (xp_text p) (xp_raw p ++ [line]).
Definition with_last (s : string) (p : execParser) : execParser := mkParser s (xp_resultText p) (xp_text p) (xp_raw p).
Definition blank_text (s : string) : bool := String.eqb (trim_text s) "".
(** The identity for a later resumption is an output. *)
Definition codex_line (line : string) (e : option codexEvent) (p : execParser) : option string * execParser :=
  let p := with_line line p in
  match e with
  | None => (None, p)
  | Some e =>
      let id := if String.eqb (cx_Type e) "thread.started" && negb (String.eqb (cx_ThreadID e) "") then Some (cx_ThreadID e) else None in
      let p := if String.eqb (cx_Type e) "item.completed" && String.eqb (cx_ItemType e) "agent_message" && negb (blank_text (cx_ItemText e))
               then with_last (trim_text (cx_ItemText e)) p else p in
      let p := if String.eqb (cx_Type e) "result" && blank_text (xp_lastOutput p) && negb (blank_text (cx_Result e))
               then with_last (trim_text (cx_Result e)) p else p in
      (id, p)
  end.
Definition codex_output (p : execParser) : string :=
  if negb (blank_text (xp_lastOutput p)) then xp_lastOutput p else join_with newline (xp_raw p).
Record claudeEvent := mkClaudeEvent { cl_Type : string; cl_SessionID : string; cl_Result : string; cl_Content : list (string * string) }.
Definition claude_line (line : string) (e : option claudeEvent) (p : execParser) : option string * execParser :=
  let p := with_line line p in
  match e with
  | None => (None, p)
  | Some e =>
      let id := if String.eqb (cl_SessionID e) "" then None else Some (cl_SessionID e) in
      let parts := (List.filter (λ c, String.eqb c.1 "text" && negb (blank_text c.2)) (cl_Content e)).*2 in
      let p := if String.eqb (cl_Type e) "assistant" && negb (bool_decide (parts = [])) then with_last (trim_text (join_with newline parts)) p else p in
      let p := if String.eqb (cl_Type e) "result" && negb (blank_text (cl_Result e)) then
                 let text := trim_text (cl_Result e) in
                 mkParser (if blank_text (xp_lastOutput p) then text else xp_lastOutput p) text (xp_text p) (xp_raw p)
               else p in
      (id, p)
  end.
Definition claude_output (p : execParser) : string :=
  if negb (blank_text (xp_lastOutput p)) then xp_lastOutput p
  else if negb (blank_text (xp_resultText p)) then xp_resultText p else join_with newline (xp_raw p).
Record grokEvent := mkGrokEvent { gk_Type : string; gk_Data : string; gk_SessionID : string }.
Definition grok_line (line : string) (e : option grokEvent) (p : execParser) : option string * execParser :=
  let p := with_line line p in
  match e with
  | None => (None, p)
  | Some e =>
      if String.eqb (gk_Type e) "text" then (None, mkParser (xp_lastOutput p) (xp_resultText p) (xp_text p +:+ gk_Data e) (xp_raw p))
      else if String.eqb (gk_Type e) "end" && negb (String.eqb (gk_SessionID e) "") then (Some (gk_SessionID e), p)
      else (None, p)
  end.
Definition grok_output (p : execParser) : string :=
  let out := trim_text (xp_text p) in if String.eqb out "" then join_with newline (xp_raw p) else out.
(** [final] is the file of the last message, when there is one that can be read. *)
Definition finalizeExecOutput (parserOutput : string) (final : option string) (stderrText : string) (waitErr : option string) : string :=
  let without_file :=
    let output := trim_text parserOutput in
    if negb (String.eqb output "") then output else
    let e := trim_text stderrText in
    if negb (String.eqb e "") then match waitErr with Some w => trim_text (e +:+ newline +:+ w) | None => e end
    else default "" waitErr in
  match final with
  | Some data => if blank_text data then without_file else trim_text data
  | None => without_file
  end.
(** The output of a process replaces what the file of the session held. *)
Definition exec_output (id parserOutput : string) (final : option string) (stderrText : string) (waitErr : option string) : SM unit :=
  call (CallWriteOutput id (finalizeExecOutput parserOutput final stderrText waitErr)).
(** [random] is [None] when no random bytes can be read. *)
Definition pad12 (n : Z) : string := let s := FormatUint n in (bytes_string (replicate (12 - String.length s) 48)) +:+ s.
Definition generateUUID (random : option (list Z)) (now : Time) : string :=
  match random with
  | None => "00000000-0000-4000-8000-" +:+ pad12 (Z.rem (s64 (t_ns now - unix_epoch)) 1000000000000)
  | Some b =>
      let b := alter (λ x, Z.lor (Z.land x 15) 64) 6%nat b in
      let b := alter (λ x, Z.lor (Z.land x 63) 128) 8%nat b in
      hex_bytes (take 4 b) +:+ "-" +:+ hex_bytes (take 2 (drop 4 b)) +:+ "-" +:+ hex_bytes (take 2 (drop 6 b)) +:+ "-" +:+
      hex_bytes (take 2 (drop 8 b)) +:+ "-" +:+ hex_bytes (drop 10 b)
  end.
Example uuid_shape : generateUUID (Some (replicate 16 255)) zero_time = "ffffffff-ffff-4fff-bfff-ffffffffffff".
Proof. vm_compute. reflexivity. Qed.

(** * What the sessions keep *)

Section Facts.
Context `{UnicodeTables} (cfg : DaemonConfig) (profiles : gmap string AgentProfile).

(** ** Runs *)

Definition ignore {A} (m : SM A) : SM unit := _ ← try m; mret tt.
(** The stretches of a creation and of a [Kill]. *)
Inductive CreateStretch := CreateCheck | CreateExec | CreateFiles | CreateLaunch | CreatePlace (target : string).
Definition create_stretch (k : CreateStretch) (r : CreateSessionRequest) (i : CreateInput) (c : Creation) : SM unit :=
  match k with
  | CreateCheck => ignore (create_check r i c) | CreateExec => create_exec cfg r i c | CreateFiles => create_files cfg r i c
  | CreateLaunch => ignore (create_launch cfg r i c) | CreatePlace target => create_place cfg r i c target
  end.
Inductive KillStretch := KillKeys | KillAsk | KillProbe | KillSettle (answer : result string bool) | KillExecAsk | KillExecSettle (mon : option Supervision).
Definition kill_stretch (k : KillStretch) (id : string) (snap : Session) (graceful : bool) (i : KillInput) : SM unit :=
  match k with
  | KillKeys => kill_keys snap graceful | KillAsk => kill_ask snap | KillProbe => ignore (kill_probe snap i)
  | KillSettle answer => kill_settle cfg id snap i answer
  | KillExecAsk => ignore (kill_exec_ask id graceful) | KillExecSettle mon => kill_exec_settle cfg id mon (ki_now i)
  end.
(** The stretches of the handlers, in any order, and the other users of a
    session's state. *)
Inductive SessionsOp :=
| OpRestore (i : RestoreInput) | OpCreate (k : CreateStretch) (r : CreateSessionRequest) (i : CreateInput) | OpPersist
| OpNewAsk (i : NewInput) | OpNewPlace (i : NewInput) (command target : string) | OpCloseAsk (order : list Session → list Session) (name : string) | OpCloseForget (id : string)
| OpBegin (id : string) (now : Time) | OpShaken (id : string) (failure : option string) (prompt : string) (now : Time)
| OpPrompted (id prompt : string) (failure : option string) (now : Time)
| OpSettle (id text : string) (failure : option string) (now : Time)
| OpRecording (id : string) (on : bool) (now : Time) | OpKill (k : KillStretch) (id : string) (snap : Session) (graceful : bool) (i : KillInput)
| OpBeginStop | OpStop
| OpExecCheck (w : ExecWorld) (prof : AgentProfile) (id text lastOutputPath uuid : string)
| OpExecStart (run : execRunConfig) (id text : string) (pid : option Z) (now : Time)
| OpExecSettle (id : string) (snap : Session) (waitErr : option string) (now : Time) | OpExecForget (id : string)
| OpMonitor (id : string) (st : State) (now : Time) | OpBackend (id backend : string) | OpEvent (e : Event)
| OpSubscribe (sid : string) | OpUnsubscribe (sub : Z)
| OpFile (path : string) (content : option (list persistedSession)) | OpIo (l : list bool).
Definition sessions_op (o : SessionsOp) : SM unit :=
  match o with
  | OpRestore i => restoreSessions cfg profiles i
  | OpCreate k r i => match plan_creation cfg profiles r i with Ok c => create_stretch k r i c | Err _ => mret tt end
  | OpNewAsk i => ignore (session_new_ask cfg i)
  | OpNewPlace i command target => insert_session cfg (remote_id i) (remote_session cfg i command target)
  | OpCloseAsk order name => ignore (session_close_ask order name)
  | OpCloseForget id => session_close_forget cfg id
  | OpPersist => persistSessions cfg
  | OpBegin id now => lifecycle_begin id now
  | OpShaken id failure prompt now => lifecycle_shaken id failure prompt now
  | OpPrompted id prompt failure now => lifecycle_prompted id prompt failure now
  | OpSettle id text failure now => ignore (sendPrompt_settle id text failure now)
  | OpRecording id on now => ignore (SetRecording cfg id on now)
  | OpKill k id snap graceful i => ignore (kill_stretch k id snap graceful i)
  | OpBeginStop => beginStop
  | OpStop => Stop_sessions cfg
  | OpExecCheck w prof id text lastOutputPath uuid => ignore (exec_check w prof id text lastOutputPath uuid)
  | OpExecStart run id text pid now => ignore (exec_start cfg run id text pid now)
  | OpExecSettle id snap waitErr now => exec_settle cfg id snap waitErr now
  | OpExecForget id => exec_forget id
  | OpMonitor id st now => on_session id (SetState st now)
  | OpBackend id backend => on_session id (SetBackendSessionID backend)
  | OpEvent e => emitEvent e
  | OpSubscribe sid => modify (set_bus (λ b, (Subscribe sid b).2))
  | OpUnsubscribe sub => modify (set_bus (Unsubscribe sub))
  | OpFile path content => modify (set_files (<[path := Regular 384 (fmap (M := list) json_persisted <$> content)]>))
  | OpIo l => modify (set_io l)
  end.
Definition sessions_run (ops : list SessionsOp) (s : Sessions) : Sessions := foldl (λ s o, (sessions_op o s).2) s ops.
Definition started (h : HookDir) (e : EnvDisk) : Sessions := mkSessions ∅ ∅ ∅ ∅ false NewEventBus h e ∅ [] [].

(** ** Identities *)

Definition entry_ok (id : string) (sess : Session) : Prop := ses_ID sess = id ∧ json_text id = id.
Definition file_ok (f : File (list persistedSession)) : Prop :=
  match f with Regular _ (Some l) => Forall (λ r, json_persisted r = r) l | _ => True end.
Definition tables_ok (s : Sessions) : Prop :=
  map_Forall entry_ok (ds_sessions s) ∧ map_Forall (λ _, file_ok) (ds_files s).
Definition stays (s s' : Sessions) : Prop := tables_ok s → tables_ok s'.
#[local] Instance stays_preorder : PreOrder stays.
Proof. split; unfold stays; [by intros s|]. intros a b c H1 H2 H3. auto. Qed.

Lemma stays_same f : (∀ s, ds_sessions (f s) = ds_sessions s ∧ ds_files (f s) = ds_files s) → respects stays (modify (E := string) f).
Proof. intros Hf s Hs. unfold tables_ok. cbn. by destruct (Hf s) as [-> ->]. Qed.
Lemma stays_insert id sess : entry_ok id sess → respects stays (modify (E := string) (set_sessions (<[id := sess]>))).
Proof. intros He s [Hs Hf]. split; [|done]. cbn. by apply map_Forall_insert_2. Qed.
Lemma stays_on id f : (∀ s, ses_ID (f s) = ses_ID s) → respects stays (on_session id f).
Proof.
  intros Hf s [Hs Hfile]. split; [|done]. cbn. intros k sess Hk. destruct (decide (k = id)) as [->|Hne].
  - rewrite lookup_alter_eq in Hk. destruct (ds_sessions s !! id) as [sess'|] eqn:He; [|done]. injection Hk as <-.
    destruct (Hs _ _ He) as [<- Hj]. split; [|done]. by rewrite Hf.
  - rewrite lookup_alter_ne in Hk by done. by apply Hs.
Qed.
Lemma stays_file_step m : respects stays (file_step m).
Proof. intros s Hs. unfold file_step. by destruct (ds_io s) as [|[] rest]. Qed.
Lemma stays_call c : respects stays (call c).
Proof. by apply stays_same. Qed.
Lemma stays_emit e : respects stays (emitEvent e).
Proof. by apply stays_same. Qed.
Lemma stays_hooks m : respects stays (run_hooks m).
Proof. by apply stays_same. Qed.
Lemma stays_env m : respects stays (run_env m).
Proof. by apply stays_same. Qed.
Lemma stays_monitors f : respects stays (modify (E := string) (set_monitors f)).
Proof. by apply stays_same. Qed.
Lemma stays_recorders f : respects stays (modify (E := string) (set_recorders f)).
Proof. by apply stays_same. Qed.
Lemma stays_processes f : respects stays (modify (E := string) (set_processes f)).
Proof. by apply stays_same. Qed.
Lemma stays_bus f : respects stays (modify (E := string) (set_bus f)).
Proof. by apply stays_same. Qed.
Lemma json_persisted_idem r : json_persisted (json_persisted r) = json_persisted r.
Proof. unfold json_persisted. cbn -[json_text]. rewrite !json_text_idem. f_equal. destruct (ps_State r); try done. by rewrite json_text_idem. Qed.
Lemma stays_write perm l path : respects stays (modify (E := string) (set_files (<[path := Regular perm (fmap (M := list) json_persisted <$> l)]>))).
Proof.
  intros s [Hs Hf]. split; [done|]. cbn. apply map_Forall_insert_2; [|done]. destruct l as [l|]; [|done]. cbn.
  apply Forall_fmap, Forall_true. intros r. apply json_persisted_idem.
Qed.
#[local] Hint Resolve stays_file_step stays_call stays_emit stays_hooks stays_env stays_monitors stays_recorders stays_processes stays_bus : go.
#[local] Hint Extern 1 (respects stays (modify _)) => apply stays_same : go.
#[local] Hint Extern 1 (respects stays (on_session _ _)) => apply stays_on : go.

Lemma stays_emit_state id st message now : respects stays (emitStateChanged id st message now).
Proof. unfold emitStateChanged. respects. Qed.
#[local] Hint Resolve stays_emit_state : go.
Lemma stays_persist_checked : respects stays (persistSessionsChecked cfg).
Proof.
  unfold persistSessionsChecked. apply respects_bind; [apply _|apply respects_gets; apply _|]. intros records. respects.
  apply (stays_write 384 (Some records)).
Qed.
#[local] Hint Resolve stays_persist_checked : go.
Lemma stays_best (m : SM unit) : respects stays m → respects stays (best_effort m).
Proof. intros Hm. unfold best_effort. respects. Qed.
Lemma stays_ignore {A} (m : SM A) : respects stays m → respects stays (ignore m).
Proof. intros Hm. unfold ignore. respects. Qed.
Lemma stays_persist : respects stays (persistSessions cfg).
Proof. apply stays_best, stays_persist_checked. Qed.
#[local] Hint Resolve stays_persist : go.
Lemma stays_require id : respects stays (require_session id).
Proof. unfold require_session, GetSession. respects. Qed.
#[local] Hint Resolve stays_require : go.
Lemma stays_start_monitor id : respects stays (startMonitor id).
Proof. unfold startMonitor. respects. Qed.
#[local] Hint Resolve stays_start_monitor : go.

Lemma restored_session_id rec transport now : ses_ID (restored_session rec transport now) = ps_ID rec.
Proof. unfold restored_session. cbv zeta. by destruct (_ && _), (ps_Private rec). Qed.
Lemma stays_restore_record i rec : json_persisted rec = rec → respects stays (restore_record profiles i rec).
Proof.
  intros Hj. assert (json_text (ps_ID rec) = ps_ID rec) as Hid by (by rewrite <- Hj at 2).
  assert (∀ now, entry_ok (ps_ID rec) (restored_exec rec now)) as He by (split; [apply restored_session_id|done]).
  assert (∀ t now, entry_ok (ps_ID rec) (restored_tmux rec t now)) as Ht by (split; [apply restored_session_id|done]).
  unfold restore_record. destruct (profiles !! ps_Agent rec); [|respects].
  cbv zeta. destruct (String.eqb _ _); [by apply stays_insert|]. destruct (negb _); [respects|].
  apply respects_bind; [apply _|by apply stays_insert|]. intros []. respects.
Qed.
Lemma found_files s r s' : inventory_found cfg s = (r, s') →
  ds_sessions s' = ds_sessions s ∧ ds_files s' = ds_files s ∧
  ∃ o, r = Ok o ∧ ∀ l, o = Some l → ∃ path perm, ds_files s !! path = Some (Regular perm (Some l)).
Proof.
  unfold inventory_found, try, mbind, M_bind, gets, mret, M_ret.
  assert (∀ m s, ds_sessions (file_step m s).2 = ds_sessions s ∧ ds_files (file_step m s).2 = ds_files s) as Hstep.
  { intros m t. unfold file_step. by destruct (ds_io t) as [|[] rest]. }
  destruct (Hstep "read" s) as [Hs1 Hf1]. destruct (file_step "read" s) as [r1 s1]. cbn [snd] in *. rewrite Hf1.
  destruct r1 as [u1|e1]; [|intros [= <- <-]; split_and!; [done..|]; by eexists].
  destruct (ds_files s !! persistPath cfg) as [[perm content|]|] eqn:Hfile.
  - intros [= <- <-]. split_and!; [done..|]. eexists. split; [done|]. intros l ->. by exists (persistPath cfg), perm.
  - intros [= <- <-]. split_and!; [done..|]. by eexists.
  - destruct (_ && _); [|intros [= <- <-]; split_and!; [done..|]; by eexists].
    destruct (Hstep "read legacy" s1) as [Hs2 Hf2]. destruct (file_step "read legacy" s1) as [r2 s2]. cbn [snd] in *.
    intros [= <- <-]. split_and!; [by rewrite Hs2|by rewrite Hf2|]. eexists. split; [done|]. intros l Hl. destruct r2 as [u2|]; [|done].
    destruct (ds_files s !! legacyPersistPath cfg) as [[perm content|]|] eqn:Hleg; [|done..]. subst content. by exists (legacyPersistPath cfg), perm.
Qed.
Lemma stays_restore i : respects stays (restoreSessions cfg profiles i).
Proof.
  intros s Hok. unfold restoreSessions, mbind, M_bind. destruct (inventory_found cfg s) as [r s1] eqn:Hf.
  apply found_files in Hf as (Hs & Hfiles & o & -> & Ho). assert (tables_ok s1) as Hok1 by (unfold tables_ok; by rewrite Hs, Hfiles).
  destruct o as [l|]; [|done]. destruct (Ho l eq_refl) as (path & perm & Hl). destruct Hok as [_ Hfok]. specialize (Hfok _ _ Hl). cbn in Hfok.
  revert s1 Hs Hfiles Hok1. enough (respects stays (for_each (restore_record profiles i) l)) as Hr by (intros s1 _ _; apply Hr).
  apply respects_for_each; [apply _|]. intros rec Hrec. apply stays_restore_record. rewrite Forall_forall in Hfok. by apply Hfok.
Qed.
Lemma generated_id_text now : json_text (generateSessionID now) = generateSessionID now.
Proof.
  assert (ascii_text (generateSessionID now)) as Ha.
  { unfold generateSessionID. rewrite ascii_text_app. split; [by vm_compute; repeat constructor|apply FormatInt_ascii]. }
  unfold json_text. rewrite runes_ascii by done. by apply runes_string_ascii.
Qed.
Lemma stays_place id sess : json_text id = id → ses_ID sess = id → respects stays (insert_session cfg id sess).
Proof.
  intros Hj Hs. unfold insert_session. apply respects_bind; [apply _|by apply stays_insert|]. intros []. apply stays_persist.
Qed.
Lemma planned_id r i c : plan_creation cfg profiles r i = Ok c → cn_id c = generateSessionID (ci_now i).
Proof.
  unfold plan_creation. destruct (profiles !! _); [|done]. cbv zeta. destruct (supervisedSessionEnvironment _ _ _). by intros [= <-].
Qed.
Lemma created_id r c now : ses_ID (created_session r c now) = cn_id c.
Proof. unfold created_session. cbv zeta. by destruct (cr_private r). Qed.
Lemma stays_create k r i c : plan_creation cfg profiles r i = Ok c → respects stays (create_stretch k r i c).
Proof.
  intros Hc%planned_id. assert (json_text (cn_id c) = cn_id c) as Hj by (rewrite Hc; apply generated_id_text).
  assert (∀ sess, ses_ID sess = cn_id c → respects stays (insert_session cfg (cn_id c) sess)) as Hins by (intros sess; by apply stays_place).
  pose proof (created_id r c (ci_now i)) as Hid. destruct k; cbn [create_stretch]; try (apply stays_ignore).
  - unfold create_check. respects.
  - unfold create_exec. apply respects_bind; [apply _|by apply Hins|]. intros []. respects.
  - unfold create_files. respects.
  - unfold create_launch. respects.
  - unfold create_place. apply respects_bind; [apply _|respects|]. intros []. apply respects_bind; [apply _|by apply Hins|]. intros []. respects.
Qed.
Lemma stays_close id : respects stays (session_close_forget cfg id).
Proof.
  unfold session_close_forget. apply respects_bind; [apply _| |intros []; apply stays_persist].
  intros s [Hs Hf]. split; [|done]. cbn. by apply map_Forall_delete.
Qed.
Lemma stays_taken id text now : respects stays (prompt_taken id text now).
Proof. unfold prompt_taken. respects. Qed.
#[local] Hint Resolve stays_taken : go.
Lemma stays_recorder id : respects stays (stop_recorder id).
Proof. unfold stop_recorder. respects. Qed.
Lemma stays_cancel id : respects stays (cancel_monitor id).
Proof. unfold cancel_monitor. respects. Qed.
#[local] Hint Resolve stays_recorder stays_cancel : go.
Lemma stays_command w name args unset stdin final snap : respects stays (commandWithSnapshotEnv w name args unset stdin final snap).
Proof. unfold commandWithSnapshotEnv. cbv zeta. respects. Qed.
#[local] Hint Resolve stays_command : go.
Lemma sessions_op_stays o : respects stays (sessions_op o).
Proof.
  destruct o; cbn [sessions_op]; try (lazymatch goal with |- respects _ (ignore _) => apply stays_ignore end); try by (respects).
  - apply stays_restore.
  - destruct (plan_creation cfg profiles r i) as [c|] eqn:Hc; [by apply stays_create|respects].
  - unfold session_new_ask. cbv zeta. respects.
  - apply stays_place; [apply generated_id_text|done].
  - unfold session_close_ask. respects.
  - apply stays_close.
  - unfold lifecycle_begin. respects.
  - unfold lifecycle_shaken. respects.
  - unfold lifecycle_prompted. respects.
  - unfold sendPrompt_settle. respects.
  - unfold SetRecording. cbv zeta. respects. destruct on; respects.
  - unfold kill_stretch, ignore, kill_keys, kill_ask, kill_probe, kill_settle, kill_exec_ask, kill_exec_settle. respects.
  - apply stays_same. done.
  - unfold Stop_sessions. respects.
  - unfold exec_check, buildExecRunConfig, buildCodexExecRun, buildClaudeExecRun, buildGrokExecRun. cbv zeta. respects.
  - unfold exec_start. cbv zeta. respects.
  - unfold exec_settle. cbv zeta. respects.
  - unfold exec_forget. respects.
  - apply stays_write.
Qed.
Lemma sessions_run_ok ops h e : tables_ok (sessions_run ops (started h e)).
Proof.
  assert (∀ s, tables_ok s → tables_ok (sessions_run ops s)) as Hrun.
  { induction ops as [|o ops IH]; intros s Hs; [done|]. apply IH. by apply (sessions_op_stays o). }
  apply Hrun. by split.
Qed.

(** ** A restart *)

Definition restarted (i : RestoreInput) (rec : persistedSession) : option Session :=
  match profiles !! ps_Agent rec with
  | None => None
  | Some prof =>
      let transport := restored_transport rec prof in
      if String.eqb transport TransportExec then Some (restored_exec rec (ri_clock i rec))
      else if ri_pane i (ps_TmuxTarget rec) then Some (restored_tmux rec transport (ri_clock i rec)) else None
  end.
(** What a start from the files has in its table; [io] is what comes of its
    reads. *)
Definition restart (i : RestoreInput) (h : HookDir) (e : EnvDisk) (io : list bool) (files : gmap string (File (list persistedSession))) : gmap string Session :=
  ds_sessions (restoreSessions cfg profiles i (mkSessions ∅ ∅ ∅ ∅ false NewEventBus h e files io [])).2.
Lemma restarted_None i rec : restarted i rec = None → profiles !! ps_Agent rec = None ∨ ri_pane i (ps_TmuxTarget rec) = false.
Proof. unfold restarted. destruct (profiles !! _); [|by left]. cbv zeta. destruct (String.eqb _ _); [done|]. destruct (ri_pane i _); [done|by right]. Qed.
Lemma restore_record_run i rec s :
  ∃ s', restore_record profiles i rec s = (Ok tt, s') ∧
    ds_sessions s' = match restarted i rec with Some sess => <[ps_ID rec := sess]> (ds_sessions s) | None => ds_sessions s end.
Proof.
  unfold restore_record, restarted. destruct (profiles !! ps_Agent rec) as [prof|]; [|by eexists]. cbv zeta.
  destruct (String.eqb _ _); [by eexists|]. destruct (ri_pane i _); [|by eexists]. cbn [negb].
  unfold mbind, M_bind, modify. cbv iota beta.
  destruct (ps_State rec); unfold startMonitor, call, run_hooks, modify, mbind, M_bind, mret, M_ret; cbv iota beta;
    destruct (ri_output i _), (HookBacked _); by eexists.
Qed.
Lemma restore_all_run i l s :
  NoDup (ps_ID <$> l) →
  let s' := (for_each (restore_record profiles i) l s).2 in
  (∀ rec, rec ∈ l → restarted i rec = None ∨ ds_sessions s' !! ps_ID rec = restarted i rec) ∧
  (∀ id, (∀ rec, rec ∈ l → ps_ID rec = id → restarted i rec = None) → ds_sessions s' !! id = ds_sessions s !! id).
Proof.
  revert s. induction l as [|rec l IH]; intros s Hd; [split; [by intros rec Hr%elem_of_nil|done]|].
  cbn [fmap list_fmap] in Hd. apply NoDup_cons in Hd as [Hnot Hd]. cbn [for_each]. destruct (restore_record_run i rec s) as (s1 & Hr & Hs1).
  unfold mbind, M_bind. rewrite Hr. destruct (IH s1 Hd) as [IH1 IH2]. cbv zeta in *. split.
  - intros rec' [->|Hin]%elem_of_cons; [|by apply IH1]. destruct (restarted i rec) as [sess|] eqn:Ha; [right|by left].
    rewrite IH2, Hs1; [by rewrite lookup_insert_eq|]. intros rec' Hin Heq. exfalso. apply Hnot. rewrite <- Heq. by apply list_elem_of_fmap_2.
  - intros id Hid. rewrite IH2 by (intros rec' Hin; apply Hid; by right). rewrite Hs1.
    destruct (restarted i rec) as [sess|] eqn:Ha; [|done]. rewrite lookup_insert_ne; [done|].
    intros Heq. by rewrite (Hid rec) in Ha by (done || left).
Qed.
(** The record a live session leaves. *)
Definition left_behind (snap : Session) : option persistedSession :=
  if terminal (ses_State snap) then None else Some (json_persisted (persist_record snap)).
Lemma records_spec m :
  map_Forall entry_ok m → let l := json_persisted <$> persisted_records m in
  NoDup (ps_ID <$> l) ∧ (∀ rec, rec ∈ l ↔ ∃ id snap, m !! id = Some snap ∧ left_behind snap = Some rec) ∧
  (∀ id snap rec, m !! id = Some snap → left_behind snap = Some rec → ps_ID rec = id).
Proof.
  intros Hm. assert (∀ id snap rec, m !! id = Some snap → left_behind snap = Some rec → ps_ID rec = id) as Hid.
  { intros id snap rec Hs. unfold left_behind. destruct (terminal _); [done|]. intros [= <-]. destruct (Hm _ _ Hs) as [Hi Hj]. cbn. by rewrite Hi. }
  cbv zeta. unfold persisted_records. split_and!; [| |done].
  - rewrite <- !list_fmap_compose.
    assert (∀ l : list (string * Session), (∀ id snap, (id, snap) ∈ l → entry_ok id snap) →
      ps_ID ∘ json_persisted ∘ persist_record <$> List.filter (λ snap, negb (terminal (ses_State snap))) l.*2 `sublist_of` l.*1) as Hsub.
    { induction l as [|[id snap] l IH]; intros Hl; [done|]. cbn [fmap list_fmap fst snd List.filter].
      specialize (IH (λ a b Hab, Hl a b (list_elem_of_further _ _ _ Hab))). destruct (terminal _); cbn [negb]; [by constructor|].
      cbn [fmap list_fmap]. destruct (Hl id snap (list_elem_of_here _ _)) as [Hi Hj].
      assert ((ps_ID ∘ json_persisted ∘ persist_record) snap = id) as -> by (cbn; by rewrite Hi). by constructor. }
    eapply sublist_NoDup; [|by apply Hsub; intros id snap Hin%elem_of_map_to_list; apply Hm]. apply NoDup_fst_map_to_list.
  - intros rec. rewrite <- list_fmap_compose, list_elem_of_fmap. setoid_rewrite list_elem_of_In. setoid_rewrite filter_In.
    setoid_rewrite <- list_elem_of_In. setoid_rewrite list_elem_of_fmap. split.
    + intros (snap & -> & ((id & snap') & -> & Hin) & Ht). apply elem_of_map_to_list in Hin. exists id, snap'. split; [done|].
      unfold left_behind. cbn [snd] in *. by apply negb_true_iff in Ht as ->.
    + intros (id & snap & Hs & Hl). unfold left_behind in Hl. destruct (terminal _) eqn:Ht; [done|]. injection Hl as <-.
      exists snap. split; [done|]. split; [|by rewrite Ht]. exists (id, snap). by rewrite elem_of_map_to_list.
Qed.

(** What comes back of a session: everything the inventory records, in the
    encoding JSON keeps; of the environment only the handoff instructions of a
    private session; a prompt that ran in a process does not run any more. *)
Definition resumed (snap sess : Session) : Prop :=
  ses_ID sess = ses_ID snap ∧ ses_Name sess = json_text (ses_Name snap) ∧ ses_Agent sess = json_text (ses_Agent snap) ∧
  ses_CWD sess = json_text (ses_CWD snap) ∧ ses_OwnerID sess = json_text (ses_OwnerID snap) ∧ ses_private sess = ses_private snap ∧
  ses_CurrentCommand sess = json_text (ses_CurrentCommand snap) ∧ ses_BackendSessionID sess = json_text (ses_BackendSessionID snap) ∧
  t_ns (ses_StartedAt sess) = t_ns (ses_StartedAt snap) ∧ terminal (ses_State sess) = false ∧ session_ok sess ∧
  (ses_Transport snap = TransportExec →
     ses_Transport sess = TransportExec ∧ ses_State sess ≠ StateWorking ∧
     (ses_State snap ≠ StateWorking → state_text (ses_State sess) = json_text (state_text (ses_State snap)))) ∧
  (ses_Transport snap = TransportTmux →
     ses_Transport sess = TransportTmux ∧ ses_TmuxSessionName sess = json_text (ses_TmuxSessionName snap) ∧
     ses_TmuxTarget sess = json_text (ses_TmuxTarget snap) ∧ state_text (ses_State sess) = json_text (state_text (ses_State snap))) ∧
  (∀ k v, ses_Env sess !! k = Some v → k = handoff_env ∧ ses_private snap = true ∧ v = json_text (env_lookup handoff_env snap)) ∧
  (ses_private snap = true → env_lookup handoff_env sess = json_text (env_lookup handoff_env snap)).
Lemma json_state_text st : match st with StateOther _ => True | _ => json_text (state_text st) = state_text st end.
Proof. by destruct st; vm_compute. Qed.
Lemma recorded_state snap : state_text (ps_State (json_persisted (persist_record snap))) = json_text (state_text (ses_State snap)).
Proof. cbn -[json_text]. pose proof (json_state_text (ses_State snap)). by destruct (ses_State snap). Qed.
Lemma recorded_terminal snap : terminal (ps_State (json_persisted (persist_record snap))) = terminal (ses_State snap).
Proof. cbn -[json_text]. by destruct (ses_State snap). Qed.
Lemma recorded_working snap : ps_State (json_persisted (persist_record snap)) = StateWorking ↔ ses_State snap = StateWorking.
Proof. cbn -[json_text]. by destruct (ses_State snap). Qed.
Lemma restored_env rec transport now :
  ses_Env (restored_session rec transport now) =
  if ps_Private rec && negb (String.eqb (ps_HandoffInstructions rec) "") then {[handoff_env := ps_HandoffInstructions rec]} else ∅.
Proof. unfold restored_session. cbv zeta. by destruct (ps_Private rec), (String.eqb _ _). Qed.
Lemma resumed_env snap transport now :
  let env := ses_Env (restored_session (json_persisted (persist_record snap)) transport now) in
  (∀ k v, env !! k = Some v → k = handoff_env ∧ ses_private snap = true ∧ v = json_text (env_lookup handoff_env snap)) ∧
  (ses_private snap = true → default "" (env !! handoff_env) = json_text (env_lookup handoff_env snap)).
Proof.
  cbv zeta. rewrite restored_env. change (ps_Private (json_persisted (persist_record snap))) with (ses_private snap).
  change (ps_HandoffInstructions (json_persisted (persist_record snap))) with (json_text (if ses_private snap then env_lookup handoff_env snap else "")).
  destruct (ses_private snap); cbn [andb]; [|by split].
  destruct (String.eqb_spec (json_text (env_lookup handoff_env snap)) "") as [->|_]; cbn [negb]; [by split|].
  split; [by intros k v [<- <-]%lookup_singleton_Some|]. by rewrite lookup_singleton_eq.
Qed.
Lemma resumed_spec i id snap rec sess :
  entry_ok id snap → left_behind snap = Some rec → restarted i rec = Some sess → resumed snap sess.
Proof.
  intros [Hid Hj] Hl Hr. unfold left_behind in Hl. destruct (terminal (ses_State snap)) eqn:Ht; [done|]. injection Hl as <-.
  unfold restarted in Hr. destruct (profiles !! _) as [prof|]; [|done]. cbv zeta in Hr.
  pose proof (recorded_state snap) as Hst. pose proof (recorded_terminal snap) as Htt. rewrite Ht in Htt. pose proof (recorded_working snap) as Hw.
  assert (ses_Transport snap = TransportExec ∨ ses_Transport snap = TransportTmux →
    restored_transport (json_persisted (persist_record snap)) prof = ses_Transport snap) as Htr.
  { unfold restored_transport. change (ps_Transport (json_persisted (persist_record snap))) with (json_text (ses_Transport snap)).
    by intros [-> | ->]. }
  assert (∀ t now, let b := restored_session (json_persisted (persist_record snap)) t now in
    ses_ID b = ses_ID snap ∧ ses_Name b = json_text (ses_Name snap) ∧ ses_Agent b = json_text (ses_Agent snap) ∧
    ses_CWD b = json_text (ses_CWD snap) ∧ ses_OwnerID b = json_text (ses_OwnerID snap) ∧ ses_private b = ses_private snap ∧ ses_Transport b = t) as Hbase.
  { intros t now. unfold restored_session. cbv zeta. rewrite <- Hid in Hj.
    change (ps_Private (json_persisted (persist_record snap))) with (ses_private snap).
    destruct (ses_private snap), (negb _); cbn -[json_text]; rewrite ?Hj; done. }
  destruct (String.eqb_spec (restored_transport (json_persisted (persist_record snap)) prof) TransportExec) as [Hx|Hx].
  - injection Hr as <-. set (now := ri_clock i _). destruct (Hbase TransportExec now) as (H1 & H2 & H3 & H4 & H5 & H6 & H7).
    pose proof (resumed_env snap TransportExec now) as [He1 He2]. unfold resumed, restored_exec.
    set (b := restored_session _ _ _) in *. cbn -[json_text json_persisted persist_record terminal state_text].
    rewrite H1, H2, H3, H4, H5, H6, H7. split_and!; try done.
    + by case_bool_decide.
    + apply SetState_ok.
    + intros _. split_and!; [done|by case_bool_decide|]. intros Hne. case_bool_decide; [|done]. by apply Hw in H0.
    + intros Heq. rewrite Htr in Hx by (by right). by rewrite Hx in Heq.
  - destruct (ri_pane i _); [|done]. injection Hr as <-. set (now := ri_clock i _). set (t := restored_transport _ _) in *.
    destruct (Hbase t now) as (H1 & H2 & H3 & H4 & H5 & H6 & H7).
    pose proof (resumed_env snap t now) as [He1 He2]. unfold resumed, restored_tmux.
    set (b := restored_session _ _ _) in *. cbn -[json_text json_persisted persist_record terminal state_text].
    rewrite H1, H2, H3, H4, H5, H6, H7. split_and!; try done.
    + apply SetState_ok.
    + intros Heq. by rewrite Htr in Hx by (by left).
    + intros Heq. split_and!; try done. by rewrite Htr, Heq by (by right).
Qed.

(** ** The inventory is replaced at once or not at all *)

Definition holds_files (S : gmap string Session) (F : gmap string (File (list persistedSession))) (s : Sessions) : Prop :=
  ds_sessions s = S ∧ ds_files s = F.
Lemma file_step_holds m S F : hoare (holds_files S F) (file_step m) (λ _, holds_files S F) (λ _, holds_files S F).
Proof. intros s [Hs Hf]. unfold file_step. by destruct (ds_io s) as [|[] rest]. Qed.
Definition written (S : gmap string Session) (F : gmap string (File (list persistedSession))) : gmap string (File (list persistedSession)) :=
  <[persistPath cfg := Regular 384 (Some (json_persisted <$> persisted_records S))]> F.
Definition either_files (S : gmap string Session) (F : gmap string (File (list persistedSession))) (_ : string) (s : Sessions) : Prop :=
  holds_files S F s ∨ holds_files S (written S F) s.
Lemma step_bind m (k : unit → SM unit) S F G Q :
  G = F ∨ G = written S F → hoare (holds_files S G) (k tt) Q (either_files S F) →
  hoare (holds_files S G) (file_step m ≫= k) Q (either_files S F).
Proof.
  intros HG Hk s Hs. pose proof (file_step_holds m S G s Hs) as Hm. unfold mbind, M_bind.
  destruct (file_step m s) as [[[]|e] s1]; [by apply Hk|]. unfold either_files. destruct HG as [-> | ->]; [by left|by right].
Qed.
Lemma persist_checked_holds S F :
  hoare (holds_files S F) (persistSessionsChecked cfg) (λ _, holds_files S (written S F)) (either_files S F).
Proof.
  unfold persistSessionsChecked. apply (hoare_keep_bind _ (λ records, records = persisted_records S)).
  { intros s [Hs Hf]. cbn. split; [done|]. by rewrite Hs. }
  intros records ->. apply hoare_lift_bind; [|by left]. intros _ _.
  do 2 (apply step_bind; [by left|]).
  apply (hoare_bind _ _ _ (λ _, holds_files S F)); [by intros s Hs|]. intros existing.
  apply (hoare_bind _ _ _ (λ _, holds_files S F)).
  { destruct existing as [[]|]; try by intros s Hs. intros s Hs. by left. }
  intros []. do 6 (apply step_bind; [by left|]).
  apply (hoare_bind _ _ _ (λ _, holds_files S (written S F))); [by intros s [Hs Hf]; split; cbn; [|unfold written; rewrite Hf]|].
  intros []. do 3 (apply step_bind; [by right|]).
  intros s Hs. pose proof (file_step_holds "close session inventory directory" S _ s Hs) as Hm.
  destruct (file_step _ s) as [[[]|e] s1]; [done|by right].
Qed.
Lemma restart_blind i h e io F : head io = Some true → restart i h e io F = ∅.
Proof. by destruct io as [|[] io]. Qed.
Lemma restart_written i h e io S F :
  map_Forall entry_ok S → head io ≠ Some true →
  ∀ id, restart i h e io (written S F) !! id = (S !! id ≫= left_behind) ≫= restarted i.
Proof.
  intros Hok Hio id. unfold restart, restoreSessions.
  assert (∃ s1, inventory_found cfg (mkSessions ∅ ∅ ∅ ∅ false NewEventBus h e (written S F) io []) = (Ok (Some (json_persisted <$> persisted_records S)), s1) ∧
    ds_sessions s1 = ∅) as (s0 & Hfound & Hs0).
  { unfold inventory_found, file_step, try, mbind, M_bind, gets, mret, M_ret. cbn [ds_io ds_files]. unfold written.
    destruct io as [|[] io]; [|done|]; cbn [ds_files set_io]; rewrite lookup_insert_eq; by eexists. }
  unfold mbind, M_bind. rewrite Hfound. destruct (records_spec S Hok) as (Hd & Hin & Hid). cbv zeta in *.
  set (l := json_persisted <$> persisted_records S) in *.
  destruct (restore_all_run i l s0 Hd) as [H1 H2]. cbv zeta in *.
  destruct (S !! id) as [snap|] eqn:Hs; cbn [mbind option_bind].
  - destruct (left_behind snap) as [rec|] eqn:Hl; cbn [mbind option_bind].
    + assert (rec ∈ l) as Hrec by (apply Hin; by exists id, snap). pose proof (Hid _ _ _ Hs Hl) as Heq.
      destruct (H1 rec Hrec) as [Hn|Hr]; [|by rewrite <- Heq]. rewrite Hn, H2, Hs0; [done|]. intros rec' Hrec' Heq'.
      apply Hin in Hrec' as (id' & snap' & Hs' & Hl'). rewrite <- (Hid _ _ _ Hs' Hl'), Heq' in Hs'. rewrite Hs in Hs'. injection Hs' as <-.
      rewrite Hl in Hl'. by injection Hl' as <-.
    + rewrite H2, Hs0; [done|]. intros rec' Hrec' Heq'. apply Hin in Hrec' as (id' & snap' & Hs' & Hl').
      rewrite <- (Hid _ _ _ Hs' Hl'), Heq' in Hs'. rewrite Hs in Hs'. injection Hs' as <-. by rewrite Hl in Hl'.
  - rewrite H2, Hs0; [done|]. intros rec' Hrec' Heq'. apply Hin in Hrec' as (id' & snap' & Hs' & Hl').
    rewrite <- (Hid _ _ _ Hs' Hl'), Heq' in Hs'. by rewrite Hs in Hs'.
Qed.
(** C38: whatever the handlers did and whichever file operations fail, a daemon
    that starts after the sessions were written to the inventory, and can read it,
    finds either what the inventory held before, and only when an error was
    reported, or what restoring makes of each session whose state was neither
    exited nor failed; then such a session is there again if its agent is still
    configured and, in a pane, its pane answers, with what was recorded of it, and
    every other one is dropped. A start that cannot read the inventory has no
    session. *)
Theorem sessions_survive_restart ops h e i h' e' io r s' :
  let s := sessions_run ops (started h e) in
  persistSessionsChecked cfg s = (r, s') →
  ds_sessions s' = ds_sessions s ∧
  let after := restart i h' e' io (ds_files s') in
  (head io = Some true → after = ∅) ∧
  (head io ≠ Some true →
     (∀ id, after !! id = (ds_sessions s !! id ≫= left_behind) ≫= restarted i) ∨
     r ≠ Ok tt ∧ after = restart i h' e' io (ds_files s)) ∧
  (∀ id snap rec, ds_sessions s !! id = Some snap → left_behind snap = Some rec →
     match restarted i rec with
     | Some sess => resumed snap sess
     | None => profiles !! ps_Agent rec = None ∨ ri_pane i (ps_TmuxTarget rec) = false
     end).
Proof.
  intros s Hp. destruct (sessions_run_ok ops h e) as [Hok _]. fold s in Hok.
  pose proof (persist_checked_holds (ds_sessions s) (ds_files s) s ltac:(done)) as Hc. rewrite Hp in Hc.
  assert (∀ id snap rec, ds_sessions s !! id = Some snap → left_behind snap = Some rec →
    match restarted i rec with Some sess => resumed snap sess | None => profiles !! ps_Agent rec = None ∨ ri_pane i (ps_TmuxTarget rec) = false end) as Hres.
  { intros id snap rec Hs Hl. destruct (restarted i rec) as [sess|] eqn:Hr; [|by apply restarted_None].
    apply (resumed_spec i id snap rec); [by apply Hok|done..]. }
  assert (ds_sessions s' = ds_sessions s ∧ (ds_files s' = written (ds_sessions s) (ds_files s) ∨ r ≠ Ok tt ∧ ds_files s' = ds_files s)) as [Hs Hf].
  { destruct r as [[]|err]; [by destruct Hc as [Hs Hf]; split; [|left]|].
    destruct Hc as [[Hs Hf]|[Hs Hf]]; (split; [done|]); [by right|by left]. }
  split; [done|]. cbv zeta. split; [apply restart_blind|]. split; [|exact Hres]. intros Hio.
  destruct Hf as [-> |[Hne ->]]; [left; by apply restart_written|by right].
Qed.

(** ** Ending a session *)

(** Nothing but the list of calls and the outcomes of file operations may differ. *)
Definition supervised_same (s s' : Sessions) : Prop :=
  ds_sessions s' = ds_sessions s ∧ ds_monitors s' = ds_monitors s ∧ ds_recorders s' = ds_recorders s ∧ ds_processes s' = ds_processes s ∧
  ds_hooks s' = ds_hooks s ∧ ds_bus s' = ds_bus s ∧ ds_files s' = ds_files s ∧ ds_stopping s' = ds_stopping s.
(** What the best-effort write of the inventory may change. *)
Definition but_files (s s' : Sessions) : Prop :=
  ds_sessions s' = ds_sessions s ∧ ds_monitors s' = ds_monitors s ∧ ds_recorders s' = ds_recorders s ∧ ds_processes s' = ds_processes s ∧
  ds_hooks s' = ds_hooks s ∧ ds_env s' = ds_env s ∧ ds_bus s' = ds_bus s ∧ ds_calls s' = ds_calls s ∧ ds_stopping s' = ds_stopping s.
#[local] Instance but_files_preorder : PreOrder but_files.
Proof. split; unfold but_files; [done|]. intros a b c H1 H2. destruct_and!. split_and!; congruence. Qed.
Lemma but_files_persist : respects but_files (persistSessions cfg).
Proof.
  assert (∀ m, respects but_files (file_step m)) as Hstep by (intros m s; unfold file_step; by destruct (ds_io s) as [|[] rest]).
  assert (∀ f, respects but_files (modify (E := string) (set_files f))) as Hfiles by done.
  unfold persistSessions, best_effort, persistSessionsChecked. respects; first [apply Hstep|apply Hfiles].
Qed.
Lemma persist_run s : ∃ s', persistSessions cfg s = (Ok tt, s') ∧ but_files s s' ∧
  (ds_files s' = ds_files s ∨ ds_files s' = written (ds_sessions s) (ds_files s)).
Proof.
  pose proof (but_files_persist s) as Hb. pose proof (persist_checked_holds (ds_sessions s) (ds_files s) s ltac:(done)) as Hc.
  unfold persistSessions, best_effort, try, mbind, M_bind, mret, M_ret in *. destruct (persistSessionsChecked cfg s) as [[u|err] s']; cbn [snd] in *.
  - exists s'. destruct Hc as [_ Hf]. by split_and!; [| |right].
  - exists s'. split; [done|]. split; [done|]. destruct Hc as [[_ Hf]|[_ Hf]]; auto.
Qed.
Lemma cancel_run id s : ∃ s', cancel_monitor id s = (Ok tt, s') ∧ ds_monitors s' = delete id (ds_monitors s) ∧
  ds_sessions s' = ds_sessions s ∧ ds_recorders s' = ds_recorders s ∧ ds_hooks s' = ds_hooks s ∧ ds_files s' = ds_files s ∧ ds_processes s' = ds_processes s.
Proof.
  unfold cancel_monitor, mbind, M_bind, gets, call, modify, mret, M_ret. destruct (ds_monitors s !! id) as [k|] eqn:Hk; eexists; (split; [done|]); cbn; [done|].
  split_and!; try done. by rewrite delete_id.
Qed.
Lemma stop_recorder_run id s : ∃ s', stop_recorder id s = (Ok tt, s') ∧ ds_recorders s' = delete id (ds_recorders s) ∧
  ds_sessions s' = ds_sessions s ∧ ds_monitors s' = ds_monitors s ∧ ds_hooks s' = ds_hooks s ∧ ds_files s' = ds_files s ∧ ds_processes s' = ds_processes s.
Proof.
  unfold stop_recorder, mbind, M_bind, gets, call, modify, mret, M_ret. destruct (ds_recorders s !! id) as [k|] eqn:Hk; eexists; (split; [done|]); cbn; [done|].
  split_and!; try done. by rewrite delete_id.
Qed.
(** The state with calls added. *)
Definition logged (l : list Call) (s : Sessions) : Sessions :=
  mkSessions (ds_sessions s) (ds_monitors s) (ds_recorders s) (ds_processes s) (ds_stopping s) (ds_bus s) (ds_hooks s) (ds_env s) (ds_files s) (ds_io s) (ds_calls s ++ l).
(** The session is exited and what supervised it is given up; nothing of any
    other session is touched. *)
Definition torn_down (id : string) (now : Time) (s s' : Sessions) : Prop :=
  ds_sessions s' = alter (SetState StateExited now) id (ds_sessions s) ∧
  ds_monitors s' = delete id (ds_monitors s) ∧ ds_recorders s' = delete id (ds_recorders s) ∧
  ds_hooks s' = (ArchiveSessionState id (ds_hooks s)).2 ∧ ds_processes s' = ds_processes s ∧
  (ds_files s' = ds_files s ∨ ds_files s' = written (ds_sessions s') (ds_files s)).
Lemma kill_settled id snap i s : ∃ s', kill_settle cfg id snap i (Ok false) s = (Ok tt, s') ∧ torn_down id (ki_now i) s s'.
Proof.
  unfold kill_settle. cbv zeta.
  destruct (cancel_run id s) as (s4 & Hr4 & Hm4 & Hs4 & Hrec4 & Hh4 & Hf4 & Hp4). unfold mbind at 1, M_bind. rewrite Hr4.
  destruct (stop_recorder_run id s4) as (s5 & Hr5 & Hrec5 & Hs5 & Hm5 & Hh5 & Hf5 & Hp5). unfold mbind at 1, M_bind. rewrite Hr5.
  unfold mbind at 1 2 3 4 5, M_bind, call, modify, run_hooks, on_session, modify. cbv iota beta.
  match goal with |- context [(persistSessions cfg ≫= _) ?x] => set (s6 := x) end.
  assert (ds_sessions s6 = alter (SetState StateExited (ki_now i)) id (ds_sessions s)) as Hs6 by (unfold s6; cbn; by rewrite Hs5, Hs4).
  destruct (persist_run s6) as (s7 & Hr7 & Hb & Hf7). unfold mbind at 1, M_bind. rewrite Hr7.
  destruct Hb as (B1 & B2 & B3 & B4 & B5 & _). unfold emitStateChanged, emitEvent, modify, mbind, M_bind, mret, M_ret.
  eexists. split; [done|]. unfold torn_down. cbn. assert (ds_monitors s6 = ds_monitors s5 ∧ ds_recorders s6 = ds_recorders s5 ∧ ds_processes s6 = ds_processes s5 ∧
    ds_hooks s6 = (ArchiveSessionState id (ds_hooks s5)).2 ∧ ds_files s6 = ds_files s5) as (E1 & E2 & E3 & E4 & E5) by done.
  rewrite B1, B2, B3, B4, B5, Hs6, E1, E2, E3, E4, Hm5, Hm4, Hrec5, Hrec4, Hp5, Hp4, Hh5, Hh4.
  split_and!; try done. by rewrite E5, Hf5, Hf4, Hs6 in Hf7.
Qed.
(** C39: [Kill] of a session in a pane ends the session and its supervision only
    after it has asked tmux to terminate it, has then asked whether the pane that
    the session names is still there, and has been told that it is gone; when tmux
    says anything else, or the session names no pane, it fails and has changed
    nothing, whatever the other handlers do in between. *)
Theorem kill_only_when_gone id graceful i others s r s' snap :
  ds_sessions s !! id = Some snap → ses_Transport snap ≠ TransportExec →
  Kill cfg others id graceful i s = (r, s') →
  let pane := ses_TmuxTarget snap in
  let s1 := others AfterKeys (logged (if graceful : bool then [CallKeys pane "C-c"] else []) s) in
  let s2 := others AfterKill (logged [if String.eqb (ses_TmuxSessionName snap) "" then CallKillPane pane else CallKillSession (ses_TmuxSessionName snap)] s1) in
  let s3 := others AfterProbe (logged [CallProbe pane] s2) in
  match r with
  | Ok _ => pane ≠ "" ∧ ki_probe i pane = Ok false ∧ torn_down id (ki_now i) s3 s'
  | Err _ => pane = "" ∧ s' = s1 ∨ pane ≠ "" ∧ ki_probe i pane ≠ Ok false ∧ s' = s3
  end.
Proof.
  intros Hs Ht. unfold Kill, require_session, GetSession. unfold mbind at 1 2, M_bind, gets. rewrite Hs. unfold mret at 1, M_ret.
  rewrite (proj2 (String.eqb_neq _ _)) by done. cbv zeta. unfold kill_tmux. unfold mbind at 1, M_bind.
  assert (kill_keys snap graceful s = (Ok tt, logged (if graceful then [CallKeys (ses_TmuxTarget snap) "C-c"] else []) s)) as ->.
  { unfold kill_keys, logged. destruct graceful; [done|]. rewrite app_nil_r. by destruct s. }
  unfold mbind at 1, M_bind, modify at 1. set (s1 := others AfterKeys _). unfold mbind at 1, M_bind, kill_ask.
  destruct (String.eqb_spec (ses_TmuxTarget snap) "") as [He|Hne]; [intros [= <- <-]; by left|].
  set (s2 := others AfterKill _). set (s3 := others AfterProbe _).
  assert ((call (kill_call snap) s1).1 = Ok tt ∧ others AfterKill (call (kill_call snap) s1).2 = s2) as [Hu Hs2].
  { split; [done|]. unfold s2, kill_call. by destruct (String.eqb (ses_TmuxSessionName snap) ""). }
  destruct (call (kill_call snap) s1) as [u s1'] eqn:Hcall. cbn [fst snd] in Hu, Hs2. subst u.
  unfold mbind at 1, M_bind, modify at 1. rewrite Hs2. unfold mbind at 1, M_bind. change (kill_probe snap i s2) with (Ok (E := string) (ki_probe i (ses_TmuxTarget snap)), logged [CallProbe (ses_TmuxTarget snap)] s2).
  unfold mbind at 1, M_bind, modify at 1. fold s3.
  destruct (ki_probe i (ses_TmuxTarget snap)) as [[]|e]; [intros [= <- <-]; by right| |intros [= <- <-]; by right].
  destruct (kill_settled id snap i s3) as (s4 & Hr & Htorn). rewrite Hr. by intros [= <- <-].
Qed.

(** ** Creating a session *)

Lemma owned_by_spec name owner private snap :
  owned_by name owner private snap = true ↔
  ses_Name snap = name ∧ ses_OwnerID snap = owner ∧ ses_private snap = private ∧ terminal (ses_State snap) = false.
Proof. unfold owned_by. rewrite !andb_true_iff, !String.eqb_eq, negb_true_iff, eqb_true_iff. tauto. Qed.
Lemma find_owned order name owner private m :
  (∀ l, order l ≡ₚ l) →
  match findNonTerminalByNameOwner order name owner private m with
  | Some snap => owned_by name owner private snap = true ∧ ∃ id, m !! id = Some snap
  | None => ∀ id snap, m !! id = Some snap → owned_by name owner private snap = false
  end.
Proof.
  intros Hperm. unfold findNonTerminalByNameOwner. destruct (List.find _ _) as [snap|] eqn:Hf.
  - apply find_some in Hf as [Hin Ho]. split; [done|]. apply list_elem_of_In in Hin. rewrite Hperm in Hin.
    apply list_elem_of_fmap in Hin as ([id snap'] & -> & Hin). exists id. by apply elem_of_map_to_list.
  - intros id snap Hs. apply (find_none _ _ Hf), list_elem_of_In. rewrite Hperm. apply list_elem_of_fmap.
    exists (id, snap). by rewrite elem_of_map_to_list.
Qed.
(** The identities in the environment of a session are the daemon's. *)
Definition located (id : string) (supplied env : gmap string string) : Prop :=
  env !! "ARCMUX_SESSION_ID" = Some id ∧
  env !! "ARCMUX_PROFILE_SCOPE" = Some (if String.eqb (lc_ProfileName (dc_launch cfg)) "" then "root" else "profile:" +:+ lc_ProfileName (dc_launch cfg)) ∧
  env !! "ARCMUX_DAEMON_SOCKET" = Some (lc_Socket (dc_launch cfg)) ∧
  env !! "ARCMUX_SESSION_STATE_DIR" = Some (lc_SessionStateDir (dc_launch cfg)) ∧
  env !! "ARCMUX_HISTORY_ROOT" = Some (lc_HistoryRoot (dc_launch cfg)) ∧
  ∀ k, k ∉ ["ARCMUX_SESSION_ID"; "ARCMUX_PROFILE_SCOPE"; "ARCMUX_DAEMON_SOCKET"; "ARCMUX_SESSION_STATE_DIR"; "ARCMUX_HISTORY_ROOT"] → env !! k = supplied !! k.
Lemma supervised_located id supplied : located id supplied (supervisedSessionEnvironment (dc_launch cfg) id supplied).1.
Proof.
  unfold located, supervisedSessionEnvironment. cbv zeta. cbn [fst]. split_and!; [by simplify_map_eq..|].
  intros k Hk. rewrite !not_elem_of_cons in Hk. destruct Hk as (H1 & H2 & H3 & H4 & H5 & _). by rewrite !lookup_insert_ne by done.
Qed.
Lemma insert_run id sess s : ∃ s', insert_session cfg id sess s = (Ok tt, s') ∧ ds_sessions s' = <[id := sess]> (ds_sessions s) ∧
  ds_env s' = ds_env s ∧ ds_calls s' = ds_calls s.
Proof.
  unfold insert_session. unfold mbind, M_bind, modify. destruct (persist_run (set_sessions <[id := sess]> s)) as (s' & Hr & Hb & _).
  exists s'. rewrite Hr. split; [done|]. destruct Hb as (H1 & _ & _ & _ & _ & H6 & _ & H8 & _). by rewrite H1, H6, H8.
Qed.
Definition new_session (r : CreateSessionRequest) (id : string) (sess : Session) : Prop :=
  ses_ID sess = id ∧ ses_Agent sess = cr_Agent r ∧ ses_OwnerID sess = cr_OwnerID r ∧ ses_private sess = cr_private r ∧
  ses_AutoClose sess = cr_AutoClose r ∧ terminal (ses_State sess) = false ∧ (cr_Name r ≠ "" → ses_Name sess = cr_Name r) ∧
  located id (cr_Env r) (ses_Env sess).
(** The file the hooks of a session read was written, and no session was added. *)
Definition files_prepared (r : CreateSessionRequest) (prof : AgentProfile) (id : string) (s s' : Sessions) : Prop :=
  let scope := (supervisedSessionEnvironment (dc_launch cfg) id (cr_Env r)).2 in
  ds_sessions s' = ds_sessions s ∧
  (lc_AutoInstall (dc_launch cfg) = true → HookBacked (lp_profile (ap_launch prof)) = true →
   ds_env s' = (WriteSessionEnvFile SessionEnvDir scope id (sessionEnv (dc_launch cfg) scope id (cr_Agent r)) (ds_env s)).2).
(** The pane is made with the agent as its command, in the directory and the
    environment of the session. *)
Definition launch_of (r : CreateSessionRequest) (prof : AgentProfile) (id : string) (sess : Session) (c : Call) : Prop :=
  let scope := (supervisedSessionEnvironment (dc_launch cfg) id (cr_Env r)).2 in
  ∃ window, c = CallSetupPane (ses_TmuxSessionName sess) window (ses_CWD sess) (ses_Env sess)
    (agentStartCommand (dc_launch cfg) (Some (ap_launch prof)) scope id (ap_StartCommand prof)).
Lemma create_exec_run r i c s : ∃ s', create_exec cfg r i c s = (Ok tt, s') ∧
  ds_sessions s' = <[cn_id c := SetState StateIdle (ci_now i) (created_session r c (ci_now i))]> (ds_sessions s).
Proof.
  unfold create_exec. set (sess := SetState _ _ _). destruct (insert_run (cn_id c) sess s) as (s1 & Hr & Hs & _). unfold mbind at 1, M_bind. rewrite Hr.
  unfold emitStateChanged, emitEvent, call, modify, mbind, M_bind, mret, M_ret. cbn. destruct (String.eqb (cr_Prompt r) ""); by eexists.
Qed.
Lemma create_place_run r i c target s : ∃ s', create_place cfg r i c target s = (Ok tt, s') ∧
  ds_sessions s' = <[cn_id c := set_tmux (pane_session r c) target (created_session r c (ci_now i))]> (ds_sessions s) ∧
  ds_calls s' = ds_calls s ++ [CallPipe target; CallLifecycle (cn_id c) (cr_Prompt r)].
Proof.
  unfold create_place. set (sess := set_tmux _ _ _). unfold mbind at 1, M_bind, call at 1, modify at 1.
  match goal with |- context [(insert_session cfg _ _ ≫= _) ?x] => destruct (insert_run (cn_id c) sess x) as (s1 & Hr & Hs & _ & Hc) end.
  unfold mbind, M_bind. rewrite Hr. eexists. split; [done|]. cbn. rewrite Hs, Hc. cbn. by rewrite <- app_assoc.
Qed.
Lemma create_files_run r i c s :
  cn_scope c = (supervisedSessionEnvironment (dc_launch cfg) (cn_id c) (cr_Env r)).2 →
  ∃ s', create_files cfg r i c s = (Ok tt, s') ∧ files_prepared r (cn_prof c) (cn_id c) s s'.
Proof.
  intros Hscope. unfold create_files, files_prepared. rewrite <- Hscope. unfold run_hooks, run_env, call, modify, mbind, M_bind, mret, M_ret.
  destruct (lc_AutoInstall _), (ci_installed i), (HookBacked _); eexists; by split_and!.
Qed.
(** What a creation has settled before it looks at the table. *)
Lemma planned r i c :
  plan_creation cfg profiles r i = Ok c →
  profiles !! cr_Agent r = Some (cn_prof c) ∧ cn_id c = generateSessionID (ci_now i) ∧ (cr_Name r ≠ "" → cn_name c = cr_Name r) ∧
  cn_name c ≠ "" ∧ cn_env c = (supervisedSessionEnvironment (dc_launch cfg) (cn_id c) (cr_Env r)).1 ∧
  cn_scope c = (supervisedSessionEnvironment (dc_launch cfg) (cn_id c) (cr_Env r)).2.
Proof.
  unfold plan_creation. destruct (profiles !! cr_Agent r) as [prof|]; [|done]. cbv zeta.
  destruct (supervisedSessionEnvironment _ _ _) as [env scope] eqn:Henv. intros [= <-]. cbn -[supervisedSessionEnvironment]. rewrite Henv. split_and!; try done.
  - intros Hne. by rewrite (proj2 (String.eqb_neq _ _) Hne).
  - destruct (String.eqb_spec (cr_Name r) "") as [_|Hne]; [|done]. by destruct (cr_Agent r).
Qed.
Lemma created_new r i c sess :
  plan_creation cfg profiles r i = Ok c →
  sess = SetState StateIdle (ci_now i) (created_session r c (ci_now i)) ∨ (∃ name target, sess = set_tmux name target (created_session r c (ci_now i))) →
  new_session r (cn_id c) sess ∧ ses_CWD sess = cn_cwd c ∧ ses_Env sess = cn_env c.
Proof.
  intros (_ & _ & Hname & _ & Henv & _)%planned Hs. pose proof (supervised_located (cn_id c) (cr_Env r)) as Hloc. rewrite <- Henv in Hloc.
  unfold new_session, created_session in *. cbv zeta in *.
  destruct Hs as [-> |(name & target & ->)]; destruct (cr_private r); cbn; split_and!; done.
Qed.
Lemma create_check_run r i c s :
  (∀ l, ci_order i l ≡ₚ l) → cn_name c ≠ "" →
  (∃ id snap, create_check r i c s = (Ok (Some (ses_ID snap)), logged [CallAudit "session.create.idempotent_hit" (ses_ID snap)] s) ∧
     cr_OwnerID r ≠ "" ∧ ds_sessions s !! id = Some snap ∧ owned_by (cn_name c) (cr_OwnerID r) (cr_private r) snap = true) ∨
  create_check r i c s = (Ok None, logged [CallAudit "session.create" (cn_id c)] s) ∧
    (cr_OwnerID r ≠ "" → ∀ k snap, ds_sessions s !! k = Some snap → owned_by (cn_name c) (cr_OwnerID r) (cr_private r) snap = false).
Proof.
  intros Horder Hname. pose proof (find_owned (ci_order i) (cn_name c) (cr_OwnerID r) (cr_private r) (ds_sessions s) Horder) as Hfind.
  unfold create_check. rewrite (proj2 (String.eqb_neq _ _) Hname). cbn [negb andb].
  destruct (String.eqb_spec (cr_OwnerID r) "") as [Ho|Ho]; cbn [negb]; unfold gets, call, modify, mbind, M_bind, mret, M_ret; [by right|].
  destruct (findNonTerminalByNameOwner _ _ _ _ _) as [snap|]; [|by right].
  destruct Hfind as [Hown [id Hid]]. left. by exists id, snap.
Qed.
(** C40: a creation finds, in the table at the moment it looks, a session of its
    owner with its name and privacy whose state is neither exited nor failed, and
    then answers with it and adds nothing; or there is none, and then, whatever the
    other handlers do while it waits, it adds exactly one session, with the owner,
    the privacy and the identities of this daemon, whatever environment the caller
    sent; in a pane the agent is started in exactly that environment, after the
    file of its hooks was written and before the session is added. When the profile
    is unknown or no pane can be made it adds no session. *)
Theorem create_reuses_or_starts ops h e waits r i res s' :
  let s := sessions_run ops (started h e) in
  let others w := sessions_run (waits w) in
  (∀ l, ci_order i l ≡ₚ l) →
  createSessionWithIdempotency cfg profiles others r i s = (res, s') →
  let id := generateSessionID (ci_now i) in
  let s1 := others AfterCheck (logged [CallAudit "session.create" id] s) in
  match res with
  | Ok (found, false) =>
      cr_OwnerID r ≠ "" ∧ s' = logged [CallAudit "session.create.idempotent_hit" found] s ∧
      ∃ snap, ds_sessions s !! found = Some snap ∧ ses_OwnerID snap = cr_OwnerID r ∧ ses_private snap = cr_private r ∧
        (cr_Name r ≠ "" → ses_Name snap = cr_Name r) ∧ terminal (ses_State snap) = false
  | Ok (new, true) =>
      new = id ∧
      (cr_OwnerID r ≠ "" → cr_Name r ≠ "" → ∀ k snap, ds_sessions s !! k = Some snap → owned_by (cr_Name r) (cr_OwnerID r) (cr_private r) snap = false) ∧
      ∃ prof sess, profiles !! cr_Agent r = Some prof ∧ new_session r id sess ∧
        (ap_Transport prof = TransportExec ∧ ds_sessions s' = <[id := sess]> (ds_sessions s1) ∨
         ap_Transport prof ≠ TransportExec ∧ ∃ s2 launch target, files_prepared r prof id s1 s2 ∧ launch_of r prof id sess launch ∧
           ci_pane i = Some target ∧ ses_TmuxTarget sess = target ∧
           let s3 := others AfterPane (logged [launch] (others AfterFiles s2)) in
           ds_sessions s' = <[id := sess]> (ds_sessions s3) ∧ ds_calls s' = ds_calls s3 ++ [CallPipe target; CallLifecycle id (cr_Prompt r)])
  | Err _ =>
      profiles !! cr_Agent r = None ∧ s' = s ∨
      ∃ prof s2 launch, profiles !! cr_Agent r = Some prof ∧ files_prepared r prof id s1 s2 ∧ ci_pane i = None ∧ s' = logged [launch] (others AfterFiles s2)
  end.
Proof.
  intros s others Horder. destruct (sessions_run_ok ops h e) as [Hok _]. fold s in Hok. cbv zeta. unfold createSessionWithIdempotency.
  destruct (plan_creation cfg profiles r i) as [c|err] eqn:Hplan; cycle 1.
  { intros [= <- <-]. left. split; [|done]. unfold plan_creation in Hplan. destruct (profiles !! _); [|done]. cbv zeta in Hplan. by destruct (supervisedSessionEnvironment _ _ _). }
  pose proof (planned r i c Hplan) as (Hprof & Hid & Hname & Hne & Henv & Hscope). rewrite <- Hid.
  unfold mbind at 1, M_bind, lift. unfold mbind at 1, M_bind.
  destruct (create_check_run r i c s Horder Hne) as [(k & snap & -> & Ho & Hk & (H1 & H2 & H3 & H4)%owned_by_spec)|[-> Hnone]].
  { intros [= <- <-]. destruct (Hok _ _ Hk) as [Hkid _]. rewrite Hkid. split; [done|]. split; [done|]. exists snap. split_and!; try done.
    intros Hn. by rewrite H1, Hname. }
  set (s1 := others AfterCheck _). unfold mbind at 1, M_bind, modify at 1. fold s1.
  assert (∀ k snap, cr_OwnerID r ≠ "" → cr_Name r ≠ "" → ds_sessions s !! k = Some snap → owned_by (cr_Name r) (cr_OwnerID r) (cr_private r) snap = false) as Hfree.
  { intros k snap Ho Hn Hk. rewrite <- (Hname Hn). by apply (Hnone Ho k). }
  destruct (String.eqb_spec (ap_Transport (cn_prof c)) TransportExec) as [Hx|Hx].
  - destruct (create_exec_run r i c s1) as (s2 & Hr & Hs2). unfold mbind, M_bind. rewrite Hr. intros [= <- <-].
    split; [done|]. split; [by intros Ho Hn k snap; apply Hfree|]. eexists _, _. split; [done|]. split; [apply (created_new r i c _ Hplan); by left|]. by left.
  - destruct (create_files_run r i c s1 Hscope) as (s2 & Hr2 & Hprep). unfold mbind at 1 2, M_bind. rewrite Hr2.
    unfold mbind at 1, M_bind, modify at 1. unfold mbind at 1, M_bind, create_launch, mbind at 1, M_bind, call at 1, modify at 1.
    destruct (ci_pane i) as [target|] eqn:Hpane; [|intros [= <- <-]; right; by exists (cn_prof c), s2, (setup_call cfg r c)].
    unfold mret at 1, M_ret. unfold mbind at 1, M_bind, modify at 1.
    match goal with |- context [create_place cfg r i c target ?x] => destruct (create_place_run r i c target x) as (s4 & Hr4 & Hs4 & Hc4) end.
    rewrite Hr4. intros [= <- <-]. split; [done|]. split; [by intros Ho Hn k snap; apply Hfree|].
    set (sess := set_tmux (pane_session r c) target (created_session r c (ci_now i))) in *.
    destruct (created_new r i c sess Hplan) as (Hnew & Hcwd & Hse); [right; by eexists _, _|].
    exists (cn_prof c), sess. split; [done|]. split; [done|]. right. split; [done|].
    exists s2, (setup_call cfg r c), target. split; [done|]. split; [|by split_and!].
    unfold launch_of. rewrite <- Hscope, Hcwd, Hse. by eexists.
Qed.
End Facts.

(** ** What the subscribers of the bus read *)

(** A subscriber reads from its channel, also after it was closed. *)
Definition bus_receive (id : Z) (b : EventBus) : option Event * EventBus :=
  match eb_subs b !! id, eb_ended b !! id with
  | Some sub, _ =>
      match try_recv (sub_ch sub) with
      | Some (e, ch) => (Some e, mkBus (<[id := mkSubscription ch (sub_sessionID sub)]> (eb_subs b)) (eb_nextID b) (eb_closed b) (eb_ended b))
      | None => (None, b)
      end
  | None, Some ch =>
      match try_recv ch with
      | Some (e, ch) => (Some e, mkBus (eb_subs b) (eb_nextID b) (eb_closed b) (<[id := ch]> (eb_ended b)))
      | None => (None, b)
      end
  | None, None => (None, b)
  end.
Inductive BusOp := BusSubscribe (sid : string) | BusUnsubscribe (id : Z) | BusPublish (e : Event) | BusClose | BusReceive (id : Z).
(** Of a subscription: what was published to it while it was open, what was read,
    and whether 64 events were unread when one more came. *)
Record Reader := mkReader { rd_sid : string; rd_sent : list Event; rd_got : list Event; rd_overrun : bool }.
Definition seen_publish (e : Event) (b : EventBus) (id : Z) (rd : Reader) : option Reader :=
  Some (match eb_subs b !! id with
        | Some sub => if negb (eb_closed b) && concerns (rd_sid rd) e
                      then mkReader (rd_sid rd) (rd_sent rd ++ [e]) (rd_got rd) (rd_overrun rd || bool_decide (64 ≤ length (ch_buf (sub_ch sub)))%nat) else rd
        | None => rd
        end).
Definition bus_op (o : BusOp) (w : EventBus * gmap Z Reader) : EventBus * gmap Z Reader :=
  let '(b, readers) := w in
  match o with
  | BusSubscribe sid => let '(id, b') := Subscribe sid b in (b', <[id := mkReader sid [] [] false]> readers)
  | BusUnsubscribe id => (Unsubscribe id b, readers)
  | BusPublish e => (Publish e b, map_imap (seen_publish e b) readers)
  | BusClose => (Close b, readers)
  | BusReceive id =>
      let '(o, b') := bus_receive id b in
      (b', match o with Some e => alter (λ rd, mkReader (rd_sid rd) (rd_sent rd) (rd_got rd ++ [e]) (rd_overrun rd)) id readers | None => readers end)
  end.
Definition bus_run (ops : list BusOp) : EventBus * gmap Z Reader := foldl (λ w o, bus_op o w) (NewEventBus, ∅) ops.

Definition channel_of (b : EventBus) (id : Z) : option (Chan Event) :=
  match eb_subs b !! id with Some sub => Some (sub_ch sub) | None => eb_ended b !! id end.
Definition reads_ok (ch : Chan Event) (rd : Reader) : Prop :=
  ch_cap ch = 64%nat ∧ (length (ch_buf ch) ≤ 64)%nat ∧ rd_got rd ++ ch_buf ch `sublist_of` rd_sent rd ∧
  (rd_overrun rd = false → rd_got rd ++ ch_buf ch = rd_sent rd) ∧ Forall (λ e, concerns (rd_sid rd) e = true) (rd_sent rd).
Definition bus_ok (n : Z) (w : EventBus * gmap Z Reader) : Prop :=
  eb_nextID w.1 ≤ n ∧ (∀ id, is_Some (channel_of w.1 id) → 0 ≤ id < eb_nextID w.1) ∧ 0 ≤ eb_nextID w.1 ∧
  (∀ id sub, eb_subs w.1 !! id = Some sub → ∃ rd, w.2 !! id = Some rd ∧ rd_sid rd = sub_sessionID sub) ∧
  (∀ id rd, w.2 !! id = Some rd → ∃ ch, channel_of w.1 id = Some ch ∧ reads_ok ch rd).

Lemma reads_send ch rd e :
  reads_ok ch rd → concerns (rd_sid rd) e = true →
  reads_ok (default ch (try_send ch e)) (mkReader (rd_sid rd) (rd_sent rd ++ [e]) (rd_got rd) (rd_overrun rd || bool_decide (64 ≤ length (ch_buf ch))%nat)).
Proof.
  intros (Hc & Hl & Hs & Heq & Hf) He. destruct (try_send ch e) as [ch'|] eqn:Ht.
  - apply try_send_Some in Ht as [Hlt ->]. cbn. rewrite Hc in Hlt. unfold reads_ok. cbn. rewrite length_app. cbn.
    rewrite bool_decide_false by lia. rewrite orb_false_r, app_assoc. split_and!; [done|lia| | |].
    + by apply sublist_app.
    + intros Ho. by rewrite Heq.
    + apply Forall_app. by split; [|constructor].
  - apply try_send_None in Ht. rewrite Hc in Ht. unfold reads_ok. cbn. rewrite bool_decide_true by done. rewrite orb_true_r.
    split_and!; [done|lia|by apply sublist_inserts_r|done|]. apply Forall_app. by split; [|constructor].
Qed.
Lemma reads_recv ch rd e ch' :
  reads_ok ch rd → try_recv ch = Some (e, ch') → reads_ok ch' (mkReader (rd_sid rd) (rd_sent rd) (rd_got rd ++ [e]) (rd_overrun rd)).
Proof.
  intros (Hc & Hl & Hs & Heq & Hf) Hr. unfold try_recv in Hr. destruct (ch_buf ch) as [|x l] eqn:Hb; [done|]. injection Hr as <- <-.
  unfold reads_ok. cbn in *. rewrite <- app_assoc. by split_and!; [|lia|..].
Qed.
Lemma bus_ok_same b b' rs n :
  bus_ok n (b, rs) → (∀ k, channel_of b' k = channel_of b k) → (∀ k sub, eb_subs b' !! k = Some sub → eb_subs b !! k = Some sub) →
  eb_nextID b' = eb_nextID b → bus_ok (n + 1) (b', rs).
Proof.
  unfold bus_ok. cbn [fst snd]. intros (Hnext & Hids & Hpos & Hsubs & Hreads) Hch Hsub ->.
  split_and!; [lia|intros k; rewrite Hch; apply Hids|lia|intros k sub Hk; by apply Hsubs, Hsub|intros k rd; rewrite Hch; apply Hreads].
Qed.
Lemma bus_ok_read b b' rs n id e ch ch' :
  bus_ok n (b, rs) → channel_of b id = Some ch → try_recv ch = Some (e, ch') →
  (∀ k, k ≠ id → channel_of b' k = channel_of b k) → channel_of b' id = Some ch' →
  (∀ k sub, eb_subs b' !! k = Some sub → ∃ sub0, eb_subs b !! k = Some sub0 ∧ sub_sessionID sub0 = sub_sessionID sub) →
  eb_nextID b' = eb_nextID b →
  bus_ok (n + 1) (b', alter (λ rd, mkReader (rd_sid rd) (rd_sent rd) (rd_got rd ++ [e]) (rd_overrun rd)) id rs).
Proof.
  unfold bus_ok. cbn [fst snd]. intros (Hnext & Hids & Hpos & Hsubs & Hreads) Hc Hrecv Hch Hnew Hsub ->. split_and!; [lia| |lia| |].
  - intros k Hk. apply Hids. destruct (decide (k = id)) as [->|Hne]; [by rewrite Hc|by rewrite <- Hch].
  - intros k sub' Hk. destruct (Hsub k sub' Hk) as (sub0 & Hs0 & Heq). destruct (Hsubs k sub0 Hs0) as (rd & Hr & Hsid).
    destruct (decide (k = id)) as [->|Hne]; [rewrite lookup_alter_eq, Hr|rewrite lookup_alter_ne by done]; eexists; (split; [done|]); cbn; by rewrite Hsid.
  - intros k rd Hr. destruct (decide (k = id)) as [->|Hne]; [|rewrite Hch by done; apply Hreads; by rewrite lookup_alter_ne in Hr].
    rewrite lookup_alter_eq in Hr. destruct (rs !! id) as [rd0|] eqn:Hr0; [|done]. injection Hr as <-.
    destruct (Hreads id rd0 Hr0) as (ch0 & Hc0 & Hok). assert (ch0 = ch) as -> by congruence. exists ch'. split; [done|]. by apply (reads_recv ch).
Qed.
Lemma bus_ok_subscribe b rs n sid : 0 ≤ n < 9223372036854775807 → bus_ok n (b, rs) → bus_ok (n + 1) (bus_op (BusSubscribe sid) (b, rs)).
Proof.
  intros Hn. unfold bus_ok. cbn [fst snd]. intros (Hnext & Hids & Hpos & Hsubs & Hreads). cbn [bus_op].
  unfold Subscribe. cbn [fst snd eb_nextID]. rewrite s64_id by lia. set (b' := mkBus _ _ _ _).
  assert (∀ id, id ≠ eb_nextID b → channel_of b' id = channel_of b id) as Hch by (intros id Hne; unfold channel_of; cbn; by rewrite lookup_insert_ne).
  assert (channel_of b' (eb_nextID b) = Some (mkChan 64 [])) as Hnew by (unfold channel_of; cbn; by rewrite lookup_insert_eq).
  split_and!; [lia| |lia| |].
  + intros id Hi. destruct (decide (id = eb_nextID b)) as [->|Hne]; [lia|]. rewrite Hch in Hi by done. specialize (Hids id Hi). lia.
  + intros id sub Hs. cbn in Hs. destruct (decide (id = eb_nextID b)) as [->|Hne].
    * rewrite lookup_insert_eq in Hs. injection Hs as <-. rewrite lookup_insert_eq. by eexists.
    * rewrite lookup_insert_ne in Hs by done. rewrite lookup_insert_ne by done. by apply Hsubs.
  + intros id rd Hr. destruct (decide (id = eb_nextID b)) as [->|Hne].
    * rewrite lookup_insert_eq in Hr. injection Hr as <-. eexists. split; [exact Hnew|]. unfold reads_ok. cbn. split_and!; [done|lia|done..].
    * rewrite lookup_insert_ne in Hr by done. rewrite Hch by done. by apply Hreads.
Qed.
Lemma bus_ok_publish b rs n e : bus_ok n (b, rs) → bus_ok (n + 1) (bus_op (BusPublish e) (b, rs)).
Proof.
  unfold bus_ok. cbn [fst snd]. intros (Hnext & Hids & Hpos & Hsubs & Hreads). cbn [bus_op].
  unfold Publish. destruct (eb_closed b) eqn:Hc.
  + cbn [fst snd]. split_and!; [lia|exact Hids|lia| |].
    * intros k sub Hk. destruct (Hsubs k sub Hk) as (rd & Hr & Hsid). exists rd. split; [|done]. rewrite map_lookup_imap, Hr. cbn.
      unfold seen_publish. rewrite Hk, Hc. done.
    * intros k rd Hr. rewrite map_lookup_imap in Hr. destruct (rs !! k) as [rd0|] eqn:Hr0; [|done]. cbn in Hr. unfold seen_publish in Hr.
      rewrite Hc in Hr. destruct (Hreads k rd0 Hr0) as (ch & Hch & Hok). exists ch. split; [done|].
      destruct (eb_subs b !! k); cbn in Hr; by injection Hr as <-.
  + cbn [fst snd eb_nextID]. set (b' := mkBus _ _ _ _).
    assert (∀ k, eb_subs b' !! k = deliver e <$> eb_subs b !! k) as Hsub' by (intros k; cbn; by rewrite lookup_fmap).
    split_and!; [lia| |lia| |].
    * intros k. unfold channel_of. rewrite Hsub'. intros Hk. apply Hids. unfold channel_of. by destruct (eb_subs b !! k).
    * intros k sub Hk. rewrite Hsub' in Hk. destruct (eb_subs b !! k) as [sub0|] eqn:Hs0; [|done]. injection Hk as <-.
      destruct (Hsubs k sub0 Hs0) as (rd & Hr & Hsid). rewrite map_lookup_imap, Hr. cbn. unfold seen_publish. rewrite Hs0, Hc. eexists. split; [done|].
      assert (sub_sessionID (deliver e sub0) = sub_sessionID sub0) as -> by (unfold deliver; destruct (negb _); [done|]; by destruct (try_send _ _)).
      cbn [negb andb]. by destruct (concerns (rd_sid rd) e).
    * intros k rd Hr. rewrite map_lookup_imap in Hr. destruct (rs !! k) as [rd0|] eqn:Hr0; [|done]. cbn in Hr. unfold seen_publish in Hr.
      destruct (Hreads k rd0 Hr0) as (ch & Hch & Hok). unfold channel_of in Hch |- *. rewrite Hsub'.
      destruct (eb_subs b !! k) as [sub|] eqn:Hs; cbn [fmap option_fmap option_map].
      -- destruct (Hsubs k sub Hs) as (rd1 & Hr1 & Hsid). assert (rd1 = rd0) as -> by congruence. injection Hch as <-.
         rewrite Hc in Hr. cbn [negb andb] in Hr. unfold deliver. rewrite <- Hsid. destruct (concerns (rd_sid rd0) e) eqn:He; cbn [negb].
         ++ injection Hr as <-. pose proof (reads_send _ _ e Hok He) as Hnew. destruct (try_send (sub_ch sub) e); by eexists.
         ++ injection Hr as <-. by eexists.
      -- injection Hr as <-. by exists ch.
Qed.
Lemma bus_op_ok n o w : 0 ≤ n < 9223372036854775807 → bus_ok n w → bus_ok (n + 1) (bus_op o w).
Proof.
  intros Hn Hw. destruct w as [b rs]. destruct o as [sid|id|e| |id]; [by apply bus_ok_subscribe| |by apply bus_ok_publish| |]; cbn [bus_op].
  - unfold Unsubscribe. destruct (eb_subs b !! id) as [sub|] eqn:Hs; [|by apply (bus_ok_same b)].
    apply (bus_ok_same b); [done| |intros k sub' Hk; cbn in Hk; by apply lookup_delete_Some in Hk as [_ Hk]|done].
    intros k. unfold channel_of. cbn. destruct (decide (k = id)) as [->|Hne]; [by rewrite lookup_delete_eq, lookup_insert_eq, Hs|].
    by rewrite lookup_delete_ne, lookup_insert_ne.
  - apply (bus_ok_same b); [done| |by intros k sub Hk|done].
    intros k. unfold channel_of. cbn. rewrite lookup_empty, lookup_union, lookup_fmap. destruct (eb_subs b !! k); cbn; by destruct (eb_ended b !! k).
  - unfold bus_receive. destruct (eb_subs b !! id) as [sub|] eqn:Hs; [destruct (try_recv (sub_ch sub)) as [[e ch']|] eqn:Hrecv; [|by apply (bus_ok_same b)]|
      destruct (eb_ended b !! id) as [ch|] eqn:He; [destruct (try_recv ch) as [[e ch']|] eqn:Hrecv|]; [|by apply (bus_ok_same b)..]].
    + apply (bus_ok_read b _ _ _ id e (sub_ch sub) ch'); try done; unfold channel_of; cbn; [by rewrite Hs|by intros; rewrite lookup_insert_ne|by rewrite lookup_insert_eq|].
      intros k sub' Hk. destruct (decide (k = id)) as [->|Hne]; [|rewrite lookup_insert_ne in Hk by done; by exists sub'].
      rewrite lookup_insert_eq in Hk. injection Hk as <-. by exists sub.
    + apply (bus_ok_read b _ _ _ id e ch ch'); try done; unfold channel_of; cbn; [by rewrite Hs|by intros; rewrite lookup_insert_ne|by rewrite Hs, lookup_insert_eq|].
      intros k sub' Hk. by exists sub'.
Qed.
(** Under any sequence of subscriptions, publications, reads and closings, a
    subscriber reads events that concern it only, in the order of their
    publication and each once; as long as it never leaves 64 unread it reads all
    that were published while it was subscribed, also after its channel was closed;
    and a closed bus delivers nothing. *)
Theorem bus_reads_in_order ops id rd :
  Z.of_nat (length ops) < 9223372036854775807 → (bus_run ops).2 !! id = Some rd →
  Forall (λ e, concerns (rd_sid rd) e = true) (rd_sent rd) ∧ rd_got rd `sublist_of` rd_sent rd ∧
  (∃ ch, channel_of (bus_run ops).1 id = Some ch ∧ (length (ch_buf ch) ≤ 64)%nat ∧ rd_got rd ++ ch_buf ch `sublist_of` rd_sent rd ∧
     (rd_overrun rd = false → rd_got rd ++ ch_buf ch = rd_sent rd)) ∧
  (∀ e, (bus_op (BusPublish e) (bus_op BusClose (bus_run ops))) = bus_op BusClose (bus_run ops)).
Proof.
  assert (∀ ops n w, 0 ≤ n → n + Z.of_nat (length ops) < 9223372036854775807 → bus_ok n w →
    bus_ok (n + Z.of_nat (length ops)) (foldl (λ w o, bus_op o w) w ops)) as Hrun.
  { clear. induction ops as [|o ops IH]; intros n w Hn Hlen Hw; [by rewrite Z.add_0_r|]. cbn [foldl length] in *.
    replace (n + Z.of_nat (S (length ops))) with ((n + 1) + Z.of_nat (length ops)) by lia. apply IH; [lia..|]. apply bus_op_ok; [lia|done]. }
  intros Hlen Hr. assert (bus_ok 0 (NewEventBus, ∅)) as H0.
  { unfold bus_ok. cbn. split_and!; [done| |done|done|done]. intros k [ch Hk]. unfold channel_of in Hk. cbn in Hk. by rewrite !lookup_empty in Hk. }
  pose proof (Hrun ops 0 _ ltac:(lia) ltac:(lia) H0) as (_ & _ & _ & _ & Hreads). fold (bus_run ops) in Hreads.
  destruct (Hreads id rd Hr) as (ch & Hc & _ & Hl & Hs & Heq & Hf). split; [done|]. split.
  { transitivity (rd_got rd ++ ch_buf ch); [by apply sublist_inserts_r|done]. }
  split; [by exists ch|]. intros e. destruct (bus_run ops) as [b rs]. cbn [bus_op]. f_equal.
  apply map_eq. intros k. rewrite map_lookup_imap. by destruct (rs !! k).
Qed.

(** ** The environment of a process *)

(** Every key of the session has its value, whatever the daemon's own environment
    says of it; the other keys are the daemon's, less the dropped ones. *)
Lemma mergedEnv_spec unset base snap entry :
  ses_Env snap ≠ ∅ →
  entry ∈ mergedEnv unset base snap ↔
  ∃ k v, entry = k +:+ "=" +:+ v ∧ (ses_Env snap !! k = Some v ∨ ses_Env snap !! k = None ∧ env_map (kept_env unset base) !! k = Some v).
Proof.
  intros Hne. unfold mergedEnv. rewrite bool_decide_false by done. rewrite list_elem_of_fmap. split.
  - intros ([k v] & -> & Hin). apply elem_of_map_to_list in Hin. exists k, v. split; [done|]. by apply lookup_union_Some_raw in Hin.
  - intros (k & v & -> & Hin). exists (k, v). split; [done|]. apply elem_of_map_to_list. by apply lookup_union_Some_raw.
Qed.

(** ** After the gate is closed *)

Section Gate.
Context `{UnicodeTables} (cfg : DaemonConfig) (profiles : gmap string AgentProfile).
Definition gated (s s' : Sessions) : Prop := ds_stopping s = true → ds_stopping s' = true ∧ ds_processes s' ⊆ ds_processes s.
#[local] Instance gated_preorder : PreOrder gated.
Proof. split; unfold gated; [done|]. intros a b c H1 H2 Ha. destruct (H1 Ha) as [Hb Hp]. destruct (H2 Hb) as [Hc Hq]. split; [done|]. by transitivity (ds_processes b). Qed.
Lemma gated_same f : (∀ s, ds_stopping (f s) = ds_stopping s ∧ ds_processes (f s) = ds_processes s) → respects gated (modify (E := string) f).
Proof. intros Hf s Hs. cbn. by destruct (Hf s) as [-> ->]. Qed.
Lemma gated_delete id : respects gated (modify (E := string) (set_processes (delete id))).
Proof. intros s Hs. split; [done|]. cbn. apply delete_subseteq. Qed.
Lemma gated_file_step m : respects gated (file_step m).
Proof. intros s Hs. unfold file_step. by destruct (ds_io s) as [|[] rest]. Qed.
Lemma gated_call c : respects gated (call c).
Proof. by apply gated_same. Qed.
Lemma gated_hooks m : respects gated (run_hooks m).
Proof. by apply gated_same. Qed.
Lemma gated_env m : respects gated (run_env m).
Proof. by apply gated_same. Qed.
Lemma gated_emit e : respects gated (emitEvent e).
Proof. by apply gated_same. Qed.
Lemma gated_on id f : respects gated (on_session id f).
Proof. by apply gated_same. Qed.
#[local] Hint Resolve gated_delete gated_file_step gated_call gated_hooks gated_env gated_emit gated_on : go.
#[local] Hint Extern 2 (respects gated (modify _)) => by apply gated_same : go.
Lemma gated_persist : respects gated (persistSessions cfg).
Proof. unfold persistSessions, best_effort, persistSessionsChecked. respects. Qed.
#[local] Hint Resolve gated_persist : go.
Lemma gated_emit_state id st message now : respects gated (emitStateChanged id st message now).
Proof. unfold emitStateChanged. respects. Qed.
#[local] Hint Resolve gated_emit_state : go.
Lemma gated_exec_start run id text pid now : respects gated (exec_start cfg run id text pid now).
Proof.
  unfold exec_start. cbv zeta. do 3 (apply respects_bind; [apply _|eauto with go|intros []]). intros s Hs.
  assert (∀ (k : bool → SM unit) s, (gets ds_stopping ≫= k) s = k (ds_stopping s) s) as Hg by done. by rewrite Hg, Hs.
Qed.
Lemma gated_cancel id : respects gated (cancel_monitor id).
Proof. unfold cancel_monitor. respects. Qed.
#[local] Hint Resolve gated_exec_start gated_cancel : go.
(** Once the daemon is stopping no process is registered any more, whatever the
    handlers that are still running do: what the shutdown waits for only shrinks. *)
Theorem stopping_starts_nothing ops s :
  ds_stopping s = true →
  ds_stopping (sessions_run cfg profiles ops s) = true ∧ ds_processes (sessions_run cfg profiles ops s) ⊆ ds_processes s.
Proof.
  intros Hs. enough (gated s (sessions_run cfg profiles ops s)) as Hg by by apply Hg. clear Hs.
  revert s. induction ops as [|o ops IH]; intros s; [done|]. cbn [sessions_run foldl]. etransitivity; [|apply IH].
  enough (respects gated (sessions_op cfg profiles o)) as Ho by apply Ho. clear.
  destruct o; cbn [sessions_op]; unfold create_stretch, kill_stretch, ignore, restoreSessions, inventory_found, restore_record, create_check, create_exec, create_files,
    create_launch, create_place, session_new_ask, session_close_ask, session_close_forget,
    insert_session, lifecycle_begin, lifecycle_shaken, lifecycle_prompted, sendPrompt_settle, prompt_taken, startMonitor, SetRecording,
    kill_keys, kill_ask, kill_probe, kill_settle, kill_exec_ask, kill_exec_settle, stop_recorder, Stop_sessions, exec_check, buildExecRunConfig, buildCodexExecRun,
    buildClaudeExecRun, buildGrokExecRun, commandWithSnapshotEnv, exec_settle, exec_forget, beginStop, require_session, GetSession; cbv zeta;
    respects.
  - destruct on; respects.
  - by intros s Hs.
Qed.
End Gate.
