(* ===== verification/InboxWitnesses.v ===== *)
(** Concrete inputs of the theorems about the inboxes, the pulser, the drains,
    the environment files and the daemon's sessions, and the runs behind the findings. *)

From S2P Require Import Prelude GoText RuneText MeshTypes GoJson HookState Session Health Bolt Inbox Pulse PulseSupervisor SendInbox SendFacts SessionEnv DaemonSessions.
From stdpp Require Import base gmap strings list.
From Stdlib Require Import ZArith Lia.

Open Scope Z_scope.

(** ** The inboxes *)

Definition w_at (n : Z) : Time := mkTime (unix_epoch + n * 1000000000) true.
Definition w_db : DB SortedBucket := (init (new_db [])).2.
Lemma w_init : init (B := SortedBucket) (new_db []) = (Ok tt, w_db).
Proof. reflexivity. Qed.
Definition w_msg (id body : string) (n : Z) : InboxMsg := mkMsg id "" "peer" 0 body [] (w_at n).
Definition w_ops : list InboxOp :=
  [OpPush (w_at 1) "a" (w_msg "m0" "lost" 1); OpEnsure "a"; OpPush (w_at 5) "a" (w_msg "m1" "late" 5);
   OpPush (w_at 5) "a" (w_msg "m2" "early" 2); OpPeek "a" 0; OpAck "a" "m2"; OpDepth "a"].
Definition w_answer (r : result DBError Answer) : list string :=
  match r with Ok (Messages l) => im_ID <$> l | Ok (Depth n) => [FormatInt n] | Ok Done => ["ok"] | Err _ => ["error"] end.
Lemma inbox_refines_queues_witness :
  (w_answer <$> (inbox_run w_ops w_db).1) = [["error"]; ["ok"]; ["ok"]; ["ok"]; ["m2"; "m1"]; ["ok"]; ["1"]] ∧
  ∃ qs, q_runs w_ops (inbox_run w_ops w_db).1 ∅ qs ∧
    ∀ name, (PeekSessionInbox name 0 (inbox_run w_ops w_db).2).1 = q_named name qs Ok.
Proof.
  split; [vm_compute; reflexivity|].
  apply (inbox_refines_queues [] w_ops w_db _ _ w_init); [apply surjective_pairing|vm_compute; reflexivity].
Defined.

(** ** The pulser *)

Definition w_pulser : Pulser := mkPulser "demo" 30000000000.
Definition w_accept : string → string → option string := λ _ _, None.
Definition w_refuse : string → string → option string := λ _ _, Some "no such pane".
Definition w_pulse : list PulseEvent :=
  [PTick (w_at 0) w_accept; PPane (w_at 1) (mkProjectMeta "pane:1" "" "" (w_at 1)); PTick (w_at 2) w_accept;
   PInbox (OpEnsure "demo"); PInbox (OpPush (w_at 3) "demo" (w_msg "m1" "hello" 3)); PTick (w_at 4) w_refuse;
   PTick (w_at 6) w_accept; PTick (w_at 8) w_accept; PTick (w_at 36) w_accept].
Lemma pulse_wakes_when_due_witness :
  length (pw_sends (pulse_run w_pulser w_pulse (new_pulse w_db)).2) = 3%nat ∧
  ∃ s, pulse_steps w_pulser w_pulse (pulse_run w_pulser w_pulse (new_pulse w_db)).1 (mkSpec ∅ None [] []) s ∧
    pw_sends (pulse_run w_pulser w_pulse (new_pulse w_db)).2 = sp_sends s.
Proof.
  split; [vm_compute; reflexivity|].
  apply (pulse_wakes_when_due [] w_db w_pulser w_pulse _ _ w_init); [apply surjective_pairing|vm_compute; reflexivity].
Defined.

(** ** The supervisor *)

#[export] Instance w_order : MapOrder.
Proof. refine {| range := λ m, map_to_list m |}. done. Defined.
Definition w_scans : list Discovery :=
  [mkDiscovery (Some ["a"; "b"]) (λ s, String.eqb s "a"); mkDiscovery None (λ _, true); mkDiscovery (Some ["b"]) (λ _, true)].
Example supervisor_scans :
  (Supervisor_Run (StateBolt "/data") (mkParsedPulse true 60 10) (mkDiscovery (Some []) (λ _, true)) w_scans).2 =
  [OpenStore "a" "/data/arcmux/a/state.bolt" true; StartPulser "a"; OpenStore "b" "/data/arcmux/b/state.bolt" false;
   CancelPulser "a"; DrainPulser "a"; CloseStore "a"; OpenStore "b" "/data/arcmux/b/state.bolt" true; StartPulser "b";
   CancelPulser "b"; DrainPulser "b"; CloseStore "b"].
Proof. vm_compute. reflexivity. Qed.

(** ** Sends and drains *)

Definition w_session (st : State) : Session := SetState st (w_at 0) (NewSession "s-1" "worker" "codex" "/work" (w_at 0)).
Definition w_sessions : gmap string Session := {["s-1" := w_session StateWorking]}.
Definition w_send (k : nat) (body : string) (n : Z) : list Action :=
  ActSend k (mkSendRequest "worker" body "peer" false) (Some "s-1") (w_at n) (Some [Z.of_nat k; 0; 255]) ::
  replicate 3 (ActSendStep k (w_at n) true).
Definition w_busy : list Action := w_send 0 "one" 100 ++ w_send 1 "two" 101.
Definition w_world (l : list Action) : Daemon SortedBucket := (acts l (start w_sessions w_db)).2.
Definition w_peeked (name : string) (w : Daemon SortedBucket) : list string :=
  match PeekInbox name 0 w with Peeked l => im_Body <$> l | _ => ["?"] end.
Lemma w_busy_ok : Forall action_ok w_busy ∧ NoDup (omap new_id w_busy).
Proof.
  split; [|apply (bool_decide_unpack _); vm_compute; exact I].
  unfold w_busy, w_send. cbn [app replicate]. repeat (apply Forall_cons; split); try exact I; try apply Forall_nil;
    unfold action_ok; repeat (apply Forall_cons; split); try apply Forall_nil; unfold RuneText.is_byte; lia.
Qed.
Lemma queued_messages_kept_witness :
  w_peeked "worker" (w_world w_busy) = ["one"; "two"] ∧
  let q := mkMessage "worker" (NewInboxID (w_at 100) [0; 0; 255]) (json_text "one") in
  (∃ ms m, PeekInbox "worker" 0 (w_world w_busy) = Peeked ms ∧ m ∈ ms ∧ message "worker" m = q) ∨
  (∃ sid, mkTaken sid (ms_body q) (Some ("worker", ms_id q)) ∈ dm_taken (w_world w_busy)) ∨
  (∃ found now, ActAck "worker" (ms_id q) found now ∈ w_busy).
Proof.
  split; [vm_compute; reflexivity|].
  apply (queued_messages_kept [] w_db w_sessions w_busy); [exact w_init|apply w_busy_ok..|vm_compute; reflexivity|].
  apply list_elem_of_In. vm_compute. left. reflexivity.
Defined.
Definition w_rounds : list Round := [mkRound 7 (w_session StateIdle) (w_at 200)].
Lemma drains_in_order_witness :
  tk_body <$> dm_taken (w_world (w_busy ++ (w_rounds ≫= idle_round "s-1"))) = ["one"] ∧
  ∃ ms, PeekInbox "worker" 0 (w_world w_busy) = Peeked ms ∧
    PeekInbox "worker" 0 (acts (w_rounds ≫= idle_round "s-1") (w_world w_busy)).2 = Peeked (drop 1 ms).
Proof.
  split; [vm_compute; reflexivity|].
  destruct (PeekInbox "worker" 0 (w_world w_busy)) as [| |ms|] eqn:Hp;
    [exfalso; apply (f_equal (λ r, match r with Peeked _ => true | _ => false end)) in Hp; vm_compute in Hp; discriminate Hp..| |
     exfalso; apply (f_equal (λ r, match r with Peeked _ => true | _ => false end)) in Hp; vm_compute in Hp; discriminate Hp].
  exists ms. split; [reflexivity|].
  apply (drains_in_order [] w_db w_sessions w_busy w_rounds "s-1" "worker" ms w_init); [apply w_busy_ok..|vm_compute; reflexivity| | |exact Hp|].
  - vm_compute. reflexivity.
  - vm_compute. reflexivity.
  - repeat constructor.
Defined.

(** A message sent while the session comes to idle: the drain finds the inbox
    empty, then the message is queued, and it stays there until the next
    announced transition to idle. *)
Definition w_missed : list Action :=
  [ActSend 0 (mkSendRequest "worker" "one" "peer" false) (Some "s-1") (w_at 100) (Some [0; 0; 255]); ActSendStep 0 (w_at 100) true;
   ActSession "s-1" (Some (w_session StateIdle)); ActEmit 1 "s-1" StateIdle; ActDrainStep 1 (w_at 100) true; ActDrainStep 1 (w_at 100) true;
   ActSendStep 0 (w_at 100) true; ActSendStep 0 (w_at 100) true].
Lemma idle_session_keeps_message :
  (w_peeked "worker" (w_world w_missed), ses_State <$> (dm_sessions (w_world w_missed) !! "s-1"), map_to_list (dm_drains (w_world w_missed)),
   tk_body <$> dm_taken (w_world w_missed)) = (["one"], Some StateIdle, [], []).
Proof. vm_compute. reflexivity. Qed.
(** Two drains of one message: both read the inbox before either acknowledges. *)
Definition w_twice : list Action :=
  w_busy ++ [ActSession "s-1" (Some (w_session StateIdle)); ActEmit 1 "s-1" StateIdle; ActEmit 2 "s-1" StateIdle] ++
  (replicate 2 (ActDrainStep 1 (w_at 200) true)) ++ replicate 5 (ActDrainStep 2 (w_at 200) true) ++ replicate 3 (ActDrainStep 1 (w_at 200) true).
Lemma message_delivered_twice :
  (tk_body <$> dm_taken (w_world w_twice), w_peeked "worker" (w_world w_twice)) = (["one"; "one"], ["two"]).
Proof. vm_compute. reflexivity. Qed.

(** ** The environment of a session *)

Definition w_launch : LaunchConfig := mkLaunch "dev" "/run/d'x.sock" "/tmp/out" "/state" "/hist" true "/bin/arcmux".
Definition w_disk : EnvDisk := mkEnvDisk (<[SessionEnvDir := mkNode NodeDir 511 1000 ""]> ∅) 1000 18 [].
Definition w_env_path : string := "/tmp/arcmux/cHJvZmlsZTpkZXY--s-1.env".
Definition w_written (env : gmap string string) : EnvDisk := (WriteSessionEnvFile SessionEnvDir "profile:dev" "s-1" env w_disk).2.
Definition w_shell (d : EnvDisk) : option (list (list string)) :=
  match cmdHookEnv ["profile:dev"; "s-1"] d with Ok out => sh_parse out | Err _ => None end.
Lemma env_file_roundtrip_witness :
  WriteSessionEnvFile SessionEnvDir "profile:dev" "s-1" (sessionEnv w_launch "profile:dev" "s-1" "claude") w_disk =
    (Ok w_env_path, w_written (sessionEnv w_launch "profile:dev" "s-1" "claude")) ∧
  ∃ out, cmdHookEnv ["profile:dev"; "s-1"] (calls_succeed (w_written (sessionEnv w_launch "profile:dev" "s-1" "claude"))) = Ok out ∧
    sh_parse out = Some
      [["export"; "ARCMUX_BIN=/bin/arcmux"]; ["export"; "ARCMUX_DAEMON_SOCKET=/run/d'x.sock"]; ["export"; "ARCMUX_HISTORY_ROOT=/hist"];
       ["export"; "ARCMUX_HOOK_AGENT=claude"]; ["export"; "ARCMUX_HOOK_OUTPUT_DIR=/tmp/out"]; ["export"; "ARCMUX_PROFILE_SCOPE=profile:dev"];
       ["export"; "ARCMUX_SESSION_ID=s-1"]; ["export"; "ARCMUX_SESSION_STATE_DIR=/state"]].
Proof.
  assert (WriteSessionEnvFile SessionEnvDir "profile:dev" "s-1" (sessionEnv w_launch "profile:dev" "s-1" "claude") w_disk =
    (Ok w_env_path, w_written (sessionEnv w_launch "profile:dev" "s-1" "claude"))) as Hw by (vm_compute; reflexivity).
  split; [exact Hw|]. destruct (env_file_roundtrip _ _ _ _ _ _ Hw) as [(out & Ho & Hp) _]. exists out. split; [exact Ho|].
  rewrite Hp. vm_compute. reflexivity.
Defined.
(** A hostile value is a word of the shell, not a command. *)
Definition w_hostile : string := "x'; rm -rf ~; '$(id)`".
Definition w_hostile_disk : EnvDisk := w_written {["ARCMUX_ROLE_FILE" := w_hostile]}.
Lemma hook_env_output_safe_witness :
  ∃ out, cmdHookEnv ["profile:dev"; "s-1"] w_hostile_disk = Ok out ∧ out ≠ "" ∧
    sh_parse out = Some [["export"; "ARCMUX_ROLE_FILE=" +:+ w_hostile]] ∧
    ∃ vars, sh_parse out = Some (export_command <$> vars) ∧ Forall (λ kv, key_allowed kv.1 = true) vars.
Proof.
  destruct (cmdHookEnv ["profile:dev"; "s-1"] w_hostile_disk) as [out|e] eqn:Ho; [|exfalso; vm_compute in Ho; discriminate Ho].
  exists out. split; [reflexivity|]. pose proof (hook_env_output_safe _ _ _ Ho) as [Hvars _].
  vm_compute in Ho. injection Ho as <-. split; [discriminate|]. split; [vm_compute; reflexivity|]. exact Hvars.
Defined.
(** The carriage returns at the end of a value are lost. *)
Definition w_returns : string := "1" +:+ String (byte 13) EmptyString.
Lemma carriage_return_lost : w_shell (w_written {["ARCMUX_X" := w_returns]}) = Some [["export"; "ARCMUX_X=1"]].
Proof. vm_compute. reflexivity. Qed.
(** Without hooks the start command still gets an [exec] in front. *)
Lemma start_command_changed : agentStartCommand w_launch None "profile:dev" "s-1" "cd /x && run" = "exec cd /x && run".
Proof. vm_compute. reflexivity. Qed.

(** ** The sessions of a daemon *)

#[local] Instance w_tables : UnicodeTables := {| lower_beyond := λ r, r |}.
Definition w_dc : DaemonConfig := mkDaemonConfig w_launch "/data/dev/state.bolt" "" "/data/log".
Definition w_profile (hook transport driver start : string) : AgentProfile :=
  mkAgentProfile (mkLaunchProfile (Health.mkProfile "" [] 0 "" 0 hook) "" "/home/u/.claude") transport driver start.
Definition w_profiles : gmap string AgentProfile :=
  list_to_map [("claude", w_profile "claude_hooks" "tmux" "" "claude"); ("codex-exec", w_profile "" "exec" "codex_exec_json" "")].
Definition w_request (agent name : string) : CreateSessionRequest :=
  mkCreate agent "/work" "" name "" "" {["ARCMUX_SESSION_ID" := "forged"; "TOKEN" := "t"]} true "team" false.
Definition w_input (n : Z) : CreateInput := mkCreateInput (Some "/home/u") (w_at n) true (Some "%7") (λ l, l).
(** The stretches of a creation, one after the other. *)
Definition w_pane_create (i : CreateInput) : list SessionsOp :=
  (λ k, OpCreate k (w_request "claude" "one") i) <$> [CreateCheck; CreateFiles; CreateLaunch; CreatePlace "%7"].
Definition w_exec_create (i : CreateInput) : list SessionsOp := (λ k, OpCreate k (w_request "codex-exec" "two") i) <$> [CreateCheck; CreateExec].
Definition w_two : list SessionsOp :=
  w_pane_create (w_input 1) ++ w_exec_create (w_input 2) ++ [OpBegin "s-1000000000" (w_at 3); OpShaken "s-1000000000" None "" (w_at 4)].
Definition w_hooks : HookDir := mkHookDir ∅ ∅ [].
Definition w_state (ops : list SessionsOp) : Sessions := sessions_run w_dc w_profiles ops (started w_hooks w_disk).
Definition w_restore : RestoreInput := mkRestore (λ t, String.eqb t "%7") (λ _, false) (λ _, w_at 9).
Definition w_shown (m : gmap string Session) : list (string * State * bool * list (string * string)) :=
  (λ s, (ses_ID s, ses_State s, ses_AutoClose s, filter (λ kv, kv.1 ∈ ["ARCMUX_SESSION_ID"; "TOKEN"]) (map_to_list (ses_Env s)))) <$> (map_to_list m).*2.
Example two_sessions : w_shown (ds_sessions (w_state w_two)) =
  [("s-1000000000", StateIdle, true, [("ARCMUX_SESSION_ID", "s-1000000000"); ("TOKEN", "t")]);
   ("s-2000000000", StateIdle, true, [("ARCMUX_SESSION_ID", "s-2000000000"); ("TOKEN", "t")])].
Proof. vm_compute. reflexivity. Qed.
Definition w_persisted : Sessions := (persistSessionsChecked w_dc (w_state w_two)).2.
Lemma sessions_survive_restart_witness :
  persistSessionsChecked w_dc (w_state w_two) = (Ok tt, w_persisted) ∧
  (ses_State <$> restart w_dc w_profiles w_restore w_hooks w_disk [] (ds_files w_persisted) !! "s-1000000000") = Some StateIdle ∧
  ∀ id, restart w_dc w_profiles w_restore w_hooks w_disk [] (ds_files w_persisted) !! id =
    (ds_sessions (w_state w_two) !! id ≫= left_behind) ≫= restarted w_profiles w_restore.
Proof.
  assert (persistSessionsChecked w_dc (w_state w_two) = (Ok tt, w_persisted)) as Hp.
  { unfold w_persisted. destruct (persistSessionsChecked w_dc (w_state w_two)) as [r s'] eqn:He.
    apply (f_equal fst) in He. vm_compute in He. destruct r as [[]|e]; [reflexivity|discriminate He]. }
  split; [exact Hp|]. split; [vm_compute; reflexivity|].
  destruct (sessions_survive_restart w_dc w_profiles w_two w_hooks w_disk w_restore w_hooks w_disk [] _ _ Hp) as (_ & _ & Hb & _).
  destruct Hb as [Hb|[Hne _]]; [discriminate|exact Hb|exfalso; apply Hne; reflexivity].
Defined.
(** A session whose pane does not answer is dropped, and a start that cannot read
    the inventory has none at all; the next write then replaces what it could not
    read. *)
Definition w_gone : RestoreInput := mkRestore (λ _, false) (λ _, false) (λ _, w_at 9).
Lemma pane_gone_dropped : w_shown (restart w_dc w_profiles w_gone w_hooks w_disk [] (ds_files w_persisted)) = [("s-2000000000", StateIdle, false, [])].
Proof. vm_compute. reflexivity. Qed.
Lemma unread_inventory_lost :
  (let s := mkSessions ∅ ∅ ∅ ∅ false NewEventBus w_hooks w_disk (ds_files w_persisted) [true] [] in
   let s := (restoreSessions w_dc w_profiles w_restore s).2 in
   (map_to_list (ds_sessions s), w_shown (restart w_dc w_profiles w_restore w_hooks w_disk [] (ds_files (persistSessions w_dc s).2)))) = ([], []).
Proof. vm_compute. reflexivity. Qed.
(** What a restart forgets of a session that is run as processes: that it ends
    after one prompt, and its identity in the environment. *)
Lemma restart_forgets :
  w_shown (restart w_dc w_profiles w_restore w_hooks w_disk [] (ds_files w_persisted)) =
  [("s-1000000000", StateIdle, false, []); ("s-2000000000", StateIdle, false, [])].
Proof. vm_compute. reflexivity. Qed.

Definition w_kill (answer : result string bool) : KillInput :=
  mkKillInput None (λ target, if String.eqb target "%7" then answer else Ok false) (w_at 5).
Definition w_alone {W} (_ : W) (s : Sessions) : Sessions := s.
Lemma w_first : ∃ snap, ds_sessions (w_state w_two) !! "s-1000000000" = Some snap ∧
  ses_Transport snap = "tmux" ∧ ses_TmuxTarget snap = "%7" ∧ ses_TmuxSessionName snap = "team-one".
Proof.
  destruct (ds_sessions (w_state w_two) !! "s-1000000000") as [snap|] eqn:Hs;
    [|exfalso; apply (f_equal (λ o, match o with Some _ => true | None => false end)) in Hs; vm_compute in Hs; discriminate Hs].
  assert ((λ snap, (ses_Transport snap, ses_TmuxTarget snap, ses_TmuxSessionName snap)) <$> ds_sessions (w_state w_two) !! "s-1000000000" =
    Some ("tmux", "%7", "team-one")) as Hq by (vm_compute; reflexivity).
  rewrite Hs in Hq. injection Hq as H1 H2 H3. exists snap. exact (conj eq_refl (conj H1 (conj H2 H3))).
Qed.
Lemma logged_alone a b c s :
  w_alone AfterProbe (logged [c] (w_alone AfterKill (logged [b] (w_alone AfterKeys (logged [a] s))))) = logged [a; b; c] s.
Proof. unfold w_alone, logged. cbn. by rewrite <- !app_assoc. Qed.
Lemma logged_monitors l s : ds_monitors (logged l s) = ds_monitors s.
Proof. done. Qed.
Lemma kill_only_when_gone_witness :
  match Kill w_dc w_alone "s-1000000000" true (w_kill (Ok true)) (w_state w_two) with
  | (Ok _, _) => False
  | (Err _, s') => s' = logged [CallKeys "%7" "C-c"; CallKillSession "team-one"; CallProbe "%7"] (w_state w_two) ∧
      ds_monitors s' = {["s-1000000000" := HealthMonitor]}
  end ∧
  match Kill w_dc w_alone "s-1000000000" true (w_kill (Ok false)) (w_state w_two) with
  | (Ok _, s') => ses_State <$> ds_sessions s' !! "s-1000000000" = Some StateExited ∧ ds_monitors s' = ∅
  | (Err _, _) => False
  end.
Proof.
  destruct w_first as (snap & Hs & Htr & Htg & Hn).
  assert (ses_Transport snap ≠ TransportExec) as Ht by (rewrite Htr; discriminate).
  split.
  - destruct (Kill w_dc w_alone "s-1000000000" true (w_kill (Ok true)) (w_state w_two)) as [r s'] eqn:Hk.
    pose proof (kill_only_when_gone _ _ _ _ _ _ _ _ _ Hs Ht Hk) as Hspec. cbv zeta in Hspec. rewrite Htg, Hn in Hspec. destruct r as [u|e].
    + destruct Hspec as (_ & Hp & _). discriminate Hp.
    + destruct Hspec as [[He _]|(_ & _ & ->)]; [discriminate He|]. rewrite logged_alone. split; [reflexivity|]. rewrite logged_monitors. vm_compute. reflexivity.
  - destruct (Kill w_dc w_alone "s-1000000000" true (w_kill (Ok false)) (w_state w_two)) as [r s'] eqn:Hk.
    pose proof (kill_only_when_gone _ _ _ _ _ _ _ _ _ Hs Ht Hk) as Hspec. cbv zeta in Hspec. rewrite Htg, Hn in Hspec. destruct r as [u|e].
    + destruct Hspec as (_ & _ & -> & -> & _). split; vm_compute; reflexivity.
    + destruct Hspec as [[He _]|(_ & Hne & _)]; [discriminate He|]. exfalso. apply Hne. reflexivity.
Defined.
(** A prompt sent while the kill waits for its answer makes the session stuck, and
    the kill then ends it all the same. *)
Lemma kill_waits_for_others :
  (let '(r, s') := Kill w_dc (λ w, match w with AfterKill => sessions_run w_dc w_profiles [OpSettle "s-1000000000" "hello" (Some "no such pane") (w_at 6)] | _ => w_alone w end)
     "s-1000000000" false (w_kill (Ok false)) (w_state w_two) in
   (r, ses_State <$> ds_sessions s' !! "s-1000000000")) = (Ok tt, Some StateExited).
Proof. vm_compute. reflexivity. Qed.
(** Closing over HTTP forgets a session whose pane is still there, and leaves its
    monitor. *)
Lemma close_forgets_unconfirmed :
  (let '(r, s') := handleSessionClose w_dc (λ s, s) (λ l, l) "one" (w_state w_two) in
   (r, (map_to_list (ds_sessions s')).*1, (map_to_list (ds_monitors s')).*1, List.filter (λ c, match c with CallKillSession _ | CallProbe _ => true | _ => false end) (ds_calls s'))) =
  (Ok "s-1000000000", ["s-2000000000"], ["s-1000000000"], [CallKillSession "team-one"]).
Proof. vm_compute. reflexivity. Qed.

Lemma create_reuses_or_starts_witness :
  createSessionWithIdempotency w_dc w_profiles w_alone (w_request "claude" "one") (w_input 8) (w_state w_two) =
    (Ok ("s-1000000000", false), logged [CallAudit "session.create.idempotent_hit" "s-1000000000"] (w_state w_two)) ∧
  ∃ s', createSessionWithIdempotency w_dc w_profiles (λ _, sessions_run w_dc w_profiles []) (w_request "claude" "three") (w_input 8) (w_state w_two) =
    (Ok ("s-8000000000", true), s') ∧ is_Some (ds_sessions s' !! "s-8000000000").
Proof.
  split.
  - destruct (createSessionWithIdempotency w_dc w_profiles w_alone (w_request "claude" "one") (w_input 8) (w_state w_two)) as [r s'] eqn:Hc.
    assert (r = Ok ("s-1000000000", false)) as ->.
    { apply (f_equal fst) in Hc. vm_compute in Hc. symmetry. exact Hc. }
    destruct (create_reuses_or_starts w_dc w_profiles w_two w_hooks w_disk (λ _, []) (w_request "claude" "one") (w_input 8) _ _ (λ l, Permutation_refl l) Hc)
      as (_ & -> & _). reflexivity.
  - destruct (createSessionWithIdempotency w_dc w_profiles (λ _, sessions_run w_dc w_profiles []) (w_request "claude" "three") (w_input 8) (w_state w_two)) as [r s'] eqn:Hc.
    assert (r = Ok ("s-8000000000", true)) as ->.
    { apply (f_equal fst) in Hc. vm_compute in Hc. symmetry. exact Hc. }
    exists s'. split; [reflexivity|].
    destruct (create_reuses_or_starts w_dc w_profiles w_two w_hooks w_disk (λ _, []) (w_request "claude" "three") (w_input 8) _ _ (λ l, Permutation_refl l) Hc)
      as (Heq & _ & prof & sess & _ & _ & [[_ Hs]|(_ & s2 & launch & target & _ & _ & _ & _ & Hs & _)]); cbv zeta in Hs; rewrite Hs, <- Heq, lookup_insert_eq; by eexists.
Defined.
(** Two creations of one owner that overlap both find no session of that name, and
    both add one. *)
Lemma overlapping_creates_duplicate :
  (let first (w : CreateWait) := match w with AfterCheck => sessions_run w_dc w_profiles (w_pane_create (w_input 2)) | _ => λ s, s end in
   let '(r, s') := createSessionWithIdempotency w_dc w_profiles first (w_request "claude" "one") (w_input 1) (started w_hooks w_disk) in
   (r, (λ s, (ses_ID s, ses_Name s, ses_OwnerID s)) <$> (map_to_list (ds_sessions s')).*2)) =
  (Ok ("s-1000000000", true), [("s-1000000000", "one", "team"); ("s-2000000000", "one", "team")]).
Proof. vm_compute. reflexivity. Qed.
(** A prompt to a session that was killed makes it stuck, and a creation by its
    owner then gets the dead session back. *)
Definition w_revived : list SessionsOp :=
  w_two ++ [OpKill (KillSettle (Ok false)) "s-1000000000" (NewSession "s-1000000000" "one" "claude" "/work" (w_at 1)) false (w_kill (Ok false)); OpSettle "s-1000000000" "hello" (Some "no such pane") (w_at 6)].
Lemma killed_session_revived :
  (ses_State <$> ds_sessions (w_state w_revived) !! "s-1000000000",
   (createSessionWithIdempotency w_dc w_profiles w_alone (w_request "claude" "one") (w_input 8) (w_state w_revived)).1) =
  (Some StateStuck, Ok ("s-1000000000", false)).
Proof. vm_compute. reflexivity. Qed.
(** A session persisted while it was shaking hands is restored in that state, and
    nothing moves it on or watches its pane. *)
Definition w_shaking : list SessionsOp := w_pane_create (w_input 1) ++ [OpBegin "s-1000000000" (w_at 3); OpPersist].
Lemma handshake_never_resumed :
  let s := (restoreSessions w_dc w_profiles w_restore
    (mkSessions ∅ ∅ ∅ ∅ false NewEventBus w_hooks w_disk (ds_files (w_state w_shaking)) [] [])).2 in
  (ses_State <$> ds_sessions s !! "s-1000000000", map_to_list (ds_monitors s), ds_calls s) = (Some StateHandshaking, [], []).
Proof. vm_compute. reflexivity. Qed.
(** A creation whose pane cannot be made leaves the watcher of its hook file. *)
Lemma failed_create_keeps_watching :
  (let s := w_state (take 3 (w_pane_create (mkCreateInput (Some "/home/u") (w_at 1) true None (λ l, l)))) in
   (map_to_list (ds_sessions s), List.filter (λ c, match c with CallWatch _ | CallUnwatch _ => true | _ => false end) (ds_calls s))) =
  ([], [CallWatch "s-1000000000"]).
Proof. vm_compute. reflexivity. Qed.
